(* ===== verification/_CoqProject ===== *)
-Q . S2P
Prelude.v
ByteOrder.v
Protocol.v
BufferWriter.v
Leb128.v
Packet.v
Codec.v
CodecProofs.v
CodecTheorems.v
McbpParser.v
ClientRequest.v
ClientResponse.v
Commands.v
Topology.v
Retry.v
Operation.v
OperationProofs.v
OperationTheorems.v
Sessions.v
Lifecycle.v
Base64.v
Platform.v
Sasl.v
SaslTheorems.v
Websocket.v
WebsocketProofs.v
OperationQueue.v
Dispatch.v
Collections.v
Dns.v
AtrIds.v
Transactions.v
TransactionLinks.v
SubdocOps.v
Operations.v
ReplicaReads.v
ObservePoll.v
Attempt.v
AttemptProofs.v
Unstaging.v
UnstagingProofs.v
AttemptTheorems.v
TransactionOps.v
TransactionOpsProofs.v
TransactionReads.v
TransactionStaging.v
TransactionTheorems.v
TransactionTermination.v
TransactionCleanup.v
TransactionCleanupTheorems.v
RangeScanData.v
RangeScan.v
RangeScanProofs.v
RangeScanTheorems.v
