(* ===== verification/Prelude.v ===== *)
(** * Verification of the Couchbase C++ client

    This is the root of the development: the overview below, then the prelude
    (outcomes, lists, integers, hints and tactics) every other file requires.

    ** The program

    A cluster object ([core/cluster.cxx]) opens buckets ([core/bucket.cxx]).
    A bucket keeps one session ([core/io/mcbp_session.cxx]) per node of its
    configuration, maps the key of every operation to a node, hands the
    operation to the session of that node, defers it while there is no
    configuration, retries it when the server or the network asks for it and
    completes its handler.  A session writes packets of the memcached binary
    protocol, cuts what it reads into messages and finds the handler of a
    message by its opaque.  Two layers write packets: the older one builds a
    [client_request] from the body of a command, the newer one fills a
    [packet] for [codec::encode_packet].  Around these stand the cache of
    collection identifiers ([core/collections_component.cxx]), the queues of
    requests ([core/mcbp/operation_queue.cxx]), the retry orchestrators,
    codecs for base 64 and web sockets, and distributed transactions
    ([core/transactions/]), which stage mutations in the documents and make
    them visible by one write into a record of the attempt.

    ** Files

    Bytes and packets.
    - [ByteOrder.v]: [core/mcbp/big_endian.cxx], [core/utils/byteswap.hxx];
    - [Protocol.v]: the enumerations under [core/protocol/], their validity
      predicates, statuses and error codes;
    - [BufferWriter.v]: [core/mcbp/buffer_writer.cxx], a store that is refined
      to a log of appended bytes;
    - [Leb128.v]: [core/utils/unsigned_leb128.hxx];
    - [Packet.v], [Codec.v], [CodecProofs.v], [CodecTheorems.v]:
      [core/mcbp/packet.hxx], [core/mcbp/codec.cxx];
    - [McbpParser.v]: [core/io/mcbp_parser.cxx], [core/io/mcbp_message.cxx]
      and the loop of the session that feeds the parser;
    - [ClientRequest.v], [ClientResponse.v], [Commands.v]:
      [core/protocol/client_request.hxx], [client_response.hxx] and the
      bodies [cmd_*.cxx].  A body is an instance of the class [ResponseBody],
      and the safety of a response is proved against the law [SafeBody].

    Routing, retries, operations.
    - [Topology.v]: [core/topology/configuration.cxx], [core/utils/crc32.hxx];
    - [Sessions.v]: which session a bucket keeps for which node, and which
      configurations are accepted;
    - [Retry.v]: reasons, strategies, backoff and both orchestrators;
    - [Operation.v], [OperationProofs.v], [OperationTheorems.v]: the life of
      an operation.  The commands, sessions and the bucket, which the code
      shares by pointer, are a store [world] with identities; every entry
      point (a call, a message, a timer, a failing session, closing) is a
      transition [step], and [reachable] is the set of worlds that any
      sequence of them leads to;
    - [Lifecycle.v]: the contract of this machine as a transition system of
      four lines, and the refinement;
    - [OperationQueue.v]: [core/mcbp/queue_request.cxx],
      [operation_queue.cxx], [operation_consumer.cxx], again with the
      requests in a store and a step relation; what code under the mutex does
      is one step, and the test of a request and the invocation of its
      callback, which are not under it, are steps of their own ([threads]);
    - [Dispatch.v]: how the cluster, a bucket and a session accept, defer,
      refuse or retry such a request ([direct_dispatch], [direct_re_queue] and
      [resolve_response] in [core/cluster.cxx] and [core/bucket.cxx]), as a
      verdict on the request for what is found on the way ([cluster_view]);
    - [Collections.v]: [core/collections_component.cxx], over [Dispatch.v].

    Other codecs.
    - [Base64.v]: [core/platform/base64.cc];
    - [Websocket.v], [WebsocketProofs.v]: [core/websocket_codec.cxx];
    - [Dns.v]: [core/io/dns_codec.hxx], [dns_message.hxx] and the requests of
      [dns_client.cxx];
    - [Platform.v]: [core/platform/string_hex.cc] and [uuid.cc];
    - [Sasl.v], [SaslTheorems.v]: the mechanisms SCRAM, PLAIN and
      OAUTHBEARER ([core/sasl/]), over the digests and the key derivation of the
      class [OpenSSL], and a server of RFC 5802 to talk to.

    Operations on documents ([core/operations/]).
    - [SubdocOps.v]: [document_lookup_in.cxx], [document_mutate_in.cxx];
    - [Operations.v]: the fifteen operations that send one request, and
      [mcbp_command::send].  The class [Operation] is what a command uses of an
      operation; [OperationSpec] states what its packet is, and the theorems
      about sending are proved once, against it;
    - [ReplicaReads.v]: the reads from one or all replicas
      ([document_get_any_replica.hxx] and its three siblings).  Their handlers
      share a context; the class [ReplicaRead] is what differs between reads of
      documents and lookups, and [handler_laws] is what the machine needs of
      the handlers;
    - [ObservePoll.v]: legacy durability, [core/impl/observe_poll.cxx].

    Transactions ([core/transactions/]).
    - [AtrIds.v]: the table of record identifiers ([atr_ids.cxx]);
    - [Transactions.v]: error classes, failures ([exceptions_internal.hxx]),
      results, the requests an attempt sends, and the queue of staged
      mutations ([staged_mutation.cxx]) with a refinement to a map;
    - [Attempt.v]: the active transaction record, commit and rollback of an
      attempt ([attempt_context_impl.cxx]), the handling of its errors
      ([transaction_context.cxx]) and the loop of [transactions::run]
      ([transactions.cxx]).  What the code asks of the clock, the hooks and the
      servers is answered by an [environment], indexed by a count; every
      request goes to the log of the attempt, which the theorems are about.
      The user's code is an argument;
    - [AttemptProofs.v]: weakest preconditions for these actions and the
      lemmas about commit and rollback, against the laws [UnstagingLaws];
    - [Unstaging.v], [UnstagingProofs.v]: how staged mutations are committed
      and rolled back by tasks that a schedule interleaves; they implement
      the interface [Unstaging];
    - [AttemptTheorems.v]: the properties of attempts and of [run];
    - [TransactionLinks.v]: what documents and records show of transactions:
      JSON values, the metadata that staging writes and [create_from_subdoc]
      reads, the requirements of other clients ([forward_compat.cxx]) and the
      entries of records ([active_transaction_record.cxx]).  The class
      [Json] prints and parses JSON;
    - [TransactionOps.v]: the operations of an attempt ([get], [get_optional],
      [insert], [replace], [remove] in [attempt_context_impl.cxx]) from their
      first check to their callback; query mode is the interface [QueryMode];
    - [TransactionOpsProofs.v], [TransactionReads.v], [TransactionStaging.v],
      [TransactionTheorems.v], [TransactionTermination.v]: frames and how an
      operation ends; what reads return; how staging ends; the properties of
      operations and of sequences of them; their termination;
    - [TransactionCleanup.v], [TransactionCleanupTheorems.v]: the threads that
      finish the attempts of this client and those that other clients left
      ([atr_cleanup_entry.cxx], [transactions_cleanup.cxx]), with the actions of
      [Attempt.v]; the class [Cleanup] holds their hooks, whether they are to
      stop, and their configuration.

    Range scans ([core/range_scan_*.cxx]).
    - [RangeScanData.v]: options ([range_scan_options.hxx]), snapshots, the
      requests that create and continue a scan and the items in the answers
      ([crud_component.cxx]);
    - [RangeScan.v]: the load balancer ([range_scan_load_balancer.cxx]), streams
      and the orchestrator ([range_scan_orchestrator.cxx]) as a machine whose events are the answers
      of the nodes, the timers and the calls of the user; the interface
      [Channel] is asio's channel, [Shuffle] is [std::shuffle], with laws;
    - [RangeScanProofs.v], [RangeScanTheorems.v]: the invariant of the machine,
      and its properties.

    The names of the definitions are those of the functions and types of the
    source.  Fallible code returns [outcome E A] (below): [Err] is a returned
    error code or an exception, [Fault] is a behaviour the language does not
    define, [Diverge] an exhausted fuel.

    ** What the theorems show

    - Round trips: packets, LEB128, base 64, frames of web sockets, queries
      of the DNS and the specs of sub-document commands are read back as they
      were written.
    - Order: the specs of a sub-document operation are reordered for the
      wire, and the fields of its response are in the order of the caller
      unless it was sent again.
    - Equivalence: both layers write the same bytes, but for the order of two
      frames; the table-driven hash of
      keys is the CRC-32 of its bits; network selection is its declarative
      rule.
    - Safety and bounds: parsing arbitrary bytes from a peer reads within
      its buffers and ends, down to the bodies of responses; the inputs for
      which a bound does not hold are given (findings).
    - Invariants: a started operation waits with an armed deadline or has
      completed once, whatever the interleaving; a queued request is answered
      at most once ([request_answered_once]), and where a thread calls back too
      late is [late_response_throws]; the cache of collections is well formed.
    - Refinement: the machine of sessions, opaques and timers implements the
      contract of the service.
    - Liveness: reads from replicas end, and then their handler was invoked
      once; the deadline of a poll or an operation can fire and completes it.
    - Operations: every attempt of every operation is read back as its packet
      ([operation_on_wire]); a read from replicas answers with the first
      success or with all, under every interleaving; a durability poll succeeds
      when enough nodes have reported the mutation and, but for two levels,
      only then ([legacy_durability_success]).
    - Authentication: the client of SCRAM and a server that keeps the keys of
      its password accept each other ([scram_exchange]), and whatever a peer
      answers, the client accepts only the signature of the server
      ([scram_any_peer]).
    - Retries: framing extras are sent once per attempt
      ([resent_frames_accumulate]), and the fields of a lookup that was sent
      again are in the order of the wire ([retried_lookup_in_wire_order]).
    - Errors: what cancellation, a missing collection, full queues and
      malformed frames do, including where that is not what a comment says.
    - Transactions: the accepted write of COMMITTED into the record is final
      ([commit_point_is_final]); unstaging rewrites a document in another
      version than the staged one only after a conflict, and inserts or
      removes it otherwise ([unstage_commit_safe]); it keeps its bound on tasks in flight and ends
      once the transaction has expired, under every schedule; the commit of
      the record ends; attempts are bounded, and what happens when they are
      exhausted or when the creation of the record is ambiguous.
    - Transactions, operations: an operation stages its mutation and reports a
      result, or stages nothing and reports an error, once ([staging_atomic], in
      [TransactionTermination.v]); reads return what is committed, or what the
      attempt itself staged ([read_committed], with the exception of records
      that cannot be looked up); a document of another transaction that names its record
      is not overwritten before the record allows it
      ([conflicts_respected]); nothing is staged before the record exists
      ([staged_after_record]); a failure stops the attempt; every operation
      ends; metadata, records and times are read back as they are written.
    - Transactions, cleaning: what a thread sends follows the record it read
      ([cleanup_follows_record]) and is about attempts whose time has passed
      ([lost_attempts_have_expired]); the clients divide the records
      ([records_divided]) and a round visits those of its client
      ([round_covers]).
    - Range scans: a scan that ends before its limit has delivered every item
      that its partitions sent, and met no error but those a sampling scan
      passes over ([scan_complete]); the counters of the balancer
      are those of the streams that run ([scan_accounting]); a scan that has
      not ended waits for an event that is under way ([scan_progress]); the
      items of a payload are read back as the server wrote them
      ([scan_payload_roundtrip]).

    ** Fuel

    Loops that recurse on data are structural.  The others have fuel:
    the parser and the decoders of frames take the length of what is left,
    since every iteration consumes a byte; the loop of the web socket codec
    and the encoder of LEB128 take a bound on their iterations that a lemma
    shows to be enough; [map_and_send], [send] and [request_collection_id]
    call each other, and [map_and_send_terminates] shows that one unit of
    fuel is enough.  Each bound is a theorem of totality
    ([decode_packet_total], [websocket_read_bounds], ...), not an assumption.
    [retry_op] repeats without a bound: [atr_commit_terminates] shows that the
    number of questions until the transaction expires is enough fuel.  The
    loop of unstaging needs eight moves per mutation and one
    ([unstage_terminates]); the loop of [run] is bounded by its own count.
    The operations of an attempt need the number of questions until the
    transaction expires and 204 more, for the retries of two delays
    ([operations_terminate]).  A round over the records needs one more than
    there are records ([round_covers]).

    ** Assumptions

    - Third-party code is a parameter: snappy ([Snappy]), the JSON parser
      ([JsonParser]), the JSON texts of transactions and scans ([Json]),
      asio's channel ([Channel]) and [std::shuffle] ([Shuffle]),
      llhttp ([HttpParser]), digests and key derivation ([OpenSSL]), SHA-1 and random
      numbers as arguments, and [std::pow] and [std::round] of the server duration
      ([ServerDuration]).  Laws about them are hypotheses of the theorems
      that need them, and witnesses give instances.
    - The host is little endian, as [mcbp_parser] reads headers by [memcpy].
      [std::size_t] and pointers have 64 bits.
    - A handler of an event loop runs to its end before the next one starts.
      In [Operation.v] every handler is a transition, and a timer whose
      cancellation was requested does not fire.  In [OperationQueue.v] the
      bodies that hold a mutex are transitions, [close_consumer] is two of them
      because it locks twice, and threads interleave between them.
    - Memory is unbounded; allocation does not fail.

    ** Not modelled

    Sockets, TLS, the sockets of the DNS client, the bootstrap of a session and the timers
    themselves (asynchronous I/O over asio); HTTP services and management
    operations (texts built and read with a third-party JSON library);
    tracing, metrics and logging (no effect on results); the public API, the
    command line tools, the test server and the tests (conversions and
    drivers); the columnar client.  The bodies of commands that hold a JSON
    document are left out of [Commands.v].  [exponential_backoff] of the
    newer retry layer computes with doubles.
    Of transactions: query mode beyond the answers to COMMIT and ROLLBACK,
    bulk reads, and the start and the end of the threads that clean up, which
    are their bodies here.  The operations of
    one attempt follow each other, as the public interface of the synchronous
    transactions makes them; two operations at the same time are not
    interleaved.  The waits for operations in flight and the sleeps between
    retries are left out, and so are log messages and texts of errors.

    ** Plan

    In this order: the bootstrap of a session as a state machine, with the
    mechanisms of [Sasl.v]; the URL codec, durations and connection strings under
    [core/utils/]; operations of one attempt that run at the same time. *)

From stdpp Require Export base tactics numbers list list_numbers option strings gmap.
From Stdlib Require Export ZArith Lia.

#[export] Set Warnings "-clear-no-such-hyp".
#[global] Open Scope Z_scope.

(** ** Outcomes

    A C++ routine either returns a value, returns (or throws) an error, or
    executes something the language gives no meaning to: an index past the
    end of a container, a shift by more than the width of its operand.
    [Fault] is that last case; a [gsl::span] subscript that violates its
    contract (and so terminates the process) is a [Fault] too.  [Diverge] is
    produced only by the fuelled loops of the model when the fuel is
    exhausted; the theorems of each component show that the fuel it supplies
    is always enough. *)

Inductive outcome (E A : Type) : Type :=
  | Ok (a : A)
  | Err (e : E)
  | Fault
  | Diverge.
Arguments Ok {E A} a.
Arguments Err {E A} e.
Arguments Fault {E A}.
Arguments Diverge {E A}.

Global Instance outcome_ret E : MRet (outcome E) := λ A a, Ok a.

Global Instance outcome_bind E : MBind (outcome E) := λ A B f m,
  match m with
  | Ok a => f a
  | Err e => Err e
  | Fault => Fault
  | Diverge => Diverge
  end.

Global Instance outcome_fmap E : FMap (outcome E) := λ A B f m,
  match m with
  | Ok a => Ok (f a)
  | Err e => Err e
  | Fault => Fault
  | Diverge => Diverge
  end.

(** The code ran to a normal end: it neither faulted nor exhausted its fuel. *)
Definition defined {E A} (o : outcome E A) : Prop :=
  match o with Ok _ | Err _ => True | Fault | Diverge => False end.

Global Instance defined_dec {E A} (o : outcome E A) : Decision (defined o).
Proof. destruct o; solve [left; exact I | right; intros []]. Defined.

Global Instance outcome_eq_dec {E A} `{EqDecision E, EqDecision A} :
  EqDecision (outcome E A).
Proof. solve_decision. Defined.

Section outcome_lemmas.
Context {E A B C : Type}.

Lemma bind_Ok (m : outcome E A) (f : A → outcome E B) b :
  m ≫= f = Ok b ↔ ∃ a, m = Ok a ∧ f a = Ok b.
Proof. destruct m; simpl; naive_solver. Qed.

Lemma bind_assoc (m : outcome E A) (f : A → outcome E B) (g : B → outcome E C) :
  (m ≫= f) ≫= g = m ≫= (λ a, f a ≫= g).
Proof. by destruct m. Qed.

Lemma bind_defined (m : outcome E A) (f : A → outcome E B) :
  defined m → (∀ a, m = Ok a → defined (f a)) → defined (m ≫= f).
Proof. destruct m; simpl; naive_solver. Qed.

Lemma bind_not_diverge (m : outcome E A) (f : A → outcome E B) :
  m ≠ Diverge → (∀ a, m = Ok a → f a ≠ Diverge) → m ≫= f ≠ Diverge.
Proof. destruct m; simpl; naive_solver. Qed.

Lemma defined_Ok (m : outcome E A) a : m = Ok a → defined m.
Proof. by intros ->. Qed.
End outcome_lemmas.

(** ** Machine words

    A [w]-bit unsigned integer is a [Z] in [[0, 2^w)]; conversions and
    arithmetic that can leave the range are followed by [wrap w]. *)

Definition wrap (w : Z) (z : Z) : Z := z mod 2 ^ w.
Definition in_width (w : Z) (z : Z) : Prop := 0 ≤ z < 2 ^ w.

Global Instance in_width_dec w z : Decision (in_width w z).
Proof. unfold in_width. apply _. Defined.

Abbreviation u8 := (wrap 8).
Abbreviation u16 := (wrap 16).
Abbreviation u32 := (wrap 32).
Abbreviation u64 := (wrap 64).

Abbreviation is_u8 := (in_width 8).
Abbreviation is_u16 := (in_width 16).
Abbreviation is_u32 := (in_width 32).
Abbreviation is_u64 := (in_width 64).

(** [std::vector<std::byte>] and byte spans: lists of 8-bit words. *)
Abbreviation bytes := (list Z).
Abbreviation bytes_ok := (Forall (in_width 8)).

(** The bytes of a literal. *)
Definition ascii (s : string) : bytes :=
  map (λ c, Z.of_nat (Ascii.nat_of_ascii c)) (String.list_ascii_of_string s).

(** Container sizes are [std::size_t]; [zsize] is the [Z] the code computes with. *)
Definition zsize {A} (l : list A) : Z := Z.of_nat (length l).

(** [std::optional::has_value] *)
Definition has {A} (o : option A) : bool := match o with Some _ => true | None => false end.

(** ** Container access *)

(** [l[i]], a [Fault] outside the container. *)
Definition at_ {E A} (l : list A) (i : Z) : outcome E A :=
  if decide (0 ≤ i) then
    match l !! Z.to_nat i with Some x => Ok x | None => Fault end
  else Fault.

(** The [n] elements from index [i]: the range given to [memcpy], [insert] or
    an iterator pair, a [Fault] when it leaves the container. *)
Definition range {E A} (l : list A) (i n : Z) : outcome E (list A) :=
  if decide (0 ≤ i ∧ 0 ≤ n ∧ i + n ≤ zsize l) then
    Ok (take (Z.to_nat n) (drop (Z.to_nat i) l))
  else Fault.

(** Overwrite the elements from index [i] with [v]; the container keeps its size. *)
Definition overwrite {A} (l : list A) (i : nat) (v : list A) : list A :=
  take i l ++ v ++ drop (i + length v) l.

Definition store_range {E A} (l : list A) (i : Z) (v : list A) : outcome E (list A) :=
  if decide (0 ≤ i ∧ i + zsize v ≤ zsize l) then Ok (overwrite l (Z.to_nat i) v)
  else Fault.

(** [l.resize(n, d)] *)
Definition resize_to {A} (n : Z) (d : A) (l : list A) : list A :=
  resize (Z.to_nat n) d l.

(** ** Loops

    [while (cond s) s := body s] with a bound on the number of iterations. *)

Fixpoint while_loop {E St} (fuel : nat) (cond : St → bool)
    (body : St → outcome E St) (s : St) : outcome E St :=
  if cond s then
    match fuel with
    | O => Diverge
    | S n => s' ← body s; while_loop n cond body s'
    end
  else Ok s.

Section loops.
Context {E St : Type} (cond : St → bool) (body : St → outcome E St).

Lemma while_loop_unfold n s :
  while_loop n cond body s =
    if cond s then
      match n with O => Diverge | S n => s' ← body s; while_loop n cond body s' end
    else Ok s.
Proof. by destruct n. Qed.

Lemma while_loop_done n s : cond s = false → while_loop n cond body s = Ok s.
Proof. intros H. by rewrite while_loop_unfold, H. Qed.

Lemma while_loop_step n s s' :
  cond s = true → body s = Ok s' →
  while_loop (S n) cond body s = while_loop n cond body s'.
Proof. intros H1 H2. simpl. by rewrite H1, H2. Qed.

(** A loop whose body keeps an invariant and decreases a positive measure
    never exhausts a fuel of at least that measure. *)
Lemma while_loop_terminates (I : St → Prop) (m : St → nat) :
  (∀ s, I s → cond s = true → (0 < m s)%nat ∧ body s ≠ Diverge) →
  (∀ s s', I s → cond s = true → body s = Ok s' → I s' ∧ (m s' < m s)%nat) →
  ∀ n s, I s → (m s ≤ n)%nat → while_loop n cond body s ≠ Diverge.
Proof.
  intros Hb Hm n. induction n as [|n IH]; intros s Hs Hn; simpl;
    destruct (cond s) eqn:Hc; try done;
    destruct (Hb s Hs Hc) as [Hpos Hd]; [lia|].
  destruct (body s) as [s'| | |] eqn:Eb; simpl; try done.
  destruct (Hm s s' Hs Hc Eb). apply IH; [done|lia].
Qed.

(** Total correctness: a body that succeeds under the invariant, keeps it
    and decreases a measure. *)
Lemma while_loop_total (I : St → Prop) (m : St → nat) :
  (∀ s, I s → cond s = true → ∃ s', body s = Ok s' ∧ I s' ∧ (m s' < m s)%nat) →
  ∀ n s, I s → (m s ≤ n)%nat →
    ∃ s', while_loop n cond body s = Ok s' ∧ I s' ∧ cond s' = false.
Proof.
  intros Hb n. induction n as [|n IH]; intros s Hs Hn; simpl;
    destruct (cond s) eqn:Hc; try by eauto.
  - destruct (Hb s Hs Hc) as (s' & Hs' & HI & Hm). lia.
  - destruct (Hb s Hs Hc) as (s' & Hs' & HI & Hm). rewrite Hs'. simpl. apply IH; [done|lia].
Qed.

(** With more fuel than needed the result does not change. *)
Lemma while_loop_mono n n' s :
  (n ≤ n')%nat → while_loop n cond body s ≠ Diverge →
  while_loop n' cond body s = while_loop n cond body s.
Proof.
  revert n' s. induction n as [|n IH]; intros [|n'] s Hle Hd; simpl in *;
    try lia; destruct (cond s); try done.
  destruct (body s); simpl in *; try done. apply IH; [lia|done].
Qed.

(** Partial correctness by a loop invariant. *)
Lemma while_loop_inv (I : St → Prop) n s s' :
  (∀ s s', I s → cond s = true → body s = Ok s' → I s') →
  I s → while_loop n cond body s = Ok s' → I s' ∧ cond s' = false.
Proof.
  intros Hb. revert s. induction n as [|n IH]; intros s Hs; simpl;
    destruct (cond s) eqn:Hc; try done; try naive_solver.
  destruct (body s) as [s1| | |] eqn:Eb; simpl; try done. eauto.
Qed.
End loops.

(** ** Lemmas on words *)

Create HintDb words discriminated.
Create HintDb sizes discriminated.
Create Rewrite HintDb sizes.

Section words.
Lemma wrap_in_width w z : 0 ≤ w → in_width w (wrap w z).
Proof. intros. apply Z.mod_pos_bound. lia. Qed.

Lemma wrap_small w z : in_width w z → wrap w z = z.
Proof. intros. by apply Z.mod_small. Qed.

Lemma wrap_wrap w w' z : 0 ≤ w ≤ w' → wrap w (wrap w' z) = wrap w z.
Proof.
  intros. unfold wrap. symmetry.
  replace w' with (w + (w' - w)) by lia.
  rewrite Z.pow_add_r, Z.rem_mul_r by lia.
  rewrite (Z.mul_comm (2 ^ w)), Z.mod_add, Z.mod_mod by lia. done.
Qed.

Lemma in_width_weaken w w' z : in_width w z → w ≤ w' → in_width w' z.
Proof.
  unfold in_width. intros [??] ?. split; [done|].
  eapply Z.lt_le_trans; [done|]. apply Z.pow_le_mono_r; lia.
Qed.

(** Or-ing a value into bits it does not occupy is addition. *)
Lemma lor_shiftl_add a b k :
  in_width k a → 0 ≤ k → Z.lor a (Z.shiftl b k) = a + b * 2 ^ k.
Proof.
  intros Ha Hk. rewrite Z.shiftl_mul_pow2 by lia.
  rewrite Z.add_nocarry_lxor; [apply Z.bits_inj'; intros i Hi | apply Z.bits_inj'; intros i Hi];
    rewrite ?Z.lor_spec, ?Z.lxor_spec, ?Z.land_spec, ?Z.bits_0, Z.mul_pow2_bits by lia;
    (destruct (decide (i < k)); [rewrite (Z.testbit_neg_r b) by lia; by destruct (Z.testbit a i)|]);
    rewrite <-(Z.mod_small a (2 ^ k)), Z.mod_pow2_bits_high by (done || lia);
    by destruct (Z.testbit b (i - k)).
Qed.

Lemma lor_shiftl_add' a b k :
  in_width k a → 0 ≤ k → Z.lor (Z.shiftl b k) a = b * 2 ^ k + a.
Proof. intros. rewrite Z.lor_comm, lor_shiftl_add by done. lia. Qed.

Lemma land_ones_mod a k : 0 ≤ k → Z.land a (2 ^ k - 1) = a mod 2 ^ k.
Proof. intros. rewrite <-Z.land_ones by lia. f_equal. rewrite Z.ones_equiv. lia. Qed.

Lemma lxor_in_width w a b : 0 ≤ w → in_width w a → in_width w b → in_width w (Z.lxor a b).
Proof.
  intros Hw [Ha Ha'] [Hb Hb']. split; [by apply Z.lxor_nonneg|].
  destruct (decide (Z.lxor a b = 0)) as [->|Hn]; [lia|].
  assert (0 ≤ Z.lxor a b) by by apply Z.lxor_nonneg.
  apply Z.log2_lt_pow2; [lia|].
  eapply Z.le_lt_trans; [by apply Z.log2_lxor|].
  assert (a = 0 ∨ 0 < a) as [->|?] by lia; assert (b = 0 ∨ 0 < b) as [->|?] by lia;
    rewrite ?Z.max_lt_iff; try (rewrite Z.lxor_0_l in Hn); try (rewrite Z.lxor_0_r in Hn); try done;
    apply Z.max_lub_lt;
    try (apply Z.log2_lt_pow2; lia);
    destruct (decide (w = 0)) as [->|]; simpl in *; lia.
Qed.

Lemma lor_in_width w a b : 0 ≤ w → in_width w a → in_width w b → in_width w (Z.lor a b).
Proof.
  intros Hw [Ha Ha'] [Hb Hb']. split; [by apply Z.lor_nonneg|].
  rewrite <-(Z.mod_small a (2 ^ w)), <-(Z.mod_small b (2 ^ w)), <-!Z.land_ones by lia.
  rewrite <-Z.land_lor_distr_l, Z.land_ones by lia. apply Z.mod_pos_bound. lia.
Qed.

Lemma land_in_width w a b : 0 ≤ w → in_width w a → 0 ≤ b → in_width w (Z.land a b).
Proof.
  intros Hw [Ha Ha'] Hb. split; [apply Z.land_nonneg; lia|].
  rewrite <-(Z.mod_small a (2 ^ w)), <-Z.land_ones by lia.
  rewrite (Z.land_comm a), <-Z.land_assoc, Z.land_comm, Z.land_ones by lia.
  apply Z.mod_pos_bound. lia.
Qed.
End words.

#[export] Hint Resolve wrap_in_width lxor_in_width lor_in_width land_in_width : words.

(** Evaluates the closed powers of a goal and its hypotheses. *)
Ltac eval_pow :=
  repeat match goal with
         | |- context [Z.pow ?a ?b] =>
             let v := eval vm_compute in (Z.pow a b) in
             lazymatch v with Zpos _ => change (Z.pow a b) with v | Z0 => change (Z.pow a b) with v end
         | H : context [Z.pow ?a ?b] |- _ =>
             let v := eval vm_compute in (Z.pow a b) in
             lazymatch v with Zpos _ => change (Z.pow a b) with v in H | Z0 => change (Z.pow a b) with v in H end
         end.

Ltac width_lia :=
  unfold in_width, wrap in *; eval_pow;
  first [lia | Z.to_euclidean_division_equations; lia].

(** ** Lemmas on sizes, accesses and ranges *)

Section containers.
Context {A : Type}.
Implicit Types (l v : list A).

Lemma zsize_nonneg l : 0 ≤ zsize l.
Proof. unfold zsize. lia. Qed.
Lemma zsize_nil : zsize (@nil A) = 0.
Proof. done. Qed.
Lemma zsize_cons x l : zsize (x :: l) = 1 + zsize l.
Proof. unfold zsize. simpl. lia. Qed.
Lemma zsize_app l1 l2 : zsize (l1 ++ l2) = zsize l1 + zsize l2.
Proof. unfold zsize. rewrite length_app. lia. Qed.
Lemma zsize_replicate n (x : A) : zsize (replicate n x) = Z.of_nat n.
Proof. unfold zsize. by rewrite length_replicate. Qed.
Lemma zsize_0_inv l : zsize l = 0 → l = [].
Proof. unfold zsize. destruct l; simpl; [done|lia]. Qed.
Lemma zsize_drop n l : zsize (drop n l) = Z.max 0 (zsize l - Z.of_nat n).
Proof. unfold zsize. rewrite length_drop. lia. Qed.
Lemma zsize_take n l : zsize (take n l) = Z.min (Z.of_nat n) (zsize l).
Proof. unfold zsize. rewrite length_take. lia. Qed.
Lemma zsize_to_nat l : Z.to_nat (zsize l) = length l.
Proof. unfold zsize. lia. Qed.

Lemma at_lookup {E} l i :
  at_ (E:=E) l i = match (if decide (0 ≤ i) then l !! Z.to_nat i else None) with
                   | Some x => Ok x | None => Fault end.
Proof. unfold at_. by case_decide. Qed.

Lemma at_Some {E} l i x : 0 ≤ i → l !! Z.to_nat i = Some x → at_ (E:=E) l i = Ok x.
Proof. intros H1 H2. unfold at_. by rewrite decide_True, H2. Qed.

Lemma at_in_range {E} l i : 0 ≤ i < zsize l → ∃ x, at_ (E:=E) l i = Ok x ∧ l !! Z.to_nat i = Some x.
Proof.
  unfold zsize. intros H. destruct (lookup_lt_is_Some_2 l (Z.to_nat i)) as [x Hx]; [lia|].
  exists x. split; [|done]. apply at_Some; [lia|done].
Qed.

Lemma at_Ok {E} l i x : at_ (E:=E) l i = Ok x → 0 ≤ i < zsize l ∧ l !! Z.to_nat i = Some x.
Proof.
  unfold at_, zsize. case_decide; [|done]. destruct (l !! _) eqn:Hl; [|done].
  intros [= ->]. apply lookup_lt_Some in Hl as ?. split; [lia|done].
Qed.

Lemma at_out {E} l i : zsize l ≤ i → at_ (E:=E) l i = Fault.
Proof.
  unfold at_, zsize. intros. case_decide; [|done].
  by rewrite (proj2 (lookup_ge_None l (Z.to_nat i))) by lia.
Qed.

Lemma at_not_err {E} l i e : at_ (E:=E) l i ≠ Err e.
Proof. unfold at_. repeat case_match; done. Qed.

Lemma at_not_diverge {E} l i : at_ (E:=E) l i ≠ Diverge.
Proof. unfold at_. repeat case_match; done. Qed.

Lemma at_app_r {E} l1 l2 i :
  zsize l1 ≤ i → at_ (E:=E) (l1 ++ l2) i = at_ l2 (i - zsize l1).
Proof.
  unfold at_, zsize. intros. rewrite !decide_True by lia.
  rewrite lookup_app_r by lia. by replace (Z.to_nat i - length l1)%nat with (Z.to_nat (i - Z.of_nat (length l1))) by lia.
Qed.

Lemma at_app_l {E} l1 l2 i : i < zsize l1 → at_ (E:=E) (l1 ++ l2) i = at_ l1 i.
Proof.
  unfold at_, zsize. intros. case_decide; [|done]. by rewrite lookup_app_l by lia.
Qed.

Lemma at_app_0 {E} l1 x l2 : at_ (E:=E) (l1 ++ x :: l2) (zsize l1) = Ok x.
Proof. rewrite at_app_r, Z.sub_diag by lia. done. Qed.

Lemma at_app_1 {E} l1 x y l2 : at_ (E:=E) (l1 ++ x :: y :: l2) (zsize l1 + 1) = Ok y.
Proof. rewrite at_app_r, Z.add_simpl_l by lia. done. Qed.

Lemma range_app {E} l1 l2 l3 i n :
  i = zsize l1 → n = zsize l2 → range (E:=E) (l1 ++ l2 ++ l3) i n = Ok l2.
Proof.
  intros -> ->. unfold range. rewrite decide_True.
  - by rewrite !zsize_to_nat, drop_app_length, take_app_length.
  - rewrite !zsize_app. pose proof (zsize_nonneg l1). pose proof (zsize_nonneg l2).
    pose proof (zsize_nonneg l3). lia.
Qed.

Lemma range_app_end {E} l1 l2 i n :
  i = zsize l1 → n = zsize l2 → range (E:=E) (l1 ++ l2) i n = Ok l2.
Proof. intros Hi Hn. rewrite <-(range_app (E:=E) l1 l2 [] i n Hi Hn). by rewrite app_nil_r. Qed.

Lemma range_ok {E} l i n :
  0 ≤ i → 0 ≤ n → i + n ≤ zsize l →
  range (E:=E) l i n = Ok (take (Z.to_nat n) (drop (Z.to_nat i) l)).
Proof. intros. unfold range. by rewrite decide_True. Qed.

Lemma range_Ok {E} l i n v :
  range (E:=E) l i n = Ok v →
  0 ≤ i ∧ 0 ≤ n ∧ i + n ≤ zsize l ∧ v = take (Z.to_nat n) (drop (Z.to_nat i) l) ∧ zsize v = n.
Proof.
  unfold range. case_decide; [|done]. intros [= <-]. split_and!; try lia; [done|].
  rewrite zsize_take, zsize_drop. lia.
Qed.

Lemma range_not_diverge {E} l i n : range (E:=E) l i n ≠ Diverge.
Proof. unfold range. by case_decide. Qed.

Lemma range_not_err {E} l i n e : range (E:=E) l i n ≠ Err e.
Proof. unfold range. by case_decide. Qed.

Lemma overwrite_app l1 l2 l3 v :
  length v = length l2 → overwrite (l1 ++ l2 ++ l3) (length l1) v = l1 ++ v ++ l3.
Proof.
  intros Hv. unfold overwrite. rewrite take_app_length, Hv.
  rewrite <-drop_drop, drop_app_length. by rewrite drop_app_length.
Qed.

Lemma length_overwrite l i v :
  (i + length v ≤ length l)%nat → length (overwrite l i v) = length l.
Proof. intros. unfold overwrite. rewrite !length_app, length_take, length_drop. lia. Qed.

Lemma store_range_app {E} l1 l2 l3 v i :
  i = zsize l1 → length v = length l2 →
  store_range (E:=E) (l1 ++ l2 ++ l3) i v = Ok (l1 ++ v ++ l3).
Proof.
  intros -> Hv. unfold store_range. rewrite decide_True.
  - by rewrite zsize_to_nat, overwrite_app.
  - unfold zsize. rewrite !length_app. lia.
Qed.
End containers.

#[export] Hint Rewrite @zsize_nil @zsize_cons @zsize_app @zsize_replicate @zsize_drop @zsize_take : sizes.
#[export] Hint Resolve zsize_nonneg at_not_err at_not_diverge range_not_err range_not_diverge : sizes.

(** Linear arithmetic up to the sizes of appended lists. *)
Ltac size_lia :=
  autorewrite with sizes in *;
  repeat match goal with
         | |- context [zsize ?l] => first [is_evar l; fail 1 | assert_fails (assert (0 ≤ zsize l) by assumption);
                                          pose proof (zsize_nonneg l)]
         | H : context [zsize ?l] |- _ => assert_fails (assert (0 ≤ zsize l) by assumption);
                                          pose proof (zsize_nonneg l)
         end;
  lia.

(** Code without loops does not diverge: case analysis down to the accesses. *)
Ltac not_diverge :=
  repeat first
    [ discriminate
    | solve [eauto with sizes]
    | apply bind_not_diverge; [|intros ? _]
    | case_match ].
