(* ===== verification/ByteOrder.v ===== *)
(** * Byte order: [core/mcbp/big_endian.cxx] and [core/utils/byteswap.hxx]

    The readers and writers of big-endian integers used by the packet codec,
    and the [byte_swap] overloads used wherever a field is copied into or out
    of a message with [memcpy] on a little-endian host.  Both are related to
    the same reference functions [be_value] and [be_bytes]. *)

From S2P Require Import Prelude.

(** ** Reference functions *)

(** The integer whose big-endian representation is [bs]. *)
Fixpoint be_value_acc (acc : Z) (bs : bytes) : Z :=
  match bs with
  | [] => acc
  | b :: bs => be_value_acc (acc * 256 + b) bs
  end.
Definition be_value (bs : bytes) : Z := be_value_acc 0 bs.

(** The [n]-byte big-endian representation of [z] (its low [8 * n] bits). *)
Fixpoint be_bytes (n : nat) (z : Z) : bytes :=
  match n with
  | O => []
  | S n => u8 (z / 2 ^ (8 * Z.of_nat n)) :: be_bytes n z
  end.

(** What [memcpy] from and to an integer variable does on a little-endian host. *)
Definition le_value (bs : bytes) : Z := be_value (rev bs).
Definition le_bytes (n : nat) (z : Z) : bytes := rev (be_bytes n z).

(** ** [couchbase::core::mcbp::big_endian] *)

Module big_endian.
Section readers.
Context {E : Type}.

Definition read_uint64 (buffer : bytes) (offset : Z) : outcome E Z :=
  b7 ← at_ buffer (offset + 7); b6 ← at_ buffer (offset + 6);
  b5 ← at_ buffer (offset + 5); b4 ← at_ buffer (offset + 4);
  b3 ← at_ buffer (offset + 3); b2 ← at_ buffer (offset + 2);
  b1 ← at_ buffer (offset + 1); b0 ← at_ buffer (offset + 0);
  Ok (Z.lor (Z.lor (Z.lor (Z.lor (Z.lor (Z.lor (Z.lor b7
       (u64 (Z.shiftl b6 8))) (u64 (Z.shiftl b5 16))) (u64 (Z.shiftl b4 24)))
       (u64 (Z.shiftl b3 32))) (u64 (Z.shiftl b2 40))) (u64 (Z.shiftl b1 48)))
       (u64 (Z.shiftl b0 56))).

Definition read_uint32 (buffer : bytes) (offset : Z) : outcome E Z :=
  b3 ← at_ buffer (offset + 3); b2 ← at_ buffer (offset + 2);
  b1 ← at_ buffer (offset + 1); b0 ← at_ buffer (offset + 0);
  Ok (Z.lor (Z.lor (Z.lor b3 (u32 (Z.shiftl b2 8))) (u32 (Z.shiftl b1 16)))
       (u32 (Z.shiftl b0 24))).

Definition read_uint16 (buffer : bytes) (offset : Z) : outcome E Z :=
  b1 ← at_ buffer (offset + 1); b0 ← at_ buffer (offset + 0);
  Ok (u16 (Z.lor b1 (u32 (Z.shiftl b0 8)))).

Definition read_uint8 (buffer : bytes) (offset : Z) : outcome E Z :=
  at_ buffer offset.

(** [std::memcpy] of [length] bytes: no bounds check in the source, so an
    out-of-range request is a [Fault]. *)
Definition read (buffer : bytes) (offset length : Z) : outcome E bytes :=
  range buffer offset length.

Definition put_uint32 (dst : bytes) (value : Z) : outcome E bytes :=
  store_range dst 0
    [u8 (Z.shiftr value 24); u8 (Z.shiftr value 16); u8 (Z.shiftr value 8); u8 value].

Definition put_uint64 (dst : bytes) (value : Z) : outcome E bytes :=
  store_range dst 0 (map (λ i, u8 (Z.shiftr value (56 - i * 8))) (seqZ 0 8)).
End readers.
End big_endian.

(** ** [couchbase::core::utils::byte_swap] *)

Definition byte_swap16 (value : Z) : Z :=
  let hi := u16 (Z.shiftl value 8) in
  let lo := u16 (Z.shiftr value 8) in
  Z.lor hi lo.

Definition byte_swap32 (value : Z) : Z :=
  let byte0 := Z.land value 0x000000ff in
  let byte1 := Z.land value 0x0000ff00 in
  let byte2 := Z.land value 0x00ff0000 in
  let byte3 := Z.land value 0xff000000 in
  Z.lor (Z.lor (Z.lor (u32 (Z.shiftl byte0 24)) (u32 (Z.shiftl byte1 8)))
    (Z.shiftr byte2 8)) (Z.shiftr byte3 24).

Definition byte_swap64 (value : Z) : Z :=
  let hi := byte_swap32 (u32 value) in
  let lo := byte_swap32 (u32 (Z.shiftr value 32)) in
  Z.lor (u64 (Z.shiftl hi 32)) lo.

(** ** Reference lemmas *)

Lemma be_value_acc_spec acc bs :
  be_value_acc acc bs = acc * 256 ^ zsize bs + be_value bs.
Proof.
  unfold be_value. revert acc. induction bs as [|b bs IH]; intros acc; simpl.
  - rewrite zsize_nil. lia.
  - rewrite IH, (IH (0 * 256 + b)), zsize_cons, Z.pow_add_r by size_lia. lia.
Qed.

Lemma be_value_nil : be_value [] = 0.
Proof. done. Qed.

Lemma be_value_cons b bs : be_value (b :: bs) = b * 256 ^ zsize bs + be_value bs.
Proof. unfold be_value at 1. simpl. by rewrite be_value_acc_spec. Qed.

Lemma be_value_app l1 l2 :
  be_value (l1 ++ l2) = be_value l1 * 256 ^ zsize l2 + be_value l2.
Proof.
  induction l1 as [|b l1 IH]; [done|].
  rewrite <-app_comm_cons, !be_value_cons, IH, zsize_app, Z.pow_add_r by size_lia. lia.
Qed.

Lemma be_value_bound bs : bytes_ok bs → 0 ≤ be_value bs < 256 ^ zsize bs.
Proof.
  induction 1 as [|b bs Hb _ IH]; [done|].
  rewrite be_value_cons, zsize_cons, Z.pow_add_r by size_lia.
  unfold in_width in Hb. simpl Z.pow in *. nia.
Qed.

Lemma length_be_bytes n z : length (be_bytes n z) = n.
Proof. induction n; simpl; congruence. Qed.

Lemma zsize_be_bytes n z : zsize (be_bytes n z) = Z.of_nat n.
Proof. unfold zsize. by rewrite length_be_bytes. Qed.

Lemma be_bytes_ok n z : bytes_ok (be_bytes n z).
Proof. induction n; simpl; constructor; auto with words lia. Qed.

Lemma be_value_be_bytes n z : be_value (be_bytes n z) = wrap (8 * Z.of_nat n) z.
Proof.
  induction n as [|n IH]; [by unfold wrap; rewrite Z.mod_1_r|].
  cbn [be_bytes]. rewrite be_value_cons, zsize_be_bytes, IH. unfold wrap.
  replace (8 * Z.of_nat (S n)) with (8 * Z.of_nat n + 8) by lia.
  change 256 with (2 ^ 8). rewrite <-Z.pow_mul_r, Z.pow_add_r by lia.
  rewrite (Z.rem_mul_r z (2 ^ (8 * Z.of_nat n)) (2 ^ 8)) by lia. lia.
Qed.

Lemma be_value_be_bytes_small n z :
  in_width (8 * Z.of_nat n) z → be_value (be_bytes n z) = z.
Proof. intros. by rewrite be_value_be_bytes, wrap_small. Qed.

Lemma be_bytes_mod n z z' :
  wrap (8 * Z.of_nat n) z = wrap (8 * Z.of_nat n) z' → be_bytes n z = be_bytes n z'.
Proof.
  induction n as [|n IH]; [done|]. intros H.
  assert (Hn : wrap (8 * Z.of_nat n) z = wrap (8 * Z.of_nat n) z').
  { rewrite <-(wrap_wrap _ (8 * Z.of_nat (S n)) z), H, wrap_wrap; [done|lia..]. }
  cbn [be_bytes]. rewrite (IH Hn). f_equal.
  unfold wrap in *. replace (8 * Z.of_nat (S n)) with (8 * Z.of_nat n + 8) in H by lia.
  rewrite !Z.pow_add_r, !Z.rem_mul_r in H by lia.
  rewrite Hn in H. nia.
Qed.

Lemma be_bytes_be_value bs n :
  bytes_ok bs → length bs = n → be_bytes n (be_value bs) = bs.
Proof.
  intros Hbs <-. induction Hbs as [|b bs Hb Hbs IH]; [done|].
  cbn [be_bytes length]. rewrite be_value_cons. pose proof (be_value_bound bs Hbs) as Hv.
  assert (Hp : 2 ^ (8 * Z.of_nat (length bs)) = 256 ^ zsize bs).
  { unfold zsize. rewrite Z.pow_mul_r by lia. done. }
  f_equal.
  - rewrite Hp, Z.div_add_l, Z.div_small, Z.add_0_r by lia. by apply wrap_small.
  - etrans; [apply be_bytes_mod|exact IH]. unfold wrap. rewrite Hp.
    rewrite Z.add_comm, Z.mod_add by lia. done.
Qed.

Lemma be_value_inj bs bs' :
  bytes_ok bs → bytes_ok bs' → length bs = length bs' →
  be_value bs = be_value bs' → bs = bs'.
Proof.
  intros H H' Hl Hv.
  rewrite <-(be_bytes_be_value bs (length bs)), <-(be_bytes_be_value bs' (length bs)) by done.
  by rewrite Hv.
Qed.

(** ** The readers compute [be_value] of the bytes they read *)

Lemma lor_mul_add a b k : in_width k a → 0 ≤ k → Z.lor a (b * 2 ^ k) = a + b * 2 ^ k.
Proof. intros. rewrite <-lor_shiftl_add by done. by rewrite Z.shiftl_mul_pow2. Qed.

Lemma lor_mul_add' a b k : in_width k a → 0 ≤ k → Z.lor (b * 2 ^ k) a = b * 2 ^ k + a.
Proof. intros. rewrite Z.lor_comm, lor_mul_add by done. lia. Qed.

Lemma bytes_ok_app l1 l2 : bytes_ok (l1 ++ l2) ↔ bytes_ok l1 ∧ bytes_ok l2.
Proof. apply Forall_app. Qed.

(** Turns a disjunction of shifted bytes into a sum. *)
Ltac lor_bytes :=
  rewrite ?Z.shiftl_mul_pow2 by lia;
  repeat match goal with
         | |- context [wrap ?w (?b * 2 ^ ?k)] =>
             rewrite (wrap_small w (b * 2 ^ k)) by width_lia
         end;
  repeat match goal with
         | |- context [Z.lor ?a (?b * 2 ^ ?k)] =>
             lazymatch a with
             | context [Z.lor _ _] => fail
             | _ => rewrite (lor_mul_add a b k) by width_lia
             end
         end.

Section readers_spec.
Context {E : Type}.
Implicit Types (l bs : bytes).

Lemma read_uint16_app l1 bs l2 off :
  off = zsize l1 → bytes_ok bs → length bs = 2%nat →
  big_endian.read_uint16 (E:=E) (l1 ++ bs ++ l2) off = Ok (be_value bs).
Proof.
  intros -> Hbs Hl. destruct bs as [|b0 [|b1 [|]]]; try done. clear Hl.
  decompose_Forall_hyps. unfold big_endian.read_uint16.
  rewrite !at_app_r by size_lia.
  replace (zsize l1 + 1 - zsize l1) with 1 by lia.
  replace (zsize l1 + 0 - zsize l1) with 0 by lia. simpl.
  unfold at_. simpl. rewrite !be_value_cons, be_value_nil, !zsize_cons, zsize_nil.
  f_equal. lor_bytes. width_lia.
Qed.

Lemma read_uint32_app l1 bs l2 off :
  off = zsize l1 → bytes_ok bs → length bs = 4%nat →
  big_endian.read_uint32 (E:=E) (l1 ++ bs ++ l2) off = Ok (be_value bs).
Proof.
  intros -> Hbs Hl. do 5 (destruct bs as [|? bs]; try done). clear Hl.
  decompose_Forall_hyps. unfold big_endian.read_uint32.
  rewrite !at_app_r by size_lia.
  rewrite ?Z.add_simpl_l. unfold at_. simpl.
  rewrite !be_value_cons, be_value_nil, !zsize_cons, zsize_nil.
  f_equal. lor_bytes. width_lia.
Qed.

Lemma read_uint64_app l1 bs l2 off :
  off = zsize l1 → bytes_ok bs → length bs = 8%nat →
  big_endian.read_uint64 (E:=E) (l1 ++ bs ++ l2) off = Ok (be_value bs).
Proof.
  intros -> Hbs Hl. do 9 (destruct bs as [|? bs]; try done). clear Hl.
  decompose_Forall_hyps. unfold big_endian.read_uint64.
  rewrite !at_app_r by size_lia.
  rewrite ?Z.add_simpl_l. unfold at_. simpl.
  rewrite !be_value_cons, be_value_nil, !zsize_cons, zsize_nil.
  f_equal. lor_bytes. width_lia.
Qed.

Lemma read_uint8_app l1 b l2 off :
  off = zsize l1 → big_endian.read_uint8 (E:=E) (l1 ++ b :: l2) off = Ok b.
Proof.
  intros ->. unfold big_endian.read_uint8. rewrite at_app_r by size_lia.
  rewrite Z.sub_diag. done.
Qed.
End readers_spec.

(** ** [put_uint32] and [put_uint64] store [be_bytes] *)

Lemma be_bytes_2 v : [u8 (Z.shiftr v 8); u8 v] = be_bytes 2 v.
Proof. cbn [be_bytes]. rewrite Z.shiftr_div_pow2 by lia. simpl. by rewrite Z.div_1_r. Qed.

Lemma be_bytes_4 v :
  [u8 (Z.shiftr v 24); u8 (Z.shiftr v 16); u8 (Z.shiftr v 8); u8 v] = be_bytes 4 v.
Proof. cbn [be_bytes]. rewrite !Z.shiftr_div_pow2 by lia. simpl. by rewrite Z.div_1_r. Qed.

Lemma be_bytes_8 v :
  [u8 (Z.shiftr v 56); u8 (Z.shiftr v 48); u8 (Z.shiftr v 40); u8 (Z.shiftr v 32);
   u8 (Z.shiftr v 24); u8 (Z.shiftr v 16); u8 (Z.shiftr v 8); u8 v] = be_bytes 8 v.
Proof. cbn [be_bytes]. rewrite !Z.shiftr_div_pow2 by lia. simpl. by rewrite Z.div_1_r. Qed.

Lemma put_uint32_spec {E} dst v :
  length dst = 4%nat → big_endian.put_uint32 (E:=E) dst v = Ok (be_bytes 4 v).
Proof.
  intros Hl. unfold big_endian.put_uint32. rewrite be_bytes_4.
  pose proof (store_range_app (E:=E) [] dst [] (be_bytes 4 v) 0) as H.
  rewrite !app_nil_r in H. apply H; [done|by rewrite length_be_bytes].
Qed.

(** ** [byte_swap] converts between the host's and the network's order *)

Lemma land_mask v k n :
  0 ≤ k → 0 ≤ n → Z.land v (Z.shiftl (Z.ones n) k) = (v / 2 ^ k) mod 2 ^ n * 2 ^ k.
Proof.
  intros Hk Hn. rewrite <-Z.land_ones, <-Z.shiftr_div_pow2, <-Z.shiftl_mul_pow2 by lia.
  apply Z.bits_inj'. intros i Hi. rewrite Z.land_spec, !Z.shiftl_spec by lia.
  destruct (decide (i < k)).
  - by rewrite !(Z.testbit_neg_r _ (i - k)), andb_false_r by lia.
  - rewrite Z.land_spec, Z.shiftr_spec by lia. by replace (i - k + k) with i by lia.
Qed.

Lemma byte_swap16_spec v :
  is_u16 v → byte_swap16 v = v mod 256 * 256 + v / 256.
Proof.
  intros Hv. unfold byte_swap16. rewrite Z.shiftl_mul_pow2, Z.shiftr_div_pow2 by lia.
  assert (u16 (v * 2 ^ 8) = v mod 256 * 2 ^ 8) as -> by width_lia.
  rewrite wrap_small by width_lia. rewrite lor_mul_add' by width_lia. done.
Qed.

Lemma byte_swap32_spec v :
  is_u32 v →
  byte_swap32 v = v mod 256 * 2 ^ 24 + v / 2 ^ 8 mod 256 * 2 ^ 16
                  + v / 2 ^ 16 mod 256 * 2 ^ 8 + v / 2 ^ 24.
Proof.
  intros Hv. unfold byte_swap32.
  change 0x000000ff with (Z.shiftl (Z.ones 8) 0).
  change 0x0000ff00 with (Z.shiftl (Z.ones 8) 8).
  change 0x00ff0000 with (Z.shiftl (Z.ones 8) 16).
  change 0xff000000 with (Z.shiftl (Z.ones 8) 24).
  rewrite !land_mask, !Z.shiftl_mul_pow2, !Z.shiftr_div_pow2 by lia.
  set (b0 := (v / 2 ^ 0) mod 2 ^ 8). set (b1 := (v / 2 ^ 8) mod 2 ^ 8).
  set (b2 := (v / 2 ^ 16) mod 2 ^ 8). set (b3 := (v / 2 ^ 24) mod 2 ^ 8).
  assert (∀ x, 0 ≤ x mod 2 ^ 8 < 256) as Hb by (intros; apply Z.mod_pos_bound; lia).
  pose proof (Hb (v / 2 ^ 0)) as H. pose proof (Hb (v / 2 ^ 8)) as H0.
  pose proof (Hb (v / 2 ^ 16)) as H1. pose proof (Hb (v / 2 ^ 24)) as H2.
  fold b0 in H. fold b1 in H0. fold b2 in H1. fold b3 in H2.
  replace (u32 (b0 * 2 ^ 0 * 2 ^ 24)) with (b0 * 2 ^ 24) by width_lia.
  replace (u32 (b1 * 2 ^ 8 * 2 ^ 8)) with (b1 * 2 ^ 16) by width_lia.
  replace (b2 * 2 ^ 16 / 2 ^ 8) with (b2 * 2 ^ 8) by width_lia.
  replace (b3 * 2 ^ 24 / 2 ^ 24) with b3 by width_lia.
  rewrite <-!Z.lor_assoc.
  rewrite (lor_mul_add' b3 b2 8) by width_lia.
  rewrite (lor_mul_add' (b2 * 2 ^ 8 + b3) b1 16) by width_lia.
  rewrite (lor_mul_add' (b1 * 2 ^ 16 + (b2 * 2 ^ 8 + b3)) b0 24) by width_lia.
  subst b0 b1 b2 b3. rewrite (Z.mod_small (v / 2 ^ 24)) by width_lia.
  rewrite Z.pow_0_r, Z.div_1_r. eval_pow. lia.
Qed.

Lemma byte_swap16_le bs :
  bytes_ok bs → length bs = 2%nat → byte_swap16 (le_value bs) = be_value bs.
Proof.
  intros Hbs Hl. do 3 (destruct bs as [|? bs]; try done). clear Hl.
  decompose_Forall_hyps. unfold le_value. simpl rev.
  rewrite !be_value_cons, be_value_nil, !zsize_cons, zsize_nil.
  rewrite byte_swap16_spec by width_lia. width_lia.
Qed.

Lemma byte_swap32_le bs :
  bytes_ok bs → length bs = 4%nat → byte_swap32 (le_value bs) = be_value bs.
Proof.
  intros Hbs Hl. do 5 (destruct bs as [|? bs]; try done). clear Hl.
  decompose_Forall_hyps. unfold le_value. simpl rev.
  rewrite !be_value_cons, be_value_nil, !zsize_cons, zsize_nil.
  rewrite byte_swap32_spec by width_lia. width_lia.
Qed.

Lemma le_value_app l1 l2 :
  le_value (l1 ++ l2) = le_value l2 * 256 ^ zsize l1 + le_value l1.
Proof. unfold le_value. rewrite rev_app_distr, be_value_app. unfold zsize. by rewrite length_rev. Qed.

Lemma bytes_ok_rev bs : bytes_ok (rev bs) ↔ bytes_ok bs.
Proof. split; intros H; [rewrite <-(rev_involutive bs)|]; by apply Forall_rev. Qed.

Lemma le_value_bound bs : bytes_ok bs → 0 ≤ le_value bs < 256 ^ zsize bs.
Proof.
  intros H%bytes_ok_rev%be_value_bound. unfold le_value.
  unfold zsize in *. by rewrite length_rev in H.
Qed.

Lemma byte_swap64_le bs :
  bytes_ok bs → length bs = 8%nat → byte_swap64 (le_value bs) = be_value bs.
Proof.
  intros Hbs Hl. rewrite <-(take_drop 4 bs) in *.
  assert (length (take 4 bs) = 4%nat ∧ length (drop 4 bs) = 4%nat) as [H1 H2].
  { rewrite length_take, length_drop. rewrite take_drop in Hl. lia. }
  set (l1 := take 4 bs) in *. set (l2 := drop 4 bs) in *.
  apply bytes_ok_app in Hbs as [Hb1 Hb2].
  rewrite le_value_app, be_value_app.
  pose proof (le_value_bound l1 Hb1) as L1. pose proof (le_value_bound l2 Hb2) as L2.
  pose proof (be_value_bound l1 Hb1) as B1. pose proof (be_value_bound l2 Hb2) as B2.
  unfold zsize in *. rewrite H1, H2 in *. change (256 ^ Z.of_nat 4) with (2 ^ 32) in *.
  unfold byte_swap64. rewrite Z.shiftr_div_pow2 by lia.
  assert (u32 (le_value l2 * 2 ^ 32 + le_value l1) = le_value l1) as -> by width_lia.
  assert (u32 ((le_value l2 * 2 ^ 32 + le_value l1) / 2 ^ 32) = le_value l2) as -> by width_lia.
  rewrite !byte_swap32_le by done. rewrite Z.shiftl_mul_pow2 by lia.
  rewrite wrap_small by width_lia. by rewrite lor_mul_add' by width_lia.
Qed.

(** The converse direction, for any swap that satisfies the lemma above:
    storing a swapped field with [memcpy] writes it in network order. *)
Lemma swap_store (swap : Z → Z) n v :
  (∀ bs, bytes_ok bs → length bs = n → swap (le_value bs) = be_value bs) →
  in_width (8 * Z.of_nat n) v → le_bytes n (swap v) = be_bytes n v.
Proof.
  intros Hswap Hv. set (bs := be_bytes n v).
  assert (Hok : bytes_ok (rev bs)) by (apply bytes_ok_rev, be_bytes_ok).
  assert (Hlen : length (rev bs) = n) by (by rewrite length_rev; apply length_be_bytes).
  assert (Hsv : v = le_value (rev bs)).
  { unfold le_value, bs. by rewrite rev_involutive, be_value_be_bytes_small. }
  rewrite Hsv at 1. rewrite Hswap by done. unfold le_bytes. rewrite be_bytes_be_value by done.
  by rewrite rev_involutive.
Qed.

Definition byte_swap16_store v := swap_store byte_swap16 2 v byte_swap16_le.
Definition byte_swap32_store v := swap_store byte_swap32 4 v byte_swap32_le.
Definition byte_swap64_store v := swap_store byte_swap64 8 v byte_swap64_le.

Lemma le_value_le_bytes n v : in_width (8 * Z.of_nat n) v → le_value (le_bytes n v) = v.
Proof. intros. unfold le_value, le_bytes. by rewrite rev_involutive, be_value_be_bytes_small. Qed.

Lemma length_le_bytes n z : length (le_bytes n z) = n.
Proof. unfold le_bytes. by rewrite length_rev, length_be_bytes. Qed.
