(* ===== verification/Protocol.v ===== *)
(** * Protocol vocabulary

    The enumerations of the memcached binary protocol and their validity
    checks: [core/protocol/magic.hxx], [client_opcode.hxx],
    [hello_feature.hxx], [datatype.hxx], [frame_info_id.hxx], [status.hxx],
    [status.cxx], [core/error_context/key_value_status_code.hxx] and the
    command predicates of [core/mcbp/command_code.cxx]; the error enumerations
    of [couchbase/error_codes.hxx] that these components return.

    A C++ [enum class] with a fixed underlying type holds any value of that
    type, so a field read from the wire is its integer code; the enumerators
    are the constructors of an inductive type, and a [switch] on the field
    compares codes. *)

From S2P Require Import Prelude.

(** ** Enumerations with integer codes *)

Definition find_code {T} (code : T → Z) (all : list T) (z : Z) : option T :=
  find (λ x, code x =? z) all.

Class Enum (T : Type) := MkEnum {
  enum_code : T → Z;
  enum_all : list T;
  enum_of_code_code : ∀ x, find_code enum_code enum_all (enum_code x) = Some x;
}.

Section enum.
Context `{Enum T}.

Definition enum_of_code (z : Z) : option T := find_code enum_code enum_all z.

(** The raw field [z] holds the enumerator [x]. *)
Definition is_enum (z : Z) (x : T) : bool := enum_code x =? z.

(** A [switch] whose listed labels are [xs]. *)
Definition is_one_of (z : Z) (xs : list T) : bool := existsb (is_enum z) xs.

Lemma enum_code_inj x y : enum_code x = enum_code y → x = y.
Proof.
  intros Heq. pose proof (enum_of_code_code x) as Hx. rewrite Heq, enum_of_code_code in Hx.
  congruence.
Qed.

#[global] Instance enum_eq_dec : EqDecision T.
Proof.
  refine (λ x y, cast_if (decide (enum_code x = enum_code y)));
    [by apply enum_code_inj|congruence].
Defined.

Lemma enum_of_code_Some z x : enum_of_code z = Some x ↔ enum_code x = z.
Proof.
  split; [|intros <-; apply enum_of_code_code].
  intros [_ Hz]%find_some. by apply Z.eqb_eq.
Qed.

Lemma is_enum_code x y : is_enum (enum_code x) y = bool_decide (x = y).
Proof.
  unfold is_enum. case_bool_decide as Hxy; [subst; apply Z.eqb_refl|].
  apply Z.eqb_neq. intros Heq. by apply Hxy, enum_code_inj.
Qed.

Lemma is_one_of_spec z xs : is_one_of z xs = true ↔ ∃ x, x ∈ xs ∧ enum_code x = z.
Proof.
  unfold is_one_of. rewrite existsb_exists. unfold is_enum.
  setoid_rewrite Z.eqb_eq. setoid_rewrite <-list_elem_of_In. done.
Qed.

Lemma enum_all_complete x : x ∈ enum_all.
Proof.
  pose proof (enum_of_code_code x) as [Hin _]%find_some. by apply list_elem_of_In.
Qed.
End enum.

Module Magic.
(** [protocol::magic] *)
Inductive magic :=
  | invalid | client_request | alt_client_request | client_response
  | alt_client_response | server_request | server_response.

Definition magic_code (x : magic) : Z :=
  match x with
  | invalid => 0x00 | client_request => 0x80 | alt_client_request => 0x08
  | client_response => 0x81 | alt_client_response => 0x18 | server_request => 0x82
  | server_response => 0x83
  end.

Definition magic_all : list magic :=
  [invalid; client_request; alt_client_request; client_response;
   alt_client_response; server_request; server_response].

Global Instance magic_enum : Enum magic.
Proof. refine (MkEnum _ magic_code magic_all _). by intros []. Defined.
End Magic.
Export (hints) Magic.

Definition is_valid_magic (code : Z) : bool :=
  is_one_of code [Magic.client_request; Magic.alt_client_request; Magic.client_response;
                  Magic.alt_client_response; Magic.server_request; Magic.server_response].

Module ClientOpcode.
(** [protocol::client_opcode] *)
Inductive client_opcode :=
  | get | upsert | insert | replace
  | remove | increment | decrement | noop
  | version | append | prepend | stat
  | verbosity | touch | get_and_touch | hello
  | sasl_list_mechs | sasl_auth | sasl_step | get_all_vbucket_seqnos
  | dcp_open | dcp_add_stream | dcp_close_stream | dcp_stream_request
  | dcp_get_failover_log | dcp_stream_end | dcp_snapshot_marker | dcp_mutation
  | dcp_deletion | dcp_expiration | dcp_set_vbucket_state | dcp_noop
  | dcp_buffer_acknowledgement | dcp_control | dcp_system_event | dcp_prepare
  | dcp_seqno_acknowledged | dcp_commit | dcp_abort | dcp_seqno_advanced
  | dcp_oso_snapshot | get_replica | list_buckets | select_bucket
  | observe_seqno | observe | evict_key | get_and_lock
  | unlock | get_failover_log | last_closed_checkpoint | get_meta
  | upsert_with_meta | insert_with_meta | remove_with_meta | create_checkpoint
  | checkpoint_persistence | return_meta | get_random_key | seqno_persistence
  | get_keys | set_collections_manifest | get_collections_manifest | get_collection_id
  | get_scope_id | subdoc_multi_lookup | subdoc_multi_mutation | get_cluster_config
  | get_error_map | range_scan_create | range_scan_continue | range_scan_cancel
  | invalid.

Definition client_opcode_code (x : client_opcode) : Z :=
  match x with
  | get => 0x00 | upsert => 0x01 | insert => 0x02
  | replace => 0x03 | remove => 0x04 | increment => 0x05
  | decrement => 0x06 | noop => 0x0a | version => 0x0b
  | append => 0x0e | prepend => 0x0f | stat => 0x10
  | verbosity => 0x1b | touch => 0x1c | get_and_touch => 0x1d
  | hello => 0x1f | sasl_list_mechs => 0x20 | sasl_auth => 0x21
  | sasl_step => 0x22 | get_all_vbucket_seqnos => 0x48 | dcp_open => 0x50
  | dcp_add_stream => 0x51 | dcp_close_stream => 0x52 | dcp_stream_request => 0x53
  | dcp_get_failover_log => 0x54 | dcp_stream_end => 0x55 | dcp_snapshot_marker => 0x56
  | dcp_mutation => 0x57 | dcp_deletion => 0x58 | dcp_expiration => 0x59
  | dcp_set_vbucket_state => 0x5b | dcp_noop => 0x5c | dcp_buffer_acknowledgement => 0x5d
  | dcp_control => 0x5e | dcp_system_event => 0x5f | dcp_prepare => 0x60
  | dcp_seqno_acknowledged => 0x61 | dcp_commit => 0x62 | dcp_abort => 0x63
  | dcp_seqno_advanced => 0x64 | dcp_oso_snapshot => 0x65 | get_replica => 0x83
  | list_buckets => 0x87 | select_bucket => 0x89 | observe_seqno => 0x91
  | observe => 0x92 | evict_key => 0x93 | get_and_lock => 0x94
  | unlock => 0x95 | get_failover_log => 0x96 | last_closed_checkpoint => 0x97
  | get_meta => 0xa0 | upsert_with_meta => 0xa2 | insert_with_meta => 0xa4
  | remove_with_meta => 0xa8 | create_checkpoint => 0xaa | checkpoint_persistence => 0xb1
  | return_meta => 0xb2 | get_random_key => 0xb6 | seqno_persistence => 0xb7
  | get_keys => 0xb8 | set_collections_manifest => 0xb9 | get_collections_manifest => 0xba
  | get_collection_id => 0xbb | get_scope_id => 0xbc | subdoc_multi_lookup => 0xd0
  | subdoc_multi_mutation => 0xd1 | get_cluster_config => 0xb5 | get_error_map => 0xfe
  | range_scan_create => 0xda | range_scan_continue => 0xdb | range_scan_cancel => 0xdc
  | invalid => 0xff
  end.

Definition client_opcode_all : list client_opcode :=
  [get; upsert; insert; replace;
   remove; increment; decrement; noop;
   version; append; prepend; stat;
   verbosity; touch; get_and_touch; hello;
   sasl_list_mechs; sasl_auth; sasl_step; get_all_vbucket_seqnos;
   dcp_open; dcp_add_stream; dcp_close_stream; dcp_stream_request;
   dcp_get_failover_log; dcp_stream_end; dcp_snapshot_marker; dcp_mutation;
   dcp_deletion; dcp_expiration; dcp_set_vbucket_state; dcp_noop;
   dcp_buffer_acknowledgement; dcp_control; dcp_system_event; dcp_prepare;
   dcp_seqno_acknowledged; dcp_commit; dcp_abort; dcp_seqno_advanced;
   dcp_oso_snapshot; get_replica; list_buckets; select_bucket;
   observe_seqno; observe; evict_key; get_and_lock;
   unlock; get_failover_log; last_closed_checkpoint; get_meta;
   upsert_with_meta; insert_with_meta; remove_with_meta; create_checkpoint;
   checkpoint_persistence; return_meta; get_random_key; seqno_persistence;
   get_keys; set_collections_manifest; get_collections_manifest; get_collection_id;
   get_scope_id; subdoc_multi_lookup; subdoc_multi_mutation; get_cluster_config;
   get_error_map; range_scan_create; range_scan_continue; range_scan_cancel;
   invalid].

Global Instance client_opcode_enum : Enum client_opcode.
Proof. refine (MkEnum _ client_opcode_code client_opcode_all _). by intros []. Defined.
End ClientOpcode.
Export (hints) ClientOpcode.

Module SubdocOpcode.
(** [protocol::subdoc_opcode] *)
Inductive subdoc_opcode :=
  | get_doc | set_doc | remove_doc | get
  | exists_ | dict_add | dict_upsert | remove
  | replace | array_push_last | array_push_first | array_insert
  | array_add_unique | counter | get_count | replace_body_with_xattr.

Definition subdoc_opcode_code (x : subdoc_opcode) : Z :=
  match x with
  | get_doc => 0x00 | set_doc => 0x01 | remove_doc => 0x04
  | get => 0xc5 | exists_ => 0xc6 | dict_add => 0xc7
  | dict_upsert => 0xc8 | remove => 0xc9 | replace => 0xca
  | array_push_last => 0xcb | array_push_first => 0xcc | array_insert => 0xcd
  | array_add_unique => 0xce | counter => 0xcf | get_count => 0xd2
  | replace_body_with_xattr => 0xd3
  end.

Definition subdoc_opcode_all : list subdoc_opcode :=
  [get_doc; set_doc; remove_doc; get;
   exists_; dict_add; dict_upsert; remove;
   replace; array_push_last; array_push_first; array_insert;
   array_add_unique; counter; get_count; replace_body_with_xattr].

Global Instance subdoc_opcode_enum : Enum subdoc_opcode.
Proof. refine (MkEnum _ subdoc_opcode_code subdoc_opcode_all _). by intros []. Defined.
End SubdocOpcode.
Export (hints) SubdocOpcode.

Definition is_valid_client_opcode (code : Z) : bool :=
  is_one_of code
  [ClientOpcode.get; ClientOpcode.upsert;
   ClientOpcode.insert; ClientOpcode.replace;
   ClientOpcode.remove; ClientOpcode.hello;
   ClientOpcode.sasl_list_mechs; ClientOpcode.sasl_auth;
   ClientOpcode.sasl_step; ClientOpcode.select_bucket;
   ClientOpcode.subdoc_multi_lookup; ClientOpcode.subdoc_multi_mutation;
   ClientOpcode.get_cluster_config; ClientOpcode.get_error_map;
   ClientOpcode.invalid; ClientOpcode.get_collections_manifest;
   ClientOpcode.touch; ClientOpcode.observe;
   ClientOpcode.get_and_lock; ClientOpcode.unlock;
   ClientOpcode.get_and_touch; ClientOpcode.increment;
   ClientOpcode.decrement; ClientOpcode.get_collection_id;
   ClientOpcode.noop; ClientOpcode.version;
   ClientOpcode.append; ClientOpcode.prepend;
   ClientOpcode.stat; ClientOpcode.verbosity;
   ClientOpcode.get_all_vbucket_seqnos; ClientOpcode.dcp_open;
   ClientOpcode.dcp_add_stream; ClientOpcode.dcp_close_stream;
   ClientOpcode.dcp_stream_request; ClientOpcode.dcp_get_failover_log;
   ClientOpcode.dcp_stream_end; ClientOpcode.dcp_snapshot_marker;
   ClientOpcode.dcp_mutation; ClientOpcode.dcp_deletion;
   ClientOpcode.dcp_expiration; ClientOpcode.dcp_set_vbucket_state;
   ClientOpcode.dcp_noop; ClientOpcode.dcp_buffer_acknowledgement;
   ClientOpcode.dcp_control; ClientOpcode.dcp_system_event;
   ClientOpcode.dcp_prepare; ClientOpcode.dcp_seqno_acknowledged;
   ClientOpcode.dcp_commit; ClientOpcode.dcp_abort;
   ClientOpcode.dcp_seqno_advanced; ClientOpcode.dcp_oso_snapshot;
   ClientOpcode.get_replica; ClientOpcode.list_buckets;
   ClientOpcode.observe_seqno; ClientOpcode.evict_key;
   ClientOpcode.get_failover_log; ClientOpcode.last_closed_checkpoint;
   ClientOpcode.get_meta; ClientOpcode.upsert_with_meta;
   ClientOpcode.insert_with_meta; ClientOpcode.remove_with_meta;
   ClientOpcode.create_checkpoint; ClientOpcode.checkpoint_persistence;
   ClientOpcode.return_meta; ClientOpcode.get_random_key;
   ClientOpcode.seqno_persistence; ClientOpcode.get_keys;
   ClientOpcode.set_collections_manifest; ClientOpcode.get_scope_id;
   ClientOpcode.range_scan_create; ClientOpcode.range_scan_continue;
   ClientOpcode.range_scan_cancel].

Definition is_valid_subdoc_opcode (code : Z) : bool :=
  is_one_of code
  [SubdocOpcode.get; SubdocOpcode.exists_;
   SubdocOpcode.dict_add; SubdocOpcode.dict_upsert;
   SubdocOpcode.remove; SubdocOpcode.replace;
   SubdocOpcode.array_push_last; SubdocOpcode.array_push_first;
   SubdocOpcode.array_insert; SubdocOpcode.array_add_unique;
   SubdocOpcode.counter; SubdocOpcode.get_count;
   SubdocOpcode.get_doc; SubdocOpcode.set_doc;
   SubdocOpcode.remove_doc; SubdocOpcode.replace_body_with_xattr].

Module HelloFeature.
(** [protocol::hello_feature] *)
Inductive hello_feature :=
  | tls | tcp_nodelay | mutation_seqno | tcp_delay
  | xattr | xerror | select_bucket | snappy
  | json | duplex | clustermap_change_notification | unordered_execution
  | tracing | alt_request_support | sync_replication | collections
  | open_tracing | preserve_ttl | vattr | point_in_time_recovery
  | subdoc_create_as_deleted | subdoc_document_macro_support | replace_body_with_xattr | resource_units
  | subdoc_replica_read | deduplicate_not_my_vbucket_clustermap | subdoc_binary_xattr.

Definition hello_feature_code (x : hello_feature) : Z :=
  match x with
  | tls => 0x02 | tcp_nodelay => 0x03 | mutation_seqno => 0x04
  | tcp_delay => 0x05 | xattr => 0x06 | xerror => 0x07
  | select_bucket => 0x08 | snappy => 0x0a | json => 0x0b
  | duplex => 0x0c | clustermap_change_notification => 0x0d | unordered_execution => 0x0e
  | tracing => 0x0f | alt_request_support => 0x10 | sync_replication => 0x11
  | collections => 0x12 | open_tracing => 0x13 | preserve_ttl => 0x14
  | vattr => 0x15 | point_in_time_recovery => 0x16 | subdoc_create_as_deleted => 0x17
  | subdoc_document_macro_support => 0x18 | replace_body_with_xattr => 0x19 | resource_units => 0x1a
  | subdoc_replica_read => 0x1c | deduplicate_not_my_vbucket_clustermap => 0x1e | subdoc_binary_xattr => 0x21
  end.

Definition hello_feature_all : list hello_feature :=
  [tls; tcp_nodelay; mutation_seqno; tcp_delay;
   xattr; xerror; select_bucket; snappy;
   json; duplex; clustermap_change_notification; unordered_execution;
   tracing; alt_request_support; sync_replication; collections;
   open_tracing; preserve_ttl; vattr; point_in_time_recovery;
   subdoc_create_as_deleted; subdoc_document_macro_support; replace_body_with_xattr; resource_units;
   subdoc_replica_read; deduplicate_not_my_vbucket_clustermap; subdoc_binary_xattr].

Global Instance hello_feature_enum : Enum hello_feature.
Proof. refine (MkEnum _ hello_feature_code hello_feature_all _). by intros []. Defined.
End HelloFeature.
Export (hints) HelloFeature.

Definition is_valid_hello_feature (code : Z) : bool :=
  is_one_of code
  [HelloFeature.tls; HelloFeature.tcp_nodelay;
   HelloFeature.mutation_seqno; HelloFeature.xattr;
   HelloFeature.xerror; HelloFeature.select_bucket;
   HelloFeature.snappy; HelloFeature.json;
   HelloFeature.duplex; HelloFeature.clustermap_change_notification;
   HelloFeature.unordered_execution; HelloFeature.alt_request_support;
   HelloFeature.sync_replication; HelloFeature.vattr;
   HelloFeature.collections; HelloFeature.open_tracing;
   HelloFeature.preserve_ttl; HelloFeature.point_in_time_recovery;
   HelloFeature.tcp_delay; HelloFeature.tracing;
   HelloFeature.subdoc_create_as_deleted; HelloFeature.subdoc_document_macro_support;
   HelloFeature.replace_body_with_xattr; HelloFeature.resource_units;
   HelloFeature.subdoc_replica_read; HelloFeature.deduplicate_not_my_vbucket_clustermap;
   HelloFeature.subdoc_binary_xattr].

Module Status.
(** [key_value_status_code] *)
Inductive key_value_status_code :=
  | success | not_found | exists_ | too_big
  | invalid | not_stored | delta_bad_value | not_my_vbucket
  | no_bucket | dcp_stream_not_found | opaque_no_match | locked
  | not_locked | config_only | auth_stale | auth_error
  | auth_continue | range_error | rollback | no_access
  | not_initialized | rate_limited_network_ingress | rate_limited_network_egress | rate_limited_max_connections
  | rate_limited_max_commands | scope_size_limit_exceeded | unknown_frame_info | unknown_command
  | no_memory | not_supported | internal | busy
  | temporary_failure | xattr_invalid | unknown_collection | no_collections_manifest
  | cannot_apply_collections_manifest | collections_manifest_is_ahead | unknown_scope | dcp_stream_id_invalid
  | durability_invalid_level | durability_impossible | sync_write_in_progress | sync_write_ambiguous
  | sync_write_re_commit_in_progress | subdoc_path_not_found | subdoc_path_mismatch | subdoc_path_invalid
  | subdoc_path_too_big | subdoc_doc_too_deep | subdoc_value_cannot_insert | subdoc_doc_not_json
  | subdoc_num_range_error | subdoc_delta_invalid | subdoc_path_exists | subdoc_value_too_deep
  | subdoc_invalid_combo | subdoc_multi_path_failure | subdoc_success_deleted | subdoc_xattr_invalid_flag_combo
  | subdoc_xattr_invalid_key_combo | subdoc_xattr_unknown_macro | subdoc_xattr_unknown_vattr | subdoc_xattr_cannot_modify_vattr
  | subdoc_multi_path_failure_deleted | subdoc_invalid_xattr_order | subdoc_xattr_unknown_vattr_macro | subdoc_can_only_revive_deleted_documents
  | subdoc_deleted_document_cannot_have_value | range_scan_cancelled | range_scan_more | range_scan_complete
  | range_scan_vb_uuid_not_equal | unknown.

Definition key_value_status_code_code (x : key_value_status_code) : Z :=
  match x with
  | success => 0x00 | not_found => 0x01 | exists_ => 0x02
  | too_big => 0x03 | invalid => 0x04 | not_stored => 0x05
  | delta_bad_value => 0x06 | not_my_vbucket => 0x07 | no_bucket => 0x08
  | dcp_stream_not_found => 0x0a | opaque_no_match => 0x0b | locked => 0x09
  | not_locked => 0x0e | config_only => 0x0d | auth_stale => 0x1f
  | auth_error => 0x20 | auth_continue => 0x21 | range_error => 0x22
  | rollback => 0x23 | no_access => 0x24 | not_initialized => 0x25
  | rate_limited_network_ingress => 0x30 | rate_limited_network_egress => 0x31 | rate_limited_max_connections => 0x32
  | rate_limited_max_commands => 0x33 | scope_size_limit_exceeded => 0x34 | unknown_frame_info => 0x80
  | unknown_command => 0x81 | no_memory => 0x82 | not_supported => 0x83
  | internal => 0x84 | busy => 0x85 | temporary_failure => 0x86
  | xattr_invalid => 0x87 | unknown_collection => 0x88 | no_collections_manifest => 0x89
  | cannot_apply_collections_manifest => 0x8a | collections_manifest_is_ahead => 0x8b | unknown_scope => 0x8c
  | dcp_stream_id_invalid => 0x8d | durability_invalid_level => 0xa0 | durability_impossible => 0xa1
  | sync_write_in_progress => 0xa2 | sync_write_ambiguous => 0xa3 | sync_write_re_commit_in_progress => 0xa4
  | subdoc_path_not_found => 0xc0 | subdoc_path_mismatch => 0xc1 | subdoc_path_invalid => 0xc2
  | subdoc_path_too_big => 0xc3 | subdoc_doc_too_deep => 0xc4 | subdoc_value_cannot_insert => 0xc5
  | subdoc_doc_not_json => 0xc6 | subdoc_num_range_error => 0xc7 | subdoc_delta_invalid => 0xc8
  | subdoc_path_exists => 0xc9 | subdoc_value_too_deep => 0xca | subdoc_invalid_combo => 0xcb
  | subdoc_multi_path_failure => 0xcc | subdoc_success_deleted => 0xcd | subdoc_xattr_invalid_flag_combo => 0xce
  | subdoc_xattr_invalid_key_combo => 0xcf | subdoc_xattr_unknown_macro => 0xd0 | subdoc_xattr_unknown_vattr => 0xd1
  | subdoc_xattr_cannot_modify_vattr => 0xd2 | subdoc_multi_path_failure_deleted => 0xd3 | subdoc_invalid_xattr_order => 0xd4
  | subdoc_xattr_unknown_vattr_macro => 0xd5 | subdoc_can_only_revive_deleted_documents => 0xd6 | subdoc_deleted_document_cannot_have_value => 0xd7
  | range_scan_cancelled => 0xa5 | range_scan_more => 0xa6 | range_scan_complete => 0xa7
  | range_scan_vb_uuid_not_equal => 0xa8 | unknown => 0xffff
  end.

Definition key_value_status_code_all : list key_value_status_code :=
  [success; not_found; exists_; too_big;
   invalid; not_stored; delta_bad_value; not_my_vbucket;
   no_bucket; dcp_stream_not_found; opaque_no_match; locked;
   not_locked; config_only; auth_stale; auth_error;
   auth_continue; range_error; rollback; no_access;
   not_initialized; rate_limited_network_ingress; rate_limited_network_egress; rate_limited_max_connections;
   rate_limited_max_commands; scope_size_limit_exceeded; unknown_frame_info; unknown_command;
   no_memory; not_supported; internal; busy;
   temporary_failure; xattr_invalid; unknown_collection; no_collections_manifest;
   cannot_apply_collections_manifest; collections_manifest_is_ahead; unknown_scope; dcp_stream_id_invalid;
   durability_invalid_level; durability_impossible; sync_write_in_progress; sync_write_ambiguous;
   sync_write_re_commit_in_progress; subdoc_path_not_found; subdoc_path_mismatch; subdoc_path_invalid;
   subdoc_path_too_big; subdoc_doc_too_deep; subdoc_value_cannot_insert; subdoc_doc_not_json;
   subdoc_num_range_error; subdoc_delta_invalid; subdoc_path_exists; subdoc_value_too_deep;
   subdoc_invalid_combo; subdoc_multi_path_failure; subdoc_success_deleted; subdoc_xattr_invalid_flag_combo;
   subdoc_xattr_invalid_key_combo; subdoc_xattr_unknown_macro; subdoc_xattr_unknown_vattr; subdoc_xattr_cannot_modify_vattr;
   subdoc_multi_path_failure_deleted; subdoc_invalid_xattr_order; subdoc_xattr_unknown_vattr_macro; subdoc_can_only_revive_deleted_documents;
   subdoc_deleted_document_cannot_have_value; range_scan_cancelled; range_scan_more; range_scan_complete;
   range_scan_vb_uuid_not_equal; unknown].

Global Instance key_value_status_code_enum : Enum key_value_status_code.
Proof. refine (MkEnum _ key_value_status_code_code key_value_status_code_all _). by intros []. Defined.
End Status.
Export (hints) Status.

Definition is_valid_status (code : Z) : bool :=
  is_one_of code
  [Status.success; Status.not_found;
   Status.exists_; Status.too_big;
   Status.invalid; Status.not_stored;
   Status.delta_bad_value; Status.not_my_vbucket;
   Status.no_bucket; Status.locked;
   Status.not_locked; Status.auth_stale;
   Status.auth_error; Status.auth_continue;
   Status.range_error; Status.rollback;
   Status.no_access; Status.not_initialized;
   Status.unknown_frame_info; Status.unknown_command;
   Status.no_memory; Status.not_supported;
   Status.internal; Status.busy;
   Status.temporary_failure; Status.xattr_invalid;
   Status.unknown_collection; Status.no_collections_manifest;
   Status.cannot_apply_collections_manifest; Status.collections_manifest_is_ahead;
   Status.unknown_scope; Status.dcp_stream_id_invalid;
   Status.durability_invalid_level; Status.durability_impossible;
   Status.sync_write_in_progress; Status.sync_write_ambiguous;
   Status.sync_write_re_commit_in_progress; Status.subdoc_path_not_found;
   Status.subdoc_path_mismatch; Status.subdoc_path_invalid;
   Status.subdoc_path_too_big; Status.subdoc_doc_too_deep;
   Status.subdoc_value_cannot_insert; Status.subdoc_doc_not_json;
   Status.subdoc_num_range_error; Status.subdoc_delta_invalid;
   Status.subdoc_path_exists; Status.subdoc_value_too_deep;
   Status.subdoc_invalid_combo; Status.subdoc_multi_path_failure;
   Status.subdoc_success_deleted; Status.subdoc_xattr_invalid_flag_combo;
   Status.subdoc_xattr_invalid_key_combo; Status.subdoc_xattr_unknown_macro;
   Status.subdoc_xattr_unknown_vattr; Status.subdoc_xattr_cannot_modify_vattr;
   Status.subdoc_multi_path_failure_deleted; Status.subdoc_invalid_xattr_order;
   Status.dcp_stream_not_found; Status.opaque_no_match;
   Status.rate_limited_network_ingress; Status.rate_limited_network_egress;
   Status.rate_limited_max_connections; Status.rate_limited_max_commands;
   Status.scope_size_limit_exceeded; Status.subdoc_xattr_unknown_vattr_macro;
   Status.subdoc_can_only_revive_deleted_documents; Status.subdoc_deleted_document_cannot_have_value;
   Status.range_scan_cancelled; Status.range_scan_more;
   Status.range_scan_complete; Status.range_scan_vb_uuid_not_equal;
   Status.config_only].

(** ** [core/mcbp/command_code.cxx] *)

Definition is_idempotent (opcode : Z) : bool :=
  is_one_of opcode
  [ClientOpcode.get; ClientOpcode.noop;
   ClientOpcode.get_replica; ClientOpcode.observe_seqno;
   ClientOpcode.observe; ClientOpcode.get_meta;
   ClientOpcode.stat; ClientOpcode.get_cluster_config;
   ClientOpcode.get_random_key; ClientOpcode.get_collections_manifest;
   ClientOpcode.get_collection_id; ClientOpcode.subdoc_multi_lookup].

Definition supports_collection_id (command : Z) : bool :=
  is_one_of command
  [ClientOpcode.get; ClientOpcode.upsert;
   ClientOpcode.insert; ClientOpcode.replace;
   ClientOpcode.remove; ClientOpcode.increment;
   ClientOpcode.decrement; ClientOpcode.append;
   ClientOpcode.prepend; ClientOpcode.touch;
   ClientOpcode.get_and_touch; ClientOpcode.dcp_mutation;
   ClientOpcode.dcp_deletion; ClientOpcode.dcp_expiration;
   ClientOpcode.get_replica; ClientOpcode.get_and_lock;
   ClientOpcode.unlock; ClientOpcode.get_meta;
   ClientOpcode.upsert_with_meta; ClientOpcode.remove_with_meta;
   ClientOpcode.subdoc_multi_lookup; ClientOpcode.subdoc_multi_mutation].

(** ** [core/protocol/datatype.hxx] *)

Definition datatype_raw : Z := 0x00.
Definition datatype_json : Z := 0x01.
Definition datatype_snappy : Z := 0x02.
Definition datatype_xattr : Z := 0x04.

Definition has_flag (value flag : Z) : bool := Z.land value flag =? flag.
Definition set_flag (value flag : Z) : Z := Z.lor value flag.
Definition clear_flag (value flag : Z) : Z := Z.land value (u8 (Z.lnot flag)).
Definition has_json_datatype (code : Z) : bool := has_flag code datatype_json.

Definition is_valid_datatype (code : Z) : bool :=
  (code =? datatype_raw) || (code =? datatype_json) || (code =? datatype_snappy)
  || (code =? datatype_xattr).

(** ** [core/protocol/frame_info_id.hxx] and [core/mcbp/frame_type.hxx] *)

Definition request_barrier : Z := 0.
Definition request_sync_durability : Z := 1.
Definition request_stream_id : Z := 2.
Definition request_open_tracing : Z := 3.
Definition request_user_impersonation : Z := 4.
Definition request_preserve_expiry : Z := 5.
Definition response_server_duration : Z := 0.
Definition response_read_units : Z := 1.
Definition response_write_units : Z := 2.

(** ** [couchbase/error_codes.hxx] *)

Module Common.
(** [errc::common] *)
Inductive common_errc :=
  | request_canceled | invalid_argument | service_not_available | internal_server_failure
  | authentication_failure | temporary_failure | parsing_failure | cas_mismatch
  | bucket_not_found | collection_not_found | unsupported_operation | ambiguous_timeout
  | unambiguous_timeout | feature_not_available | scope_not_found | index_not_found
  | index_exists | encoding_failure | decoding_failure | rate_limited
  | quota_limited.

Definition common_errc_code (x : common_errc) : Z :=
  match x with
  | request_canceled => 2 | invalid_argument => 3 | service_not_available => 4
  | internal_server_failure => 5 | authentication_failure => 6 | temporary_failure => 7
  | parsing_failure => 8 | cas_mismatch => 9 | bucket_not_found => 10
  | collection_not_found => 11 | unsupported_operation => 12 | ambiguous_timeout => 13
  | unambiguous_timeout => 14 | feature_not_available => 15 | scope_not_found => 16
  | index_not_found => 17 | index_exists => 18 | encoding_failure => 19
  | decoding_failure => 20 | rate_limited => 21 | quota_limited => 22
  end.

Definition common_errc_all : list common_errc :=
  [request_canceled; invalid_argument; service_not_available; internal_server_failure;
   authentication_failure; temporary_failure; parsing_failure; cas_mismatch;
   bucket_not_found; collection_not_found; unsupported_operation; ambiguous_timeout;
   unambiguous_timeout; feature_not_available; scope_not_found; index_not_found;
   index_exists; encoding_failure; decoding_failure; rate_limited;
   quota_limited].

Global Instance common_errc_enum : Enum common_errc.
Proof. refine (MkEnum _ common_errc_code common_errc_all _). by intros []. Defined.
End Common.
Export (hints) Common.

Module KeyValue.
(** [errc::key_value] *)
Inductive key_value_errc :=
  | document_not_found | document_irretrievable | document_locked | value_too_large
  | document_exists | durability_level_not_available | durability_impossible | durability_ambiguous
  | durable_write_in_progress | durable_write_re_commit_in_progress | path_not_found | path_mismatch
  | path_invalid | path_too_big | path_too_deep | value_too_deep
  | value_invalid | document_not_json | number_too_big | delta_invalid
  | path_exists | xattr_unknown_macro | xattr_invalid_key_combo | xattr_unknown_virtual_attribute
  | xattr_cannot_modify_virtual_attribute | xattr_no_access | document_not_locked | cannot_revive_living_document
  | mutation_token_outdated | range_scan_completed.

Definition key_value_errc_code (x : key_value_errc) : Z :=
  match x with
  | document_not_found => 101 | document_irretrievable => 102 | document_locked => 103
  | value_too_large => 104 | document_exists => 105 | durability_level_not_available => 107
  | durability_impossible => 108 | durability_ambiguous => 109 | durable_write_in_progress => 110
  | durable_write_re_commit_in_progress => 111 | path_not_found => 113 | path_mismatch => 114
  | path_invalid => 115 | path_too_big => 116 | path_too_deep => 117
  | value_too_deep => 118 | value_invalid => 119 | document_not_json => 120
  | number_too_big => 121 | delta_invalid => 122 | path_exists => 123
  | xattr_unknown_macro => 124 | xattr_invalid_key_combo => 126 | xattr_unknown_virtual_attribute => 127
  | xattr_cannot_modify_virtual_attribute => 128 | xattr_no_access => 130 | document_not_locked => 131
  | cannot_revive_living_document => 132 | mutation_token_outdated => 133 | range_scan_completed => 134
  end.

Definition key_value_errc_all : list key_value_errc :=
  [document_not_found; document_irretrievable; document_locked; value_too_large;
   document_exists; durability_level_not_available; durability_impossible; durability_ambiguous;
   durable_write_in_progress; durable_write_re_commit_in_progress; path_not_found; path_mismatch;
   path_invalid; path_too_big; path_too_deep; value_too_deep;
   value_invalid; document_not_json; number_too_big; delta_invalid;
   path_exists; xattr_unknown_macro; xattr_invalid_key_combo; xattr_unknown_virtual_attribute;
   xattr_cannot_modify_virtual_attribute; xattr_no_access; document_not_locked; cannot_revive_living_document;
   mutation_token_outdated; range_scan_completed].

Global Instance key_value_errc_enum : Enum key_value_errc.
Proof. refine (MkEnum _ key_value_errc_code key_value_errc_all _). by intros []. Defined.
End KeyValue.
Export (hints) KeyValue.

Module Network.
(** [errc::network] *)
Inductive network_errc :=
  | resolve_failure | no_endpoints_left | handshake_failure | protocol_error
  | configuration_not_available | cluster_closed | end_of_stream | need_more_data
  | operation_queue_closed | operation_queue_full | request_already_queued | request_cancelled
  | bucket_closed.

Definition network_errc_code (x : network_errc) : Z :=
  match x with
  | resolve_failure => 1001 | no_endpoints_left => 1002 | handshake_failure => 1003
  | protocol_error => 1004 | configuration_not_available => 1005 | cluster_closed => 1006
  | end_of_stream => 1007 | need_more_data => 1008 | operation_queue_closed => 1009
  | operation_queue_full => 1010 | request_already_queued => 1011 | request_cancelled => 1012
  | bucket_closed => 1013
  end.

Definition network_errc_all : list network_errc :=
  [resolve_failure; no_endpoints_left; handshake_failure; protocol_error;
   configuration_not_available; cluster_closed; end_of_stream; need_more_data;
   operation_queue_closed; operation_queue_full; request_already_queued; request_cancelled;
   bucket_closed].

Global Instance network_errc_enum : Enum network_errc.
Proof. refine (MkEnum _ network_errc_code network_errc_all _). by intros []. Defined.
End Network.
Export (hints) Network.

(** The [std::error_code] values of the modelled components. *)
Inductive error_code :=
  | errc_common (e : Common.common_errc)
  | errc_key_value (e : KeyValue.key_value_errc)
  | errc_network (e : Network.network_errc).

Global Instance error_code_eq_dec : EqDecision error_code.
Proof. solve_decision. Defined.

Coercion errc_common : Common.common_errc >-> error_code.
Coercion errc_key_value : KeyValue.key_value_errc >-> error_code.
Coercion errc_network : Network.network_errc >-> error_code.

(** ** [core/protocol/status.cxx] *)

(** [map_status_code]: the error of a response status, [None] for success.  A
    status outside the enumeration reaches no label of the [switch]. *)
Definition map_status_code (opcode status : Z) : option error_code :=
  match enum_of_code status with
  | Some st =>
    match st with
    | Status.success | Status.subdoc_multi_path_failure
    | Status.subdoc_success_deleted | Status.subdoc_multi_path_failure_deleted
    | Status.range_scan_complete | Status.range_scan_more =>
        None
    | Status.not_found =>
        Some (errc_key_value KeyValue.document_not_found)
    | Status.not_stored =>
        if is_enum opcode ClientOpcode.insert
        then Some (errc_key_value KeyValue.document_exists)
        else Some (errc_key_value KeyValue.document_not_found)
    | Status.exists_ =>
        if is_enum opcode ClientOpcode.insert
        then Some (errc_key_value KeyValue.document_exists)
        else Some (errc_common Common.cas_mismatch)
    | Status.too_big =>
        Some (errc_key_value KeyValue.value_too_large)
    | Status.invalid | Status.xattr_invalid
    | Status.subdoc_invalid_combo | Status.subdoc_invalid_xattr_order
    | Status.subdoc_deleted_document_cannot_have_value =>
        Some (errc_common Common.invalid_argument)
    | Status.delta_bad_value =>
        Some (errc_key_value KeyValue.delta_invalid)
    | Status.no_bucket =>
        Some (errc_common Common.bucket_not_found)
    | Status.locked =>
        if is_enum opcode ClientOpcode.unlock
        then Some (errc_common Common.cas_mismatch)
        else Some (errc_key_value KeyValue.document_locked)
    | Status.not_locked =>
        Some (errc_key_value KeyValue.document_not_locked)
    | Status.auth_stale | Status.auth_error
    | Status.no_access =>
        Some (errc_common Common.authentication_failure)
    | Status.not_supported | Status.unknown_command =>
        Some (errc_common Common.unsupported_operation)
    | Status.internal =>
        Some (errc_common Common.internal_server_failure)
    | Status.busy | Status.temporary_failure
    | Status.no_memory | Status.not_initialized =>
        Some (errc_common Common.temporary_failure)
    | Status.unknown_collection =>
        Some (errc_common Common.collection_not_found)
    | Status.unknown_scope =>
        Some (errc_common Common.scope_not_found)
    | Status.durability_invalid_level =>
        Some (errc_key_value KeyValue.durability_level_not_available)
    | Status.durability_impossible =>
        Some (errc_key_value KeyValue.durability_impossible)
    | Status.sync_write_in_progress =>
        Some (errc_key_value KeyValue.durable_write_in_progress)
    | Status.sync_write_ambiguous =>
        Some (errc_key_value KeyValue.durability_ambiguous)
    | Status.sync_write_re_commit_in_progress =>
        Some (errc_key_value KeyValue.durable_write_re_commit_in_progress)
    | Status.subdoc_path_not_found =>
        Some (errc_key_value KeyValue.path_not_found)
    | Status.subdoc_path_mismatch =>
        Some (errc_key_value KeyValue.path_mismatch)
    | Status.subdoc_path_invalid =>
        Some (errc_key_value KeyValue.path_invalid)
    | Status.subdoc_path_too_big =>
        Some (errc_key_value KeyValue.path_too_big)
    | Status.subdoc_doc_too_deep =>
        Some (errc_key_value KeyValue.path_too_deep)
    | Status.subdoc_value_cannot_insert =>
        Some (errc_key_value KeyValue.value_invalid)
    | Status.subdoc_doc_not_json =>
        Some (errc_key_value KeyValue.document_not_json)
    | Status.subdoc_num_range_error =>
        Some (errc_key_value KeyValue.number_too_big)
    | Status.subdoc_delta_invalid =>
        Some (errc_key_value KeyValue.delta_invalid)
    | Status.subdoc_path_exists =>
        Some (errc_key_value KeyValue.path_exists)
    | Status.subdoc_value_too_deep =>
        Some (errc_key_value KeyValue.value_too_deep)
    | Status.subdoc_xattr_invalid_flag_combo | Status.subdoc_xattr_invalid_key_combo =>
        Some (errc_key_value KeyValue.xattr_invalid_key_combo)
    | Status.subdoc_xattr_unknown_macro | Status.subdoc_xattr_unknown_vattr_macro =>
        Some (errc_key_value KeyValue.xattr_unknown_macro)
    | Status.subdoc_xattr_unknown_vattr =>
        Some (errc_key_value KeyValue.xattr_unknown_virtual_attribute)
    | Status.subdoc_xattr_cannot_modify_vattr =>
        Some (errc_key_value KeyValue.xattr_cannot_modify_virtual_attribute)
    | Status.subdoc_can_only_revive_deleted_documents =>
        Some (errc_key_value KeyValue.cannot_revive_living_document)
    | Status.rate_limited_network_ingress | Status.rate_limited_network_egress
    | Status.rate_limited_max_connections | Status.rate_limited_max_commands =>
        Some (errc_common Common.rate_limited)
    | Status.scope_size_limit_exceeded =>
        Some (errc_common Common.quota_limited)
    | Status.not_my_vbucket | Status.auth_continue
    | Status.range_error | Status.rollback
    | Status.unknown_frame_info | Status.no_collections_manifest
    | Status.cannot_apply_collections_manifest | Status.collections_manifest_is_ahead
    | Status.dcp_stream_id_invalid | Status.dcp_stream_not_found
    | Status.opaque_no_match | Status.range_scan_cancelled =>
        Some (errc_common Common.request_canceled)
    | Status.range_scan_vb_uuid_not_equal =>
        Some (errc_key_value KeyValue.mutation_token_outdated)
    | Status.unknown | Status.config_only =>
        Some (errc_network Network.protocol_error)
    end
  | None => Some (errc_network Network.protocol_error)
  end.

(** ** Properties *)

(** The statuses that [map_status_code] treats as success: these include
    partial results whose per-item outcome is in the body. *)
Definition success_statuses : list Status.key_value_status_code :=
  [Status.success; Status.subdoc_multi_path_failure; Status.subdoc_success_deleted;
   Status.subdoc_multi_path_failure_deleted; Status.range_scan_complete; Status.range_scan_more].

Lemma is_one_of_unknown `{Enum T} z (xs : list T) :
  enum_of_code (T:=T) z = None → is_one_of z xs = false.
Proof.
  intros Hz. apply not_true_iff_false. intros (x & _ & Hx)%is_one_of_spec.
  apply enum_of_code_Some in Hx. congruence.
Qed.

(** Response statuses.  Whatever the opcode, a status is mapped to success
    exactly when it is one of the six success statuses, and to a protocol
    error exactly when it is not a valid status of the enumeration or is
    [config_only]; every other status has an error of its own. *)
Theorem map_status_code_classifies opcode status :
  (map_status_code opcode status = None ↔ is_one_of status success_statuses = true) ∧
  (map_status_code opcode status = Some (errc_network Network.protocol_error) ↔
     is_valid_status status = false ∨ is_enum status Status.config_only = true).
Proof.
  destruct (enum_of_code (T:=Status.key_value_status_code) status) as [st|] eqn:Hst.
  - unfold map_status_code. rewrite Hst. apply enum_of_code_Some in Hst as <-.
    destruct st; cbn; split; split; try case_match; intuition congruence.
  - unfold map_status_code. rewrite Hst. rewrite is_one_of_unknown by done.
    unfold is_valid_status. rewrite is_one_of_unknown by done. naive_solver.
Qed.

(** Command sets.  Every command that may carry a collection identifier in
    its key, and every command that is safe to repeat, is a valid opcode; no
    mutation of a document is considered safe to repeat. *)
Theorem command_sets_valid command :
  (supports_collection_id command = true → is_valid_client_opcode command = true) ∧
  (is_idempotent command = true → is_valid_client_opcode command = true ∧
     is_one_of command [ClientOpcode.upsert; ClientOpcode.insert; ClientOpcode.replace;
       ClientOpcode.remove; ClientOpcode.increment; ClientOpcode.decrement;
       ClientOpcode.append; ClientOpcode.prepend; ClientOpcode.touch;
       ClientOpcode.get_and_touch; ClientOpcode.get_and_lock; ClientOpcode.unlock;
       ClientOpcode.upsert_with_meta; ClientOpcode.insert_with_meta;
       ClientOpcode.remove_with_meta; ClientOpcode.subdoc_multi_mutation] = false).
Proof.
  destruct (enum_of_code (T:=ClientOpcode.client_opcode) command) as [op|] eqn:Hop.
  - apply enum_of_code_Some in Hop as <-.
    destruct op; vm_compute; intuition congruence.
  - unfold supports_collection_id, is_idempotent. rewrite !is_one_of_unknown by done. done.
Qed.
