(* ===== verification/BufferWriter.v ===== *)
(** * The packet buffer: [core/mcbp/buffer_writer.cxx]

    A [buffer_writer] is a vector of fixed size and a write offset; every
    write stores at the offset with no bounds check.  The operations are
    actions of the [writer] monad (explicit state passing over [outcome]).
    The second half shows that the writer implements an append-only log:
    [refines m (bs, r)] says that action [m] appends exactly [bs], provided
    the capacity suffices, and then ends with [r]. *)

From S2P Require Import Prelude ByteOrder.

Record buffer_writer := BufferWriter {
  store_ : bytes;
  offset_ : Z;
}.

(** Actions on the buffer: [tl::unexpected] results are [Err]. *)
Definition writer (E A : Type) : Type := buffer_writer → outcome E (A * buffer_writer).

Global Instance writer_ret E : MRet (writer E) := λ A a s, Ok (a, s).
Global Instance writer_bind E : MBind (writer E) := λ A B f m s,
  '(a, s') ← m s; f a s'.

Definition unexpected {E A} (e : E) : writer E A := λ _, Err e.

(** [buffer_writer::buffer_writer] *)
Definition make_buffer_writer (size : Z) : buffer_writer :=
  BufferWriter (replicate (Z.to_nat size) 0) 0.

Section operations.
Context {E : Type}.

Definition write_byte (val : Z) : writer E unit := λ s,
  st ← store_range (store_ s) (offset_ s) [val];
  Ok (tt, BufferWriter st (offset_ s + 1)).

Definition write (val : bytes) : writer E unit := λ s,
  if decide (val = []) then Ok (tt, s)
  else
    st ← store_range (store_ s) (offset_ s) val;
    Ok (tt, BufferWriter st (offset_ s + zsize val)).

Definition write_frame_header (type length : Z) : writer E unit :=
  write_byte (Z.lor (u8 (Z.shiftl type 4)) (u8 length)).

Definition write_uint64 (val : Z) : writer E unit :=
  _ ← write_byte (u8 (Z.shiftr val 56));
  _ ← write_byte (u8 (Z.shiftr val 48));
  _ ← write_byte (u8 (Z.shiftr val 40));
  _ ← write_byte (u8 (Z.shiftr val 32));
  _ ← write_byte (u8 (Z.shiftr val 24));
  _ ← write_byte (u8 (Z.shiftr val 16));
  _ ← write_byte (u8 (Z.shiftr val 8));
  write_byte (u8 val).

Definition write_uint32 (val : Z) : writer E unit :=
  _ ← write_byte (u8 (Z.shiftr val 24));
  _ ← write_byte (u8 (Z.shiftr val 16));
  _ ← write_byte (u8 (Z.shiftr val 8));
  write_byte (u8 val).

Definition write_uint16 (val : Z) : writer E unit :=
  _ ← write_byte (u8 (Z.shiftr val 8));
  write_byte (u8 val).
End operations.

(** ** The abstract log *)

(** What an action appends, and how it ends: [None] normally, [Some e] by
    returning the error [e] after the appends. *)
Definition emission (E : Type) : Type := bytes * option E.

Definition emit {E} (bs : bytes) : emission E := (bs, None).
Definition emit_fail {E} (e : E) : emission E := ([], Some e).
Definition emit_seq {E} (a b : emission E) : emission E :=
  match a with
  | (bs, None) => (bs ++ b.1, b.2)
  | (bs, Some e) => (bs, Some e)
  end.

Infix "+++" := emit_seq (at level 60, right associativity).

(** The log with the remaining capacity [rest] behind the bytes [w] already written. *)
Definition run_emission {E} (a : emission E) (w rest : bytes) :
    outcome E (unit * buffer_writer) :=
  if decide (length a.1 ≤ length rest)%nat then
    match a.2 with
    | None => Ok (tt, BufferWriter (w ++ a.1 ++ drop (length a.1) rest) (zsize w + zsize a.1))
    | Some e => Err e
    end
  else Fault.

Definition refines {E} (m : writer E unit) (a : emission E) : Prop :=
  ∀ w rest, m (BufferWriter (w ++ rest) (zsize w)) = run_emission a w rest.

Section refinement.
Context {E : Type}.
Implicit Types (m : writer E unit) (a b : emission E).

Lemma refines_bind m k a b :
  refines m a → (a.2 = None → refines (k tt) b) → refines (m ≫= k) (a +++ b).
Proof.
  intros Hm Hk w rest. unfold mbind, writer_bind. rewrite Hm.
  destruct a as [bs [e|]]; unfold run_emission; simpl.
  - by case_decide.
  - specialize (Hk eq_refl). rewrite length_app. case_decide; simpl; [|by rewrite decide_False by lia].
    rewrite app_assoc, <-zsize_app, Hk. unfold run_emission.
    rewrite length_drop. repeat case_decide; try lia; [|done]. destruct (b.2); [done|].
    rewrite drop_drop, <-!app_assoc, !zsize_app. by rewrite Z.add_assoc.
Qed.

Lemma refines_seq m k a b :
  refines m a → refines k b → refines (m ≫= λ _, k) (a +++ b).
Proof. intros. by apply refines_bind. Qed.

Lemma refines_ret : refines (mret tt) (emit (E:=E) []).
Proof.
  intros w rest. unfold run_emission. simpl.
  rewrite drop_0, zsize_nil, Z.add_0_r. done.
Qed.

Lemma refines_unexpected e : refines (unexpected (E:=E) e) (emit_fail e).
Proof. by intros w rest. Qed.

Lemma refines_if (c : bool) m1 m2 a1 a2 :
  (c = true → refines m1 a1) → (c = false → refines m2 a2) →
  refines (if c then m1 else m2) (if c then a1 else a2).
Proof. destruct c; auto. Qed.

Lemma store_range_capacity (w rest v : bytes) :
  v ≠ [] →
  store_range (E:=E) (w ++ rest) (zsize w) v =
    if decide (length v ≤ length rest)%nat then Ok (w ++ v ++ drop (length v) rest) else Fault.
Proof.
  intros Hv. case_decide as Hl.
  - rewrite <-(take_drop (length v) rest) at 1.
    apply store_range_app; [done|]. rewrite length_take. lia.
  - unfold store_range. rewrite decide_False; [done|].
    unfold zsize. rewrite length_app. lia.
Qed.

Lemma refines_write_byte v : refines (write_byte (E:=E) v) (emit [v]).
Proof.
  intros w rest. unfold write_byte, run_emission. cbn [store_ offset_ emit fst snd].
  rewrite store_range_capacity by done. by case_decide.
Qed.

Lemma refines_write v : refines (write (E:=E) v) (emit v).
Proof.
  destruct (decide (v = [])) as [->|Hv]; [by apply refines_ret|].
  intros w rest. unfold write, run_emission. cbn [store_ offset_ emit fst snd].
  rewrite decide_False by done. rewrite store_range_capacity by done. by case_decide.
Qed.

Lemma emit_seq_emit (bs bs' : bytes) : emit (E:=E) bs +++ emit bs' = emit (bs ++ bs').
Proof. done. Qed.

Lemma emit_seq_assoc a b c : (a +++ b) +++ c = a +++ b +++ c.
Proof. destruct a as [? [?|]]; simpl; [done|]. destruct b as [? [?|]]; simpl; [done|]. by rewrite app_assoc. Qed.

Lemma refines_write_uint16 v : refines (write_uint16 (E:=E) v) (emit (be_bytes 2 v)).
Proof.
  rewrite <-be_bytes_2. unfold write_uint16.
  apply (refines_seq _ _ (emit [_]) (emit [_])); apply refines_write_byte.
Qed.

Lemma refines_write_uint32 v : refines (write_uint32 (E:=E) v) (emit (be_bytes 4 v)).
Proof.
  rewrite <-be_bytes_4. unfold write_uint32.
  do 3 (apply (refines_seq _ _ (emit [_]) (emit (_ :: _))); [apply refines_write_byte|]).
  apply refines_write_byte.
Qed.

Lemma refines_write_uint64 v : refines (write_uint64 (E:=E) v) (emit (be_bytes 8 v)).
Proof.
  rewrite <-be_bytes_8. unfold write_uint64.
  do 7 (apply (refines_seq _ _ (emit [_]) (emit (_ :: _))); [apply refines_write_byte|]).
  apply refines_write_byte.
Qed.

(** The whole run of an action on a fresh buffer of [n] bytes: it returns
    the appended bytes exactly when they fill the buffer. *)
Lemma refines_run m a n :
  refines m a → 0 ≤ n →
  m (make_buffer_writer n) =
    if decide (zsize a.1 ≤ n) then
      match a.2 with
      | None => Ok (tt, BufferWriter (a.1 ++ replicate (Z.to_nat (n - zsize a.1)) 0) (zsize a.1))
      | Some e => Err e
      end
    else Fault.
Proof.
  intros Hm Hn. unfold make_buffer_writer.
  etrans; [exact (Hm [] (replicate (Z.to_nat n) 0))|]. unfold run_emission.
  rewrite length_replicate. unfold zsize. repeat case_decide; try lia; [|done].
  destruct (a.2); [done|]. simpl. rewrite drop_replicate.
  by replace (Z.to_nat n - length a.1)%nat with (Z.to_nat (n - Z.of_nat (length a.1))) by lia.
Qed.
End refinement.

Create HintDb writer discriminated.
#[export] Hint Resolve refines_ret refines_unexpected refines_write_byte refines_write
  refines_write_uint16 refines_write_uint32 refines_write_uint64 : writer.
