(* ===== verification/Leb128.v ===== *)
(** * Unsigned LEB128: [core/utils/unsigned_leb128.hxx]

    The encoder class [unsigned_leb128<T>] fills a fixed array, so its bound
    matters; the no-throw decoder shifts by a running amount, so the number
    of continuation bytes matters.  [w] is the width of [T]: 32 or 64, the
    unsigned types that C++ does not promote. *)

From S2P Require Import Prelude.

Definition leb_width (w : Z) : Prop := w = 32 ∨ w = 64.

(** ** Decoder *)

Section decoder.
Context {E : Type}.

(** The loop over [buf[1..]]: [None] when it reaches the end of the buffer
    without a stop byte.  Shifting a [T] by its width or more is undefined. *)
Fixpoint decode_loop (w shift rv : Z) (rest : bytes) : outcome E (option (Z * bytes)) :=
  match rest with
  | [] => Ok None
  | b :: rest =>
      if decide (w ≤ shift) then Fault
      else
        let rv := Z.lor rv (wrap w (Z.shiftl (Z.land b 0x7f) shift)) in
        if decide (Z.land b 0x80 = 0) then Ok (Some (rv, rest))
        else decode_loop w (wrap w (shift + 7)) rv rest
  end.

(** [decode_unsigned_leb128<T>(buf, leb_128_no_throw{})]: the value and the
    bytes that follow it, or [(0, None)] where the source returns a null span. *)
Definition decode_unsigned_leb128_no_throw (w : Z) (buf : bytes)
    : outcome E (Z * option bytes) :=
  b0 ← at_ buf 0;
  let rv := Z.land b0 0x7f in
  if decide (Z.land b0 0x80 = 0x80) then
    r ← decode_loop w 7 rv (drop 1 buf);
    match r with
    | Some (rv, rest) => Ok (rv, Some rest)
    | None => Ok (0, None)
    end
  else Ok (rv, Some (drop 1 buf)).
End decoder.

(** The throwing form; [std::invalid_argument] is the only error. *)
Inductive leb128_error := invalid_argument_buf_size (n : Z).

Definition decode_unsigned_leb128 (w : Z) (buf : bytes) : outcome leb128_error (Z * bytes) :=
  if decide (buf ≠ []) then
    rv ← decode_unsigned_leb128_no_throw w buf;
    match rv with
    | (v, Some rest) => Ok (v, rest)
    | (_, None) => Err (invalid_argument_buf_size (zsize buf))
    end
  else Err (invalid_argument_buf_size (zsize buf)).

Definition skip_unsigned_leb128 (w : Z) (buf : bytes) : outcome leb128_error bytes :=
  snd <$> decode_unsigned_leb128 w buf.

(** ** Encoder *)

Record leb128_encoder := Leb128Encoder {
  encoded_data_ : bytes;
  encoded_size_ : Z;
}.

(** [max_size], from [sizeof(T)] *)
Definition leb_max_size (w : Z) : Z :=
  let sizeof_T := w / 8 in sizeof_T + ((sizeof_T + 1) / 8 + 1).

Section encoder.
Context {E : Type}.

(** One iteration of the constructor's loop. *)
Definition encode_step (st : Z * leb128_encoder) : outcome E (Z * leb128_encoder) :=
  let '(in_, enc) := st in
  let byte := Z.land (u8 in_) 0x7f in
  let in_ := Z.shiftr in_ 7 in
  if decide (0 < in_) then
    let byte := Z.lor byte 0x80 in
    data ← store_range (encoded_data_ enc) (encoded_size_ enc - 1) [byte];
    Ok (in_, Leb128Encoder data (encoded_size_ enc + 1))
  else
    data ← store_range (encoded_data_ enc) (encoded_size_ enc - 1) [byte];
    Ok (in_, Leb128Encoder data (encoded_size_ enc)).

(** The constructor.  A [w]-bit value is zero after at most [w] shifts, so [w]
    iterations are enough. *)
Definition unsigned_leb128 (w in_ : Z) : outcome E leb128_encoder :=
  snd <$> while_loop (Z.to_nat w) (λ st, bool_decide (0 < st.1)) encode_step
    (in_, Leb128Encoder (replicate (Z.to_nat (leb_max_size w)) 0) 1).

End encoder.

(** [begin()] .. [end()] *)
Definition leb_encoded (enc : leb128_encoder) : bytes :=
  take (Z.to_nat (encoded_size_ enc)) (encoded_data_ enc).

(** ** Reference encoding: groups of seven bits, least significant first *)

Fixpoint leb_groups (n : nat) (v : Z) : bytes :=
  match n with
  | O => []
  | S n => if decide (v < 128) then [v] else (v mod 128 + 128) :: leb_groups n (v / 128)
  end.

Section facts.
Lemma land_0x7f b : Z.land b 0x7f = b mod 128.
Proof. apply (land_ones_mod b 7). lia. Qed.

Lemma land_0x80 b : is_u8 b → Z.land b 0x80 = if decide (b < 128) then 0 else 0x80.
Proof.
  intros Hb. change 0x80 with (Z.shiftl (Z.ones 1) 7) at 1.
  assert (Z.land b (Z.shiftl (Z.ones 1) 7) = b / 128 * 128) as ->.
  { apply Z.bits_inj'. intros i Hi. change 128 with (2 ^ 7).
    rewrite Z.land_spec, Z.shiftl_spec, Z.mul_pow2_bits by lia.
    destruct (decide (i = 7)) as [->|Hi7].
    - rewrite Z.div_pow2_bits by lia. simpl. by rewrite andb_true_r.
    - destruct (decide (i < 7)).
      + by rewrite !(Z.testbit_neg_r _ (i - 7)), andb_false_r by lia.
      + rewrite (Z.ones_spec_high 1 (i - 7)), andb_false_r by lia.
        rewrite Z.div_pow2_bits by lia. symmetry.
        rewrite <-(Z.mod_small b (2 ^ 8)) by done. apply Z.mod_pow2_bits_high. lia. }
  case_decide; width_lia.
Qed.

Lemma land_0x80_lo b : 0 ≤ b < 128 → Z.land b 0x80 = 0.
Proof. intros. rewrite land_0x80 by width_lia. by rewrite decide_True by lia. Qed.

Lemma land_0x80_hi b : 128 ≤ b < 256 → Z.land b 0x80 = 0x80.
Proof. intros. rewrite land_0x80 by width_lia. by rewrite decide_False by lia. Qed.

Lemma u8_land_0x7f v : Z.land (u8 v) 0x7f = v mod 128.
Proof. rewrite land_0x7f. width_lia. Qed.

Lemma lor_0x80 a : 0 ≤ a < 128 → Z.lor a 0x80 = a + 128.
Proof. intros. change 0x80 with (Z.shiftl 1 7). rewrite lor_shiftl_add by width_lia. done. Qed.

Lemma leb_groups_ok n v : 0 ≤ v → bytes_ok (leb_groups n v).
Proof.
  revert v. induction n as [|n IH]; intros v Hv; simpl; [done|].
  case_decide; constructor; try done; [width_lia|width_lia|apply IH; width_lia].
Qed.

Lemma leb_groups_pos n v : 0 ≤ v → (0 < n)%nat → leb_groups n v ≠ [].
Proof. destruct n; [lia|]. simpl. intros. by case_decide. Qed.

(** More groups than necessary do not change the encoding. *)
Lemma leb_groups_length n v :
  (0 < n)%nat → 0 ≤ v < 128 ^ Z.of_nat n → (length (leb_groups n v) ≤ n)%nat ∧
  ∀ m, (n ≤ m)%nat → leb_groups m v = leb_groups n v.
Proof.
  revert v. induction n as [|n IH]; intros v Hn Hv; [lia|].
  replace (Z.of_nat (S n)) with (Z.of_nat n + 1) in Hv by lia.
  rewrite Z.pow_add_r in Hv by lia. simpl.
  destruct (decide (v < 128)).
  { split; [simpl; lia|]. intros [|m] Hm; [lia|]. simpl. by rewrite decide_True. }
  destruct (decide (n = 0%nat)) as [->|Hn0]; [simpl in *; lia|].
  destruct (IH (v / 128)) as [IH1 IH2]; [lia| |].
  { split; [width_lia|]. apply Z.div_lt_upper_bound; lia. }
  split; [simpl; lia|]. intros [|m] Hm; [lia|]. simpl.
  rewrite decide_False by lia. by rewrite IH2 by lia.
Qed.
End facts.

(** ** Encoder and decoder against the reference *)

Section correctness.
Context {E : Type}.

(** The decoder's loop reads back an encoded value placed at bit [shift]. *)
Lemma decode_loop_groups w n v shift rv rest :
  leb_width w → (0 < n)%nat → 0 < v < 128 ^ Z.of_nat n →
  0 ≤ shift → 0 ≤ rv < 2 ^ shift → v * 2 ^ shift < 2 ^ w →
  decode_loop (E:=E) w shift rv (leb_groups n v ++ rest) =
    Ok (Some (rv + v * 2 ^ shift, rest)).
Proof.
  intros Hw. revert v shift rv.
  induction n as [|n IH]; intros v shift rv Hn Hv Hs Hrv Hfit; [lia|].
  assert (shift < w) as Hsw.
  { apply (Z.pow_lt_mono_r_iff 2); [lia|destruct Hw; lia|]. nia. }
  assert (∀ b, b mod 128 = v mod 128 →
    Z.lor rv (wrap w (Z.shiftl (Z.land b 0x7f) shift)) = rv + v mod 128 * 2 ^ shift) as Hor.
  { intros b Hb. rewrite land_0x7f, Hb, Z.shiftl_mul_pow2 by lia.
    rewrite wrap_small by (unfold in_width; pose proof (Z.mod_pos_bound v 128); 
                           pose proof (Z.mod_le v 128); nia).
    rewrite <-Z.shiftl_mul_pow2, lor_shiftl_add, ?Z.shiftl_mul_pow2 by (done || lia). done. }
  cbn [leb_groups]. destruct (decide (v < 128)) as [Hlt|Hge].
  - simpl. rewrite decide_False by lia. rewrite land_0x80_lo, decide_True by lia.
    rewrite Hor by done. by rewrite Z.mod_small by lia.
  - simpl. rewrite decide_False by lia. rewrite land_0x80_hi, decide_False by width_lia.
    rewrite Hor by width_lia. rewrite wrap_small by (destruct Hw; subst; width_lia).
    replace (Z.of_nat (S n)) with (Z.of_nat n + 1) in Hv by lia.
    rewrite Z.pow_add_r in Hv by lia.
    pose proof (Z.mod_pos_bound v 128). pose proof (Z.div_mod v 128).
    rewrite IH.
    + do 2 f_equal. rewrite Z.pow_add_r by lia. change (2 ^ 7) with 128. f_equal. nia.
    + destruct n; [simpl in Hv; lia|lia].
    + split; [width_lia|]. apply Z.div_lt_upper_bound; lia.
    + lia.
    + rewrite Z.pow_add_r by lia. change (2 ^ 7) with 128. nia.
    + rewrite Z.pow_add_r by lia. change (2 ^ 7) with 128. nia.
Qed.

Lemma decode_groups w n v rest :
  leb_width w → (0 < n)%nat → 0 ≤ v < 128 ^ Z.of_nat n → in_width w v →
  decode_unsigned_leb128_no_throw (E:=E) w (leb_groups n v ++ rest) = Ok (v, Some rest).
Proof.
  intros Hw Hn Hv Hvw. unfold decode_unsigned_leb128_no_throw.
  destruct n as [|n]; [lia|]. cbn [leb_groups]. destruct (decide (v < 128)) as [Hlt|Hge].
  - simpl. rewrite land_0x80_lo, decide_False by lia.
    by rewrite land_0x7f, Z.mod_small, drop_0 by lia.
  - simpl. rewrite land_0x80_hi, decide_True by width_lia.
    replace (Z.of_nat (S n)) with (Z.of_nat n + 1) in Hv by lia.
    rewrite Z.pow_add_r in Hv by lia.
    pose proof (Z.div_mod v 128).
    rewrite drop_0, decode_loop_groups; try done; simpl; try width_lia.
    + do 2 f_equal. rewrite land_0x7f. width_lia.
    + destruct n; [simpl in Hv; lia|lia].
    + rewrite land_0x7f. change (2 ^ 7) with 128. width_lia.
Qed.

(** One iteration appends one group. *)
Lemma encode_step_spec in_ pre free :
  0 < in_ → (0 < length free)%nat →
  encode_step (E:=E) (in_, Leb128Encoder (pre ++ free) (zsize pre + 1)) =
    Ok (in_ / 128,
        if decide (in_ < 128)
        then Leb128Encoder (pre ++ in_ :: drop 1 free) (zsize pre + 1)
        else Leb128Encoder ((pre ++ [in_ mod 128 + 128]) ++ drop 1 free)
               (zsize (pre ++ [in_ mod 128 + 128]) + 1)).
Proof.
  intros Hin Hfree. unfold encode_step. rewrite Z.shiftr_div_pow2, u8_land_0x7f by lia.
  change (2 ^ 7) with 128. cbn [encoded_data_ encoded_size_].
  replace (zsize pre + 1 - 1) with (zsize pre) by lia.
  destruct free as [|f free]; [simpl in Hfree; lia|]. change (drop 1 (f :: free)) with (drop 0 free).
  rewrite drop_0.
  assert (∀ b, store_range (E:=E) (pre ++ f :: free) (zsize pre) [b] = Ok (pre ++ b :: free)) as Hst.
  { intros b. by apply (store_range_app pre [f] free [b]). }
  destruct (decide (in_ < 128)).
  - rewrite decide_False by width_lia. rewrite Hst. simpl. by rewrite Z.mod_small by lia.
  - rewrite decide_True by width_lia. rewrite Hst. simpl.
    rewrite lor_0x80 by width_lia. rewrite <-app_assoc, zsize_app. simpl. do 2 f_equal.
Qed.

Lemma encode_loop_spec fuel n in_ pre free :
  0 < in_ < 128 ^ Z.of_nat n → (n ≤ fuel)%nat → (n ≤ length free)%nat →
  while_loop (E:=E) fuel (λ st, bool_decide (0 < st.1)) encode_step
    (in_, Leb128Encoder (pre ++ free) (zsize pre + 1)) =
  Ok (0, Leb128Encoder (pre ++ leb_groups n in_ ++ drop (length (leb_groups n in_)) free)
           (zsize pre + zsize (leb_groups n in_))).
Proof.
  revert fuel in_ pre free. induction n as [|n IH]; intros fuel in_ pre free Hin Hf Hfree.
  { simpl in Hin. lia. }
  replace (Z.of_nat (S n)) with (Z.of_nat n + 1) in Hin by lia.
  rewrite Z.pow_add_r in Hin by lia.
  destruct fuel as [|fuel]; [lia|].
  erewrite while_loop_step; [|apply bool_decide_true; simpl; lia|apply encode_step_spec; lia].
  cbn [leb_groups]. destruct (decide (in_ < 128)).
  - rewrite Z.div_small by lia. rewrite while_loop_done by done. done.
  - rewrite IH; [|split; [width_lia|apply Z.div_lt_upper_bound; lia]|lia|rewrite length_drop; lia].
    rewrite <-!app_assoc, drop_drop. simpl. do 3 f_equal. size_lia.
Qed.

(** The array is large enough: the constructor never writes past it. *)
Lemma unsigned_leb128_spec w v :
  leb_width w → in_width w v →
  ∃ enc, unsigned_leb128 (E:=E) w v = Ok enc ∧
    leb_encoded enc = leb_groups (Z.to_nat (leb_max_size w)) v ∧
    encoded_size_ enc ≤ leb_max_size w.
Proof.
  intros Hw Hv. unfold unsigned_leb128. set (n := Z.to_nat (leb_max_size w)).
  assert (n = 5%nat ∧ w = 32 ∨ n = 10%nat ∧ w = 64) as Hn by (destruct Hw; subst; auto).
  assert (0 ≤ v < 128 ^ Z.of_nat n) as Hvn.
  { destruct Hn as [[-> ->]|[-> ->]]; width_lia. }
  assert (leb_max_size w = Z.of_nat n) as Hmax by (destruct Hw; subst; done).
  destruct (decide (v = 0)) as [->|Hv0].
  - rewrite while_loop_done by done. eexists. split; [done|].
    unfold leb_encoded. simpl.
    destruct Hn as [[-> ->]|[-> ->]]; split; done.
  - change (Leb128Encoder (replicate n 0) 1) with
      (Leb128Encoder ([] ++ replicate n 0) (zsize (@nil Z) + 1)).
    rewrite (encode_loop_spec _ n); [|lia|destruct Hw; subst; lia|by rewrite length_replicate].
    eexists. split; [done|]. unfold leb_encoded. simpl.
    destruct (leb_groups_length n v) as [Hl _]; [lia|done|].
    rewrite zsize_nil, Z.add_0_l, zsize_to_nat, take_app_length.
    split; [done|]. rewrite Hmax. unfold zsize. lia.
Qed.

Lemma leb_max_size_width w :
  leb_width w → 7 * (leb_max_size w - 1) < w ≤ 7 * leb_max_size w ∧ 1 ≤ leb_max_size w ≤ 10.
Proof. intros [->| ->]; [change (leb_max_size 32) with 5|change (leb_max_size 64) with 10]; lia. Qed.

Lemma decode_loop_fault w i rv rest :
  leb_width w → 0 ≤ i ≤ leb_max_size w → bytes_ok rest →
  decode_loop (E:=E) w (7 * i) rv rest = Fault ↔
    (Z.to_nat (leb_max_size w - i) < length rest)%nat ∧
    Forall (λ b, 128 ≤ b) (take (Z.to_nat (leb_max_size w - i)) rest).
Proof.
  intros Hw Hi Hrest. destruct (leb_max_size_width w Hw) as [Hm Hm'].
  revert i rv Hi. induction Hrest as [|b rest Hb Hrest IH]; intros i rv Hi; simpl.
  { split; [done|lia]. }
  destruct (decide (i = leb_max_size w)) as [->|Hne].
  { rewrite decide_True, Z.sub_diag by lia. simpl. split; [split; [lia|constructor]|done]. }
  rewrite decide_False by lia.
  replace (Z.to_nat (leb_max_size w - i)) with (S (Z.to_nat (leb_max_size w - (i + 1)))) by lia.
  simpl. rewrite Forall_cons.
  destruct (decide (b < 128)).
  - rewrite land_0x80_lo, decide_True by (lia || width_lia). split; [done|lia].
  - rewrite land_0x80_hi, decide_False by (lia || width_lia).
    rewrite wrap_small by (destruct Hw; subst w; width_lia).
    replace (7 * i + 7) with (7 * (i + 1)) by lia. rewrite IH by lia.
    split; [intros []|intros [? []]]; repeat split; (done || lia).
Qed.

Lemma decode_loop_total w shift rv rest :
  (∀ e, decode_loop (E:=E) w shift rv rest ≠ Err e) ∧ decode_loop (E:=E) w shift rv rest ≠ Diverge.
Proof.
  revert shift rv. induction rest as [|b rest IH]; intros shift rv; simpl; [done|].
  repeat case_decide; done.
Qed.
End correctness.

(** LEB128 round trip.  For every 32- or 64-bit value the encoder's
    constructor terminates without writing past its fixed array, its size is
    at most [max_size], and both decoders, given the encoded bytes followed by
    any other data, return the value and exactly that data. *)
Theorem leb128_roundtrip w v rest :
  leb_width w → in_width w v →
  ∃ enc, unsigned_leb128 (E:=leb128_error) w v = Ok enc ∧
    1 ≤ encoded_size_ enc ≤ leb_max_size w ∧
    decode_unsigned_leb128_no_throw (E:=leb128_error) w (leb_encoded enc ++ rest) = Ok (v, Some rest) ∧
    decode_unsigned_leb128 w (leb_encoded enc ++ rest) = Ok (v, rest) ∧
    skip_unsigned_leb128 w (leb_encoded enc ++ rest) = Ok rest.
Proof.
  intros Hw Hv. destruct (unsigned_leb128_spec (E:=leb128_error) w v Hw Hv) as (enc & Henc & Hb & Hs).
  destruct (leb_max_size_width w Hw) as [Hm Hm'].
  assert (Hdec : decode_unsigned_leb128_no_throw (E:=leb128_error) w (leb_encoded enc ++ rest)
                 = Ok (v, Some rest)).
  { rewrite Hb. apply decode_groups; [done|lia| |done].
    destruct Hw; subst w; width_lia. }
  assert (Hne : leb_encoded enc ++ rest ≠ []).
  { rewrite Hb. intros [? _]%app_nil. by apply (leb_groups_pos (Z.to_nat (leb_max_size w)) v);
      [apply Hv|lia|]. }
  exists enc. unfold skip_unsigned_leb128, decode_unsigned_leb128.
  rewrite decide_True, Hdec by done. split_and!; try done.
  assert (0 < encoded_size_ enc); [|lia].
  destruct (decide (0 < encoded_size_ enc)) as [|Hz]; [done|exfalso].
  unfold leb_encoded in Hb. replace (Z.to_nat (encoded_size_ enc)) with 0%nat in Hb by lia.
  symmetry in Hb. by apply leb_groups_pos in Hb; [|apply Hv|lia].
Qed.

Lemma leb128_roundtrip_witness :
  ∃ enc, unsigned_leb128 (E:=leb128_error) 32 624485 = Ok enc ∧
    1 ≤ encoded_size_ enc ≤ leb_max_size 32 ∧
    decode_unsigned_leb128_no_throw (E:=leb128_error) 32 (leb_encoded enc ++ [7]) = Ok (624485, Some [7]) ∧
    decode_unsigned_leb128 32 (leb_encoded enc ++ [7]) = Ok (624485, [7]) ∧
    skip_unsigned_leb128 32 (leb_encoded enc ++ [7]) = Ok [7].
Proof. apply (leb128_roundtrip 32 624485 [7]); [by left|vm_compute; split; congruence]. Defined.

(** Exact domain of the no-throw decoder.  On a non-empty buffer it has
    undefined behaviour (a shift by at least the width of its type) precisely
    when the first [max_size] bytes all have the continuation bit and at
    least one more byte follows; on every other buffer it returns. *)
Theorem leb128_decode_fault_iff w buf :
  leb_width w → bytes_ok buf → buf ≠ [] →
  (decode_unsigned_leb128_no_throw (E:=leb128_error) w buf = Fault ↔
     leb_max_size w < zsize buf ∧
     Forall (λ b, 128 ≤ b) (take (Z.to_nat (leb_max_size w)) buf)) ∧
  (decode_unsigned_leb128_no_throw (E:=leb128_error) w buf = Fault ∨
     ∃ r, decode_unsigned_leb128_no_throw (E:=leb128_error) w buf = Ok r).
Proof.
  intros Hw Hbuf Hne. destruct (leb_max_size_width w Hw) as [Hm Hm'].
  destruct Hbuf as [|b buf Hb Hbuf]; [done|].
  pose proof (λ rv, decode_loop_fault (E:=leb128_error) w 1 rv buf Hw) as Hloop.
  change (7 * 1) with 7 in Hloop.
  unfold decode_unsigned_leb128_no_throw. simpl. rewrite drop_0.
  replace (Z.to_nat (leb_max_size w)) with (S (Z.to_nat (leb_max_size w - 1))) by lia.
  rewrite zsize_cons. simpl. rewrite Forall_cons.
  destruct (decide (b < 128)).
  { rewrite land_0x80_lo, decide_False by (lia || width_lia). split; [|eauto].
    split; [done|]. intros (_ & ? & _). lia. }
  rewrite land_0x80_hi, decide_True by (lia || width_lia).
  specialize (Hloop (Z.land b 0x7f) ltac:(lia) Hbuf).
  destruct (decode_loop_total (E:=leb128_error) w 7 (Z.land b 127) buf) as [Hnerr Hnd].
  assert (Hsz : (Z.to_nat (leb_max_size w - 1) < length buf)%nat ↔ leb_max_size w < 1 + zsize buf)
    by (unfold zsize; lia).
  assert (128 ≤ b) by lia.
  destruct (decode_loop w 7 (Z.land b 127) buf) as [[[??]|]|e| |]; simpl; naive_solver.
Qed.

Lemma leb128_decode_fault_iff_witness :
  let buf := replicate 6 0x80 in
  (decode_unsigned_leb128_no_throw (E:=leb128_error) 32 buf = Fault ↔
     leb_max_size 32 < zsize buf ∧
     Forall (λ b, 128 ≤ b) (take (Z.to_nat (leb_max_size 32)) buf)) ∧
  (decode_unsigned_leb128_no_throw (E:=leb128_error) 32 buf = Fault ∨
     ∃ r, decode_unsigned_leb128_no_throw (E:=leb128_error) 32 buf = Ok r).
Proof.
  apply (leb128_decode_fault_iff 32); [by left| |done].
  apply Forall_replicate. vm_compute. split; congruence.
Defined.
