(* ===== verification/Packet.v ===== *)
(** * Packets: [core/mcbp/packet.hxx] and the frame structures it holds

    The fields of the C++ class, with its default member initialisers as
    [default_packet].  Frame structures with no members are [unit];
    [std::chrono] durations are their counts. *)

From S2P Require Import Prelude Protocol.

(** [mcbp::unsupported_frame] *)
Record unsupported_frame := UnsupportedFrame {
  uf_type : Z;
  uf_data : bytes;
}.

Global Instance unsupported_frame_eq_dec : EqDecision unsupported_frame.
Proof. solve_decision. Defined.

Record packet := Packet {
  magic_ : Z;
  command_ : Z;
  datatype_ : Z;
  status_ : Z;
  status_code_ : Z;
  vbucket_ : Z;
  opaque_ : Z;
  cas_ : Z;
  collection_id_ : Z;
  key_ : bytes;
  extras_ : bytes;
  value_ : bytes;
  barrier_frame_ : option unit;
  durability_level_frame_ : option Z;
  durability_timeout_frame_ : option Z;
  stream_id_frame_ : option Z;
  open_tracing_frame_ : option bytes;
  server_duration_frame_ : option Z;
  user_impersonation_frame_ : option bytes;
  preserve_expiry_frame_ : option unit;
  read_units_frame_ : option Z;
  write_units_frame_ : option Z;
  unsupported_frames_ : list unsupported_frame;
}.

Global Instance packet_eq_dec : EqDecision packet.
Proof. solve_decision. Defined.

(** A default-constructed [packet]. *)
Definition default_packet : packet := {|
  magic_ := enum_code Magic.invalid;
  command_ := enum_code ClientOpcode.invalid;
  datatype_ := 0;
  status_ := 0;
  status_code_ := enum_code Status.success;
  vbucket_ := 0;
  opaque_ := 0;
  cas_ := 0;
  collection_id_ := 0;
  key_ := [];
  extras_ := [];
  value_ := [];
  barrier_frame_ := None;
  durability_level_frame_ := None;
  durability_timeout_frame_ := None;
  stream_id_frame_ := None;
  open_tracing_frame_ := None;
  server_duration_frame_ := None;
  user_impersonation_frame_ := None;
  preserve_expiry_frame_ := None;
  read_units_frame_ := None;
  write_units_frame_ := None;
  unsupported_frames_ := [];
|}.

(** ** Assignments to the members the decoder fills in *)

Definition set_magic (x : Z) (p : packet) : packet :=
  Packet x (command_ p) (datatype_ p) (status_ p) (status_code_ p) (vbucket_ p) (opaque_ p)
    (cas_ p) (collection_id_ p) (key_ p) (extras_ p) (value_ p) (barrier_frame_ p)
    (durability_level_frame_ p) (durability_timeout_frame_ p) (stream_id_frame_ p)
    (open_tracing_frame_ p) (server_duration_frame_ p) (user_impersonation_frame_ p)
    (preserve_expiry_frame_ p) (read_units_frame_ p) (write_units_frame_ p)
    (unsupported_frames_ p).

Definition set_command (x : Z) (p : packet) : packet :=
  Packet (magic_ p) x (datatype_ p) (status_ p) (status_code_ p) (vbucket_ p) (opaque_ p)
    (cas_ p) (collection_id_ p) (key_ p) (extras_ p) (value_ p) (barrier_frame_ p)
    (durability_level_frame_ p) (durability_timeout_frame_ p) (stream_id_frame_ p)
    (open_tracing_frame_ p) (server_duration_frame_ p) (user_impersonation_frame_ p)
    (preserve_expiry_frame_ p) (read_units_frame_ p) (write_units_frame_ p)
    (unsupported_frames_ p).

Definition set_datatype (x : Z) (p : packet) : packet :=
  Packet (magic_ p) (command_ p) x (status_ p) (status_code_ p) (vbucket_ p) (opaque_ p)
    (cas_ p) (collection_id_ p) (key_ p) (extras_ p) (value_ p) (barrier_frame_ p)
    (durability_level_frame_ p) (durability_timeout_frame_ p) (stream_id_frame_ p)
    (open_tracing_frame_ p) (server_duration_frame_ p) (user_impersonation_frame_ p)
    (preserve_expiry_frame_ p) (read_units_frame_ p) (write_units_frame_ p)
    (unsupported_frames_ p).

Definition set_vbucket (x : Z) (p : packet) : packet :=
  Packet (magic_ p) (command_ p) (datatype_ p) (status_ p) (status_code_ p) x (opaque_ p)
    (cas_ p) (collection_id_ p) (key_ p) (extras_ p) (value_ p) (barrier_frame_ p)
    (durability_level_frame_ p) (durability_timeout_frame_ p) (stream_id_frame_ p)
    (open_tracing_frame_ p) (server_duration_frame_ p) (user_impersonation_frame_ p)
    (preserve_expiry_frame_ p) (read_units_frame_ p) (write_units_frame_ p)
    (unsupported_frames_ p).

Definition set_opaque (x : Z) (p : packet) : packet :=
  Packet (magic_ p) (command_ p) (datatype_ p) (status_ p) (status_code_ p) (vbucket_ p) x
    (cas_ p) (collection_id_ p) (key_ p) (extras_ p) (value_ p) (barrier_frame_ p)
    (durability_level_frame_ p) (durability_timeout_frame_ p) (stream_id_frame_ p)
    (open_tracing_frame_ p) (server_duration_frame_ p) (user_impersonation_frame_ p)
    (preserve_expiry_frame_ p) (read_units_frame_ p) (write_units_frame_ p)
    (unsupported_frames_ p).

Definition set_cas (x : Z) (p : packet) : packet :=
  Packet (magic_ p) (command_ p) (datatype_ p) (status_ p) (status_code_ p) (vbucket_ p)
    (opaque_ p) x (collection_id_ p) (key_ p) (extras_ p) (value_ p) (barrier_frame_ p)
    (durability_level_frame_ p) (durability_timeout_frame_ p) (stream_id_frame_ p)
    (open_tracing_frame_ p) (server_duration_frame_ p) (user_impersonation_frame_ p)
    (preserve_expiry_frame_ p) (read_units_frame_ p) (write_units_frame_ p)
    (unsupported_frames_ p).

Definition set_collection_id (x : Z) (p : packet) : packet :=
  Packet (magic_ p) (command_ p) (datatype_ p) (status_ p) (status_code_ p) (vbucket_ p)
    (opaque_ p) (cas_ p) x (key_ p) (extras_ p) (value_ p) (barrier_frame_ p)
    (durability_level_frame_ p) (durability_timeout_frame_ p) (stream_id_frame_ p)
    (open_tracing_frame_ p) (server_duration_frame_ p) (user_impersonation_frame_ p)
    (preserve_expiry_frame_ p) (read_units_frame_ p) (write_units_frame_ p)
    (unsupported_frames_ p).

Definition set_key (x : bytes) (p : packet) : packet :=
  Packet (magic_ p) (command_ p) (datatype_ p) (status_ p) (status_code_ p) (vbucket_ p)
    (opaque_ p) (cas_ p) (collection_id_ p) x (extras_ p) (value_ p) (barrier_frame_ p)
    (durability_level_frame_ p) (durability_timeout_frame_ p) (stream_id_frame_ p)
    (open_tracing_frame_ p) (server_duration_frame_ p) (user_impersonation_frame_ p)
    (preserve_expiry_frame_ p) (read_units_frame_ p) (write_units_frame_ p)
    (unsupported_frames_ p).

Definition set_extras (x : bytes) (p : packet) : packet :=
  Packet (magic_ p) (command_ p) (datatype_ p) (status_ p) (status_code_ p) (vbucket_ p)
    (opaque_ p) (cas_ p) (collection_id_ p) (key_ p) x (value_ p) (barrier_frame_ p)
    (durability_level_frame_ p) (durability_timeout_frame_ p) (stream_id_frame_ p)
    (open_tracing_frame_ p) (server_duration_frame_ p) (user_impersonation_frame_ p)
    (preserve_expiry_frame_ p) (read_units_frame_ p) (write_units_frame_ p)
    (unsupported_frames_ p).

Definition set_value (x : bytes) (p : packet) : packet :=
  Packet (magic_ p) (command_ p) (datatype_ p) (status_ p) (status_code_ p) (vbucket_ p)
    (opaque_ p) (cas_ p) (collection_id_ p) (key_ p) (extras_ p) x (barrier_frame_ p)
    (durability_level_frame_ p) (durability_timeout_frame_ p) (stream_id_frame_ p)
    (open_tracing_frame_ p) (server_duration_frame_ p) (user_impersonation_frame_ p)
    (preserve_expiry_frame_ p) (read_units_frame_ p) (write_units_frame_ p)
    (unsupported_frames_ p).

Definition set_barrier_frame (x : option unit) (p : packet) : packet :=
  Packet (magic_ p) (command_ p) (datatype_ p) (status_ p) (status_code_ p) (vbucket_ p)
    (opaque_ p) (cas_ p) (collection_id_ p) (key_ p) (extras_ p) (value_ p) x
    (durability_level_frame_ p) (durability_timeout_frame_ p) (stream_id_frame_ p)
    (open_tracing_frame_ p) (server_duration_frame_ p) (user_impersonation_frame_ p)
    (preserve_expiry_frame_ p) (read_units_frame_ p) (write_units_frame_ p)
    (unsupported_frames_ p).

Definition set_durability_level_frame (x : option Z) (p : packet) : packet :=
  Packet (magic_ p) (command_ p) (datatype_ p) (status_ p) (status_code_ p) (vbucket_ p)
    (opaque_ p) (cas_ p) (collection_id_ p) (key_ p) (extras_ p) (value_ p) (barrier_frame_ p)
    x (durability_timeout_frame_ p) (stream_id_frame_ p) (open_tracing_frame_ p)
    (server_duration_frame_ p) (user_impersonation_frame_ p) (preserve_expiry_frame_ p)
    (read_units_frame_ p) (write_units_frame_ p) (unsupported_frames_ p).

Definition set_durability_timeout_frame (x : option Z) (p : packet) : packet :=
  Packet (magic_ p) (command_ p) (datatype_ p) (status_ p) (status_code_ p) (vbucket_ p)
    (opaque_ p) (cas_ p) (collection_id_ p) (key_ p) (extras_ p) (value_ p) (barrier_frame_ p)
    (durability_level_frame_ p) x (stream_id_frame_ p) (open_tracing_frame_ p)
    (server_duration_frame_ p) (user_impersonation_frame_ p) (preserve_expiry_frame_ p)
    (read_units_frame_ p) (write_units_frame_ p) (unsupported_frames_ p).

Definition set_stream_id_frame (x : option Z) (p : packet) : packet :=
  Packet (magic_ p) (command_ p) (datatype_ p) (status_ p) (status_code_ p) (vbucket_ p)
    (opaque_ p) (cas_ p) (collection_id_ p) (key_ p) (extras_ p) (value_ p) (barrier_frame_ p)
    (durability_level_frame_ p) (durability_timeout_frame_ p) x (open_tracing_frame_ p)
    (server_duration_frame_ p) (user_impersonation_frame_ p) (preserve_expiry_frame_ p)
    (read_units_frame_ p) (write_units_frame_ p) (unsupported_frames_ p).

Definition set_open_tracing_frame (x : option bytes) (p : packet) : packet :=
  Packet (magic_ p) (command_ p) (datatype_ p) (status_ p) (status_code_ p) (vbucket_ p)
    (opaque_ p) (cas_ p) (collection_id_ p) (key_ p) (extras_ p) (value_ p) (barrier_frame_ p)
    (durability_level_frame_ p) (durability_timeout_frame_ p) (stream_id_frame_ p) x
    (server_duration_frame_ p) (user_impersonation_frame_ p) (preserve_expiry_frame_ p)
    (read_units_frame_ p) (write_units_frame_ p) (unsupported_frames_ p).

Definition set_server_duration_frame (x : option Z) (p : packet) : packet :=
  Packet (magic_ p) (command_ p) (datatype_ p) (status_ p) (status_code_ p) (vbucket_ p)
    (opaque_ p) (cas_ p) (collection_id_ p) (key_ p) (extras_ p) (value_ p) (barrier_frame_ p)
    (durability_level_frame_ p) (durability_timeout_frame_ p) (stream_id_frame_ p)
    (open_tracing_frame_ p) x (user_impersonation_frame_ p) (preserve_expiry_frame_ p)
    (read_units_frame_ p) (write_units_frame_ p) (unsupported_frames_ p).

Definition set_user_impersonation_frame (x : option bytes) (p : packet) : packet :=
  Packet (magic_ p) (command_ p) (datatype_ p) (status_ p) (status_code_ p) (vbucket_ p)
    (opaque_ p) (cas_ p) (collection_id_ p) (key_ p) (extras_ p) (value_ p) (barrier_frame_ p)
    (durability_level_frame_ p) (durability_timeout_frame_ p) (stream_id_frame_ p)
    (open_tracing_frame_ p) (server_duration_frame_ p) x (preserve_expiry_frame_ p)
    (read_units_frame_ p) (write_units_frame_ p) (unsupported_frames_ p).

Definition set_preserve_expiry_frame (x : option unit) (p : packet) : packet :=
  Packet (magic_ p) (command_ p) (datatype_ p) (status_ p) (status_code_ p) (vbucket_ p)
    (opaque_ p) (cas_ p) (collection_id_ p) (key_ p) (extras_ p) (value_ p) (barrier_frame_ p)
    (durability_level_frame_ p) (durability_timeout_frame_ p) (stream_id_frame_ p)
    (open_tracing_frame_ p) (server_duration_frame_ p) (user_impersonation_frame_ p) x
    (read_units_frame_ p) (write_units_frame_ p) (unsupported_frames_ p).

Definition set_read_units_frame (x : option Z) (p : packet) : packet :=
  Packet (magic_ p) (command_ p) (datatype_ p) (status_ p) (status_code_ p) (vbucket_ p)
    (opaque_ p) (cas_ p) (collection_id_ p) (key_ p) (extras_ p) (value_ p) (barrier_frame_ p)
    (durability_level_frame_ p) (durability_timeout_frame_ p) (stream_id_frame_ p)
    (open_tracing_frame_ p) (server_duration_frame_ p) (user_impersonation_frame_ p)
    (preserve_expiry_frame_ p) x (write_units_frame_ p) (unsupported_frames_ p).

Definition set_write_units_frame (x : option Z) (p : packet) : packet :=
  Packet (magic_ p) (command_ p) (datatype_ p) (status_ p) (status_code_ p) (vbucket_ p)
    (opaque_ p) (cas_ p) (collection_id_ p) (key_ p) (extras_ p) (value_ p) (barrier_frame_ p)
    (durability_level_frame_ p) (durability_timeout_frame_ p) (stream_id_frame_ p)
    (open_tracing_frame_ p) (server_duration_frame_ p) (user_impersonation_frame_ p)
    (preserve_expiry_frame_ p) (read_units_frame_ p) x (unsupported_frames_ p).

Definition set_unsupported_frames (x : list unsupported_frame) (p : packet) : packet :=
  Packet (magic_ p) (command_ p) (datatype_ p) (status_ p) (status_code_ p) (vbucket_ p)
    (opaque_ p) (cas_ p) (collection_id_ p) (key_ p) (extras_ p) (value_ p) (barrier_frame_ p)
    (durability_level_frame_ p) (durability_timeout_frame_ p) (stream_id_frame_ p)
    (open_tracing_frame_ p) (server_duration_frame_ p) (user_impersonation_frame_ p)
    (preserve_expiry_frame_ p) (read_units_frame_ p) (write_units_frame_ p) x.

Definition set_status (x y : Z) (p : packet) : packet :=
  Packet (magic_ p) (command_ p) (datatype_ p) x y (vbucket_ p) (opaque_ p) (cas_ p)
    (collection_id_ p) (key_ p) (extras_ p) (value_ p) (barrier_frame_ p)
    (durability_level_frame_ p) (durability_timeout_frame_ p) (stream_id_frame_ p)
    (open_tracing_frame_ p) (server_duration_frame_ p) (user_impersonation_frame_ p)
    (preserve_expiry_frame_ p) (read_units_frame_ p) (write_units_frame_ p)
    (unsupported_frames_ p).
