(* ===== verification/Codec.v ===== *)
(** * The packet codec: [core/mcbp/codec.cxx]

    [encode_packet] checks a packet against the negotiated features, computes
    the size of its framing extras, allocates a buffer of exactly that size
    and writes header, frames, extras, key and value into it; [decode_packet]
    is the inverse.  The definitions follow the source section by section;
    their theorems are in [CodecProofs.v]. *)

From S2P Require Import Prelude ByteOrder Protocol BufferWriter Leb128 Packet.

(** ** The codec object *)

Record codec := Codec {
  enabled_features_ : gset Z;
  collections_enabled_ : bool;
}.

(** [codec::codec] *)
Definition make_codec (enabled_features : gset Z) : codec :=
  Codec enabled_features
    (bool_decide (enum_code HelloFeature.collections ∈ enabled_features)).

Definition enable_feature (c : codec) (feature : Z) : codec :=
  Codec ({[feature]} ∪ enabled_features_ c)
    (if is_enum feature HelloFeature.collections then true else collections_enabled_ c).

Definition is_feature_enabled (c : codec) (feature : HelloFeature.hello_feature) : bool :=
  bool_decide (enum_code feature ∈ enabled_features_ c).

(** ** [core/mcbp/server_duration.cxx]

    The two conversions use [std::pow] on doubles, whose rounding is the
    platform's; the powers are parameters of the model, as truncated integers. *)
Class ServerDuration := {
  (** [pow(2 * micros, 1.0 / 1.74)] *)
  pow_encode : Z → Z;
  (** [pow(encoded, 1.74) / 2] *)
  pow_decode : Z → Z;
}.

Definition encode_server_duration `{ServerDuration} (duration : Z) : Z :=
  let encoded := pow_encode duration in
  if decide (65535 < encoded) then 65535 else u16 encoded.

Definition decode_server_duration `{ServerDuration} (encoded : Z) : Z := pow_decode encoded.

(** ** Encoding *)

Section encode.
Context `{ServerDuration}.
Implicit Types (c : codec) (p : packet).

(** The key and the extras as sent: the collection identifier is prepended to
    the key in LEB128, or put in the extras of [get_random_key]. *)
Definition encode_key_extras c p : outcome error_code (bytes * bytes) :=
  if collections_enabled_ c then
    if is_enum (command_ p) ClientOpcode.observe then
      Err (errc_common Common.unsupported_operation)
    else if supports_collection_id (command_ p) then
      encoded ← unsigned_leb128 32 (collection_id_ p);
      Ok (leb_encoded encoded ++ key_ p, extras_ p)
    else if is_enum (command_ p) ClientOpcode.get_random_key then
      extras ← big_endian.put_uint32 (resize_to 4 0 (extras_ p)) (collection_id_ p);
      Ok (key_ p, extras)
    else if decide (0 < collection_id_ p) then
      Err (errc_common Common.invalid_argument)
    else Ok (key_ p, extras_ p)
  else Ok (key_ p, extras_ p).

(** The running total [frames_len]; the tracing frame assigns it. *)
Definition frames_length p : Z :=
  let frames_len := 0 in
  let frames_len := if has (barrier_frame_ p) then frames_len + 1 else frames_len in
  let frames_len :=
    if has (durability_level_frame_ p) then
      let frames_len := frames_len + 2 in
      if has (durability_timeout_frame_ p) then frames_len + 2 else frames_len
    else frames_len in
  let frames_len := if has (stream_id_frame_ p) then frames_len + 3 else frames_len in
  let frames_len :=
    match open_tracing_frame_ p with
    | Some trace_context =>
        let trace_ctx_len := zsize trace_context in
        let frames_len := trace_ctx_len in
        if decide (trace_ctx_len < 15) then frames_len + 1 else frames_len + 2
    | None => frames_len
    end in
  let frames_len := if has (server_duration_frame_ p) then frames_len + 3 else frames_len in
  let frames_len :=
    match user_impersonation_frame_ p with
    | Some user =>
        let user_len := zsize user in
        let frames_len := frames_len + user_len in
        if decide (user_len < 15) then frames_len + 1 else frames_len + 2
    | None => frames_len
    end in
  if has (preserve_expiry_frame_ p) then frames_len + 1 else frames_len.

(** The magic actually sent: a packet with frames uses the alternative one. *)
Definition upgrade_magic c p (frames_len : Z) : outcome error_code Z :=
  if decide (0 < frames_len) then
    if is_enum (magic_ p) Magic.client_request then
      if negb (is_feature_enabled c HelloFeature.alt_request_support) then
        Err (errc_common Common.unsupported_operation)
      else Ok (enum_code Magic.alt_client_request)
    else if is_enum (magic_ p) Magic.client_response then
      Ok (enum_code Magic.alt_client_response)
    else Err (errc_common Common.unsupported_operation)
  else Ok (magic_ p).

Definition fail {A} (e : error_code) : writer error_code A := unexpected e.
Definition skip : writer error_code unit := mret ().

(** Requests carry the vbucket where responses carry the status. *)
Definition write_vbucket_or_status p : writer error_code unit :=
  if is_one_of (magic_ p) [Magic.client_request; Magic.alt_client_request] then
    if decide (status_ p ≠ 0) then fail (errc_common Common.invalid_argument)
    else write_uint16 (vbucket_ p)
  else if is_one_of (magic_ p) [Magic.client_response; Magic.alt_client_response] then
    if decide (vbucket_ p ≠ 0) then fail (errc_common Common.invalid_argument)
    else write_uint16 (status_ p)
  else fail (errc_common Common.invalid_argument).

Definition write_header p (packet_magic frames_len key_len ext_len val_len : Z) :
    writer error_code unit :=
  _ ← write_byte (u8 packet_magic);
  _ ← write_byte (u8 (command_ p));
  _ ← (if decide (0 < frames_len) then
         _ ← write_byte (u8 frames_len);
         write_byte (u8 key_len)
       else write_uint16 (u16 key_len));
  _ ← write_byte (u8 ext_len);
  _ ← write_byte (datatype_ p);
  _ ← write_vbucket_or_status p;
  _ ← write_uint32 (u32 (key_len + ext_len + val_len + frames_len));
  _ ← write_uint32 (opaque_ p);
  write_uint64 (cas_ p).

(** Guards of the frame sections. *)
Definition require_magic p (m : Magic.magic) (k : writer error_code unit) :
    writer error_code unit :=
  if is_enum (magic_ p) m then k else fail (errc_common Common.invalid_argument).

Definition require_feature c (f : HelloFeature.hello_feature) (k : writer error_code unit) :
    writer error_code unit :=
  if is_feature_enabled c f then k else fail (errc_common Common.feature_not_available).

Definition write_barrier_frame p : writer error_code unit :=
  match barrier_frame_ p with
  | Some _ => require_magic p Magic.client_request (write_frame_header request_barrier 0)
  | None => skip
  end.

Definition write_durability_frame c p : writer error_code unit :=
  match durability_level_frame_ p with
  | Some level =>
      require_magic p Magic.client_request
        (require_feature c HelloFeature.sync_replication
          (match durability_timeout_frame_ p with
           | Some timeout =>
               let millis := Z.min timeout 65535 in
               _ ← write_frame_header request_sync_durability 3;
               _ ← write_byte (u8 level);
               write_uint16 (u16 millis)
           | None =>
               _ ← write_frame_header request_sync_durability 1;
               write_byte (u8 level)
           end))
  | None => skip
  end.

Definition write_stream_id_frame p : writer error_code unit :=
  match stream_id_frame_ p with
  | Some stream_id =>
      require_magic p Magic.client_request
        (_ ← write_frame_header request_stream_id 2; write_uint16 stream_id)
  | None => skip
  end.

(** A frame with a payload of variable length: lengths from 15 are escaped. *)
Definition write_variable_frame (type : Z) (payload : bytes) : writer error_code unit :=
  let len := zsize payload in
  if decide (len < 15) then
    _ ← write_frame_header type len;
    write payload
  else
    _ ← write_frame_header type 15;
    _ ← write_byte (u8 (len - 15));
    write payload.

Definition write_open_tracing_frame c p : writer error_code unit :=
  match open_tracing_frame_ p with
  | Some trace_context =>
      require_magic p Magic.client_request
        (require_feature c HelloFeature.open_tracing
          (write_variable_frame request_open_tracing trace_context))
  | None => skip
  end.

(** The source writes the frame when tracing is _not_ enabled. *)
Definition write_server_duration_frame c p : writer error_code unit :=
  match server_duration_frame_ p with
  | Some server_duration =>
      require_magic p Magic.client_response
        (if negb (is_feature_enabled c HelloFeature.tracing) then
           _ ← write_frame_header response_server_duration 2;
           write_uint16 (encode_server_duration server_duration)
         else skip)
  | None => skip
  end.

Definition write_user_impersonation_frame p : writer error_code unit :=
  match user_impersonation_frame_ p with
  | Some user =>
      require_magic p Magic.client_request
        (write_variable_frame request_user_impersonation user)
  | None => skip
  end.

Definition write_preserve_expiry_frame c p : writer error_code unit :=
  match preserve_expiry_frame_ p with
  | Some _ =>
      require_magic p Magic.client_request
        (require_feature c HelloFeature.preserve_ttl
          (write_frame_header request_preserve_expiry 0))
  | None => skip
  end.

Definition write_frames c p : writer error_code unit :=
  _ ← write_barrier_frame p;
  _ ← write_durability_frame c p;
  _ ← write_stream_id_frame p;
  _ ← write_open_tracing_frame c p;
  _ ← write_server_duration_frame c p;
  _ ← write_user_impersonation_frame p;
  _ ← write_preserve_expiry_frame c p;
  if decide (unsupported_frames_ p ≠ []) then fail (errc_common Common.invalid_argument)
  else skip.

Definition encode_packet c p : outcome error_code bytes :=
  '(encoded_key, extras) ← encode_key_extras c p;
  let ext_len := zsize extras in
  let key_len := zsize encoded_key in
  let val_len := zsize (value_ p) in
  let frames_len := frames_length p in
  packet_magic ← upgrade_magic c p frames_len;
  let packet_len := 24 + ext_len + frames_len + key_len + val_len in
  '(_, buffer) ←
    (_ ← write_header p packet_magic frames_len key_len ext_len val_len;
     _ ← write_frames c p;
     _ ← write extras;
     _ ← write encoded_key;
     write (value_ p)) (make_buffer_writer packet_len);
  Ok (store_ buffer).

End encode.

(** ** Decoding *)

Section decode.
Context `{ServerDuration}.
Implicit Types (c : codec) (pkt : packet).

(** The branches for one frame of a request, in the order of the source. *)
Definition decode_request_frame (body : bytes) (frame_type frame_len frame_offset : Z) pkt :
    outcome error_code packet :=
  if (frame_type =? request_barrier) && (frame_len =? 0) then
    Ok (set_barrier_frame (Some ()) pkt)
  else if (frame_type =? request_sync_durability) && ((frame_len =? 1) || (frame_len =? 3)) then
    level ← at_ body frame_offset;
    let pkt := set_durability_level_frame (Some level) pkt in
    if frame_len =? 3 then
      timeout ← big_endian.read_uint16 body (frame_offset + 1);
      Ok (set_durability_timeout_frame (Some timeout) pkt)
    else Ok (set_durability_timeout_frame None pkt)
  else if (frame_type =? request_stream_id) && (frame_len =? 2) then
    id ← big_endian.read_uint16 body frame_offset;
    Ok (set_stream_id_frame (Some id) pkt)
  else if (frame_type =? request_open_tracing) && (0 <? frame_len) then
    ctx ← big_endian.read body frame_offset frame_len;
    Ok (set_open_tracing_frame (Some ctx) pkt)
  else if (frame_type =? request_preserve_expiry) && (frame_len =? 0) then
    Ok (set_preserve_expiry_frame (Some ()) pkt)
  else if (frame_type =? request_user_impersonation) && (0 <? frame_len) then
    user ← big_endian.read body frame_offset frame_len;
    Ok (set_user_impersonation_frame (Some user) pkt)
  else
    data ← big_endian.read body frame_offset frame_len;
    Ok (set_unsupported_frames
          (unsupported_frames_ pkt ++ [UnsupportedFrame frame_type data]) pkt).

Definition decode_response_frame (body : bytes) (frame_type frame_len frame_offset : Z) pkt :
    outcome error_code packet :=
  if (frame_type =? response_server_duration) && (frame_len =? 2) then
    encoded ← big_endian.read_uint16 body frame_offset;
    Ok (set_server_duration_frame (Some (decode_server_duration encoded)) pkt)
  else if (frame_type =? response_read_units) && (frame_len =? 2) then
    units ← big_endian.read_uint16 body frame_offset;
    Ok (set_read_units_frame (Some units) pkt)
  else if (frame_type =? response_write_units) && (frame_len =? 2) then
    units ← big_endian.read_uint16 body frame_offset;
    Ok (set_write_units_frame (Some units) pkt)
  else
    data ← big_endian.read body frame_offset frame_len;
    Ok (set_unsupported_frames
          (unsupported_frames_ pkt ++ [UnsupportedFrame frame_type data]) pkt).

(** One iteration of the frame loop: type and length nibbles, each escaped by
    15 and one more byte, then the frame itself. *)
Definition decode_frame_step (magic : Z) (body : bytes) (st : packet * Z) :
    outcome error_code (packet * Z) :=
  let '(pkt, frame_offset) := st in
  frame_header ← at_ body frame_offset;
  let frame_offset := frame_offset + 1 in
  let frame_type := Z.shiftr (Z.land frame_header 0xf0) 4 in
  '(frame_type, frame_offset) ←
    (if decide (frame_type = 0x0f) then
       b ← at_ body frame_offset;
       Ok (u8 (frame_type + b), frame_offset + 1)
     else Ok (frame_type, frame_offset));
  let frame_len := Z.land frame_header 0x0f in
  '(frame_len, frame_offset) ←
    (if decide (frame_len = 0x0f) then
       b ← at_ body frame_offset;
       Ok (frame_len + b, frame_offset + 1)
     else Ok (frame_len, frame_offset));
  pkt ←
    (if is_enum magic Magic.alt_client_request then
       decode_request_frame body frame_type frame_len frame_offset pkt
     else if is_enum magic Magic.alt_client_response then
       decode_response_frame body frame_type frame_len frame_offset pkt
     else Err (errc_network Network.protocol_error));
  Ok (pkt, frame_offset + frame_len).

(** Each iteration advances the offset, so [frames_len] iterations are enough. *)
Definition decode_frames (magic : Z) (body : bytes) (frames_len : Z) pkt :
    outcome error_code packet :=
  fst <$> while_loop (Z.to_nat frames_len) (λ st, bool_decide (st.2 < frames_len))
            (decode_frame_step magic body) (pkt, 0).

(** The magic decides between vbucket and status; the alternative magics are
    stored as the plain ones. *)
Definition decode_magic (magic : Z) (header : bytes) pkt : outcome error_code packet :=
  if is_one_of magic [Magic.client_request; Magic.alt_client_request] then
    vbucket ← big_endian.read_uint16 header 6;
    Ok (set_vbucket vbucket (set_magic (enum_code Magic.client_request) pkt))
  else if is_one_of magic [Magic.client_response; Magic.alt_client_response] then
    status ← big_endian.read_uint16 header 6;
    Ok (set_status status
          (if is_valid_status status then status else enum_code Status.unknown)
          (set_magic (enum_code Magic.client_response) pkt))
  else Err (errc_network Network.protocol_error).

(** The last part: a collection identifier in front of the key. *)
Definition decode_collection_id c (key_len : Z) pkt : outcome error_code packet :=
  if collections_enabled_ c then
    if is_enum (command_ pkt) ClientOpcode.observe then
      Err (errc_common Common.feature_not_available)
    else if bool_decide (0 < key_len) && supports_collection_id (command_ pkt) then
      '(id, remaining) ← decode_unsigned_leb128_no_throw 32 (key_ pkt);
      match remaining with
      | None | Some [] => Err (errc_network Network.protocol_error)
      | Some remaining =>
          let prefix_length := zsize (key_ pkt) - zsize remaining in
          Ok (set_key (drop (Z.to_nat prefix_length) (key_ pkt)) (set_collection_id id pkt))
      end
    else Ok pkt
  else Ok pkt.

(** [decode_packet(header, body)]: the packet and the number of bytes used. *)
Definition decode_packet_parts c (header body : bytes) : outcome error_code (packet * Z) :=
  magic ← at_ header 0;
  command ← at_ header 1;
  let pkt := set_command command default_packet in
  pkt ← decode_magic magic header pkt;
  datatype ← at_ header 5;
  opaque ← big_endian.read_uint32 header 12;
  cas ← big_endian.read_uint64 header 16;
  let pkt := set_cas cas (set_opaque opaque (set_datatype datatype pkt)) in
  let header_len := zsize header in
  let body_len := zsize body in
  ext_len ← big_endian.read_uint8 header 4;
  key_len ← big_endian.read_uint16 header 2;
  '(key_len, frames_len) ←
    (if is_one_of magic [Magic.alt_client_request; Magic.alt_client_response] then
       key_len ← big_endian.read_uint8 header 3;
       frames_len ← big_endian.read_uint8 header 2;
       Ok (key_len, frames_len)
     else Ok (key_len, 0));
  if decide (body_len < frames_len + ext_len + key_len) then
    Err (errc_network Network.protocol_error)
  else
    let value_len := body_len - (frames_len + ext_len + key_len) in
    pkt ← (if decide (0 < frames_len) then decode_frames magic body frames_len pkt else Ok pkt);
    pkt ← (if decide (0 < ext_len) then
             extras ← big_endian.read body frames_len ext_len; Ok (set_extras extras pkt)
           else Ok pkt);
    pkt ← (if decide (0 < key_len) then
             key ← big_endian.read body (frames_len + ext_len) key_len; Ok (set_key key pkt)
           else Ok pkt);
    pkt ← (if decide (0 < value_len) then
             value ← big_endian.read body (frames_len + ext_len + key_len) value_len;
             Ok (set_value value pkt)
           else Ok pkt);
    pkt ← decode_collection_id c key_len pkt;
    Ok (pkt, header_len + body_len).

(** [decode_packet(input)] *)
Definition decode_packet c (input : bytes) : outcome error_code (packet * Z) :=
  if decide (input = []) then Err (errc_network Network.end_of_stream)
  else
    let header_len := 24 in
    if decide (zsize input < header_len) then Err (errc_network Network.need_more_data)
    else
      header ← range input 0 header_len;
      body_len ← big_endian.read_uint32 header 8;
      if decide (zsize input < header_len + body_len) then
        Err (errc_network Network.need_more_data)
      else
        body ← range input header_len body_len;
        decode_packet_parts c header body.

End decode.
