(* ===== verification/CodecProofs.v ===== *)
(** * The packet codec is correct

    The wire format of a packet as a function ([wire_packet]), the proof that
    [encode_packet] produces it for every packet that its own checks accept
    ([encode_packet_exact]), and the proof that [decode_packet] reads it back
    ([decode_wire_packet]); then the codec's properties. *)

From S2P Require Import Prelude ByteOrder Protocol BufferWriter Leb128 Packet Codec.

(** ** The wire format *)

(** A framing extra of type [t < 15]. *)
Definition frame_bytes (t : Z) (d : bytes) : bytes :=
  if decide (zsize d < 15) then (t * 16 + zsize d) :: d
  else (t * 16 + 15) :: (zsize d - 15) :: d.

Definition opt_frame {A} (t : Z) (f : A → bytes) (o : option A) : list (Z * bytes) :=
  match o with Some a => [(t, f a)] | None => [] end.

Definition durability_payload (timeout : option Z) (level : Z) : bytes :=
  level :: match timeout with Some t => be_bytes 2 (Z.min t 65535) | None => [] end.

Section wire.
Context `{ServerDuration}.
Implicit Types (c : codec) (p : packet).

(** The frames of a packet, in the order in which they are written. *)
Definition wire_frames c p : list (Z * bytes) :=
  opt_frame request_barrier (λ _, []) (barrier_frame_ p) ++
  opt_frame request_sync_durability (durability_payload (durability_timeout_frame_ p))
    (durability_level_frame_ p) ++
  opt_frame request_stream_id (be_bytes 2) (stream_id_frame_ p) ++
  opt_frame request_open_tracing id (open_tracing_frame_ p) ++
  (if is_feature_enabled c HelloFeature.tracing then []
   else opt_frame response_server_duration (λ d, be_bytes 2 (encode_server_duration d))
          (server_duration_frame_ p)) ++
  opt_frame request_user_impersonation id (user_impersonation_frame_ p) ++
  opt_frame request_preserve_expiry (λ _, []) (preserve_expiry_frame_ p).

Definition frames_bytes (fs : list (Z * bytes)) : bytes :=
  concat (map (λ f, frame_bytes f.1 f.2) fs).

Definition is_request p : bool := is_enum (magic_ p) Magic.client_request.

Definition wire_magic p (frames_len : Z) : Z :=
  if decide (0 < frames_len) then
    if is_request p then enum_code Magic.alt_client_request
    else enum_code Magic.alt_client_response
  else magic_ p.

Definition header_bytes p (frames_len : Z) (key extras : bytes) : bytes :=
  [wire_magic p frames_len; u8 (command_ p)] ++
  (if decide (0 < frames_len) then [u8 frames_len; u8 (zsize key)]
   else be_bytes 2 (u16 (zsize key))) ++
  [u8 (zsize extras); datatype_ p] ++
  be_bytes 2 (if is_request p then vbucket_ p else status_ p) ++
  be_bytes 4 (u32 (zsize key + zsize extras + zsize (value_ p) + frames_len)) ++
  be_bytes 4 (opaque_ p) ++ be_bytes 8 (cas_ p).

Definition wire_packet c p (key extras : bytes) : bytes :=
  header_bytes p (frames_length p) key extras ++ frames_bytes (wire_frames c p) ++
  extras ++ key ++ value_ p.

(** ** What the encoder's checks require *)

(** The packet passes every check of [encode_packet]: the frames belong to its
    kind and the features they need are enabled. *)
Record accepted c p : Prop := {
  acc_magic : magic_ p = enum_code Magic.client_request ∨
              magic_ p = enum_code Magic.client_response;
  acc_request : is_request p = true → status_ p = 0 ∧ server_duration_frame_ p = None;
  acc_response : is_request p = false →
    vbucket_ p = 0 ∧ barrier_frame_ p = None ∧ durability_level_frame_ p = None ∧
    stream_id_frame_ p = None ∧ open_tracing_frame_ p = None ∧
    user_impersonation_frame_ p = None ∧ preserve_expiry_frame_ p = None;
  acc_alt : is_request p = true → 0 < frames_length p →
    is_feature_enabled c HelloFeature.alt_request_support = true;
  acc_durability : is_Some (durability_level_frame_ p) →
    is_feature_enabled c HelloFeature.sync_replication = true;
  acc_tracing : is_Some (open_tracing_frame_ p) →
    is_feature_enabled c HelloFeature.open_tracing = true;
  acc_preserve : is_Some (preserve_expiry_frame_ p) →
    is_feature_enabled c HelloFeature.preserve_ttl = true;
  acc_unsupported : unsupported_frames_ p = [];
}.

(** The members are values of their C++ types; payloads that the frame header
    cannot describe are excluded. *)
Record well_typed p : Prop := {
  wt_command : is_u8 (command_ p);
  wt_datatype : is_u8 (datatype_ p);
  wt_status : is_u16 (status_ p);
  wt_vbucket : is_u16 (vbucket_ p);
  wt_opaque : is_u32 (opaque_ p);
  wt_cas : is_u64 (cas_ p);
  wt_cid : is_u32 (collection_id_ p);
  wt_key : bytes_ok (key_ p);
  wt_extras : bytes_ok (extras_ p);
  wt_value : bytes_ok (value_ p);
  wt_level : ∀ l, durability_level_frame_ p = Some l → is_u8 l;
  wt_timeout : ∀ t, durability_timeout_frame_ p = Some t → 0 ≤ t;
  wt_stream : ∀ s, stream_id_frame_ p = Some s → is_u16 s;
  wt_tracing : ∀ t, open_tracing_frame_ p = Some t → bytes_ok t ∧ zsize t < 271;
  wt_user : ∀ u, user_impersonation_frame_ p = Some u → bytes_ok u ∧ zsize u < 271;
}.
End wire.

(** ** The encoder refines the wire format *)

Section encoder.
Context `{ServerDuration}.
Implicit Types (c : codec) (p : packet).

Lemma is_request_spec p :
  is_request p = true ↔ magic_ p = enum_code Magic.client_request.
Proof. unfold is_request, is_enum. rewrite Z.eqb_eq. done. Qed.

Lemma accepted_magic c p : accepted c p →
  if is_request p then magic_ p = 0x80 else magic_ p = 0x81.
Proof.
  intros Ha. destruct (acc_magic c p Ha) as [Hm|Hm]; unfold is_request; rewrite Hm; done.
Qed.

Lemma frame_header_value t n : 0 ≤ t < 15 → 0 ≤ n < 16 →
  Z.lor (u8 (Z.shiftl t 4)) (u8 n) = t * 16 + n.
Proof.
  intros. rewrite Z.shiftl_mul_pow2, !wrap_small by width_lia.
  by rewrite lor_mul_add' by width_lia.
Qed.

Lemma refines_frame_header t n : 0 ≤ t < 15 → 0 ≤ n < 16 →
  refines (write_frame_header (E:=error_code) t n) (emit [t * 16 + n]).
Proof.
  intros. unfold write_frame_header. rewrite frame_header_value by done.
  apply refines_write_byte.
Qed.

Lemma refines_emit_app m k bs1 bs2 :
  refines (E:=error_code) m (emit bs1) → refines k (emit bs2) →
  refines (m ≫= λ _, k) (emit (bs1 ++ bs2)).
Proof. intros. by apply (refines_seq m k (emit bs1) (emit bs2)). Qed.

Lemma refines_write_byte_small v : is_u8 v →
  refines (write_byte (E:=error_code) (u8 v)) (emit [v]).
Proof. intros. rewrite wrap_small by done. apply refines_write_byte. Qed.

Lemma refines_variable_frame t d : 0 ≤ t < 15 → zsize d < 271 →
  refines (write_variable_frame t d) (emit (frame_bytes t d)).
Proof.
  intros Ht Hd. unfold write_variable_frame, frame_bytes. pose proof (zsize_nonneg d).
  case_decide.
  - apply (refines_emit_app _ _ [_] d); [apply refines_frame_header; lia|apply refines_write].
  - apply (refines_emit_app _ _ [_] (_ :: d)); [apply refines_frame_header; lia|].
    apply (refines_emit_app _ _ [_] d); [apply refines_write_byte_small; width_lia|].
    apply refines_write.
Qed.

(** A section guarded by a magic and features writes its frame when accepted. *)
Lemma refines_require_magic p m k a :
  magic_ p = enum_code m → refines k a → refines (require_magic p m k) a.
Proof. intros Hm ?. unfold require_magic, is_enum. by rewrite Hm, Z.eqb_refl. Qed.

Lemma refines_require_feature c f k a :
  is_feature_enabled c f = true → refines k a → refines (require_feature c f k) a.
Proof. intros Hf ?. unfold require_feature. by rewrite Hf. Qed.

Lemma refines_skip : refines skip (emit []).
Proof. apply refines_ret. Qed.
Hint Resolve refines_skip : writer.

Lemma frames_bytes_app fs1 fs2 :
  frames_bytes (fs1 ++ fs2) = frames_bytes fs1 ++ frames_bytes fs2.
Proof. unfold frames_bytes. by rewrite map_app, concat_app. Qed.

Lemma frames_bytes_opt {A} t (f : A → bytes) o :
  frames_bytes (opt_frame t f o) = match o with Some a => frame_bytes t (f a) | None => [] end.
Proof. destruct o; [|done]. unfold frames_bytes. simpl. by rewrite app_nil_r. Qed.

(** A section of the encoder that belongs to requests. *)
Lemma refines_request_section {A} c p (o : option A) k t f :
  accepted c p → (is_request p = false → o = None) →
  (∀ a, o = Some a → refines (k a) (emit (frame_bytes t (f a)))) →
  refines (match o with Some a => require_magic p Magic.client_request (k a) | None => skip end)
    (emit (frames_bytes (opt_frame t f o))).
Proof.
  intros Ha Hreq Hk. rewrite frames_bytes_opt. destruct o as [a|]; [|apply refines_skip].
  apply refines_require_magic; [|by apply Hk].
  apply is_request_spec. destruct (is_request p); [done|]. by discriminate Hreq.
Qed.

Lemma refines_durability_frame c p :
  accepted c p → well_typed p →
  refines (write_durability_frame c p) (emit (frames_bytes (opt_frame request_sync_durability
    (durability_payload (durability_timeout_frame_ p)) (durability_level_frame_ p)))).
Proof.
  intros Ha Hw. apply (refines_request_section c); [done|apply (acc_response c p Ha)|].
  intros l Hl. apply refines_require_feature; [apply (acc_durability c p Ha); by rewrite Hl|].
  pose proof (wt_level p Hw l Hl). unfold durability_payload.
  destruct (durability_timeout_frame_ p) as [t|] eqn:Ht.
  - unfold frame_bytes. rewrite decide_True by (rewrite zsize_cons, zsize_be_bytes; lia).
    apply (refines_emit_app _ _ [_] (_ :: _)); [by apply refines_frame_header|].
    apply (refines_emit_app _ _ [_] _); [by apply refines_write_byte_small|].
    pose proof (wt_timeout p Hw t Ht). rewrite wrap_small by width_lia. apply refines_write_uint16.
  - apply (refines_emit_app _ _ [_] [_]); [by apply refines_frame_header|].
    by apply refines_write_byte_small.
Qed.

Lemma refines_server_duration_frame c p :
  accepted c p →
  refines (write_server_duration_frame c p)
    (emit (frames_bytes (if is_feature_enabled c HelloFeature.tracing then []
       else opt_frame response_server_duration (λ d, be_bytes 2 (encode_server_duration d))
              (server_duration_frame_ p)))).
Proof.
  intros Ha. unfold write_server_duration_frame.
  destruct (server_duration_frame_ p) as [d|] eqn:Hd.
  - apply refines_require_magic.
    { pose proof (accepted_magic c p Ha) as Hm. destruct (is_request p) eqn:Hreq; [|done].
      destruct (acc_request c p Ha Hreq). congruence. }
    destruct (is_feature_enabled c HelloFeature.tracing); [apply refines_skip|].
    rewrite frames_bytes_opt.
    apply (refines_emit_app _ _ [_] _); [by apply refines_frame_header|apply refines_write_uint16].
  - destruct (is_feature_enabled c HelloFeature.tracing); apply refines_skip.
Qed.

Lemma refines_write_frames c p :
  accepted c p → well_typed p →
  refines (write_frames c p) (emit (frames_bytes (wire_frames c p))).
Proof.
  intros Ha Hw. unfold write_frames, wire_frames.
  rewrite (acc_unsupported c p Ha), decide_False by (intros HF; by apply HF).
  pose proof (acc_response c p Ha) as Hresp.
  rewrite !frames_bytes_app, <-(app_nil_r (frames_bytes (opt_frame request_preserve_expiry _ _))).
  repeat apply refines_emit_app; [| | | | | | |apply refines_skip].
  - apply (refines_request_section c p _ (λ _, write_frame_header request_barrier 0));
      [done|apply Hresp|]. intros [] _. by apply refines_frame_header.
  - by apply refines_durability_frame.
  - apply (refines_request_section c); [done|apply Hresp|]. intros id _.
    apply (refines_emit_app _ _ [_] _); [by apply refines_frame_header|apply refines_write_uint16].
  - apply (refines_request_section c); [done|apply Hresp|]. intros ctx Hctx.
    apply refines_require_feature; [apply (acc_tracing c p Ha); by rewrite Hctx|].
    apply refines_variable_frame; [done|]. by apply (wt_tracing p Hw).
  - by apply refines_server_duration_frame.
  - apply (refines_request_section c); [done|apply Hresp|]. intros u Hu.
    apply refines_variable_frame; [done|]. by apply (wt_user p Hw).
  - apply (refines_request_section c p _ (λ _, require_feature c HelloFeature.preserve_ttl
      (write_frame_header request_preserve_expiry 0))); [done|apply Hresp|].
    intros [] Hp. apply refines_require_feature; [apply (acc_preserve c p Ha); by rewrite Hp|].
    by apply refines_frame_header.
Qed.

Lemma refines_write_header c p packet_magic key extras :
  accepted c p →
  u8 packet_magic = wire_magic p (frames_length p) →
  refines (write_header p packet_magic (frames_length p) (zsize key) (zsize extras)
             (zsize (value_ p)))
    (emit (header_bytes p (frames_length p) key extras)).
Proof.
  intros Ha Hmag. unfold write_header, header_bytes.
  apply (refines_emit_app _ _ [_] (_ :: _)); [rewrite Hmag; apply refines_write_byte|].
  apply (refines_emit_app _ _ [_] _); [apply refines_write_byte|].
  apply refines_emit_app.
  { case_decide; [|apply refines_write_uint16].
    apply (refines_emit_app _ _ [_] [_]); apply refines_write_byte. }
  apply (refines_emit_app _ _ [_] (_ :: _)); [apply refines_write_byte|].
  apply (refines_emit_app _ _ [_] _); [apply refines_write_byte|].
  apply refines_emit_app.
  { unfold write_vbucket_or_status. pose proof (accepted_magic c p Ha) as Hm.
    destruct (is_request p) eqn:Hreq; rewrite Hm; simpl.
    - destruct (acc_request c p Ha Hreq) as [-> _]. rewrite decide_False by (intros HF; by apply HF).
      apply refines_write_uint16.
    - destruct (acc_response c p Ha Hreq) as [-> _]. rewrite decide_False by (intros HF; by apply HF).
      apply refines_write_uint16. }
  apply refines_emit_app; [apply refines_write_uint32|].
  apply refines_emit_app; [apply refines_write_uint32|apply refines_write_uint64].
Qed.

Lemma upgrade_magic_accepted c p :
  accepted c p → upgrade_magic c p (frames_length p) = Ok (wire_magic p (frames_length p)).
Proof.
  intros Ha. unfold upgrade_magic, wire_magic. case_decide as Hf; [|done].
  pose proof (accepted_magic c p Ha) as Hm. destruct (is_request p) eqn:Hreq; rewrite Hm.
  - simpl. by rewrite (acc_alt c p Ha Hreq Hf).
  - done.
Qed.

Lemma zsize_header p n key extras : zsize (header_bytes p n key extras) = 24.
Proof.
  unfold header_bytes. rewrite !zsize_app, !zsize_be_bytes, !zsize_cons, zsize_nil.
  case_decide; rewrite ?zsize_be_bytes, ?zsize_cons; change (zsize (@nil Z)) with 0; lia.
Qed.

Lemma frames_length_nonneg p : 0 ≤ frames_length p.
Proof. unfold frames_length. repeat case_match; simpl; size_lia. Qed.

Lemma zsize_wire_packet c p key extras :
  zsize (wire_packet c p key extras) =
    24 + zsize extras + zsize (frames_bytes (wire_frames c p)) + zsize key + zsize (value_ p).
Proof. unfold wire_packet. rewrite !zsize_app, zsize_header. lia. Qed.

(** The result of the encoder on every packet it accepts: the buffer was
    sized by [frames_length], so it is the wire packet, padded with zeros when
    fewer frame bytes were written than counted, and an overflow when more. *)
Lemma encode_packet_exact c p key extras :
  accepted c p → well_typed p → encode_key_extras c p = Ok (key, extras) →
  encode_packet c p =
    let extra := frames_length p - zsize (frames_bytes (wire_frames c p)) in
    if decide (0 ≤ extra)
    then Ok (wire_packet c p key extras ++ replicate (Z.to_nat extra) 0)
    else Fault.
Proof.
  intros Ha Hw Hke. unfold encode_packet. rewrite Hke. cbn [mbind outcome_bind].
  rewrite upgrade_magic_accepted by done. cbn [mbind outcome_bind].
  pose proof (frames_length_nonneg p).
  erewrite (refines_run _ (emit (wire_packet c p key extras))); [|unfold wire_packet|size_lia].
  - cbn [emit fst snd]. rewrite zsize_wire_packet. case_decide.
    + rewrite decide_True by lia. cbn [mbind outcome_bind store_]. do 4 f_equal. lia.
    + by rewrite decide_False by lia.
  - apply refines_emit_app.
    { apply (refines_write_header c); [done|].
      apply wrap_small. unfold wire_magic. pose proof (accepted_magic c p Ha) as Hm.
      destruct (is_request p); rewrite Hm; case_decide; vm_compute; split; congruence. }
    apply refines_emit_app; [by apply refines_write_frames|].
    repeat apply refines_emit_app; apply refines_write.
Qed.

End encoder.

(** ** The decoder on the wire format *)

Section decoder.
Context `{ServerDuration}.
Implicit Types (c : codec) (p pkt : packet).

(** The effect of one frame, as the decoder's branches on the payload alone. *)
Definition apply_frame (magic : Z) pkt (f : Z * bytes) : outcome error_code packet :=
  if is_enum magic Magic.alt_client_request then
    decode_request_frame f.2 f.1 (zsize f.2) 0 pkt
  else if is_enum magic Magic.alt_client_response then
    decode_response_frame f.2 f.1 (zsize f.2) 0 pkt
  else Err (errc_network Network.protocol_error).

Fixpoint apply_frames (magic : Z) pkt (fs : list (Z * bytes)) : outcome error_code packet :=
  match fs with
  | [] => Ok pkt
  | f :: fs => pkt ← apply_frame magic pkt f; apply_frames magic pkt fs
  end.

Lemma read_whole {E} (pre d post : bytes) :
  big_endian.read (E:=E) (pre ++ d ++ post) (zsize pre) (zsize d) =
  big_endian.read d 0 (zsize d).
Proof.
  unfold big_endian.read. rewrite range_app by done.
  symmetry. apply (range_app_end [] d 0 (zsize d) eq_refl eq_refl).
Qed.

Lemma read_uint16_whole {E} (pre d post : bytes) i j :
  bytes_ok d → zsize d = 2 → i = zsize pre → j = 0 →
  big_endian.read_uint16 (E:=E) (pre ++ d ++ post) i = Ok (be_value d) ∧
  big_endian.read_uint16 (E:=E) d j = Ok (be_value d).
Proof.
  intros Hd Hl -> ->. unfold zsize in Hl. split; [by apply read_uint16_app; [| |lia]|].
  pose proof (read_uint16_app (E:=E) [] d [] 0) as Hr. rewrite app_nil_r in Hr.
  apply Hr; [done|done|lia].
Qed.

Lemma decode_request_frame_local (pre d post : bytes) t pkt :
  bytes_ok d →
  decode_request_frame (pre ++ d ++ post) t (zsize d) (zsize pre) pkt =
  decode_request_frame d t (zsize d) 0 pkt.
Proof.
  intros Hd. unfold decode_request_frame. rewrite !read_whole.
  case_match; [done|]. destruct (_ && (_ || _)) eqn:Hdur.
  - destruct d as [|l d]; [by rewrite andb_false_r in Hdur|]. apply Forall_cons in Hd as [Hl Hd].
    rewrite at_app_r, Z.sub_diag by lia. simpl app. change (at_ (l :: (d ++ post)) 0) with (Ok (E:=error_code) l).
    change (at_ (l :: d) 0) with (Ok (E:=error_code) l). cbn [mbind outcome_bind].
    destruct (_ =? 3) eqn:H3; [|done]. apply Z.eqb_eq in H3. rewrite zsize_cons in H3.
    replace (pre ++ l :: d ++ post) with ((pre ++ [l]) ++ d ++ post) by by rewrite <-app_assoc.
    destruct (read_uint16_whole (E:=error_code) (pre ++ [l]) d post (zsize pre + 1) 0) as [-> _];
      [done|lia|by rewrite zsize_app|done|].
    pose proof (read_uint16_app (E:=error_code) [l] d [] 1) as Hr. rewrite app_nil_r in Hr.
    simpl app in Hr. change (0 + 1) with 1. rewrite Hr; [done|done|done|unfold zsize in H3; lia].
  - destruct (_ && (_ =? 2)) eqn:H2; [|done].
    apply andb_true_iff in H2 as [_ H2%Z.eqb_eq].
    by destruct (read_uint16_whole (E:=error_code) pre d post (zsize pre) 0) as [-> ->].
Qed.

Lemma decode_response_frame_local (pre d post : bytes) t pkt :
  bytes_ok d →
  decode_response_frame (pre ++ d ++ post) t (zsize d) (zsize pre) pkt =
  decode_response_frame d t (zsize d) 0 pkt.
Proof.
  intros Hd. unfold decode_response_frame. rewrite !read_whole.
  destruct (decide (zsize d = 2)) as [H2|H2].
  - destruct (read_uint16_whole (E:=error_code) pre d post (zsize pre) 0) as [Hr1 Hr2]; [done..|].
    by rewrite Hr1, Hr2.
  - apply Z.eqb_neq in H2. by rewrite H2, !andb_false_r.
Qed.

Lemma apply_frame_local magic (pre d post : bytes) t pkt :
  bytes_ok d →
  (if is_enum magic Magic.alt_client_request then
     decode_request_frame (pre ++ d ++ post) t (zsize d) (zsize pre) pkt
   else if is_enum magic Magic.alt_client_response then
     decode_response_frame (pre ++ d ++ post) t (zsize d) (zsize pre) pkt
   else Err (errc_network Network.protocol_error)) = apply_frame magic pkt (t, d).
Proof.
  intros. unfold apply_frame. by rewrite decode_request_frame_local, decode_response_frame_local.
Qed.

Lemma nibbles b : is_u8 b →
  Z.shiftr (Z.land b 0xf0) 4 = b / 16 ∧ Z.land b 0x0f = b mod 16.
Proof.
  intros Hb. split; [|by apply (land_ones_mod b 4)].
  change 0xf0 with (Z.shiftl (Z.ones 4) 4). rewrite land_mask, Z.shiftr_div_pow2 by lia.
  rewrite Z.div_mul by done. apply Z.mod_small. width_lia.
Qed.

Lemma nibbles_join t n : 0 ≤ t < 15 → 0 ≤ n < 16 →
  Z.shiftr (Z.land (t * 16 + n) 0xf0) 4 = t ∧ Z.land (t * 16 + n) 0x0f = n.
Proof.
  intros. destruct (nibbles (t * 16 + n)) as [-> ->]; [width_lia|].
  split; Z.to_euclidean_division_equations; lia.
Qed.

(** One iteration of the loop on a frame of the wire format. *)
Lemma decode_frame_step_app magic (pre post : bytes) t d pkt :
  0 ≤ t < 15 → bytes_ok d → zsize d < 271 →
  decode_frame_step magic (pre ++ frame_bytes t d ++ post) (pkt, zsize pre) =
    (pkt' ← apply_frame magic pkt (t, d); Ok (pkt', zsize pre + zsize (frame_bytes t d))).
Proof.
  intros Ht Hd Hl. pose proof (zsize_nonneg d). unfold decode_frame_step, frame_bytes.
  case_decide; cbn [app]; rewrite at_app_0; cbn [mbind outcome_bind].
  - destruct (nibbles_join t (zsize d)) as [-> ->]; [lia..|].
    rewrite decide_False by lia. cbn [mbind outcome_bind].
    rewrite decide_False by lia. cbn [mbind outcome_bind].
    replace (pre ++ (t * 16 + zsize d) :: d ++ post)
      with ((pre ++ [t * 16 + zsize d]) ++ d ++ post) by by rewrite <-app_assoc.
    replace (zsize pre + 1) with (zsize (pre ++ [t * 16 + zsize d])) by by rewrite zsize_app.
    rewrite apply_frame_local by done. destruct (apply_frame _ _ _); cbn; try done.
    do 2 f_equal. size_lia.
  - destruct (nibbles_join t 15) as [-> ->]; [lia..|].
    rewrite decide_False by lia. cbn [mbind outcome_bind].
    rewrite decide_True by lia. rewrite at_app_1. cbn [mbind outcome_bind].
    replace (15 + (zsize d - 15)) with (zsize d) by lia.
    set (h := [t * 16 + 15; zsize d - 15]).
    replace (pre ++ t * 16 + 15 :: zsize d - 15 :: d ++ post)
      with ((pre ++ h) ++ d ++ post) by by rewrite <-app_assoc.
    replace (zsize pre + 1 + 1) with (zsize (pre ++ h)) by (rewrite zsize_app; unfold h; size_lia).
    rewrite apply_frame_local by done. destruct (apply_frame _ _ _); cbn; try done.
    do 2 f_equal. unfold h. size_lia.
Qed.

Definition frame_ok (f : Z * bytes) : Prop := 0 ≤ f.1 < 15 ∧ bytes_ok f.2 ∧ zsize f.2 < 271.

Lemma frame_bytes_pos t d : 0 < zsize (frame_bytes t d).
Proof. unfold frame_bytes. case_decide; size_lia. Qed.

Lemma decode_frames_loop magic fs (pre post : bytes) n total pkt :
  Forall frame_ok fs → total = zsize pre + zsize (frames_bytes fs) →
  (length (frames_bytes fs) ≤ n)%nat →
  fst <$> while_loop n (λ st, bool_decide (st.2 < total))
    (decode_frame_step magic (pre ++ frames_bytes fs ++ post)) (pkt, zsize pre)
  = apply_frames magic pkt fs.
Proof.
  intros Hfs. revert pre n pkt. induction Hfs as [|[t d] fs (Ht & Hd & Hl) Hfs IH];
    intros pre n pkt Htot Hn.
  - rewrite while_loop_done; [done|]. apply bool_decide_false. simpl in *. size_lia.
  - assert (Hcons : frames_bytes ((t, d) :: fs) = frame_bytes t d ++ frames_bytes fs) by done.
    rewrite Hcons in *. rewrite zsize_app in Htot. rewrite length_app in Hn.
    pose proof (frame_bytes_pos t d) as Hpos. pose proof (zsize_nonneg (frames_bytes fs)).
    destruct n as [|n]; [unfold zsize in *; lia|].
    cbn [while_loop]. rewrite bool_decide_true by (simpl; lia).
    rewrite <-app_assoc, decode_frame_step_app by done. cbn [apply_frames].
    destruct (apply_frame magic pkt (t, d)) as [pkt'| | |]; try done. cbn [mbind outcome_bind].
    rewrite <-zsize_app. rewrite app_assoc. apply IH; [rewrite zsize_app; lia|].
    unfold zsize in Hpos. lia.
Qed.

Lemma decode_frames_spec magic fs (post : bytes) pkt :
  Forall frame_ok fs →
  decode_frames magic (frames_bytes fs ++ post) (zsize (frames_bytes fs)) pkt =
  apply_frames magic pkt fs.
Proof.
  intros Hfs. unfold decode_frames.
  apply (decode_frames_loop magic fs []); [done|done|unfold zsize; lia].
Qed.
End decoder.

(** ** Header fields *)

Section header.
Context `{ServerDuration}.
Implicit Types (p : packet).

Lemma header_at_0 {E} p n key extras :
  at_ (E:=E) (header_bytes p n key extras) 0 = Ok (wire_magic p n).
Proof. done. Qed.

Lemma header_at_1 {E} p n key extras :
  at_ (E:=E) (header_bytes p n key extras) 1 = Ok (u8 (command_ p)).
Proof. done. Qed.

(** The header as four bytes, then fields of fixed sizes. *)
Lemma header_split p n key extras :
  ∃ b2 b3, header_bytes p n key extras =
    [wire_magic p n; u8 (command_ p); b2; b3; u8 (zsize extras); datatype_ p] ++
    be_bytes 2 (if is_request p then vbucket_ p else status_ p) ++
    be_bytes 4 (u32 (zsize key + zsize extras + zsize (value_ p) + n)) ++
    be_bytes 4 (opaque_ p) ++ be_bytes 8 (cas_ p) ∧
    if decide (0 < n) then b2 = u8 n ∧ b3 = u8 (zsize key)
    else [b2; b3] = be_bytes 2 (u16 (zsize key)).
Proof.
  unfold header_bytes. case_decide; [by do 2 eexists|].
  rewrite <-be_bytes_2. by do 2 eexists.
Qed.

Record fits p (n : Z) (key extras : bytes) : Prop := {
  fit_frames : 0 ≤ n < 256;
  fit_key : 0 < n → zsize key < 256;
  fit_key16 : zsize key < 65536;
  fit_extras : zsize extras < 256;
  fit_total : zsize key + zsize extras + zsize (value_ p) + n < 2 ^ 32;
}.

Lemma header_fields {E} p n key extras :
  well_typed p → fits p n key extras →
  let h := header_bytes p n key extras in
  big_endian.read_uint8 (E:=E) h 4 = Ok (zsize extras) ∧
  at_ (E:=E) h 5 = Ok (datatype_ p) ∧
  big_endian.read_uint16 (E:=E) h 6 = Ok (if is_request p then vbucket_ p else status_ p) ∧
  big_endian.read_uint32 (E:=E) h 8 = Ok (zsize key + zsize extras + zsize (value_ p) + n) ∧
  big_endian.read_uint32 (E:=E) h 12 = Ok (opaque_ p) ∧
  big_endian.read_uint64 (E:=E) h 16 = Ok (cas_ p) ∧
  (if decide (0 < n)
   then big_endian.read_uint8 (E:=E) h 2 = Ok n ∧ big_endian.read_uint8 (E:=E) h 3 = Ok (zsize key)
   else big_endian.read_uint16 (E:=E) h 2 = Ok (zsize key)).
Proof.
  intros Hw Hf h. destruct (header_split p n key extras) as (b2 & b3 & Hh & Hb).
  pose proof (zsize_nonneg key). pose proof (zsize_nonneg extras). pose proof (zsize_nonneg (value_ p)).
  destruct Hf, Hw. subst h. rewrite Hh.
  set (h0 := [_; _; _; _; _; _]).
  rewrite (wrap_small 32) by width_lia.
  set (f1 := be_bytes 2 _). set (f2 := be_bytes 4 _). set (f3 := be_bytes 4 _). set (f4 := be_bytes 8 _).
  split_and!.
  - transitivity (Ok (E:=E) (u8 (zsize extras))); [done|]. by rewrite wrap_small by width_lia.
  - done.
  - unfold f1. rewrite (read_uint16_app h0); [|done|apply be_bytes_ok|apply length_be_bytes].
    rewrite be_value_be_bytes_small; [done|]. by destruct (is_request p).
  - rewrite app_assoc. unfold f2. rewrite (read_uint32_app (h0 ++ f1));
      [|done|apply be_bytes_ok|apply length_be_bytes].
    rewrite be_value_be_bytes_small; [done|width_lia].
  - rewrite !app_assoc, <-(app_assoc _ f3). unfold f3.
    rewrite (read_uint32_app ((h0 ++ f1) ++ f2)); [|done|apply be_bytes_ok|apply length_be_bytes].
    by rewrite be_value_be_bytes_small.
  - rewrite !app_assoc, <-(app_nil_r f4), (app_assoc _ f4). rewrite <-(app_assoc _ f4). unfold f4.
    rewrite (read_uint64_app (((h0 ++ f1) ++ f2) ++ f3)); [|done|apply be_bytes_ok|apply length_be_bytes].
    by rewrite be_value_be_bytes_small.
  - case_decide.
    + destruct Hb as [-> ->]. split.
      * transitivity (Ok (E:=E) (u8 n)); [done|]. by rewrite wrap_small by width_lia.
      * transitivity (Ok (E:=E) (u8 (zsize key))); [done|]. by rewrite wrap_small by width_lia.
    + replace h0 with ([wire_magic p n; u8 (command_ p)] ++ [b2; b3] ++ [u8 (zsize extras); datatype_ p]) by done.
      rewrite Hb, <-!app_assoc.
      rewrite read_uint16_app; [|done|apply be_bytes_ok|apply length_be_bytes].
      rewrite (wrap_small 16) by width_lia. rewrite be_value_be_bytes_small; [done|width_lia].
Qed.
End header.

(** ** What the receiver gets *)

Section received.
Context `{ServerDuration}.
Implicit Types (c : codec) (p pkt : packet).

Lemma apply_frames_opt {A} magic t (f : A → bytes) (o : option A) fs pkt
    (upd : option A → packet → packet) :
  (∀ a, o = Some a → apply_frame magic pkt (t, f a) = Ok (upd (Some a) pkt)) →
  upd None pkt = pkt →
  apply_frames magic pkt (opt_frame t f o ++ fs) = apply_frames magic (upd o pkt) fs.
Proof. intros Hs Hn. destruct o; simpl; [by rewrite Hs|by rewrite Hn]. Qed.

Lemma set_barrier_frame_None pkt : barrier_frame_ pkt = None → set_barrier_frame None pkt = pkt.
Proof. destruct pkt. simpl. by intros ->. Qed.
Lemma set_durability_level_frame_None pkt : durability_level_frame_ pkt = None → set_durability_level_frame None pkt = pkt.
Proof. destruct pkt. simpl. by intros ->. Qed.
Lemma set_durability_timeout_frame_None pkt : durability_timeout_frame_ pkt = None → set_durability_timeout_frame None pkt = pkt.
Proof. destruct pkt. simpl. by intros ->. Qed.
Lemma set_stream_id_frame_None pkt : stream_id_frame_ pkt = None → set_stream_id_frame None pkt = pkt.
Proof. destruct pkt. simpl. by intros ->. Qed.
Lemma set_open_tracing_frame_None pkt : open_tracing_frame_ pkt = None → set_open_tracing_frame None pkt = pkt.
Proof. destruct pkt. simpl. by intros ->. Qed.
Lemma set_user_impersonation_frame_None pkt : user_impersonation_frame_ pkt = None → set_user_impersonation_frame None pkt = pkt.
Proof. destruct pkt. simpl. by intros ->. Qed.
Lemma set_preserve_expiry_frame_None pkt : preserve_expiry_frame_ pkt = None → set_preserve_expiry_frame None pkt = pkt.
Proof. destruct pkt. simpl. by intros ->. Qed.
Lemma set_server_duration_frame_None pkt : server_duration_frame_ pkt = None → set_server_duration_frame None pkt = pkt.
Proof. destruct pkt. simpl. by intros ->. Qed.

(** The frame members after decoding. *)
Definition set_request_frames p pkt : packet :=
  set_preserve_expiry_frame (preserve_expiry_frame_ p)
    (set_user_impersonation_frame (user_impersonation_frame_ p)
      (set_open_tracing_frame (open_tracing_frame_ p)
        (set_stream_id_frame (stream_id_frame_ p)
          (set_durability_timeout_frame
             (match durability_level_frame_ p with
              | Some _ => (λ t, Z.min t 65535) <$> durability_timeout_frame_ p
              | None => None
              end)
            (set_durability_level_frame (durability_level_frame_ p)
              (set_barrier_frame (barrier_frame_ p) pkt)))))).

Definition set_response_frames p pkt : packet :=
  set_server_duration_frame
    ((λ d, decode_server_duration (encode_server_duration d)) <$> server_duration_frame_ p) pkt.

Definition no_frames pkt : Prop :=
  barrier_frame_ pkt = None ∧ durability_level_frame_ pkt = None ∧
  durability_timeout_frame_ pkt = None ∧ stream_id_frame_ pkt = None ∧
  open_tracing_frame_ pkt = None ∧ server_duration_frame_ pkt = None ∧
  user_impersonation_frame_ pkt = None ∧ preserve_expiry_frame_ pkt = None.

(** Frames the decoder would not recognise in the form the encoder gives them. *)
Record legible c p : Prop := {
  leg_tracing : ∀ t, open_tracing_frame_ p = Some t → t ≠ [];
  leg_user : ∀ u, user_impersonation_frame_ p = Some u → u ≠ [];
  leg_duration : is_Some (server_duration_frame_ p) →
    is_feature_enabled c HelloFeature.tracing = false;
}.

Lemma decode_request_payload pkt d :
  d ≠ [] →
  apply_frame (enum_code Magic.alt_client_request) pkt (request_open_tracing, d) =
    Ok (set_open_tracing_frame (Some d) pkt) ∧
  apply_frame (enum_code Magic.alt_client_request) pkt (request_user_impersonation, d) =
    Ok (set_user_impersonation_frame (Some d) pkt).
Proof.
  intros Hd. assert (Hpos : (0 <? zsize d) = true).
  { apply Z.ltb_lt. destruct d; [done|]. size_lia. }
  assert (Hread : big_endian.read (E:=error_code) d 0 (zsize d) = Ok d).
  { apply (range_app_end [] d 0 (zsize d) eq_refl eq_refl). }
  unfold apply_frame, decode_request_frame. cbn [fst snd]. rewrite Hpos, Hread. done.
Qed.

Lemma decode_request_stream_id pkt i : is_u16 i →
  apply_frame (enum_code Magic.alt_client_request) pkt (request_stream_id, be_bytes 2 i) =
    Ok (set_stream_id_frame (Some i) pkt).
Proof.
  intros Hi. unfold apply_frame, decode_request_frame. cbn [fst snd]. rewrite zsize_be_bytes.
  cbn -[be_bytes big_endian.read_uint16].
  destruct (read_uint16_whole (E:=error_code) [] (be_bytes 2 i) [] 0 0) as [_ ->];
    [apply be_bytes_ok|by rewrite zsize_be_bytes|done|done|].
  by rewrite be_value_be_bytes_small.
Qed.

Lemma decode_request_durability pkt l t :
  (∀ x, t = Some x → 0 ≤ x) →
  apply_frame (enum_code Magic.alt_client_request) pkt
    (request_sync_durability, durability_payload t l) =
  Ok (set_durability_timeout_frame ((λ t, Z.min t 65535) <$> t)
        (set_durability_level_frame (Some l) pkt)).
Proof.
  intros Ht. unfold apply_frame, decode_request_frame, durability_payload. cbn [fst snd].
  destruct t as [t|]; [|done]. specialize (Ht t eq_refl).
  rewrite zsize_cons, zsize_be_bytes. cbn -[be_bytes big_endian.read_uint16].
  change (at_ (l :: be_bytes 2 (Z.min t 65535)) 0) with (Ok (E:=error_code) l).
  cbn -[be_bytes big_endian.read_uint16].
  pose proof (read_uint16_app (E:=error_code) [l] (be_bytes 2 (Z.min t 65535)) [] 1) as Hr.
  rewrite app_nil_r in Hr. cbn [app] in Hr. change (0 + 1) with 1.
  rewrite Hr; [|done|apply be_bytes_ok|apply length_be_bytes].
  rewrite be_value_be_bytes_small; [done|width_lia].
Qed.

Lemma apply_request_frames c p pkt :
  accepted c p → well_typed p → legible c p → is_request p = true → no_frames pkt →
  apply_frames (enum_code Magic.alt_client_request) pkt (wire_frames c p) =
    Ok (set_request_frames p pkt).
Proof.
  intros Ha Hw Hl Hreq (H1 & H2 & H3 & H4 & H5 & H6 & H7 & H8). unfold wire_frames, set_request_frames.
  destruct (acc_request c p Ha Hreq) as [_ ->].
  etrans; [apply (apply_frames_opt _ _ _ _ _ _ set_barrier_frame);
    [by intros []|by apply set_barrier_frame_None]|].
  etrans; [apply (apply_frames_opt _ _ _ _ _ _ (λ o pkt,
    set_durability_timeout_frame
      (match o with Some _ => (λ t, Z.min t 65535) <$> durability_timeout_frame_ p | None => None end)
      (set_durability_level_frame o pkt)));
    [intros l Hlv; apply decode_request_durability; apply (wt_timeout p Hw)
    |by rewrite set_durability_level_frame_None, set_durability_timeout_frame_None]|].
  etrans; [apply (apply_frames_opt _ _ _ _ _ _ set_stream_id_frame);
    [intros i Hi; apply decode_request_stream_id; by apply (wt_stream p Hw)
    |by apply set_stream_id_frame_None]|].
  etrans; [apply (apply_frames_opt _ _ _ _ _ _ set_open_tracing_frame);
    [intros t Ht; apply decode_request_payload; by apply (leg_tracing c p Hl)
    |by apply set_open_tracing_frame_None]|].
  replace (if is_feature_enabled c HelloFeature.tracing then [] else _) with (@nil (Z * bytes))
    by by case_match. rewrite app_nil_l.
  etrans; [apply (apply_frames_opt _ _ _ _ _ _ set_user_impersonation_frame);
    [intros t Ht; apply decode_request_payload; by apply (leg_user c p Hl)
    |by apply set_user_impersonation_frame_None]|].
  rewrite <-(app_nil_r (opt_frame request_preserve_expiry _ _)).
  etrans; [apply (apply_frames_opt _ _ _ _ _ _ set_preserve_expiry_frame);
    [by intros []|by apply set_preserve_expiry_frame_None]|].
  reflexivity.
Qed.

Lemma encode_server_duration_u16 d : 0 ≤ pow_encode d → is_u16 (encode_server_duration d).
Proof. intros. unfold encode_server_duration. case_decide; width_lia. Qed.

Lemma apply_response_frames c p pkt :
  accepted c p → legible c p → is_request p = false → no_frames pkt →
  (∀ d, server_duration_frame_ p = Some d → 0 ≤ pow_encode d) →
  apply_frames (enum_code Magic.alt_client_response) pkt (wire_frames c p) =
    Ok (set_response_frames p pkt).
Proof.
  intros Ha Hl Hreq (H1 & H2 & H3 & H4 & H5 & H6 & H7 & H8) Hd.
  unfold wire_frames, set_response_frames.
  destruct (acc_response c p Ha Hreq) as (_ & -> & -> & -> & -> & -> & ->). cbn [opt_frame app].
  destruct (server_duration_frame_ p) as [d|] eqn:Hdur.
  2:{ case_match; by rewrite set_server_duration_frame_None. }
  rewrite (leg_duration c p Hl) by by rewrite Hdur. cbn [opt_frame app].
  specialize (Hd d eq_refl). cbn [apply_frames].
  unfold apply_frame, decode_response_frame. cbn [fst snd]. rewrite zsize_be_bytes.
  cbn -[be_bytes big_endian.read_uint16].
  destruct (read_uint16_whole (E:=error_code) [] (be_bytes 2 (encode_server_duration d)) [] 0 0)
    as [_ ->]; [apply be_bytes_ok|by rewrite zsize_be_bytes|done|done|].
  rewrite be_value_be_bytes_small; [done|by apply encode_server_duration_u16].
Qed.
End received.

(** ** Decoding a packet of the wire format *)

Section roundtrip.
Context `{ServerDuration}.
Implicit Types (c : codec) (p pkt : packet).

Definition collection_in_key c p : bool :=
  collections_enabled_ c && supports_collection_id (command_ p).

Definition sent_key c p : bytes :=
  if collection_in_key c p then leb_groups 5 (collection_id_ p) ++ key_ p else key_ p.

Definition sent_extras c p : bytes :=
  if collections_enabled_ c && negb (supports_collection_id (command_ p)) &&
     is_enum (command_ p) ClientOpcode.get_random_key
  then be_bytes 4 (collection_id_ p) else extras_ p.

(** The command can carry the collection of the packet. *)
Record addressable c p : Prop := {
  addr_observe : collections_enabled_ c = true →
    is_enum (command_ p) ClientOpcode.observe = false;
  addr_collection : collections_enabled_ c = true →
    supports_collection_id (command_ p) = true ∨
    is_enum (command_ p) ClientOpcode.get_random_key = true ∨ collection_id_ p = 0;
  addr_key : collection_in_key c p = true → key_ p ≠ [];
}.

(** The packet as the receiver sees it: everything sent, with the durability
    timeout capped to its 16 bits, the duration rounded by its encoding, the
    identifier of the collection only when it travels in the key. *)
Definition received c p : packet := {|
  magic_ := magic_ p;
  command_ := command_ p;
  datatype_ := datatype_ p;
  status_ := status_ p;
  status_code_ :=
    if is_request p then enum_code Status.success
    else if is_valid_status (status_ p) then status_ p else enum_code Status.unknown;
  vbucket_ := vbucket_ p;
  opaque_ := opaque_ p;
  cas_ := cas_ p;
  collection_id_ := if collection_in_key c p then collection_id_ p else 0;
  key_ := key_ p;
  extras_ := sent_extras c p;
  value_ := value_ p;
  barrier_frame_ := barrier_frame_ p;
  durability_level_frame_ := durability_level_frame_ p;
  durability_timeout_frame_ :=
    match durability_level_frame_ p with
    | Some _ => (λ t, Z.min t 65535) <$> durability_timeout_frame_ p
    | None => None
    end;
  stream_id_frame_ := stream_id_frame_ p;
  open_tracing_frame_ := open_tracing_frame_ p;
  server_duration_frame_ :=
    (λ d, decode_server_duration (encode_server_duration d)) <$> server_duration_frame_ p;
  user_impersonation_frame_ := user_impersonation_frame_ p;
  preserve_expiry_frame_ := preserve_expiry_frame_ p;
  read_units_frame_ := None;
  write_units_frame_ := None;
  unsupported_frames_ := [];
|}.

Lemma encode_key_extras_spec c p :
  addressable c p → well_typed p →
  encode_key_extras c p = Ok (sent_key c p, sent_extras c p).
Proof.
  intros Had Hw. unfold encode_key_extras, sent_key, sent_extras, collection_in_key.
  destruct (collections_enabled_ c) eqn:Hc; [|done]. rewrite (addr_observe c p Had) by done.
  destruct (supports_collection_id (command_ p)) eqn:Hs; cbn [andb negb].
  - destruct (unsigned_leb128_spec (E:=error_code) 32 (collection_id_ p)) as (enc & -> & Henc & _);
      [by left|apply Hw|]. cbn [mbind outcome_bind]. by rewrite Henc.
  - destruct (is_enum (command_ p) ClientOpcode.get_random_key) eqn:Hg.
    + rewrite put_uint32_spec by apply length_resize. done.
    + destruct (addr_collection c p Had Hc) as [?|[?|Hz]]; [congruence..|].
      by rewrite decide_False by lia.
Qed.

(** A section of the body, read only when its length is positive. *)
Lemma read_section (pre d post body : bytes) i n pkt (upd : bytes → packet → packet) :
  body = pre ++ d ++ post → i = zsize pre → n = zsize d → upd [] pkt = pkt →
  (if decide (0 < n) then
     x ← big_endian.read (E:=error_code) body i n; Ok (upd x pkt)
   else Ok pkt) = Ok (upd d pkt).
Proof.
  intros -> -> -> Hu. case_decide as Hd.
  - unfold big_endian.read. by rewrite range_app.
  - destruct d as [|? d]; [by rewrite Hu|]. rewrite zsize_cons in Hd. pose proof (zsize_nonneg d). lia.
Qed.

Lemma decode_collection_id_spec c p pkt :
  addressable c p → well_typed p →
  command_ pkt = command_ p → key_ pkt = sent_key c p → collection_id_ pkt = 0 →
  decode_collection_id c (zsize (sent_key c p)) pkt =
    Ok (set_key (key_ p)
      (set_collection_id (if collection_in_key c p then collection_id_ p else 0) pkt)).
Proof.
  intros Had Hw Hcmd Hkey Hcid. unfold decode_collection_id. rewrite Hcmd.
  assert (Hsame : collection_in_key c p = false → pkt = set_key (key_ p) (set_collection_id 0 pkt)).
  { intros Hf. destruct pkt. unfold sent_key in *. rewrite Hf in *. cbn in *. by subst. }
  destruct (collections_enabled_ c) eqn:Hc.
  2:{ unfold collection_in_key in *. rewrite Hc in *. cbn [andb] in *. f_equal. by apply Hsame. }
  rewrite (addr_observe c p Had) by done.
  destruct (supports_collection_id (command_ p)) eqn:Hs.
  2:{ unfold collection_in_key in *. rewrite Hc, Hs in *. cbn [andb] in *.
      rewrite andb_false_r. f_equal. by apply Hsame. }
  assert (Hin : collection_in_key c p = true) by (unfold collection_in_key; by rewrite Hc, Hs).
  pose proof (addr_key c p Had Hin) as Hne. unfold sent_key in *. rewrite Hin in *.
  assert (0 ≤ collection_id_ p < 2 ^ 32) as Hcw by apply Hw.
  pose proof (leb_groups_pos 5 (collection_id_ p) ltac:(lia) ltac:(lia)) as Hpos.
  rewrite bool_decide_true, Hkey.
  2:{ destruct (leb_groups 5 _); [done|]. cbn [app]. size_lia. }
  cbn [andb]. rewrite decode_groups; [|by left|lia|width_lia|done]. cbn [mbind outcome_bind].
  destruct (key_ p) as [|k key] eqn:Hk; [done|]. rewrite <-Hk.
  rewrite zsize_app, Z.add_simpl_r, zsize_to_nat, drop_app_length. done.
Qed.
(** The members set from the fixed part of the header. *)
Definition header_packet p : packet :=
  set_cas (cas_ p) (set_opaque (opaque_ p) (set_datatype (datatype_ p)
    (if is_request p
     then set_vbucket (vbucket_ p)
            (set_magic (enum_code Magic.client_request) (set_command (command_ p) default_packet))
     else set_status (status_ p)
            (if is_valid_status (status_ p) then status_ p else enum_code Status.unknown)
            (set_magic (enum_code Magic.client_response) (set_command (command_ p) default_packet))))).

Lemma opt_frame_ok {A} t (f : A → bytes) o :
  0 ≤ t < 15 → (∀ a, o = Some a → bytes_ok (f a) ∧ zsize (f a) < 271) →
  Forall frame_ok (opt_frame t f o).
Proof. intros Ht Hf. destruct o; repeat constructor; cbn; try done; try lia; by apply Hf. Qed.

Lemma be_bytes_frame_ok n v : (n < 271)%nat → bytes_ok (be_bytes n v) ∧ zsize (be_bytes n v) < 271.
Proof. intros. rewrite zsize_be_bytes. split; [apply be_bytes_ok|lia]. Qed.

Lemma wire_frames_ok c p : well_typed p → Forall frame_ok (wire_frames c p).
Proof.
  intros Hw. unfold wire_frames. repeat apply Forall_app_2; [| | | |case_match; [constructor|]| |];
    (apply opt_frame_ok; [done|]).
  - done.
  - intros l Hl. apply (wt_level p Hw) in Hl. unfold durability_payload.
    destruct (be_bytes_frame_ok 2 0); [lia|].
    case_match; (split; [constructor; [done|]|]); try apply be_bytes_ok; try done.
  - intros. apply be_bytes_frame_ok. lia.
  - apply (wt_tracing p Hw).
  - intros. apply be_bytes_frame_ok. lia.
  - apply (wt_user p Hw).
  - done.
Qed.

Lemma frames_bytes_nonempty fs : fs ≠ [] → 0 < zsize (frames_bytes fs).
Proof.
  destruct fs as [|f fs]; [done|]. intros _. unfold frames_bytes. cbn [map concat].
  rewrite zsize_app. pose proof (frame_bytes_pos f.1 f.2). size_lia.
Qed.

Lemma no_frames_header p : no_frames (header_packet p).
Proof. unfold no_frames, header_packet. by destruct (is_request p). Qed.

Definition set_frames p pkt : packet :=
  (if is_request p then set_request_frames p else set_response_frames p) pkt.

(** Frames that a decoder reads as those of the packet *)
Definition frames_of p (fs : list (Z * bytes)) : Prop :=
  Forall frame_ok fs ∧
  apply_frames (if is_request p then enum_code Magic.alt_client_request
                else enum_code Magic.alt_client_response) (header_packet p) fs =
    Ok (set_frames p (header_packet p)).

Lemma wire_frames_of c p :
  accepted c p → well_typed p → legible c p →
  (∀ d, server_duration_frame_ p = Some d → 0 ≤ pow_encode d) →
  frames_of p (wire_frames c p).
Proof.
  intros Ha Hw Hl Hd. split; [by apply wire_frames_ok|]. unfold set_frames.
  pose proof (no_frames_header p). destruct (is_request p) eqn:Hreq.
  - by apply apply_request_frames.
  - by apply apply_response_frames.
Qed.

(** The frame section of the body. *)
Lemma decode_frame_section p fs post :
  frames_of p fs →
  let n := zsize (frames_bytes fs) in
  (if decide (0 < n) then decode_frames (wire_magic p n) (frames_bytes fs ++ post) n (header_packet p)
   else Ok (header_packet p)) = Ok (set_frames p (header_packet p)).
Proof.
  intros [Hok Happ] n. case_decide as Hn.
  - unfold n. rewrite decode_frames_spec by done. unfold wire_magic. by rewrite decide_True.
  - destruct (decide (fs = [])) as [Hfs|Hfs]; [by rewrite Hfs in Happ|].
    by apply frames_bytes_nonempty in Hfs.
Qed.

Lemma decode_magic_header c p n key extras :
  accepted c p → well_typed p → fits p n key extras →
  decode_magic (wire_magic p n) (header_bytes p n key extras) (set_command (command_ p) default_packet) =
  Ok (if is_request p
      then set_vbucket (vbucket_ p)
             (set_magic (enum_code Magic.client_request) (set_command (command_ p) default_packet))
      else set_status (status_ p)
             (if is_valid_status (status_ p) then status_ p else enum_code Status.unknown)
             (set_magic (enum_code Magic.client_response) (set_command (command_ p) default_packet))).
Proof.
  intros Ha Hw Hf.
  destruct (header_fields (E:=error_code) p n key extras Hw Hf) as (_ & _ & H6 & _).
  pose proof (accepted_magic c p Ha) as Hm. unfold decode_magic, wire_magic. rewrite H6.
  destruct (is_request p); rewrite Hm; by case_decide.
Qed.

Lemma wire_magic_alt c p n : accepted c p →
  is_one_of (wire_magic p n) [Magic.alt_client_request; Magic.alt_client_response] =
  bool_decide (0 < n).
Proof.
  intros Ha. pose proof (accepted_magic c p Ha) as Hm. unfold wire_magic.
  destruct (is_request p); rewrite Hm; case_decide; (rewrite bool_decide_true by done) || (rewrite bool_decide_false by done); done.
Qed.

(** The lengths of key and frames, as the decoder extracts them. *)
Lemma decode_lengths c p n key extras :
  accepted c p → well_typed p → fits p n key extras →
  let h := header_bytes p n key extras in
  ∃ kl, big_endian.read_uint16 (E:=error_code) h 2 = Ok kl ∧
    (if is_one_of (wire_magic p n) [Magic.alt_client_request; Magic.alt_client_response] then
       key_len ← big_endian.read_uint8 h 3;
       frames_len ← big_endian.read_uint8 h 2;
       Ok (key_len, frames_len)
     else Ok (E:=error_code) (kl, 0)) = Ok (zsize key, n).
Proof.
  intros Ha Hw Hf h. rewrite (wire_magic_alt c) by done.
  destruct (header_fields (E:=error_code) p n key extras Hw Hf) as (_ & _ & _ & _ & _ & _ & Hlen).
  fold h in Hlen. case_decide as Hn.
  - destruct Hlen as [-> ->]. rewrite bool_decide_true by done.
    assert (∃ kl, big_endian.read_uint16 (E:=error_code) h 2 = Ok kl) as [kl Hkl].
    { unfold h. destruct (header_split p n key extras) as (b2 & b3 & -> & _). by eexists. }
    by exists kl.
  - rewrite bool_decide_false by done. exists (zsize key). split; [done|].
    destruct Hf as [Hf _ _ _ _]. do 2 f_equal. lia.
Qed.

(** The three sections after the frames, and the collection. *)
Lemma received_eq c p :
  accepted c p →
  set_key (key_ p)
    (set_collection_id (if collection_in_key c p then collection_id_ p else 0)
      (set_value (value_ p) (set_key (sent_key c p) (set_extras (sent_extras c p)
        (set_frames p (header_packet p)))))) = received c p.
Proof.
  intros Ha. pose proof (accepted_magic c p Ha) as Hm. unfold received, header_packet, set_frames.
  destruct (is_request p) eqn:Hreq.
  - destruct (acc_request c p Ha Hreq) as [Hs Hd]. unfold set_request_frames. cbn.
    by rewrite Hm, Hs, Hd.
  - destruct (acc_response c p Ha Hreq) as (Hv & H1 & H2 & H3 & H4 & H5 & H6).
    unfold set_response_frames. cbn. by rewrite Hm, Hv, H1, H2, H3, H4, H5, H6.
Qed.

Lemma decode_packet_parts_frames c p fs :
  let key := sent_key c p in
  let extras := sent_extras c p in
  let fb := frames_bytes fs in
  accepted c p → well_typed p → addressable c p → frames_of p fs →
  fits p (zsize fb) key extras →
  decode_packet_parts c (header_bytes p (zsize fb) key extras) (fb ++ extras ++ key ++ value_ p) =
    Ok (received c p, 24 + (zsize key + zsize extras + zsize (value_ p) + zsize fb)).
Proof.
  intros key extras fb Ha Hw Had Hfs Hf. unfold decode_packet_parts.
  rewrite header_at_0, header_at_1. cbn [mbind outcome_bind].
  rewrite wrap_small by apply Hw. rewrite (decode_magic_header c) by done. cbn [mbind outcome_bind].
  destruct (header_fields (E:=error_code) p (zsize fb) key extras Hw Hf)
    as (-> & -> & _ & _ & -> & -> & _). cbn [mbind outcome_bind].
  destruct (decode_lengths c p (zsize fb) key extras Ha Hw Hf) as (kl & -> & Hlens).
  cbn [mbind outcome_bind] in *. rewrite Hlens. cbn [mbind outcome_bind].
  rewrite !zsize_app, zsize_header.
  pose proof (zsize_nonneg (value_ p)). rewrite decide_False by lia.
  fold (header_packet p).
  pose proof (decode_frame_section p fs (extras ++ key ++ value_ p) Hfs) as Hsec.
  cbv zeta in Hsec. fold fb in Hsec. rewrite Hsec. cbn [mbind outcome_bind].
  rewrite <-(received_eq c p Ha).
  assert (Hq : let q := set_frames p (header_packet p) in
    command_ q = command_ p ∧ collection_id_ q = 0 ∧ key_ q = [] ∧ extras_ q = [] ∧ value_ q = []).
  { unfold set_frames, header_packet. by destruct (is_request p). }
  cbv zeta in Hq. clear Hlens Hfs Hsec.
  generalize dependent (set_frames p (header_packet p)).
  intros q (Hq1 & Hq2 & Hq3 & Hq4 & Hq5).
  rewrite (read_section fb extras (key ++ value_ p) _ _ _ q set_extras);
    [cbn [mbind outcome_bind]|done..|destruct q; cbn in *; by subst].
  rewrite (read_section (fb ++ extras) key (value_ p) _ _ _ _ set_key);
    [cbn [mbind outcome_bind]|by rewrite <-app_assoc|size_lia|done|destruct q; cbn in *; by subst].
  rewrite (read_section (fb ++ extras ++ key) (value_ p) [] _ _ _ _ set_value);
    [cbn [mbind outcome_bind]|by rewrite app_nil_r, <-!app_assoc|size_lia|size_lia|destruct q; cbn in *; by subst].
  unfold key at 1. rewrite (decode_collection_id_spec c p) by done. cbn [mbind outcome_bind]. do 2 f_equal. unfold key. lia.
Qed.

Lemma decode_packet_parts_wire c p :
  let key := sent_key c p in
  let extras := sent_extras c p in
  let fb := frames_bytes (wire_frames c p) in
  accepted c p → well_typed p → legible c p → addressable c p →
  (∀ d, server_duration_frame_ p = Some d → 0 ≤ pow_encode d) →
  fits p (zsize fb) key extras →
  decode_packet_parts c (header_bytes p (zsize fb) key extras) (fb ++ extras ++ key ++ value_ p) =
    Ok (received c p, 24 + (zsize key + zsize extras + zsize (value_ p) + zsize fb)).
Proof. intros key extras fb Ha Hw Hl Had Hd Hf. apply decode_packet_parts_frames; auto using wire_frames_of. Qed.

(** [decode_packet] on a header, a body of the length it announces and
    whatever follows in the buffer. *)
Lemma decode_packet_split c (header body rest : bytes) :
  zsize header = 24 → big_endian.read_uint32 (E:=error_code) header 8 = Ok (zsize body) →
  decode_packet c (header ++ body ++ rest) = decode_packet_parts c header body.
Proof.
  intros Hh Hlen. unfold decode_packet.
  rewrite decide_False by (intros [-> _]%app_nil; done).
  pose proof (zsize_nonneg body). pose proof (zsize_nonneg rest).
  rewrite decide_False by (rewrite !zsize_app; lia).
  pose proof (range_app (E:=error_code) [] header (body ++ rest) 0 24 eq_refl (eq_sym Hh)) as Hr.
  cbn [app] in Hr. rewrite Hr. cbn [mbind outcome_bind]. rewrite Hlen. cbn [mbind outcome_bind].
  rewrite decide_False by (rewrite !zsize_app; lia).
  rewrite range_app by done. done.
Qed.

(** The frames the encoder counts are the frames it writes. *)
Record counted c p : Prop := {
  cnt_tracing : is_Some (open_tracing_frame_ p) →
    barrier_frame_ p = None ∧ durability_level_frame_ p = None ∧ stream_id_frame_ p = None;
  cnt_duration : is_Some (server_duration_frame_ p) →
    is_feature_enabled c HelloFeature.tracing = false;
}.

Lemma zsize_frame_bytes t d :
  zsize (frame_bytes t d) = zsize d + if decide (zsize d < 15) then 1 else 2.
Proof. unfold frame_bytes. case_decide; size_lia. Qed.

(** Sizes of the frames written, as sums over the members. *)
Definition written_length c p : Z :=
  let variable := λ o : option bytes,
    match o with Some d => zsize d + if decide (zsize d < 15) then 1 else 2 | None => 0 end in
  (if has (barrier_frame_ p) then 1 else 0) +
  (if has (durability_level_frame_ p)
   then if has (durability_timeout_frame_ p) then 4 else 2 else 0) +
  (if has (stream_id_frame_ p) then 3 else 0) +
  variable (open_tracing_frame_ p) +
  (if is_feature_enabled c HelloFeature.tracing then 0
   else if has (server_duration_frame_ p) then 3 else 0) +
  variable (user_impersonation_frame_ p) +
  (if has (preserve_expiry_frame_ p) then 1 else 0).

Lemma zsize_opt_frame {A} t (f : A → bytes) o :
  zsize (frames_bytes (opt_frame t f o)) =
  match o with Some a => zsize (f a) + (if decide (zsize (f a) < 15) then 1 else 2) | None => 0 end.
Proof. rewrite frames_bytes_opt. destruct o; [apply zsize_frame_bytes|done]. Qed.

Lemma zsize_opt_const {A} t (f : A → bytes) o n :
  (∀ a, zsize (f a) = n) → n < 15 →
  zsize (frames_bytes (opt_frame t f o)) = if has o then n + 1 else 0.
Proof. intros Hf Hn. rewrite zsize_opt_frame. destruct o; cbn [has]; [|done]. by rewrite Hf, decide_True. Qed.

Lemma written_length_spec c p :
  zsize (frames_bytes (wire_frames c p)) = written_length c p.
Proof.
  unfold wire_frames, written_length. rewrite !frames_bytes_app, !zsize_app.
  assert (∀ b : bool, ∀ fs, zsize (frames_bytes (if b then [] else fs)) = if b then 0 else zsize (frames_bytes fs))
    as -> by by intros [].
  rewrite (zsize_opt_const request_barrier _ _ 0), (zsize_opt_const request_preserve_expiry _ _ 0),
    (zsize_opt_const request_stream_id _ _ 2), (zsize_opt_const response_server_duration _ _ 2)
    by (done || intros; apply zsize_be_bytes).
  rewrite (zsize_opt_const request_sync_durability _ _
    (if has (durability_timeout_frame_ p) then 3 else 1)).
  2:{ intros l. unfold durability_payload. by destruct (durability_timeout_frame_ p). }
  2:{ by destruct (durability_timeout_frame_ p). }
  rewrite !zsize_opt_frame. unfold id. repeat case_match; lia.
Qed.

Lemma counted_frames_length c p :
  counted c p → frames_length p = zsize (frames_bytes (wire_frames c p)).
Proof.
  intros [Ht Hd]. rewrite written_length_spec. unfold frames_length, written_length.
  destruct (open_tracing_frame_ p) as [t|].
  - destruct Ht as (-> & -> & ->); [done|]. cbn [has].
    destruct (server_duration_frame_ p); [rewrite Hd by done|]; cbn [has]; repeat case_match; lia.
  - destruct (server_duration_frame_ p); [rewrite Hd by done|]; cbn [has]; repeat case_match; lia.
Qed.
End roundtrip.

(** ** Every input *)

Section total.
Context `{ServerDuration}.
Implicit Types (c : codec) (p pkt : packet).

Lemma read_uint_not_diverge {E} (l : bytes) i :
  big_endian.read_uint8 (E:=E) l i ≠ Diverge ∧ big_endian.read_uint16 (E:=E) l i ≠ Diverge ∧
  big_endian.read_uint32 (E:=E) l i ≠ Diverge ∧ big_endian.read_uint64 (E:=E) l i ≠ Diverge.
Proof.
  unfold big_endian.read_uint8, big_endian.read_uint16, big_endian.read_uint32, big_endian.read_uint64.
  split_and!; not_diverge.
Qed.

Lemma decode_frame_not_diverge body t n off pkt :
  decode_request_frame body t n off pkt ≠ Diverge ∧ decode_response_frame body t n off pkt ≠ Diverge.
Proof.
  pose proof (λ E, read_uint_not_diverge (E:=E) body).
  unfold decode_request_frame, decode_response_frame, big_endian.read.
  split; not_diverge; naive_solver.
Qed.

Lemma at_ok {E} (l : bytes) i b : bytes_ok l → at_ (E:=E) l i = Ok b → is_u8 b.
Proof. intros Hl [_ Hb]%at_Ok. by eapply Forall_lookup_1 in Hb. Qed.

(** An iteration advances the offset. *)
Lemma decode_frame_step_advances magic body pkt off pkt' off' :
  bytes_ok body → decode_frame_step magic body (pkt, off) = Ok (pkt', off') → off < off'.
Proof.
  intros Hb. unfold decode_frame_step.
  rewrite bind_Ok. intros (h & Hh & Hstep). apply at_ok in Hh; [|done].
  rewrite bind_Ok in Hstep. destruct Hstep as ([ft off1] & H1 & Hstep).
  assert (off + 1 ≤ off1) as Hoff1.
  { clear Hstep. case_decide; [|simplify_eq; lia]. rewrite bind_Ok in H1. destruct H1 as (? & _ & ?). simplify_eq. lia. }
  rewrite bind_Ok in Hstep. destruct Hstep as ([fl off2] & H2 & Hstep).
  assert (off1 ≤ off2 ∧ 0 ≤ fl) as [Hoff2 Hfl].
  { clear Hstep H1. assert (0 ≤ Z.land h 15) by (apply Z.land_nonneg; lia).
    case_decide; [|simplify_eq; lia]. rewrite bind_Ok in H2. destruct H2 as (b & Hb' & ?).
    apply at_ok in Hb'; [|done]. simplify_eq. unfold in_width in *. lia. }
  rewrite bind_Ok in Hstep. destruct Hstep as (? & _ & ?). simplify_eq. lia.
Qed.

Lemma decode_frames_not_diverge magic body n pkt :
  bytes_ok body → decode_frames magic body n pkt ≠ Diverge.
Proof.
  intros Hb. unfold decode_frames.
  assert (Hloop : while_loop (Z.to_nat n) (λ st : packet * Z, bool_decide (st.2 < n))
    (decode_frame_step magic body) (pkt, 0) ≠ Diverge).
  { apply (while_loop_terminates _ _ (λ st, 0 ≤ st.2) (λ st, Z.to_nat (n - st.2))); [| |simpl; lia..].
    - intros [q off] Hoff Hc%bool_decide_eq_true. simpl in *. split; [lia|].
      unfold decode_frame_step. destruct (decode_frame_not_diverge body 0 0 0 q).
      pose proof (λ t n off, decode_frame_not_diverge body t n off q) as Hnd.
      not_diverge; naive_solver.
    - intros [q off] [q' off'] Hoff Hc%bool_decide_eq_true Hs. simpl in *.
      apply decode_frame_step_advances in Hs; [lia|done]. }
  destruct (while_loop _ _ _ _); done.
Qed.

Lemma read_uint_in_range {E} (l : bytes) i :
  0 ≤ i →
  (i + 1 ≤ zsize l → ∃ v, big_endian.read_uint8 (E:=E) l i = Ok v) ∧
  (i + 2 ≤ zsize l → ∃ v, big_endian.read_uint16 (E:=E) l i = Ok v) ∧
  (i + 4 ≤ zsize l → ∃ v, big_endian.read_uint32 (E:=E) l i = Ok v) ∧
  (i + 8 ≤ zsize l → ∃ v, big_endian.read_uint64 (E:=E) l i = Ok v).
Proof.
  intros Hi. pose proof (λ j, at_in_range (E:=E) l j) as Hat.
  unfold big_endian.read_uint8, big_endian.read_uint16, big_endian.read_uint32, big_endian.read_uint64.
  split_and!; intros Hs;
    repeat match goal with
      | |- context [at_ l ?j] => destruct (Hat j ltac:(lia)) as (? & -> & _); cbn [mbind outcome_bind]
      end; by eexists.
Qed.

Lemma decode_packet_parts_consumes c header body pkt n :
  decode_packet_parts c header body = Ok (pkt, n) → n = zsize header + zsize body.
Proof.
  unfold decode_packet_parts. intros Hd.
  do 8 (apply bind_Ok in Hd as (? & _ & Hd)).
  apply bind_Ok in Hd as ([kl fl] & _ & Hd). case_decide; [done|].
  do 5 (apply bind_Ok in Hd as (? & _ & Hd)). by simplify_eq.
Qed.

Lemma decode_collection_id_not_diverge c n pkt : decode_collection_id c n pkt ≠ Diverge.
Proof.
  unfold decode_collection_id, decode_unsigned_leb128_no_throw.
  assert (∀ w s r b, decode_loop (E:=error_code) w s r b ≠ Diverge) by (intros; apply decode_loop_total).
  not_diverge.
Qed.

Lemma decode_packet_parts_not_diverge c header body :
  bytes_ok body → decode_packet_parts c header body ≠ Diverge.
Proof.
  intros Hb. unfold decode_packet_parts, decode_magic, big_endian.read.
  pose proof (λ E i, read_uint_not_diverge (E:=E) header i) as Hr.
  pose proof (λ m n pkt, decode_frames_not_diverge m body n pkt Hb).
  pose proof (decode_collection_id_not_diverge c).
  not_diverge; naive_solver.
Qed.

(** Without frames and collections every read is covered by the length check. *)
Lemma decode_packet_parts_defined c header body m :
  zsize header = 24 → bytes_ok header → collections_enabled_ c = false →
  at_ (E:=error_code) header 0 = Ok m →
  is_one_of m [Magic.alt_client_request; Magic.alt_client_response] = false →
  defined (decode_packet_parts c header body).
Proof.
  intros Hh Hbs Hc Hm Halt. unfold decode_packet_parts, decode_magic. rewrite Hm. cbn [mbind outcome_bind].
  pose proof (λ i, at_in_range (E:=error_code) header i) as Hat. rewrite Hh in Hat.
  pose proof (λ i, read_uint_in_range (E:=error_code) header i) as Hr. rewrite Hh in Hr.
  destruct (Hat 1 ltac:(lia)) as (cmd & -> & _). cbn [mbind outcome_bind].
  apply bind_defined.
  { destruct (proj1 (proj2 (Hr 6 ltac:(lia))) ltac:(lia)) as [st ->]. by repeat case_match. }
  intros pkt _. destruct (Hat 5 ltac:(lia)) as (dt & -> & _). cbn [mbind outcome_bind].
  destruct (proj1 (proj2 (proj2 (Hr 12 ltac:(lia)))) ltac:(lia)) as [op ->]. cbn [mbind outcome_bind].
  destruct (proj2 (proj2 (proj2 (Hr 16 ltac:(lia)))) ltac:(lia)) as [cas ->]. cbn [mbind outcome_bind].
  unfold big_endian.read_uint8.
  destruct (Hat 4 ltac:(lia)) as (el & Hel & _). rewrite Hel. cbn [mbind outcome_bind].
  apply at_ok in Hel as [Hel _]; [|done].
  unfold big_endian.read_uint16. change (2 + 1) with 3. change (2 + 0) with 2.
  destruct (Hat 3 ltac:(lia)) as (b3 & -> & _), (Hat 2 ltac:(lia)) as (b2 & -> & _). cbn [mbind outcome_bind].
  rewrite Halt. cbn [mbind outcome_bind].
  set (kl := u16 _). assert (0 ≤ kl) by (unfold kl, wrap; apply Z.mod_pos_bound; lia).
  case_decide; [done|]. rewrite decide_False by lia. cbn [mbind outcome_bind].
  unfold big_endian.read. rewrite !range_ok by lia. cbn [mbind outcome_bind].
  repeat (apply bind_defined; [by case_decide|intros ? _]).
  unfold decode_collection_id. by rewrite Hc.
Qed.

(** The three outcomes of the outer function. *)
Lemma decode_packet_cases c input :
  bytes_ok input → input ≠ [] →
  (zsize input < 24 ∧ decode_packet c input = Err (errc_network Network.need_more_data)) ∨
  ∃ header tail n, input = header ++ tail ∧ zsize header = 24 ∧
    big_endian.read_uint32 (E:=error_code) input 8 = Ok n ∧
    ((zsize tail < n ∧ decode_packet c input = Err (errc_network Network.need_more_data)) ∨
     ∃ body rest, tail = body ++ rest ∧ n = zsize body ∧
       decode_packet c input = decode_packet_parts c header body).
Proof.
  intros Hb Hne. destruct (decide (zsize input < 24)) as [Hs|Hs].
  { left. split; [done|]. unfold decode_packet. by rewrite decide_False, decide_True. }
  right. exists (take 24 input), (drop 24 input). rewrite take_drop.
  assert (Hh : zsize (take 24 input) = 24) by (rewrite zsize_take; lia).
  destruct (read_uint_in_range (E:=error_code) (take 24 input) 8) as (_ & _ & [n Hn] & _); [lia..|].
  assert (Hnin : big_endian.read_uint32 (E:=error_code) input 8 = Ok n).
  { rewrite <-Hn, <-(take_drop 24 input) at 1. unfold big_endian.read_uint32.
    by rewrite !at_app_l by lia. }
  exists n. split_and!; [done|done|done|].
  assert (0 ≤ n).
  { rewrite <-(take_drop 8 (take 24 input)) in Hn.
    rewrite <-(take_drop 4 (drop 8 (take 24 input))) in Hn.
    assert (Hok : bytes_ok (take 24 input)) by by apply Forall_take.
    rewrite read_uint32_app in Hn.
    - simplify_eq. apply be_value_bound. by apply Forall_take, Forall_drop.
    - unfold zsize in *. rewrite length_take. lia.
    - by apply Forall_take, Forall_drop.
    - unfold zsize in *. rewrite length_take, length_drop. lia. }
  destruct (decide (zsize (drop 24 input) < n)) as [Hlt|Hge].
  - left. split; [done|]. unfold decode_packet. rewrite !decide_False by (done || lia).
    rewrite range_ok by lia. cbn [mbind outcome_bind]. change (take (Z.to_nat 24) (drop (Z.to_nat 0) input)) with (take 24 input).
    rewrite Hn. cbn [mbind outcome_bind]. rewrite zsize_drop in Hlt. by rewrite decide_True by lia.
  - right. exists (take (Z.to_nat n) (drop 24 input)), (drop (Z.to_nat n) (drop 24 input)).
    assert (Hz : zsize (take (Z.to_nat n) (drop 24 input)) = n) by (rewrite zsize_take; lia).
    rewrite take_drop. split_and!; [done|done|].
    rewrite <-(take_drop 24 input) at 1. rewrite <-(take_drop (Z.to_nat n) (drop 24 input)) at 1.
    apply decode_packet_split; [done|]. by rewrite Hz.
Qed.
End total.
