(* ===== verification/CodecTheorems.v ===== *)
(** * Properties of the packet codec

    The theorems about [encode_packet] and [decode_packet] of
    [core/mcbp/codec.cxx], from the lemmas of [CodecProofs.v]. *)

From S2P Require Import Prelude ByteOrder Protocol BufferWriter Leb128 Packet Codec CodecProofs.

(** What a packet needs to travel: the encoder's own checks, frames the wire
    format can describe, lengths that fit the fields of the header, and the
    two restrictions on combinations of frames ([counted]). *)
Record transmissible `{ServerDuration} (c : codec) (p : packet) : Prop := {
  tr_accepted : accepted c p;
  tr_typed : well_typed p;
  tr_legible : legible c p;
  tr_addressable : addressable c p;
  tr_counted : counted c p;
  tr_duration : ∀ d, server_duration_frame_ p = Some d → 0 ≤ pow_encode d;
  tr_fits : fits p (frames_length p) (sent_key c p) (sent_extras c p);
}.

Section examples.
(** A stand-in for the two powers, for concrete runs. *)
Definition identity_duration : ServerDuration := {| pow_encode := id; pow_decode := id |}.

Definition example_features : gset Z :=
  list_to_set (map enum_code [HelloFeature.alt_request_support; HelloFeature.sync_replication;
                              HelloFeature.collections; HelloFeature.preserve_ttl;
                              HelloFeature.open_tracing]).

Definition example_request : packet := {|
  magic_ := 0x80; command_ := 0x01; datatype_ := 1; status_ := 0; status_code_ := 0;
  vbucket_ := 513; opaque_ := 77; cas_ := 2 ^ 60; collection_id_ := 0x1234;
  key_ := [107; 101; 121]; extras_ := [0; 0; 0; 1; 0; 0; 0; 2]; value_ := [123; 125];
  barrier_frame_ := Some (); durability_level_frame_ := Some 2;
  durability_timeout_frame_ := Some 70000; stream_id_frame_ := Some 300;
  open_tracing_frame_ := None; server_duration_frame_ := None;
  user_impersonation_frame_ := Some (replicate 20 65); preserve_expiry_frame_ := Some ();
  read_units_frame_ := None; write_units_frame_ := None; unsupported_frames_ := []
|}.
End examples.

(** ** Incomplete input *)

Section incomplete.
Context `{ServerDuration}.
Abbreviation need_more := (errc_network Network.need_more_data).
Implicit Types (c : codec) (pkt : packet).

Lemma bind_err {A B} (m : outcome error_code A) (f : A → outcome error_code B) e :
  m ≠ Err e → (∀ a, f a ≠ Err e) → m ≫= f ≠ Err e.
Proof. destruct m; simpl; naive_solver. Qed.

Lemma while_loop_err {St} n cond (body : St → outcome error_code St) s e :
  (∀ s, body s ≠ Err e) → while_loop n cond body s ≠ Err e.
Proof.
  intros Hb. revert s. induction n as [|n IH]; intros s; rewrite while_loop_unfold; case_match; try done.
  by apply bind_err.
Qed.

(** Walks through the code: only another error is returned. *)
Ltac complete :=
  repeat first
    [ done | apply at_not_err | apply range_not_err | assumption
    | apply bind_err; [|intros ?]
    | match goal with
      | |- context [if ?b then _ else _] => destruct b
      | |- context [match ?x with _ => _ end] => destruct x
      end
    | naive_solver ].

Lemma decode_loop_err w shift rv rest e : decode_loop (E:=error_code) w shift rv rest ≠ Err e.
Proof. revert shift rv. induction rest as [|b rest IH]; intros shift rv; cbn [decode_loop]; complete. Qed.

Lemma read_uint_err (l : bytes) i e :
  big_endian.read_uint8 (E:=error_code) l i ≠ Err e ∧ big_endian.read_uint16 (E:=error_code) l i ≠ Err e ∧
  big_endian.read_uint32 (E:=error_code) l i ≠ Err e ∧ big_endian.read_uint64 (E:=error_code) l i ≠ Err e.
Proof.
  unfold big_endian.read_uint8, big_endian.read_uint16, big_endian.read_uint32, big_endian.read_uint64.
  split_and!; complete.
Qed.

Lemma decode_frames_err magic body n pkt : decode_frames magic body n pkt ≠ Err need_more.
Proof.
  pose proof (λ i, read_uint_err body i need_more) as Hr.
  unfold decode_frames. assert (Hl : ∀ k s, while_loop k (λ st : packet * Z, bool_decide (st.2 < n))
    (decode_frame_step magic body) s ≠ Err need_more).
  { intros k s. apply while_loop_err. intros [q off].
    unfold decode_frame_step, decode_request_frame, decode_response_frame, big_endian.read. complete. }
  specialize (Hl (Z.to_nat n) (pkt, 0)). destruct (while_loop _ _ _ _); naive_solver.
Qed.

Lemma decode_packet_parts_err c header body : decode_packet_parts c header body ≠ Err need_more.
Proof.
  pose proof (λ i, read_uint_err header i need_more) as Hr.
  pose proof (λ m n pkt, decode_frames_err m body n pkt) as Hf.
  pose proof (λ w s r l, decode_loop_err w s r l need_more) as Hd.
  unfold decode_packet_parts, decode_magic, decode_collection_id, decode_unsigned_leb128_no_throw, big_endian.read. complete.
Qed.
End incomplete.

Section codec_theorems.
Context `{ServerDuration}.
Implicit Types (c : codec) (p : packet).

Lemma encode_transmissible c p :
  transmissible c p →
  encode_packet c p = Ok (wire_packet c p (sent_key c p) (sent_extras c p)).
Proof.
  intros [Ha Hw Hl Had Hc Hd Hf].
  rewrite (encode_packet_exact c p (sent_key c p) (sent_extras c p)); [|done..|by apply encode_key_extras_spec].
  rewrite (counted_frames_length c p) by done. rewrite Z.sub_diag. cbn. by rewrite app_nil_r.
Qed.

(** C1: packet round trip.  Every transmissible packet is encoded, and
    decoding the bytes, followed in the buffer by any others, gives the packet
    back (as [received]: the timeout capped to 16 bits, the duration rounded)
    and reports exactly the bytes of this packet as consumed. *)
Theorem codec_roundtrip c p rest :
  transmissible c p →
  ∃ wire, encode_packet c p = Ok wire ∧
    decode_packet c (wire ++ rest) = Ok (received c p, zsize wire).
Proof.
  intros Ht. exists (wire_packet c p (sent_key c p) (sent_extras c p)).
  split; [by apply encode_transmissible|]. destruct Ht as [Ha Hw Hl Had Hc Hd Hf].
  rewrite zsize_wire_packet. unfold wire_packet.
  rewrite (counted_frames_length c p Hc) in *.
  rewrite <-app_assoc, decode_packet_split.
  - rewrite decode_packet_parts_wire by done. do 2 f_equal. lia.
  - apply zsize_header.
  - destruct (header_fields (E:=error_code) p _ _ _ Hw Hf) as (_ & _ & _ & -> & _).
    f_equal. rewrite !zsize_app. lia.
Qed.

(** Tracing overflows the buffer.  The encoder assigns the length of the
    tracing frame to the running total instead of adding it, so a request
    that carries it together with a barrier, durability or stream frame
    passes every check and is then written past the end of its buffer. *)
Theorem encode_tracing_overflow c p ctx :
  accepted c p → well_typed p → addressable c p →
  open_tracing_frame_ p = Some ctx →
  is_Some (barrier_frame_ p) ∨ is_Some (durability_level_frame_ p) ∨ is_Some (stream_id_frame_ p) →
  encode_packet c p = Fault.
Proof.
  intros Ha Hw Had Ht Hother.
  rewrite (encode_packet_exact c p (sent_key c p) (sent_extras c p)); [|done..|by apply encode_key_extras_spec].
  rewrite written_length_spec. cbv zeta. rewrite decide_False; [done|].
  assert (server_duration_frame_ p = None) as Hd.
  { destruct (is_request p) eqn:Hreq; [by apply (acc_request c p Ha)|].
    destruct (acc_response c p Ha Hreq) as (_ & _ & _ & _ & ? & _). congruence. }
  unfold frames_length, written_length. rewrite Ht, Hd. cbn [has].
  destruct Hother as [[? ->]|[[? ->]|[? ->]]]; cbn [has]; repeat case_match; lia.
Qed.

(** The server duration is not written when tracing is enabled.  The
    encoder counts the frame but writes it only when the tracing feature is
    off; with the feature on, the header announces three bytes of frames, the
    extras start where those should be, and three zero bytes trail. *)
Theorem encode_duration_dropped c p d :
  accepted c p → well_typed p → addressable c p →
  server_duration_frame_ p = Some d →
  is_feature_enabled c HelloFeature.tracing = true →
  encode_packet c p =
    Ok (header_bytes p 3 (sent_key c p) (sent_extras c p) ++
        sent_extras c p ++ sent_key c p ++ value_ p ++ [0; 0; 0]).
Proof.
  intros Ha Hw Had Hd Htr.
  rewrite (encode_packet_exact c p (sent_key c p) (sent_extras c p)); [|done..|by apply encode_key_extras_spec].
  destruct (is_request p) eqn:Hreq; [destruct (acc_request c p Ha Hreq); congruence|].
  destruct (acc_response c p Ha Hreq) as (_ & H1 & H2 & H3 & H4 & H5 & H6).
  assert (Hf : wire_frames c p = []) by (unfold wire_frames; by rewrite H1, H2, H3, H4, H5, H6, Htr).
  assert (Hn : frames_length p = 3) by (unfold frames_length; by rewrite H1, H2, H3, H4, H5, H6, Hd).
  unfold wire_packet. rewrite Hf, Hn. cbn [frames_bytes map concat app].
  by rewrite <-!app_assoc.
Qed.

(** C25: the decoder on arbitrary input.  It always terminates.  Without any
    input it reports the end of the stream; it asks for more data exactly when
    the input is shorter than a header, or than the header and the body that
    the header announces; and when they are there it reads nothing behind
    them, and a decoded packet consumes exactly them.  Without frames and
    collections no input makes the decoder read outside of its buffer. *)
Theorem decode_packet_total c input :
  bytes_ok input →
  decode_packet c input ≠ Diverge ∧
  (input = [] → decode_packet c input = Err (errc_network Network.end_of_stream)) ∧
  (decode_packet c input = Err (errc_network Network.need_more_data) ↔
     0 < zsize input < 24 ∨
     24 ≤ zsize input ∧ ∃ n, big_endian.read_uint32 (E:=error_code) input 8 = Ok n ∧ zsize input < 24 + n) ∧
  (∀ n, 24 ≤ zsize input → big_endian.read_uint32 (E:=error_code) input 8 = Ok n → 24 + n ≤ zsize input →
     decode_packet c (take (Z.to_nat (24 + n)) input) = decode_packet c input ∧
     ∀ pkt k, decode_packet c input = Ok (pkt, k) → k = 24 + n) ∧
  (collections_enabled_ c = false →
   (∀ m, at_ (E:=error_code) input 0 = Ok m →
      is_one_of m [Magic.alt_client_request; Magic.alt_client_response] = false) →
   defined (decode_packet c input)).
Proof.
  intros Hb. destruct (decide (input = [])) as [->|Hne].
  { unfold decode_packet. rewrite decide_True by done. split_and!; try done. split; [done|]. intros [?|[? _]]; unfold zsize in *; simpl in *; lia. }
  assert (0 < zsize input) by (destruct input; [done|size_lia]).
  destruct (decode_packet_cases c input Hb Hne)
    as [[Hs Hd]|(header & tail & n & -> & Hh & Hn & [[Hlt Hd]|(body & rest & -> & -> & Hd)])].
  - rewrite Hd. split_and!; try done; [|lia]. split; [by left|done].
  - rewrite Hd, Hn. rewrite zsize_app in *. split_and!; try done; [|intros k _ [= <-]; lia].
    split; [|done]. intros _. right. split; [size_lia|]. exists n. split; [done|lia].
  - rewrite Hd, Hn. pose proof Hb as Hb0. apply Forall_app in Hb0 as [Hb1 Hb2]. apply Forall_app in Hb2 as [Hb2 _].
    rewrite !zsize_app in *. pose proof (zsize_nonneg rest). pose proof (zsize_nonneg body). split_and!.
    + by apply decode_packet_parts_not_diverge.
    + intros He. by rewrite He in Hne.
    + split; [by intros ?%decode_packet_parts_err|]. intros [?|[_ (n & [= <-] & ?)]]; lia.
    + intros n _ [= <-] _. split.
      * assert (Ht : take (Z.to_nat (24 + zsize body)) (header ++ body ++ rest) = header ++ body ++ []).
        { rewrite app_nil_r, app_assoc. replace (Z.to_nat (24 + zsize body)) with (length (header ++ body)).
          - by rewrite take_app_length.
          - rewrite length_app. unfold zsize in *. lia. }
        rewrite Ht. apply decode_packet_split; [done|]. rewrite <-Hn. unfold big_endian.read_uint32. by rewrite !(at_app_l header) by lia.
      * intros pkt k ->%decode_packet_parts_consumes. lia.
    + intros Hc Hm. destruct (at_in_range (E:=error_code) header 0) as (m & Hm0 & _); [lia|].
      apply (decode_packet_parts_defined c header body m); try done.
      apply Hm. by rewrite at_app_l by lia.
Qed.

End codec_theorems.

(** ** Witnesses *)

(** Discharges the conditions on a concrete packet by evaluation. *)
Ltac concrete_packet :=
  try constructor; cbn;
  repeat match goal with
    | |- _ ∧ _ => split
    | |- _ → _ => intro
    | |- ∀ _, _ => intro
    | H : is_Some None |- _ => destruct H; discriminate
    | H : Some _ = Some _ |- _ => injection H as <-
    | H : is_Some (Some _) |- _ => clear H
    | |- Forall _ _ => constructor
    end;
  first [done | discriminate | vm_compute; intuition congruence | idtac].

Lemma codec_roundtrip_witness :
  let _ := identity_duration in
  let c := make_codec example_features in
  ∃ wire, encode_packet c example_request = Ok wire ∧
    decode_packet c (wire ++ [1; 2; 3]) = Ok (received c example_request, zsize wire).
Proof.
  intros D c. apply (codec_roundtrip c example_request [1; 2; 3]).
  constructor; concrete_packet.
Defined.

Definition traced_request : packet :=
  set_open_tracing_frame (Some [1; 2; 3])
    (set_user_impersonation_frame None example_request).

Lemma encode_tracing_overflow_witness :
  let _ := identity_duration in
  encode_packet (make_codec example_features) traced_request = Fault.
Proof.
  intros D. apply (encode_tracing_overflow (make_codec example_features) traced_request [1; 2; 3]);
    [concrete_packet..|done|by left].
Defined.

Definition timed_response : packet :=
  set_server_duration_frame (Some 1000)
    (set_status 0 0 (set_magic 0x81 (set_command 0 (set_value [123; 125] default_packet)))).

Lemma encode_duration_dropped_witness :
  let _ := identity_duration in
  let c := make_codec {[enum_code HelloFeature.tracing]} in
  encode_packet c timed_response =
    Ok (header_bytes timed_response 3 [] [] ++ [] ++ [] ++ [123; 125] ++ [0; 0; 0]).
Proof.
  intros D c. apply (encode_duration_dropped c timed_response 1000);
    [concrete_packet..|done|done].
Defined.

Lemma decode_packet_total_witness :
  let _ := identity_duration in
  let c := make_codec ∅ in
  let input := [0x81; 0] ++ replicate 20 0 in
  decode_packet c input ≠ Diverge ∧
  (decode_packet c input = Err (errc_network Network.need_more_data) ↔
     0 < zsize input < 24 ∨
     24 ≤ zsize input ∧ ∃ n, big_endian.read_uint32 (E:=error_code) input 8 = Ok n ∧ zsize input < 24 + n).
Proof.
  intros D c input. destruct (decode_packet_total c input) as (H1 & _ & H2 & _); [|by split].
  apply (bool_decide_unpack _). vm_compute. exact I.
Defined.
