(* ===== verification/McbpParser.v ===== *)
(** * The stream parser: [core/io/mcbp_parser.cxx], [core/io/mcbp_message.cxx]

    The session appends what it reads from the socket to the parser's buffer
    and takes complete messages out of it.  The header is copied into a struct
    of integers, so multi-byte fields are in the byte order of the host: the
    model fixes a little-endian host, as the library's supported platforms
    are. *)

From S2P Require Import Prelude ByteOrder Protocol.

(** [snappy] is a separate library: its two functions are parameters. *)
Class Snappy := {
  (** [snappy::Uncompress]: [None] when the input is not valid. *)
  snappy_uncompress : bytes → option bytes;
  (** [snappy::Compress] *)
  snappy_compress : bytes → bytes;
}.

(** ** Messages *)

Record binary_header := BinaryHeader {
  hdr_magic : Z;
  hdr_opcode : Z;
  hdr_keylen : Z;
  hdr_extlen : Z;
  hdr_datatype : Z;
  hdr_specific : Z;
  hdr_bodylen : Z;
  hdr_opaque : Z;
  hdr_cas : Z;
}.

Definition set_bodylen (x : Z) (h : binary_header) : binary_header :=
  BinaryHeader (hdr_magic h) (hdr_opcode h) (hdr_keylen h) (hdr_extlen h) (hdr_datatype h)
    (hdr_specific h) x (hdr_opaque h) (hdr_cas h).

Record mcbp_message := McbpMessage {
  msg_header : binary_header;
  msg_body : bytes;
}.

Definition empty_message : mcbp_message := McbpMessage (BinaryHeader 0 0 0 0 0 0 0 0 0) [].

(** [binary_header::status] *)
Definition header_status (h : binary_header) : Z := byte_swap16 (hdr_specific h).

(** [std::memcpy(&msg.header, data, 24)]; the nine members lie at the offsets
    0, 1, 2, 4, 5, 6, 8, 12, 16 with no padding. *)
Definition load_header (data : bytes) : binary_header :=
  let field i n := le_value (take n (drop i data)) in
  BinaryHeader (field 0 1)%nat (field 1 1)%nat (field 2 2)%nat (field 4 1)%nat (field 5 1)%nat
    (field 6 2)%nat (field 8 4)%nat (field 12 4)%nat (field 16 8)%nat.

(** [mcbp_message::header_data]: the copy in the other direction. *)
Definition header_data (h : binary_header) : bytes :=
  le_bytes 1 (hdr_magic h) ++ le_bytes 1 (hdr_opcode h) ++ le_bytes 2 (hdr_keylen h) ++
  le_bytes 1 (hdr_extlen h) ++ le_bytes 1 (hdr_datatype h) ++ le_bytes 2 (hdr_specific h) ++
  le_bytes 4 (hdr_bodylen h) ++ le_bytes 4 (hdr_opaque h) ++ le_bytes 8 (hdr_cas h).

(** ** The parser *)

Inductive parse_result := res_ok | res_need_data | res_failure.

Global Instance parse_result_eq_dec : EqDecision parse_result.
Proof. solve_decision. Defined.

Section parser.
Context `{Snappy} {E : Type}.
Implicit Types (buf : bytes) (msg : mcbp_message).

(** [mcbp_parser::feed], [mcbp_parser::reset] *)
Definition feed buf (chunk : bytes) : bytes := buf ++ chunk.
Definition reset : bytes := [].

(** The sizes of key and prefix (framing extras, extras, key). *)
Definition prefix_sizes (h : binary_header) : Z * Z :=
  let key_size := byte_swap16 (hdr_keylen h) in
  let prefix_size := u32 (hdr_extlen h + key_size) in
  if is_enum (hdr_magic h) Magic.alt_client_response then
    let framing_extras_size := Z.land (hdr_keylen h) 0xff in
    let key_size := Z.shiftr (hdr_keylen h) 8 in
    (key_size, u32 (framing_extras_size + hdr_extlen h + key_size))
  else (key_size, prefix_size).

(** [mcbp_parser::next]: the result, the message and the buffer left. *)
Definition next buf msg : outcome E (parse_result * mcbp_message * bytes) :=
  let header_size := 24 in
  if decide (zsize buf < header_size) then Ok (res_need_data, msg, buf)
  else
    data ← range buf 0 header_size;
    let header := load_header data in
    let body_size := byte_swap32 (hdr_bodylen header) in
    if decide (0 < body_size ∧ zsize buf - header_size < body_size) then
      Ok (res_need_data, McbpMessage header (msg_body msg), buf)
    else
      let prefix_size := (prefix_sizes header).2 in
      if decide (body_size < prefix_size) then Ok (res_failure, McbpMessage header [], reset)
      else
        prefix ← range buf header_size prefix_size;
        raw ← range buf (header_size + prefix_size) (body_size - prefix_size);
        let uncompressed :=
          if has_flag (hdr_datatype header) datatype_snappy then snappy_uncompress raw else None in
        let msg :=
          match uncompressed with
          | Some value =>
              McbpMessage (set_bodylen (byte_swap32 (u32 (prefix_size + zsize value))) header)
                (prefix ++ value)
          | None => McbpMessage header (prefix ++ raw)
          end in
        let buf := drop (Z.to_nat (header_size + body_size)) buf in
        match buf with
        | b :: _ => Ok (res_ok, msg, if is_valid_magic b then buf else reset)
        | [] => Ok (res_ok, msg, buf)
        end.

(** ** The session's read loop *)

(** How the read handler ends: it reads again, or it stops the session. *)
Inductive read_end := read_again | session_stopped.

(** The loop of [do_read]'s handler, while the session is not stopped from
    elsewhere: the messages handed to the handler, how it ended, the buffer.
    Each message takes at least its header out of the buffer, so the size of
    the buffer bounds the number of iterations. *)
Fixpoint drain (fuel : nat) buf : outcome E (list mcbp_message * read_end * bytes) :=
  match fuel with
  | O => Diverge
  | S fuel =>
      '(res, msg, buf) ← next buf empty_message;
      match res with
      | res_ok =>
          '(msgs, fin, buf) ← drain fuel buf;
          Ok (msg :: msgs, fin, buf)
      | res_need_data => Ok ([], read_again, buf)
      | res_failure => Ok ([], session_stopped, buf)
      end
  end.

Definition on_read buf (chunk : bytes) : outcome E (list mcbp_message * read_end * bytes) :=
  let buf := feed buf chunk in
  drain (S (length buf)) buf.

(** Successive reads, until the session stops. *)
Fixpoint read_all buf (chunks : list bytes) : outcome E (list mcbp_message * read_end * bytes) :=
  match chunks with
  | [] => Ok ([], read_again, buf)
  | chunk :: chunks =>
      '(msgs, fin, buf) ← on_read buf chunk;
      match fin with
      | read_again =>
          '(msgs', fin, buf) ← read_all buf chunks;
          Ok (msgs ++ msgs', fin, buf)
      | session_stopped => Ok (msgs, session_stopped, buf)
      end
  end.
End parser.

(** ** The frame format, in network order *)

(** The [n]-byte field at offset [i]. *)
Definition net_field (i n : nat) (f : bytes) : Z := be_value (take n (drop i f)).

Definition has_framing (f : bytes) : bool := net_field 0 1 f =? 0x18.
Definition framing_len (f : bytes) : Z := if has_framing f then net_field 2 1 f else 0.
Definition key_len (f : bytes) : Z := if has_framing f then net_field 3 1 f else net_field 2 2 f.
Definition ext_len (f : bytes) : Z := net_field 4 1 f.
Definition prefix_len (f : bytes) : Z := framing_len f + ext_len f + key_len f.
Definition body_len (f : bytes) : Z := net_field 8 4 f.
Definition frame_len (f : bytes) : Z := 24 + body_len f.

Section frames.
Context `{Snappy}.

(** The message of a complete frame. *)
Definition deliver (f : bytes) : mcbp_message :=
  let h := load_header (take 24 f) in
  let prefix := take (Z.to_nat (prefix_len f)) (drop 24 f) in
  let raw := drop (Z.to_nat (prefix_len f)) (drop 24 f) in
  match (if has_flag (hdr_datatype h) datatype_snappy then snappy_uncompress raw else None) with
  | Some value =>
      McbpMessage (set_bodylen (byte_swap32 (u32 (prefix_len f + zsize value))) h) (prefix ++ value)
  | None => McbpMessage h (prefix ++ raw)
  end.

(** What the parser keeps of the bytes after a frame. *)
Definition keep_valid (buf : bytes) : bytes :=
  match buf with b :: _ => if is_valid_magic b then buf else [] | [] => [] end.

(** Splits a list of length [n] into its elements. *)
Lemma length_S_inv {A} n (l : list A) : length l = S n → ∃ x l', l = x :: l' ∧ length l' = n.
Proof. destruct l; [done|]. intros [= ?]. eauto. Qed.

Lemma net_field_bound i n f : bytes_ok f → 0 ≤ net_field i n f < 256 ^ Z.of_nat n.
Proof.
  intros Hf. unfold net_field.
  assert (Hb : bytes_ok (take n (drop i f))) by by apply Forall_take, Forall_drop.
  pose proof (be_value_bound _ Hb) as [Hlo Hhi]. split; [done|].
  eapply Z.lt_le_trans; [done|]. apply Z.pow_le_mono_r; [lia|]. rewrite zsize_take. lia.
Qed.

Lemma net_field_1 i f b : f !! i = Some b → net_field i 1 f = b.
Proof.
  intros Hb. unfold net_field. rewrite (drop_S f b) by done. simpl. rewrite firstn_O.
  rewrite be_value_cons, be_value_nil, zsize_nil. lia.
Qed.

Lemma net_field_2 i f b c : f !! i = Some b → f !! S i = Some c → net_field i 2 f = b * 256 + c.
Proof.
  intros Hb Hc. unfold net_field. rewrite (drop_S f b), (drop_S f c) by done. simpl. rewrite firstn_O.
  rewrite !be_value_cons, be_value_nil, zsize_cons, zsize_nil. lia.
Qed.

(** A field of the loaded header is the field of the frame, once swapped. *)
Lemma load_header_fields h :
  bytes_ok h → (24 ≤ length h)%nat →
  hdr_magic (load_header (take 24 h)) = net_field 0 1 h ∧
  hdr_extlen (load_header (take 24 h)) = ext_len h ∧
  byte_swap32 (hdr_bodylen (load_header (take 24 h))) = body_len h ∧
  prefix_sizes (load_header (take 24 h)) = (key_len h, prefix_len h).
Proof.
  intros Hh Hl.
  assert (Htd : ∀ i n, (i + n ≤ 24)%nat → take n (drop i (take 24 h)) = take n (drop i h)).
  { intros i n Hin. rewrite !take_drop_commute, take_take.
    by replace ((i + n) `min` 24)%nat with (i + n)%nat by lia. }
  assert (Hb : ∀ i n, bytes_ok (take n (drop i h))) by (intros; by apply Forall_take, Forall_drop).
  assert (Hlen : ∀ i n, (i + n ≤ 24)%nat → length (take n (drop i h)) = n).
  { intros. rewrite length_take, length_drop. lia. }
  assert (H1 : ∀ i, (i + 1 ≤ 24)%nat → le_value (take 1 (drop i (take 24 h))) = net_field i 1 h).
  { intros i Hi. rewrite Htd by done. unfold net_field.
    destruct (length_S_inv 0 _ (Hlen i 1%nat Hi)) as (x & l' & -> & Hl'). by destruct l'. }
  assert (Hk : byte_swap16 (hdr_keylen (load_header (take 24 h))) = net_field 2 2 h).
  { cbn [load_header hdr_keylen]. rewrite Htd by lia. apply byte_swap16_le; [done|]. apply Hlen. lia. }
  assert (Hm : hdr_magic (load_header (take 24 h)) = net_field 0 1 h) by (apply H1; lia).
  assert (He : hdr_extlen (load_header (take 24 h)) = ext_len h) by (apply H1; lia).
  split_and!; [done|done|..].
  { cbn [load_header hdr_bodylen]. rewrite Htd by lia. apply byte_swap32_le; [done|]. apply Hlen. lia. }
  unfold prefix_sizes, prefix_len, key_len, framing_len, has_framing, is_enum.
  rewrite Hk, Hm, He, Z.eqb_sym. unfold ext_len.
  pose proof (net_field_bound 2 2 h Hh). pose proof (net_field_bound 4 1 h Hh).
  change (enum_code Magic.alt_client_response) with 0x18. destruct (_ =? 0x18).
  - destruct (lookup_lt_is_Some_2 h 2) as [b2 Hb2]; [lia|].
    destruct (lookup_lt_is_Some_2 h 3) as [b3 Hb3]; [lia|].
    rewrite (net_field_1 2 h b2), (net_field_1 3 h b3) by done.
    assert (hdr_keylen (load_header (take 24 h)) = b3 * 256 + b2) as ->.
    { cbn [load_header hdr_keylen]. rewrite Htd by lia.
      rewrite (drop_S h b2), (drop_S h b3) by done. unfold le_value. cbn [take firstn]. rewrite ?firstn_O. simpl rev.
      rewrite !be_value_cons, be_value_nil, zsize_cons, zsize_nil. lia. }
    assert (is_u8 b2 ∧ is_u8 b3) as [Hw2 Hw3].
    { split; by eapply Forall_lookup_1. }
    change 0xff with (2 ^ 8 - 1). rewrite land_ones_mod, Z.shiftr_div_pow2 by lia.
    assert ((b3 * 256 + b2) mod 2 ^ 8 = b2) as -> by width_lia.
    assert ((b3 * 256 + b2) / 2 ^ 8 = b3) as -> by width_lia.
    f_equal. apply wrap_small. width_lia.
  - f_equal. rewrite wrap_small by width_lia. lia.
Qed.

Lemma field_bounds f : bytes_ok f → 0 ≤ prefix_len f ∧ 0 ≤ body_len f < 2 ^ 32.
Proof.
  intros Hf. pose proof (λ i n, net_field_bound i n f Hf) as Hn.
  unfold prefix_len, framing_len, ext_len, key_len, body_len.
  pose proof (Hn 2 1)%nat. pose proof (Hn 3 1)%nat. pose proof (Hn 2 2)%nat. pose proof (Hn 4 1)%nat.
  pose proof (Hn 8 4)%nat. split; [destruct (has_framing f); lia|].
  change (2 ^ 32) with (256 ^ Z.of_nat 4). lia.
Qed.

(** The header decides all the lengths: more bytes do not change them. *)
Lemma net_field_take i n m f : (i + n ≤ m)%nat → net_field i n (take m f) = net_field i n f.
Proof.
  intros. unfold net_field. rewrite !take_drop_commute, take_take.
  by replace ((i + n) `min` m)%nat with (i + n)%nat by lia.
Qed.

Lemma header_fields_take m f :
  (24 ≤ m)%nat →
  prefix_len (take m f) = prefix_len f ∧ body_len (take m f) = body_len f ∧
  frame_len (take m f) = frame_len f.
Proof.
  intros Hm. unfold frame_len, prefix_len, framing_len, ext_len, key_len, body_len, has_framing.
  by rewrite !net_field_take by lia.
Qed.

Lemma header_fields_app f l :
  (24 ≤ length f)%nat →
  prefix_len (f ++ l) = prefix_len f ∧ body_len (f ++ l) = body_len f ∧
  frame_len (f ++ l) = frame_len f.
Proof.
  intros Hf. destruct (header_fields_take 24 (f ++ l)) as (<- & <- & <-); [done|].
  rewrite take_app_le by done. by apply header_fields_take.
Qed.

Lemma next_spec {E} buf msg :
  bytes_ok buf →
  next (E:=E) buf msg =
    if decide (zsize buf < 24) then Ok (res_need_data, msg, buf)
    else if decide (zsize buf < frame_len buf)
    then Ok (res_need_data, McbpMessage (load_header (take 24 buf)) (msg_body msg), buf)
    else if decide (body_len buf < prefix_len buf)
    then Ok (res_failure, McbpMessage (load_header (take 24 buf)) [], [])
    else Ok (res_ok, deliver (take (Z.to_nat (frame_len buf)) buf),
             keep_valid (drop (Z.to_nat (frame_len buf)) buf)).
Proof.
  intros Hb. unfold next. case_decide as Hsz; [done|].
  rewrite range_ok by lia. cbn [mbind outcome_bind].
  change (take (Z.to_nat 24) (drop (Z.to_nat 0) buf)) with (take 24 buf).
  destruct (load_header_fields buf Hb) as (Hm & He & Hbl & Hp); [unfold zsize in *; lia|].
  destruct (field_bounds buf Hb) as [Hp0 Hb0]. rewrite Hbl, Hp. cbn [snd].
  unfold frame_len in *. destruct (decide (zsize buf < 24 + body_len buf)) as [Hlt|Hge].
  { by rewrite decide_True by lia. }
  rewrite decide_False by lia. case_decide as Hpre; [done|].
  rewrite !range_ok by lia. cbn [mbind outcome_bind].
  set (f := take (Z.to_nat (24 + body_len buf)) buf).
  assert (Hpf : prefix_len f = prefix_len buf) by (apply header_fields_take; lia).
  unfold deliver. rewrite Hpf.
  assert (Hf : take 24 f = take 24 buf) by (unfold f; rewrite take_take; f_equal; lia).
  assert (Hpr : take (Z.to_nat (prefix_len buf)) (drop 24 f) =
                take (Z.to_nat (prefix_len buf)) (drop 24 buf)).
  { unfold f. rewrite !take_drop_commute, take_take. do 2 f_equal. lia. }
  assert (Hraw : drop (Z.to_nat (prefix_len buf)) (drop 24 f) =
    take (Z.to_nat (body_len buf - prefix_len buf)) (drop (Z.to_nat (24 + prefix_len buf)) buf)).
  { unfold f. rewrite drop_drop, take_drop_commute. do 2 f_equal; [|f_equal]; lia. }
  rewrite Hf, Hpr, Hraw. unfold keep_valid, reset. by destruct (drop (Z.to_nat (24 + body_len buf)) buf).
Qed.
End frames.

(** ** Streams of frames *)

Section streams.
Context `{Snappy} {E : Type}.

(** A complete frame that the parser accepts. *)
Record valid_frame (f : bytes) : Prop := {
  vf_bytes : bytes_ok f;
  vf_header : (24 ≤ length f)%nat;
  vf_length : zsize f = frame_len f;
  vf_prefix : prefix_len f ≤ body_len f;
  vf_magic : ∃ b, f !! 0%nat = Some b ∧ is_valid_magic b = true;
}.

(** The beginning of a frame: not enough for the parser to act. *)
Definition partial_frame (l : bytes) : Prop := l = [] ∨ ∃ f l', valid_frame f ∧ f = l ++ l' ∧ l' ≠ [].

Lemma next_partial l msg :
  partial_frame l → ∃ msg', next (E:=E) l msg = Ok (res_need_data, msg', l).
Proof.
  intros [->|(f & l' & Hf & -> & Hne)]; [by eexists|].
  rewrite next_spec by (destruct Hf as [Hb _ _ _ _]; by apply Forall_app in Hb as [? _]).
  destruct (decide (zsize l < 24)) as [Hlt|Hge]; [by eexists|].
  destruct (header_fields_app l l') as (_ & _ & Hfl); [unfold zsize in *; lia|].
  assert (0 < zsize l') by (destruct l'; [done|]; size_lia).
  pose proof (vf_length _ Hf) as Hlen. rewrite Hfl, zsize_app in Hlen.
  rewrite decide_True by lia. by eexists.
Qed.

Lemma keep_valid_stream fs l :
  Forall valid_frame fs → partial_frame l → keep_valid (concat fs ++ l) = concat fs ++ l.
Proof.
  assert (Hv : ∀ f l, valid_frame f → keep_valid (f ++ l) = f ++ l).
  { intros f l' Hf. destruct (vf_magic f Hf) as (b & Hb & Hm).
    destruct f as [|b' f]; [done|]. cbn in Hb. simplify_eq. cbn [keep_valid app]. by rewrite Hm. }
  intros [|f fs' Hf _] Hl; cbn.
  - destruct Hl as [->|(f & l' & Hf & -> & _)]; [done|].
    destruct (vf_magic _ Hf) as (b & Hb & Hm). destruct l as [|b' l]; [done|].
    cbn in Hb. simplify_eq. cbn [keep_valid app]. by rewrite Hm.
  - rewrite <-app_assoc. by apply Hv.
Qed.

Lemma next_frame f fs l msg :
  Forall valid_frame (f :: fs) → partial_frame l →
  next (E:=E) (concat (f :: fs) ++ l) msg = Ok (res_ok, deliver f, concat fs ++ l).
Proof.
  intros Hfs Hl. assert (Hb : bytes_ok (concat (f :: fs) ++ l)).
  { apply Forall_app. split.
    - clear Hl. induction Hfs as [|g gs Hg _ IH]; [constructor|]. apply Forall_app. split; [apply Hg|done].
    - destruct Hl as [->|(g & l' & Hg & -> & _)]; [constructor|].
      pose proof (vf_bytes _ Hg) as Hb. by apply Forall_app in Hb as [? _]. }
  rewrite next_spec by done. apply Forall_cons in Hfs as [Hf Hfs]. destruct Hf as [Hfb Hfh Hfl Hfp Hfm].
  cbn [concat] in *. rewrite <-app_assoc in *. destruct (header_fields_app f (concat fs ++ l) Hfh) as (-> & -> & ->).
  rewrite !zsize_app. pose proof (zsize_nonneg (concat fs)). pose proof (zsize_nonneg l).
  rewrite decide_False by (unfold zsize in *; lia). rewrite !decide_False by lia.
  rewrite <-Hfl, zsize_to_nat, take_app_length, drop_app_length.
  by rewrite keep_valid_stream.
Qed.

Lemma drain_stream fs l n :
  Forall valid_frame fs → partial_frame l → (length fs < n)%nat →
  drain (E:=E) n (concat fs ++ l) = Ok (map deliver fs, read_again, l).
Proof.
  intros Hfs Hl. revert n. induction Hfs as [|f fs Hf Hfs IH]; intros n Hn;
    (destruct n as [|n]; [simpl in Hn; lia|]); cbn [drain].
  - destruct (next_partial l empty_message Hl) as (msg' & Hnext). cbn [concat app] in *. by rewrite Hnext.
  - rewrite next_frame by (done || by constructor). cbn [mbind outcome_bind].
    rewrite IH by (simpl in Hn; lia). done.
Qed.

(** A prefix of a stream is whole frames and the beginning of the next one. *)
Lemma stream_split fs (l l' : bytes) :
  Forall valid_frame fs → concat fs = l ++ l' →
  ∃ fs1 fs2 p p', fs = fs1 ++ fs2 ∧ l = concat fs1 ++ p ∧ partial_frame p ∧
    concat fs2 = p ++ p' ∧ p' = l'.
Proof.
  intros Hfs. revert l. induction Hfs as [|f fs Hf Hfs IH]; intros l Heq.
  { symmetry in Heq. apply app_nil in Heq as [-> ->]. exists [], [], [], []. by repeat split; left. }
  cbn [concat] in Heq. destruct (decide (length f ≤ length l)%nat) as [Hle|Hgt].
  - assert (f = take (length f) l) as Hft.
    { rewrite <-(take_app_le l l'), <-Heq by done. by rewrite take_app_length. }
    assert (Hl : l = f ++ drop (length f) l) by (rewrite Hft at 1; by rewrite take_drop).
    rewrite Hl, <-app_assoc in Heq. apply (inj (app f)) in Heq.
    destruct (IH _ Heq) as (fs1 & fs2 & p & p' & -> & Hd & Hp & Hc & ->).
    exists (f :: fs1), fs2, p, l'. split_and!; [done| |done|done|done].
    cbn [concat]. rewrite <-app_assoc, <-Hd. done.
  - assert (f = l ++ take (length f - length l) l') as Hft.
    { rewrite <-take_app_ge, <-Heq by lia. by rewrite take_app_length. }
    exists [], (f :: fs), l, l'. split_and!; try done.
    right. exists f, (take (length f - length l) l'). split_and!; [done|done|].
    intros Hnil. apply (f_equal length) in Hft. rewrite Hnil, app_nil_r in Hft. lia.
Qed.

Lemma concat_length_le fs : Forall valid_frame fs → (length fs ≤ length (concat fs))%nat.
Proof.
  induction 1 as [|f fs Hf _ IH]; [done|]. cbn. rewrite length_app.
  pose proof (vf_header f Hf). lia.
Qed.

Lemma read_all_stream chunks fs p :
  Forall valid_frame fs → partial_frame p → concat fs = p ++ concat chunks →
  read_all (E:=E) p chunks = Ok (map deliver fs, read_again, []).
Proof.
  revert fs p. induction chunks as [|chunk chunks IH]; intros fs p Hfs Hp Heq; cbn [read_all].
  - cbn in Heq. rewrite app_nil_r in Heq.
    assert (fs = [] ∧ p = []) as [-> ->]; [|done].
    assert (fs = []) as Hnil.
    { destruct Hp as [->|(f & l' & Hf & -> & Hne)].
      - destruct fs as [|f fs]; [done|]. apply Forall_cons in Hfs as [Hf _].
        cbn in Heq. apply app_nil in Heq as [-> _]. pose proof (vf_header [] Hf). simpl in *. lia.
      - destruct fs as [|g gs]; [done|]. exfalso. cbn in Heq. apply Forall_cons in Hfs as [Hg _].
        pose proof (vf_header _ Hg). pose proof (vf_length _ Hg) as Hgl.
        pose proof (vf_length _ Hf) as Hfl. rewrite <-Heq, <-app_assoc in Hfl.
        destruct (header_fields_app g (concat gs ++ l')) as (_ & _ & Hx); [done|].
        assert (0 < zsize l') by (destruct l'; [done|]; size_lia).
        rewrite Hx, <-Hgl, !zsize_app in Hfl. pose proof (zsize_nonneg (concat gs)). lia. }
    subst fs. by symmetry in Heq.
  - cbn [concat] in Heq. rewrite app_assoc in Heq.
    destruct (stream_split fs (p ++ chunk) (concat chunks) Hfs Heq)
      as (fs1 & fs2 & q & q' & -> & Hq & Hpart & Hrest & ->).
    apply Forall_app in Hfs as [Hfs1 Hfs2]. unfold on_read, feed. rewrite Hq.
    rewrite drain_stream; [|done|done|].
    2:{ pose proof (concat_length_le fs1 Hfs1). rewrite length_app. lia. }
    cbn [mbind outcome_bind]. rewrite (IH fs2 q) by done. cbn [mbind outcome_bind].
    by rewrite map_app.
Qed.
End streams.

(** ** Properties *)

(** The members are values of their types. *)
Record header_ok (h : binary_header) : Prop := {
  ho_magic : is_u8 (hdr_magic h);
  ho_opcode : is_u8 (hdr_opcode h);
  ho_keylen : is_u16 (hdr_keylen h);
  ho_extlen : is_u8 (hdr_extlen h);
  ho_datatype : is_u8 (hdr_datatype h);
  ho_specific : is_u16 (hdr_specific h);
  ho_bodylen : is_u32 (hdr_bodylen h);
  ho_opaque : is_u32 (hdr_opaque h);
  ho_cas : is_u64 (hdr_cas h);
}.

(** A message whose header describes its body. *)
Record message_ok (m : mcbp_message) : Prop := {
  mo_header : header_ok (msg_header m);
  mo_bytes : bytes_ok (msg_body m);
  mo_size : byte_swap32 (hdr_bodylen (msg_header m)) = zsize (msg_body m);
  mo_prefix : (prefix_sizes (msg_header m)).2 ≤ zsize (msg_body m);
}.

(** A message of the parser: the length that is announced has 32 bits, the
    inflated body may be longer. *)
Record delivered_ok (m : mcbp_message) : Prop := {
  do_header : header_ok (msg_header m);
  do_bytes : bytes_ok (msg_body m);
  do_size : byte_swap32 (hdr_bodylen (msg_header m)) = u32 (zsize (msg_body m));
  do_prefix : (prefix_sizes (msg_header m)).2 ≤ zsize (msg_body m);
}.

Lemma delivered_message_ok m : delivered_ok m → zsize (msg_body m) < 2 ^ 32 → message_ok m.
Proof. intros [Hh Hb Hs Hp] Hsize. split; try done. rewrite Hs. apply wrap_small. pose proof (zsize_nonneg (msg_body m)). width_lia. Qed.

(** The two functions of the library produce bytes. *)
Record snappy_typed `{Snappy} : Prop := {
  compress_typed : ∀ v, bytes_ok v → bytes_ok (snappy_compress v);
  uncompress_typed : ∀ raw v, snappy_uncompress raw = Some v → bytes_ok v;
}.

Section properties.
Context `{Snappy} {E : Type}.

Lemma byte_swap32_involutive v : is_u32 v → byte_swap32 (byte_swap32 v) = v.
Proof.
  intros Hv. pose proof (byte_swap32_store v Hv) as Hs.
  assert (Hb : bytes_ok (be_bytes 4 v)) by apply be_bytes_ok.
  assert (Hl : length (be_bytes 4 v) = 4%nat) by apply length_be_bytes.
  assert (Hle : byte_swap32 v = le_value (be_bytes 4 v)).
  { rewrite <-Hs. rewrite le_value_le_bytes; [done|].
    rewrite <-(be_value_be_bytes_small 4 v) by done.
    pose proof (byte_swap32_le (rev (be_bytes 4 v))) as Hr.
    unfold le_value in Hr. rewrite rev_involutive, be_value_be_bytes_small in Hr by done.
    rewrite be_value_be_bytes_small by done.
    rewrite Hr; [|by apply bytes_ok_rev|by rewrite length_rev].
    pose proof (be_value_bound (rev (be_bytes 4 v))) as Hbd.
    unfold zsize in Hbd. rewrite length_rev, length_be_bytes in Hbd.
    apply Hbd. by apply bytes_ok_rev. }
  rewrite Hle, byte_swap32_le by done. by rewrite be_value_be_bytes_small.
Qed.

Lemma prefix_len_bound f : bytes_ok f → prefix_len f < 2 ^ 17.
Proof.
  intros Hf. pose proof (λ i n, net_field_bound i n f Hf) as Hn.
  unfold prefix_len, framing_len, ext_len, key_len.
  pose proof (Hn 2 1)%nat. pose proof (Hn 3 1)%nat. pose proof (Hn 2 2)%nat. pose proof (Hn 4 1)%nat.
  destruct (has_framing f); lia.
Qed.

Lemma prefix_sizes_set_bodylen x h : prefix_sizes (set_bodylen x h) = prefix_sizes h.
Proof. done. Qed.

Lemma load_header_ok h : bytes_ok h → header_ok (load_header h).
Proof.
  intros Hh. assert (Hf : ∀ i n, 0 ≤ le_value (take n (drop i h)) < 256 ^ Z.of_nat n).
  { intros i n. assert (Hb : bytes_ok (take n (drop i h))) by by apply Forall_take, Forall_drop.
    pose proof (le_value_bound _ Hb) as [? Hhi]. split; [done|].
    eapply Z.lt_le_trans; [done|]. apply Z.pow_le_mono_r; [lia|]. rewrite zsize_take. lia. }
  constructor; apply Hf.
Qed.

Lemma byte_swap32_u32 v : is_u32 v → is_u32 (byte_swap32 v).
Proof.
  intros Hv. rewrite <-(le_value_le_bytes 4 v) by done.
  assert (Hb : bytes_ok (le_bytes 4 v)) by (apply bytes_ok_rev, be_bytes_ok).
  rewrite byte_swap32_le by (done || apply length_le_bytes).
  pose proof (be_value_bound _ Hb) as Hbd. unfold zsize in Hbd. by rewrite length_le_bytes in Hbd.
Qed.

Lemma deliver_ok f :
  snappy_typed → bytes_ok f → (24 ≤ length f)%nat → zsize f = frame_len f →
  prefix_len f ≤ body_len f → delivered_ok (deliver f).
Proof.
  intros Hs Hf Hh Hl Hp. destruct (load_header_fields f Hf Hh) as (_ & _ & Hbl & Hps).
  destruct (field_bounds f Hf) as [Hp0 Hb0]. pose proof (prefix_len_bound f Hf).
  assert (Hpre : zsize (take (Z.to_nat (prefix_len f)) (drop 24 f)) = prefix_len f).
  { rewrite zsize_take, zsize_drop. unfold frame_len in *. lia. }
  unfold deliver. set (raw := drop (Z.to_nat (prefix_len f)) (drop 24 f)).
  assert (Hraw : zsize raw = body_len f - prefix_len f).
  { unfold raw. rewrite !zsize_drop. unfold frame_len in *. lia. }
  assert (Hb24 : bytes_ok (drop 24 f)) by by apply Forall_drop.
  destruct (if has_flag _ _ then _ else _) as [v|] eqn:Hu; cbn [msg_header msg_body].
  - destruct (has_flag _ _); [|done]. pose proof (uncompress_typed Hs _ _ Hu) as Hv.
    pose proof (zsize_nonneg v). constructor; cbn [msg_header msg_body hdr_bodylen set_bodylen].
    + destruct (load_header_ok (take 24 f)) as []; [by apply Forall_take|]. constructor; try done.
      apply byte_swap32_u32, wrap_in_width. lia.
    + apply Forall_app. split; [by apply Forall_take|done].
    + rewrite byte_swap32_involutive by (apply wrap_in_width; lia). rewrite zsize_app. by rewrite Hpre.
    + rewrite prefix_sizes_set_bodylen, Hps, zsize_app. cbn. lia.
  - constructor; cbn [msg_header msg_body].
    + apply load_header_ok. by apply Forall_take.
    + apply Forall_app. split; [by apply Forall_take|by apply Forall_drop].
    + rewrite Hbl, zsize_app, wrap_small; [lia|]. pose proof (field_bounds f Hf). width_lia.
    + rewrite Hps, zsize_app. cbn. lia.
Qed.

(** C30: one step of the parser on arbitrary bytes, whatever the decompressor
    makes of them.  [next] returns without reading outside of its buffer: with
    too little data it keeps the buffer, on inconsistent lengths it fails and
    drops it; a message it delivers has framing extras, extras and key inside
    of its body, and the header announces the size of the body modulo 2^32
    (that is the size, unless the value was inflated to about four gigabytes);
    the bytes after the message stay unless they cannot start a frame. *)
Theorem parser_next_safe (buf : bytes) msg :
  bytes_ok buf → snappy_typed →
  ∃ res msg' buf', next (E:=E) buf msg = Ok (res, msg', buf') ∧
    match res with
    | res_need_data => buf' = buf ∧ (zsize buf < 24 ∨ zsize buf < frame_len buf)
    | res_failure => buf' = [] ∧ body_len buf < prefix_len buf
    | res_ok => delivered_ok msg' ∧ 24 ≤ frame_len buf ≤ zsize buf ∧
        buf' = keep_valid (drop (Z.to_nat (frame_len buf)) buf)
    end.
Proof.
  intros Hb Hs. rewrite next_spec by done. destruct (field_bounds buf Hb) as [Hp0 Hb0].
  repeat case_decide; do 3 eexists; (split; [done|]); cbn; try (split; [done|]; by auto).
  unfold frame_len in *. split_and!; try lia; try done.
  set (m := Z.to_nat (24 + body_len buf)).
  destruct (header_fields_take m buf) as (Hpl & Hbl & Hfl); [lia|].
  apply deliver_ok; [done|by apply Forall_take|rewrite length_take; unfold zsize in *; lia| |lia].
  unfold frame_len. rewrite Hbl, zsize_take. lia.
Qed.

(** C2: the parser does not depend on how the stream is cut.  When the bytes
    received are a sequence of valid frames, then however the socket splits
    them into reads, the handler gets exactly the messages of those frames,
    in order, each once; nothing is left in the buffer and the session keeps
    reading. *)
Theorem parser_chunking (frames chunks : list bytes) :
  Forall valid_frame frames → concat chunks = concat frames →
  read_all (E:=E) [] chunks = Ok (map deliver frames, read_again, []).
Proof. intros Hf Hc. apply read_all_stream; [done|by left|done]. Qed.
End properties.

(** ** Witnesses *)

Definition no_snappy : Snappy := {| snappy_uncompress := λ _, None; snappy_compress := id |}.

(** A response with framing extras, a key and a value; a server request. *)
Definition example_frame : bytes :=
  [0x18; 0; 3; 2; 4; 1; 0; 0] ++ [0; 0; 0; 11] ++ [0; 0; 0; 9] ++ replicate 8 1 ++
  [2; 16; 32; 0; 0; 0; 7; 65; 66; 123; 125].
Definition example_push : bytes := [0x82; 1; 0; 0; 0; 0; 0; 0] ++ replicate 16 0.

(** A stand-in that shrinks runs of one byte and inflates them again *)
Definition run_snappy : Snappy := {|
  snappy_uncompress := λ raw, match raw with [n] => Some (replicate (Z.to_nat n) 65) | _ => None end;
  snappy_compress := λ v, if decide (Forall (λ b, b = 65) v ∧ zsize v < 256) then [zsize v] else v
|}.

Lemma run_snappy_typed : snappy_typed (H:=run_snappy).
Proof.
  split; cbn.
  - intros v Hv. case_decide; [|done]. constructor; [|done]. pose proof (zsize_nonneg v). width_lia.
  - intros [|n []] v; [done| |done]. intros [= <-]. by apply Forall_replicate.
Qed.

(** A response with the compressed value [40], which stands for forty bytes *)
Definition compressed_frame : bytes :=
  [0x81; 0; 0; 0; 4; 2; 0; 0] ++ [0; 0; 0; 5] ++ [0; 0; 0; 9] ++ replicate 8 1 ++ [0; 0; 0; 7; 40].

Lemma parser_next_safe_witness :
  let _ := run_snappy in
  let buf := compressed_frame ++ [0x81] in
  zsize (msg_body (deliver compressed_frame)) = 44 ∧
  ∃ res msg' buf', next (E:=unit) buf empty_message = Ok (res, msg', buf') ∧
    match res with
    | res_need_data => buf' = buf ∧ (zsize buf < 24 ∨ zsize buf < frame_len buf)
    | res_failure => buf' = [] ∧ body_len buf < prefix_len buf
    | res_ok => delivered_ok msg' ∧ 24 ≤ frame_len buf ≤ zsize buf ∧
        buf' = keep_valid (drop (Z.to_nat (frame_len buf)) buf)
    end.
Proof.
  intros D buf. split; [by vm_compute|]. apply (parser_next_safe buf empty_message);
    [apply (bool_decide_unpack _); vm_compute; exact I|apply run_snappy_typed].
Defined.

Lemma parser_chunking_witness :
  let _ := no_snappy in
  read_all (E:=unit) [] (map (λ b, [b]) (example_frame ++ example_push)) =
    Ok (map deliver [example_frame; example_push], read_again, []).
Proof.
  intros D. apply (parser_chunking [example_frame; example_push]); [|done].
  repeat constructor;
    first [apply (bool_decide_unpack _); vm_compute; exact I | by vm_compute
          | eexists; split; [reflexivity|done] | vm_compute; lia].
Defined.
