(* ===== verification/ClientRequest.v ===== *)
(** * Requests of the key-value client: [core/protocol/client_request.hxx]

    The class template [client_request<Body>] builds the bytes of a request
    from the accessors of its body.  Also here: the document identifier with
    its protocol key ([core/document_id.cxx]) and the helpers that append
    framing extras ([core/protocol/frame_info_utils.cxx]). *)

From S2P Require Import Prelude ByteOrder Protocol BufferWriter Leb128 Packet Codec CodecProofs CodecTheorems McbpParser.

(** ** Document identifiers *)

Record document_id := DocumentId {
  id_bucket : bytes;
  id_scope : bytes;
  id_collection : bytes;
  id_key : bytes;
  id_collection_path : bytes;
  id_collection_uid : option Z;
  id_use_collections : bool;
}.

(** Characters of the fixed names, as bytes. *)
Definition ascii_dot : Z := 46.
Definition default_name : bytes := [95; 100; 101; 102; 97; 117; 108; 116].

Definition compile_collection_path (scope collection : bytes) : bytes :=
  scope ++ ascii_dot :: collection.

(** The two constructors *)
Definition document_id_of_key (bucket key : bytes) : document_id :=
  DocumentId bucket [] [] key [] None false.
Definition document_id_in (bucket scope collection key : bytes) : document_id :=
  DocumentId bucket scope collection key (compile_collection_path scope collection) None true.

Definition has_default_collection (id : document_id) : bool :=
  negb (id_use_collections id) ||
  bool_decide (id_collection_path id = compile_collection_path default_name default_name).

Section requests.
Context `{Snappy} {E : Type}.

Definition make_protocol_key (id : document_id) : outcome E bytes :=
  match id_collection_uid id with
  | Some uid =>
      encoded ← unsigned_leb128 32 uid;
      Ok (leb_encoded encoded ++ id_key id)
  | None => Ok (id_key id)
  end.

(** ** [frame_info_utils.cxx] *)

Definition frame_info_byte (frame_id frame_size : Z) : Z :=
  Z.lor (u8 (Z.shiftl frame_id 4)) frame_size.

Definition add_durability_frame_info (framing_extras : bytes) (level : Z) (timeout : option Z) :
    outcome E bytes :=
  let frame_id := request_sync_durability in
  let extras_old_size := zsize framing_extras in
  match timeout with
  | Some t =>
      let frame_size := 3 in
      let fe := resize_to (extras_old_size + 1 + frame_size) 0 framing_extras in
      fe ← store_range fe (extras_old_size + 0) [frame_info_byte frame_id frame_size];
      fe ← store_range fe (extras_old_size + 1) [u8 level];
      store_range fe (extras_old_size + 2) (le_bytes 2 (byte_swap16 t))
  | None =>
      let frame_size := 1 in
      let fe := resize_to (extras_old_size + 1 + frame_size) 0 framing_extras in
      fe ← store_range fe (extras_old_size + 0) [frame_info_byte frame_id frame_size];
      store_range fe (extras_old_size + 1) [u8 level]
  end.

Definition add_preserve_expiry_frame_info (framing_extras : bytes) : outcome E bytes :=
  let extras_old_size := zsize framing_extras in
  let fe := resize_to (extras_old_size + 1) 0 framing_extras in
  store_range fe (extras_old_size + 0) [frame_info_byte request_preserve_expiry 0].

(** ** [client_request] *)

(** What the template uses of its body: the accessors, after [size()] has
    filled the extras and the value. *)
Record request_body := RequestBody {
  rb_key : bytes;
  rb_framing_extras : bytes;
  rb_extras : bytes;
  rb_value : bytes;
}.

Definition body_size (b : request_body) : Z :=
  zsize (rb_framing_extras b) + zsize (rb_extras b) + zsize (rb_key b) + zsize (rb_value b).

Record client_request := ClientRequest {
  rq_magic : Z;
  rq_opcode : Z;
  rq_partition : Z;
  rq_opaque : Z;
  rq_cas : Z;
  rq_datatype : Z;
  rq_body : request_body;
}.

(** A default-constructed request for a body of the given opcode. *)
Definition make_request (opcode : ClientOpcode.client_opcode) (b : request_body) : client_request :=
  ClientRequest (enum_code Magic.client_request) (enum_code opcode) 0 0 0 datatype_raw b.

(** The setters [opaque], [cas] (both store swapped), [partition], [datatype]. *)
Definition rq_set_opaque (v : Z) (r : client_request) : client_request :=
  ClientRequest (rq_magic r) (rq_opcode r) (rq_partition r) (byte_swap32 v) (rq_cas r)
    (rq_datatype r) (rq_body r).
Definition rq_set_cas (v : Z) (r : client_request) : client_request :=
  ClientRequest (rq_magic r) (rq_opcode r) (rq_partition r) (rq_opaque r) (byte_swap64 v)
    (rq_datatype r) (rq_body r).
Definition rq_set_partition (v : Z) (r : client_request) : client_request :=
  ClientRequest (rq_magic r) (rq_opcode r) v (rq_opaque r) (rq_cas r) (rq_datatype r) (rq_body r).
Definition rq_set_datatype (v : Z) (r : client_request) : client_request :=
  ClientRequest (rq_magic r) (rq_opcode r) (rq_partition r) (rq_opaque r) (rq_cas r) v (rq_body r).

(** [compress_value]: the ratio is compared with 0.83. *)
Definition compress_value (value : bytes) : option bytes :=
  let compressed := snappy_compress value in
  if decide (100 * zsize compressed < 83 * zsize value) then Some compressed else None.

(** The first 24 bytes; the magic is upgraded when there are framing extras. *)
Definition write_request_header (r : client_request) (payload : bytes) : outcome E bytes :=
  let b := rq_body r in
  let framing_extras := rb_framing_extras b in
  payload ← store_range payload 0 [u8 (rq_magic r)];
  payload ← store_range payload 1 [u8 (rq_opcode r)];
  let key_size := u16 (zsize (rb_key b)) in
  payload ←
    (if decide (zsize framing_extras = 0) then
       store_range payload 2 (le_bytes 2 (byte_swap16 key_size))
     else
       payload ← store_range payload 0 [u8 (enum_code Magic.alt_client_request)];
       payload ← store_range payload 2 [u8 (zsize framing_extras)];
       store_range payload 3 [u8 key_size]);
  payload ← store_range payload 4 (le_bytes 1 (u8 (zsize (rb_extras b))));
  payload ← store_range payload 5 [u8 (rq_datatype r)];
  payload ← store_range payload 6 (le_bytes 2 (byte_swap16 (u16 (rq_partition r))));
  payload ← store_range payload 8 (le_bytes 4 (byte_swap32 (u32 (body_size b))));
  payload ← store_range payload 12 (le_bytes 4 (rq_opaque r));
  store_range payload 16 (le_bytes 8 (rq_cas r)).

(** [generate_payload] *)
Definition generate_payload (r : client_request) (try_to_compress : bool) : outcome E bytes :=
  let b := rq_body r in
  let payload := replicate (Z.to_nat (24 + body_size b)) 0 in
  payload ← write_request_header r payload;
  let body_itr := 24 in
  payload ← (if decide (0 < zsize (rb_framing_extras b))
             then store_range payload body_itr (rb_framing_extras b) else Ok payload);
  let body_itr := body_itr + zsize (rb_framing_extras b) in
  payload ← store_range payload body_itr (rb_extras b);
  let body_itr := body_itr + zsize (rb_extras b) in
  payload ← store_range payload body_itr (rb_key b);
  let body_itr := body_itr + zsize (rb_key b) in
  match (if try_to_compress && bool_decide (32 < zsize (rb_value b))
         then compress_value (rb_value b) else None) with
  | Some compressed =>
      payload ← store_range payload body_itr compressed;
      flags ← at_ payload 5;
      payload ← store_range payload 5 [Z.lor flags datatype_snappy];
      let new_body_size :=
        u32 (byte_swap32 (byte_swap32 (u32 (body_size b))) - u32 (zsize (rb_value b)) +
             u32 (zsize compressed)) in
      let payload := resize_to (24 + new_body_size) 0 payload in
      store_range payload 8 (le_bytes 4 (byte_swap32 new_body_size))
  | None => store_range payload body_itr (rb_value b)
  end.

(** [data(try_to_compress)]: only the storing commands are compressed. *)
Definition request_data (r : client_request) (try_to_compress : bool) : outcome E bytes :=
  if is_one_of (rq_opcode r) [ClientOpcode.insert; ClientOpcode.upsert; ClientOpcode.replace]
  then generate_payload r try_to_compress
  else generate_payload r false.
End requests.

(** ** The bytes of a request *)

(** A buffer filled from the front: the next store takes the place of zeros. *)
Lemma store_append {E} (l v : bytes) n i :
  i = zsize l → (length v ≤ n)%nat →
  store_range (E:=E) (l ++ replicate n 0) i v = Ok ((l ++ v) ++ replicate (n - length v) 0).
Proof.
  intros Hi Hn. replace n with (length v + (n - length v))%nat at 1 by lia.
  rewrite replicate_add, store_range_app by (done || by rewrite length_replicate).
  by rewrite <-app_assoc.
Qed.

Lemma resize_append (l : bytes) n : resize_to (zsize l + Z.of_nat n) 0 l = l ++ replicate n 0.
Proof.
  unfold resize_to. replace (Z.to_nat (zsize l + Z.of_nat n)) with (length l + n)%nat by (unfold zsize; lia).
  rewrite resize_spec, take_ge by lia. f_equal. f_equal. lia.
Qed.

Lemma resize_prefix (l z : bytes) n : n = zsize l → resize_to n 0 (l ++ z) = l.
Proof.
  intros ->. unfold resize_to. rewrite zsize_to_nat, resize_le by (rewrite length_app; lia).
  by rewrite take_app_length.
Qed.

Section layout.
Context `{Snappy} {E : Type}.

Lemma add_durability_frame_info_spec fe level timeout :
  is_u8 level → (∀ t, timeout = Some t → is_u16 t) →
  add_durability_frame_info (E:=E) fe level timeout =
    Ok (fe ++ frame_bytes request_sync_durability (durability_payload timeout level)).
Proof.
  intros Hl Ht. unfold add_durability_frame_info, durability_payload, frame_bytes. rewrite !Z.add_0_r.
  destruct timeout as [t|].
  - specialize (Ht t eq_refl). rewrite zsize_cons, zsize_be_bytes, decide_True by lia.
    replace (zsize fe + 1 + 3) with (zsize fe + Z.of_nat 4) by lia. rewrite resize_append.
    rewrite store_append by (done || simpl; lia). cbn [mbind outcome_bind].
    rewrite store_append by (size_lia || simpl; lia). cbn [mbind outcome_bind].
    rewrite byte_swap16_store by done.
    rewrite store_append by (size_lia || rewrite length_be_bytes; simpl; lia).
    rewrite length_be_bytes, Z.min_l by width_lia. rewrite (wrap_small 8) by done.
    rewrite <-!app_assoc. cbn [app replicate Nat.sub length]. by rewrite app_nil_r.
  - change (zsize [level]) with 1. rewrite decide_True by lia.
    replace (zsize fe + 1 + 1) with (zsize fe + Z.of_nat 2) by lia. rewrite resize_append.
    rewrite store_append by (done || simpl; lia). cbn [mbind outcome_bind].
    rewrite store_append by (size_lia || simpl; lia). rewrite (wrap_small 8) by done.
    rewrite <-!app_assoc. done.
Qed.

Lemma add_preserve_expiry_frame_info_spec fe :
  add_preserve_expiry_frame_info (E:=E) fe = Ok (fe ++ frame_bytes request_preserve_expiry []).
Proof.
  unfold add_preserve_expiry_frame_info. rewrite Z.add_0_r.
  change 1 with (Z.of_nat 1) at 1. rewrite resize_append, store_append by (done || simpl; lia).
  cbn [replicate Nat.sub length]. by rewrite app_nil_r.
Qed.

Definition request_header (r : client_request) : bytes :=
  let b := rq_body r in
  (if decide (zsize (rb_framing_extras b) = 0)
   then [u8 (rq_magic r); u8 (rq_opcode r)] ++ be_bytes 2 (u16 (zsize (rb_key b)))
   else [enum_code Magic.alt_client_request; u8 (rq_opcode r);
         u8 (zsize (rb_framing_extras b)); u8 (u16 (zsize (rb_key b)))]) ++
  [u8 (zsize (rb_extras b)); u8 (rq_datatype r)] ++ be_bytes 2 (u16 (rq_partition r)) ++
  be_bytes 4 (u32 (body_size b)) ++ le_bytes 4 (rq_opaque r) ++ le_bytes 8 (rq_cas r).

Definition request_wire (r : client_request) : bytes :=
  let b := rq_body r in
  request_header r ++ rb_framing_extras b ++ rb_extras b ++ rb_key b ++ rb_value b.

Lemma length_request_header r : length (request_header r) = 24%nat.
Proof.
  unfold request_header. rewrite !length_app, !length_be_bytes, !length_le_bytes.
  case_decide; rewrite ?length_app, ?length_be_bytes; simpl; lia.
Qed.

Lemma body_size_nonneg b : 0 ≤ body_size b.
Proof. unfold body_size. size_lia. Qed.

Lemma write_request_header_spec r n :
  write_request_header (E:=E) r (replicate (24 + n) 0) = Ok (request_header r ++ replicate n 0).
Proof.
  unfold write_request_header.
  rewrite (store_append [] _ (24 + n)) by (done || simpl; lia). cbn [mbind outcome_bind].
  rewrite store_append by (done || simpl; lia). cbn [mbind outcome_bind].
  set (b := rq_body r). cbn [app length].
  assert (Hks : (if decide (zsize (rb_framing_extras b) = 0) then
      store_range (E:=E) ([u8 (rq_magic r); u8 (rq_opcode r)] ++ replicate (24 + n - 1 - 1) 0) 2
        (le_bytes 2 (byte_swap16 (u16 (zsize (rb_key b)))))
    else
      payload ← store_range ([u8 (rq_magic r); u8 (rq_opcode r)] ++ replicate (24 + n - 1 - 1) 0) 0
        [u8 (enum_code Magic.alt_client_request)];
      payload ← store_range payload 2 [u8 (zsize (rb_framing_extras b))];
      store_range payload 3 [u8 (u16 (zsize (rb_key b)))]) =
    Ok ((if decide (zsize (rb_framing_extras b) = 0)
      then [u8 (rq_magic r); u8 (rq_opcode r)] ++ be_bytes 2 (u16 (zsize (rb_key b)))
      else [enum_code Magic.alt_client_request; u8 (rq_opcode r);
         u8 (zsize (rb_framing_extras b)); u8 (u16 (zsize (rb_key b)))]) ++ replicate (20 + n) 0)).
  { case_decide.
    - rewrite byte_swap16_store by (apply wrap_in_width; lia).
      rewrite store_append by (done || rewrite length_be_bytes; simpl; lia).
      rewrite length_be_bytes. done.
    - pose proof (store_range_app (E:=E) [] [u8 (rq_magic r)]
        (u8 (rq_opcode r) :: replicate (24 + n - 1 - 1) 0)
        [u8 (enum_code Magic.alt_client_request)] 0 eq_refl eq_refl) as Hs.
      cbn [app] in *. rewrite Hs. cbn [mbind outcome_bind].
      change (u8 (enum_code Magic.alt_client_request)) with (enum_code Magic.alt_client_request).
      pose proof (store_append (E:=E) [enum_code Magic.alt_client_request; u8 (rq_opcode r)]) as Ha.
      cbn [app] in Ha. rewrite Ha by (done || simpl; lia). cbn [mbind outcome_bind app].
      clear Ha. pose proof (store_append (E:=E) [enum_code Magic.alt_client_request; u8 (rq_opcode r);
        u8 (zsize (rb_framing_extras b))]) as Ha.
      cbn [app] in Ha. rewrite Ha by (done || simpl; lia). done. }
  cbn [app] in Hks. rewrite Hks. cbn [mbind outcome_bind]. clear Hks.
  unfold request_header. fold b.
  set (h4 := if decide _ then _ else _).
  assert (Hh4 : zsize h4 = 4).
  { unfold h4. case_decide; cbn [app]; rewrite ?zsize_cons, ?zsize_be_bytes, ?zsize_nil; done. }
  rewrite !byte_swap16_store, byte_swap32_store by (apply wrap_in_width; lia).
  assert (Hle1 : le_bytes 1 (u8 (zsize (rb_extras b))) = [u8 (zsize (rb_extras b))]).
  { unfold le_bytes. cbn [be_bytes rev app]. rewrite Z.mul_0_r, Z.div_1_r. by rewrite wrap_wrap by lia. }
  rewrite Hle1.
  repeat (rewrite store_append;
    [|rewrite ?zsize_app, ?Hh4, ?zsize_be_bytes; unfold zsize; rewrite ?length_le_bytes; done
     |rewrite ?length_be_bytes, ?length_le_bytes; simpl; lia];
    cbn [mbind outcome_bind]).
  rewrite !length_be_bytes, !length_le_bytes, <-!app_assoc. cbn [length].
  by replace (20 + n - 1 - 1 - 2 - 4 - 4 - 8)%nat with n by lia.
Qed.

(** Header, framing extras, extras and key have been written; what follows
    depends on compression. *)
Lemma payload_prefix r :
  let b := rq_body r in
  let prefix := request_header r ++ rb_framing_extras b ++ rb_extras b ++ rb_key b in
  (payload ← write_request_header r (replicate (Z.to_nat (24 + body_size b)) 0);
   payload ← (if decide (0 < zsize (rb_framing_extras b))
              then store_range payload 24 (rb_framing_extras b) else Ok payload);
   payload ← store_range payload (24 + zsize (rb_framing_extras b)) (rb_extras b);
   store_range payload (24 + zsize (rb_framing_extras b) + zsize (rb_extras b)) (rb_key b)) =
  Ok (E:=E) (prefix ++ replicate (length (rb_value b)) 0).
Proof.
  intros b prefix. pose proof (body_size_nonneg b).
  replace (Z.to_nat (24 + body_size b)) with (24 + Z.to_nat (body_size b))%nat by lia.
  rewrite write_request_header_spec. cbn [mbind outcome_bind].
  assert (Hh : zsize (request_header r) = 24) by (unfold zsize; by rewrite length_request_header).
  unfold body_size in *.
  assert (Hfe : (if decide (0 < zsize (rb_framing_extras b))
     then store_range (E:=E) (request_header r ++ replicate (Z.to_nat (body_size b)) 0) 24 (rb_framing_extras b)
     else Ok (request_header r ++ replicate (Z.to_nat (body_size b)) 0)) =
    Ok ((request_header r ++ rb_framing_extras b) ++
        replicate (Z.to_nat (body_size b) - length (rb_framing_extras b)) 0)).
  { unfold body_size. case_decide.
    - rewrite store_append by (done || unfold zsize; lia). done.
    - destruct (rb_framing_extras b) as [|x l]; [|size_lia].
      rewrite app_nil_r. cbn [length]. by rewrite Nat.sub_0_r. }
  unfold body_size in Hfe. rewrite Hfe. cbn [mbind outcome_bind].
  rewrite store_append by (size_lia || unfold zsize; lia). cbn [mbind outcome_bind].
  rewrite store_append by (size_lia || unfold zsize; lia).
  unfold prefix. rewrite <-!app_assoc. do 6 f_equal. unfold zsize. lia.
Qed.

Lemma payload_prefix_bind r (k : bytes → outcome E bytes) :
  let b := rq_body r in
  (payload ← write_request_header r (replicate (Z.to_nat (24 + body_size b)) 0);
   payload ← (if decide (0 < zsize (rb_framing_extras b))
              then store_range payload 24 (rb_framing_extras b) else Ok payload);
   payload ← store_range payload (24 + zsize (rb_framing_extras b)) (rb_extras b);
   payload ← store_range payload (24 + zsize (rb_framing_extras b) + zsize (rb_extras b)) (rb_key b);
   k payload) =
  k ((request_header r ++ rb_framing_extras b ++ rb_extras b ++ rb_key b) ++
     replicate (length (rb_value b)) 0).
Proof.
  pose proof (payload_prefix r) as Hp. cbv zeta in Hp |- *.
  apply bind_Ok in Hp as (p1 & -> & Hp). cbn [mbind outcome_bind].
  apply bind_Ok in Hp as (p2 & Hp2 & Hp). rewrite Hp2. cbn [mbind outcome_bind].
  apply bind_Ok in Hp as (p3 & -> & Hp). cbn [mbind outcome_bind]. by rewrite Hp.
Qed.

Lemma zsize_payload_prefix r :
  zsize (request_header r ++ rb_framing_extras (rq_body r) ++ rb_extras (rq_body r) ++ rb_key (rq_body r)) =
  24 + zsize (rb_framing_extras (rq_body r)) + zsize (rb_extras (rq_body r)) + zsize (rb_key (rq_body r)).
Proof. rewrite !zsize_app. unfold zsize at 1. rewrite length_request_header. lia. Qed.

Lemma generate_payload_plain r : generate_payload (E:=E) r false = Ok (request_wire r).
Proof.
  unfold generate_payload. cbn [andb]. rewrite payload_prefix_bind.
  rewrite store_append by (rewrite ?zsize_payload_prefix; lia).
  rewrite Nat.sub_diag. cbn [replicate]. rewrite app_nil_r. unfold request_wire. by rewrite <-!app_assoc.
Qed.

(** The request that carries an already compressed value. *)
Definition with_compressed (r : client_request) (v : bytes) : client_request :=
  ClientRequest (rq_magic r) (rq_opcode r) (rq_partition r) (rq_opaque r) (rq_cas r)
    (Z.lor (u8 (rq_datatype r)) datatype_snappy)
    (RequestBody (rb_key (rq_body r)) (rb_framing_extras (rq_body r)) (rb_extras (rq_body r)) v).

(** The header around the two fields that compression patches. *)
Lemma request_header_split r :
  ∃ h5 h12, length h5 = 5%nat ∧ ∀ v,
    request_header r =
      h5 ++ [u8 (rq_datatype r)] ++ be_bytes 2 (u16 (rq_partition r)) ++
      be_bytes 4 (u32 (body_size (rq_body r))) ++ h12 ∧
    request_header (with_compressed r v) =
      h5 ++ [u8 (Z.lor (u8 (rq_datatype r)) datatype_snappy)] ++ be_bytes 2 (u16 (rq_partition r)) ++
      be_bytes 4 (u32 (body_size (rq_body (with_compressed r v)))) ++ h12.
Proof.
  exists ((if decide (zsize (rb_framing_extras (rq_body r)) = 0)
   then [u8 (rq_magic r); u8 (rq_opcode r)] ++ be_bytes 2 (u16 (zsize (rb_key (rq_body r))))
   else [enum_code Magic.alt_client_request; u8 (rq_opcode r);
         u8 (zsize (rb_framing_extras (rq_body r))); u8 (u16 (zsize (rb_key (rq_body r))))]) ++
    [u8 (zsize (rb_extras (rq_body r)))]), (le_bytes 4 (rq_opaque r) ++ le_bytes 8 (rq_cas r)).
  split; [by case_decide|]. intros v. unfold request_header. cbn [rq_body with_compressed rb_framing_extras].
  split; by rewrite <-app_assoc.
Qed.

Lemma generate_payload_compressed r v :
  32 < zsize (rb_value (rq_body r)) → compress_value (rb_value (rq_body r)) = Some v →
  body_size (rq_body r) < 2 ^ 32 →
  generate_payload (E:=E) r true = Ok (request_wire (with_compressed r v)).
Proof.
  intros Hsz Hc Hb. unfold generate_payload. rewrite bool_decide_true by done. cbn [andb]. rewrite Hc.
  assert (Hv : zsize v < zsize (rb_value (rq_body r))).
  { unfold compress_value in Hc. case_decide; simplify_eq. lia. }
  rewrite payload_prefix_bind.
  rewrite store_append by (rewrite ?zsize_payload_prefix; unfold zsize in *; lia). cbn [mbind outcome_bind].
  destruct (request_header_split r) as (h5 & h12 & Hh5 & Hsplit). destruct (Hsplit v) as [Hr Hr'].
  assert (Hz5 : 5 = zsize h5) by (unfold zsize; by rewrite Hh5).
  unfold request_wire. rewrite Hr, Hr'. rewrite <-!app_assoc.
  rewrite Hz5. cbn [app]. rewrite at_app_0. cbn [mbind outcome_bind].
  pose proof (λ l, store_range_app (E:=E) h5 [u8 (rq_datatype r)] l
    [Z.lor (u8 (rq_datatype r)) datatype_snappy] (zsize h5) eq_refl eq_refl) as Hst.
  cbn [app] in Hst. rewrite Hst. cbn [mbind outcome_bind].
  pose proof (body_size_nonneg (rq_body (with_compressed r v))) as Hn0.
  pose proof (body_size_nonneg (rq_body r)) as Hb0.
  assert (Hnew : body_size (rq_body (with_compressed r v)) =
    body_size (rq_body r) - zsize (rb_value (rq_body r)) + zsize v) by (unfold body_size; cbn; lia).
  assert (Hval : zsize (rb_value (rq_body r)) ≤ body_size (rq_body r)) by (unfold body_size; size_lia).
  rewrite byte_swap32_involutive by (apply wrap_in_width; lia).
  pose proof (zsize_nonneg v).
  rewrite !(wrap_small 32) by width_lia. rewrite <-Hnew.
  set (flag := Z.lor (u8 (rq_datatype r)) datatype_snappy).
  assert (Hflag : u8 flag = flag).
  { apply wrap_small. unfold flag. apply lor_in_width; [lia|apply wrap_in_width; lia|done]. }
  rewrite Hflag. cbn [app].
  set (mid := flag :: be_bytes 2 (u16 (rq_partition r))).
  set (tail := h12 ++ rb_framing_extras (rq_body r) ++ rb_extras (rq_body r) ++ rb_key (rq_body r) ++ v).
  replace (h5 ++ flag :: _) with (((h5 ++ mid) ++ be_bytes 4 (body_size (rq_body r)) ++ tail) ++
    replicate (length (rb_value (rq_body r)) - length v) 0)
    by (unfold mid, tail; by rewrite <-!app_assoc).
  rewrite resize_prefix.
  2:{ unfold tail, mid. rewrite !zsize_app, zsize_cons, !zsize_be_bytes, <-Hz5.
      assert (zsize h12 = 12).
      { pose proof (length_request_header r) as Hl. rewrite Hr in Hl.
        rewrite !length_app, !length_be_bytes, Hh5 in Hl. unfold zsize. simpl in Hl. lia. }
      unfold body_size. cbn. lia. }
  rewrite byte_swap32_store by width_lia.
  rewrite store_range_app; [|unfold mid; rewrite zsize_app, zsize_cons, zsize_be_bytes; lia
                            |by rewrite !length_be_bytes].
  unfold mid, tail. by rewrite <-!app_assoc.
Qed.

(** Compression never leaves the buffer. *)
Lemma request_data_ok r b : ∃ w, request_data (E:=E) r b = Ok w.
Proof.
  assert (Hgen : ∀ b, ∃ w, generate_payload (E:=E) r b = Ok w).
  { clear b. intros b. destruct (b && bool_decide (32 < zsize (rb_value (rq_body r)))) eqn:Hb.
    2:{ exists (request_wire r). rewrite <-generate_payload_plain. unfold generate_payload. by rewrite Hb. }
    destruct (compress_value (rb_value (rq_body r))) as [v|] eqn:Hv.
    2:{ exists (request_wire r). rewrite <-generate_payload_plain. unfold generate_payload. by rewrite Hb, Hv. }
    unfold generate_payload. rewrite Hb, Hv. rewrite payload_prefix_bind.
    assert (Hlen : zsize v < zsize (rb_value (rq_body r))) by (unfold compress_value in Hv; case_decide; simplify_eq; size_lia).
    rewrite store_append by (rewrite ?zsize_payload_prefix; unfold zsize in *; lia). cbn [mbind outcome_bind].
    set (l := _ ++ replicate _ 0). assert (Hl : 24 ≤ zsize l).
    { unfold l. rewrite !zsize_app. unfold zsize at 1. rewrite length_request_header. size_lia. }
    destruct (at_in_range (E:=E) l 5) as (x & -> & _); [lia|]. cbn [mbind outcome_bind].
    assert (Hst : ∀ (l v : bytes) i, 0 ≤ i → i + zsize v ≤ zsize l → ∃ l', store_range (E:=E) l i v = Ok l').
    { intros l' v' i Hi0 Hi. unfold store_range. rewrite decide_True by done. by eexists. }
    destruct (Hst l [Z.lor x datatype_snappy] 5) as [l' ->]; [lia|rewrite zsize_cons, zsize_nil; lia|]. cbn [mbind outcome_bind].
    apply Hst; [lia|]. unfold resize_to. set (z := u32 _). assert (0 ≤ z) by (apply wrap_in_width; lia).
    unfold zsize. rewrite length_resize, length_le_bytes. lia. }
  unfold request_data. case_match; apply Hgen.
Qed.

End layout.

(** ** Properties *)

Lemma make_protocol_key_sent `{ServerDuration} {E} (c : codec) (p : packet) id :
  well_typed p → collection_in_key c p = has (id_collection_uid id) →
  (∀ uid, id_collection_uid id = Some uid → uid = collection_id_ p) → id_key id = key_ p →
  make_protocol_key id = Ok (E:=E) (sent_key c p).
Proof.
  intros Hw Hcol Huid Hkey. unfold make_protocol_key, sent_key. rewrite Hcol, Hkey.
  destruct (id_collection_uid id) as [uid|]; [|done]. cbn [has].
  rewrite (Huid uid eq_refl).
  destruct (unsigned_leb128_spec (E:=E) 32 (collection_id_ p)) as (enc & -> & Henc & _);
    [by left|apply Hw|]. cbn [mbind outcome_bind]. by rewrite Henc.
Qed.

Section properties.
Context `{ServerDuration} `{Snappy} {E : Type}.
Implicit Types (c : codec) (p : packet).

(** What a send of a storing operation appends to the framing extras:
    [encode_to] the frame of the expiry, and then [mcbp_command::send] that of
    the durability. *)
Definition operation_frames (fe : bytes) (level timeout : option Z) (preserve : option unit) : outcome E bytes :=
  fe ← match preserve with
       | Some _ => add_preserve_expiry_frame_info fe
       | None => Ok fe
       end;
  match level with
  | Some l => add_durability_frame_info fe l timeout
  | None => Ok fe
  end.

Definition frames_sent p : list (Z * bytes) :=
  opt_frame request_preserve_expiry (λ _, []) (preserve_expiry_frame_ p) ++
  opt_frame request_sync_durability (durability_payload (durability_timeout_frame_ p)) (durability_level_frame_ p).

(** The request an operation sends for the contents of a packet. *)
Definition operation_request p (key fe extras : bytes) : client_request :=
  rq_set_cas (cas_ p) (rq_set_opaque (opaque_ p) (rq_set_partition (vbucket_ p)
    (rq_set_datatype (datatype_ p)
      (ClientRequest (enum_code Magic.client_request) (command_ p) 0 0 0 datatype_raw
        (RequestBody key fe extras (value_ p)))))).

(** Only frames a key-value operation uses. *)
Record operation_packet p : Prop := {
  op_request : is_request p = true;
  op_barrier : barrier_frame_ p = None;
  op_stream : stream_id_frame_ p = None;
  op_tracing : open_tracing_frame_ p = None;
  op_user : user_impersonation_frame_ p = None;
  op_timeout : ∀ t, durability_timeout_frame_ p = Some t → is_u16 t;
}.

Lemma operation_frames_spec p fe :
  well_typed p → operation_packet p →
  operation_frames fe (durability_level_frame_ p) (durability_timeout_frame_ p) (preserve_expiry_frame_ p) =
  Ok (fe ++ frames_bytes (frames_sent p)).
Proof.
  intros Hw [Hreq Hb Hs Ht Hu Hto]. unfold operation_frames, frames_sent.
  rewrite frames_bytes_app, !frames_bytes_opt.
  destruct (preserve_expiry_frame_ p) as [[]|].
  - rewrite add_preserve_expiry_frame_info_spec. cbn [mbind outcome_bind].
    destruct (durability_level_frame_ p) as [l|] eqn:Hl; [|by rewrite app_nil_r].
    rewrite add_durability_frame_info_spec by (done || by apply (wt_level p Hw)). by rewrite <-app_assoc.
  - cbn [mbind outcome_bind app]. destruct (durability_level_frame_ p) as [l|] eqn:Hl; [|by rewrite app_nil_r].
    by rewrite add_durability_frame_info_spec by (done || by apply (wt_level p Hw)).
Qed.

(** The codec writes the two frames in the other order. *)
Lemma frames_sent_wire c p :
  accepted c p → operation_packet p →
  durability_level_frame_ p = None ∨ preserve_expiry_frame_ p = None → frames_sent p = wire_frames c p.
Proof.
  intros Ha [Hreq Hb Hs Ht Hu Hto] Hone. unfold frames_sent, wire_frames.
  destruct (acc_request c p Ha Hreq) as [_ Hsd]. rewrite Hb, Hs, Ht, Hu, Hsd.
  replace (if is_feature_enabled c HelloFeature.tracing then [] else _) with (@nil (Z * bytes))
    by by case_match.
  cbn [opt_frame app]. destruct Hone as [->| ->]; cbn [opt_frame app]; by rewrite ?app_nil_r.
Qed.

Lemma request_wire_packet c p :
  transmissible c p → operation_packet p →
  request_wire (operation_request p (sent_key c p) (frames_bytes (wire_frames c p)) (sent_extras c p)) =
  wire_packet c p (sent_key c p) (sent_extras c p).
Proof.
  intros [Ha Hw Hl Had Hc Hd Hf] Hop.
  pose proof (counted_frames_length c p Hc) as Hfl. pose proof (frames_length_nonneg p).
  unfold request_wire, wire_packet. cbn [rq_body operation_request rq_set_cas rq_set_opaque
    rq_set_partition rq_set_datatype rb_framing_extras rb_extras rb_key rb_value]. f_equal.
  unfold request_header, header_bytes, wire_magic.
  cbn [rq_body operation_request rq_set_cas rq_set_opaque rq_set_partition rq_set_datatype
    rb_framing_extras rb_extras rb_key rb_value rq_magic rq_opcode rq_partition rq_opaque rq_cas rq_datatype].
  rewrite <-Hfl, (op_request p Hop).
  pose proof (accepted_magic c p Ha) as Hm. rewrite (op_request p Hop) in Hm. rewrite Hm.
  rewrite byte_swap32_store, byte_swap64_store by apply Hw.
  rewrite (wrap_small 8 (datatype_ p)), (wrap_small 16 (vbucket_ p)) by apply Hw.
  rewrite wrap_wrap by lia. unfold body_size. cbn [rb_framing_extras rb_extras rb_key rb_value].
  rewrite <-Hfl.
  replace (frames_length p + zsize (sent_extras c p) + zsize (sent_key c p) + zsize (value_ p))
    with (zsize (sent_key c p) + zsize (sent_extras c p) + zsize (value_ p) + frames_length p) by lia.
  destruct (decide (0 < frames_length p)).
  - by rewrite decide_False by lia.
  - by rewrite decide_True by lia.
Qed.

(** Compression changes only the value.  When the value compresses well
    enough, the payload is byte for byte the payload of the same request with
    the compressed value and the snappy flag set, with a consistent length;
    otherwise, and for commands that do not store values, it is the plain
    payload. *)
Theorem request_compression (r : client_request) :
  body_size (rq_body r) < 2 ^ 32 →
  request_data (E:=E) r true =
    match compress_value (rb_value (rq_body r)) with
    | Some v =>
        if is_one_of (rq_opcode r) [ClientOpcode.insert; ClientOpcode.upsert; ClientOpcode.replace]
           && bool_decide (32 < zsize (rb_value (rq_body r)))
        then request_data (with_compressed r v) false
        else request_data r false
    | None => request_data r false
    end.
Proof.
  intros Hb. unfold request_data. cbn [rq_opcode with_compressed].
  destruct (is_one_of (rq_opcode r) _); cbn [andb]; [|by case_match].
  rewrite !generate_payload_plain.
  destruct (decide (32 < zsize (rb_value (rq_body r)))) as [Hs|Hs].
  - rewrite bool_decide_true by done.
    destruct (compress_value (rb_value (rq_body r))) as [v|] eqn:Hv.
    + rewrite generate_payload_plain. by apply generate_payload_compressed.
    + unfold generate_payload. rewrite bool_decide_true by done. cbn [andb]. rewrite Hv.
      apply generate_payload_plain.
  - rewrite bool_decide_false by done.
    assert (generate_payload (E:=E) r true = Ok (request_wire r)) as ->.
    { rewrite <-generate_payload_plain. unfold generate_payload. by rewrite bool_decide_false by done. }
    by case_match.
Qed.
(** The packet whose value travels *)
Definition packet_sent (try_to_compress : bool) p : packet :=
  if try_to_compress && is_one_of (command_ p) [ClientOpcode.insert; ClientOpcode.upsert; ClientOpcode.replace]
     && bool_decide (32 < zsize (value_ p))
  then match compress_value (value_ p) with
       | Some v => set_value v (set_datatype (Z.lor (datatype_ p) datatype_snappy) p)
       | None => p
       end
  else p.

(** Compression leaves what a packet needs to travel. *)
Lemma packet_sent_ok c p n b :
  snappy_typed → accepted c p → well_typed p → addressable c p → fits p n (sent_key c p) (sent_extras c p) →
  let p' := packet_sent b p in
  accepted c p' ∧ well_typed p' ∧ addressable c p' ∧ fits p' n (sent_key c p) (sent_extras c p) ∧
  sent_key c p' = sent_key c p ∧ sent_extras c p' = sent_extras c p ∧ wire_frames c p' = wire_frames c p.
Proof.
  intros Hsn Ha Hw Had Hf. cbv zeta. unfold packet_sent. destruct (_ && _); [|done]. destruct (compress_value (value_ p)) as [v|] eqn:Hv; [|done].
  unfold compress_value in Hv. case_decide as Hsize; [|done]. injection Hv as <-. split_and!; try done.
  - destruct Ha. by split.
  - destruct Hw. split; try done; [|by apply (compress_typed Hsn)]. cbn. by apply lor_in_width.
  - destruct Had. by split.
  - destruct Hf. split; try done. cbn in *. lia.
Qed.

Lemma transmissible_sent c p b :
  snappy_typed → transmissible c p → transmissible c (packet_sent b p).
Proof.
  intros Hsn [Ha Hw Hl Had Hc Hd Hf]. destruct (packet_sent_ok c p _ b Hsn Ha Hw Had Hf) as (Ha' & Hw' & Had' & Hf' & Hk & He & _).
  split; try done.
  - destruct Hl. unfold packet_sent. destruct (_ && _), (compress_value (value_ p)); by split.
  - destruct Hc. unfold packet_sent. destruct (_ && _), (compress_value (value_ p)); by split.
  - unfold packet_sent. by destruct (_ && _), (compress_value (value_ p)).
  - rewrite Hk, He. replace (frames_length (packet_sent b p)) with (frames_length p); [done|].
    unfold packet_sent. by destruct (_ && _), (compress_value (value_ p)).
Qed.

Lemma operation_packet_sent p b : operation_packet p → operation_packet (packet_sent b p).
Proof. intros []. unfold packet_sent. destruct (_ && _), (compress_value (value_ p)); by split. Qed.

Lemma request_data_sent p key fe extras b :
  is_u8 (datatype_ p) → is_u8 (command_ p) → zsize fe + zsize extras + zsize key + zsize (value_ p) < 2 ^ 32 →
  request_data (E:=E) (operation_request p key fe extras) b = Ok (request_wire (operation_request (packet_sent b p) key fe extras)).
Proof.
  intros Hdt _ Hsize. assert (Hplain : ∀ r, request_data (E:=E) r false = Ok (request_wire r)).
  { intros r. unfold request_data. case_match; apply generate_payload_plain. }
  destruct b; [|by rewrite Hplain]. rewrite request_compression by done. cbn [rq_opcode operation_request rq_set_cas rq_set_opaque
    rq_set_partition rq_set_datatype rq_body rb_value]. unfold packet_sent.
  destruct (compress_value (value_ p)) as [v|]; [|by destruct (_ && _)]. cbn [andb]. destruct (_ && _); [|done]. rewrite Hplain.
  unfold with_compressed, operation_request. cbn. by rewrite (wrap_small 8) by done.
Qed.

(** The frames of an operation in the order of the codec *)
Lemma wire_frames_operation c p :
  accepted c p → operation_packet p →
  frames_bytes (wire_frames c p) =
    frames_bytes (opt_frame request_sync_durability (durability_payload (durability_timeout_frame_ p)) (durability_level_frame_ p)) ++
    frames_bytes (opt_frame request_preserve_expiry (λ _, []) (preserve_expiry_frame_ p)).
Proof.
  intros Ha [Hreq Hb Hs Ht Hu Hto]. unfold wire_frames. destruct (acc_request c p Ha Hreq) as [_ Hsd]. rewrite Hb, Hs, Ht, Hu, Hsd.
  replace (if is_feature_enabled c HelloFeature.tracing then [] else _) with (@nil (Z * bytes)) by by case_match.
  cbn [opt_frame app]. by rewrite frames_bytes_app.
Qed.

Lemma request_header_frames p key fe fe' extras :
  zsize fe = zsize fe' → request_header (operation_request p key fe extras) = request_header (operation_request p key fe' extras).
Proof. intros Hfe. unfold request_header, body_size. cbn. by rewrite Hfe. Qed.

(** C13: the two encoders agree.  For every packet that a key-value operation
    can send, with or without compression, [client_request::data] builds from
    the protocol key of the document and its framing extras the bytes that
    [codec::encode_packet] makes of the packet with the value that travels,
    except that, when both are there, the frame of the expiry comes before
    that of the durability and not behind it. *)
Theorem request_matches_codec c p id try_to_compress :
  snappy_typed →
  transmissible c p → operation_packet p →
  collection_in_key c p = has (id_collection_uid id) →
  (∀ uid, id_collection_uid id = Some uid → uid = collection_id_ p) → id_key id = key_ p →
  ∃ key fe wire header durability expiry rest,
    make_protocol_key id = Ok (E:=error_code) key ∧
    operation_frames [] (durability_level_frame_ p) (durability_timeout_frame_ p)
      (preserve_expiry_frame_ p) = Ok fe ∧
    request_data (operation_request p key fe (sent_extras c p)) try_to_compress = Ok (E:=E) wire ∧
    wire = header ++ expiry ++ durability ++ rest ∧ zsize header = 24 ∧
    (durability = [] ↔ durability_level_frame_ p = None) ∧ (expiry = [] ↔ preserve_expiry_frame_ p = None) ∧
    encode_packet c (packet_sent try_to_compress p) = Ok (header ++ durability ++ expiry ++ rest).
Proof.
  intros Hsn Ht Hop Hcol Huid Hkey. pose proof (transmissible_sent c p try_to_compress Hsn Ht) as Ht'.
  pose proof (operation_packet_sent p try_to_compress Hop) as Hop'. pose proof Ht as [Ha Hw Hl Had Hc Hd Hf].
  set (p' := packet_sent try_to_compress p) in *.
  destruct (packet_sent_ok c p _ try_to_compress Hsn Ha Hw Had Hf) as (_ & _ & _ & _ & Hk & He & Hfr). fold p' in Hk, He, Hfr.
  set (D := frames_bytes (opt_frame request_sync_durability (durability_payload (durability_timeout_frame_ p)) (durability_level_frame_ p))).
  set (P := frames_bytes (opt_frame request_preserve_expiry (λ _, []) (preserve_expiry_frame_ p))).
  assert (Hwf : frames_bytes (wire_frames c p) = D ++ P) by by apply wire_frames_operation.
  assert (Hsizes : zsize (P ++ D) = zsize (frames_bytes (wire_frames c p))) by (rewrite Hwf, !zsize_app; lia).
  exists (sent_key c p), (P ++ D), (request_wire (operation_request p' (sent_key c p) (P ++ D) (sent_extras c p))),
    (request_header (operation_request p' (sent_key c p) (P ++ D) (sent_extras c p))), D, P,
    (sent_extras c p ++ sent_key c p ++ value_ p'). split_and!.
  - by apply make_protocol_key_sent.
  - rewrite operation_frames_spec by done. unfold frames_sent. by rewrite frames_bytes_app.
  - apply request_data_sent; [apply Hw..|]. rewrite Hsizes, <-(counted_frames_length c p) by done. destruct Hf. lia.
  - unfold request_wire. cbn [rq_body operation_request rq_set_cas rq_set_opaque rq_set_partition rq_set_datatype rb_framing_extras rb_extras rb_key rb_value]. by rewrite <-!app_assoc.
  - unfold zsize. by rewrite length_request_header.
  - unfold D. rewrite frames_bytes_opt. destruct (durability_level_frame_ p); [|done]. split; [|done]. unfold frame_bytes. by case_decide.
  - unfold P. rewrite frames_bytes_opt. destruct (preserve_expiry_frame_ p); [|done]. split; [|done]. unfold frame_bytes. by case_decide.
  - rewrite (encode_transmissible c p') by done. rewrite <-request_wire_packet by done. rewrite Hk, He, Hfr.
    unfold request_wire. rewrite (request_header_frames p' _ _ (P ++ D)) by done. cbn [rq_body operation_request rq_set_cas rq_set_opaque
      rq_set_partition rq_set_datatype rb_framing_extras rb_extras rb_key rb_value]. by rewrite Hwf, <-!app_assoc.
Qed.
End properties.

(** ** Witnesses *)

Definition example_document : document_id :=
  DocumentId [98] default_name default_name [107; 101; 121]
    (compile_collection_path default_name default_name) (Some 0x1234) true.

Definition stored_document : packet :=
  set_barrier_frame None (set_stream_id_frame None (set_user_impersonation_frame None
    (set_durability_timeout_frame (Some 2500) (set_value (replicate 40 65) example_request)))).

Example stored_document_is_compressed :
  let _ := run_snappy in value_ (packet_sent true stored_document) = [40].
Proof. reflexivity. Qed.

Lemma request_matches_codec_witness :
  let _ := identity_duration in
  let _ := run_snappy in
  let c := make_codec example_features in
  ∃ key fe wire header durability expiry rest,
    make_protocol_key example_document = Ok (E:=error_code) key ∧
    operation_frames [] (durability_level_frame_ stored_document)
      (durability_timeout_frame_ stored_document) (preserve_expiry_frame_ stored_document) = Ok (E:=error_code) fe ∧
    request_data (operation_request stored_document key fe (sent_extras c stored_document)) true
      = Ok (E:=error_code) wire ∧
    wire = header ++ expiry ++ durability ++ rest ∧ zsize header = 24 ∧
    (durability = [] ↔ durability_level_frame_ stored_document = None) ∧
    (expiry = [] ↔ preserve_expiry_frame_ stored_document = None) ∧
    encode_packet c (packet_sent true stored_document) = Ok (header ++ durability ++ expiry ++ rest).
Proof.
  intros D S c. apply (request_matches_codec (E:=error_code) c stored_document example_document true);
    [apply run_snappy_typed|constructor; concrete_packet|concrete_packet|done|by intros uid [= <-]|done].
Defined.

Lemma request_compression_witness :
  let _ := run_snappy in
  let r := make_request ClientOpcode.upsert (RequestBody [107] [] [] (replicate 40 65)) in
  body_size (rq_body r) < 2 ^ 32 ∧
  request_data (E:=unit) r true = request_data (with_compressed r [40]) false.
Proof.
  intros S r. assert (Hs : body_size (rq_body r) < 2 ^ 32) by by vm_compute.
  split; [exact Hs|]. exact (request_compression (E:=unit) r Hs).
Defined.
