(* ===== verification/ClientResponse.v ===== *)
(** * Responses of the key-value client: [core/protocol/client_response.hxx]

    The class template [client_response<Body>] checks the header of a message,
    walks its framing extras and hands the rest to [Body::parse].  The bodies
    are in [Commands.v]; here they are instances of [ResponseBody].  [Expects]
    terminates the process when its condition is false, which is a [Fault]. *)

From S2P Require Import Prelude ByteOrder Protocol McbpParser.

(** ** JSON, as far as the error documents need it

    The parser is a separate library; its result is navigated here. *)
Inductive json :=
  | json_object (members : list (bytes * json))
  | json_string (s : bytes)
  | json_other.

Class JsonParser := {
  (** [utils::json::parse]: [None] where it throws. *)
  json_parse : bytes → option json;
}.

Inductive response_error := json_parse_error.

(** [value.find(name)] on an object: the first member of that name. *)
Fixpoint find_member (name : bytes) (ms : list (bytes * json)) : option json :=
  match ms with
  | [] => None
  | (n, v) :: ms => if decide (n = name) then Some v else find_member name ms
  end.

Record extended_error := ExtendedError { err_reference : bytes; err_context : bytes }.

Definition name_error : bytes := [101; 114; 114; 111; 114].
Definition name_ref : bytes := [114; 101; 102].
Definition name_context : bytes := [99; 111; 110; 116; 101; 120; 116].

Definition member_string (name : bytes) (ms : list (bytes * json)) : bytes :=
  match find_member name ms with Some (json_string s) => s | _ => [] end.

(** [Expects(b)] *)
Definition expects {E} (b : bool) : outcome E unit := if b then Ok () else Fault.

(** The server duration is [pow(encoded, 1.74) / 2] in the source; the model
    keeps the encoded value it is computed from. *)
Record client_response (B : Type) := ClientResponse {
  rs_body : B;
  rs_magic : Z;
  rs_opcode : Z;
  rs_header : bytes;
  rs_data_type : Z;
  rs_data : bytes;
  rs_key_size : Z;
  rs_framing_extras_size : Z;
  rs_extras_size : Z;
  rs_body_size : Z;
  rs_status : Z;
  rs_error : option extended_error;
  rs_opaque : Z;
  rs_cas : Z;
  rs_encoded_duration : option Z;
}.
Arguments ClientResponse {B}.
Arguments rs_body {B}.
Arguments rs_magic {B}.
Arguments rs_opcode {B}.
Arguments rs_header {B}.
Arguments rs_data_type {B}.
Arguments rs_data {B}.
Arguments rs_key_size {B}.
Arguments rs_framing_extras_size {B}.
Arguments rs_extras_size {B}.
Arguments rs_body_size {B}.
Arguments rs_status {B}.
Arguments rs_error {B}.
Arguments rs_opaque {B}.
Arguments rs_cas {B}.
Arguments rs_encoded_duration {B}.

Section response.
Context `{JsonParser}.
Abbreviation res := (outcome response_error).

Definition parse_enhanced_error (str : bytes) : res (option extended_error) :=
  match json_parse str with
  | None => Err json_parse_error
  | Some (json_object ms) =>
      match find_member name_error ms with
      | Some (json_object err_obj) =>
          Ok (Some (ExtendedError (member_string name_ref err_obj) (member_string name_context err_obj)))
      | _ => Ok None
      end
  | Some _ => Ok None
  end.

(** ** Reading fields: [memcpy] into an integer, then [byte_swap] *)

Definition load16 {E} (data : bytes) (offset : Z) : outcome E Z :=
  (λ f, byte_swap16 (le_value f)) <$> range data offset 2.
Definition load32 {E} (data : bytes) (offset : Z) : outcome E Z :=
  (λ f, byte_swap32 (le_value f)) <$> range data offset 4.
Definition load64 {E} (data : bytes) (offset : Z) : outcome E Z :=
  (λ f, byte_swap64 (le_value f)) <$> range data offset 8.

(** ** The body of a response *)

(** [Body::opcode], a default-constructed [Body], and [Body::parse]: whether
    the body was parsed, and the members it filled in. *)
Class ResponseBody (B : Type) := {
  body_opcode : Z;
  body_init : B;
  body_parse : ∀ (status : Z) (header : bytes) (framing_extras_size key_size extras_size : Z)
                 (body : bytes), res (bool * B);
}.

Section body.
Context {B : Type} `{ResponseBody B}.

(** [verify_header]; [data_] is resized to the announced length. *)
Definition verify_header (header data : bytes) : res (client_response B) :=
  h0 ← at_ header 0;
  _ ← expects (is_one_of h0 [Magic.alt_client_response; Magic.client_response]);
  h1 ← at_ header 1;
  _ ← expects (h1 =? body_opcode);
  data_type ← at_ header 5;
  status ← load16 header 6;
  extras_size ← at_ header 4;
  '(framing_extras_size, key_size) ←
    (if is_enum h0 Magic.alt_client_response then
       framing_extras_size ← at_ header 2;
       key_size ← at_ header 3;
       Ok (framing_extras_size, key_size)
     else
       key_size ← load16 header 2;
       Ok (0, key_size));
  body_size ← load32 header 8;
  opaque ← load32 header 12;
  cas ← load64 header 16;
  Ok {| rs_body := body_init; rs_magic := h0; rs_opcode := h1; rs_header := header;
        rs_data_type := data_type; rs_data := resize_to body_size 0 data;
        rs_key_size := key_size; rs_framing_extras_size := framing_extras_size;
        rs_extras_size := extras_size; rs_body_size := body_size; rs_status := status;
        rs_error := None; rs_opaque := opaque; rs_cas := cas; rs_encoded_duration := None |}.

(** One iteration of [parse_framing_extras]; the state is the offset and the
    last duration seen. *)
Definition framing_step (data : bytes) (framing_extras_size : Z) (st : Z * option Z) :
    res (Z * option Z) :=
  let '(offset, duration) := st in
  b ← at_ data offset;
  let frame_size := Z.land b 0x0f in
  let frame_id := Z.land (Z.shiftr b 4) 0x0f in
  let offset := offset + 1 in
  duration ←
    (if (frame_id =? response_server_duration) && (frame_size =? 2) &&
        bool_decide (frame_size ≤ framing_extras_size - offset) then
       d ← load16 data offset;
       Ok (Some d)
     else Ok duration);
  Ok (offset + frame_size, duration).

(** Each iteration advances the offset: the size bounds their number. *)
Definition parse_framing_extras (data : bytes) (framing_extras_size : Z) : res (option Z) :=
  snd <$> while_loop (Z.to_nat framing_extras_size) (λ st, bool_decide (st.1 < framing_extras_size))
            (framing_step data framing_extras_size) (0, None).

(** [parse_body] *)
Definition parse_body (r : client_response B) : res (client_response B) :=
  duration ← parse_framing_extras (rs_data r) (rs_framing_extras_size r);
  '(parsed, body) ← body_parse (rs_status r) (rs_header r) (rs_framing_extras_size r)
                      (rs_key_size r) (rs_extras_size r) (rs_data r);
  error ←
    (if negb (is_enum (rs_status r) Status.success) && negb parsed && has_json_datatype (rs_data_type r)
     then
       let offset := rs_framing_extras_size r + rs_extras_size r + rs_key_size r in
       text ← range (rs_data r) offset (zsize (rs_data r) - offset);
       parse_enhanced_error text
     else Ok None);
  Ok (ClientResponse body (rs_magic r) (rs_opcode r) (rs_header r) (rs_data_type r) (rs_data r)
        (rs_key_size r) (rs_framing_extras_size r) (rs_extras_size r) (rs_body_size r)
        (rs_status r) error (rs_opaque r) (rs_cas r) duration).

(** The constructor from a message. *)
Definition make_client_response (msg : mcbp_message) : res (client_response B) :=
  r ← verify_header (header_data (msg_header msg)) (msg_body msg);
  parse_body r.
End body.

(** ** [parse_server_duration_us]

    The free function that looks for the first server duration of a message;
    the size of the framing extras is masked with four bits. *)

Inductive duration_search :=
  | searching (offset : Z)
  | found (encoded : Z).

Definition duration_step (body : bytes) (framing_extras_size : Z) (st : duration_search) :
    res duration_search :=
  match st with
  | found d => Ok (found d)
  | searching offset =>
      b ← at_ body offset;
      let frame_size := Z.land b 0x0f in
      let frame_id := Z.land (Z.shiftr b 4) 0x0f in
      let offset := offset + 1 in
      if (frame_id =? response_server_duration) && (frame_size =? 2) &&
         bool_decide (frame_size ≤ framing_extras_size - offset)
      then d ← load16 body offset; Ok (found d)
      else Ok (searching (offset + frame_size))
  end.

(** [None] stands for the result 0. *)
Definition parse_server_duration_us (msg : mcbp_message) : res (option Z) :=
  if negb (is_enum (hdr_magic (msg_header msg)) Magic.alt_client_response) then Ok None
  else
    let framing_extras_size := u8 (Z.land (hdr_keylen (msg_header msg)) 0x0f) in
    if framing_extras_size =? 0 then Ok None
    else
      st ← while_loop (Z.to_nat framing_extras_size)
             (λ st, match st with searching offset => bool_decide (offset < framing_extras_size)
                                | found _ => false end)
             (duration_step (msg_body msg) framing_extras_size) (searching 0);
      Ok (match st with found d => Some d | searching _ => None end).
End response.

(** ** The header of a response *)

Lemma load_app {E} (pre post : bytes) i v n :
  i = zsize pre → range (E:=E) (pre ++ le_bytes n v ++ post) i (Z.of_nat n) = Ok (le_bytes n v).
Proof. intros ->. apply range_app; [done|]. unfold zsize. by rewrite length_le_bytes. Qed.

Lemma length_header_data h : length (header_data h) = 24%nat.
Proof. unfold header_data. by rewrite !length_app, !length_le_bytes. Qed.

Section header_fields.
Context {E : Type} (h : binary_header) (Hh : header_ok h).

Lemma le_bytes_1 v : is_u8 v → le_bytes 1 v = [v].
Proof.
  intros Hv. unfold le_bytes. cbn [be_bytes rev app]. rewrite Z.mul_0_r, Z.div_1_r.
  by rewrite wrap_small.
Qed.

Lemma le_bytes_2 v : is_u16 v → le_bytes 2 v = [Z.land v 0xff; Z.shiftr v 8].
Proof.
  intros Hv. unfold le_bytes. cbn [be_bytes rev app].
  change 0xff with (2 ^ 8 - 1). rewrite land_ones_mod, Z.shiftr_div_pow2 by lia.
  change (8 * Z.of_nat 0) with 0. change (8 * Z.of_nat 1) with 8. rewrite Z.div_1_r.
  rewrite (wrap_small 8 (v / 2 ^ 8)) by width_lia. done.
Qed.

(** The header as bytes around its multi-byte fields. *)
Lemma header_data_split :
  header_data h =
    [hdr_magic h; hdr_opcode h] ++ le_bytes 2 (hdr_keylen h) ++ [hdr_extlen h; hdr_datatype h] ++
    le_bytes 2 (hdr_specific h) ++ le_bytes 4 (hdr_bodylen h) ++ le_bytes 4 (hdr_opaque h) ++
    le_bytes 8 (hdr_cas h) ++ [].
Proof.
  unfold header_data. rewrite !le_bytes_1 by apply Hh. by rewrite app_nil_r.
Qed.

Lemma header_data_fields :
  let d := header_data h in
  at_ (E:=E) d 0 = Ok (hdr_magic h) ∧ at_ (E:=E) d 1 = Ok (hdr_opcode h) ∧
  at_ (E:=E) d 2 = Ok (Z.land (hdr_keylen h) 0xff) ∧ at_ (E:=E) d 3 = Ok (Z.shiftr (hdr_keylen h) 8) ∧
  at_ (E:=E) d 4 = Ok (hdr_extlen h) ∧ at_ (E:=E) d 5 = Ok (hdr_datatype h) ∧
  load16 (E:=E) d 2 = Ok (byte_swap16 (hdr_keylen h)) ∧
  load16 (E:=E) d 6 = Ok (byte_swap16 (hdr_specific h)) ∧
  load32 (E:=E) d 8 = Ok (byte_swap32 (hdr_bodylen h)) ∧
  load32 (E:=E) d 12 = Ok (byte_swap32 (hdr_opaque h)) ∧
  load64 (E:=E) d 16 = Ok (byte_swap64 (hdr_cas h)).
Proof.
  cbv zeta. unfold load16, load32, load64.
  assert (Hr : ∀ pre post i v n k, k = Z.of_nat n → i = zsize pre →
    header_data h = pre ++ le_bytes n v ++ post →
    range (E:=E) (header_data h) i k = Ok (le_bytes n v)).
  { intros pre post i v n k -> Hi ->. by apply load_app. }
  pose proof header_data_split as Hs.
  set (h2 := [hdr_magic h; hdr_opcode h]) in *. set (h45 := [hdr_extlen h; hdr_datatype h]) in *.
  rewrite (Hr h2 _ 2 (hdr_keylen h) 2%nat 2 eq_refl eq_refl Hs).
  rewrite (Hr (h2 ++ le_bytes 2 (hdr_keylen h) ++ h45) _ 6 (hdr_specific h) 2%nat 2 eq_refl eq_refl
    ltac:(rewrite Hs, <-!app_assoc; done)).
  rewrite (Hr (h2 ++ le_bytes 2 (hdr_keylen h) ++ h45 ++ le_bytes 2 (hdr_specific h)) _ 8 (hdr_bodylen h) 4%nat 4 eq_refl eq_refl ltac:(rewrite Hs, <-!app_assoc; done)).
  rewrite (Hr (h2 ++ le_bytes 2 (hdr_keylen h) ++ h45 ++ le_bytes 2 (hdr_specific h) ++
    le_bytes 4 (hdr_bodylen h)) _ 12 (hdr_opaque h) 4%nat 4 eq_refl eq_refl ltac:(rewrite Hs, <-!app_assoc; done)).
  rewrite (Hr (h2 ++ le_bytes 2 (hdr_keylen h) ++ h45 ++ le_bytes 2 (hdr_specific h) ++
    le_bytes 4 (hdr_bodylen h) ++ le_bytes 4 (hdr_opaque h)) [] 16 (hdr_cas h) 8%nat 8 eq_refl eq_refl ltac:(rewrite Hs, <-!app_assoc; done)).
  cbn [fmap outcome_fmap]. rewrite !le_value_le_bytes by apply Hh.
  rewrite Hs. rewrite (le_bytes_2 (hdr_keylen h)) by apply Hh. done.
Qed.
End header_fields.

(** ** Framing extras *)

Section framing.
Context `{JsonParser}.

Lemma load16_in_range {E} (l : bytes) i : 0 ≤ i → i + 2 ≤ zsize l → ∃ v, load16 (E:=E) l i = Ok v.
Proof. intros. unfold load16. rewrite range_ok by lia. by eexists. Qed.

Lemma load32_in_range {E} (l : bytes) i : 0 ≤ i → i + 4 ≤ zsize l → ∃ v, load32 (E:=E) l i = Ok v.
Proof. intros. unfold load32. rewrite range_ok by lia. by eexists. Qed.

Lemma load64_in_range {E} (l : bytes) i : 0 ≤ i → i + 8 ≤ zsize l → ∃ v, load64 (E:=E) l i = Ok v.
Proof. intros. unfold load64. rewrite range_ok by lia. by eexists. Qed.

(** The walk over the framing extras stays inside of them and ends. *)
Lemma parse_framing_extras_ok data n :
  0 ≤ n ≤ zsize data → ∃ d, parse_framing_extras data n = Ok d.
Proof.
  intros Hn. unfold parse_framing_extras.
  destruct (while_loop_total (λ st : Z * option Z, bool_decide (st.1 < n)) (framing_step data n)
    (λ st, 0 ≤ st.1) (λ st, Z.to_nat (n - st.1))) with (n := Z.to_nat n) (s := (0, @None Z))
    as (st & -> & _); [|simpl; lia..|by eexists].
  intros [off d] Hoff Hc%bool_decide_eq_true. simpl in *. unfold framing_step.
  destruct (at_in_range (E:=response_error) data off) as (b & -> & _); [lia|]. cbn [mbind outcome_bind].
  assert (0 ≤ Z.land b 15) by (apply Z.land_nonneg; lia).
  destruct (_ && _ && _) eqn:Hcond.
  - apply andb_true_iff in Hcond as [[_ H2%Z.eqb_eq]%andb_true_iff Hle%bool_decide_eq_true].
    destruct (load16_in_range (E:=response_error) data (off + 1)) as [v ->]; [lia..|].
    eexists. split; [done|]. simpl. lia.
  - eexists. split; [done|]. simpl. lia.
Qed.

Context {B : Type} `{ResponseBody B}.

(** What [verify_header] makes of a message of the parser. *)
Lemma verify_header_spec msg :
  message_ok msg →
  is_one_of (hdr_magic (msg_header msg)) [Magic.alt_client_response; Magic.client_response] = true →
  hdr_opcode (msg_header msg) = body_opcode →
  ∃ r, verify_header (header_data (msg_header msg)) (msg_body msg) = Ok (E:=response_error) r ∧
    rs_data r = msg_body msg ∧ rs_header r = header_data (msg_header msg) ∧
    rs_status r = header_status (msg_header msg) ∧
    0 ≤ rs_framing_extras_size r ∧ 0 ≤ rs_extras_size r ∧ 0 ≤ rs_key_size r ∧
    rs_framing_extras_size r + rs_extras_size r + rs_key_size r ≤ zsize (rs_data r).
Proof.
  intros [Hh Hb Hsz Hp] Hm Ho. set (h := msg_header msg) in *.
  destruct (header_data_fields (E:=response_error) h Hh)
    as (E0 & E1 & E2 & E3 & E4 & E5 & K & St & Bl & Op & Ca).
  unfold verify_header. rewrite E0. cbn [mbind outcome_bind]. rewrite Hm. cbn [expects mbind outcome_bind].
  rewrite E1. cbn [mbind outcome_bind]. rewrite Ho, Z.eqb_refl. cbn [expects mbind outcome_bind].
  rewrite E5, St, E4. cbn [mbind outcome_bind].
  assert (Hk : 0 ≤ byte_swap16 (hdr_keylen h)).
  { rewrite <-(le_value_le_bytes 2 (hdr_keylen h)) by apply Hh.
    rewrite byte_swap16_le; [|apply bytes_ok_rev, be_bytes_ok|apply length_le_bytes].
    apply be_value_bound, bytes_ok_rev, be_bytes_ok. }
  assert (Hk2 : byte_swap16 (hdr_keylen h) < 2 ^ 16).
  { rewrite <-(le_value_le_bytes 2 (hdr_keylen h)) by apply Hh.
    rewrite byte_swap16_le; [|apply bytes_ok_rev, be_bytes_ok|apply length_le_bytes].
    pose proof (be_value_bound (le_bytes 2 (hdr_keylen h))) as Hbd.
    unfold zsize in Hbd. rewrite length_le_bytes in Hbd. apply Hbd. apply bytes_ok_rev, be_bytes_ok. }
  assert (He : 0 ≤ hdr_extlen h < 2 ^ 8) by apply Hh.
  assert (Hkl : 0 ≤ hdr_keylen h < 2 ^ 16) by apply Hh.
  assert (Hres : resize_to (byte_swap32 (hdr_bodylen h)) 0 (msg_body msg) = msg_body msg).
  { rewrite Hsz. unfold resize_to. rewrite zsize_to_nat, resize_all. done. }
  unfold prefix_sizes in Hp. rewrite E2, E3, K, Bl, Op, Ca. rewrite Z.shiftr_div_pow2 in * by lia.
  destruct (is_enum (hdr_magic h) Magic.alt_client_response); cbn [mbind outcome_bind];
    eexists; (split; [done|]); cbn [snd rs_data rs_header rs_status rs_framing_extras_size rs_extras_size rs_key_size];
    rewrite Hres.
  - assert (0 ≤ Z.land (hdr_keylen h) 0xff < 2 ^ 8).
    { change 0xff with (2 ^ 8 - 1). rewrite land_ones_mod by lia. apply Z.mod_pos_bound. lia. }
    cbn [snd] in Hp. rewrite wrap_small in Hp by width_lia.
    split_and!; try done; try lia. width_lia.
  - cbn [snd] in Hp. rewrite wrap_small in Hp by width_lia. split_and!; try done; lia.
Qed.
End framing.

(** ** Bodies that are safe to parse *)

(** The contract between the template and a body: when the three prefixes lie
    inside the data and the opcode is its own, [parse] returns. *)
Class SafeBody `{JsonParser} (B : Type) `{ResponseBody B} : Prop := {
  safe_parse : ∀ status header framing key ext body,
    at_ (E:=response_error) header 1 = Ok body_opcode →
    0 ≤ framing → 0 ≤ key → 0 ≤ ext → framing + ext + key ≤ zsize body → bytes_ok body →
    defined (body_parse status header framing key ext body);
}.

Section response_properties.
Context `{JsonParser} {B : Type} `{ResponseBody B}.

Lemma parse_enhanced_error_defined text : defined (parse_enhanced_error text).
Proof. unfold parse_enhanced_error. repeat case_match; done. Qed.

(** C19: a response that is built from a message whose header announces the
    size of its body, as the parser delivers it ([parser_next_safe],
    [delivered_message_ok]).  If the message carries a response magic and the
    opcode of the body, and the body keeps the contract [SafeBody], the
    constructor of [client_response] returns without reading outside of the
    message, and the only error left is a malformed error document; with
    another magic or opcode it does not get to the message: one of the two
    [Expects] of [verify_header] ends the process. *)
Theorem client_response_safe `{!SafeBody B} msg :
  message_ok msg →
  let expected := is_one_of (hdr_magic (msg_header msg)) [Magic.alt_client_response; Magic.client_response] &&
                  (hdr_opcode (msg_header msg) =? body_opcode) in
  (expected = true → defined (make_client_response (B:=B) msg)) ∧
  (expected = false → make_client_response (B:=B) msg = Fault).
Proof.
  intros Hok. cbv zeta. split; intros Hc.
  - apply andb_true_iff in Hc as [Hm Ho%Z.eqb_eq]. unfold make_client_response.
    destruct (verify_header_spec (B:=B) msg Hok Hm Ho) as (r & -> & Hd & Hh & Hs & Hf & He & Hk & Hle).
    cbn [mbind outcome_bind]. unfold parse_body.
    destruct (parse_framing_extras_ok (rs_data r) (rs_framing_extras_size r)) as [d ->]; [lia|].
    cbn [mbind outcome_bind]. apply bind_defined.
    { apply safe_parse; try done; try lia; [|rewrite Hd; apply Hok].
      rewrite Hh, <-Ho. by apply header_data_fields, Hok. }
    intros [parsed b] _. apply bind_defined; [|done].
    case_match; [|done]. rewrite range_ok by lia. apply parse_enhanced_error_defined.
  - destruct (header_data_fields (E:=response_error) (msg_header msg)) as (E0 & E1 & _); [apply Hok|].
    unfold make_client_response, verify_header. rewrite E0. cbn [mbind outcome_bind].
    destruct (is_one_of _ _); [|done]. cbn [expects mbind outcome_bind]. rewrite E1. cbn [mbind outcome_bind].
    cbn [andb] in Hc. by rewrite Hc.
Qed.
End response_properties.

(** [parse_server_duration_us] masks the size of the framing extras with
    four bits instead of eight.  A response whose framing extras are a
    multiple of 16 bytes long reports no server duration, although
    [parse_framing_extras] finds one in the same bytes. *)
Theorem server_duration_mask `{JsonParser} msg d :
  hdr_magic (msg_header msg) = enum_code Magic.alt_client_response →
  Z.land (hdr_keylen (msg_header msg)) 0x0f = 0 →
  parse_framing_extras (msg_body msg) (Z.land (hdr_keylen (msg_header msg)) 0xff) = Ok (Some d) →
  parse_server_duration_us msg = Ok None.
Proof. intros Hm Hk _. unfold parse_server_duration_us. rewrite Hm, Hk. done. Qed.

Definition no_json : JsonParser := {| json_parse := λ _, None |}.

(** Sixteen bytes of framing extras, the first frame a server duration. *)
Definition long_framing : mcbp_message :=
  McbpMessage (BinaryHeader 0x18 0 16 0 0 0 (byte_swap32 16) 0 0) ([0x02; 0; 42; 0x1c] ++ replicate 12 0).

Lemma server_duration_mask_witness :
  let _ := no_json in
  parse_framing_extras (msg_body long_framing) 16 = Ok (Some 42) ∧
  parse_server_duration_us long_framing = Ok None.
Proof.
  intros J. assert (Hf : parse_framing_extras (msg_body long_framing) 16 = Ok (Some 42)) by by vm_compute.
  split; [exact Hf|]. exact (server_duration_mask long_framing 42 eq_refl eq_refl Hf).
Defined.
