(* ===== verification/Commands.v ===== *)
(** * The bodies of the key-value commands: [core/protocol/cmd_*.cxx]

    One definition per [parse] of a response body and per [fill_extras] or
    [fill_value] of a request body.  Bodies with the same code share a
    definition under one name per command. *)

From S2P Require Import Prelude ByteOrder Protocol McbpParser ClientRequest ClientResponse.

Abbreviation res := (outcome response_error).

(** The check at the top of every [parse]. *)
Definition expect_opcode (opcode : ClientOpcode.client_opcode) (header : bytes) : res unit :=
  h1 ← at_ header 1; expects (h1 =? enum_code opcode).

(** [[body.begin() + offset, body.end())] *)
Definition tail_from (body : bytes) (offset : Z) : res bytes :=
  range body offset (zsize body - offset).

(** ** Documents: get, get_and_lock, get_and_touch, get_replica *)

Record document_body := DocumentBody { doc_flags : Z; doc_value : bytes }.
Definition empty_document : document_body := DocumentBody 0 [].

Definition parse_document (opcode : ClientOpcode.client_opcode) (status : Z) (header : bytes)
    (framing_extras_size key_size extras_size : Z) (body : bytes) : res (bool * document_body) :=
  _ ← expect_opcode opcode header;
  if is_enum status Status.success then
    let offset := framing_extras_size in
    '(flags, offset) ←
      (if decide (extras_size = 4) then
         flags ← load32 body offset; Ok (flags, offset + 4)
       else Ok (0, offset + extras_size));
    let offset := offset + key_size in
    value ← tail_from body offset;
    Ok (true, DocumentBody flags value)
  else Ok (false, empty_document).

Definition get_parse := parse_document ClientOpcode.get.
Definition get_and_lock_parse := parse_document ClientOpcode.get_and_lock.
Definition get_and_touch_parse := parse_document ClientOpcode.get_and_touch.
Definition get_replica_parse := parse_document ClientOpcode.get_replica.

(** ** Mutations: upsert, insert, replace, remove, append, prepend *)

Record mutation_token := MutationToken { partition_uuid : Z; sequence_number : Z }.
Definition empty_token : mutation_token := MutationToken 0 0.

(** Both halves of the token, at [offset]. *)
Definition load_token (body : bytes) (offset : Z) : res mutation_token :=
  uuid ← load64 body offset;
  seqno ← load64 body (offset + 8);
  Ok (MutationToken uuid seqno).

Definition parse_mutation (opcode : ClientOpcode.client_opcode) (status : Z) (header : bytes)
    (framing_extras_size key_size extras_size : Z) (body : bytes) : res (bool * mutation_token) :=
  _ ← expect_opcode opcode header;
  if is_enum status Status.success then
    if decide (extras_size = 16) then
      token ← load_token body framing_extras_size; Ok (true, token)
    else Ok (false, empty_token)
  else Ok (false, empty_token).

Definition upsert_parse := parse_mutation ClientOpcode.upsert.
Definition insert_parse := parse_mutation ClientOpcode.insert.
Definition replace_parse := parse_mutation ClientOpcode.replace.
Definition remove_parse := parse_mutation ClientOpcode.remove.
Definition append_parse := parse_mutation ClientOpcode.append.
Definition prepend_parse := parse_mutation ClientOpcode.prepend.

(** ** Counters: increment, decrement *)

Record counter_body := CounterBody { counter_content : Z; counter_token : mutation_token }.

(** The value is read after the token and the key; extras of any other size
    are not skipped. *)
Definition parse_counter (opcode : ClientOpcode.client_opcode) (status : Z) (header : bytes)
    (framing_extras_size key_size extras_size : Z) (body : bytes) : res (bool * counter_body) :=
  _ ← expect_opcode opcode header;
  if is_enum status Status.success then
    let offset := framing_extras_size in
    '(token, offset) ←
      (if decide (extras_size = 16) then
         token ← load_token body offset; Ok (token, offset + 16)
       else Ok (empty_token, offset));
    let offset := offset + key_size in
    content ← load64 body offset;
    Ok (true, CounterBody content token)
  else Ok (false, CounterBody 0 empty_token).

Definition increment_parse := parse_counter ClientOpcode.increment.
Definition decrement_parse := parse_counter ClientOpcode.decrement.

(** ** Sub-document operations *)

Record lookup_in_field := LookupInField { lf_status : Z; lf_value : bytes }.

Definition max_entry_size : Z := 20 * 1024 * 1024.

(** One iteration of the loop over the entries. *)
Definition lookup_entry (body : bytes) (st : Z * list lookup_in_field) :
    res (Z * list lookup_in_field) :=
  let '(offset, fields) := st in
  entry_status ← load16 body offset;
  _ ← expects (is_valid_status entry_status);
  let offset := offset + 2 in
  entry_size ← load32 body offset;
  _ ← expects (bool_decide (entry_size < max_entry_size));
  let offset := offset + 4 in
  value ← range body offset entry_size;
  Ok (offset + entry_size, fields ++ [LookupInField entry_status value]).

Definition lookup_in_statuses : list Status.key_value_status_code :=
  [Status.success; Status.subdoc_multi_path_failure; Status.subdoc_success_deleted;
   Status.subdoc_multi_path_failure_deleted].

Definition parse_lookup_in (opcode : ClientOpcode.client_opcode) (status : Z) (header : bytes)
    (framing_extras_size key_size extras_size : Z) (body : bytes) :
    res (bool * list lookup_in_field) :=
  _ ← expect_opcode opcode header;
  if is_one_of status lookup_in_statuses then
    let offset := framing_extras_size + key_size + extras_size in
    st ← while_loop (length body) (λ st, bool_decide (st.1 < zsize body)) (lookup_entry body)
           (offset, []);
    Ok (true, st.2)
  else Ok (false, []).

Definition lookup_in_parse := parse_lookup_in ClientOpcode.subdoc_multi_lookup.
Definition lookup_in_replica_parse := parse_lookup_in ClientOpcode.subdoc_multi_lookup.

Record mutate_in_field := MutateInField { mf_index : Z; mf_status : Z; mf_value : bytes }.
Record mutate_in_body := MutateInBody { mi_fields : list mutate_in_field; mi_token : mutation_token }.

Definition mutate_entry (body : bytes) (st : Z * list mutate_in_field) :
    res (Z * list mutate_in_field) :=
  let '(offset, fields) := st in
  index ← at_ body offset;
  let offset := offset + 1 in
  entry_status ← load16 body offset;
  _ ← expects (is_valid_status entry_status);
  let offset := offset + 2 in
  if is_enum entry_status Status.success then
    entry_size ← load32 body offset;
    _ ← expects (bool_decide (entry_size < max_entry_size));
    let offset := offset + 4 in
    value ← range body offset entry_size;
    Ok (offset + entry_size, fields ++ [MutateInField index entry_status value])
  else Ok (offset, fields ++ [MutateInField index entry_status []]).

Definition mutate_in_parse (status : Z) (header : bytes)
    (framing_extras_size key_size extras_size : Z) (body : bytes) : res (bool * mutate_in_body) :=
  _ ← expect_opcode ClientOpcode.subdoc_multi_mutation header;
  if is_one_of status [Status.success; Status.subdoc_multi_path_failure] then
    let offset := framing_extras_size in
    '(token, offset) ←
      (if decide (extras_size = 16) then
         token ← load_token body offset; Ok (token, offset + 16)
       else Ok (empty_token, offset + extras_size));
    let offset := offset + key_size in
    st ← while_loop (length body) (λ st, bool_decide (st.1 < zsize body)) (mutate_entry body)
           (offset, []);
    Ok (true, MutateInBody st.2 token)
  else Ok (false, MutateInBody [] empty_token).

(** ** Metadata, collections, sequence numbers *)

Record get_meta_body := GetMetaBody {
  gm_deleted : Z; gm_flags : Z; gm_expiry : Z; gm_sequence_number : Z; gm_datatype : Z
}.
Definition empty_meta : get_meta_body := GetMetaBody 0 0 0 0 0.

Definition get_meta_parse (status : Z) (header : bytes)
    (framing_extras_size key_size extras_size : Z) (body : bytes) : res (bool * get_meta_body) :=
  _ ← expect_opcode ClientOpcode.get_meta header;
  if is_enum status Status.success then
    if decide (extras_size = 4 + 4 + 4 + 8 + 1) then
      let offset := framing_extras_size in
      deleted ← load32 body offset;
      let offset := offset + 4 in
      flags ← load32 body offset;
      let offset := offset + 4 in
      expiry ← load32 body offset;
      let offset := offset + 4 in
      seqno ← load64 body offset;
      let offset := offset + 8 in
      datatype ← at_ body offset;
      Ok (true, GetMetaBody deleted flags expiry seqno datatype)
    else Ok (true, empty_meta)
  else Ok (false, empty_meta).

Record collection_id_body := CollectionIdBody { ci_manifest_uid : Z; ci_collection_uid : Z }.

(** The offset skips the key, not the extras in front of it. *)
Definition get_collection_id_parse (status : Z) (header : bytes)
    (framing_extras_size key_size extras_size : Z) (body : bytes) : res (bool * collection_id_body) :=
  _ ← expect_opcode ClientOpcode.get_collection_id header;
  if is_enum status Status.success && bool_decide (extras_size = 12) then
    let offset := framing_extras_size + key_size in
    manifest ← load64 body offset;
    let offset := offset + 8 in
    collection ← load32 body offset;
    Ok (true, CollectionIdBody manifest collection)
  else Ok (false, CollectionIdBody 0 0).

Record observe_body := ObserveBody {
  ob_partition_id : Z; ob_partition_uuid : Z; ob_last_persisted : Z; ob_current : Z;
  ob_old_partition_uuid : option Z; ob_last_received : option Z
}.
Definition empty_observe : observe_body := ObserveBody 0 0 0 0 None None.

Definition observe_seqno_parse (status : Z) (header : bytes)
    (framing_extras_size key_size extras_size : Z) (body : bytes) : res (bool * observe_body) :=
  _ ← expect_opcode ClientOpcode.observe_seqno header;
  if is_enum status Status.success then
    let offset := framing_extras_size + extras_size + key_size in
    b ← at_ body offset;
    let failover := negb (b =? 0) in
    let offset := offset + 1 in
    pid ← load16 body offset;
    let offset := offset + 2 in
    uuid ← load64 body offset;
    let offset := offset + 8 in
    persisted ← load64 body offset;
    let offset := offset + 8 in
    current ← load64 body offset;
    let offset := offset + 8 in
    if failover then
      old_uuid ← load64 body offset;
      let offset := offset + 8 in
      received ← load64 body offset;
      Ok (false, ObserveBody pid uuid persisted current (Some old_uuid) (Some received))
    else Ok (false, ObserveBody pid uuid persisted current None None)
  else Ok (false, empty_observe).

(** ** Connection setup *)

Fixpoint hello_features (n : nat) (value : bytes) (i : Z) : res (list Z) :=
  match n with
  | O => Ok []
  | S n =>
      field ← load16 value (i * 2);
      rest ← hello_features n value (i + 1);
      Ok (if is_valid_hello_feature field then field :: rest else rest)
  end.

Definition hello_parse (status : Z) (header : bytes)
    (framing_extras_size key_size extras_size : Z) (body : bytes) : res (bool * list Z) :=
  _ ← expect_opcode ClientOpcode.hello header;
  if is_enum status Status.success then
    let offset := framing_extras_size + key_size + extras_size in
    let value_size := u64 (zsize body - offset) in
    _ ← expects (value_size mod 2 =? 0);
    let num_features := value_size / 2 in
    value ← tail_from body offset;
    features ← hello_features (Z.to_nat num_features) value 0;
    Ok (true, features)
  else Ok (false, []).

(** [std::find(from, end, ' ')] splits [rest] into what is before and after. *)
Fixpoint find_space (rest : bytes) : bytes * option bytes :=
  match rest with
  | [] => ([], None)
  | b :: rest =>
      if b =? 32 then ([], Some rest)
      else let '(before, after) := find_space rest in (b :: before, after)
  end.

(** The loop: [acc] is the part of the current word already passed over. *)
Fixpoint split_mechs (fuel : nat) (acc rest : bytes) : list bytes :=
  match fuel with
  | O => []
  | S fuel =>
      let '(before, after) := find_space rest in
      match after with
      | None => [acc ++ before]
      | Some rest => (acc ++ before) :: split_mechs fuel [] rest
      end
  end.

(** [previous] starts at the beginning of the body, the search after the
    prefixes, so the first word includes the prefixes. *)
Definition sasl_list_mechs_parse (status : Z) (header : bytes)
    (framing_extras_size key_size extras_size : Z) (body : bytes) : res (bool * list bytes) :=
  _ ← expect_opcode ClientOpcode.sasl_list_mechs header;
  if is_enum status Status.success then
    let offset := framing_extras_size + extras_size + key_size in
    prefix ← range body 0 offset;
    value ← tail_from body offset;
    Ok (true, split_mechs (S (length value)) prefix value)
  else Ok (false, []).

Definition parse_sasl (opcode : ClientOpcode.client_opcode)
    (statuses : list Status.key_value_status_code) (status : Z) (header : bytes)
    (framing_extras_size key_size extras_size : Z) (body : bytes) : res (bool * bytes) :=
  _ ← expect_opcode opcode header;
  if is_one_of status statuses then
    value ← tail_from body (framing_extras_size + extras_size + key_size);
    Ok (true, value)
  else Ok (false, []).

Definition sasl_auth_parse := parse_sasl ClientOpcode.sasl_auth [Status.success; Status.auth_continue].
Definition sasl_step_parse := parse_sasl ClientOpcode.sasl_step [Status.success].

(** Bodies without contents: touch, unlock, noop, select_bucket. *)
Definition parse_nothing (opcode : ClientOpcode.client_opcode) (status : Z) (header : bytes)
    (framing_extras_size key_size extras_size : Z) (body : bytes) : res (bool * unit) :=
  _ ← expect_opcode opcode header; Ok (false, ()).

Definition touch_parse := parse_nothing ClientOpcode.touch.
Definition unlock_parse := parse_nothing ClientOpcode.unlock.
Definition noop_parse := parse_nothing ClientOpcode.noop.
Definition select_bucket_parse := parse_nothing ClientOpcode.select_bucket.

(** ** Request bodies *)

Section fill.
Context {E : Type}.

(** upsert, insert, replace: flags and expiry *)
Definition fill_store_extras (extras : bytes) (flags expiry : Z) : outcome E bytes :=
  let extras := resize_to 8 0 extras in
  extras ← store_range extras 0 (le_bytes 4 (byte_swap32 flags));
  store_range extras 4 (le_bytes 4 (byte_swap32 expiry)).

Definition upsert_fill_extras := fill_store_extras.
Definition insert_fill_extras := fill_store_extras.
Definition replace_fill_extras := fill_store_extras.

(** get_and_lock, get_and_touch, touch: one 32-bit field *)
Definition fill_field32 (extras : bytes) (field : Z) : outcome E bytes :=
  let extras := resize_to 4 0 extras in
  store_range extras 0 (le_bytes 4 (byte_swap32 field)).

Definition get_and_lock_fill_extras := fill_field32.
Definition get_and_touch_fill_extras := fill_field32.
Definition touch_expiry := fill_field32.

(** increment, decrement *)
Definition fill_counter_extras (extras : bytes) (delta initial_value expiry : Z) : outcome E bytes :=
  let extras := resize_to (8 + 8 + 4) 0 extras in
  let offset := 0 in
  extras ← store_range extras offset (le_bytes 8 (byte_swap64 delta));
  let offset := offset + 8 in
  extras ← store_range extras offset (le_bytes 8 (byte_swap64 initial_value));
  let offset := offset + 8 in
  store_range extras offset (le_bytes 4 (byte_swap32 expiry)).

Definition increment_fill_extras := fill_counter_extras.
Definition decrement_fill_extras := fill_counter_extras.

(** [impl::subdoc::command] *)
Record subdoc_command := SubdocCommand {
  sc_opcode : Z;
  sc_path : bytes;
  sc_value : bytes;
  sc_flags : Z;
}.

Definition lookup_in_fill_extras (extras : bytes) (flags : Z) : outcome E bytes :=
  if decide (flags ≠ 0) then
    let extras := resize_to 1 0 extras in store_range extras 0 [flags]
  else Ok extras.

(** One command written at [offset]. *)
Definition lookup_in_write (value : bytes) (offset : Z) (spec : subdoc_command) :
    outcome E (bytes * Z) :=
  value ← store_range value offset [u8 (sc_opcode spec)];
  let offset := offset + 1 in
  value ← store_range value offset [sc_flags spec];
  let offset := offset + 1 in
  value ← store_range value offset (le_bytes 2 (byte_swap16 (u16 (zsize (sc_path spec)))));
  let offset := offset + 2 in
  value ← store_range value offset (sc_path spec);
  Ok (value, offset + zsize (sc_path spec)).

Definition mutate_in_write (value : bytes) (offset : Z) (spec : subdoc_command) :
    outcome E (bytes * Z) :=
  value ← store_range value offset [u8 (sc_opcode spec)];
  let offset := offset + 1 in
  value ← store_range value offset [sc_flags spec];
  let offset := offset + 1 in
  value ← store_range value offset (le_bytes 2 (byte_swap16 (u16 (zsize (sc_path spec)))));
  let offset := offset + 2 in
  let param_size := byte_swap32 (u32 (zsize (sc_value spec))) in
  value ← store_range value offset (le_bytes 4 param_size);
  let offset := offset + 4 in
  value ← store_range value offset (sc_path spec);
  let offset := offset + zsize (sc_path spec) in
  if decide (param_size ≠ 0) then
    value ← store_range value offset (sc_value spec);
    Ok (value, offset + zsize (sc_value spec))
  else Ok (value, offset).

(** The loop over the commands. *)
Fixpoint write_specs (write : bytes → Z → subdoc_command → outcome E (bytes * Z))
    (value : bytes) (offset : Z) (specs : list subdoc_command) : outcome E bytes :=
  match specs with
  | [] => Ok value
  | spec :: specs => '(value, offset) ← write value offset spec; write_specs write value offset specs
  end.

Definition lookup_in_fill_value (specs : list subdoc_command) : outcome E bytes :=
  let value_size := foldr (λ spec n, (1 + 1 + 2 + zsize (sc_path spec)) + n) 0 specs in
  _ ← expects (bool_decide (0 < value_size));
  write_specs lookup_in_write (resize_to value_size 0 []) 0 specs.

Definition mutate_in_fill_value (specs : list subdoc_command) : outcome E bytes :=
  let value_size :=
    foldr (λ spec n, (1 + 1 + 2 + zsize (sc_path spec) + 4 + zsize (sc_value spec)) + n) 0 specs in
  _ ← expects (bool_decide (0 < value_size));
  write_specs mutate_in_write (resize_to value_size 0 []) 0 specs.

Definition mutate_in_fill_extras (extras : bytes) (expiry : Z) (user_flags : option Z) (flags : Z) :
    outcome E bytes :=
  extras ←
    (if negb (expiry =? 0) || has user_flags then
       let extras := resize_to 4 0 extras in
       store_range extras 0 (le_bytes 4 (byte_swap32 expiry))
     else Ok extras);
  extras ←
    (match user_flags with
     | Some uf =>
         let offset := zsize extras in
         let extras := resize_to (offset + 4) 0 extras in
         store_range extras offset (le_bytes 4 (byte_swap32 uf))
     | None => Ok extras
     end);
  if negb (flags =? 0) then
    let offset := zsize extras in
    let extras := resize_to (offset + 1) 0 extras in
    store_range extras offset [flags]
  else Ok extras.

(** [hello_request_body::fill_body] *)
Fixpoint hello_write (value : bytes) (idx : Z) (features : list HelloFeature.hello_feature) :
    outcome E bytes :=
  match features with
  | [] => Ok value
  | f :: features =>
      value ← store_range value (idx * 2) [0];
      value ← store_range value (idx * 2 + 1) [u8 (enum_code f)];
      hello_write value (idx + 1) features
  end.

Definition hello_fill_body (features : list HelloFeature.hello_feature) : outcome E bytes :=
  hello_write (resize_to (2 * zsize features) 0 []) 0 features.

Definition observe_seqno_fill_body (partition_uuid : Z) : outcome E bytes :=
  store_range (resize_to 8 0 []) 0 (le_bytes 8 (byte_swap64 partition_uuid)).

Definition get_error_map_fill_body (version : Z) : outcome E bytes :=
  store_range (resize_to 2 0 []) 0 (le_bytes 2 (byte_swap16 version)).
End fill.

(** ** Instances: which bodies are safe *)

Section instances.
Context `{JsonParser}.

Definition document_response (op : ClientOpcode.client_opcode) : ResponseBody document_body :=
  {| body_opcode := enum_code op; body_init := empty_document; body_parse := parse_document op |}.
Definition mutation_response (op : ClientOpcode.client_opcode) : ResponseBody mutation_token :=
  {| body_opcode := enum_code op; body_init := empty_token; body_parse := parse_mutation op |}.
Definition get_meta_response : ResponseBody get_meta_body :=
  {| body_opcode := enum_code ClientOpcode.get_meta; body_init := empty_meta;
     body_parse := get_meta_parse |}.
Definition collection_id_response : ResponseBody collection_id_body :=
  {| body_opcode := enum_code ClientOpcode.get_collection_id; body_init := CollectionIdBody 0 0;
     body_parse := get_collection_id_parse |}.
Definition sasl_list_response : ResponseBody (list bytes) :=
  {| body_opcode := enum_code ClientOpcode.sasl_list_mechs; body_init := [];
     body_parse := sasl_list_mechs_parse |}.
Definition sasl_response (op : ClientOpcode.client_opcode) sts : ResponseBody bytes :=
  {| body_opcode := enum_code op; body_init := []; body_parse := parse_sasl op sts |}.
Definition empty_response (op : ClientOpcode.client_opcode) : ResponseBody unit :=
  {| body_opcode := enum_code op; body_init := (); body_parse := parse_nothing op |}.

Lemma expect_opcode_ok op header :
  at_ (E:=response_error) header 1 = Ok (enum_code op) → expect_opcode op header = Ok ().
Proof. intros Hh. unfold expect_opcode. rewrite Hh. cbn. by rewrite Z.eqb_refl. Qed.

Lemma tail_from_ok body off : 0 ≤ off ≤ zsize body → tail_from body off = Ok (drop (Z.to_nat off) body).
Proof.
  intros. unfold tail_from. rewrite range_ok by lia. f_equal. apply take_ge.
  rewrite length_drop. unfold zsize in *. lia.
Qed.

Lemma load_token_ok body off : 0 ≤ off → off + 16 ≤ zsize body → ∃ t, load_token body off = Ok t.
Proof.
  intros. unfold load_token. destruct (load64_in_range (E:=response_error) body off) as [? ->]; [lia..|].
  destruct (load64_in_range (E:=response_error) body (off + 8)) as [? ->]; [lia..|]. by eexists.
Qed.

(** Resolves the loads of a straight-line parser one by one. *)
Ltac run_loads :=
  cbn [mbind outcome_bind];
  repeat match goal with
    | |- context [load16 (E:=?e) ?b ?o ≫= _] =>
        destruct (load16_in_range (E:=e) b o) as [? ->]; [lia..|]; cbn [mbind outcome_bind]
    | |- context [load32 (E:=?e) ?b ?o ≫= _] =>
        destruct (load32_in_range (E:=e) b o) as [? ->]; [lia..|]; cbn [mbind outcome_bind]
    | |- context [load64 (E:=?e) ?b ?o ≫= _] =>
        destruct (load64_in_range (E:=e) b o) as [? ->]; [lia..|]; cbn [mbind outcome_bind]
    | |- context [at_ (E:=?e) ?b ?o ≫= _] =>
        destruct (at_in_range (E:=e) b o) as (? & -> & _); [lia|]; cbn [mbind outcome_bind]
    | |- context [load_token ?b ?o ≫= _] =>
        destruct (load_token_ok b o) as [? ->]; [lia..|]; cbn [mbind outcome_bind]
    | |- context [tail_from ?b ?o ≫= _] =>
        rewrite (tail_from_ok b o) by lia; cbn [mbind outcome_bind]
    end.

Ltac safe_body :=
  constructor; intros status header framing key ext body Hop Hf Hk He Hsz Hb;
  cbn [body_parse body_opcode document_response mutation_response get_meta_response
    collection_id_response sasl_list_response sasl_response empty_response] in *;
  unfold parse_document, parse_mutation, get_meta_parse, get_collection_id_parse,
    sasl_list_mechs_parse, parse_sasl, parse_nothing;
  rewrite expect_opcode_ok by done; cbn [mbind outcome_bind].

Global Instance document_safe op : SafeBody (H0 := document_response op) document_body.
Proof. safe_body. case_match; [|done]. case_decide; run_loads; exact I. Qed.

Global Instance mutation_safe op : SafeBody (H0 := mutation_response op) mutation_token.
Proof. safe_body. case_match; [|done]. case_decide; run_loads; exact I. Qed.

Global Instance get_meta_safe : SafeBody (H0 := get_meta_response) get_meta_body.
Proof. safe_body. case_match; [|done]. case_decide; run_loads; exact I. Qed.

Global Instance collection_id_safe : SafeBody (H0 := collection_id_response) collection_id_body.
Proof.
  safe_body. destruct (_ && _) eqn:Hc; [|done].
  apply andb_true_iff in Hc as [_ Hc%bool_decide_eq_true]. run_loads. done.
Qed.

Global Instance sasl_list_safe : SafeBody (H0 := sasl_list_response) (list bytes).
Proof.
  safe_body. case_match; [|done]. rewrite range_ok by lia. cbn [mbind outcome_bind]. run_loads. done.
Qed.

Global Instance sasl_safe op sts : SafeBody (H0 := sasl_response op sts) bytes.
Proof. safe_body. case_match; [|done]. run_loads. done. Qed.

Global Instance empty_safe op : SafeBody (H0 := empty_response op) unit.
Proof. safe_body. done. Qed.
End instances.

(** ** Loads and stores against the byte order of the network *)

Section fields.
Context {E : Type}.

Lemma load16_app (pre post : bytes) v i :
  is_u16 v → i = zsize pre → load16 (E:=E) (pre ++ be_bytes 2 v ++ post) i = Ok v.
Proof.
  intros Hv ->. unfold load16. rewrite range_app by (done || by rewrite zsize_be_bytes).
  cbn [fmap outcome_fmap]. f_equal. rewrite byte_swap16_le by (apply be_bytes_ok || apply length_be_bytes).
  by apply be_value_be_bytes_small.
Qed.

Lemma load32_app (pre post : bytes) v i :
  is_u32 v → i = zsize pre → load32 (E:=E) (pre ++ be_bytes 4 v ++ post) i = Ok v.
Proof.
  intros Hv ->. unfold load32. rewrite range_app by (done || by rewrite zsize_be_bytes).
  cbn [fmap outcome_fmap].
  f_equal. rewrite byte_swap32_le by (apply be_bytes_ok || apply length_be_bytes).
  by apply be_value_be_bytes_small.
Qed.
End fields.

(** ** Sub-document entries *)

Definition entry_bytes (status : Z) (value : bytes) : bytes :=
  be_bytes 2 status ++ be_bytes 4 (zsize value) ++ value.

Definition lookup_entry_bytes (f : lookup_in_field) : bytes := entry_bytes (lf_status f) (lf_value f).

Definition mutate_entry_bytes (f : mutate_in_field) : bytes :=
  mf_index f :: (if is_enum (mf_status f) Status.success then entry_bytes (mf_status f) (mf_value f)
                 else be_bytes 2 (mf_status f)).

Definition lookup_field_ok (f : lookup_in_field) : Prop :=
  is_u16 (lf_status f) ∧ is_valid_status (lf_status f) = true ∧ zsize (lf_value f) < max_entry_size.

Definition mutate_field_ok (f : mutate_in_field) : Prop :=
  is_u16 (mf_status f) ∧ is_valid_status (mf_status f) = true ∧ zsize (mf_value f) < max_entry_size ∧
  (is_enum (mf_status f) Status.success = false → mf_value f = []).

Section entries.

Lemma load_entry_size (pre post value : bytes) i :
  zsize value < max_entry_size → i = zsize pre →
  (entry_size ← load32 (pre ++ be_bytes 4 (zsize value) ++ value ++ post) i;
   _ ← expects (bool_decide (entry_size < max_entry_size));
   v ← range (pre ++ be_bytes 4 (zsize value) ++ value ++ post) (i + 4) entry_size;
   Ok (i + 4 + entry_size, v)) = Ok (E:=response_error) (i + 4 + zsize value, value).
Proof.
  intros Hv ->. pose proof (zsize_nonneg value).
  rewrite load32_app by (done || (unfold max_entry_size in Hv; width_lia)). cbn [mbind outcome_bind].
  rewrite bool_decide_true by done. cbn [expects mbind outcome_bind].
  rewrite (app_assoc pre), range_app; [done| |done]. rewrite zsize_app, zsize_be_bytes. lia.
Qed.

Lemma lookup_entry_spec (pre post : bytes) f fs :
  lookup_field_ok f →
  lookup_entry (pre ++ lookup_entry_bytes f ++ post) (zsize pre, fs) =
    Ok (zsize pre + zsize (lookup_entry_bytes f), fs ++ [f]).
Proof.
  intros (Hs & Hv & Hz). unfold lookup_entry, lookup_entry_bytes, entry_bytes. rewrite <-!app_assoc.
  rewrite load16_app by done. cbn [mbind outcome_bind]. rewrite Hv. cbn [expects mbind outcome_bind].
  pose proof (load_entry_size (pre ++ be_bytes 2 (lf_status f)) post (lf_value f) (zsize pre + 2) Hz) as He.
  rewrite <-app_assoc in He. specialize (He ltac:(by rewrite zsize_app, zsize_be_bytes)).
  apply bind_Ok in He as (es & -> & He). cbn [mbind outcome_bind].
  apply bind_Ok in He as ([] & -> & He). cbn [mbind outcome_bind].
  apply bind_Ok in He as (v & -> & He). cbn [mbind outcome_bind]. simplify_eq.
  destruct f as [st val]. cbn [lf_status lf_value] in *. do 2 f_equal. rewrite !zsize_app, !zsize_be_bytes. lia.
Qed.

Lemma mutate_entry_spec (pre post : bytes) f fs :
  mutate_field_ok f →
  mutate_entry (pre ++ mutate_entry_bytes f ++ post) (zsize pre, fs) =
    Ok (zsize pre + zsize (mutate_entry_bytes f), fs ++ [f]).
Proof.
  intros (Hs & Hv & Hz & Hemp). unfold mutate_entry, mutate_entry_bytes, entry_bytes. cbn [app].
  rewrite at_app_0. cbn [mbind outcome_bind].
  assert (Hst : ∀ rest, pre ++ mf_index f :: be_bytes 2 (mf_status f) ++ rest =
    (pre ++ [mf_index f]) ++ be_bytes 2 (mf_status f) ++ rest) by (intros; by rewrite <-app_assoc).
  destruct (is_enum (mf_status f) Status.success) eqn:Hsuc.
  - rewrite <-!app_assoc, Hst. rewrite load16_app by (done || by rewrite zsize_app).
    cbn [mbind outcome_bind]. rewrite Hv, Hsuc. cbn [expects mbind outcome_bind].
    pose proof (load_entry_size ((pre ++ [mf_index f]) ++ be_bytes 2 (mf_status f)) post (mf_value f)
      (zsize pre + 1 + 2) Hz) as He.
    rewrite <-(app_assoc (pre ++ [mf_index f])) in He. specialize (He ltac:(rewrite !zsize_app, zsize_be_bytes; size_lia)).
    apply bind_Ok in He as (es & -> & He). cbn [mbind outcome_bind].
    apply bind_Ok in He as ([] & -> & He). cbn [mbind outcome_bind].
    apply bind_Ok in He as (v & -> & He). cbn [mbind outcome_bind]. simplify_eq.
    destruct f as [ix st val]. cbn [mf_index mf_status mf_value] in *. do 2 f_equal.
    rewrite zsize_cons, !zsize_app, !zsize_be_bytes. lia.
  - rewrite Hst, load16_app by (done || by rewrite zsize_app). cbn [mbind outcome_bind].
    rewrite Hv, Hsuc. cbn [expects mbind outcome_bind].
    destruct f as [ix st val]. cbn [mf_index mf_status mf_value] in *. rewrite Hemp by done.
    do 2 f_equal. rewrite zsize_cons, zsize_be_bytes. lia.
Qed.

(** A loop that reads one entry per iteration reads a sequence of entries. *)
Lemma entries_loop {A} (entry : A → bytes) (ok : A → Prop)
    (step : bytes → Z * list A → res (Z * list A)) :
  (∀ a, 0 < zsize (entry a)) →
  (∀ pre post a acc, ok a →
     step (pre ++ entry a ++ post) (zsize pre, acc) = Ok (zsize pre + zsize (entry a), acc ++ [a])) →
  ∀ xs pre acc n, Forall ok xs → (length (concat (map entry xs)) ≤ n)%nat →
  let body := pre ++ concat (map entry xs) in
  while_loop n (λ st, bool_decide (st.1 < zsize body)) (step body) (zsize pre, acc) =
    Ok (zsize body, acc ++ xs).
Proof.
  intros Hpos Hstep xs. induction xs as [|x xs IH]; intros pre acc n Hok Hn; cbn [map concat].
  - rewrite while_loop_done; [by rewrite !app_nil_r|].
    rewrite app_nil_r. apply bool_decide_eq_false. simpl. lia.
  - apply Forall_cons in Hok as [Hx Hok]. cbn [map concat] in Hn. rewrite length_app in Hn.
    pose proof (Hpos x) as Hp. pose proof (zsize_nonneg (concat (map entry xs))).
    destruct n as [|n]; [unfold zsize in Hp; lia|].
    erewrite while_loop_step; [|apply bool_decide_eq_true; simpl; rewrite !zsize_app; lia|by apply Hstep].
    rewrite <-zsize_app. rewrite (app_assoc pre (entry x)).
    cbv zeta in IH. rewrite IH by (done || (unfold zsize in Hp; lia)). by rewrite <-(app_assoc acc).
Qed.

(** Sub-document responses round trip.  For any prefixes and any list of
    well-formed entries, [parse] of the look-up and of the mutation responses
    terminates at the end of the body and returns exactly those entries, in
    order; entries that failed carry no value in a mutation response. *)
Theorem subdoc_response_roundtrip header framing key (prefix extras : bytes) lookups mutations :
  zsize prefix = framing + key → 0 ≤ framing → 0 ≤ key → zsize extras ≠ 16 →
  Forall lookup_field_ok lookups → Forall mutate_field_ok mutations →
  at_ (E:=response_error) header 1 = Ok (enum_code ClientOpcode.subdoc_multi_lookup) →
  lookup_in_parse (enum_code Status.success) header framing key (zsize extras)
    (prefix ++ extras ++ concat (map lookup_entry_bytes lookups)) = Ok (true, lookups) ∧
  ∀ header', at_ (E:=response_error) header' 1 = Ok (enum_code ClientOpcode.subdoc_multi_mutation) →
  mutate_in_parse (enum_code Status.success) header' framing key (zsize extras)
    (prefix ++ extras ++ concat (map mutate_entry_bytes mutations)) =
    Ok (true, MutateInBody mutations empty_token).
Proof.
  intros Hp Hf Hk Hx Hl Hm Ho. split.
  - unfold lookup_in_parse, parse_lookup_in. rewrite expect_opcode_ok by done. cbn [mbind outcome_bind].
    change (is_one_of (enum_code Status.success) lookup_in_statuses) with true. cbv iota.
    rewrite app_assoc. replace (framing + key + zsize extras) with (zsize (prefix ++ extras)) by size_lia.
    rewrite (entries_loop lookup_entry_bytes lookup_field_ok lookup_entry); [done| |by intros; apply lookup_entry_spec|done|].
    + intros [st v]. unfold lookup_entry_bytes, entry_bytes. rewrite !zsize_app, !zsize_be_bytes. size_lia.
    + rewrite length_app. lia.
  - intros header' Ho'. unfold mutate_in_parse. rewrite expect_opcode_ok by done. cbn [mbind outcome_bind].
    change (is_one_of (enum_code Status.success) _) with true. cbv iota.
    rewrite decide_False by done. cbn [mbind outcome_bind]. rewrite app_assoc.
    replace (framing + zsize extras + key) with (zsize (prefix ++ extras)) by size_lia.
    rewrite (entries_loop mutate_entry_bytes mutate_field_ok mutate_entry); [done| |by intros; apply mutate_entry_spec|done|].
    + intros [ix st v]. unfold mutate_entry_bytes. size_lia.
    + rewrite length_app. lia.
Qed.
End entries.

(** Counters read past short responses.  A successful increment or
    decrement response whose value is shorter than eight bytes, which nothing
    before has checked, makes [parse] read outside of the body. *)
Theorem counter_short_value op header framing key ext body :
  at_ (E:=response_error) header 1 = Ok (enum_code op) →
  0 ≤ framing → 0 ≤ key → framing + ext + key ≤ zsize body →
  (ext = 16 → zsize body < framing + 16 + key + 8) → (ext ≠ 16 → zsize body < framing + key + 8) →
  parse_counter op (enum_code Status.success) header framing key ext body = Fault.
Proof.
  intros Ho Hf Hk Hsz H16 Hn16. unfold parse_counter. rewrite expect_opcode_ok by done.
  cbn [mbind outcome_bind]. change (is_enum _ Status.success) with true. cbv iota.
  case_decide as He.
  - destruct (load_token_ok body framing) as [t ->]; [lia..|]. cbn [mbind outcome_bind].
    unfold load64, range. by rewrite decide_False by lia.
  - cbn [mbind outcome_bind]. unfold load64, range. by rewrite decide_False by lia.
Qed.

Lemma counter_short_value_witness :
  parse_counter ClientOpcode.increment (enum_code Status.success) (0x81 :: 5 :: replicate 22 0) 0 0 0 [1; 2; 3] = Fault.
Proof. by apply (counter_short_value ClientOpcode.increment). Defined.

Definition example_lookups : list lookup_in_field :=
  [LookupInField 0 [49; 50]; LookupInField (enum_code Status.subdoc_path_not_found) []].
Definition example_mutations : list mutate_in_field :=
  [MutateInField 0 0 [51]; MutateInField 1 (enum_code Status.subdoc_path_not_found) []].

Lemma subdoc_response_roundtrip_witness :
  lookup_in_parse (enum_code Status.success) (0x81 :: 0xd0 :: replicate 22 0) 3 0 0
    ([2; 0; 1] ++ [] ++ concat (map lookup_entry_bytes example_lookups)) = Ok (true, example_lookups) ∧
  ∀ header', at_ (E:=response_error) header' 1 = Ok (enum_code ClientOpcode.subdoc_multi_mutation) →
  mutate_in_parse (enum_code Status.success) header' 3 0 0
    ([2; 0; 1] ++ [] ++ concat (map mutate_entry_bytes example_mutations)) =
    Ok (true, MutateInBody example_mutations empty_token).
Proof.
  apply (subdoc_response_roundtrip _ 3 0 [2; 0; 1] []); try done.
  - repeat constructor; by vm_compute.
  - repeat constructor; by vm_compute.
Defined.

Definition example_answer (opcode : Z) : mcbp_message :=
  McbpMessage (BinaryHeader 0x81 opcode 0 4 0 0 (byte_swap32 6) 0 0) [0; 0; 0; 1; 123; 125].

Lemma client_response_safe_witness :
  let _ := no_json in
  let _ := document_response ClientOpcode.get in
  defined (make_client_response (B:=document_body) (example_answer 0)) ∧
  make_client_response (B:=document_body) (example_answer 1) = Fault.
Proof.
  intros J B. split.
  - apply (client_response_safe (B:=document_body) (example_answer 0)); [|done]. repeat constructor; by vm_compute.
  - apply (client_response_safe (B:=document_body) (example_answer 1)); [|done]. repeat constructor; by vm_compute.
Defined.

(** ** Sub-document requests *)

Definition lookup_spec_bytes (s : subdoc_command) : bytes :=
  [u8 (sc_opcode s); sc_flags s] ++ be_bytes 2 (u16 (zsize (sc_path s))) ++ sc_path s.

Definition mutate_spec_bytes (s : subdoc_command) : bytes :=
  [u8 (sc_opcode s); sc_flags s] ++ be_bytes 2 (u16 (zsize (sc_path s))) ++
  be_bytes 4 (zsize (sc_value s)) ++ sc_path s ++ sc_value s.

Section specs.
Context {E : Type}.

(** A sequence of stores at the end of what is written so far. *)
Ltac append_stores :=
  repeat (rewrite store_append;
    [|rewrite ?zsize_app, ?zsize_cons, ?zsize_be_bytes, ?zsize_nil; lia
     |cbn [length] in *; rewrite ?length_app, ?length_be_bytes in *; cbn [length] in *; lia];
    cbn [mbind outcome_bind]).

(** Equal up to the amount of zeros left at the end. *)
Ltac same_padding :=
  rewrite <-?app_assoc; cbn [app]; rewrite <-?app_assoc;
  match goal with
  | |- ?l = ?r =>
      match l with
      | context [replicate ?a 0] =>
          match r with context [replicate ?b 0] => replace a with b by (simpl; lia); reflexivity end
      end
  end.

Lemma lookup_in_write_spec (l : bytes) s n :
  (length (lookup_spec_bytes s) ≤ n)%nat →
  lookup_in_write (E:=E) (l ++ replicate n 0) (zsize l) s =
    Ok ((l ++ lookup_spec_bytes s) ++ replicate (n - length (lookup_spec_bytes s)) 0,
        zsize l + zsize (lookup_spec_bytes s)).
Proof.
  intros Hn. unfold lookup_in_write. rewrite byte_swap16_store by (apply wrap_in_width; lia).
  unfold lookup_spec_bytes in *. cbn [app] in *. append_stores.
  rewrite <-!app_assoc. cbn [app length]. rewrite !length_app, !length_be_bytes.
  apply f_equal, pair_equal_spec. split; [same_padding|]. rewrite !zsize_cons, zsize_app, zsize_be_bytes. lia.
Qed.

Lemma byte_swap32_zero v : is_u32 v → byte_swap32 v = 0 ↔ v = 0.
Proof.
  intros Hv. split; [|by intros ->]. intros Hz.
  rewrite <-(byte_swap32_involutive v Hv), Hz. done.
Qed.

Lemma mutate_in_write_spec (l : bytes) s n :
  zsize (sc_value s) < 2 ^ 32 → (length (mutate_spec_bytes s) ≤ n)%nat →
  mutate_in_write (E:=E) (l ++ replicate n 0) (zsize l) s =
    Ok ((l ++ mutate_spec_bytes s) ++ replicate (n - length (mutate_spec_bytes s)) 0,
        zsize l + zsize (mutate_spec_bytes s)).
Proof.
  intros Hv Hn. unfold mutate_in_write. pose proof (zsize_nonneg (sc_value s)).
  rewrite (wrap_small 32) by width_lia.
  rewrite byte_swap16_store by (apply wrap_in_width; lia). rewrite byte_swap32_store by width_lia.
  unfold mutate_spec_bytes in *. cbn [app] in *. append_stores.
  case_decide as Hz.
  - append_stores.
    rewrite <-!app_assoc. cbn [app length]. rewrite !length_app, !length_be_bytes.
    apply f_equal, pair_equal_spec. split; [same_padding|].
    rewrite !zsize_cons, !zsize_app, !zsize_be_bytes. lia.
  - apply byte_swap32_zero, zsize_0_inv in Hz; [|width_lia].
    rewrite Hz, !app_nil_r in *.
    rewrite <-!app_assoc. cbn [app length]. rewrite !length_app, !length_be_bytes in *.
    apply f_equal, pair_equal_spec. split; [same_padding|].
    rewrite !zsize_cons, !zsize_app, !zsize_be_bytes. lia.
Qed.

Lemma write_specs_spec write (enc : subdoc_command → bytes) (ok : subdoc_command → Prop) specs :
  (∀ l s n, ok s → (length (enc s) ≤ n)%nat →
     write (l ++ replicate n 0) (zsize l) s =
     Ok (E:=E) ((l ++ enc s) ++ replicate (n - length (enc s)) 0, zsize l + zsize (enc s))) →
  Forall ok specs → ∀ l,
  write_specs write (l ++ replicate (length (concat (map enc specs))) 0) (zsize l) specs =
    Ok (l ++ concat (map enc specs)).
Proof.
  intros Hw Hok. induction Hok as [|s specs Hs Hok IH]; intros l; cbn [map concat write_specs]; [done|].
  rewrite length_app, Hw by (done || lia). cbn [mbind outcome_bind].
  rewrite <-zsize_app, (Nat.add_comm (length (enc s))), Nat.add_sub, IH. by rewrite <-app_assoc.
Qed.

Lemma resize_nil n : 0 ≤ n → resize_to n 0 ([] : bytes) = replicate (Z.to_nat n) 0.
Proof. intros. unfold resize_to. by rewrite resize_nil. Qed.

(** Sub-document requests.  For every non-empty list of commands (values
    below 4 GiB) the size computed first is exactly the size written, the
    buffer is never exceeded, and the value is the concatenation of the
    encodings of the commands in order. *)
Theorem subdoc_request_layout specs :
  specs ≠ [] → Forall (λ s, zsize (sc_value s) < 2 ^ 32) specs →
  lookup_in_fill_value (E:=E) specs = Ok (concat (map lookup_spec_bytes specs)) ∧
  mutate_in_fill_value (E:=E) specs = Ok (concat (map mutate_spec_bytes specs)).
Proof.
  intros Hne Hv.
  assert (Hsum : ∀ (enc : subdoc_command → bytes) (size : subdoc_command → Z),
    (∀ s, size s = zsize (enc s) ∧ 0 < size s) →
    foldr (λ s n, size s + n) 0 specs = zsize (concat (map enc specs)) ∧
    0 < zsize (concat (map enc specs))).
  { intros enc size Hsz. destruct specs as [|s0 specs0]; [done|]. clear Hne Hv. split.
    - induction (s0 :: specs0) as [|s ss IH]; [done|]. cbn. rewrite zsize_app, IH.
      destruct (Hsz s) as [-> _]. done.
    - cbn. rewrite zsize_app. destruct (Hsz s0). size_lia. }
  split.
  - unfold lookup_in_fill_value.
    destruct (Hsum lookup_spec_bytes (λ s, 1 + 1 + 2 + zsize (sc_path s))) as [-> Hpos].
    { intros s. unfold lookup_spec_bytes. rewrite !zsize_app, zsize_be_bytes, !zsize_cons, zsize_nil.
      pose proof (zsize_nonneg (sc_path s)). lia. }
    rewrite bool_decide_true by done. cbn [expects mbind outcome_bind].
    rewrite resize_nil, zsize_to_nat by lia.
    apply (write_specs_spec _ lookup_spec_bytes (λ _, True)) with (l := []); [|by apply Forall_true].
    intros. by apply lookup_in_write_spec.
  - unfold mutate_in_fill_value.
    destruct (Hsum mutate_spec_bytes (λ s, 1 + 1 + 2 + zsize (sc_path s) + 4 + zsize (sc_value s)))
      as [-> Hpos].
    { intros s. unfold mutate_spec_bytes. rewrite !zsize_app, !zsize_be_bytes, !zsize_cons, zsize_nil.
      pose proof (zsize_nonneg (sc_path s)). pose proof (zsize_nonneg (sc_value s)). lia. }
    rewrite bool_decide_true by done. cbn [expects mbind outcome_bind].
    rewrite resize_nil, zsize_to_nat by lia.
    apply (write_specs_spec _ mutate_spec_bytes (λ s, zsize (sc_value s) < 2 ^ 32)) with (l := []);
      [|done]. intros. by apply mutate_in_write_spec.
Qed.
End specs.

Lemma subdoc_request_layout_witness :
  let specs := [SubdocCommand 0xc5 [97; 46; 98] [] 0; SubdocCommand 0xc7 [99] [49; 50] 1] in
  lookup_in_fill_value (E:=unit) specs = Ok (concat (map lookup_spec_bytes specs)) ∧
  mutate_in_fill_value (E:=unit) specs = Ok (concat (map mutate_spec_bytes specs)).
Proof. apply subdoc_request_layout; [done|]. repeat constructor. Defined.

(** ** SASL mechanisms *)

(** Words separated by single spaces. *)
Fixpoint join_spaces (ws : list bytes) : bytes :=
  match ws with
  | [] => []
  | [w] => w
  | w :: ws => w ++ 32 :: join_spaces ws
  end.

Lemma find_space_word (w rest : bytes) :
  Forall (λ b, b ≠ 32) w → find_space (w ++ 32 :: rest) = (w, Some rest).
Proof.
  induction 1 as [|b w Hb _ IH]; cbn [app find_space]; [done|].
  rewrite (proj2 (Z.eqb_neq b 32)) by done. by rewrite IH.
Qed.

Lemma find_space_none (w : bytes) : Forall (λ b, b ≠ 32) w → find_space w = (w, None).
Proof.
  induction 1 as [|b w Hb _ IH]; cbn [find_space]; [done|].
  rewrite (proj2 (Z.eqb_neq b 32)) by done. by rewrite IH.
Qed.

Lemma split_mechs_join ws w acc n :
  Forall (Forall (λ b, b ≠ 32)) (w :: ws) → (length (join_spaces (w :: ws)) < n)%nat →
  split_mechs n acc (join_spaces (w :: ws)) = (acc ++ w) :: ws.
Proof.
  revert w acc n. induction ws as [|w' ws IH]; intros w acc n Hw Hn;
    (destruct n as [|n]; [lia|]); apply Forall_cons in Hw as [Hw Hws].
  - cbn [join_spaces split_mechs]. by rewrite find_space_none.
  - change (join_spaces (w :: w' :: ws)) with (w ++ 32 :: join_spaces (w' :: ws)) in *.
    cbn [split_mechs]. rewrite find_space_word by done. f_equal.
    rewrite IH; [done|done|]. rewrite length_app in Hn. cbn [length] in Hn. lia.
Qed.

(** The list of SASL mechanisms.  The response is split at its spaces,
    and the fuel of the loop is always enough; but the first word starts at
    the beginning of the body, so any framing extras, extras or key become
    part of the name of the first mechanism. *)
Theorem sasl_mechs_split header framing key ext (prefix : bytes) mech mechs :
  at_ (E:=response_error) header 1 = Ok (enum_code ClientOpcode.sasl_list_mechs) →
  zsize prefix = framing + ext + key → Forall (Forall (λ b, b ≠ 32)) (mech :: mechs) →
  sasl_list_mechs_parse (enum_code Status.success) header framing key ext
    (prefix ++ join_spaces (mech :: mechs)) = Ok (true, (prefix ++ mech) :: mechs).
Proof.
  intros Ho Hp Hm. unfold sasl_list_mechs_parse. rewrite expect_opcode_ok by done.
  cbn [mbind outcome_bind]. change (is_enum _ Status.success) with true. cbv iota. rewrite <-Hp.
  pose proof (range_app (E:=response_error) [] prefix (join_spaces (mech :: mechs)) 0 (zsize prefix)
    eq_refl eq_refl) as Hr. cbn [app] in Hr. rewrite Hr. cbn [mbind outcome_bind].
  rewrite tail_from_ok by size_lia. cbn [mbind outcome_bind].
  rewrite zsize_to_nat, drop_app_length, split_mechs_join by (done || lia). done.
Qed.

Lemma sasl_mechs_split_witness :
  sasl_list_mechs_parse (enum_code Status.success) (0x18 :: 0x20 :: replicate 22 0) 3 0 0
    ([2; 0; 1] ++ join_spaces [[80; 76]; [83; 67]]) = Ok (true, [[2; 0; 1; 80; 76]; [83; 67]]).
Proof.
  apply (sasl_mechs_split _ 3 0 0 [2; 0; 1] [80; 76] [[83; 67]]); [done|done|].
  repeat constructor; discriminate.
Defined.
