(* ===== verification/Topology.v ===== *)
(** * Cluster topology: [core/topology/configuration.cxx], [core/utils/crc32.hxx]

    A configuration lists the nodes of a cluster with their ports and
    alternate addresses, and maps keys to nodes through the vbucket map.
    Strings are lists of bytes; [std::map] from names is [gmap]. *)

From S2P Require Import Prelude Protocol.

(** ** Names and decimal numbers *)

Definition name_default : bytes := [100; 101; 102; 97; 117; 108; 116].
Definition name_external : bytes := [101; 120; 116; 101; 114; 110; 97; 108].
Definition name_host : bytes := [36; 72; 79; 83; 84].

(** [fmt::format("{}", n)] for a non-negative number; a [w]-bit number has no
    more than [w] digits. *)
Fixpoint decimal_digits (fuel : nat) (n : Z) (acc : bytes) : bytes :=
  match fuel with
  | O => acc
  | S fuel =>
      let acc := (48 + n mod 10) :: acc in
      if decide (n < 10) then acc else decimal_digits fuel (n / 10) acc
  end.
Definition decimal (n : Z) : bytes := decimal_digits 64 n [].

(** [std::stoul] and [std::stol] in base 10: white space, a sign, digits; what
    follows the digits is ignored. *)
Inductive number_error := invalid_argument | out_of_range.

Definition is_space (b : Z) : bool := (b =? 32) || ((9 <=? b) && (b <=? 13)).
Definition is_digit (b : Z) : bool := (48 <=? b) && (b <=? 57).

Fixpoint skip_space (s : bytes) : bytes :=
  match s with b :: s' => if is_space b then skip_space s' else s | [] => [] end.

Fixpoint read_digits (s : bytes) (acc : Z) : Z :=
  match s with
  | b :: s => if is_digit b then read_digits s (acc * 10 + (b - 48)) else acc
  | [] => acc
  end.

Definition strtonum (s : bytes) : option (bool * Z) :=
  let s := skip_space s in
  let '(negative, s) :=
    match s with
    | 45 :: s' => (true, s')
    | 43 :: s' => (false, s')
    | _ => (false, s)
    end in
  match s with
  | b :: _ => if is_digit b then Some (negative, read_digits s 0) else None
  | [] => None
  end.

Definition stoul (s : bytes) : outcome number_error Z :=
  match strtonum s with
  | None => Err invalid_argument
  | Some (negative, n) =>
      if decide (2 ^ 64 ≤ n) then Err out_of_range
      else Ok (if negative : bool then u64 (- n) else n)
  end.

Definition stol (s : bytes) : outcome number_error Z :=
  match strtonum s with
  | None => Err invalid_argument
  | Some (negative, n) =>
      let v := if negative : bool then - n else n in
      if decide (- 2 ^ 63 ≤ v < 2 ^ 63) then Ok v else Err out_of_range
  end.

(** ** Key hashing *)

Definition crc32tab : list Z :=
  [0x00000000; 0x77073096; 0xee0e612c; 0x990951ba; 0x076dc419; 0x706af48f;
   0xe963a535; 0x9e6495a3; 0x0edb8832; 0x79dcb8a4; 0xe0d5e91e; 0x97d2d988;
   0x09b64c2b; 0x7eb17cbd; 0xe7b82d07; 0x90bf1d91; 0x1db71064; 0x6ab020f2;
   0xf3b97148; 0x84be41de; 0x1adad47d; 0x6ddde4eb; 0xf4d4b551; 0x83d385c7;
   0x136c9856; 0x646ba8c0; 0xfd62f97a; 0x8a65c9ec; 0x14015c4f; 0x63066cd9;
   0xfa0f3d63; 0x8d080df5; 0x3b6e20c8; 0x4c69105e; 0xd56041e4; 0xa2677172;
   0x3c03e4d1; 0x4b04d447; 0xd20d85fd; 0xa50ab56b; 0x35b5a8fa; 0x42b2986c;
   0xdbbbc9d6; 0xacbcf940; 0x32d86ce3; 0x45df5c75; 0xdcd60dcf; 0xabd13d59;
   0x26d930ac; 0x51de003a; 0xc8d75180; 0xbfd06116; 0x21b4f4b5; 0x56b3c423;
   0xcfba9599; 0xb8bda50f; 0x2802b89e; 0x5f058808; 0xc60cd9b2; 0xb10be924;
   0x2f6f7c87; 0x58684c11; 0xc1611dab; 0xb6662d3d; 0x76dc4190; 0x01db7106;
   0x98d220bc; 0xefd5102a; 0x71b18589; 0x06b6b51f; 0x9fbfe4a5; 0xe8b8d433;
   0x7807c9a2; 0x0f00f934; 0x9609a88e; 0xe10e9818; 0x7f6a0dbb; 0x086d3d2d;
   0x91646c97; 0xe6635c01; 0x6b6b51f4; 0x1c6c6162; 0x856530d8; 0xf262004e;
   0x6c0695ed; 0x1b01a57b; 0x8208f4c1; 0xf50fc457; 0x65b0d9c6; 0x12b7e950;
   0x8bbeb8ea; 0xfcb9887c; 0x62dd1ddf; 0x15da2d49; 0x8cd37cf3; 0xfbd44c65;
   0x4db26158; 0x3ab551ce; 0xa3bc0074; 0xd4bb30e2; 0x4adfa541; 0x3dd895d7;
   0xa4d1c46d; 0xd3d6f4fb; 0x4369e96a; 0x346ed9fc; 0xad678846; 0xda60b8d0;
   0x44042d73; 0x33031de5; 0xaa0a4c5f; 0xdd0d7cc9; 0x5005713c; 0x270241aa;
   0xbe0b1010; 0xc90c2086; 0x5768b525; 0x206f85b3; 0xb966d409; 0xce61e49f;
   0x5edef90e; 0x29d9c998; 0xb0d09822; 0xc7d7a8b4; 0x59b33d17; 0x2eb40d81;
   0xb7bd5c3b; 0xc0ba6cad; 0xedb88320; 0x9abfb3b6; 0x03b6e20c; 0x74b1d29a;
   0xead54739; 0x9dd277af; 0x04db2615; 0x73dc1683; 0xe3630b12; 0x94643b84;
   0x0d6d6a3e; 0x7a6a5aa8; 0xe40ecf0b; 0x9309ff9d; 0x0a00ae27; 0x7d079eb1;
   0xf00f9344; 0x8708a3d2; 0x1e01f268; 0x6906c2fe; 0xf762575d; 0x806567cb;
   0x196c3671; 0x6e6b06e7; 0xfed41b76; 0x89d32be0; 0x10da7a5a; 0x67dd4acc;
   0xf9b9df6f; 0x8ebeeff9; 0x17b7be43; 0x60b08ed5; 0xd6d6a3e8; 0xa1d1937e;
   0x38d8c2c4; 0x4fdff252; 0xd1bb67f1; 0xa6bc5767; 0x3fb506dd; 0x48b2364b;
   0xd80d2bda; 0xaf0a1b4c; 0x36034af6; 0x41047a60; 0xdf60efc3; 0xa867df55;
   0x316e8eef; 0x4669be79; 0xcb61b38c; 0xbc66831a; 0x256fd2a0; 0x5268e236;
   0xcc0c7795; 0xbb0b4703; 0x220216b9; 0x5505262f; 0xc5ba3bbe; 0xb2bd0b28;
   0x2bb45a92; 0x5cb36a04; 0xc2d7ffa7; 0xb5d0cf31; 0x2cd99e8b; 0x5bdeae1d;
   0x9b64c2b0; 0xec63f226; 0x756aa39c; 0x026d930a; 0x9c0906a9; 0xeb0e363f;
   0x72076785; 0x05005713; 0x95bf4a82; 0xe2b87a14; 0x7bb12bae; 0x0cb61b38;
   0x92d28e9b; 0xe5d5be0d; 0x7cdcefb7; 0x0bdbdf21; 0x86d3d2d4; 0xf1d4e242;
   0x68ddb3f8; 0x1fda836e; 0x81be16cd; 0xf6b9265b; 0x6fb077e1; 0x18b74777;
   0x88085ae6; 0xff0f6a70; 0x66063bca; 0x11010b5c; 0x8f659eff; 0xf862ae69;
   0x616bffd3; 0x166ccf45; 0xa00ae278; 0xd70dd2ee; 0x4e048354; 0x3903b3c2;
   0xa7672661; 0xd06016f7; 0x4969474d; 0x3e6e77db; 0xaed16a4a; 0xd9d65adc;
   0x40df0b66; 0x37d83bf0; 0xa9bcae53; 0xdebb9ec5; 0x47b2cf7f; 0x30b5ffe9;
   0xbdbdf21c; 0xcabac28a; 0x53b39330; 0x24b4a3a6; 0xbad03605; 0xcdd70693;
   0x54de5729; 0x23d967bf; 0xb3667a2e; 0xc4614ab8; 0x5d681b02; 0x2a6f2b94;
   0xb40bbe37; 0xc30c8ea1; 0x5a05df1b; 0x2d02ef8d].

Section crc.
Context {E : Type}.

(** The loop over the characters of the key. *)
Fixpoint crc32_loop (crc : Z) (key : bytes) : outcome E Z :=
  match key with
  | [] => Ok crc
  | b :: key =>
      t ← at_ crc32tab (Z.land (Z.lxor crc b) 0xff);
      crc32_loop (Z.lxor (Z.shiftr crc 8) t) key
  end.

Definition hash_crc32 (key : bytes) : outcome E Z :=
  crc ← crc32_loop (2 ^ 32 - 1) key;
  Ok (Z.land (Z.shiftr (u32 (Z.lnot crc)) 16) 0x7fff).
End crc.

(** ** Capabilities: [core/topology/capabilities.hxx] *)

Module Capability.
Inductive bucket_capability :=
  | couchapi | xattr | dcp | cbhello | touch | cccp | xdcr_checkpointing | nodes_ext | collections
  | durable_write | tombstoned_user_xattrs | range_scan | non_deduped_history
  | subdoc_replace_body_with_xattr | subdoc_document_macro_support | subdoc_revive_document
  | dcp_ignore_purged_tombstones | preserve_expiry | query_system_collection
  | mobile_system_collection | subdoc_replica_read | subdoc_access_deleted.

Inductive cluster_capability :=
  | n1ql_cost_based_optimizer | n1ql_index_advisor | n1ql_javascript_functions | n1ql_inline_functions
  | n1ql_enhanced_prepared_statements | n1ql_read_from_replica | search_vector_search
  | search_scoped_search_index.

#[export] Instance bucket_capability_eq_dec : EqDecision bucket_capability.
Proof. solve_decision. Defined.
#[export] Instance cluster_capability_eq_dec : EqDecision cluster_capability.
Proof. solve_decision. Defined.

(** The sets [bucket] and [cluster], of which only membership is asked, and [prod] *)
Record configuration_capabilities := ConfigurationCapabilities {
  cap_bucket : list bucket_capability;
  cap_cluster : list cluster_capability;
  cap_prod : option bytes;
}.
Definition no_capabilities : configuration_capabilities := ConfigurationCapabilities [] [] None.

Definition has_cluster_capability (cs : configuration_capabilities) (cap : cluster_capability) : bool :=
  bool_decide (cap ∈ cap_cluster cs).
Definition has_bucket_capability (cs : configuration_capabilities) (cap : bucket_capability) : bool :=
  bool_decide (cap ∈ cap_bucket cs).
Definition supports_range_scan (cs : configuration_capabilities) : bool := has_bucket_capability cs range_scan.
Definition ephemeral (cs : configuration_capabilities) : bool := has_bucket_capability cs couchapi.
Definition supports_subdoc_read_replica (cs : configuration_capabilities) : bool :=
  has_bucket_capability cs subdoc_replica_read.
Definition supports_subdoc_access_deleted (cs : configuration_capabilities) : bool :=
  has_bucket_capability cs subdoc_access_deleted.

(** [is_analytics_cluster]: a cluster of another product *)
Definition is_analytics_cluster (cs : configuration_capabilities) (allow_enterprise_analytics : bool) : bool :=
  if allow_enterprise_analytics then false
  else bool_decide (cap_prod cs = Some [97; 110; 97; 108; 121; 116; 105; 99; 115]).
End Capability.

(** ** Configurations *)

Inductive service_type := key_value | query | analytics | search | view | management | eventing.

Record port_map := PortMap {
  pm_key_value : option Z;
  pm_management : option Z;
  pm_analytics : option Z;
  pm_search : option Z;
  pm_views : option Z;
  pm_query : option Z;
  pm_eventing : option Z;
}.
Definition no_ports : port_map := PortMap None None None None None None None.

Record alternate_address := AlternateAddress {
  aa_name : bytes;
  aa_hostname : bytes;
  aa_services_plain : port_map;
  aa_services_tls : port_map;
}.

Record node := Node {
  this_node : bool;
  node_index : Z;
  hostname : bytes;
  services_plain : port_map;
  services_tls : port_map;
  alt : gmap bytes alternate_address;
  server_group : bytes;
  node_uuid : bytes;
}.
Definition default_node : node := Node false 0 [] no_ports no_ports ∅ [] [].

Record configuration := Configuration {
  cfg_epoch : option Z;
  cfg_rev : option Z;
  num_replicas : option Z;
  nodes : list node;
  vbmap : option (list (list Z));
  capabilities : Capability.configuration_capabilities;
  force : bool;
}.

(** The member of a port map that belongs to a service. *)
Definition service_port (m : port_map) (type : service_type) : option Z :=
  match type with
  | query => pm_query m
  | analytics => pm_analytics m
  | search => pm_search m
  | view => pm_views m
  | management => pm_management m
  | key_value => pm_key_value m
  | eventing => pm_eventing m
  end.

Definition value_or {A} (o : option A) (d : A) : A := match o with Some a => a | None => d end.

(** [node::port_or(type, is_tls, default_value)] *)
Definition port_or (n : node) (type : service_type) (is_tls : bool) (default_value : Z) : Z :=
  if is_tls then value_or (service_port (services_tls n) type) default_value
  else value_or (service_port (services_plain n) type) default_value.

Definition hostname_for (n : node) (network : bytes) : bytes :=
  if decide (network = name_default) then hostname n
  else match alt n !! network with
       | Some address => aa_hostname address
       | None => hostname n
       end.

(** [node::port_or(network, type, is_tls, default_value)] *)
Definition network_port_or (n : node) (network : bytes) (type : service_type) (is_tls : bool)
    (default_value : Z) : Z :=
  if decide (network = name_default) then port_or n type is_tls default_value
  else match alt n !! network with
       | Some address =>
           if is_tls then value_or (service_port (aa_services_tls address) type) default_value
           else value_or (service_port (aa_services_plain address) type) default_value
       | None => port_or n type is_tls default_value
       end.

Definition endpoint (n : node) (network : bytes) (type : service_type) (is_tls : bool) : option bytes :=
  let p := port_or n type is_tls 0 in
  if decide (p = 0) then None
  else Some (hostname_for n network ++ 58 :: decimal p).

Definition has_node (c : configuration) (network : bytes) (type : service_type) (is_tls : bool)
    (host port : bytes) : bool :=
  match stoul port with
  | Ok port_number =>
      existsb (λ n, bool_decide (hostname_for n network = host) &&
                    (network_port_or n network type is_tls 0 =? u16 port_number)) (nodes c)
  | _ => false
  end.

(** ** Node identities: [core/impl/node_id.cxx] *)

Record node_id := NodeId {
  nid_node_uuid : bytes;
  nid_hostname : bytes;
  nid_port : Z;
  nid_id : bytes;
}.
Definition default_node_id : node_id := NodeId [] [] 0 [].

Definition hex_digits : list Z := [48; 49; 50; 51; 52; 53; 54; 55; 56; 57; 97; 98; 99; 100; 101; 102].

Section node_ids.
Context {E : Type}.

(** The loop [for (int shift = 28; shift >= 0; shift -= 4)]: one digit per
    shift of the list. *)
Fixpoint push_hex (crc : Z) (shifts : list Z) (out : bytes) : outcome E bytes :=
  match shifts with
  | [] => Ok out
  | shift :: shifts =>
      d ← at_ hex_digits (Z.land (Z.shiftr crc shift) 0xf);
      push_hex crc shifts (out ++ [d])
  end.

Definition derive_fallback_id (host : bytes) (port : Z) : outcome E bytes :=
  let input := host ++ 58 :: decimal port in
  crc ← hash_crc32 input;
  push_hex crc [28; 24; 20; 16; 12; 8; 4; 0] [].

(** The constructor of [node_id]. *)
Definition make_node_id (uuid host : bytes) (port : Z) : outcome E node_id :=
  id ← (if decide (uuid = []) then derive_fallback_id host port else Ok uuid);
  Ok (NodeId uuid host port id).

(** [internal_node_id::build] *)
Definition build_node_id (uuid host : bytes) (port : Z) : outcome E node_id :=
  if bool_decide (uuid = []) && (bool_decide (host = []) || (port =? 0)) then Ok default_node_id
  else make_node_id uuid host port.

Definition effective_node_id (n : node) (is_tls : bool) : outcome E node_id :=
  build_node_id (node_uuid n) (hostname n) (port_or n key_value is_tls 0).

Fixpoint effective_node_ids (ns : list node) (is_tls : bool) : outcome E (list node_id) :=
  match ns with
  | [] => Ok []
  | n :: ns =>
      if decide (port_or n key_value is_tls 0 = 0) then effective_node_ids ns is_tls
      else
        id ← effective_node_id n is_tls;
        ids ← effective_node_ids ns is_tls;
        Ok (id :: ids)
  end.
End node_ids.

(** [operator bool] and [operator==] *)
Definition node_id_valid (i : node_id) : bool := bool_decide (nid_id i ≠ []).
Definition node_id_eqb (i j : node_id) : bool := bool_decide (nid_id i = nid_id j).

(** [configuration::rev_str] *)
Definition name_none : bytes := [40; 110; 111; 110; 101; 41].
Definition signed_decimal (n : Z) : bytes := if decide (n < 0) then 45 :: decimal (- n) else decimal n.
Definition rev_str (c : configuration) : bytes :=
  match cfg_epoch c with
  | Some epoch => signed_decimal epoch ++ 58 :: signed_decimal (value_or (cfg_rev c) 0)
  | None => match cfg_rev c with Some rev => signed_decimal rev | None => name_none end
  end.

(** ** Network selection *)

(** The four lists of [evanescent_config], of which only emptiness matters. *)
Record evanescent_config := EvanescentConfig {
  kv_plain_endpoints : list (bytes * Z);
  kv_tls_endpoints : list (bytes * Z);
  mgmt_plain_endpoints : list (bytes * Z);
  mgmt_tls_endpoints : list (bytes * Z);
}.

Definition nonempty {A} (l : list A) : bool := match l with [] => false | _ => true end.

Definition evanescent_is_valid (c : evanescent_config) : bool :=
  if nonempty (kv_tls_endpoints c) && nonempty (mgmt_tls_endpoints c) then true
  else if nonempty (kv_plain_endpoints c) && nonempty (mgmt_plain_endpoints c) then true
  else false.

Definition add_endpoint (l : list (bytes * Z)) (host : bytes) (port : option Z) : list (bytes * Z) :=
  match port with Some p => l ++ [(host, p)] | None => l end.

Fixpoint select_network_loop (bootstrap_hostname : bytes) (ns : list node) (alt_conf : evanescent_config) :
    bytes :=
  match ns with
  | [] => if evanescent_is_valid alt_conf then name_external else name_default
  | n :: ns =>
      if decide (hostname n = bootstrap_hostname) then name_default
      else
        match alt n !! name_external with
        | Some network =>
            if decide (aa_hostname network = bootstrap_hostname) then name_external
            else
              let host := aa_hostname network in
              select_network_loop bootstrap_hostname ns
                (EvanescentConfig
                   (add_endpoint (kv_plain_endpoints alt_conf) host (pm_key_value (services_plain n)))
                   (add_endpoint (kv_tls_endpoints alt_conf) host (pm_key_value (services_tls n)))
                   (add_endpoint (mgmt_plain_endpoints alt_conf) host (pm_management (services_plain n)))
                   (add_endpoint (mgmt_tls_endpoints alt_conf) host (pm_management (services_tls n))))
        | None => select_network_loop bootstrap_hostname ns alt_conf
        end
  end.

Definition select_network (c : configuration) (bootstrap_hostname : bytes) : bytes :=
  select_network_loop bootstrap_hostname (nodes c) (EvanescentConfig [] [] [] []).

(** ** Order, lookup, routing *)

(** Comparison of [std::optional]: an empty one is less than any value. *)
Definition opt_ltb (a b : option Z) : bool :=
  match a, b with
  | Some x, Some y => x <? y
  | None, Some _ => true
  | _, None => false
  end.

Definition config_eqb (a b : configuration) : bool :=
  bool_decide (cfg_epoch a = cfg_epoch b) && bool_decide (cfg_rev a = cfg_rev b).
Definition config_ltb (a b : configuration) : bool :=
  opt_ltb (cfg_epoch a) (cfg_epoch b) || (bool_decide (cfg_epoch a = cfg_epoch b) && opt_ltb (cfg_rev a) (cfg_rev b)).
Definition config_gtb (a b : configuration) : bool := config_ltb b a.

Inductive topology_error := no_this_node.

Fixpoint index_for_this_node (ns : list node) : outcome topology_error Z :=
  match ns with
  | [] => Err no_this_node
  | n :: ns => if this_node n then Ok (node_index n) else index_for_this_node ns
  end.

(** [vbmap->at(vbucket)[index]]: the row exists, its length is not checked. *)
Definition server_by_vbucket (c : configuration) (vbucket index : Z) : outcome topology_error (option Z) :=
  match vbmap c with
  | None => Ok None
  | Some m =>
      if decide (zsize m ≤ vbucket) then Ok None
      else
        row ← at_ m vbucket;
        server_index ← at_ row index;
        Ok (if decide (0 ≤ server_index) then Some server_index else None)
  end.

(** [crc % size] is undefined for an empty map. *)
Definition map_key (c : configuration) (key : bytes) (index : Z) :
    outcome topology_error (Z * option Z) :=
  match vbmap c with
  | None => Ok (0, None)
  | Some m =>
      crc ← hash_crc32 key;
      if decide (zsize m = 0) then Fault
      else
        let vbucket := u16 (crc mod zsize m) in
        server ← server_by_vbucket c vbucket index;
        Ok (vbucket, server)
  end.

(** ** Blank configurations *)

Definition set_kv_port (m : port_map) (p : Z) : port_map :=
  PortMap (Some p) (pm_management m) (pm_analytics m) (pm_search m) (pm_views m) (pm_query m)
    (pm_eventing m).

Definition make_blank_configuration (host : bytes) (plain_port tls_port : Z) : configuration :=
  Configuration (Some 0) (Some 0) None
    [Node true 0 host (set_kv_port no_ports plain_port) (set_kv_port no_ports tls_port) ∅ [] []]
    None Capability.no_capabilities false.

Fixpoint blank_nodes (endpoints : list (bytes * bytes)) (use_tls : bool) (idx : Z) (ns : list node) :
    outcome number_error (list node) :=
  match endpoints with
  | [] => Ok ns
  | (host, port) :: endpoints =>
      p ← stol port;
      let n :=
        if use_tls then Node false idx host no_ports (set_kv_port no_ports (u16 p)) ∅ [] []
        else Node false idx host (set_kv_port no_ports (u16 p)) no_ports ∅ [] [] in
      blank_nodes endpoints use_tls (idx + 1) (ns ++ [n])
  end.

(** The nodes are resized to the number of endpoints before they are appended. *)
Definition make_blank_configuration_of (endpoints : list (bytes * bytes)) (use_tls force : bool) :
    outcome number_error configuration :=
  ns ← blank_nodes endpoints use_tls 0 (replicate (length endpoints) default_node);
  Ok (Configuration (Some 0) (Some 0) None ns None Capability.no_capabilities force).

(** ** [parse_config] of [core/protocol/cmd_get_cluster_config.cxx]

    What is done to the nodes once the document has been parsed. *)
Definition set_hostname (h : bytes) (n : node) : node :=
  Node (this_node n) (node_index n) h (services_plain n) (services_tls n) (alt n) (server_group n) (node_uuid n).
Definition set_this_node (b : bool) (n : node) : node :=
  Node b (node_index n) (hostname n) (services_plain n) (services_tls n) (alt n) (server_group n) (node_uuid n).

Fixpoint mark_this_node (address : bytes) (port : Z) (ns : list node) : list node :=
  match ns with
  | [] => []
  | n :: ns =>
      let kv_port := port_or n key_value false 0 in
      let kv_tls_port := port_or n key_value true 0 in
      if bool_decide (hostname n = address) && ((kv_port =? port) || (kv_tls_port =? port))
      then set_this_node true n :: ns
      else n :: mark_this_node address port ns
  end.

Definition parse_config_nodes (c : configuration) (address : bytes) (port : Z) : configuration :=
  let ns := map (λ n, if decide (hostname n = name_host) then set_hostname address n else n) (nodes c) in
  let ns := if existsb this_node ns then ns else mark_this_node address port ns in
  Configuration (cfg_epoch c) (cfg_rev c) (num_replicas c) ns (vbmap c) (capabilities c) (force c).

(** ** The table computes the CRC *)

(** One bit of the reflected CRC-32 with its polynomial. *)
Definition crc_bit (c : Z) : Z :=
  Z.lxor (Z.shiftr c 1) (if Z.testbit c 0 then 0xedb88320 else 0).

(** One byte: eight bits. *)
Definition crc_bits (n : nat) (c : Z) : Z := Nat.iter n crc_bit c.
Definition crc_byte (c b : Z) : Z := crc_bits 8 (Z.lxor c b).

(** The reference: the CRC of the key, bit by bit, and the 15 bits the client
    takes of its complement. *)
Definition crc32_reference (key : bytes) : Z :=
  Z.land (Z.shiftr (u32 (Z.lnot (foldl crc_byte (2 ^ 32 - 1) key))) 16) 0x7fff.

Section crc_proofs.

Lemma crc_bit_lxor a b : crc_bit (Z.lxor a b) = Z.lxor (crc_bit a) (crc_bit b).
Proof.
  unfold crc_bit. rewrite Z.lxor_spec, Z.shiftr_lxor.
  destruct (Z.testbit a 0), (Z.testbit b 0); simpl xorb; cbv iota;
    apply Z.bits_inj'; intros i Hi; rewrite !Z.lxor_spec, ?Z.bits_0;
    destruct (Z.testbit (Z.shiftr a 1) i), (Z.testbit (Z.shiftr b 1) i), (Z.testbit 0xedb88320 i); done.
Qed.

Lemma crc_bits_lxor n a b : crc_bits n (Z.lxor a b) = Z.lxor (crc_bits n a) (crc_bits n b).
Proof. unfold crc_bits. induction n as [|n IH]; [done|]. simpl. by rewrite IH, crc_bit_lxor. Qed.

(** Bits above the byte only move down. *)
Lemma crc_bits_high n x :
  (∀ i, 0 ≤ i < Z.of_nat n → Z.testbit x i = false) → crc_bits n x = Z.shiftr x (Z.of_nat n).
Proof.
  unfold crc_bits. induction n as [|n IH]; intros Hx; [by rewrite Z.shiftr_0_r|].
  change (Nat.iter (S n) crc_bit x) with (crc_bit (Nat.iter n crc_bit x)). rewrite IH by (intros; apply Hx; lia).
  unfold crc_bit. rewrite Z.shiftr_spec, Hx, Z.lxor_0_r, Z.shiftr_shiftr by lia. f_equal. lia.
Qed.

Lemma split_byte x : x = Z.lxor (Z.ldiff x 0xff) (Z.land x 0xff).
Proof.
  apply Z.bits_inj'. intros i Hi. rewrite Z.lxor_spec, Z.ldiff_spec, Z.land_spec.
  by destruct (Z.testbit x i), (Z.testbit 0xff i).
Qed.

Lemma crc_bits_8 x : crc_bits 8 x = Z.lxor (Z.shiftr x 8) (crc_bits 8 (Z.land x 0xff)).
Proof.
  rewrite (split_byte x) at 1. rewrite crc_bits_lxor, (crc_bits_high 8).
  - f_equal. change (Z.of_nat 8) with 8. rewrite Z.shiftr_ldiff. change (Z.shiftr 0xff 8) with 0.
    by rewrite Z.ldiff_0_r.
  - intros i Hi. rewrite Z.ldiff_spec. change 0xff with (Z.ones 8).
    rewrite Z.ones_spec_low by lia. apply andb_false_r.
Qed.

Lemma crc32tab_spec :
  crc32tab = map (λ i, crc_bits 8 (Z.of_nat i)) (seq 0 256).
Proof. by vm_compute. Qed.

Lemma crc32tab_lookup {E} b : is_u8 b → at_ (E:=E) crc32tab b = Ok (crc_bits 8 b).
Proof.
  intros Hb. apply at_Some; [apply Hb|]. rewrite crc32tab_spec, list_lookup_fmap.
  rewrite lookup_seq_lt by width_lia. cbn [fmap option_fmap option_map].
  by replace (Z.of_nat (0 + Z.to_nat b)) with b by (unfold in_width in Hb; lia).
Qed.

Lemma land_ff_u8 x : is_u8 (Z.land x 0xff).
Proof. change 0xff with (2 ^ 8 - 1). rewrite land_ones_mod by lia. apply Z.mod_pos_bound. lia. Qed.

(** One step of the loop is one byte of the reference. *)
Lemma crc_byte_spec c b :
  is_u8 b → crc_byte c b = Z.lxor (Z.shiftr c 8) (crc_bits 8 (Z.land (Z.lxor c b) 0xff)).
Proof.
  intros Hb. unfold crc_byte. rewrite crc_bits_8, Z.shiftr_lxor. do 2 f_equal.
  rewrite (Z.shiftr_div_pow2 b), Z.div_small, Z.lxor_0_r by (done || lia). done.
Qed.

Lemma crc32_loop_spec {E} c key : bytes_ok key → crc32_loop (E:=E) c key = Ok (foldl crc_byte c key).
Proof.
  intros Hk. revert c. induction Hk as [|b key Hb Hk IH]; intros c; [done|]. cbn [crc32_loop foldl].
  rewrite crc32tab_lookup by apply land_ff_u8. cbn [mbind outcome_bind].
  by rewrite IH, <-crc_byte_spec.
Qed.

Lemma hash_crc32_spec {E} key : bytes_ok key → hash_crc32 (E:=E) key = Ok (crc32_reference key).
Proof. intros Hk. unfold hash_crc32, crc32_reference. by rewrite crc32_loop_spec. Qed.

Lemma crc32_reference_bound key : 0 ≤ crc32_reference key < 2 ^ 15.
Proof.
  unfold crc32_reference. change 0x7fff with (2 ^ 15 - 1). rewrite land_ones_mod by lia.
  apply Z.mod_pos_bound. lia.
Qed.
End crc_proofs.

(** ** Properties *)

(** The table-driven hash is CRC-32.  For every key, [hash_crc32] never
    leaves its table and returns the 15 bits of the bit-by-bit CRC-32 (with
    the reflected polynomial [0xedb88320]) that select a vbucket. *)
Theorem hash_crc32_is_crc32 key :
  bytes_ok key →
  hash_crc32 (E:=topology_error) key = Ok (crc32_reference key) ∧ 0 ≤ crc32_reference key < 2 ^ 15.
Proof. intros Hk. split; [by apply hash_crc32_spec|apply crc32_reference_bound]. Qed.

Lemma hash_crc32_is_crc32_witness :
  let key := [49; 50; 51; 52; 53; 54; 55; 56; 57] in
  hash_crc32 (E:=topology_error) key = Ok (crc32_reference key) ∧ 0 ≤ crc32_reference key < 2 ^ 15.
Proof.
  intros key. apply (hash_crc32_is_crc32 key). apply (bool_decide_unpack _). vm_compute. exact I.
Defined.

(** A vbucket map that routes copy [index] of every vbucket to a node. *)
Record routable (c : configuration) (m : list (list Z)) (index : Z) : Prop := {
  rt_map : vbmap c = Some m;
  rt_size : 0 < zsize m ≤ 2 ^ 16;
  rt_rows : Forall (λ row, 0 ≤ index < zsize row ∧ Forall (λ s, -1 ≤ s < zsize (nodes c)) row) m;
}.

Lemma server_by_vbucket_spec c m index vb :
  routable c m index → 0 ≤ vb < zsize m →
  ∃ row s, m !! Z.to_nat vb = Some row ∧ row !! Z.to_nat index = Some s ∧ -1 ≤ s < zsize (nodes c) ∧
    server_by_vbucket c vb index = Ok (if decide (0 ≤ s) then Some s else None).
Proof.
  intros [Hm Hs Hr] Hvb. unfold server_by_vbucket. rewrite Hm, decide_False by lia.
  destruct (at_in_range (E:=topology_error) m vb) as (row & -> & Hrow); [lia|]. cbn [mbind outcome_bind].
  rewrite Forall_forall in Hr. destruct (Hr row) as [Hi Hrow']; [by eapply list_elem_of_lookup_2|].
  destruct (at_in_range (E:=topology_error) row index) as (s & -> & Hsv); [lia|]. cbn [mbind outcome_bind].
  exists row, s. split_and!; try done; apply (Forall_lookup_1 _ _ _ _ Hrow' Hsv).
Qed.

Lemma map_key_spec c m index key :
  routable c m index → bytes_ok key →
  ∃ vb row s, vb = crc32_reference key mod zsize m ∧ 0 ≤ vb < zsize m ∧
    m !! Z.to_nat vb = Some row ∧ row !! Z.to_nat index = Some s ∧
    map_key c key index = Ok (vb, if decide (0 ≤ s) then Some s else None) ∧ s < zsize (nodes c).
Proof.
  intros Hr Hk. pose proof Hr as [Hm Hs _].
  assert (Hvb : 0 ≤ crc32_reference key mod zsize m < zsize m) by (apply Z.mod_pos_bound; lia).
  destruct (server_by_vbucket_spec c m index _ Hr Hvb) as (row & s & Hrow & Hsv & Hb & Hserver).
  exists (crc32_reference key mod zsize m), row, s. split_and!; try done; try lia.
  unfold map_key. rewrite Hm, hash_crc32_spec by done. cbn [mbind outcome_bind].
  rewrite decide_False by lia. rewrite (wrap_small 16) by (unfold in_width; lia). by rewrite Hserver.
Qed.

(** Routing.  With a vbucket map of 1 to 65536 rows that all have an entry
    for the requested copy, every key is routed: to the vbucket given by its
    CRC modulo the size of the map, and to the node in that row, an index
    inside of the list of nodes, or to none exactly when the row says so. *)
Theorem map_key_routes c m index key :
  routable c m index → bytes_ok key →
  ∃ vb row s, vb = crc32_reference key mod zsize m ∧ 0 ≤ vb < zsize m ∧
    m !! Z.to_nat vb = Some row ∧ row !! Z.to_nat index = Some s ∧
    map_key c key index = Ok (vb, if decide (0 ≤ s) then Some s else None) ∧ s < zsize (nodes c).
Proof. apply map_key_spec. Qed.

Definition example_configuration : configuration :=
  Configuration (Some 1) (Some 7) (Some 1) [default_node; default_node]
    (Some [[0; 1]; [1; -1]; [-1; 0]]) Capability.no_capabilities false.

Lemma map_key_routes_witness :
  ∃ vb row s, vb = crc32_reference [107] mod 3 ∧ 0 ≤ vb < 3 ∧
    [[0; 1]; [1; -1]; [-1; 0]] !! Z.to_nat vb = Some row ∧ row !! Z.to_nat 1 = Some s ∧
    map_key example_configuration [107] 1 = Ok (vb, if decide (0 ≤ s) then Some s else None) ∧ s < 2.
Proof.
  apply (map_key_routes example_configuration [[0; 1]; [1; -1]; [-1; 0]] 1 [107]).
  - constructor; [done|done|]. apply (bool_decide_unpack _). vm_compute. exact I.
  - apply (bool_decide_unpack _). vm_compute. exact I.
Defined.

(** Malformed maps.  Routing has undefined behaviour exactly when the map
    is present but empty (a remainder by zero), or the row of the key's
    vbucket is too short for the requested copy. *)
Theorem map_key_faults c index key :
  bytes_ok key → 0 ≤ index → (∀ m, vbmap c = Some m → zsize m ≤ 2 ^ 16) →
  map_key c key index = Fault ↔
  ∃ m, vbmap c = Some m ∧
    (m = [] ∨ ∃ row, m !! Z.to_nat (crc32_reference key mod zsize m) = Some row ∧ zsize row ≤ index).
Proof.
  intros Hk Hi Hsz. unfold map_key. destruct (vbmap c) as [m|] eqn:Hm; [|split; [done|by intros (? & ? & _)]].
  specialize (Hsz m eq_refl). rewrite hash_crc32_spec by done. cbn [mbind outcome_bind].
  case_decide as Hz.
  { apply zsize_0_inv in Hz as ->. split; [|done]. intros _. exists []. auto. }
  pose proof (zsize_nonneg m).
  assert (Hvb : 0 ≤ crc32_reference key mod zsize m < zsize m) by (apply Z.mod_pos_bound; lia).
  rewrite (wrap_small 16) by (unfold in_width; lia).
  set (vb := crc32_reference key mod zsize m) in *.
  unfold server_by_vbucket. rewrite Hm, decide_False by lia.
  destruct (at_in_range (E:=topology_error) m vb) as (row & Hat & Hrow); [lia|].
  rewrite Hat. cbn [mbind outcome_bind].
  destruct (decide (zsize row ≤ index)) as [Hle|Hgt].
  - rewrite at_out by done. cbn [mbind outcome_bind]. split; [|done]. intros _. exists m. eauto.
  - destruct (at_in_range (E:=topology_error) row index) as (s & -> & _); [lia|]. cbn [mbind outcome_bind].
    split; [done|]. intros (m' & [= <-] & [->|(row' & Hrow' & Hle)]); [done|].
    fold vb in Hrow'. rewrite Hrow in Hrow'. by simplify_eq.
Qed.

Lemma map_key_faults_witness :
  map_key (Configuration None None None [] (Some []) Capability.no_capabilities false) [107] 0 = Fault.
Proof.
  apply (map_key_faults (Configuration None None None [] (Some []) Capability.no_capabilities false) 0 [107]).
  - apply (bool_decide_unpack _). vm_compute. exact I.
  - done.
  - by intros m [= <-].
  - exists []. auto.
Defined.

Lemma opt_ltb_irrefl x : opt_ltb x x = false.
Proof. destruct x; [apply Z.ltb_irrefl|done]. Qed.

Lemma opt_ltb_trans x y z : opt_ltb x y = true → opt_ltb y z = true → opt_ltb x z = true.
Proof. destruct x, y, z; simpl; rewrite ?Z.ltb_lt; try done; lia. Qed.

Lemma opt_ltb_total x y :
  x = y ∨ opt_ltb x y = true ∧ opt_ltb y x = false ∧ x ≠ y ∨ opt_ltb x y = false ∧ opt_ltb y x = true ∧ x ≠ y.
Proof.
  destruct x as [x|], y as [y|]; simpl; [|right; right; done|right; left; done|by left].
  rewrite ?Z.ltb_lt, ?Z.ltb_ge.
  destruct (Z.lt_trichotomy x y) as [?|[->|?]]; [right; left|by left|right; right];
    split_and!; try lia; intros [= ?]; lia.
Qed.

Lemma config_total a b : config_ltb a b = true ∨ config_eqb b a = true ∨ config_ltb b a = true.
Proof.
  unfold config_ltb, config_eqb. destruct (opt_ltb_total (cfg_epoch a) (cfg_epoch b)) as [He|[(-> & _)|(_ & -> & _)]];
    [|by left|by right; right].
  destruct (opt_ltb_total (cfg_rev a) (cfg_rev b)) as [Hr|[(-> & _)|(_ & -> & _)]];
    rewrite He, ?Hr, !bool_decide_true, ?orb_true_r by done; auto.
Qed.

Lemma config_ltb_trans a b c :
  config_ltb a b = true → config_ltb b c = true → config_ltb a c = true.
Proof.
  unfold config_ltb. rewrite !orb_true_iff, !andb_true_iff, !bool_decide_eq_true.
  pose proof opt_ltb_trans as Htr.
  intros [H1|[H1 H1']] [H2|[H2 H2']]; rewrite ?H1, <-?H2 in *; eauto.
Qed.

(** Configurations are ordered.  The comparison of revisions that decides
    whether a new configuration replaces the current one is a strict order,
    and of two configurations exactly one is less, or they are equal. *)
Theorem config_order a b c :
  config_ltb a a = false ∧
  (config_ltb a b = true → config_ltb b c = true → config_ltb a c = true) ∧
  (config_ltb a b = true ∧ config_eqb a b = false ∧ config_gtb a b = false ∨
   config_ltb a b = false ∧ config_eqb a b = true ∧ config_gtb a b = false ∨
   config_ltb a b = false ∧ config_eqb a b = false ∧ config_gtb a b = true).
Proof.
  split; [|split; [apply config_ltb_trans|]].
  { unfold config_ltb. by rewrite !opt_ltb_irrefl, andb_false_r. }
  unfold config_gtb, config_ltb, config_eqb. pose proof opt_ltb_irrefl as Hirr.
  pose proof opt_ltb_total as Htri.
  destruct (Htri (cfg_epoch a) (cfg_epoch b)) as [He|[(H1 & H2 & H3)|(H1 & H2 & H3)]].
  - rewrite He, !Hirr, !bool_decide_true by done. cbn [orb andb].
    destruct (Htri (cfg_rev a) (cfg_rev b)) as [Hr|[(R1 & R2 & R3)|(R1 & R2 & R3)]].
    + rewrite Hr, Hirr, bool_decide_true by done. right; left; split_and!; done.
    + rewrite R1, R2, bool_decide_false by done. left; split_and!; done.
    + rewrite R1, R2, bool_decide_false by done. right; right; split_and!; done.
  - rewrite H1, H2, (bool_decide_false (cfg_epoch a = _)), (bool_decide_false (cfg_epoch b = _)) by congruence. left; split_and!; done.
  - rewrite H1, H2, (bool_decide_false (cfg_epoch a = _)), (bool_decide_false (cfg_epoch b = _)) by congruence. right; right; split_and!; done.
Qed.

(** ** Network selection *)

(** The network a node decides by itself: its own or its external address is
    the one used to bootstrap. *)
Definition decided_network (bootstrap : bytes) (n : node) : option bytes :=
  if decide (hostname n = bootstrap) then Some name_default
  else match alt n !! name_external with
       | Some a => if decide (aa_hostname a = bootstrap) then Some name_external else None
       | None => None
       end.

Fixpoint first_decided (bootstrap : bytes) (ns : list node) : option bytes :=
  match ns with
  | [] => None
  | n :: ns => match decided_network bootstrap n with
               | Some net => Some net
               | None => first_decided bootstrap ns
               end
  end.

(** Some node with an external address offers the port. *)
Definition external_offers (port : node → option Z) (ns : list node) : bool :=
  existsb (λ n, has (alt n !! name_external) && has (port n)) ns.

Definition external_usable (ns : list node) : bool :=
  (external_offers (λ n, pm_key_value (services_tls n)) ns &&
   external_offers (λ n, pm_management (services_tls n)) ns) ||
  (external_offers (λ n, pm_key_value (services_plain n)) ns &&
   external_offers (λ n, pm_management (services_plain n)) ns).

Lemma nonempty_add_endpoint l h p : nonempty (add_endpoint l h p) = nonempty l || has p.
Proof. destruct p, l; done. Qed.

Lemma select_network_loop_spec b ns conf :
  select_network_loop b ns conf =
  match first_decided b ns with
  | Some net => net
  | None =>
      if ((nonempty (kv_tls_endpoints conf) || external_offers (λ n, pm_key_value (services_tls n)) ns) &&
          (nonempty (mgmt_tls_endpoints conf) || external_offers (λ n, pm_management (services_tls n)) ns)) ||
         ((nonempty (kv_plain_endpoints conf) || external_offers (λ n, pm_key_value (services_plain n)) ns) &&
          (nonempty (mgmt_plain_endpoints conf) || external_offers (λ n, pm_management (services_plain n)) ns))
      then name_external else name_default
  end.
Proof.
  revert conf. induction ns as [|n ns IH]; intros conf; cbn [select_network_loop first_decided].
  - unfold evanescent_is_valid. cbn. rewrite !orb_false_r. by destruct (_ && _), (_ && _).
  - unfold decided_network, external_offers. cbn [existsb].
    case_decide; [done|]. destruct (alt n !! name_external) as [a|].
    + case_decide; [done|]. rewrite IH.
      cbn [kv_tls_endpoints kv_plain_endpoints mgmt_tls_endpoints mgmt_plain_endpoints has andb].
      rewrite !nonempty_add_endpoint, <-!orb_assoc. done.
    + rewrite IH. cbn [has andb orb]. done.
Qed.

(** Network selection.  The network is the one decided by the first node
    whose own or external address is the bootstrap address; when no node
    decides, it is the external one exactly when the nodes with an external
    address offer key-value and management ports, both with or both without
    TLS. *)
Theorem select_network_spec c bootstrap :
  select_network c bootstrap =
  match first_decided bootstrap (nodes c) with
  | Some net => net
  | None => if external_usable (nodes c) then name_external else name_default
  end.
Proof. unfold select_network. by rewrite select_network_loop_spec. Qed.

(** ** Findings about nodes *)

Lemma blank_nodes_length endpoints use_tls idx ns ns' :
  blank_nodes endpoints use_tls idx ns = Ok ns' → ∃ l, ns' = ns ++ l ∧ length l = length endpoints.
Proof.
  revert idx ns. induction endpoints as [|[h p] es IH]; intros idx ns; cbn [blank_nodes].
  - intros [= <-]. exists []. by rewrite app_nil_r.
  - rewrite bind_Ok. intros (v & _ & Hr). apply IH in Hr as (l & -> & Hl).
    rewrite <-app_assoc. eexists. split; [done|]. simpl. by rewrite Hl.
Qed.

(** A blank configuration has twice its nodes.  The configuration made from
    [n] bootstrap endpoints holds [n] default-constructed nodes (no host name,
    no ports) in front of the [n] nodes for the endpoints. *)
Theorem blank_configuration_doubled endpoints use_tls force c :
  make_blank_configuration_of endpoints use_tls force = Ok c →
  ∃ real, nodes c = replicate (length endpoints) default_node ++ real ∧
    length (nodes c) = (2 * length endpoints)%nat.
Proof.
  unfold make_blank_configuration_of. rewrite bind_Ok. intros (ns & Hns & [= <-]).
  apply blank_nodes_length in Hns as (l & -> & Hl). exists l. cbn [nodes].
  rewrite length_app, length_replicate, Hl. split; [done|lia].
Qed.

Lemma blank_configuration_doubled_witness :
  ∃ c real, make_blank_configuration_of [([104], [49; 49; 50; 49; 48])] false true = Ok c ∧
    nodes c = replicate 1 default_node ++ real ∧ length (nodes c) = 2%nat.
Proof.
  assert (Hc : make_blank_configuration_of [([104], [49; 49; 50; 49; 48])] false true =
    Ok (Configuration (Some 0) (Some 0) None
      [default_node; Node false 0 [104] (set_kv_port no_ports 11210) no_ports ∅ [] []] None Capability.no_capabilities true)) by done.
  destruct (blank_configuration_doubled _ _ _ _ Hc) as (real & H1 & H2). eauto.
Defined.

(** An endpoint on an alternate network mixes addresses.  For a node with
    an alternate address, [endpoint] combines the host name of that network
    with the port of the default network, whatever ports the network has. *)
Theorem endpoint_ignores_network_ports n network a type is_tls p :
  network ≠ name_default → alt n !! network = Some a →
  port_or n type is_tls 0 = p → p ≠ 0 →
  endpoint n network type is_tls = Some (aa_hostname a ++ 58 :: decimal p) ∧
  ∀ q, (if is_tls then service_port (aa_services_tls a) type
        else service_port (aa_services_plain a) type) = Some q →
    network_port_or n network type is_tls 0 = q.
Proof.
  intros Hn Ha Hp Hp0. unfold endpoint, hostname_for, network_port_or.
  rewrite Hp, !decide_False, Ha by done. split; [done|].
  intros q Hq. destruct is_tls; by rewrite Hq.
Qed.

Definition external_node : node :=
  Node true 0 [104] (set_kv_port no_ports 11210) no_ports
    {[name_external := AlternateAddress name_external [101] (set_kv_port no_ports 31000) no_ports]} [] [].

Lemma endpoint_ignores_network_ports_witness :
  endpoint external_node name_external key_value false = Some ([101] ++ 58 :: decimal 11210) ∧
  ∀ q, Some 31000 = Some q → network_port_or external_node name_external key_value false 0 = q.
Proof.
  apply (endpoint_ignores_network_ports external_node name_external
    (AlternateAddress name_external [101] (set_kv_port no_ports 31000) no_ports) key_value false);
    by vm_compute.
Defined.

(** ** [parse_config_nodes] *)

Lemma mark_this_node_hosts address port ns :
  map hostname (mark_this_node address port ns) = map hostname ns.
Proof.
  induction ns as [|n ns IH]; [done|]. cbn [mark_this_node]. destruct (_ && _); [done|].
  cbn [map]. by rewrite IH.
Qed.

Lemma Forall_hosts (P : bytes → Prop) ns ns' :
  map hostname ns = map hostname ns' → Forall (P ∘ hostname) ns → Forall (P ∘ hostname) ns'.
Proof. 
  intros Heq Hns. apply (Forall_fmap hostname P). apply (Forall_fmap hostname P) in Hns.
  by replace (hostname <$> ns') with (hostname <$> ns).
Qed.

Lemma mark_this_node_marks address port ns n :
  n ∈ ns → hostname n = address →
  port_or n key_value false 0 = port ∨ port_or n key_value true 0 = port →
  ∃ i, index_for_this_node (mark_this_node address port ns) = Ok i.
Proof.
  intros Hn Hh Hp. induction ns as [|n' ns IH]; [by apply elem_of_nil in Hn|]. cbn [mark_this_node].
  destruct (_ && _) eqn:Hm; [by eexists|]. cbn [index_for_this_node].
  destruct (this_node n'); [by eexists|]. apply elem_of_cons in Hn as [->|Hn]; [|by apply IH].
  exfalso. rewrite bool_decide_true in Hm by done. cbn [andb] in Hm.
  apply orb_false_iff in Hm as [H1%Z.eqb_neq H2%Z.eqb_neq]. naive_solver.
Qed.

Lemma index_for_this_node_exists ns :
  existsb this_node ns = true → ∃ i, index_for_this_node ns = Ok i.
Proof.
  induction ns as [|n ns IH]; [done|]. cbn. destruct (this_node n); [by eexists|]. apply IH.
Qed.

(** Configurations received from a node are complete.  After
    [parse_config_nodes] no host name is the placeholder [$HOST] (the address it
    was received from is a real one), and the node it was received from can
    be found: either the server marked it, or some node has the address (or
    the placeholder) and the port of the connection. *)
Theorem parse_config_complete c address port :
  address ≠ name_host →
  let c' := parse_config_nodes c address port in
  Forall (λ n, hostname n ≠ name_host) (nodes c') ∧ length (nodes c') = length (nodes c) ∧
  (existsb this_node (nodes c) = true ∨
   (∃ n, n ∈ nodes c ∧ (hostname n = address ∨ hostname n = name_host) ∧
     (port_or n key_value false 0 = port ∨ port_or n key_value true 0 = port)) →
   ∃ i, index_for_this_node (nodes c') = Ok i).
Proof.
  intros Ha c'. unfold c', parse_config_nodes. cbn [nodes].
  set (subst := λ n : node, if decide (hostname n = name_host) then set_hostname address n else n).
  assert (Hhost : Forall (λ n, hostname n ≠ name_host) (map subst (nodes c))).
  { apply Forall_map, Forall_forall. intros n _. unfold subst. simpl. by destruct (decide (hostname n = name_host)). }
  assert (Hmark : ∀ n, hostname (subst n) = if decide (hostname n = name_host) then address else hostname n).
  { intros n. unfold subst. by case_decide. }
  assert (Hthis : existsb this_node (map subst (nodes c)) = existsb this_node (nodes c)).
  { clear Hhost Hmark. induction (nodes c) as [|n ns IH]; [done|]. cbn. rewrite IH. f_equal. unfold subst. by case_decide. }
  split_and!.
  - case_match; [done|]. by eapply (Forall_hosts (.≠ name_host)); [symmetry; apply mark_this_node_hosts|].
  - transitivity (length (map hostname (map subst (nodes c)))); [|by rewrite !length_map].
    case_match; [by rewrite !length_map|]. by rewrite <-(mark_this_node_hosts address port), length_map.
  - rewrite Hthis. destruct (existsb this_node (nodes c)) eqn:Ht.
    { intros _. apply index_for_this_node_exists. by rewrite Hthis. }
    intros [?|(n & Hn & Hh & Hp)]; [done|].
    apply (mark_this_node_marks address port _ (subst n)).
    + by apply list_elem_of_fmap_2.
    + rewrite Hmark. by case_decide; destruct Hh.
    + unfold subst. by case_decide.
Qed.

Lemma parse_config_complete_witness :
  let c := Configuration (Some 1) (Some 1) None [Node false 0 name_host (set_kv_port no_ports 11210) no_ports ∅ [] []] None Capability.no_capabilities false in
  let c' := parse_config_nodes c [104] 11210 in
  Forall (λ n, hostname n ≠ name_host) (nodes c') ∧ length (nodes c') = length (nodes c) ∧
  (existsb this_node (nodes c) = true ∨
   (∃ n, n ∈ nodes c ∧ (hostname n = [104] ∨ hostname n = name_host) ∧
     (port_or n key_value false 0 = 11210 ∨ port_or n key_value true 0 = 11210)) →
   ∃ i, index_for_this_node (nodes c') = Ok i).
Proof. intros c. by apply (parse_config_complete c [104] 11210). Defined.

(** ** Printed numbers *)

Definition all_digits (s : bytes) : Prop := Forall (λ b, is_digit b = true) s.

Lemma is_digit_spec b : is_digit b = true ↔ 48 ≤ b ≤ 57.
Proof. unfold is_digit. rewrite andb_true_iff, !Z.leb_le. lia. Qed.

Lemma decimal_digits_read fuel n acc :
  0 ≤ n < 10 ^ Z.of_nat fuel → read_digits (decimal_digits fuel n acc) 0 = read_digits acc n.
Proof.
  revert n acc. induction fuel as [|fuel IH]; intros n acc Hn; [simpl in *; by replace n with 0 by lia|].
  cbn [decimal_digits]. case_decide as Hlt.
  - cbn [read_digits]. rewrite (proj2 (is_digit_spec _)); [f_equal|]; rewrite ?Z.mod_small; lia.
  - rewrite IH.
    + cbn [read_digits]. pose proof (Z.mod_pos_bound n 10).
      rewrite (proj2 (is_digit_spec _)) by lia. f_equal. rewrite (Z.div_mod n 10) at 3; lia.
    + rewrite Nat2Z.inj_succ, Z.pow_succ_r in Hn by lia. split; [apply Z.div_pos; lia|].
      apply Z.div_lt_upper_bound; lia.
Qed.

Lemma decimal_digits_head fuel n acc :
  0 ≤ n → ∃ d ds, decimal_digits (S fuel) n acc = d :: ds ∧ 48 ≤ d ≤ 57.
Proof.
  revert n acc. induction fuel as [|fuel IH]; intros n acc Hn; cbn [decimal_digits];
    pose proof (Z.mod_pos_bound n 10).
  - case_decide; do 2 eexists; (split; [done|lia]).
  - case_decide; [do 2 eexists; (split; [done|lia])|]. apply IH. apply Z.div_pos; lia.
Qed.

(** A number that starts with a digit has no white space and no sign. *)
Lemma strtonum_digit d ds : 48 ≤ d ≤ 57 → strtonum (d :: ds) = Some (false, read_digits (d :: ds) 0).
Proof.
  intros Hd. assert (d = 48 ∨ d = 49 ∨ d = 50 ∨ d = 51 ∨ d = 52 ∨ d = 53 ∨ d = 54 ∨ d = 55 ∨ d = 56 ∨ d = 57)
    as Hc by lia.
  by repeat destruct Hc as [->|Hc]; [..|rewrite Hc].
Qed.

Lemma stoul_decimal n : is_u64 n → stoul (decimal n) = Ok n.
Proof.
  intros Hn. unfold in_width in Hn. unfold stoul, decimal.
  destruct (decimal_digits_head 63 n []) as (d & ds & Heq & Hd); [lia|].
  rewrite Heq, strtonum_digit, <-Heq, decimal_digits_read by lia. cbn [read_digits].
  by rewrite decide_False by lia.
Qed.

(** Endpoints are found again.  For every port number, [has_node] given its
    decimal text finds a node exactly when some node of the configuration has
    that host name and that port on the network; a port text that is not a
    number, or does not fit 64 bits, finds nothing. *)
Theorem has_node_spec c network type is_tls host p :
  is_u16 p →
  (has_node c network type is_tls host (decimal p) = true ↔
   ∃ n, n ∈ nodes c ∧ hostname_for n network = host ∧ network_port_or n network type is_tls 0 = p) ∧
  ∀ text e, stoul text = Err e → has_node c network type is_tls host text = false.
Proof.
  intros Hp. unfold has_node. split; [|by intros text e ->].
  rewrite stoul_decimal, (wrap_small 16) by (done || unfold in_width in *; lia).
  rewrite existsb_exists. setoid_rewrite andb_true_iff. setoid_rewrite bool_decide_eq_true.
  setoid_rewrite Z.eqb_eq. by setoid_rewrite <-list_elem_of_In.
Qed.

Lemma has_node_spec_witness :
  (has_node example_configuration name_default key_value false [104] (decimal 11210) = true ↔
   ∃ n, n ∈ nodes example_configuration ∧ hostname_for n name_default = [104] ∧
     network_port_or n name_default key_value false 0 = 11210) ∧
  ∀ text e, stoul text = Err e → has_node example_configuration name_default key_value false [104] text = false.
Proof. by apply (has_node_spec example_configuration name_default key_value false [104] 11210). Defined.

(** ** Node identities *)

Definition hex_digit (d : Z) : Z := if decide (d < 10) then 48 + d else 87 + d.

Lemma hex_digit_lookup {E} x shift :
  0 ≤ shift → at_ (E:=E) hex_digits (Z.land (Z.shiftr x shift) 0xf) = Ok (hex_digit (x / 2 ^ shift mod 16)).
Proof.
  intros Hs. rewrite Z.shiftr_div_pow2 by done. change 0xf with (2 ^ 4 - 1). rewrite land_ones_mod by lia.
  change (2 ^ 4) with 16. pose proof (Z.mod_pos_bound (x / 2 ^ shift) 16).
  set (d := x / 2 ^ shift mod 16) in *.
  assert (d = 0 ∨ d = 1 ∨ d = 2 ∨ d = 3 ∨ d = 4 ∨ d = 5 ∨ d = 6 ∨ d = 7 ∨ d = 8 ∨ d = 9 ∨ d = 10 ∨ d = 11 ∨
    d = 12 ∨ d = 13 ∨ d = 14 ∨ d = 15) as Hd by lia.
  by repeat destruct Hd as [->|Hd]; [..|rewrite Hd].
Qed.

Lemma push_hex_spec {E} crc shifts out :
  Forall (λ s, 0 ≤ s) shifts →
  push_hex (E:=E) crc shifts out = Ok (out ++ map (λ s, hex_digit (crc / 2 ^ s mod 16)) shifts).
Proof.
  intros Hs. revert out. induction Hs as [|s shifts Hs _ IH]; intros out; cbn [push_hex map].
  - by rewrite app_nil_r.
  - rewrite hex_digit_lookup by done. cbn [mbind outcome_bind]. by rewrite IH, <-app_assoc.
Qed.

Lemma hex_digit_inj d e : 0 ≤ d < 16 → 0 ≤ e < 16 → hex_digit d = hex_digit e → d = e.
Proof. unfold hex_digit. intros. do 2 case_decide; lia. Qed.

(** The identity without a UUID: a function of the 15 bits of the hash. *)
Definition fallback_id (crc : Z) : bytes :=
  [48; 48; 48; 48] ++ map (λ s, hex_digit (crc / 2 ^ s mod 16)) [12; 8; 4; 0].

Definition fallback_hash (host : bytes) (port : Z) : Z := crc32_reference (host ++ 58 :: decimal port).

Lemma fallback_id_inj a b : 0 ≤ a < 2 ^ 15 → 0 ≤ b < 2 ^ 15 → fallback_id a = fallback_id b → a = b.
Proof.
  unfold fallback_id. cbn [map app]. intros Ha Hb Heq. injection Heq as H1 H2 H3 H4.
  apply hex_digit_inj in H1, H2, H3, H4; try (apply Z.mod_pos_bound; lia).
  change (2 ^ 12) with 4096 in *. change (2 ^ 8) with 256 in *. change (2 ^ 4) with 16 in *.
  change (2 ^ 0) with 1 in *. rewrite ?Z.div_1_r in *.
  Z.to_euclidean_division_equations. lia.
Qed.

Lemma decimal_digits_ok fuel n acc :
  0 ≤ n → bytes_ok acc → bytes_ok (decimal_digits fuel n acc).
Proof.
  revert n acc. induction fuel as [|fuel IH]; intros n acc Hn Hacc; [done|]. cbn [decimal_digits].
  assert (Hb : bytes_ok ((48 + n mod 10) :: acc)).
  { constructor; [|done]. pose proof (Z.mod_pos_bound n 10). unfold in_width. lia. }
  case_decide; [done|]. apply IH; [apply Z.div_pos; lia|done].
Qed.

Lemma derive_fallback_id_spec {E} host port :
  bytes_ok host → 0 ≤ port → derive_fallback_id (E:=E) host port = Ok (fallback_id (fallback_hash host port)).
Proof.
  intros Hh Hp. unfold derive_fallback_id. rewrite hash_crc32_spec.
  - cbn [mbind outcome_bind]. rewrite push_hex_spec by (repeat constructor; lia).
    fold (fallback_hash host port). pose proof (crc32_reference_bound (host ++ 58 :: decimal port)) as Hb.
    fold (fallback_hash host port) in Hb. unfold fallback_id. cbn [map app].
    rewrite !(Z.div_small (fallback_hash host port)) by lia. done.
  - apply Forall_app. split; [done|]. constructor; [done|]. by apply decimal_digits_ok; [|constructor].
Qed.

(** Node identities.  The identity of a node is never faulty; it is falsy
    exactly when the node has no UUID and lacks its host name or key-value
    port; it is the UUID when there is one, and otherwise eight hexadecimal
    digits of which the first four are always zero. *)
Theorem effective_node_id_spec n is_tls :
  bytes_ok (hostname n) → 0 ≤ port_or n key_value is_tls 0 →
  ∃ i, effective_node_id (E:=topology_error) n is_tls = Ok i ∧
    (node_id_valid i = false ↔
     node_uuid n = [] ∧ (hostname n = [] ∨ port_or n key_value is_tls 0 = 0)) ∧
    (node_uuid n ≠ [] → nid_id i = node_uuid n) ∧
    (node_uuid n = [] → node_id_valid i = true →
     nid_id i = fallback_id (fallback_hash (hostname n) (port_or n key_value is_tls 0)) ∧
     take 4 (nid_id i) = [48; 48; 48; 48] ∧ length (nid_id i) = 8%nat).
Proof.
  intros Hh Hp. unfold effective_node_id, build_node_id, make_node_id, node_id_valid.
  destruct (decide (node_uuid n = [])) as [->|Hu].
  - rewrite bool_decide_true by done. cbn [andb].
    destruct (bool_decide (hostname n = []) || _) eqn:Hf.
    + apply orb_true_iff in Hf as [Hf%bool_decide_eq_true|Hf%Z.eqb_eq];
        (eexists; split; [done|]; split_and!; [by split; [intros _; auto|]|done|done]).
    + apply orb_false_iff in Hf as [H1%bool_decide_eq_false H2%Z.eqb_neq].
      rewrite derive_fallback_id_spec by done. cbn [mbind outcome_bind].
      eexists. split_and!; [done| |done|done]. cbn [nid_id]. by split; [|intros [_ [?|?]]].
  - rewrite (bool_decide_false (node_uuid n = [])) by done. cbn [andb mbind outcome_bind].
    eexists. split_and!; [done| |done|done]. cbn [nid_id]. rewrite bool_decide_true by done.
    by split; [|intros [? _]].
Qed.

Lemma effective_node_id_spec_witness :
  let n := Node true 0 [104] (set_kv_port no_ports 11210) no_ports ∅ [] [] in
  ∃ i, effective_node_id (E:=topology_error) n false = Ok i ∧
    (node_id_valid i = false ↔ node_uuid n = [] ∧ (hostname n = [] ∨ port_or n key_value false 0 = 0)) ∧
    (node_uuid n ≠ [] → nid_id i = node_uuid n) ∧
    (node_uuid n = [] → node_id_valid i = true →
     nid_id i = fallback_id (fallback_hash (hostname n) (port_or n key_value false 0)) ∧
     take 4 (nid_id i) = [48; 48; 48; 48] ∧ length (nid_id i) = 8%nat).
Proof.
  intros n. apply (effective_node_id_spec n false); [|done].
  apply (bool_decide_unpack _). vm_compute. exact I.
Defined.

(** Identities of different nodes may be equal.  Two nodes without UUIDs
    are considered the same node exactly when the 15 bits of their hashes are
    equal; for the plain key-value port 11210 the addresses 10.0.1.18 and
    10.0.4.204 are such a pair. *)
Theorem fallback_identities_collide :
  (∀ n m is_tls i j,
     bytes_ok (hostname n) → bytes_ok (hostname m) →
     0 < port_or n key_value is_tls 0 → 0 < port_or m key_value is_tls 0 →
     node_uuid n = [] → node_uuid m = [] → hostname n ≠ [] → hostname m ≠ [] →
     effective_node_id (E:=topology_error) n is_tls = Ok i →
     effective_node_id (E:=topology_error) m is_tls = Ok j →
     node_id_eqb i j = true ↔
     fallback_hash (hostname n) (port_or n key_value is_tls 0) =
     fallback_hash (hostname m) (port_or m key_value is_tls 0)) ∧
  let host1 := [49; 48; 46; 48; 46; 49; 46; 49; 56] in
  let host2 := [49; 48; 46; 48; 46; 52; 46; 50; 48; 52] in
  fallback_hash host1 11210 = fallback_hash host2 11210.
Proof.
  split; [|by vm_compute]. intros n m tls i j Hn Hm Pn Pm Un Um Nn Nm.
  unfold effective_node_id, build_node_id, make_node_id.
  rewrite Un, Um, !(bool_decide_true ([] = [])), !bool_decide_false by done.
  rewrite !(proj2 (Z.eqb_neq _ 0)) by lia. cbn [andb orb]. rewrite !decide_True by done.
  rewrite !derive_fallback_id_spec by (done || lia). cbn [mbind outcome_bind].
  intros [= <-] [= <-]. unfold node_id_eqb. cbn [nid_id]. rewrite bool_decide_eq_true.
  split; [apply fallback_id_inj; apply crc32_reference_bound|by intros ->].
Qed.
