(* ===== verification/Retry.v ===== *)
(** * Retries: reasons, strategies and the two orchestrators

    [couchbase/retry_reason.hxx], [core/impl/retry_reason.cxx],
    [core/impl/retry_action.cxx], [core/impl/best_effort_retry_strategy.cxx],
    [core/impl/fail_fast_retry_strategy.cxx], [core/io/retry_context.hxx],
    [core/io/retry_orchestrator.hxx] and [core/retry_orchestrator.cxx].
    Durations are milliseconds, points in time nanoseconds of the steady
    clock. *)

From S2P Require Import Prelude.

(** ** Reasons *)

Inductive retry_reason :=
  | do_not_retry
  | unknown
  | socket_not_available
  | service_not_available
  | node_not_available
  | key_value_not_my_vbucket
  | key_value_collection_outdated
  | key_value_error_map_retry_indicated
  | key_value_locked
  | key_value_temporary_failure
  | key_value_sync_write_in_progress
  | key_value_sync_write_re_commit_in_progress
  | service_response_code_indicated
  | socket_closed_while_in_flight
  | circuit_breaker_open
  | query_prepared_statement_failure
  | query_index_not_found
  | analytics_temporary_failure
  | search_too_many_requests
  | views_temporary_failure
  | views_no_active_partition.

Global Instance retry_reason_eq_dec : EqDecision retry_reason.
Proof. solve_decision. Defined.

Definition all_reasons : list retry_reason :=
  [do_not_retry; unknown; socket_not_available; service_not_available; node_not_available;
   key_value_not_my_vbucket; key_value_collection_outdated; key_value_error_map_retry_indicated;
   key_value_locked; key_value_temporary_failure; key_value_sync_write_in_progress;
   key_value_sync_write_re_commit_in_progress; service_response_code_indicated;
   socket_closed_while_in_flight; circuit_breaker_open; query_prepared_statement_failure;
   query_index_not_found; analytics_temporary_failure; search_too_many_requests;
   views_temporary_failure; views_no_active_partition].

(** The value of the enumerator. *)
Definition reason_code (r : retry_reason) : nat :=
  match r with
  | do_not_retry => 0
  | unknown => 1
  | socket_not_available => 2
  | service_not_available => 3
  | node_not_available => 4
  | key_value_not_my_vbucket => 5
  | key_value_collection_outdated => 6
  | key_value_error_map_retry_indicated => 7
  | key_value_locked => 8
  | key_value_temporary_failure => 9
  | key_value_sync_write_in_progress => 10
  | key_value_sync_write_re_commit_in_progress => 11
  | service_response_code_indicated => 12
  | socket_closed_while_in_flight => 13
  | circuit_breaker_open => 14
  | query_prepared_statement_failure => 15
  | query_index_not_found => 16
  | analytics_temporary_failure => 17
  | search_too_many_requests => 18
  | views_temporary_failure => 19
  | views_no_active_partition => 20
  end%nat.

Global Instance retry_reason_countable : Countable retry_reason.
Proof. refine (inj_countable reason_code (λ n, all_reasons !! n) _). by intros []. Defined.

Definition allows_non_idempotent_retry (reason : retry_reason) : bool :=
  match reason with
  | socket_not_available
  | service_not_available
  | node_not_available
  | key_value_not_my_vbucket
  | key_value_collection_outdated
  | key_value_error_map_retry_indicated
  | key_value_locked
  | key_value_temporary_failure
  | key_value_sync_write_in_progress
  | key_value_sync_write_re_commit_in_progress
  | service_response_code_indicated
  | circuit_breaker_open
  | query_index_not_found
  | query_prepared_statement_failure
  | analytics_temporary_failure
  | search_too_many_requests
  | views_temporary_failure
  | views_no_active_partition => true
  | unknown | socket_closed_while_in_flight | do_not_retry => false
  end.

Definition always_retry (reason : retry_reason) : bool :=
  match reason with
  | key_value_not_my_vbucket
  | key_value_collection_outdated
  | views_no_active_partition => true
  | _ => false
  end.

(** The formatter of [couchbase/fmt/retry_reason.hxx]. *)
Definition reason_name (reason : retry_reason) : string :=
  match reason with
  | do_not_retry => "do_not_retry"
  | unknown => "unknown"
  | socket_not_available => "socket_not_available"
  | service_not_available => "service_not_available"
  | node_not_available => "node_not_available"
  | key_value_not_my_vbucket => "kv_not_my_vbucket"
  | key_value_collection_outdated => "kv_collection_outdated"
  | key_value_error_map_retry_indicated => "kv_error_map_retry_indicated"
  | key_value_locked => "kv_locked"
  | key_value_temporary_failure => "kv_temporary_failure"
  | key_value_sync_write_in_progress => "kv_sync_write_in_progress"
  | key_value_sync_write_re_commit_in_progress => "kv_sync_write_re_commit_in_progress"
  | service_response_code_indicated => "service_response_code_indicated"
  | socket_closed_while_in_flight => "socket_closed_while_in_flight"
  | circuit_breaker_open => "circuit_breaker_open"
  | query_prepared_statement_failure => "query_prepared_statement_failure"
  | query_index_not_found => "query_index_not_found"
  | analytics_temporary_failure => "analytics_temporary_failure"
  | search_too_many_requests => "search_too_many_requests"
  | views_temporary_failure => "views_temporary_failure"
  | views_no_active_partition => "views_no_active_partition"
  end%string.

Definition retry_reason_to_enum (reason : string) : retry_reason :=
  if decide (reason = "do_not_retry"%string) then do_not_retry else
  if decide (reason = "unknown"%string) then unknown else
  if decide (reason = "socket_not_available"%string) then socket_not_available else
  if decide (reason = "service_not_available"%string) then service_not_available else
  if decide (reason = "node_not_available"%string) then node_not_available else
  if decide (reason = "kv_not_my_vbucket"%string) then key_value_not_my_vbucket else
  if decide (reason = "kv_collection_outdated"%string) then key_value_collection_outdated else
  if decide (reason = "kv_error_map_retry_indicated"%string) then key_value_error_map_retry_indicated else
  if decide (reason = "kv_locked"%string) then key_value_locked else
  if decide (reason = "kv_temporary_failure"%string) then key_value_temporary_failure else
  if decide (reason = "kv_sync_write_in_progress"%string) then key_value_sync_write_in_progress else
  if decide (reason = "kv_sync_write_re_commit_in_progress"%string) then key_value_sync_write_re_commit_in_progress else
  if decide (reason = "service_response_code_indicated"%string) then service_response_code_indicated else
  if decide (reason = "socket_closed_while_in_flight"%string) then socket_closed_while_in_flight else
  if decide (reason = "circuit_breaker_open"%string) then circuit_breaker_open else
  if decide (reason = "query_prepared_statement_failure"%string) then query_prepared_statement_failure else
  if decide (reason = "query_index_not_found"%string) then query_index_not_found else
  if decide (reason = "analytics_temporary_failure"%string) then analytics_temporary_failure else
  if decide (reason = "search_too_many_requests"%string) then search_too_many_requests else
  if decide (reason = "views_temporary_failure"%string) then views_temporary_failure else
  if decide (reason = "views_no_active_partition"%string) then views_no_active_partition else
  unknown.

(** ** Actions, requests, strategies *)

(** [retry_action] is its waiting duration; zero means not to retry. *)
Definition do_not_retry_action : Z := 0.
Definition need_to_retry (waiting_duration : Z) : bool := bool_decide (waiting_duration ≠ 0).

(** What a strategy is told about a request ([retry_context] and the retry
    members of [queue_request]). *)
Record retry_request := RetryRequest {
  rr_idempotent : bool;
  rr_attempts : Z;
  rr_reasons : gset retry_reason;
}.

Definition record_retry_attempt (reason : retry_reason) (r : retry_request) : retry_request :=
  RetryRequest (rr_idempotent r) (u64 (rr_attempts r + 1)) ({[reason]} ∪ rr_reasons r).
Definition add_reason (reason : retry_reason) (r : retry_request) : retry_request :=
  RetryRequest (rr_idempotent r) (rr_attempts r) ({[reason]} ∪ rr_reasons r).

(** [retry_strategy::retry_after] *)
Definition retry_strategy : Type := retry_request → retry_reason → Z.

Definition controlled_backoff (retry_attempts : Z) : Z :=
  match retry_attempts with
  | 0 => 1
  | 1 => 10
  | 2 => 50
  | 3 => 100
  | 4 => 500
  | _ => 1000
  end.

Definition best_effort_retry_strategy (backoff_calculator : Z → Z) : retry_strategy := λ request reason,
  if rr_idempotent request || allows_non_idempotent_retry reason
  then backoff_calculator (rr_attempts request)
  else do_not_retry_action.

Definition fail_fast_retry_strategy : retry_strategy := λ _ _, do_not_retry_action.

(** ** The orchestrators *)

(** [retry_orchestrator::should_retry] for a [queue_request]: the action and
    the request with the attempt recorded. *)
Definition should_retry (strategy : option retry_strategy) (request : retry_request) (reason : retry_reason) :
    Z * retry_request :=
  if always_retry reason then
    let duration := controlled_backoff (rr_attempts request) in
    (duration, record_retry_attempt reason request)
  else
    match strategy with
    | None => (do_not_retry_action, request)
    | Some strategy =>
        let action := strategy request reason in
        if negb (need_to_retry action) then (do_not_retry_action, request)
        else (action, record_retry_attempt reason request)
    end.

(** [priv::cap_duration]: the clock and the expiry of the deadline are passed
    in; the cast to milliseconds truncates. *)
Definition cap_duration (now deadline_expiry : Z) (uncapped : Z) : Z :=
  let theoretical_deadline := now + uncapped * 1000000 in
  let absolute_deadline := deadline_expiry in
  let delta := Z.quot (theoretical_deadline - absolute_deadline) 1000000 in
  if decide (0 < delta) then
    let capped := uncapped - delta in
    if decide (capped < 0) then uncapped else capped
  else uncapped.

(** What [maybe_retry] decides: schedule the command again after a while, with
    the attempt recorded, or invoke its handler. *)
Inductive retry_decision :=
  | RetryAfter (duration : Z) (request : retry_request)
  | GiveUp.

Definition maybe_retry (default_strategy : retry_strategy) (strategy : option retry_strategy)
    (now deadline_expiry : Z) (request : retry_request) (reason : retry_reason) : retry_decision :=
  if always_retry reason then
    RetryAfter (controlled_backoff (rr_attempts request)) (record_retry_attempt reason request)
  else
    let retry_strategy := match strategy with Some s => s | None => default_strategy end in
    let action := retry_strategy request reason in
    if need_to_retry action then
      RetryAfter (cap_duration now deadline_expiry action) (record_retry_attempt reason request)
    else GiveUp.

(** ** The contract of a strategy

    A strategy is [SafeStrategy] when it retries an operation that is not
    idempotent only for reasons that guarantee the server did not execute it. *)
Class SafeStrategy (s : retry_strategy) : Prop :=
  safe_strategy request reason :
    rr_idempotent request = false → need_to_retry (s request reason) = true →
    allows_non_idempotent_retry reason = true.

Global Instance best_effort_safe calc : SafeStrategy (best_effort_retry_strategy calc).
Proof.
  intros r reason Hi. unfold best_effort_retry_strategy. rewrite Hi.
  by destruct (allows_non_idempotent_retry reason).
Qed.

Global Instance fail_fast_safe : SafeStrategy fail_fast_retry_strategy.
Proof. by intros r reason Hi. Qed.

Lemma always_retry_allowed reason : always_retry reason = true → allows_non_idempotent_retry reason = true.
Proof. by destruct reason. Qed.

Lemma controlled_backoff_bounds n : 0 ≤ n → 1 ≤ controlled_backoff n ≤ 1000.
Proof.
  intros Hn. unfold controlled_backoff. destruct n as [|p|]; [lia| |lia].
  repeat (destruct p as [p|p|]; try lia).
Qed.

Lemma controlled_backoff_mono n m : 0 ≤ n ≤ m → controlled_backoff n ≤ controlled_backoff m.
Proof.
  intros Hn. destruct (decide (5 ≤ m)) as [Hm|Hm].
  - transitivity 1000; [by apply controlled_backoff_bounds; lia|].
    destruct m as [|p|]; [lia| |lia]. unfold controlled_backoff.
    repeat (destruct p as [p|p|]; try lia).
  - assert (m = 0 ∨ m = 1 ∨ m = 2 ∨ m = 3 ∨ m = 4) as Hc by lia.
    assert (n = 0 ∨ n = 1 ∨ n = 2 ∨ n = 3 ∨ n = 4) as Hd by lia.
    destruct Hc as [->|[->|[->|[->| ->]]]], Hd as [->|[->|[->|[->| ->]]]]; simpl; lia.
Qed.

(** ** Theorems *)

(** Names of retry reasons.  The name printed for a reason is read back as
    that reason, and a string that names no reason is read as [unknown]. *)
Theorem retry_reason_roundtrip :
  (∀ reason, retry_reason_to_enum (reason_name reason) = reason) ∧
  (∀ s, (∀ reason, reason_name reason ≠ s) → retry_reason_to_enum s = unknown).
Proof.
  split; [by intros []|]. intros s Hs. unfold retry_reason_to_enum.
  repeat match goal with
  | |- (if decide (_ = ?n) then ?r else _) = _ => rewrite decide_False by (intros ->; by apply (Hs r))
  end. done.
Qed.

(** Retries are safe.  With strategies that keep the contract, neither
    orchestrator retries an operation that is not idempotent for a reason
    that leaves open whether the server executed it; the attempt is counted
    and its reason remembered exactly when the operation is retried. *)
Theorem retry_safety default strategy now expiry request reason :
  SafeStrategy default → (∀ s, strategy = Some s → SafeStrategy s) →
  (rr_idempotent request = false → allows_non_idempotent_retry reason = false →
   maybe_retry default strategy now expiry request reason = GiveUp ∧
   should_retry strategy request reason = (do_not_retry_action, request)) ∧
  (∀ d r, maybe_retry default strategy now expiry request reason = RetryAfter d r →
     r = record_retry_attempt reason request) ∧
  (∀ d r, should_retry strategy request reason = (d, r) →
     if need_to_retry d then r = record_retry_attempt reason request else r = request).
Proof.
  intros Hd Hs. unfold maybe_retry, should_retry. split_and!.
  - intros Hi Hr. destruct (always_retry reason) eqn:Ha; [apply always_retry_allowed in Ha; congruence|].
    assert (Hno : ∀ s, SafeStrategy s → need_to_retry (s request reason) = false).
    { intros s Hsafe. destruct (need_to_retry _) eqn:Hn; [|done]. apply Hsafe in Hn; congruence. }
    destruct strategy as [s|]; rewrite ?(Hno s), ?(Hno default); auto.
  - intros d r. destruct (always_retry reason); [by intros [= <- <-]|].
    destruct (need_to_retry _); [by intros [= <- <-]|done].
  - intros d r. destruct (always_retry reason); [|destruct strategy as [s|]; [|by intros [= <- <-]]].
    + intros [= <- <-]. unfold need_to_retry. case_bool_decide as Hz; [done|].
      exfalso. revert Hz. unfold controlled_backoff. by repeat case_match.
    + destruct (need_to_retry (s request reason)) eqn:Hn; cbn [negb]; intros [= <- <-]; [by rewrite Hn|done].
Qed.

Lemma retry_safety_witness :
  let request := RetryRequest false 0 ∅ in
  maybe_retry (best_effort_retry_strategy controlled_backoff) None 0 1 request socket_closed_while_in_flight = GiveUp.
Proof.
  intros request.
  apply (retry_safety (best_effort_retry_strategy controlled_backoff) None 0 1 request
    socket_closed_while_in_flight); [apply _|by intros s [=]|done..].
Defined.

(** Idempotent operations are retried.  With the default strategy an
    idempotent operation is retried for every reason, after a time between one
    millisecond and one second that does not decrease with the attempts. *)
Theorem best_effort_backoff request reason :
  rr_idempotent request = true → 0 ≤ rr_attempts request →
  let action := best_effort_retry_strategy controlled_backoff request reason in
  need_to_retry action = true ∧ 1 ≤ action ≤ 1000 ∧
  (∀ request', rr_idempotent request' = true → rr_attempts request ≤ rr_attempts request' →
     action ≤ best_effort_retry_strategy controlled_backoff request' reason).
Proof.
  intros Hi Hn. unfold best_effort_retry_strategy, need_to_retry. rewrite Hi. cbn [orb].
  pose proof (controlled_backoff_bounds _ Hn). split_and!; try lia.
  - apply bool_decide_eq_true. lia.
  - intros r' -> Hle. cbn [orb]. apply controlled_backoff_mono. lia.
Qed.

Lemma best_effort_backoff_witness :
  let action := best_effort_retry_strategy controlled_backoff (RetryRequest true 3 ∅) unknown in
  need_to_retry action = true ∧ 1 ≤ action ≤ 1000 ∧
  (∀ request', rr_idempotent request' = true → 3 ≤ rr_attempts request' →
     action ≤ best_effort_retry_strategy controlled_backoff request' unknown).
Proof. by apply (best_effort_backoff (RetryRequest true 3 ∅) unknown). Defined.

(** Retries respect the deadline.  A backoff that ends before the deadline
    is not changed; one that would end after it is shortened so that it ends
    less than a millisecond after it; but once the deadline has passed by a
    millisecond the backoff is not shortened at all. *)
Theorem cap_duration_deadline now expiry uncapped :
  0 ≤ uncapped →
  0 ≤ cap_duration now expiry uncapped ≤ uncapped ∧
  (now + uncapped * 1000000 ≤ expiry → cap_duration now expiry uncapped = uncapped) ∧
  (now ≤ expiry → now + cap_duration now expiry uncapped * 1000000 < expiry + 1000000) ∧
  (expiry + 1000000 ≤ now → cap_duration now expiry uncapped = uncapped).
Proof.
  intros Hu. unfold cap_duration. set (x := now + uncapped * 1000000 - expiry).
  pose proof (Z.quot_rem' x 1000000) as Hq.
  assert (Hx : 0 ≤ x → 0 ≤ Z.rem x 1000000 < 1000000) by (intros; apply Z.rem_bound_pos; lia).
  assert (Hx' : x ≤ 0 → -1000000 < Z.rem x 1000000 ≤ 0) by (intros; apply (Z.rem_bound_pos_neg x 1000000); lia).
  split_and!; repeat case_decide; intros; subst x; lia.
Qed.

Lemma cap_duration_deadline_witness :
  0 ≤ cap_duration 0 5000000 10 ≤ 10 ∧
  (0 + 10 * 1000000 ≤ 5000000 → cap_duration 0 5000000 10 = 10) ∧
  (0 ≤ 5000000 → 0 + cap_duration 0 5000000 10 * 1000000 < 5000000 + 1000000) ∧
  (5000000 + 1000000 ≤ 0 → cap_duration 0 5000000 10 = 10).
Proof. by apply (cap_duration_deadline 0 5000000 10). Defined.
