(* ===== verification/Operation.v ===== *)
(** * The life of a key-value operation

    [core/io/mcbp_command.hxx] (the command), the part of
    [core/io/mcbp_session.cxx] that holds the handlers of requests in flight,
    and [core/bucket.hxx], [core/bucket.cxx] (routing, deferral, retries,
    closing).

    The objects the code shares by pointer live in a store, the [world]:
    commands and sessions by number, one bucket, the clock, and the log of
    completed operations.  A routine is a function from world to world; the
    callbacks that the code stores as lambdas are the values of
    [continuation], timers that are armed are members of their command.  One
    step of the system is one callback of the event loop, run to its end: a
    timer, a message, the end of a session, a call of the user.  The code
    confines the commands that can be cancelled by siblings to a strand, which
    gives the same serialisation. *)

From stdpp Require Import sorting.
From S2P Require Import Prelude ByteOrder Protocol McbpParser ClientRequest ClientResponse Commands Topology Retry.

(** ** State *)

(** [std::error_code] of a completion: success, the aborted-operation error of
    asio, or an error of the client. *)
Inductive completion_code :=
  | no_error
  | operation_aborted
  | client_error (e : error_code).

Global Instance completion_code_eq_dec : EqDecision completion_code.
Proof. solve_decision. Defined.

Definition request_canceled : completion_code := client_error Common.request_canceled.
Definition ambiguous_timeout : completion_code := client_error Common.ambiguous_timeout.
Definition unambiguous_timeout : completion_code := client_error Common.unambiguous_timeout.
Definition collection_not_found : completion_code := client_error Common.collection_not_found.
Definition unsupported_operation : completion_code := client_error Common.unsupported_operation.

Definition code_of (ec : option error_code) : completion_code :=
  match ec with Some e => client_error e | None => no_error end.

(** The members of the template parameter [Request] the command uses: the
    result of [encode_to], whether a durability level is set. *)
Record request := Request {
  req_opcode : Z;
  req_id : document_id;
  req_node_index : Z;
  req_use_any_session : bool;
  req_cancellable : bool;
  req_encode_error : option error_code;
  req_timeout : option Z;
  req_durable : bool;
  req_strategy : option retry_strategy;
}.

(** What the timer [retry_backoff] does when it expires. *)
Inductive backoff_action := resend | resolve_collection.

(** [mcbp_command]: [cmd_handler] tells whether [handler_] is set, the expiry
    of the deadline is kept when the timer is cancelled. *)
Record command := Command {
  cmd_request : request;
  cmd_retries : retry_request;
  cmd_expiry : Z;
  cmd_deadline : bool;
  cmd_backoff : option (Z * backoff_action);
  cmd_opaque : option Z;
  cmd_session : option nat;
  cmd_uid : option Z;
  cmd_handler : bool;
}.

(** The lambdas given to [write_and_subscribe], with the command they hold. *)
Inductive continuation :=
  | on_response (cid : nat)
  | on_collection_id (cid : nat).

(** [mcbp_session_impl]; [ses_opaque] counts the calls of [next_opaque]. *)
Record session := Session {
  ses_stopped : bool;
  ses_bootstrapped : bool;
  ses_open : bool;
  ses_configured : bool;
  ses_collections : bool;
  ses_opaque : Z;
  ses_handlers : gmap Z continuation;
  ses_cache : gmap bytes Z;
  ses_error_map : gmap Z bool;
  ses_output : list (Z * continuation);
  ses_pending : list (Z * continuation);
}.

Record bucket := Bucket {
  bkt_closed : bool;
  bkt_configured : bool;
  bkt_config : option configuration;
  bkt_sessions : gmap Z nat;
  bkt_deferred : list nat;
  bkt_round_robin : Z;
  bkt_network : bytes;
  bkt_tls : bool;
  bkt_default_timeout : Z;
  bkt_default_strategy : retry_strategy;
}.

(** The log holds the invocations of user handlers, newest first.  [w_fault]
    records that something undefined was executed. *)
Record world := World {
  w_commands : gmap nat command;
  w_sessions : gmap nat session;
  w_bucket : bucket;
  w_now : Z;
  w_log : list (nat * completion_code * option mcbp_message);
  w_fault : bool;
}.

Definition ms : Z := 1000000.

(** ** Field updates *)

Definition upd_command (cid : nat) (f : command → command) (w : world) : world :=
  World (alter f cid (w_commands w)) (w_sessions w) (w_bucket w) (w_now w) (w_log w) (w_fault w).
Definition upd_session (sid : nat) (f : session → session) (w : world) : world :=
  World (w_commands w) (alter f sid (w_sessions w)) (w_bucket w) (w_now w) (w_log w) (w_fault w).
Definition upd_bucket (f : bucket → bucket) (w : world) : world :=
  World (w_commands w) (w_sessions w) (f (w_bucket w)) (w_now w) (w_log w) (w_fault w).
Definition crash (w : world) : world :=
  World (w_commands w) (w_sessions w) (w_bucket w) (w_now w) (w_log w) true.

Definition set_retries (r : retry_request) (c : command) : command :=
  Command (cmd_request c) r (cmd_expiry c) (cmd_deadline c) (cmd_backoff c) (cmd_opaque c)
    (cmd_session c) (cmd_uid c) (cmd_handler c).
Definition set_backoff (b : option (Z * backoff_action)) (c : command) : command :=
  Command (cmd_request c) (cmd_retries c) (cmd_expiry c) (cmd_deadline c) b (cmd_opaque c)
    (cmd_session c) (cmd_uid c) (cmd_handler c).
Definition set_opaque (o : option Z) (c : command) : command :=
  Command (cmd_request c) (cmd_retries c) (cmd_expiry c) (cmd_deadline c) (cmd_backoff c) o
    (cmd_session c) (cmd_uid c) (cmd_handler c).
Definition set_session (s : option nat) (c : command) : command :=
  Command (cmd_request c) (cmd_retries c) (cmd_expiry c) (cmd_deadline c) (cmd_backoff c) (cmd_opaque c)
    s (cmd_uid c) (cmd_handler c).
Definition set_uid (u : option Z) (c : command) : command :=
  Command (cmd_request c) (cmd_retries c) (cmd_expiry c) (cmd_deadline c) (cmd_backoff c) (cmd_opaque c)
    (cmd_session c) u (cmd_handler c).
Definition drop_handler (c : command) : command :=
  Command (cmd_request c) (cmd_retries c) (cmd_expiry c) (cmd_deadline c) (cmd_backoff c) (cmd_opaque c)
    (cmd_session c) (cmd_uid c) false.
(** [retry_backoff.cancel(); deadline.cancel(); std::swap(handler, handler_)] *)
Definition finish (c : command) : command :=
  Command (cmd_request c) (cmd_retries c) (cmd_expiry c) false None (cmd_opaque c)
    (cmd_session c) (cmd_uid c) false.

Definition set_handlers (h : gmap Z continuation) (s : session) : session :=
  Session (ses_stopped s) (ses_bootstrapped s) (ses_open s) (ses_configured s) (ses_collections s)
    (ses_opaque s) h (ses_cache s) (ses_error_map s) (ses_output s) (ses_pending s).
Definition set_cache (c : gmap bytes Z) (s : session) : session :=
  Session (ses_stopped s) (ses_bootstrapped s) (ses_open s) (ses_configured s) (ses_collections s)
    (ses_opaque s) (ses_handlers s) c (ses_error_map s) (ses_output s) (ses_pending s).
Definition set_buffers (output pending : list (Z * continuation)) (s : session) : session :=
  Session (ses_stopped s) (ses_bootstrapped s) (ses_open s) (ses_configured s) (ses_collections s)
    (ses_opaque s) (ses_handlers s) (ses_cache s) (ses_error_map s) output pending.
Definition count_opaque (s : session) : session :=
  Session (ses_stopped s) (ses_bootstrapped s) (ses_open s) (ses_configured s) (ses_collections s)
    (ses_opaque s + 1) (ses_handlers s) (ses_cache s) (ses_error_map s) (ses_output s) (ses_pending s).
Definition set_stopped (s : session) : session :=
  Session true (ses_bootstrapped s) (ses_open s) (ses_configured s) (ses_collections s)
    (ses_opaque s) (ses_handlers s) (ses_cache s) (ses_error_map s) (ses_output s) (ses_pending s).

Definition set_bkt_sessions (m : gmap Z nat) (b : bucket) : bucket :=
  Bucket (bkt_closed b) (bkt_configured b) (bkt_config b) m (bkt_deferred b) (bkt_round_robin b)
    (bkt_network b) (bkt_tls b) (bkt_default_timeout b) (bkt_default_strategy b).
Definition set_deferred (l : list nat) (b : bucket) : bucket :=
  Bucket (bkt_closed b) (bkt_configured b) (bkt_config b) (bkt_sessions b) l (bkt_round_robin b)
    (bkt_network b) (bkt_tls b) (bkt_default_timeout b) (bkt_default_strategy b).
Definition set_round_robin (n : Z) (b : bucket) : bucket :=
  Bucket (bkt_closed b) (bkt_configured b) (bkt_config b) (bkt_sessions b) (bkt_deferred b) n
    (bkt_network b) (bkt_tls b) (bkt_default_timeout b) (bkt_default_strategy b).
Definition set_closed (b : bucket) : bucket :=
  Bucket true (bkt_configured b) (bkt_config b) (bkt_sessions b) (bkt_deferred b) (bkt_round_robin b)
    (bkt_network b) (bkt_tls b) (bkt_default_timeout b) (bkt_default_strategy b).
Definition set_config (c : configuration) (b : bucket) : bucket :=
  Bucket (bkt_closed b) true (Some c) (bkt_sessions b) (bkt_deferred b) (bkt_round_robin b)
    (bkt_network b) (bkt_tls b) (bkt_default_timeout b) (bkt_default_strategy b).

(** ** Completion and cancellation *)

(** [mcbp_command::invoke_handler] *)
Definition invoke_handler (cid : nat) (ec : completion_code) (msg : option mcbp_message) (w : world) : world :=
  match w_commands w !! cid with
  | None => w
  | Some c =>
      let w := upd_command cid finish w in
      if cmd_handler c
      then World (w_commands w) (w_sessions w) (w_bucket w) (w_now w) ((cid, ec, msg) :: w_log w) (w_fault w)
      else w
  end.

Definition is_idempotent_command (cid : nat) (w : world) : bool :=
  match w_commands w !! cid with Some c => rr_idempotent (cmd_retries c) | None => false end.

Definition timeout_code (idempotent : bool) : completion_code :=
  if idempotent then unambiguous_timeout else ambiguous_timeout.

(** The stored callbacks when they are given [asio::error::operation_aborted]. *)
Definition on_response_aborted (cid : nat) (w : world) : world :=
  let w := upd_command cid (set_backoff None) w in
  invoke_handler cid (timeout_code (is_idempotent_command cid w)) None w.
Definition on_collection_id_aborted (cid : nat) (w : world) : world :=
  invoke_handler cid ambiguous_timeout None w.
Definition run_aborted (k : continuation) (w : world) : world :=
  match k with
  | on_response cid => on_response_aborted cid w
  | on_collection_id cid => on_collection_id_aborted cid w
  end.

(** [mcbp_session_impl::cancel], with the error its only caller passes. *)
Definition session_cancel (sid : nat) (opaque : Z) (w : world) : bool * world :=
  match w_sessions w !! sid with
  | None => (false, w)
  | Some s =>
      if ses_stopped s then (false, w)
      else
        match ses_handlers s !! opaque with
        | Some fun_ =>
            let w := upd_session sid (set_handlers (delete opaque (ses_handlers s))) w in
            (true, run_aborted fun_ w)
        | None => (false, w)
        end
  end.

(** [mcbp_command::cancel] *)
Definition cancel (cid : nat) (is_timeout : bool) (w : world) : world :=
  match w_commands w !! cid with
  | None => w
  | Some c =>
      let w :=
        match cmd_opaque c, cmd_session c with
        | Some opaque, Some sid =>
            let '(cancelled, w) := session_cancel sid opaque w in
            if cancelled : bool then upd_command cid drop_handler w else w
        | _, _ => w
        end in
      if is_timeout
      then invoke_handler cid (timeout_code (is_idempotent_command cid w || negb (has (cmd_opaque c)))) None w
      else invoke_handler cid request_canceled None w
  end.

(** ** Retries *)

(** [bucket::schedule_for_retry] *)
Definition schedule_for_retry (cid : nat) (duration : Z) (w : world) : world :=
  if bkt_closed (w_bucket w) then cancel cid true w
  else upd_command cid (set_backoff (Some (w_now w + duration * ms, resend))) w.

(** [io::retry_orchestrator::maybe_retry] *)
Definition retry_command (cid : nat) (reason : retry_reason) (ec : completion_code) (w : world) : world :=
  match w_commands w !! cid with
  | None => w
  | Some c =>
      match maybe_retry (bkt_default_strategy (w_bucket w)) (req_strategy (cmd_request c)) (w_now w)
              (cmd_expiry c) (cmd_retries c) reason with
      | RetryAfter duration retries =>
          schedule_for_retry cid duration (upd_command cid (set_retries retries) w)
      | GiveUp => invoke_handler cid ec None w
      end
  end.

(** The stored callbacks when they are given [errc::common::request_canceled]. *)
Definition on_response_canceled (cid : nat) (reason : retry_reason) (w : world) : world :=
  let w := upd_command cid (set_backoff None) w in
  if negb (is_idempotent_command cid w) && negb (allows_non_idempotent_retry reason)
  then invoke_handler cid request_canceled None w
  else retry_command cid reason request_canceled w.
Definition on_collection_id_canceled (cid : nat) (w : world) : world :=
  invoke_handler cid request_canceled None w.
Definition run_canceled (k : continuation) (reason : retry_reason) (w : world) : world :=
  match k with
  | on_response cid => on_response_canceled cid reason w
  | on_collection_id cid => on_collection_id_canceled cid w
  end.

(** [mcbp_command::handle_unknown_collection] *)
Definition handle_unknown_collection (cid : nat) (w : world) : world :=
  match w_commands w !! cid with
  | None => w
  | Some c =>
      let backoff := 500 * ms in
      let time_left := cmd_expiry c - w_now w in
      let w := upd_command cid (set_retries (add_reason key_value_collection_outdated (cmd_retries c))) w in
      if decide (time_left < backoff)
      then invoke_handler cid (timeout_code (rr_idempotent (cmd_retries c))) None w
      else upd_command cid (set_backoff (Some (w_now w + backoff, resolve_collection))) w
  end.

(** ** Sending *)

(** [mcbp_session_impl::next_opaque]: an atomic 32-bit counter. *)
Definition next_opaque (s : session) : Z := u32 (ses_opaque s + 1).

(** [mcbp_session_impl::write_and_subscribe]: an opaque that is in use keeps
    its handler; packets wait until the session is bootstrapped. *)
Definition write_and_subscribe (sid : nat) (opaque : Z) (k : continuation) (w : world) : world :=
  match w_sessions w !! sid with
  | None => crash w
  | Some s =>
      if ses_stopped s then run_canceled k socket_closed_while_in_flight w
      else
        let handlers :=
          match ses_handlers s !! opaque with
          | Some _ => ses_handlers s
          | None => <[opaque := k]> (ses_handlers s)
          end in
        let buffers :=
          if ses_bootstrapped s && ses_open s
          then set_buffers (ses_output s ++ [(opaque, k)]) (ses_pending s)
          else set_buffers (ses_output s) (ses_pending s ++ [(opaque, k)]) in
        upd_session sid (λ s, buffers (set_handlers handlers s)) w
  end.

Section send.
(** [manager_->map_and_send], called back when the session has stopped. *)
Context (map_and_send : nat → world → world).

(** [mcbp_command::request_collection_id] *)
Definition request_collection_id (cid : nat) (w : world) : world :=
  match w_commands w !! cid ≫= cmd_session with
  | None => crash w
  | Some sid =>
      match w_sessions w !! sid with
      | None => crash w
      | Some s =>
          if ses_stopped s then map_and_send cid w
          else
            let opaque := next_opaque s in
            write_and_subscribe sid opaque (on_collection_id cid) (upd_session sid count_opaque w)
      end
  end.

(** The rest of [send], once the collection of the document is known. *)
Definition send_encoded (cid sid : nat) (opaque : Z) (c : command) (w : world) : world :=
  match req_encode_error (cmd_request c) with
  | Some ec => invoke_handler cid (client_error ec) None w
  | None => write_and_subscribe sid opaque (on_response cid) w
  end.

(** [mcbp_command::send] *)
Definition send (cid : nat) (w : world) : world :=
  match w_commands w !! cid with
  | None => w
  | Some c =>
      match cmd_session c with
      | None => crash w
      | Some sid =>
          match w_sessions w !! sid with
          | None => crash w
          | Some s =>
              let opaque := next_opaque s in
              let w := upd_command cid (set_opaque (Some opaque)) (upd_session sid count_opaque w) in
              let id := req_id (cmd_request c) in
              if id_use_collections id && negb (has (cmd_uid c)) then
                if ses_collections s then
                  if decide (id_collection_path id = []) then crash w
                  else
                    match ses_cache s !! id_collection_path id with
                    | Some uid => send_encoded cid sid opaque c (upd_command cid (set_uid (Some uid)) w)
                    | None => request_collection_id cid w
                    end
                else if negb (has_default_collection id) then invoke_handler cid unsupported_operation None w
                else send_encoded cid sid opaque c w
              else send_encoded cid sid opaque c w
          end
      end
  end.

(** [mcbp_command::send_to] *)
Definition send_to (cid sid : nat) (w : world) : world :=
  match w_commands w !! cid with
  | None => w
  | Some c => if negb (cmd_handler c) then w else send cid (upd_command cid (set_session (Some sid)) w)
  end.
End send.

(** ** The bucket *)

(** A session that has not been bootstrapped; its features are negotiated
    during the bootstrap. *)
Definition default_collection_path : bytes := compile_collection_path default_name default_name.
Definition new_session : session :=
  Session false false false false false 0 ∅ {[default_collection_path := 0]} ∅ [] [].

(** [bucket_impl::connect_session]: [config_->nodes[index]] is not checked. *)
Definition connect_session (index : Z) (w : world) : world :=
  match bkt_config (w_bucket w) with
  | None => w
  | Some config =>
      match at_ (E:=topology_error) (nodes config) index with
      | Ok n =>
          let port := network_port_or n (bkt_network (w_bucket w)) key_value (bkt_tls (w_bucket w)) 0 in
          if decide (port = 0) then w
          else
            let sid := fresh (dom (w_sessions w)) in
            World (w_commands w) (<[sid := new_session]> (w_sessions w))
              (set_bkt_sessions (<[index := sid]> (bkt_sessions (w_bucket w))) (w_bucket w))
              (w_now w) (w_log w) (w_fault w)
      | _ => crash w
      end
  end.

(** [bucket_impl::next_session_index] *)
Definition next_session_index (b : bucket) : Z * bucket :=
  let index := bkt_round_robin b in
  if decide (index < Z.of_nat (size (bkt_sessions b))) then (index, set_round_robin (u64 (index + 1)) b)
  else (0, set_round_robin 0 b).

(** [bucket_impl::map_id] *)
Definition map_id (b : bucket) (r : request) : outcome topology_error (Z * option Z) :=
  match bkt_config b with
  | Some config => map_key config (id_key (req_id r)) (req_node_index r)
  | None => Ok (0, None)
  end.

Definition defer_command (cid : nat) (w : world) : world :=
  upd_bucket (λ b, set_deferred (bkt_deferred b ++ [cid]) b) w.

(** The part of [bucket::map_and_send] after the session index is known. *)
Definition dispatch_to (send_to : nat → nat → world → world) (cid : nat) (index : Z) (w : world) : world :=
  match bkt_sessions (w_bucket w) !! index with
  | None => defer_command cid (connect_session index w)
  | Some sid =>
      match w_sessions w !! sid with
      | None => crash w
      | Some s =>
          if negb (ses_configured s) then defer_command cid w
          else if ses_stopped s then retry_command cid node_not_available request_canceled w
          else send_to cid sid w
      end
  end.

Fixpoint map_and_send_fuel (fuel : nat) (cid : nat) (w : world) : world :=
  match fuel with
  | O => crash w
  | S fuel =>
      match w_commands w !! cid with
      | None => w
      | Some c =>
          if bkt_closed (w_bucket w) then cancel cid true w
          else if req_use_any_session (cmd_request c) then
            let '(index, b) := next_session_index (w_bucket w) in
            dispatch_to (send_to (map_and_send_fuel fuel)) cid index (upd_bucket (λ _, b) w)
          else
            match map_id (w_bucket w) (cmd_request c) with
            | Ok (_, Some index) => dispatch_to (send_to (map_and_send_fuel fuel)) cid index w
            | Ok (_, None) => retry_command cid node_not_available request_canceled w
            | _ => crash w
            end
      end
  end.

(** The recursion through [request_collection_id] ends at once, since the
    session has just been found not to be stopped. *)
Definition map_and_send : nat → world → world := map_and_send_fuel 1.

Definition durability_timeout_floor : Z := 1500.

(** The constructor of [mcbp_command] and [start]. *)
Definition make_command (r : request) (idempotent : bool) (default_timeout now : Z) : command :=
  let timeout := match req_timeout r with Some t => t | None => default_timeout end in
  let timeout :=
    if req_durable r && bool_decide (timeout < durability_timeout_floor) then durability_timeout_floor
    else timeout in
  Command r (RetryRequest idempotent 0 ∅) (now + timeout * ms) true None None None
    (id_collection_uid (req_id r)) true.

(** [bucket::execute] *)
Definition execute (cid : nat) (r : request) (idempotent : bool) (w : world) : world :=
  if bkt_closed (w_bucket w) then w
  else
    let c := make_command r idempotent (bkt_default_timeout (w_bucket w)) (w_now w) in
    let w := World (<[cid := c]> (w_commands w)) (w_sessions w) (w_bucket w) (w_now w) (w_log w) (w_fault w) in
    if bkt_configured (w_bucket w) then map_and_send cid w else defer_command cid w.

(** [bucket_impl::drain_deferred_queue]: the queue is swapped out first. *)
Definition run_deferred (canceled : bool) (w : world) (cid : nat) : world :=
  if canceled then cancel cid true w else map_and_send cid w.
Definition drain_deferred_queue (canceled : bool) (w : world) : world :=
  let commands := bkt_deferred (w_bucket w) in
  foldl (run_deferred canceled) (upd_bucket (set_deferred []) w) commands.

(** ** Responses *)

Section responses.
Context `{JsonParser}.

(** The callback of [send] for any other error code. *)
Definition on_response_message (cid : nat) (ec : completion_code) (reason : retry_reason)
    (msg : mcbp_message) (w : world) : world :=
  match w_commands w !! cid with
  | None => w
  | Some c =>
      let w := upd_command cid (set_backoff None) w in
      let code := header_status (msg_header msg) in
      let status := if is_valid_status code then code else enum_code Status.invalid in
      let retry_attribute :=
        if is_valid_status code then false
        else match (cmd_session c ≫= λ sid, w_sessions w !! sid) with
             | Some s => match ses_error_map s !! code with Some b => b | None => false end
             | None => false
             end in
      if is_enum status Status.not_my_vbucket then retry_command cid key_value_not_my_vbucket ec w
      else if is_enum status Status.unknown_collection then handle_unknown_collection cid w
      else if is_enum status Status.config_only then
        retry_command cid service_response_code_indicated ec w
      else
        let reason :=
          if retry_attribute then key_value_error_map_retry_indicated
          else if is_enum status Status.locked then
            if is_enum (req_opcode (cmd_request c)) ClientOpcode.unlock then reason else key_value_locked
          else if is_enum status Status.temporary_failure then key_value_temporary_failure
          else if is_enum status Status.sync_write_in_progress then key_value_sync_write_in_progress
          else if is_enum status Status.sync_write_re_commit_in_progress
               then key_value_sync_write_re_commit_in_progress
          else reason in
        if decide (reason = do_not_retry) then invoke_handler cid ec (Some msg) w
        else retry_command cid reason ec w
  end.

(** The callback of [request_collection_id] for any other error code. *)
Definition on_collection_id_message (cid : nat) (ec : completion_code) (msg : mcbp_message) (w : world) : world :=
  match w_commands w !! cid with
  | None => w
  | Some c =>
      if decide (ec = collection_not_found) then
        if has (cmd_uid c) then invoke_handler cid ec None w else handle_unknown_collection cid w
      else if decide (ec ≠ no_error) then invoke_handler cid ec None w
      else
        match make_client_response (B := collection_id_body) (H0 := collection_id_response) msg with
        | Ok resp =>
            let uid := ci_collection_uid (rs_body resp) in
            let path := id_collection_path (req_id (cmd_request c)) in
            let w :=
              match cmd_session c with
              | Some sid =>
                  upd_session sid (λ s, if ses_stopped s then s else set_cache (<[path := uid]> (ses_cache s)) s) w
              | None => w
              end in
            send map_and_send cid (upd_command cid (set_uid (Some uid)) w)
        | _ => crash w
        end
  end.

Definition run_continuation (k : continuation) (ec : completion_code) (reason : retry_reason)
    (msg : mcbp_message) (w : world) : world :=
  if decide (ec = operation_aborted) then run_aborted k w
  else if decide (ec = request_canceled) then run_canceled k reason w
  else match k with
       | on_response cid => on_response_message cid ec reason msg w
       | on_collection_id cid => on_collection_id_message cid ec msg w
       end.

(** [mcbp_session_impl::handle_request]: the handler is removed before it is
    run; a response without a handler is ignored. *)
Definition handle_request (sid : nat) (opcode status opaque : Z) (msg : mcbp_message) (w : world) : world :=
  match w_sessions w !! sid with
  | None => w
  | Some s =>
      match ses_handlers s !! opaque with
      | None => w
      | Some fun_ =>
          let w := upd_session sid (set_handlers (delete opaque (ses_handlers s))) w in
          let reason :=
            if is_enum status Status.not_my_vbucket then key_value_not_my_vbucket else do_not_retry in
          run_continuation fun_ (code_of (map_status_code opcode status)) reason msg w
      end
  end.

(** ** Sessions that end, the bucket that closes *)

(** The entries of a [std::map] in the order of their keys. *)
Definition key_le {A} (x y : Z * A) : Prop := x.1 ≤ y.1.
#[local] Instance key_le_dec {A} : RelDecision (@key_le A).
Proof. intros x y. unfold key_le. apply _. Defined.
Definition in_order {A} (m : gmap Z A) : list (Z * A) := merge_sort key_le (map_to_list m).

(** [bucket_impl::remove_session], the handler installed with [on_stop]. *)
Definition remove_session (sid : nat) (w : world) : world :=
  upd_bucket (λ b, set_bkt_sessions (filter (λ p, p.2 ≠ sid) (bkt_sessions b)) b) w.

(** [mcbp_session_impl::stop]: a session that is lost before it is
    bootstrapped starts its bootstrap again.  The timers and the stream of the
    session, and the requests of the second kind ([operations_]), are not part
    of the state. *)
Definition stop (sid : nat) (reason : retry_reason) (w : world) : world :=
  match w_sessions w !! sid with
  | None => w
  | Some s =>
      if ses_stopped s then w
      else if bool_decide (reason = socket_closed_while_in_flight) && negb (ses_bootstrapped s) then w
      else
        let w := upd_session sid set_stopped w in
        let w := foldl (λ w h, run_canceled h.2 reason w) w (in_order (ses_handlers s)) in
        remove_session sid (upd_session sid (set_handlers ∅) w)
  end.

(** [bucket_impl::close] *)
Definition close (w : world) : world :=
  if bkt_closed (w_bucket w) then w
  else
    let w := drain_deferred_queue true (upd_bucket set_closed w) in
    let old_sessions := in_order (bkt_sessions (w_bucket w)) in
    foldl (λ w p, stop p.2 do_not_retry w) (upd_bucket (set_bkt_sessions ∅) w) old_sessions.

(** The labels of [message_handler::handle] that lead to a stored handler. *)
Definition handled_opcodes : list ClientOpcode.client_opcode :=
  [ClientOpcode.noop; ClientOpcode.get_collections_manifest; ClientOpcode.get_collection_id;
   ClientOpcode.get; ClientOpcode.get_and_lock; ClientOpcode.get_and_touch; ClientOpcode.get_meta;
   ClientOpcode.get_replica; ClientOpcode.touch; ClientOpcode.insert; ClientOpcode.replace;
   ClientOpcode.upsert; ClientOpcode.append; ClientOpcode.prepend; ClientOpcode.remove;
   ClientOpcode.observe_seqno; ClientOpcode.unlock; ClientOpcode.increment;
   ClientOpcode.range_scan_create; ClientOpcode.range_scan_continue; ClientOpcode.range_scan_cancel;
   ClientOpcode.decrement; ClientOpcode.subdoc_multi_lookup; ClientOpcode.subdoc_multi_mutation;
   ClientOpcode.sasl_auth].

(** [message_handler::handle].  The configurations that messages carry (the
    answer to [get_cluster_config], the payload of [not_my_vbucket], the
    notifications of the server) are posted to the listeners and reach the
    bucket in a step of their own. *)
Definition handle_message (sid : nat) (msg : mcbp_message) (w : world) : world :=
  let header := msg_header msg in
  let magic := hdr_magic header in
  let opcode := hdr_opcode header in
  if negb (is_valid_magic magic) then crash w
  else if negb (is_one_of magic [Magic.client_response; Magic.alt_client_response]) then w
  else if negb (is_valid_client_opcode opcode) then crash w
  else
    let status := header_status header in
    if is_enum opcode ClientOpcode.get_cluster_config then
      if is_enum status Status.auth_stale then stop sid do_not_retry w else w
    else if negb (is_one_of opcode handled_opcodes) then w
    else if is_enum status Status.auth_stale then stop sid do_not_retry w
    else handle_request sid opcode status (byte_swap32 (hdr_opaque header)) msg w.

(** The end of the bootstrap ([invoke_bootstrap_handler]): the features are
    known and the pending packets are written. *)
Definition finish_bootstrap (collections : bool) (errors : gmap Z bool) (s : session) : session :=
  Session (ses_stopped s) true true true collections (ses_opaque s) (ses_handlers s) (ses_cache s)
    errors (ses_output s ++ ses_pending s) [].

(** ** Steps of the system *)

Definition disarm_deadline (c : command) : command :=
  Command (cmd_request c) (cmd_retries c) (cmd_expiry c) false (cmd_backoff c) (cmd_opaque c)
    (cmd_session c) (cmd_uid c) (cmd_handler c).

Definition run_backoff (a : backoff_action) (cid : nat) (w : world) : world :=
  match a with
  | resend => map_and_send cid w
  | resolve_collection => request_collection_id map_and_send cid w
  end.

Inductive step : world → world → Prop :=
  | step_execute w cid r idempotent :
      w_commands w !! cid = None → step w (execute cid r idempotent w)
  | step_deadline w cid c :
      w_commands w !! cid = Some c → cmd_deadline c = true → cmd_expiry c ≤ w_now w →
      step w (cancel cid true (upd_command cid disarm_deadline w))
  | step_backoff w cid c t a :
      w_commands w !! cid = Some c → cmd_backoff c = Some (t, a) → t ≤ w_now w →
      step w (run_backoff a cid (upd_command cid (set_backoff None) w))
  | step_cancel_token w cid c :
      w_commands w !! cid = Some c → req_cancellable (cmd_request c) = true →
      step w (cancel cid false w)
  | step_message w sid s msg :
      w_sessions w !! sid = Some s → ses_stopped s = false → ses_bootstrapped s = true →
      step w (handle_message sid msg w)
  | step_stop w sid reason : step w (stop sid reason w)
  | step_bootstrap w sid s collections errors :
      w_sessions w !! sid = Some s → ses_stopped s = false →
      step w (drain_deferred_queue false (upd_session sid (finish_bootstrap collections errors) w))
  | step_connect w index : step w (connect_session index w)
  | step_config w config : step w (upd_bucket (set_config config) w)
  | step_drain w : step w (drain_deferred_queue false w)
  | step_close w : step w (close w)
  | step_time w t :
      w_now w ≤ t →
      step w (World (w_commands w) (w_sessions w) (w_bucket w) t (w_log w) (w_fault w)).

(** A bucket that has just been created. *)
Record initial (w : world) : Prop := {
  initial_commands : w_commands w = ∅;
  initial_sessions : w_sessions w = ∅;
  initial_log : w_log w = [];
}.

Definition reachable (w : world) : Prop := ∃ w0, initial w0 ∧ rtc step w0 w.
End responses.
