(* ===== verification/OperationProofs.v ===== *)
(** * Every operation completes exactly once: proofs

    What any routine of [Operation] may do to a world is described by the
    preorder [ok]: it never sets a handler, it logs a completion exactly when
    it takes the handler of a command away, and it keeps the tables of the
    sessions consistent with the commands. *)

From S2P Require Import Prelude ByteOrder Protocol McbpParser ClientRequest ClientResponse Commands Topology Retry Operation.

(** ** Views of a world *)

(** The members of a command that decide about its completion. *)
Definition life (c : command) : bool * bool * Z := (cmd_handler c, cmd_deadline c, cmd_expiry c).

Definition completions (w : world) (cid : nat) : nat := length (filter (λ e, e.1.1 = cid) (w_log w)).

Definition view (w : world) (cid : nat) : option (bool * bool * Z) * nat :=
  (life <$> w_commands w !! cid, completions w cid).

(** What may happen to a command: nothing, completion, or the cancellation of
    timers after its completion. *)
Inductive evolves : option (bool * bool * Z) * nat → option (bool * bool * Z) * nat → Prop :=
  | evolves_same v : evolves v v
  | evolves_complete d e n : evolves (Some (true, d, e), n) (Some (false, false, e), S n)
  | evolves_disarm d e n : evolves (Some (false, d, e), n) (Some (false, false, e), n).

Lemma evolves_trans v1 v2 v3 : evolves v1 v2 → evolves v2 v3 → evolves v1 v3.
Proof. intros [] H2; [done|..]; inversion H2; subst; constructor. Qed.

Definition progress (w w' : world) : Prop := ∀ cid, evolves (view w cid) (view w' cid).

(** ** Consistency of the tables *)

(** Fewer than 2^32 requests were numbered per session, nothing undefined was
    executed. *)
Definition sane (w : world) : Prop :=
  (∀ sid s, w_sessions w !! sid = Some s → ses_opaque s < 2 ^ 32 - 1) ∧ w_fault w = false.

Definition grows (w w' : world) : Prop :=
  (∀ sid s, w_sessions w !! sid = Some s →
     ∃ s', w_sessions w' !! sid = Some s' ∧ ses_opaque s ≤ ses_opaque s') ∧
  (w_fault w = true → w_fault w' = true) ∧
  w_log w `suffix_of` w_log w'.

Lemma grows_refl w : grows w w.
Proof. split_and!; [|done..]. intros sid s Hs. by exists s. Qed.

Lemma grows_trans w1 w2 w3 : grows w1 w2 → grows w2 w3 → grows w1 w3.
Proof.
  intros (H1 & F1 & L1) (H2 & F2 & L2). split_and!; [|auto|by etrans]. intros sid s Hs.
  destruct (H1 _ _ Hs) as (s2 & Hs2 & ?), (H2 _ _ Hs2) as (s3 & Hs3 & ?). exists s3. split; [done|lia].
Qed.

Lemma sane_grows w w' : grows w w' → sane w' → sane w.
Proof.
  intros (Hg & Hf & _) [Hn Hf']. split.
  - intros sid s Hs. destruct (Hg _ _ Hs) as (s' & Hs' & ?). specialize (Hn _ _ Hs'). lia.
  - destruct (w_fault w); [|done]. rewrite Hf in Hf'; done.
Qed.

(** The pair of session and opaque under which a command waits. *)
Definition waits (w : world) (cid sid : nat) (o : Z) : Prop :=
  ∃ c, w_commands w !! cid = Some c ∧ cmd_session c = Some sid ∧ cmd_opaque c = Some o.

(** The consistency of all commands that satisfy [P]. *)
Record consistent (P : nat → Prop) (w : world) : Prop := {
  con_handlers sid s : w_sessions w !! sid = Some s →
    0 ≤ ses_opaque s ∧ ∀ o k, ses_handlers s !! o = Some k → o ≤ ses_opaque s;
  con_waits cid sid o : P cid → waits w cid sid o →
    ∃ s, w_sessions w !! sid = Some s ∧ o ≤ ses_opaque s ∧
      ∀ k, ses_handlers s !! o = Some k → k = on_response cid;
  con_unique cid cid' sid o : P cid → P cid' → waits w cid sid o → waits w cid' sid o → cid = cid';
}.

Definition inv : world → Prop := consistent (λ _, True).

(** ** The preorder *)

Definition ok (w w' : world) : Prop :=
  grows w w' ∧ (inv w → sane w' → progress w w' ∧ inv w').

Lemma ok_refl w : ok w w.
Proof. split; [apply grows_refl|]. intros Hi _. split; [intros cid; constructor|done]. Qed.

Lemma ok_trans w1 w2 w3 : ok w1 w2 → ok w2 w3 → ok w1 w3.
Proof.
  intros [G1 H1] [G2 H2]. split; [by eapply grows_trans|]. intros Hi Hs.
  destruct (H1 Hi (sane_grows _ _ G2 Hs)) as [P1 I2]. destruct (H2 I2 Hs) as [P2 I3].
  split; [|done]. intros cid. by eapply evolves_trans.
Qed.

Global Instance ok_preorder : PreOrder ok.
Proof. split; [exact ok_refl|exact ok_trans]. Qed.

Lemma ok_foldl {A} (f : world → A → world) l w : (∀ w x, ok w (f w x)) → ok w (foldl f w l).
Proof.
  intros Hf. revert w. induction l as [|x l IH]; intros w; [done|]. cbn [foldl].
  etrans; [apply Hf|apply IH].
Qed.

Create HintDb op discriminated.
#[export] Hint Resolve ok_refl : op.

(** ** Primitive updates *)

Lemma waits_upd_command cid f w cid' sid o :
  (∀ c, cmd_session (f c) = cmd_session c ∧ cmd_opaque (f c) = cmd_opaque c) →
  waits (upd_command cid f w) cid' sid o ↔ waits w cid' sid o.
Proof.
  intros Hf. unfold waits, upd_command. cbn [w_commands].
  destruct (decide (cid = cid')) as [->|Hne]; [|by rewrite lookup_alter_ne].
  rewrite lookup_alter_eq. split.
  - intros (c & Hc & H1 & H2). apply fmap_Some in Hc as (c0 & Hc0 & ->).
    destruct (Hf c0) as [E1 E2]. exists c0. split_and!; congruence.
  - intros (c & Hc & H1 & H2). exists (f c). rewrite Hc. destruct (Hf c) as [E1 E2].
    split_and!; [done|congruence..].
Qed.

Lemma consistent_commands P w w' :
  w_sessions w' = w_sessions w → (∀ cid sid o, waits w' cid sid o → waits w cid sid o) →
  consistent P w → consistent P w'.
Proof.
  intros Hs Hw [H1 H2 H3]. split.
  - rewrite Hs. apply H1.
  - intros cid sid o HP Hwt. rewrite Hs. by apply H2, Hw.
  - intros cid cid' sid o HP HP' Hwt Hwt'. eapply H3; eauto.
Qed.

Lemma grows_sessions w w' :
  w_sessions w' = w_sessions w → (w_fault w = true → w_fault w' = true) →
  w_log w `suffix_of` w_log w' → grows w w'.
Proof. intros Hs Hf Hlog. split_and!; [|done..]. rewrite Hs. intros sid s Hl. by exists s. Qed.

(** Updates of a command that leave its life and its place alone. *)
Lemma ok_upd_command cid f w :
  (∀ c, w_commands w !! cid = Some c → life (f c) = life c) →
  (∀ c, cmd_session (f c) = cmd_session c ∧ cmd_opaque (f c) = cmd_opaque c) →
  ok w (upd_command cid f w).
Proof.
  intros Hl Hf. split; [by apply grows_sessions|]. intros Hi _. split.
  - intros cid'. assert (view (upd_command cid f w) cid' = view w cid') as ->; [|constructor].
    unfold view, upd_command. f_equal. cbn [w_commands].
    destruct (decide (cid = cid')) as [->|Hne]; [|by rewrite lookup_alter_ne].
    rewrite lookup_alter_eq. destruct (w_commands w !! cid') eqn:Hc; [|done]. cbn. by rewrite Hl.
  - revert Hi. apply consistent_commands; [done|]. intros cid' sid o. by apply waits_upd_command.
Qed.

Lemma ok_same_tables w w' :
  w_commands w' = w_commands w → w_sessions w' = w_sessions w → w_log w' = w_log w →
  (w_fault w = true → w_fault w' = true) → ok w w'.
Proof.
  intros Hc Hs Hl Hf. split; [by apply grows_sessions; [..|rewrite Hl]|]. intros Hi _. split.
  - intros cid. assert (view w' cid = view w cid) as ->; [|constructor].
    unfold view, completions. by rewrite Hc, Hl.
  - revert Hi. apply consistent_commands; [done|]. intros cid sid o. unfold waits. by rewrite Hc.
Qed.

Lemma ok_upd_bucket f w : ok w (upd_bucket f w).
Proof. by apply ok_same_tables. Qed.

Lemma ok_crash w : ok w (crash w).
Proof. by apply ok_same_tables. Qed.

(** Updates of a session that keep its counter and add no handler. *)
Lemma ok_upd_session sid f w :
  (∀ s, w_sessions w !! sid = Some s → ses_opaque (f s) = ses_opaque s ∧ ses_handlers (f s) ⊆ ses_handlers s) →
  ok w (upd_session sid f w).
Proof.
  intros Hf.
  assert (Hback : ∀ sid' s', w_sessions (upd_session sid f w) !! sid' = Some s' →
    ∃ s, w_sessions w !! sid' = Some s ∧ ses_opaque s' = ses_opaque s ∧ ses_handlers s' ⊆ ses_handlers s).
  { intros sid' s'. unfold upd_session. cbn [w_sessions].
    destruct (decide (sid = sid')) as [->|Hne]; [|rewrite lookup_alter_ne by done; eauto].
    rewrite lookup_alter_eq. intros (s & Hs & ->)%fmap_Some. exists s. split; [done|by apply Hf]. }
  assert (Hfwd : ∀ sid' s, w_sessions w !! sid' = Some s →
    ∃ s', w_sessions (upd_session sid f w) !! sid' = Some s' ∧ ses_opaque s' = ses_opaque s ∧
      ses_handlers s' ⊆ ses_handlers s).
  { intros sid' s Hs. unfold upd_session. cbn [w_sessions].
    destruct (decide (sid = sid')) as [->|Hne]; [|rewrite lookup_alter_ne by done; eauto].
    rewrite lookup_alter_eq, Hs. exists (f s). split; [done|by apply Hf]. }
  split.
  { split_and!; [|done..]. intros sid' s Hs. destruct (Hfwd _ _ Hs) as (s' & Hs' & Heq & _). exists s'. split; [done|lia]. }
  intros [H1 H2 H3] _. split; [intros cid; constructor|]. split; [| |exact H3].
  - intros sid' s' Hs'. destruct (Hback _ _ Hs') as (s & Hs & -> & Hsub).
    destruct (H1 _ _ Hs) as [? Hh]. split; [done|]. intros o k Hk. eapply Hh, lookup_weaken; eauto.
  - intros cid sid' o HP Hw. destruct (H2 _ _ _ HP Hw) as (s & Hs & Ho & Hk).
    destruct (Hfwd _ _ Hs) as (s' & Hs' & Heq & Hsub). exists s'. split_and!; [done|lia|].
    intros k Hk'. eapply Hk, lookup_weaken; eauto.
Qed.

(** [invoke_handler] completes a command or does nothing. *)
Lemma completions_cons cid ec msg l cid' :
  length (filter (λ e : nat * completion_code * option mcbp_message, e.1.1 = cid') ((cid, ec, msg) :: l)) =
  ((if decide (cid = cid') then 1 else 0) + length (filter (λ e, e.1.1 = cid') l))%nat.
Proof. rewrite filter_cons. cbn. by case_decide. Qed.

Lemma invoke_handler_view cid ec msg w cid' :
  view (invoke_handler cid ec msg w) cid' =
  if decide (cid = cid') then
    match w_commands w !! cid with
    | None => view w cid'
    | Some c => (Some (false, false, cmd_expiry c), (if cmd_handler c then 1 else 0) + completions w cid)%nat
    end
  else view w cid'.
Proof.
  unfold invoke_handler. destruct (w_commands w !! cid) as [c|] eqn:Hc; [|by case_decide].
  destruct (cmd_handler c); unfold view, completions; cbn [upd_command w_commands w_log];
    rewrite ?completions_cons; case_decide as Hd; subst;
    rewrite ?lookup_alter_eq, ?lookup_alter_ne, ?Hc by done; done.
Qed.

Lemma ok_invoke_handler cid ec msg w : ok w (invoke_handler cid ec msg w).
Proof.
  assert (Hs : w_sessions (invoke_handler cid ec msg w) = w_sessions w ∧
               w_fault (invoke_handler cid ec msg w) = w_fault w ∧
               w_log w `suffix_of` w_log (invoke_handler cid ec msg w)).
  { unfold invoke_handler. destruct (w_commands w !! cid) as [c|]; [|done].
    destruct (cmd_handler c); [|done]. split_and!; [done..|]. apply suffix_cons_r, reflexivity. }
  destruct Hs as (Hs & Hf & Hl). split; [apply grows_sessions; [done|by rewrite Hf|done]|]. intros Hi _. split.
  - intros cid'. rewrite invoke_handler_view. case_decide as Hd; [|constructor]. subst cid'.
    destruct (w_commands w !! cid) as [c|] eqn:Hc; [|constructor].
    unfold view. rewrite Hc. cbn [fmap option_fmap option_map]. unfold life.
    destruct (cmd_handler c); constructor.
  - revert Hi. apply consistent_commands; [done|]. intros cid' sid o.
    intros Hw. apply (waits_upd_command cid finish); [done|]. revert Hw. unfold invoke_handler.
    destruct (w_commands w !! cid) as [c|] eqn:Hc; [by destruct (cmd_handler c)|].
    by rewrite waits_upd_command.
Qed.

#[export] Hint Resolve ok_upd_bucket ok_crash ok_invoke_handler : op.

(** ** Cancellation and retries *)

Lemma invoke_handler_done cid ec msg w c :
  w_commands (invoke_handler cid ec msg w) !! cid = Some c → cmd_handler c = false.
Proof.
  intros Hc. pose proof (invoke_handler_view cid ec msg w cid) as Hv. rewrite decide_True in Hv by done.
  unfold view in Hv. rewrite Hc in Hv. cbn in Hv.
  destruct (w_commands w !! cid) as [c0|] eqn:Hc0; [by injection Hv|].
  unfold invoke_handler in Hc. rewrite Hc0 in Hc. congruence.
Qed.

Lemma ok_set_backoff cid b w : ok w (upd_command cid (set_backoff b) w).
Proof. by apply ok_upd_command. Qed.
Lemma ok_set_retries cid r w : ok w (upd_command cid (set_retries r) w).
Proof. by apply ok_upd_command. Qed.
Lemma ok_set_uid cid u w : ok w (upd_command cid (set_uid u) w).
Proof. by apply ok_upd_command. Qed.
Lemma ok_delete_handler sid s o w :
  w_sessions w !! sid = Some s → ok w (upd_session sid (set_handlers (delete o (ses_handlers s))) w).
Proof.
  intros Hs. apply ok_upd_session. intros s' Hs'. rewrite Hs in Hs'. injection Hs' as <-.
  split; [done|apply delete_subseteq].
Qed.
#[export] Hint Resolve ok_set_backoff ok_set_retries ok_set_uid ok_delete_handler : op.

Lemma ok_run_aborted k w : ok w (run_aborted k w).
Proof.
  destruct k as [cid|cid]; cbn [run_aborted]; [|apply ok_invoke_handler].
  unfold on_response_aborted. etrans; [apply ok_set_backoff|apply ok_invoke_handler].
Qed.
#[export] Hint Resolve ok_run_aborted : op.

(** A cancelled request in flight has completed before its handler is dropped. *)
Lemma ok_session_cancel cid c sid o w :
  w_commands w !! cid = Some c → cmd_opaque c = Some o → cmd_session c = Some sid →
  ok w (let '(cancelled, w) := session_cancel sid o w in
        if cancelled : bool then upd_command cid drop_handler w else w).
Proof.
  intros Hc Ho Hsid. unfold session_cancel.
  destruct (w_sessions w !! sid) as [s|] eqn:Hs; [|done]. destruct (ses_stopped s); [done|].
  destruct (ses_handlers s !! o) as [k|] eqn:Hk; [|done].
  set (w1 := upd_session sid _ w). assert (H1 : ok w w1) by (by apply ok_delete_handler).
  split.
  { destruct (ok_trans _ _ _ H1 (ok_run_aborted k w1)) as [Hg _].
    eapply grows_trans; [exact Hg|by apply grows_sessions]. }
  intros Hi Hsane. assert (Hwt : waits w cid sid o) by (exists c; auto).
  destruct (con_waits _ _ Hi cid sid o I Hwt) as (s' & Hs' & _ & Hown).
  rewrite Hs in Hs'. injection Hs' as <-. rewrite (Hown _ Hk) in *. clear k Hk Hown.
  assert (Hok : ok w (upd_command cid drop_handler (run_aborted (on_response cid) w1))); [|by apply Hok].
  etrans; [exact H1|]. etrans; [apply (ok_run_aborted (on_response cid))|].
  apply ok_upd_command; [|done]. intros c' Hc'. cbn [run_aborted] in Hc'. unfold on_response_aborted in Hc'.
  apply invoke_handler_done in Hc'. unfold life. cbn. by rewrite Hc'.
Qed.

Lemma ok_cancel cid is_timeout w : ok w (cancel cid is_timeout w).
Proof.
  unfold cancel. destruct (w_commands w !! cid) as [c|] eqn:Hc; [|done].
  set (w1 := match cmd_opaque c with Some _ => _ | None => _ end).
  assert (Hw1 : ok w w1).
  { unfold w1. destruct (cmd_opaque c) as [o|] eqn:Ho; [|done].
    destruct (cmd_session c) as [sid|] eqn:Hs; [|done]. by apply (ok_session_cancel cid c). }
  etrans; [exact Hw1|]. destruct is_timeout; apply ok_invoke_handler.
Qed.
#[export] Hint Resolve ok_cancel : op.

Lemma ok_schedule_for_retry cid d w : ok w (schedule_for_retry cid d w).
Proof. unfold schedule_for_retry. case_match; auto with op. Qed.

Lemma ok_retry_command cid reason ec w : ok w (retry_command cid reason ec w).
Proof.
  unfold retry_command. destruct (w_commands w !! cid); [|done]. destruct (maybe_retry _ _ _ _ _ _); [|auto with op].
  etrans; [apply ok_set_retries|apply ok_schedule_for_retry].
Qed.
#[export] Hint Resolve ok_retry_command : op.

Lemma ok_run_canceled k reason w : ok w (run_canceled k reason w).
Proof.
  destruct k as [cid|cid]; cbn [run_canceled]; [|apply ok_invoke_handler].
  unfold on_response_canceled. etrans; [apply ok_set_backoff|]. case_match; auto with op.
Qed.

Lemma ok_handle_unknown_collection cid w : ok w (handle_unknown_collection cid w).
Proof.
  unfold handle_unknown_collection. destruct (w_commands w !! cid); [|done].
  etrans; [apply ok_set_retries|]. case_decide; auto with op.
Qed.
#[export] Hint Resolve ok_run_canceled ok_handle_unknown_collection : op.

(** ** Sending *)

Lemma lookup_upd_session sid f w sid' s :
  w_sessions w !! sid = Some s →
  w_sessions (upd_session sid f w) !! sid' = if decide (sid = sid') then Some (f s) else w_sessions w !! sid'.
Proof.
  intros Hs. unfold upd_session. cbn [w_sessions]. case_decide as Hd; [subst|by apply lookup_alter_ne].
  by rewrite lookup_alter_eq, Hs.
Qed.

Lemma grows_upd_session sid f w : (∀ s, ses_opaque s ≤ ses_opaque (f s)) → grows w (upd_session sid f w).
Proof.
  intros Hf. split_and!; [|done..]. intros sid' s Hs.
  destruct (decide (sid = sid')) as [->|Hne].
  - rewrite (lookup_upd_session _ _ _ _ s), decide_True by done. eauto.
  - unfold upd_session. cbn [w_sessions]. rewrite lookup_alter_ne by done. by exists s.
Qed.

(** A new handler belongs to the command that waits for it, if any does. *)
Lemma insert_handler_inv sid s o k f w :
  w_sessions w !! sid = Some s → ses_opaque (f s) = ses_opaque s →
  ses_handlers (f s) = <[o := k]> (ses_handlers s) → o ≤ ses_opaque s →
  (∀ cid, waits w cid sid o → k = on_response cid) → inv w → inv (upd_session sid f w).
Proof.
  intros Hs Hop Hh Ho Hk [H1 H2 H3]. split; [| |exact H3].
  - intros sid' s'. rewrite (lookup_upd_session _ _ _ _ s) by done.
    case_decide as Hd; [|apply H1]. intros [= <-]. rewrite Hop, Hh.
    destruct (H1 _ _ Hs) as [? Hb]. split; [done|]. intros o' k'.
    rewrite lookup_insert_Some. intros [[<- _]|[_ Hl]]; [done|by eapply Hb].
  - intros cid sid' o' _ Hw. destruct (H2 cid sid' o' I Hw) as (s' & Hs' & Ho' & Hown).
    rewrite (lookup_upd_session _ _ _ _ s) by done. case_decide as Hd; [|by exists s'].
    subst sid'. rewrite Hs in Hs'. injection Hs' as <-. exists (f s). rewrite Hop, Hh.
    split_and!; [done..|]. intros k'. rewrite lookup_insert_Some.
    intros [[-> <-]|[_ Hl]]; [by apply Hk|by apply Hown].
Qed.

(** The next opaque of a session is above all that are in use. *)
Lemma next_opaque_above sid s w :
  w_sessions w !! sid = Some s → sane (upd_session sid count_opaque w) → 0 ≤ ses_opaque s →
  next_opaque s = ses_opaque s + 1.
Proof.
  intros Hs [Hn _] H0. specialize (Hn sid (count_opaque s)). rewrite (lookup_upd_session _ _ _ _ s) in Hn by done.
  rewrite decide_True in Hn by done. specialize (Hn eq_refl). cbn in Hn.
  unfold next_opaque. rewrite wrap_small; [done|]. unfold in_width. lia.
Qed.

Lemma count_opaque_inv P sid w : consistent P w → consistent P (upd_session sid count_opaque w).
Proof.
  intros [H1 H2 H3].
  assert (Hback : ∀ sid' s', w_sessions (upd_session sid count_opaque w) !! sid' = Some s' →
    ∃ s, w_sessions w !! sid' = Some s ∧ (s' = s ∨ s' = count_opaque s)).
  { intros sid' s'. unfold upd_session. cbn [w_sessions].
    destruct (decide (sid = sid')) as [->|Hne]; [|rewrite lookup_alter_ne by done; eauto].
    rewrite lookup_alter_eq. intros (s & Hs & ->)%fmap_Some. eauto. }
  split; [| |exact H3].
  - intros sid' s' (s & Hs & Hc)%Hback. destruct (H1 _ _ Hs) as [? Hb].
    destruct Hc as [->| ->]; [done|]. cbn. split; [lia|]. intros o k Hl. apply Hb in Hl. lia.
  - intros cid sid' o HP Hw. destruct (H2 cid sid' o HP Hw) as (s & Hs & Ho & Hown).
    destruct (grows_upd_session sid count_opaque w) as [Hg _]; [cbn; lia|].
    destruct (Hg _ _ Hs) as (s' & Hs' & Hle). exists s'. split; [done|]. split; [lia|].
    destruct (Hback _ _ Hs') as (s0 & Hs0 & [->| ->]); rewrite Hs in Hs0; injection Hs0 as <-; done.
Qed.

Lemma write_grows sid o k w : grows w (write_and_subscribe sid o k w).
Proof.
  unfold write_and_subscribe. destruct (w_sessions w !! sid) as [s|]; [|by apply ok_crash].
  destruct (ses_stopped s); [apply ok_run_canceled|]. apply grows_upd_session. intros s'. by case_match.
Qed.

Lemma write_inv sid o k w :
  inv w → (∀ s, w_sessions w !! sid = Some s → o ≤ ses_opaque s) →
  (∀ cid, waits w cid sid o → k = on_response cid) → sane (write_and_subscribe sid o k w) →
  progress w (write_and_subscribe sid o k w) ∧ inv (write_and_subscribe sid o k w).
Proof.
  intros Hi Ho Hk. unfold write_and_subscribe.
  destruct (w_sessions w !! sid) as [s|] eqn:Hs; [|by apply ok_crash].
  destruct (ses_stopped s); [by apply ok_run_canceled|]. intros Hsane. split; [intros cid; constructor|].
  destruct (ses_handlers s !! o) as [k'|] eqn:Hl.
  - eapply ok_upd_session; [|done..]. intros s' Hs'. rewrite Hs in Hs'. injection Hs' as <-. by case_match.
  - apply (insert_handler_inv sid s o k); [done|by case_match|by case_match|by apply Ho|done..].
Qed.

(** The response of an operation is stored under the opaque it waits for. *)
Lemma ok_subscribe_response cid sid o w :
  waits w cid sid o → ok w (write_and_subscribe sid o (on_response cid) w).
Proof.
  intros Hw. split; [apply write_grows|]. intros Hi. apply write_inv; [done|..].
  - intros s Hs. destruct (con_waits _ _ Hi cid sid o I Hw) as (s' & Hs' & ? & _). congruence.
  - intros cid' Hw'. f_equal. by apply (con_unique _ _ Hi cid cid' sid o I I).
Qed.

(** The request for a collection uses an opaque no operation waits for. *)
Lemma ok_subscribe_collection cid sid s w :
  w_sessions w !! sid = Some s →
  ok w (write_and_subscribe sid (next_opaque s) (on_collection_id cid) (upd_session sid count_opaque w)).
Proof.
  intros Hs. set (w0 := upd_session sid count_opaque w).
  assert (Hg : grows w w0) by (apply grows_upd_session; cbn; lia).
  split; [eapply grows_trans; [exact Hg|apply write_grows]|]. intros Hi Hsane.
  destruct (con_handlers _ _ Hi _ _ Hs) as [H0 _].
  assert (Hnext : next_opaque s = ses_opaque s + 1).
  { apply (next_opaque_above sid s w); [done| |done]. by eapply sane_grows; [apply write_grows|]. }
  rewrite Hnext in *.
  assert (Hi0 : inv w0) by (by apply count_opaque_inv).
  destruct (write_inv sid (ses_opaque s + 1) (on_collection_id cid) w0) as [Hp Hi']; [done|..|done|].
  - intros s' Hs'. unfold w0 in Hs'. rewrite (lookup_upd_session _ _ _ _ s), decide_True in Hs' by done.
    by injection Hs' as <-.
  - intros cid' Hw'. destruct (con_waits _ _ Hi cid' sid _ I Hw') as (s' & Hs' & Hle & _).
    rewrite Hs in Hs'. injection Hs' as <-. lia.
  - by split.
Qed.

Section send_proofs.
Context (rec : nat → world → world) (Hrec : ∀ cid w, ok w (rec cid w)).

Lemma ok_request_collection_id cid w : ok w (request_collection_id rec cid w).
Proof using Hrec.
  unfold request_collection_id. destruct (w_commands w !! cid ≫= cmd_session) as [sid|]; [|auto with op].
  destruct (w_sessions w !! sid) as [s|] eqn:Hs; [|auto with op].
  destruct (ses_stopped s); [apply Hrec|by apply ok_subscribe_collection].
Qed.

Lemma ok_send_encoded cid sid o c w : waits w cid sid o → ok w (send_encoded cid sid o c w).
Proof using.
  intros Hw. unfold send_encoded. case_match; [auto with op|by apply ok_subscribe_response].
Qed.

(** After [send] has numbered the request all commands are consistent. *)
Definition numbered (cid sid : nat) (s : session) (w : world) : world :=
  upd_command cid (set_opaque (Some (next_opaque s))) (upd_session sid count_opaque w).

Lemma waits_numbered cid sid s c w cid' sid' o :
  w_commands w !! cid = Some c → cmd_session c = Some sid →
  waits (numbered cid sid s w) cid' sid' o ↔
  (cid' = cid ∧ sid' = sid ∧ o = next_opaque s) ∨ (cid' ≠ cid ∧ waits w cid' sid' o).
Proof using.
  intros Hc Hsid. unfold waits, numbered, upd_command, upd_session. cbn [w_commands].
  destruct (decide (cid = cid')) as [->|Hne].
  - rewrite lookup_alter_eq, Hc. split.
    + intros (c' & [= <-] & H1 & [= <-]). cbn in H1. rewrite Hsid in H1. injection H1 as <-. by left.
    + intros [(_ & -> & ->)|[? _]]; [|done]. eexists. split; [done|]. by cbn.
  - rewrite lookup_alter_ne by done. split; [intros ?; by right|]. by intros [[-> _]|[_ ?]].
Qed.

Lemma numbered_inv cid sid s c w :
  w_commands w !! cid = Some c → cmd_session c = Some sid → w_sessions w !! sid = Some s →
  consistent (λ x, x ≠ cid) w → sane (numbered cid sid s w) → inv (numbered cid sid s w).
Proof using.
  intros Hc Hsid Hs Hi Hsane.
  assert (Hw : ∀ cid' sid' o, waits (numbered cid sid s w) cid' sid' o ↔ _)
    by (intros; by apply (waits_numbered cid sid s c)).
  destruct (con_handlers _ _ Hi _ _ Hs) as [H0 Hb].
  rewrite (next_opaque_above sid s w) in Hw; [|done|exact Hsane|done].
  pose proof (count_opaque_inv _ sid w Hi) as [H1 H2 H3].
  assert (Hlow : ∀ cid', cid' ≠ cid → ¬ waits w cid' sid (ses_opaque s + 1)).
  { intros cid' Hne Hw'. destruct (con_waits _ _ Hi cid' sid _ Hne Hw') as (s' & Hs' & Hle & _).
    rewrite Hs in Hs'. injection Hs' as <-. lia. }
  split; [exact H1| |].
  - intros cid' sid' o _ [(-> & -> & ->)|[Hne Hw']]%Hw; [|by apply H2].
    exists (count_opaque s). unfold numbered, upd_command. cbn [w_sessions].
    rewrite (lookup_upd_session _ _ _ _ s), decide_True by done. split_and!; [done|cbn; lia|].
    intros k Hk. apply Hb in Hk. lia.
  - intros cid1 cid2 sid' o _ _ W1%Hw W2%Hw.
    destruct W1 as [(-> & -> & ->)|[Hn1 W1]], W2 as [(-> & Hsid2 & Ho2)|[Hn2 W2]]; [done|..].
    + by apply Hlow in W2.
    + subst. by apply Hlow in W1.
    + by apply (H3 _ _ sid' o Hn1 Hn2).
Qed.

(** [ok], for a command whose place is about to be replaced. *)
Definition ok_but (cid : nat) (w w' : world) : Prop :=
  grows w w' ∧ (consistent (λ x, x ≠ cid) w → sane w' → progress w w' ∧ inv w').

Lemma ok_but_crash cid w : ok_but cid w (crash w).
Proof using. split; [by apply ok_crash|]. by intros _ [_ [=]]. Qed.

Lemma ok_but_numbered cid sid s c w w' :
  w_commands w !! cid = Some c → cmd_session c = Some sid → w_sessions w !! sid = Some s →
  ok (numbered cid sid s w) w' → ok_but cid w w'.
Proof using.
  intros Hc Hsid Hs [Hg Hok].
  assert (Hg' : grows w (numbered cid sid s w)).
  { eapply grows_trans; [apply (grows_upd_session sid count_opaque); cbn; lia|by apply grows_sessions]. }
  split; [by eapply grows_trans|]. intros Hi Hsane. assert (Hsane' := sane_grows _ _ Hg Hsane).
  destruct Hok as [Hp Hi']; [by apply (numbered_inv cid sid s c)|done|]. split; [|done].
  intros cid'. replace (view w cid') with (view (numbered cid sid s w) cid') by
    (unfold view, numbered, upd_command; cbn; f_equal;
     destruct (decide (cid = cid')) as [->|Hne]; [by rewrite lookup_alter_eq, Hc|by rewrite lookup_alter_ne]).
  apply Hp.
Qed.

Lemma ok_but_send cid w : ok_but cid w (send rec cid w).
Proof using Hrec.
  unfold send. destruct (w_commands w !! cid) as [c|] eqn:Hc.
  2: { split; [apply grows_refl|]. intros [H1 H2 H3] _. split; [intros ?; constructor|].
       assert (Hno : ∀ x sid o, waits w x sid o → x ≠ cid) by (intros x sid o (c & ? & _) ->; congruence).
       split; [done|eauto..]. }
  destruct (cmd_session c) as [sid|] eqn:Hsid; [|apply ok_but_crash].
  destruct (w_sessions w !! sid) as [s|] eqn:Hs; [|apply ok_but_crash].
  apply (ok_but_numbered cid sid s c); [done..|]. fold (numbered cid sid s w).
  assert (Hw : waits (numbered cid sid s w) cid sid (next_opaque s))
    by (apply (waits_numbered cid sid s c); auto).
  destruct (_ && _); [|by apply ok_send_encoded]. destruct (ses_collections s).
  - case_decide; [auto with op|]. destruct (ses_cache s !! _) as [uid|].
    + etrans; [apply ok_set_uid|]. apply ok_send_encoded. by apply waits_upd_command.
    + by apply ok_request_collection_id.
  - destruct (negb _); [auto with op|by apply ok_send_encoded].
Qed.

Lemma ok_send cid w : ok w (send rec cid w).
Proof using Hrec.
  destruct (ok_but_send cid w) as [Hg Hok]. split; [done|]. intros [H1 H2 H3]. apply Hok. split; eauto.
Qed.

Lemma ok_send_to cid sid w : ok w (send_to rec cid sid w).
Proof using Hrec.
  unfold send_to. destruct (w_commands w !! cid) as [c|] eqn:Hc; [|done]. destruct (negb _); [done|].
  set (w0 := upd_command cid _ w). destruct (ok_but_send cid w0) as [Hg Hok].
  split; [eapply grows_trans; [|exact Hg]; by apply grows_sessions|]. intros [H1 H2 H3] Hsane.
  assert (Hw : ∀ x sid' o, x ≠ cid → waits w0 x sid' o → waits w x sid' o).
  { intros x sid' o Hne. unfold waits, w0, upd_command. cbn [w_commands]. by rewrite lookup_alter_ne. }
  destruct Hok as [Hp Hi]; [split; eauto|done|]. split; [|done].
  intros x. replace (view w x) with (view w0 x) by
    (unfold view, w0, upd_command; cbn; f_equal;
     destruct (decide (cid = x)) as [->|Hne]; [by rewrite lookup_alter_eq, Hc|by rewrite lookup_alter_ne]).
  apply Hp.
Qed.
End send_proofs.

(** ** The bucket *)

Lemma ok_connect_session index w : ok w (connect_session index w).
Proof.
  unfold connect_session. destruct (bkt_config _) as [config|]; [|done].
  destruct (at_ _ _); [|auto with op..]. case_decide; [done|].
  set (sid := fresh _). assert (Hf : w_sessions w !! sid = None).
  { apply not_elem_of_dom. apply is_fresh. }
  split; [split_and!; [|done..]; intros sid' s Hs; exists s; split; [|done]; cbn [w_sessions];
    rewrite lookup_insert_ne; congruence|].
  intros [H1 H2 H3] _. split; [intros ?; constructor|]. split; [| |exact H3]; cbn [w_sessions].
  - intros sid' s'. rewrite lookup_insert_Some. intros [[<- <-]|[_ Hs]]; [|by eapply H1].
    cbn. split; [lia|]. intros o k. by rewrite lookup_empty.
  - intros cid sid' o HP Hw. destruct (H2 cid sid' o HP Hw) as (s & Hs & ?). exists s.
    rewrite lookup_insert_ne; [done|congruence].
Qed.

Lemma ok_dispatch_to send_to cid index w :
  (∀ cid sid w, ok w (send_to cid sid w)) → ok w (dispatch_to send_to cid index w).
Proof.
  intros Hsend. unfold dispatch_to, defer_command. destruct (bkt_sessions _ !! index) as [sid|].
  - destruct (w_sessions w !! sid) as [s|]; [|auto with op]. destruct (negb _); [auto with op|].
    destruct (ses_stopped s); [auto with op|apply Hsend].
  - etrans; [apply ok_connect_session|auto with op].
Qed.

Lemma ok_map_and_send_fuel fuel cid w : ok w (map_and_send_fuel fuel cid w).
Proof.
  revert cid w. induction fuel as [|fuel IH]; intros cid w; cbn [map_and_send_fuel]; [auto with op|].
  destruct (w_commands w !! cid) as [c|]; [|done]. destruct (bkt_closed _); [auto with op|].
  assert (Hs : ∀ index w, ok w (dispatch_to (send_to (map_and_send_fuel fuel)) cid index w))
    by (intros; apply ok_dispatch_to; by intros; apply ok_send_to).
  destruct (req_use_any_session _).
  - destruct (next_session_index _) as [index b]. etrans; [apply ok_upd_bucket|apply Hs].
  - destruct (map_id _ _) as [[? [index|]]| | |]; auto with op.
Qed.

Lemma ok_map_and_send cid w : ok w (map_and_send cid w).
Proof. apply ok_map_and_send_fuel. Qed.
#[export] Hint Resolve ok_map_and_send : op.

Lemma ok_drain canceled w : ok w (drain_deferred_queue canceled w).
Proof.
  unfold drain_deferred_queue. etrans; [apply ok_upd_bucket|]. apply ok_foldl. intros w' cid.
  unfold run_deferred. destruct canceled; auto with op.
Qed.

Lemma ok_stop sid reason w : ok w (stop sid reason w).
Proof.
  unfold stop, remove_session. destruct (w_sessions w !! sid) as [s|]; [|done]. destruct (ses_stopped s); [done|].
  destruct (_ && _); [done|]. etrans; [by apply (ok_upd_session sid set_stopped)|].
  etrans; [|apply ok_upd_bucket].
  etrans; [|apply ok_upd_session; intros s' _; split; [done|apply map_empty_subseteq]].
  apply (ok_foldl (λ w h, run_canceled h.2 reason w)). intros. apply ok_run_canceled.
Qed.

Lemma ok_close w : ok w (close w).
Proof.
  unfold close. destruct (bkt_closed _); [done|]. etrans; [apply ok_upd_bucket|].
  etrans; [apply ok_drain|]. etrans; [apply ok_upd_bucket|]. apply ok_foldl. intros. apply ok_stop.
Qed.

(** ** Responses *)

Section response_proofs.
Context `{JsonParser}.

Lemma ok_on_response_message cid ec reason msg w : ok w (on_response_message cid ec reason msg w).
Proof.
  unfold on_response_message. destruct (w_commands w !! cid) as [c|]; [|done].
  etrans; [apply ok_set_backoff|]. cbv zeta. destruct (is_enum _ Status.not_my_vbucket); [auto with op|].
  destruct (is_enum _ Status.unknown_collection); [auto with op|].
  destruct (is_enum _ Status.config_only); [auto with op|]. case_decide; auto with op.
Qed.

Lemma ok_on_collection_id_message cid ec msg w : ok w (on_collection_id_message cid ec msg w).
Proof.
  unfold on_collection_id_message. destruct (w_commands w !! cid) as [c|]; [|done].
  case_decide; [destruct (has _); auto with op|]. case_decide; [auto with op|].
  destruct (make_client_response _) as [resp| | |]; [|auto with op..].
  etrans; [|apply ok_send; apply ok_map_and_send]. etrans; [|apply ok_set_uid].
  destruct (cmd_session c) as [sid|]; [|done]. apply ok_upd_session. intros s _. by destruct (ses_stopped s).
Qed.

Lemma ok_handle_message sid msg w : ok w (handle_message sid msg w).
Proof.
  unfold handle_message. cbv zeta. destruct (negb (is_valid_magic _)); [auto with op|].
  destruct (negb _); [done|]. destruct (negb (is_valid_client_opcode _)); [auto with op|].
  destruct (is_enum _ ClientOpcode.get_cluster_config); [destruct (is_enum _ _); [apply ok_stop|done]|].
  destruct (negb _); [done|]. destruct (is_enum _ _); [apply ok_stop|]. unfold handle_request.
  destruct (w_sessions w !! sid) as [s|] eqn:Hs; [|done]. destruct (ses_handlers s !! _) as [k|]; [|done].
  etrans; [by apply ok_delete_handler|]. unfold run_continuation.
  case_decide; [auto with op|]. case_decide; [auto with op|].
  destruct k; [apply ok_on_response_message|apply ok_on_collection_id_message].
Qed.
End response_proofs.
