(* ===== verification/OperationTheorems.v ===== *)
(** * Every operation completes exactly once: theorems

    The claims about [Operation]: completion, termination of the dispatch,
    closing of the bucket, and what cancellation and late responses do. *)

From S2P Require Import Prelude ByteOrder Protocol McbpParser ClientRequest ClientResponse Commands Topology Retry Operation OperationProofs.

(** ** The invariant of reachable worlds *)

(** Nothing was started, or the operation is pending with its deadline armed,
    or it has completed once. *)
Definition accounted (v : option (bool * bool * Z) * nat) : Prop :=
  v = (None, 0%nat) ∨ (∃ e, v = (Some (true, true, e), 0%nat)) ∨ (∃ d e, v = (Some (false, d, e), 1%nat)).

Lemma accounted_evolves v v' : accounted v → evolves v v' → accounted v'.
Proof.
  intros Ha He. destruct He as [v|d e n|d e n]; [done|..]; destruct Ha as [?|[(? & ?)|(? & ? & ?)]]; simplify_eq;
    right; right; eauto.
Qed.

Lemma lookup_upd_command cid f w : w_commands (upd_command cid f w) !! cid = f <$> w_commands w !! cid.
Proof. unfold upd_command. cbn [w_commands]. by rewrite lookup_alter_eq. Qed.

(** The commands that exist are never removed. *)
Lemma evolves_exists w w' cid :
  evolves (view w cid) (view w' cid) → is_Some (w_commands w !! cid) → is_Some (w_commands w' !! cid).
Proof.
  unfold view. intros He [c Hc]. rewrite Hc in He. cbn in He.
  destruct (w_commands w' !! cid) as [c'|]; [by eexists|]. inversion He.
Qed.

Lemma cancel_done cid is_timeout w c :
  w_commands (cancel cid is_timeout w) !! cid = Some c → cmd_handler c = false.
Proof.
  unfold cancel. destruct (w_commands w !! cid) as [c0|] eqn:Hc; [|congruence].
  destruct is_timeout; apply invoke_handler_done.
Qed.

Lemma evolves_done v v' d e n d' e' n' :
  evolves v v' → v = (Some (true, d, e), n) → v' = (Some (false, d', e'), n') →
  v' = (Some (false, false, e), S n).
Proof. intros [] ? ?; simplify_eq; done. Qed.

(** A pending operation that is cancelled has completed once more. *)
Lemma cancel_completes cid is_timeout w d e n :
  inv w → sane (cancel cid is_timeout w) → view w cid = (Some (true, d, e), n) →
  view (cancel cid is_timeout w) cid = (Some (false, false, e), S n).
Proof.
  intros Hi Hs Hv. destruct (ok_cancel cid is_timeout w) as [_ Hok].
  destruct (Hok Hi Hs) as [Hp _]. specialize (Hp cid).
  destruct (evolves_exists _ _ _ Hp) as [c Hc].
  { unfold view in Hv. destruct (w_commands w !! cid); [by eexists|done]. }
  assert (Hh := cancel_done _ _ _ _ Hc).
  eapply (evolves_done _ _ d e n (cmd_deadline c) (cmd_expiry c)); [exact Hp|done|].
  unfold view. rewrite Hc. cbn. unfold life. by rewrite Hh.
Qed.

(** ** The steps *)

Lemma disarm_view cid w cid' :
  view (upd_command cid disarm_deadline w) cid' =
  if decide (cid = cid') then
    match view w cid' with (Some (h, _, e), n) => (Some (h, false, e), n) | v => v end
  else view w cid'.
Proof.
  unfold view, upd_command, completions. cbn [w_commands w_log]. case_decide as Hd.
  - subst cid'. rewrite lookup_alter_eq. by destruct (w_commands w !! cid).
  - by rewrite lookup_alter_ne.
Qed.

Lemma disarm_inv cid w : inv w → inv (upd_command cid disarm_deadline w).
Proof. apply consistent_commands; [done|]. intros cid' sid o. by apply waits_upd_command. Qed.

(** The world in which a new command has been stored. *)
Definition stored (cid : nat) (c : command) (w : world) : world :=
  World (<[cid := c]> (w_commands w)) (w_sessions w) (w_bucket w) (w_now w) (w_log w) (w_fault w).

Lemma stored_inv cid c w : cmd_session c = None → w_commands w !! cid = None → inv w → inv (stored cid c w).
Proof.
  intros Hs Hn. apply consistent_commands; [done|]. intros cid' sid o (c' & Hc' & Hsid & Ho).
  unfold stored in Hc'. cbn [w_commands] in Hc'. apply lookup_insert_Some in Hc' as [[<- <-]|[Hne Hc']]; [congruence|].
  by exists c'.
Qed.

Lemma stored_view cid c w cid' :
  view (stored cid c w) cid' = if decide (cid = cid') then (Some (life c), completions w cid) else view w cid'.
Proof.
  unfold view, stored, completions. cbn [w_commands w_log]. case_decide as Hd.
  - subst cid'. by rewrite lookup_insert_eq.
  - by rewrite lookup_insert_ne.
Qed.

Lemma execute_ok cid r i w :
  execute cid r i w = w ∨
  ∃ c, cmd_session c = None ∧ life c = (true, true, cmd_expiry c) ∧ ok (stored cid c w) (execute cid r i w).
Proof.
  unfold execute. destruct (bkt_closed _); [by left|right].
  set (c := make_command r i _ _). exists c. split_and!; [done|done|].
  fold (stored cid c w). unfold defer_command. destruct (bkt_configured _); auto with op.
Qed.

Section theorems.
Context `{JsonParser}.

(** A step does not look beyond [ok], but for the two that start an operation
    and fire its deadline. *)
Lemma step_ok w w' :
  step w w' →
  ok w w' ∨
  (∃ cid r i, w_commands w !! cid = None ∧ w' = execute cid r i w) ∨
  (∃ cid c, w_commands w !! cid = Some c ∧ cmd_deadline c = true ∧
     w' = cancel cid true (upd_command cid disarm_deadline w)).
Proof.
  intros []; [right; left; by eauto|right; right; by eauto|left..].
  - etrans; [apply ok_set_backoff|]. destruct a; [apply ok_map_and_send|].
    apply ok_request_collection_id, ok_map_and_send.
  - apply ok_cancel.
  - apply ok_handle_message.
  - apply ok_stop.
  - etrans; [|apply ok_drain]. by apply (ok_upd_session sid).
  - apply ok_connect_session.
  - apply ok_upd_bucket.
  - apply ok_drain.
  - apply ok_close.
  - by apply ok_same_tables.
Qed.

Lemma step_grows w w' : step w w' → grows w w'.
Proof.
  intros [[Hg _]|[(cid & r & i & _ & ->)|(cid & c & _ & _ & ->)]]%step_ok; [done|..].
  - destruct (execute_ok cid r i w) as [->|(c & _ & _ & Hg & _)]; [apply grows_refl|].
    eapply grows_trans; [|exact Hg]. by apply grows_sessions.
  - eapply grows_trans; [|apply ok_cancel]. by apply grows_sessions.
Qed.

Definition all_accounted (w : world) : Prop := ∀ cid, accounted (view w cid).

Lemma ok_invariant w w' : ok w w' → inv w → all_accounted w → sane w' → inv w' ∧ all_accounted w'.
Proof using.
  intros [_ Hok] Hi Ha Hs. destruct (Hok Hi Hs) as [Hp Hi']. split; [done|].
  intros cid. by eapply accounted_evolves.
Qed.

Lemma execute_invariant w cid r i :
  w_commands w !! cid = None → inv w → all_accounted w → sane (execute cid r i w) →
  inv (execute cid r i w) ∧ all_accounted (execute cid r i w).
Proof using.
  intros Hn Hi Ha Hs. destruct (execute_ok cid r i w) as [->|(c & Hc & Hl & Hok)]; [done|].
  apply (ok_invariant _ _ Hok); [by apply stored_inv| |done].
  intros cid'. rewrite stored_view. case_decide as Hd; [|apply Ha]. subst cid'.
  specialize (Ha cid). unfold view in Ha. rewrite Hn in Ha. cbn in Ha.
  destruct Ha as [[= ->]|[(? & ?)|(? & ? & ?)]]; [|done..]. right; left. rewrite Hl. eauto.
Qed.

Lemma deadline_invariant w cid c :
  w_commands w !! cid = Some c → cmd_deadline c = true → inv w → all_accounted w →
  sane (cancel cid true (upd_command cid disarm_deadline w)) →
  inv (cancel cid true (upd_command cid disarm_deadline w)) ∧
  all_accounted (cancel cid true (upd_command cid disarm_deadline w)).
Proof using.
  intros Hc Hd Hi Ha Hs. set (w1 := upd_command cid disarm_deadline w) in *.
  assert (Hi1 : inv w1) by (by apply disarm_inv).
  destruct (ok_cancel cid true w1) as [_ Hok]. destruct (Hok Hi1 Hs) as [Hp Hi2]. split; [done|].
  intros cid'. destruct (decide (cid = cid')) as [<-|Hne].
  - specialize (Ha cid). unfold view in Ha. rewrite Hc in Ha. cbn in Ha. unfold life in Ha.
    assert (Hv : view w1 cid = (Some (cmd_handler c, false, cmd_expiry c), completions w cid)).
    { unfold w1. rewrite disarm_view, decide_True by done. unfold view. by rewrite Hc. }
    destruct Ha as [?|[(e & Ha)|(d & e & Ha)]]; simplify_eq.
    + right; right. exists false, (cmd_expiry c). 
      replace (cmd_handler c) with true in Hv by congruence.
      rewrite (cancel_completes cid true w1 false (cmd_expiry c) (completions w cid)) by done. congruence.
    + eapply accounted_evolves; [|apply Hp]. rewrite Hv. right; right. exists false, (cmd_expiry c). congruence.
  - eapply accounted_evolves; [|apply Hp]. unfold w1. by rewrite disarm_view, decide_False.
Qed.

Lemma step_invariant w w' :
  step w w' → inv w → all_accounted w → sane w' → inv w' ∧ all_accounted w'.
Proof.
  intros [Hok|[(cid & r & i & Hn & ->)|(cid & c & Hc & Hd & ->)]]%step_ok Hi Ha Hs.
  - by eapply ok_invariant.
  - by apply execute_invariant.
  - by eapply deadline_invariant.
Qed.

Lemma reachable_invariant w : reachable w → sane w → inv w ∧ all_accounted w.
Proof.
  intros (w0 & [Hc Hs Hl] & Hr). revert w Hr. apply (rtc_ind_r (λ w, sane w → inv w ∧ all_accounted w)); [|intros w' w'' Hr Hstep IH].
  - intros _. split.
    + assert (Hno : ∀ cid sid o, ¬ waits w0 cid sid o).
      { intros cid sid o (c & Hl' & _). by rewrite Hc, lookup_empty in Hl'. }
      split; [|by intros ???? ?%Hno|by intros ????? ?? ?%Hno].
      intros sid s Hl'. by rewrite Hs, lookup_empty in Hl'.
    + intros cid. left. unfold view, completions. by rewrite Hc, Hl, lookup_empty.
  - intros Hsane. destruct IH as [Hi Ha]; [by eapply sane_grows; [apply step_grows|]|].
    by eapply step_invariant.
Qed.

Lemma pending_view w cid c :
  all_accounted w → w_commands w !! cid = Some c → cmd_handler c = true →
  cmd_deadline c = true ∧ completions w cid = 0%nat.
Proof using.
  intros Ha Hc Hh. specialize (Ha cid). unfold view in Ha. rewrite Hc in Ha. cbn in Ha. unfold life in Ha.
  destruct Ha as [Ha|[(e & Ha)|(d & e & Ha)]]; simplify_eq; auto; congruence.
Qed.

(** C9: every operation completes exactly once.  However calls, messages,
    timers, failures of sessions and the closing of the bucket interleave, an
    operation that was started either waits with its deadline armed and has
    not completed, or its handler has been invoked exactly once; nothing
    completes that was not started. *)
Theorem completed_at_most_once w cid :
  reachable w → sane w →
  match w_commands w !! cid with
  | None => completions w cid = 0%nat
  | Some c =>
      (cmd_handler c = true ∧ cmd_deadline c = true ∧ completions w cid = 0%nat) ∨
      (cmd_handler c = false ∧ completions w cid = 1%nat)
  end.
Proof.
  intros Hr Hs. destruct (reachable_invariant w Hr Hs) as [_ Ha]. specialize (Ha cid). unfold view in Ha.
  destruct (w_commands w !! cid) as [c|]; cbn in Ha; unfold life in Ha;
    destruct Ha as [Ha|[(e & Ha)|(d & e & Ha)]]; simplify_eq; auto.
Qed.

(** ** Deadlines *)

(** What cancellation does not touch. *)
Definition calm (w w' : world) : Prop :=
  w_fault w' = w_fault w ∧ ∀ sid, ses_opaque <$> w_sessions w' !! sid = ses_opaque <$> w_sessions w !! sid.

Lemma calm_sane w w' : calm w w' → sane w → sane w'.
Proof using.
  intros [Hf Hn] [H1 H2]. split; [|congruence]. intros sid s Hs. specialize (Hn sid). rewrite Hs in Hn.
  destruct (w_sessions w !! sid) as [s0|] eqn:Hs0; [|done]. injection Hn as ->. by eapply H1.
Qed.

Lemma invoke_handler_calm cid ec msg w :
  w_fault (invoke_handler cid ec msg w) = w_fault w ∧
  w_sessions (invoke_handler cid ec msg w) = w_sessions w.
Proof using.
  unfold invoke_handler. destruct (w_commands w !! cid) as [c|]; [|done]. by destruct (cmd_handler c).
Qed.

Lemma cancel_calm cid is_timeout w : calm w (cancel cid is_timeout w).
Proof using.
  unfold cancel. destruct (w_commands w !! cid) as [c|]; [|done].
  set (w1 := match cmd_opaque c with Some _ => _ | None => _ end).
  assert (Hw1 : calm w w1).
  { unfold w1, session_cancel. destruct (cmd_opaque c) as [o|]; [|done]. destruct (cmd_session c) as [sid|]; [|done].
    destruct (w_sessions w !! sid) as [s|] eqn:Hs; [|done]. destruct (ses_stopped s); [done|].
    destruct (ses_handlers s !! o) as [k|]; [|done].
    set (w2 := upd_session sid _ w).
    assert (Hk : w_fault (run_aborted k w2) = w_fault w2 ∧ w_sessions (run_aborted k w2) = w_sessions w2)
      by (destruct k as [x|x]; cbn [run_aborted]; unfold on_response_aborted, on_collection_id_aborted;
          by edestruct invoke_handler_calm as [-> ->]).
    destruct Hk as [Hf Hse]. split; [exact Hf|]. intros sid'. cbn [upd_command w_sessions]. rewrite Hse.
    unfold w2. rewrite (lookup_upd_session _ _ _ _ s) by done. case_decide; [subst; by rewrite Hs|done]. }
  assert (Hi : ∀ ec, calm w1 (invoke_handler cid ec None w1)).
  { intros ec. destruct (invoke_handler_calm cid ec None w1) as [Hf Hse]. split; [done|]. intros. by rewrite Hse. }
  destruct Hw1 as [F1 N1]. destruct is_timeout;
    (edestruct Hi as [F2 N2]; split; [etrans; [apply F2|done]|intros; etrans; [apply N2|done]]).
Qed.

(** Deadlines complete operations.  From every reachable state an
    operation that is still pending completes when its deadline passes: once
    the clock has reached the expiry, the step of the timer is possible, and
    it invokes the handler of the operation, for the first time. *)
Theorem deadline_completes w cid c :
  reachable w → sane w → w_commands w !! cid = Some c → cmd_handler c = true →
  ∃ w1 w2, step w w1 ∧ step w1 w2 ∧ completions w cid = 0%nat ∧ completions w2 cid = 1%nat ∧
    ∃ c2, w_commands w2 !! cid = Some c2 ∧ cmd_handler c2 = false.
Proof.
  intros Hr Hs Hc Hh. destruct (reachable_invariant w Hr Hs) as [Hi Ha].
  destruct (pending_view w cid c Ha Hc Hh) as [Hd Hn].
  set (t := Z.max (w_now w) (cmd_expiry c)).
  set (w1 := World (w_commands w) (w_sessions w) (w_bucket w) t (w_log w) (w_fault w)).
  set (w1' := upd_command cid disarm_deadline w1).
  exists w1, (cancel cid true w1'). assert (Hc1 : w_commands w1 !! cid = Some c) by done.
  assert (Hi1 : inv w1') by (apply disarm_inv; by apply (ok_same_tables w w1)).
  assert (Hv : view w1' cid = (Some (true, false, cmd_expiry c), 0%nat)).
  { unfold w1'. rewrite disarm_view, decide_True by done. unfold view.
    rewrite Hc1, (Hn : completions w1 cid = 0%nat). cbn. unfold life. by rewrite Hh. }
  pose proof (cancel_completes cid true w1' false (cmd_expiry c) 0 Hi1) as Hv2.
  assert (Hs1 : sane (cancel cid true w1')) by (eapply calm_sane; [apply cancel_calm|exact Hs]).
  specialize (Hv2 Hs1 Hv). unfold view in Hv2. injection Hv2 as Hl Hn2.
  split_and!; [by apply (step_time w t); lia|eapply step_deadline; [exact Hc1|done|cbn; lia]|done|done|].
  apply fmap_Some in Hl as (c2 & Hc2 & Hl2). exists c2. split; [done|]. by injection Hl2.
Qed.

(** ** Closing *)

Lemma evolves_stays_done v v' d e n :
  evolves v v' → v = (Some (false, d, e), n) → ∃ d' e' n', v' = (Some (false, d', e'), n').
Proof using. intros [] ?; simplify_eq; eauto. Qed.

Lemma drained_done l w cid :
  inv w → sane (foldl (run_deferred true) w l) → cid ∈ l → is_Some (w_commands w !! cid) →
  ∃ d e n, view (foldl (run_deferred true) w l) cid = (Some (false, d, e), n).
Proof using.
  assert (Hok : ∀ w x, ok w (run_deferred true w x)) by (intros; apply ok_cancel).
  revert w. induction l as [|x l IH]; intros w Hi Hs Hin Hc; [by apply elem_of_nil in Hin|]. cbn [foldl] in *.
  pose proof (ok_foldl (run_deferred true) l (run_deferred true w x) Hok) as [Hg Hl].
  destruct (Hok w x) as [_ H1]. destruct (H1 Hi (sane_grows _ _ Hg Hs)) as [P1 I1].
  apply elem_of_cons in Hin as [->|Hin].
  - destruct (Hl I1 Hs) as [P2 _]. destruct (evolves_exists _ _ _ (P1 x) Hc) as [c Hc'].
    eapply evolves_stays_done; [apply P2|]. unfold view. rewrite Hc'. cbn. unfold life.
    by rewrite (cancel_done _ _ _ _ Hc').
  - apply IH; [done..|]. by eapply evolves_exists.
Qed.

(** Closing the bucket completes what waits in its queue.  Every operation
    in the queue of deferred operations has completed, once, when [close]
    returns. *)
Theorem close_completes_deferred w cid :
  reachable w → sane w → bkt_closed (w_bucket w) = false → sane (close w) →
  cid ∈ bkt_deferred (w_bucket w) → is_Some (w_commands w !! cid) →
  completions (close w) cid = 1%nat ∧ ∃ c, w_commands (close w) !! cid = Some c ∧ cmd_handler c = false.
Proof.
  intros Hr Hs Hcl Hs' Hin Hc. destruct (reachable_invariant w Hr Hs) as [Hi Ha].
  destruct (ok_invariant w (close w) (ok_close w) Hi Ha Hs') as [_ Ha'].
  assert (Hdone : ∃ d e n, view (close w) cid = (Some (false, d, e), n)).
  { unfold close in *. rewrite Hcl in *. unfold drain_deferred_queue in *. cbn [upd_bucket w_bucket] in *.
    set (w1 := upd_bucket _ (upd_bucket _ w)) in *. set (w2 := foldl (run_deferred true) w1 _) in *.
    match goal with |- context [foldl ?f ?v ?l] => set (w3 := foldl f v l) in * end.
    assert (H23 : ok w2 w3).
    { etrans; [apply ok_upd_bucket|]. apply (ok_foldl (λ w p, stop p.2 do_not_retry w)). intros. apply ok_stop. }
    destruct (ok_trans w _ w1 (ok_upd_bucket _ w) (ok_upd_bucket _ _)) as [G1 H1].
    assert (H12 : ok w1 w2) by (apply ok_foldl; intros; apply ok_cancel).
    pose proof (sane_grows _ _ (proj1 H23) Hs') as S2. pose proof (sane_grows _ _ (proj1 H12) S2) as S1.
    destruct (H1 Hi S1) as [_ I1]. destruct H12 as [_ H12]. destruct (H12 I1 S2) as [_ I2].
    destruct H23 as [_ H23]. destruct (H23 I2 Hs') as [P3 _].
    destruct (drained_done (bkt_deferred (w_bucket w)) w1 cid I1 S2 Hin Hc) as (d & e & n & Hv).
    eapply evolves_stays_done; [apply P3|exact Hv]. }
  destruct Hdone as (d & e & n & Hv). specialize (Ha' cid). rewrite Hv in Ha'.
  destruct Ha' as [?|[(? & ?)|(? & ? & ?)]]; simplify_eq. unfold view in Hv. injection Hv as Hl ->.
  split; [done|]. apply fmap_Some in Hl as (c & Hcc & Hl). exists c. split; [done|]. by injection Hl.
Qed.
End theorems.

(** ** Dispatch *)

(** [request_collection_id] does not call the bucket back when the session of
    the command is running. *)
Lemma request_collection_id_running rec rec' cid sid s w :
  w_commands w !! cid ≫= cmd_session = Some sid → w_sessions w !! sid = Some s → ses_stopped s = false →
  request_collection_id rec cid w = request_collection_id rec' cid w.
Proof. intros Hc Hs Hst. unfold request_collection_id. by rewrite Hc, Hs, Hst. Qed.

Lemma send_to_running rec rec' cid sid s w :
  w_sessions w !! sid = Some s → ses_stopped s = false →
  send_to rec cid sid w = send_to rec' cid sid w.
Proof.
  intros Hs Hst. unfold send_to. destruct (w_commands w !! cid) as [c|] eqn:Hc; [|done].
  destruct (negb _); [done|]. unfold send. rewrite lookup_upd_command, Hc. cbn [fmap option_fmap option_map cmd_session set_session].
  cbn [upd_command w_sessions]. rewrite Hs. destruct (_ && _); [|done]. destruct (ses_collections s); [|done].
  case_decide; [done|]. destruct (ses_cache s !! _); [done|].
  apply (request_collection_id_running _ _ _ sid (count_opaque s)); [| |done].
  - rewrite lookup_upd_command. cbn [upd_session w_commands]. by rewrite lookup_upd_command, Hc.
  - cbn [upd_command w_sessions]. by rewrite (lookup_upd_session _ _ _ _ s), decide_True by done.
Qed.

(** The dispatch terminates.  The mutual recursion of [map_and_send],
    [send] and [request_collection_id] never goes deeper than one call: any
    positive fuel gives the same world. *)
Theorem map_and_send_terminates fuel cid w : map_and_send_fuel (S fuel) cid w = map_and_send cid w.
Proof.
  unfold map_and_send. cbn [map_and_send_fuel]. destruct (w_commands w !! cid) as [c|]; [|done].
  destruct (bkt_closed _); [done|].
  assert (Hd : ∀ index w, dispatch_to (send_to (map_and_send_fuel fuel)) cid index w =
                          dispatch_to (send_to (map_and_send_fuel 0)) cid index w).
  { intros index v. unfold dispatch_to. destruct (bkt_sessions _ !! index) as [sid|]; [|done].
    destruct (w_sessions v !! sid) as [s|] eqn:Hs; [|done]. destruct (negb _); [done|].
    destruct (ses_stopped s) eqn:Hst; [done|]. by apply (send_to_running _ _ _ _ s). }
  destruct (req_use_any_session _).
  - destruct (next_session_index _) as [index b]. apply Hd.
  - by destruct (map_id _ _) as [[? [index|]]| | |].
Qed.

(** ** What cancellation reports *)

(** Cancelled requests report a timeout.  When the user cancels an
    operation whose request is in flight, its handler is told that the
    operation timed out; only an operation that has not been sent is told
    that it was cancelled. *)
Theorem cancel_reports_timeout cid c w :
  w_commands w !! cid = Some c → cmd_handler c = true →
  (∀ sid s o, cmd_session c = Some sid → cmd_opaque c = Some o → w_sessions w !! sid = Some s →
     ses_stopped s = false → ses_handlers s !! o = Some (on_response cid) →
     w_log (cancel cid false w) = (cid, timeout_code (rr_idempotent (cmd_retries c)), None) :: w_log w) ∧
  (cmd_opaque c = None → w_log (cancel cid false w) = (cid, request_canceled, None) :: w_log w).
Proof.
  intros Hc Hh. split.
  - intros sid s o Hsid Ho Hs Hst Hk. unfold cancel, session_cancel. rewrite Hc, Ho, Hsid, Hs, Hst, Hk.
    cbn [run_aborted]. unfold on_response_aborted, is_idempotent_command.
    set (w1 := upd_session sid _ w).
    assert (H1 : w_commands (upd_command cid (set_backoff None) w1) !! cid = Some (set_backoff None c))
      by (rewrite lookup_upd_command; unfold w1; cbn [upd_session w_commands]; by rewrite Hc).
    rewrite H1. unfold invoke_handler at 2. rewrite H1. cbn [cmd_handler set_backoff]. rewrite Hh.
    unfold invoke_handler. rewrite lookup_upd_command. cbn [w_commands]. rewrite lookup_upd_command, H1. done.
  - intros Ho. unfold cancel. rewrite Hc, Ho. unfold invoke_handler. by rewrite Hc, Hh.
Qed.

(** ** The session for requests that may use any *)

Fixpoint next_session_indexes (k : nat) (b : bucket) : list Z * bucket :=
  match k with
  | O => ([], b)
  | S k =>
      let '(i, b) := next_session_index b in
      let '(l, b) := next_session_indexes k b in (i :: l, b)
  end.

Lemma next_session_indexes_from k b :
  0 ≤ bkt_round_robin b → bkt_round_robin b + Z.of_nat k = Z.of_nat (size (bkt_sessions b)) →
  Z.of_nat (size (bkt_sessions b)) < 2 ^ 64 →
  next_session_indexes (S k) b =
    (map (λ i, bkt_round_robin b + Z.of_nat i) (seq 0 k) ++ [0], set_round_robin 0 b).
Proof.
  revert b. induction k as [|k IH]; intros b H0 Hk Hn.
  - cbn [next_session_indexes]. unfold next_session_index. rewrite decide_False by lia. done.
  - remember (S k) as k' eqn:Ek. cbn [next_session_indexes]. subst k'. unfold next_session_index.
    rewrite decide_True by lia. rewrite wrap_small by (unfold in_width; lia).
    rewrite IH by (cbn; lia). cbn [bkt_round_robin set_round_robin]. f_equal.
    cbn [seq map app]. f_equal; [lia|]. f_equal. rewrite <-seq_shift, map_map.
    apply map_ext. intros i. lia.
Qed.

(** The round robin favours the first session.  With [n] sessions, [n + 1]
    consecutive requests that may use any session go to the sessions 0 to
    [n - 1] and then to session 0 again, after which the cycle restarts at 0:
    the first session gets twice the share of the others. *)
Theorem round_robin_first_twice b n :
  size (bkt_sessions b) = n → Z.of_nat n < 2 ^ 64 → bkt_round_robin b = 0 →
  next_session_indexes (S n) b = (map Z.of_nat (seq 0 n) ++ [0], b).
Proof.
  intros Hn Hlt Hr. rewrite next_session_indexes_from by lia. rewrite Hr. f_equal.
  destruct b; cbn in *. by subst.
Qed.

(** ** A run *)

Definition no_config_bucket : bucket :=
  Bucket false false None ∅ [] 0 name_default false 2500 (best_effort_retry_strategy controlled_backoff).
Definition start_world : world := World ∅ ∅ no_config_bucket 0 [] false.

(** One node, one vbucket. *)
Definition one_node : configuration :=
  Configuration (Some 1) (Some 1) None [Node true 0 [104] (set_kv_port no_ports 11210) no_ports ∅ [] []]
    (Some [[0]]) Capability.no_capabilities false.

(** An upsert into the collection "c" of the scope "s". *)
Definition upsert_request : request :=
  Request (enum_code ClientOpcode.upsert) (document_id_in [98] [115] [99] [107]) 0 false false None None false None.

(** The answer to the request for the collection: status success, twelve
    bytes of extras with the identifiers of the manifest and the collection. *)
Definition collection_response (opaque : Z) : mcbp_message :=
  McbpMessage
    (BinaryHeader (enum_code Magic.client_response) (enum_code ClientOpcode.get_collection_id) 0 12 0 0
       (byte_swap32 12) (byte_swap32 opaque) 0)
    [0; 0; 0; 0; 0; 0; 0; 1; 0; 0; 0; 8].

Lemma sane_bool w :
  bool_decide (map_Forall (λ (_ : nat) s, ses_opaque s < 2 ^ 32 - 1) (w_sessions w)) && negb (w_fault w) = true →
  sane w.
Proof.
  intros [Hs%bool_decide_eq_true Hf]%andb_true_iff. split; [intros sid s; by apply Hs|by destruct (w_fault w)].
Qed.

(** What a session has been given to write. *)
Definition written (sid : nat) (w : world) : list (Z * continuation) :=
  match w_sessions w !! sid with Some s => ses_output s | None => [] end.

Section run.
Context `{JsonParser}.

Definition connected_world : world :=
  drain_deferred_queue false
    (upd_session 0 (finish_bootstrap true ∅) (connect_session 0 (upd_bucket (set_config one_node) start_world))).
Definition sent_world : world := execute 0 upsert_request false connected_world.
Definition advance (t : Z) (w : world) : world :=
  World (w_commands w) (w_sessions w) (w_bucket w) t (w_log w) (w_fault w).
Definition expired_world : world :=
  cancel 0 true (upd_command 0 disarm_deadline (advance (3000 * ms) sent_world)).

Lemma connected_reachable : reachable connected_world.
Proof.
  exists start_world. split; [by split|]. eapply rtc_l; [apply (step_config _ one_node)|].
  eapply rtc_l; [apply (step_connect _ 0)|]. eapply rtc_l; [|reflexivity].
  eapply (step_bootstrap _ 0 new_session true ∅); [by vm_compute|done].
Qed.

Lemma sent_reachable : reachable sent_world.
Proof.
  destruct connected_reachable as (w0 & Hi & Hr). exists w0. split; [done|].
  eapply rtc_r; [exact Hr|]. by apply step_execute.
Qed.

Lemma expired_reachable : reachable expired_world.
Proof.
  destruct sent_reachable as (w0 & Hi & Hr). exists w0. split; [done|].
  eapply rtc_r; [eapply rtc_r; [exact Hr|by apply (step_time _ (3000 * ms)); vm_compute]|].
  apply (step_deadline _ 0 (match w_commands sent_world !! 0%nat with Some c => c
                            | None => make_command upsert_request false 0 0 end)); by vm_compute.
Qed.

(** An operation may be sent after it has completed.  In a reachable state
    an upsert has completed with a timeout while only the identifier of its
    collection had been requested; when that answer arrives, the upsert is
    still written to the server. *)
Theorem late_collection_id_sends :
  ∃ w w', reachable w ∧ step w w' ∧ sane w' ∧
    w_log w = [(0%nat, ambiguous_timeout, None)] ∧
    written 0 w = [(2, on_collection_id 0)] ∧
    written 0 w' = [(2, on_collection_id 0); (3, on_response 0)] ∧ w_log w' = w_log w.
Proof.
  exists expired_world, (handle_message 0 (collection_response 2) expired_world).
  split; [apply expired_reachable|]. split; [|split].
  - apply (step_message _ 0 (match w_sessions expired_world !! 0%nat with Some s => s | None => new_session end));
      by vm_compute.
  - by apply sane_bool; vm_compute.
  - by vm_compute.
Qed.
End run.

(** ** The theorems at concrete inputs *)

Definition sent_command : command :=
  set_opaque (Some 1) (set_session (Some 0%nat) (make_command upsert_request false 2500 0)).

Lemma completed_at_most_once_witness :
  match w_commands expired_world !! 0%nat with
  | None => completions expired_world 0 = 0%nat
  | Some c =>
      (cmd_handler c = true ∧ cmd_deadline c = true ∧ completions expired_world 0 = 0%nat) ∨
      (cmd_handler c = false ∧ completions expired_world 0 = 1%nat)
  end.
Proof.
  apply (completed_at_most_once (H := no_json)); [apply expired_reachable|]. apply sane_bool. by vm_compute.
Defined.

Lemma deadline_completes_witness :
  ∃ w1 w2, step (H := no_json) sent_world w1 ∧ step (H := no_json) w1 w2 ∧
    completions sent_world 0 = 0%nat ∧ completions w2 0 = 1%nat ∧
    ∃ c2, w_commands w2 !! 0%nat = Some c2 ∧ cmd_handler c2 = false.
Proof.
  apply (deadline_completes (H := no_json) sent_world 0 sent_command);
    [apply sent_reachable|apply sane_bool; by vm_compute|by vm_compute|done].
Defined.

(** A bucket without a configuration defers what it is given. *)
Definition deferred_world : world := execute 0 upsert_request false start_world.

Lemma deferred_reachable `{JsonParser} : reachable deferred_world.
Proof. exists start_world. split; [by split|]. eapply rtc_l; [|reflexivity]. by apply step_execute. Qed.

Lemma close_completes_deferred_witness :
  completions (close deferred_world) 0 = 1%nat ∧
  ∃ c, w_commands (close deferred_world) !! 0%nat = Some c ∧ cmd_handler c = false.
Proof.
  apply (close_completes_deferred (H := no_json)); [apply deferred_reachable|by apply sane_bool; vm_compute|done| | |].
  - by apply sane_bool; vm_compute.
  - by left.
  - by eexists.
Defined.

Lemma cancel_reports_timeout_witness :
  let s := set_handlers {[1 := on_response 0]} new_session in
  let w := World {[0%nat := sent_command]} {[0%nat := s]} no_config_bucket 0 [] false in
  w_log (cancel 0 false w) = [(0%nat, ambiguous_timeout, None)].
Proof.
  intros s w. destruct (cancel_reports_timeout 0 sent_command w) as [Hc _]; [done|done|].
  by apply (Hc 0%nat s 1).
Defined.

Lemma round_robin_first_twice_witness :
  let b := set_bkt_sessions {[0 := 0%nat; 1 := 1%nat]} no_config_bucket in
  next_session_indexes 3 b = ([0; 1; 0], b).
Proof. intros b. by apply (round_robin_first_twice b 2). Defined.
