(* ===== verification/Sessions.v ===== *)
(** * Configurations and sessions of a bucket

    How a session and a bucket accept configurations
    ([mcbp_session_impl::update_configuration] in [core/io/mcbp_session.cxx],
    [bucket_impl::update_config] in [core/bucket.cxx]) and how the bucket
    assigns its sessions to the servers of the configuration
    ([diff_nodes], the loop of [update_config], [restart_sessions]). *)

From stdpp Require Import sorting.
From S2P Require Import Prelude Topology.

(** ** The configuration of a session *)

(** The members of [mcbp_session_impl] concerned. *)
Record session_config := SessionConfig {
  sc_stopped : bool;
  sc_config : option configuration;
  sc_configured : bool;
  sc_bootstrap_hostname : bytes;
  sc_bootstrap_port : bytes;
}.

(** An empty host name stands for the one of the session. *)
Definition fill_hostname (host : bytes) (n : node) : node :=
  if decide (hostname n = []) then set_hostname host n else n.

Definition port_text_is (port : option Z) (text : bytes) : bool :=
  match port with Some p => bool_decide (decimal p = text) | None => false end.

(** The nodes with the address of the session are marked when no node is. *)
Definition mark_bootstrap_node (host port : bytes) (n : node) : node :=
  if bool_decide (hostname n = host) &&
     (port_text_is (pm_key_value (services_plain n)) port || port_text_is (pm_key_value (services_tls n)) port)
  then set_this_node true n else n.

Definition set_nodes (ns : list node) (c : configuration) : configuration :=
  Configuration (cfg_epoch c) (cfg_rev c) (num_replicas c) ns (vbmap c) (capabilities c) (force c).

Definition complete_config (host port : bytes) (c : configuration) : configuration :=
  let ns := map (fill_hostname host) (nodes c) in
  if existsb this_node ns then set_nodes ns c else set_nodes (map (mark_bootstrap_node host port) ns) c.

Definition vbmap_empty (c : configuration) : bool :=
  match vbmap c with Some [] => true | _ => false end.

Definition vbmap_sizes_differ (a b : configuration) : bool :=
  match vbmap a, vbmap b with
  | Some m, Some m' => negb (bool_decide (length m = length m'))
  | _, _ => false
  end.

(** The listeners are sent the configuration that was stored. *)
Definition update_configuration (config : configuration) (s : session_config) :
    session_config * option configuration :=
  let accept :=
    let config := complete_config (sc_bootstrap_hostname s) (sc_bootstrap_port s) config in
    (SessionConfig (sc_stopped s) (Some config) true (sc_bootstrap_hostname s) (sc_bootstrap_port s),
     Some config) in
  if sc_stopped s then (s, None)
  else if vbmap_empty config then (s, None)
  else match sc_config s with
       | Some current =>
           if vbmap_sizes_differ current config then (s, None)
           else if config_eqb config current then (s, None)
           else if config_ltb config current then (s, None)
           else accept
       | None => accept
       end.

(** ** The configuration of a bucket *)

(** The first part of [bucket_impl::update_config]: is the configuration taken? *)
Definition accept_config (current : option configuration) (config : configuration) : bool :=
  if vbmap_empty config then false
  else match current with
       | None => true
       | Some old =>
           if force config then true
           else if negb (has (vbmap config)) then false
           else config_ltb old config
       end.

Section bucket.
Context (network : bytes) (is_tls : bool).

(** Host and key-value port of a node on the selected network. *)
Definition kv_host (n : node) : bytes := hostname_for n network.
Definition kv_port (n : node) : Z := network_port_or n network key_value is_tls 0.

Definition diff_nodes (lhs rhs output : list node) : list node :=
  foldl (λ output re,
    if existsb (λ le, bool_decide (kv_host re = kv_host le) && (kv_port re =? kv_port le)) lhs
    then output else output ++ [re]) output rhs.

(** [node::operator!=] *)
Definition node_neq (a b : node) : bool :=
  negb (bool_decide (hostname a = hostname b)) ||
  negb (bool_decide (pm_key_value (services_plain a) = pm_key_value (services_plain b))) ||
  negb (bool_decide (pm_key_value (services_tls a) = pm_key_value (services_tls b))).

Fixpoint nodes_differ (a b : list node) : bool :=
  match a, b with
  | x :: a, y :: b => node_neq x y || nodes_differ a b
  | _, _ => false
  end.

(** Have the sessions to be assigned anew? *)
Definition sessions_outdated (current : option configuration) (config : configuration) : bool :=
  match current with
  | Some old =>
      let added := diff_nodes (nodes old) (nodes config) [] in
      let removed := diff_nodes (nodes config) (nodes old) [] in
      match added, removed with
      | [], [] =>
          if bool_decide (length (nodes config) = length (nodes old))
          then nodes_differ (nodes config) (nodes old) else true
      | _, _ => true
      end
  | None => true
  end.

(** ** The sessions of a bucket *)

(** A session with the address it was made for. *)
Record kv_session := KvSession {
  ks_id : nat;
  ks_hostname : bytes;
  ks_port : Z;
}.

(** The map [sessions_] is searched in the order of its keys. *)
Definition index_le (x y : Z * kv_session) : Prop := x.1 ≤ y.1.
Global Instance index_le_dec : RelDecision index_le.
Proof using. intros x y. unfold index_le. apply _. Defined.

Definition find_session (host : bytes) (port : Z) (sessions : gmap Z kv_session) : option (Z * kv_session) :=
  find (λ p, bool_decide (ks_hostname p.2 = host) && (ks_port p.2 =? port))
    (merge_sort index_le (map_to_list sessions)).

(** The loop of [update_config]: sessions are taken from the old map where the
    address is known, made where it is not (unless connections are lazy).  The
    number is the identity of the next new session. *)
Fixpoint assign_sessions (lazy : bool) (ns : list node) (next_index : Z) (sessions new_sessions : gmap Z kv_session)
    (next_id : nat) : gmap Z kv_session * gmap Z kv_session * nat :=
  match ns with
  | [] => (sessions, new_sessions, next_id)
  | n :: ns =>
      if decide (kv_port n = 0) then assign_sessions lazy ns next_index sessions new_sessions next_id
      else
        match find_session (kv_host n) (kv_port n) sessions with
        | Some (i, s) =>
            assign_sessions lazy ns (next_index + 1) (delete i sessions) (<[next_index := s]> new_sessions) next_id
        | None =>
            if lazy then assign_sessions lazy ns (next_index + 1) sessions new_sessions next_id
            else
              assign_sessions lazy ns (next_index + 1) sessions
                (<[next_index := KvSession next_id (kv_host n) (kv_port n)]> new_sessions) (S next_id)
        end
  end.

(** [bucket_impl::update_config]: the new configuration and sessions, and the
    sessions that are dropped and stopped. *)
Definition update_config (lazy : bool) (config : configuration) (current : option configuration)
    (sessions : gmap Z kv_session) (next_id : nat) :
    option configuration * gmap Z kv_session * gmap Z kv_session :=
  if accept_config current config then
    if sessions_outdated current config then
      let '(dropped, new_sessions, _) := assign_sessions lazy (nodes config) 0 sessions ∅ next_id in
      (Some config, new_sessions, dropped)
    else (Some config, sessions, ∅)
  else (current, sessions, ∅).

(** [bucket_impl::restart_sessions]: [index] counts the nodes, [kv_node_index]
    those with the key-value service; a new session is stored under [index]. *)
Fixpoint restart_sessions (ns : list node) (index kv_node_index : Z) (sessions : gmap Z kv_session)
    (next_id : nat) : gmap Z kv_session :=
  match ns with
  | [] => sessions
  | n :: ns =>
      if decide (kv_port n = 0) then restart_sessions ns (index + 1) kv_node_index sessions next_id
      else
        match find_session (kv_host n) (kv_port n) sessions with
        | Some (found, s) =>
            let sessions :=
              if decide (found = kv_node_index) then sessions
              else match sessions !! kv_node_index with
                   | None => delete found (<[kv_node_index := s]> sessions)
                   | Some current => <[kv_node_index := s]> (<[found := current]> sessions)
                   end in
            restart_sessions ns (index + 1) (kv_node_index + 1) sessions next_id
        | None =>
            restart_sessions ns (index + 1) (kv_node_index + 1)
              (<[index := KvSession next_id (kv_host n) (kv_port n)]> sessions) (S next_id)
        end
  end.
End bucket.

(** ** Accepted configurations *)

Lemma complete_config_rev host port c :
  cfg_epoch (complete_config host port c) = cfg_epoch c ∧ cfg_rev (complete_config host port c) = cfg_rev c ∧
  vbmap (complete_config host port c) = vbmap c.
Proof. unfold complete_config, set_nodes. by case_match. Qed.

(** One configuration: nothing changes, or a newer one is stored. *)
Lemma update_configuration_cases c s :
  (update_configuration c s).1 = s ∨
  (∃ c', sc_config (update_configuration c s).1 = Some c' ∧ vbmap_empty c' = false ∧
     c' = complete_config (sc_bootstrap_hostname s) (sc_bootstrap_port s) c ∧
     ∀ old, sc_config s = Some old → config_ltb old c' = true).
Proof.
  unfold update_configuration.
  destruct (sc_stopped s); [by left|]. destruct (vbmap_empty c) eqn:Hv; [by left|].
  destruct (complete_config_rev (sc_bootstrap_hostname s) (sc_bootstrap_port s) c) as (He & Hr & Hm).
  assert (Hv' : vbmap_empty (complete_config (sc_bootstrap_hostname s) (sc_bootstrap_port s) c) = false)
    by (unfold vbmap_empty in *; by rewrite Hm).
  destruct (sc_config s) as [old|] eqn:Hs.
  - destruct (vbmap_sizes_differ old c); [by left|]. destruct (config_eqb c old) eqn:Heq; [by left|].
    destruct (config_ltb c old) eqn:Hlt; [by left|]. right. eexists. split_and!; [done..|].
    intros ? [= <-]. unfold config_ltb, config_eqb in *. rewrite He, Hr.
    destruct (config_total old c) as [H|[H|H]]; unfold config_ltb, config_eqb in *; congruence.
  - right. eexists. split_and!; [done..|]. by intros ? [=].
Qed.

(** The configuration of a session only moves forward.  Whatever
    configurations arrive, in whatever order, a session never stores one with
    an empty vbucket map, and it replaces the one it has only by newer ones. *)
Theorem session_config_monotone configs s :
  (∀ c, sc_config s = Some c → vbmap_empty c = false) →
  let s' := foldl (λ s c, (update_configuration c s).1) s configs in
  (∀ c', sc_config s' = Some c' → vbmap_empty c' = false) ∧
  (∀ c, sc_config s = Some c → ∃ c', sc_config s' = Some c' ∧ (c' = c ∨ config_ltb c c' = true)).
Proof.
  revert s. induction configs as [|c configs IH]; intros s Hs; cbn [foldl]; [eauto|].
  destruct (update_configuration_cases c s) as [->|(c1 & Hc1 & Hv & _ & Hlt)]; [by apply IH|].
  destruct (IH (update_configuration c s).1) as [H1 H2]; [congruence|]. split; [exact H1|].
  intros old Hold. destruct (H2 c1 Hc1) as (c' & Hc' & Hle). exists c'. split; [done|]. right.
  specialize (Hlt old Hold). destruct Hle as [->|Hle]; [done|by eapply config_ltb_trans].
Qed.

Lemma session_config_monotone_witness :
  let c rev m := Configuration (Some 1) (Some rev) None [] m Capability.no_capabilities false in
  let s := SessionConfig false (Some (c 5 (Some [[0]]))) true [104] [49] in
  let s' := foldl (λ s c, (update_configuration c s).1) s [c 4 (Some [[1]]); c 6 (Some []); c 7 (Some [[2]])] in
  (∀ c', sc_config s' = Some c' → vbmap_empty c' = false) ∧
  (∀ c, sc_config s = Some c → ∃ c', sc_config s' = Some c' ∧ (c' = c ∨ config_ltb c c' = true)).
Proof. intros c s. apply session_config_monotone. by intros ? [= <-]. Defined.

(** ** Sessions and servers *)

Section bucket_proofs.
Context (network : bytes) (is_tls : bool).

(** The addresses of the servers with the key-value service, in order. *)
Definition kv_endpoints (ns : list node) : list (bytes * Z) :=
  omap (λ n, if decide (kv_port network is_tls n = 0) then None
             else Some (kv_host network n, kv_port network is_tls n)) ns.

Definition ks_address (s : kv_session) : bytes * Z := (ks_hostname s, ks_port s).

Lemma find_session_Some host port m i s :
  find_session host port m = Some (i, s) → m !! i = Some s ∧ ks_address s = (host, port).
Proof using.
  unfold find_session. intros [Hin Hp]%find_some. split.
  - apply elem_of_map_to_list. rewrite <-(merge_sort_Permutation index_le). by apply list_elem_of_In.
  - apply andb_true_iff in Hp as [Hh%bool_decide_eq_true Hp%Z.eqb_eq]. unfold ks_address. by f_equal.
Qed.

Lemma find_session_None host port m i s :
  find_session host port m = None → m !! i = Some s → ks_address s ≠ (host, port).
Proof using.
  unfold find_session. intros Hn Hi [= Hh Hp].
  assert (Hin : (i, s) ∈ merge_sort index_le (map_to_list m)).
  { rewrite merge_sort_Permutation. by apply elem_of_map_to_list. }
  pose proof (find_none _ _ Hn (i, s) (proj1 (list_elem_of_In _ _) Hin)) as Hf. cbn in Hf.
  by rewrite Hh, Hp, bool_decide_true, Z.eqb_refl in Hf.
Qed.

(** What the loop of [update_config] leaves behind: the addresses from
    [next_index] on are served, earlier entries are kept, later ones do not
    exist, and no old session is lost. *)
Record assigned (ns : list node) (next_index : Z) (old new : gmap Z kv_session)
    (dropped new' : gmap Z kv_session) : Prop := {
  as_served k e : kv_endpoints ns !! k = Some e →
    ∃ s, new' !! (next_index + Z.of_nat k) = Some s ∧ ks_address s = e;
  as_below i : i < next_index → new' !! i = new !! i;
  as_above i : next_index + Z.of_nat (length (kv_endpoints ns)) ≤ i → new' !! i = new !! i;
  as_kept i s : old !! i = Some s → dropped !! i = Some s ∨ ∃ j, new' !! j = Some s;
}.

(** One server more in front. *)
Lemma assigned_cons n ns next_index old old' new s dropped new' :
  kv_port network is_tls n ≠ 0 → ks_address s = (kv_host network n, kv_port network is_tls n) →
  (∀ i t, old !! i = Some t → old' !! i = Some t ∨ t = s) →
  assigned ns (next_index + 1) old' (<[next_index := s]> new) dropped new' →
  assigned (n :: ns) next_index old new dropped new'.
Proof using.
  intros Hp Hs Hold [H1 H2 H3 H4].
  assert (Hat : new' !! next_index = Some s) by (rewrite H2 by lia; by rewrite lookup_insert_eq).
  assert (Hlen : kv_endpoints (n :: ns) = (kv_host network n, kv_port network is_tls n) :: kv_endpoints ns)
    by (unfold kv_endpoints; simpl; by rewrite decide_False).
  split.
  - rewrite Hlen. intros [|k] e Hk; simpl in Hk.
    + injection Hk as <-. exists s. by rewrite Z.add_0_r.
    + destruct (H1 k e Hk) as (t & Ht & He). exists t. split; [|done]. rewrite <-Ht. f_equal. lia.
  - intros i Hi. rewrite H2 by lia. by rewrite lookup_insert_ne by lia.
  - rewrite Hlen. simpl. intros i Hi. rewrite H3 by lia. by rewrite lookup_insert_ne by lia.
  - intros i t Ht. destruct (Hold i t Ht) as [Ho| ->]; [by apply H4 in Ho|]. right. eauto.
Qed.

Lemma assign_sessions_assigned ns next_index old new next_id dropped new' id' :
  assign_sessions network is_tls false ns next_index old new next_id = (dropped, new', id') →
  assigned ns next_index old new dropped new'.
Proof using.
  revert next_index old new next_id. induction ns as [|n ns IH]; intros next_index old new next_id;
    cbn [assign_sessions].
  { intros [= <- <- <-]. split; [by intros k e|done..|by left]. }
  case_decide as Hp.
  { intros H%IH. destruct H as [H1 H2 H3 H4].
    assert (Hlen : kv_endpoints (n :: ns) = kv_endpoints ns)
      by (unfold kv_endpoints; simpl; by rewrite decide_True).
    split; rewrite ?Hlen; auto. }
  destruct (find_session _ _ old) as [[i s]|] eqn:Hf; intros H%IH.
  - apply find_session_Some in Hf as [Hi Ha]. eapply assigned_cons; [done|exact Ha| |exact H].
    intros j t Ht. destruct (decide (i = j)) as [->|Hne]; [right; congruence|left].
    by rewrite lookup_delete_ne.
  - eapply assigned_cons; [done| | |exact H]; [done|]. by left.
Qed.

(** Sessions follow the configuration.  After a configuration with other
    servers has been accepted, the session with index [k] is one for the
    address of the [k]-th server that offers the key-value service, there are
    no sessions with other indexes, and each old session is either in use or
    among the dropped ones. *)
Theorem update_config_sessions config current sessions next_id :
  accept_config current config = true → sessions_outdated network is_tls current config = true →
  let '(stored, sessions', dropped) := update_config network is_tls false config current sessions next_id in
  stored = Some config ∧
  (∀ k e, kv_endpoints (nodes config) !! k = Some e →
     ∃ s, sessions' !! Z.of_nat k = Some s ∧ ks_address s = e) ∧
  (∀ i, ¬ 0 ≤ i < zsize (kv_endpoints (nodes config)) → sessions' !! i = None) ∧
  (∀ i s, sessions !! i = Some s → dropped !! i = Some s ∨ ∃ j, sessions' !! j = Some s).
Proof using.
  intros Ha Ho. unfold update_config. rewrite Ha, Ho.
  destruct (assign_sessions _ _ _ _ _ _ _ _) as [[dropped new'] id'] eqn:Has.
  apply assign_sessions_assigned in Has as [H1 H2 H3 H4]. split_and!; [done|exact H1| |exact H4].
  intros i Hi. destruct (decide (i < 0)) as [Hn|Hn]; [by rewrite H2|].
  rewrite H3; [apply lookup_empty|]. unfold zsize in Hi. lia.
Qed.
(** Sessions that serve the addresses [es] under their positions. *)
Definition serves (es : list (bytes * Z)) (sessions : gmap Z kv_session) : Prop :=
  ∀ k e, es !! k = Some e → ∃ s, sessions !! Z.of_nat k = Some s ∧ ks_address s = e.

Lemma serves_insert es e sessions s i :
  serves es sessions → ks_address s = e → i = zsize es → serves (es ++ [e]) (<[i := s]> sessions).
Proof using.
  intros Hes Hs -> k x Hk. unfold zsize. apply lookup_app_Some in Hk as [Hk|[Hle Hk]].
  - destruct (Hes k x Hk) as (t & Ht & Hx). exists t. split; [|done].
    rewrite lookup_insert_ne; [done|]. apply lookup_lt_Some in Hk. lia.
  - apply list_lookup_singleton_Some in Hk as [Hk <-]. exists s. split; [|done].
    replace (Z.of_nat k) with (Z.of_nat (length es)) by lia. by rewrite lookup_insert_eq.
Qed.

(** Changes at an index whose session has another address do no harm. *)
Lemma serves_alter es sessions i s f :
  serves es sessions → sessions !! i = Some s → ks_address s ∉ es →
  (∀ j, j ≠ i → f !! j = sessions !! j) → serves es f.
Proof using.
  intros Hes Hi Hn Hf k e Hk. destruct (Hes k e Hk) as (t & Ht & He). exists t. split; [|done].
  rewrite Hf; [done|]. intros <-. apply Hn. rewrite Hi in Ht. injection Ht as ->. rewrite He.
  by eapply list_elem_of_lookup_2.
Qed.

Lemma restart_sessions_serves ns pre sessions next_id :
  Forall (λ n, kv_port network is_tls n ≠ 0) ns → NoDup (pre ++ kv_endpoints ns) → serves pre sessions →
  serves (pre ++ kv_endpoints ns)
    (restart_sessions network is_tls ns (zsize pre) (zsize pre) sessions next_id).
Proof using.
  intros Hkv. revert pre sessions next_id.
  induction Hkv as [|n ns Hn Hkv IH]; intros pre sessions next_id Hnd Hpre; [by rewrite app_nil_r|].
  set (e := (kv_host network n, kv_port network is_tls n)).
  assert (Hlen : kv_endpoints (n :: ns) = e :: kv_endpoints ns)
    by (unfold kv_endpoints; simpl; by rewrite decide_False).
  rewrite Hlen, cons_middle, app_assoc in *. cbn [restart_sessions]. rewrite decide_False by done.
  assert (He : e ∉ pre).
  { apply NoDup_app in Hnd as (Hnd & _ & _). apply NoDup_app in Hnd as (_ & Hd & _).
    intros Hin. by apply (Hd _ Hin), list_elem_of_singleton. }
  assert (Hz : zsize pre + 1 = zsize (pre ++ [e])) by (rewrite zsize_app; done).
  destruct (find_session _ _ sessions) as [[found s]|] eqn:Hf.
  - apply find_session_Some in Hf as [Hi Ha]. rewrite Hz. apply IH; [done|].
    case_decide as Hd.
    + subst found. intros k x Hk. apply lookup_app_Some in Hk as [Hk|[Hle Hk]]; [by apply Hpre|].
      apply list_lookup_singleton_Some in Hk as [Hk <-]. exists s. split; [|done].
      unfold zsize in Hi. rewrite <-Hi. f_equal. lia.
    + assert (Hs : ks_address s ∉ pre) by (by rewrite Ha).
      destruct (sessions !! zsize pre) as [current|] eqn:Hc.
      * apply serves_insert; [|done..]. eapply serves_alter; [exact Hpre|exact Hi|done|].
        intros j Hj. by rewrite lookup_insert_ne.
      * rewrite delete_insert_ne by done. apply serves_insert; [|done..].
        eapply serves_alter; [exact Hpre|exact Hi|done|]. intros j Hj. by rewrite lookup_delete_ne.
  - rewrite Hz. apply IH; [done|]. by apply serves_insert.
Qed.

(** Restarted sessions follow the configuration when every node is a
    data node.  If all nodes offer the key-value service at different
    addresses, [restart_sessions] leaves, from any sessions, the session with
    index [k] for the [k]-th server. *)
Theorem restart_sessions_all_kv ns sessions next_id :
  Forall (λ n, kv_port network is_tls n ≠ 0) ns → NoDup (kv_endpoints ns) →
  ∀ k e, kv_endpoints ns !! k = Some e →
    ∃ s, restart_sessions network is_tls ns 0 0 sessions next_id !! Z.of_nat k = Some s ∧ ks_address s = e.
Proof using.
  intros Hkv Hnd. apply (restart_sessions_serves ns [] sessions next_id); [done..|]. by intros k e.
Qed.

(** Restarted sessions are misplaced behind other nodes.  After a node
    without the key-value service, [restart_sessions] stores a new session
    under the index of its node instead of the index of the server, where
    [update_config] stores it: server 0 has no session, and a session waits
    under an index that is no server. *)
Theorem restart_sessions_misplaced n0 n1 next_id :
  kv_port network is_tls n0 = 0 → kv_port network is_tls n1 ≠ 0 →
  let s := KvSession next_id (kv_host network n1) (kv_port network is_tls n1) in
  restart_sessions network is_tls [n0; n1] 0 0 ∅ next_id = {[1 := s]} ∧
  assign_sessions network is_tls false [n0; n1] 0 ∅ ∅ next_id = (∅, {[0 := s]}, S next_id) ∧
  kv_endpoints [n0; n1] = [ks_address s].
Proof using.
  intros H0 H1 s. cbn [restart_sessions assign_sessions]. unfold kv_endpoints. simpl.
  rewrite !(decide_True _ _ H0), !(decide_False _ _ H1). done.
Qed.
End bucket_proofs.

Definition kv_node (host : bytes) (port : Z) : node :=
  Node false 0 host (set_kv_port no_ports port) no_ports ∅ [] [].
Definition two_servers : configuration :=
  Configuration (Some 1) (Some 1) None [default_node; kv_node [97] 11210; kv_node [98] 11210] (Some [[0]]) Capability.no_capabilities false.

Lemma update_config_sessions_witness :
  let old : gmap Z kv_session := {[0 := KvSession 0 [98] 11210; 1 := KvSession 1 [99] 11210]} in
  let '(stored, sessions', dropped) := update_config name_default false false two_servers None old 2 in
  stored = Some two_servers ∧
  (∀ k e, kv_endpoints name_default false (nodes two_servers) !! k = Some e →
     ∃ s, sessions' !! Z.of_nat k = Some s ∧ ks_address s = e) ∧
  (∀ i, ¬ 0 ≤ i < zsize (kv_endpoints name_default false (nodes two_servers)) → sessions' !! i = None) ∧
  (∀ i s, old !! i = Some s → dropped !! i = Some s ∨ ∃ j, sessions' !! j = Some s).
Proof. intros old. by apply (update_config_sessions name_default false two_servers None old 2). Defined.

Lemma restart_sessions_all_kv_witness :
  let ns := [kv_node [97] 11210; kv_node [98] 11210] in
  let old : gmap Z kv_session := {[0 := KvSession 0 [98] 11210; 1 := KvSession 1 [97] 11210]} in
  ∃ s, restart_sessions name_default false ns 0 0 old 2 !! Z.of_nat 1 = Some s ∧ ks_address s = ([98], 11210).
Proof.
  intros ns old. apply (restart_sessions_all_kv name_default false ns old 2); [by repeat constructor| |done].
  apply (bool_decide_unpack _). by vm_compute.
Defined.

Lemma restart_sessions_misplaced_witness :
  let s := KvSession 0 [97] 11210 in
  restart_sessions name_default false [default_node; kv_node [97] 11210] 0 0 ∅ 0 = {[1 := s]} ∧
  assign_sessions name_default false false [default_node; kv_node [97] 11210] 0 ∅ ∅ 0 = (∅, {[0 := s]}, 1%nat) ∧
  kv_endpoints name_default false [default_node; kv_node [97] 11210] = [ks_address s].
Proof. intros s. by apply (restart_sessions_misplaced name_default false default_node (kv_node [97] 11210) 0). Defined.
