(* ===== verification/Lifecycle.v ===== *)
(** * The contract of the key-value service, and its refinement

    What a caller of the bucket may rely on, without sessions, opaques,
    queues and timers: an operation that was started waits until its handler
    is invoked, which happens once.  [service_step] is that contract as a
    transition system, and [operations_refine_service] shows that every step
    of the machine of [Operation] is a sequence of steps of the contract. *)

From S2P Require Import Prelude ByteOrder Protocol McbpParser ClientRequest ClientResponse Commands Topology Retry Operation OperationProofs OperationTheorems.

(** ** The abstract service *)

Inductive phase :=
  | waiting (expiry : Z)
  | completed.

(** The operations, and the completions that were reported, newest first. *)
Record service := Service {
  sv_operations : gmap nat phase;
  sv_reports : list (nat * completion_code * option mcbp_message);
}.

Inductive service_step : service → service → Prop :=
  | service_start ops reports cid expiry :
      ops !! cid = None → service_step (Service ops reports) (Service (<[cid := waiting expiry]> ops) reports)
  | service_complete ops reports cid expiry ec msg :
      ops !! cid = Some (waiting expiry) →
      service_step (Service ops reports) (Service (<[cid := completed]> ops) ((cid, ec, msg) :: reports)).

Definition idle_service : service := Service ∅ [].

Definition reported (l : list (nat * completion_code * option mcbp_message)) : list nat := (λ e, e.1.1) <$> l.

(** In every run of the contract the reports name exactly the completed
    operations, each once. *)
Lemma service_reports_once s :
  rtc service_step idle_service s →
  NoDup (reported (sv_reports s)) ∧
  ∀ cid, cid ∈ reported (sv_reports s) ↔ sv_operations s !! cid = Some completed.
Proof.
  revert s. apply (rtc_ind_r (λ s, NoDup (reported (sv_reports s)) ∧
    ∀ cid, cid ∈ reported (sv_reports s) ↔ sv_operations s !! cid = Some completed)).
  - split; [constructor|]. intros cid. cbn. by rewrite lookup_empty, elem_of_nil.
  - intros s1 s2 _ Hstep [Hn Hc]. destruct Hstep as [ops rs cid e Hl|ops rs cid e ec msg Hl]; cbn in *.
    + split; [done|]. intros cid'. rewrite Hc, lookup_insert_Some.
      destruct (decide (cid = cid')) as [<-|Hne]; [|naive_solver]. rewrite Hl. naive_solver.
    + split.
      * constructor; [|done]. rewrite Hc. congruence.
      * intros cid'. rewrite elem_of_cons, Hc, lookup_insert_Some. naive_solver.
Qed.

(** ** The abstraction of a world *)

Definition phase_of (c : command) : phase := if cmd_handler c then waiting (cmd_expiry c) else completed.
Definition service_of (w : world) : service := Service (phase_of <$> w_commands w) (w_log w).

Lemma completions_app w cid l l' :
  w_log w = l ++ l' →
  completions w cid = (length (filter (λ x, x = cid) (reported l)) + length (filter (λ e, e.1.1 = cid) l'))%nat.
Proof.
  intros Hl. unfold completions. rewrite Hl, filter_app, length_app. f_equal. clear Hl. unfold reported.
  induction l as [|[[x ec] msg] l IH]; [done|]. rewrite fmap_cons, !filter_cons. cbn [fst].
  case_decide; cbn [length]; by rewrite IH.
Qed.

(** A batch of completions. *)
Definition completed_all (l : list nat) (ops : gmap nat phase) : gmap nat phase :=
  foldr (λ cid ops, <[cid := completed]> ops) ops l.

Lemma lookup_completed_all l ops cid :
  completed_all l ops !! cid = if decide (cid ∈ l) then Some completed else ops !! cid.
Proof.
  induction l as [|x l IH]; [by rewrite decide_False by apply not_elem_of_nil|]. cbn [completed_all foldr].
  fold (completed_all l ops). destruct (decide (x = cid)) as [<-|Hne].
  - by rewrite lookup_insert_eq, decide_True by left.
  - rewrite lookup_insert_ne by done. rewrite IH. apply decide_ext. set_solver.
Qed.

Lemma service_completes ops reports l :
  NoDup (reported l) → (∀ cid, cid ∈ reported l → ∃ e, ops !! cid = Some (waiting e)) →
  rtc service_step (Service ops reports) (Service (completed_all (reported l) ops) (l ++ reports)).
Proof.
  induction l as [|[[cid ec] msg] l IH]; [done|]. unfold reported. rewrite fmap_cons. cbn [fst].
  fold (reported l). intros [Hni Hn]%NoDup_cons Hw. eapply rtc_r.
  - apply IH; [done|]. intros cid' Hin. apply Hw. by right.
  - destruct (Hw cid) as [e He]; [by left|]. cbn [completed_all foldr app].
    apply (service_complete _ _ _ e). fold (completed_all (reported l) ops).
    by rewrite lookup_completed_all, decide_False.
Qed.

(** ** Simulation *)

Lemma at_most_one_NoDup (l : list nat) : (∀ x, (length (filter (λ y, y = x) l) ≤ 1)%nat) → NoDup l.
Proof.
  induction l as [|x l IH]; intros Hc; [constructor|]. constructor.
  - intros Hin. specialize (Hc x). rewrite filter_cons_True in Hc by done. cbn in Hc.
    assert (x ∈ filter (λ y, y = x) l) as Hf by (by apply list_elem_of_filter).
    destruct (filter _ l); [by apply elem_of_nil in Hf|cbn in Hc; lia].
  - apply IH. intros y. specialize (Hc y). rewrite filter_cons in Hc. case_decide; cbn in Hc; lia.
Qed.

Lemma reported_count (l : list nat) x : x ∈ l ↔ (0 < length (filter (λ y, y = x) l))%nat.
Proof.
  split.
  - intros Hin. assert (x ∈ filter (λ y, y = x) l) as Hf by (by apply list_elem_of_filter).
    destruct (filter _ l); [by apply elem_of_nil in Hf|cbn; lia].
  - intros Hl. destruct (filter (λ y, y = x) l) as [|y k] eqn:Hf; [cbn in Hl; lia|].
    assert (y ∈ filter (λ y, y = x) l) as Hin by (rewrite Hf; left).
    by apply list_elem_of_filter in Hin as [-> Hin].
Qed.

Lemma accounted_le_1 v : accounted v → (v.2 ≤ 1)%nat.
Proof. intros [->|[(e & ->)|(d & e & ->)]]; cbn; lia. Qed.

(** Progress of the commands with the matching extension of the log is a batch
    of completions. *)
Lemma progress_simulates w w' :
  progress w w' → all_accounted w' → w_log w `suffix_of` w_log w' →
  rtc service_step (service_of w) (service_of w').
Proof.
  intros Hp Ha [l Hl].
  assert (Hn : ∀ cid, completions w' cid =
    (length (filter (λ x, x = cid) (reported l)) + completions w cid)%nat) by (intros; by apply completions_app).
  assert (Hc : ∀ cid,
    ((cid ∈ reported l) ∧ (∃ e, sv_operations (service_of w) !! cid = Some (waiting e)) ∧
      sv_operations (service_of w') !! cid = Some completed) ∨
    ((cid ∉ reported l) ∧ sv_operations (service_of w') !! cid = sv_operations (service_of w) !! cid)).
  { intros cid. specialize (Hp cid). unfold view in Hp. cbn. rewrite !lookup_fmap.
    specialize (Hn cid). rewrite reported_count. unfold life, phase_of in *.
    destruct (w_commands w !! cid) as [c|], (w_commands w' !! cid) as [c'|]; cbn in *;
      inversion Hp as [v E1 E2|d e n E1 E2|d e n E1 E2]; simplify_eq; cbn;
      try (right; split; [lia|congruence]).
    left. split_and!; [lia|by eexists|done]. }
  unfold service_of. rewrite Hl.
  replace (phase_of <$> w_commands w') with (completed_all (reported l) (phase_of <$> w_commands w)).
  - apply service_completes.
    + apply at_most_one_NoDup. intros cid. specialize (Hn cid). pose proof (accounted_le_1 _ (Ha cid)) as H1.
      cbn in H1. lia.
    + intros cid Hin. by destruct (Hc cid) as [(_ & He & _)|[? _]].
  - apply map_eq. intros cid. rewrite lookup_completed_all. cbn in Hc.
    destruct (Hc cid) as [(? & _ & ->)|[? ->]]; [by rewrite decide_True|by rewrite decide_False].
Qed.

Lemma suffix_grows w w' : grows w w' → w_log w `suffix_of` w_log w'.
Proof. by intros (_ & _ & ?). Qed.

Lemma ok_simulates w w' :
  ok w w' → inv w → all_accounted w' → sane w' → rtc service_step (service_of w) (service_of w').
Proof.
  intros [Hg Hok] Hi Ha Hs. apply progress_simulates; [by apply Hok|done|by apply suffix_grows].
Qed.

Lemma service_of_upd_command cid f w :
  (∀ c, phase_of (f c) = phase_of c) → service_of (upd_command cid f w) = service_of w.
Proof.
  intros Hf. unfold service_of, upd_command. cbn [w_commands w_log]. f_equal. apply map_eq. intros cid'.
  rewrite !lookup_fmap. destruct (decide (cid = cid')) as [<-|Hne]; [|by rewrite lookup_alter_ne].
  rewrite lookup_alter_eq. destruct (w_commands w !! cid); [|done]. cbn. by rewrite Hf.
Qed.

Section refinement.
Context `{JsonParser}.

Lemma execute_simulates w cid r i :
  w_commands w !! cid = None → inv w → all_accounted (execute cid r i w) → sane (execute cid r i w) →
  rtc service_step (service_of w) (service_of (execute cid r i w)).
Proof using.
  intros Hn Hi Ha Hs. destruct (execute_ok cid r i w) as [->|(c & Hc & Hl & Hok)]; [done|].
  eapply rtc_l; [apply (service_start _ _ cid (cmd_expiry c)); by rewrite lookup_fmap, Hn|].
  replace (Service _ _) with (service_of (stored cid c w)).
  - eapply ok_simulates; [done|by apply stored_inv|done..].
  - unfold service_of, stored. cbn [w_commands w_log]. rewrite fmap_insert. do 2 f_equal.
    unfold phase_of. unfold life in Hl. by injection Hl as -> _.
Qed.

Lemma deadline_simulates w cid :
  inv w → all_accounted (cancel cid true (upd_command cid disarm_deadline w)) →
  sane (cancel cid true (upd_command cid disarm_deadline w)) →
  rtc service_step (service_of w) (service_of (cancel cid true (upd_command cid disarm_deadline w))).
Proof using.
  intros Hi Ha Hs. rewrite <-(service_of_upd_command cid disarm_deadline w) by done.
  apply ok_simulates; [apply ok_cancel|by apply disarm_inv|done..].
Qed.

Lemma step_simulates w w' :
  step w w' → inv w → all_accounted w' → sane w' → rtc service_step (service_of w) (service_of w').
Proof.
  intros Hstep Hi Ha Hs. destruct (step_ok w w' Hstep) as [Hok|[(cid & r & i & Hn & ->)|(cid & c & Hc & Hd & ->)]].
  - by apply ok_simulates.
  - by apply execute_simulates.
  - by apply deadline_simulates.
Qed.

Lemma reachable_simulates w : reachable w → sane w → rtc service_step idle_service (service_of w).
Proof.
  intros (w0 & [Hc Hs0 Hl] & Hr). revert w Hr. apply (rtc_ind_r (λ w, sane w → rtc service_step idle_service (service_of w))).
  - intros _. unfold service_of. rewrite Hc, Hl. by rewrite fmap_empty.
  - intros w1 w2 Hr Hstep IH Hs2. assert (Hs1 : sane w1) by (by eapply sane_grows; [apply step_grows|]).
    etrans; [by apply IH|]. destruct (reachable_invariant w1) as [Hi Ha]; [by exists w0|done|].
    apply step_simulates; [done..| |done]. by eapply step_invariant.
Qed.

(** C8: the machine of sessions, opaques, queues and timers implements the
    contract of the service.  Each of its steps from a reachable world is a
    sequence of steps of the contract between the abstractions of the two
    worlds, so every reachable world is the image of a run of the contract,
    in which the handlers that were invoked are those of the completed
    operations, each once. *)
Theorem operations_refine_service w :
  reachable w → sane w →
  rtc service_step idle_service (service_of w) ∧
  (∀ w', step w w' → sane w' → rtc service_step (service_of w) (service_of w')) ∧
  NoDup (reported (w_log w)) ∧
  ∀ cid, cid ∈ reported (w_log w) ↔ ∃ c, w_commands w !! cid = Some c ∧ cmd_handler c = false.
Proof.
  intros Hr Hs.
  assert (Hrun : rtc service_step idle_service (service_of w)) by (by apply reachable_simulates).
  destruct (reachable_invariant w Hr Hs) as [Hi Ha].
  destruct (service_reports_once _ Hrun) as [Hn Hc]. split_and!; [done| |done|].
  - intros w' Hstep Hs'. apply step_simulates; [done..| |done]. by eapply step_invariant.
  - intros cid. cbn in Hc. rewrite Hc, lookup_fmap_Some. unfold phase_of. split.
    + intros (c & Hp & Hl). exists c. split; [done|]. by destruct (cmd_handler c).
    + intros (c & Hl & Hh). exists c. by rewrite Hh.
Qed.
End refinement.

Lemma operations_refine_service_witness :
  rtc service_step idle_service (service_of expired_world) ∧
  (∀ w', step (H := no_json) expired_world w' → sane w' →
     rtc service_step (service_of expired_world) (service_of w')) ∧
  NoDup (reported (w_log expired_world)) ∧
  ∀ cid, cid ∈ reported (w_log expired_world) ↔ ∃ c, w_commands expired_world !! cid = Some c ∧ cmd_handler c = false.
Proof.
  apply (operations_refine_service (H := no_json)); [apply expired_reachable|]. apply sane_bool. by vm_compute.
Defined.
