(* ===== verification/Base64.v ===== *)
(** * Base 64: [core/platform/base64.cc]

    The encoder and the decoder of RFC 4648 that carry authentication data,
    the keys of web sockets and binary values.  Characters are their codes; a
    code of 128 or more stands for a negative [char], which no comparison of
    the source accepts and which is no space in the "C" locale. *)

From S2P Require Import Prelude ByteOrder.

(** Every error of the file is [std::invalid_argument]. *)
Inductive invalid_argument := invalid_input_character | encode_rest_num | decode_invalid_input.
Global Instance invalid_argument_eq_dec : EqDecision invalid_argument.
Proof. solve_decision. Defined.
Abbreviation result := (outcome invalid_argument).

(** ** Encoder *)

Definition codemap : list Z :=
  map (Z.add 65) (seqZ 0 26) ++ map (Z.add 97) (seqZ 0 26) ++ map (Z.add 48) (seqZ 0 10) ++ [43; 47].

(** [codemap[(val >> n) & 63]] *)
Definition code_at (val n : Z) : result Z := at_ codemap (Z.land (Z.shiftr val n) 63).

Definition encode_rest (s : bytes) (num : Z) : result bytes :=
  val ← (if decide (num = 2) then
           s0 ← at_ s 0; s1 ← at_ s 1; Ok (Z.lor (u32 (Z.shiftl s0 16)) (u32 (Z.shiftl s1 8)))
         else if decide (num = 1) then
           s0 ← at_ s 0; Ok (u32 (Z.shiftl s0 16))
         else Err encode_rest_num);
  c0 ← code_at val 18; c1 ← code_at val 12;
  c2 ← (if decide (num = 2) then code_at val 6 else Ok 61);
  Ok [c0; c1; c2; 61].

Definition encode_triplet (s : bytes) : result bytes :=
  s0 ← at_ s 0; s1 ← at_ s 1; s2 ← at_ s 2;
  let val := Z.lor (Z.lor (u32 (Z.shiftl s0 16)) (u32 (Z.shiftl s1 8))) s2 in
  c0 ← code_at val 18; c1 ← code_at val 12; c2 ← code_at val 6; c3 ← code_at val 0;
  Ok [c0; c1; c2; c3].

(** The loop over the triplets: the string it appends and what [in] points to
    afterwards; [chunks] counts the triplets when [pretty_print] is set. *)
Fixpoint encode_triplets (pretty_print : bool) (triplets : nat) (chunks : Z) (in_ result_ : bytes) :
    result (bytes * bytes) :=
  match triplets with
  | O => Ok (result_, in_)
  | S triplets =>
      quad ← encode_triplet in_;
      let chunks := if pretty_print then u64 (chunks + 1) else chunks in
      let newline := if pretty_print && bool_decide (chunks mod 16 = 0) then [10] else [] in
      encode_triplets pretty_print triplets chunks (drop 3 in_) (result_ ++ quad ++ newline)
  end.

(** [encode]; [back] of an empty string is a [Fault]. *)
Definition encode (blob : bytes) (pretty_print : bool) : result bytes :=
  let triplets := zsize blob / 3 in
  let rest := zsize blob mod 3 in
  '(result_, in_) ← encode_triplets pretty_print (Z.to_nat triplets) 0 blob [];
  result_ ← (if decide (0 < rest) then tail ← encode_rest in_ rest; Ok (result_ ++ tail) else Ok result_);
  if pretty_print then
    back ← at_ result_ (zsize result_ - 1);
    Ok (if decide (back = 10) then result_ else result_ ++ [10])
  else Ok result_.

(** ** Decoder *)

Definition code2val (code : Z) : result Z :=
  if decide (65 ≤ code ≤ 90) then Ok (code - 65)
  else if decide (97 ≤ code ≤ 122) then Ok (code - 97 + 26)
  else if decide (48 ≤ code ≤ 57) then Ok (code - 48 + 52)
  else if decide (code = 43) then Ok 62
  else if decide (code = 47) then Ok 63
  else Err invalid_input_character.

(** [decode_quad]: the bytes it appends. *)
Definition decode_quad (s0 s1 s2 s3 : Z) : result bytes :=
  v0 ← code2val s0;
  v1 ← code2val s1;
  let value := Z.lor (u32 (Z.shiftl v0 18)) (u32 (Z.shiftl v1 12)) in
  '(ret, value) ←
    (if decide (s2 = 61) then Ok (1, value)
     else
       v2 ← code2val s2;
       let value := Z.lor value (u32 (Z.shiftl v2 6)) in
       if decide (s3 = 61) then Ok (2, value)
       else v3 ← code2val s3; Ok (3, Z.lor value v3));
  Ok ([u8 (Z.shiftr value 16)] ++
      (if decide (1 < ret) then [u8 (Z.shiftr value 8)] ++ (if decide (2 < ret) then [u8 value] else []) else [])).

(** [std::isspace] in the "C" locale. *)
Definition isspace (c : Z) : bool := bool_decide (c = 32 ∨ 9 ≤ c ≤ 13).

(** The loop of [decode] over the characters from [in] on. *)
Fixpoint decode_chars (in_ : bytes) : result bytes :=
  match in_ with
  | [] => Ok []
  | s0 :: in1 =>
      if isspace s0 then decode_chars in1
      else
        match in1 with
        | s1 :: s2 :: s3 :: in4 =>
            quad ← decode_quad s0 s1 s2 s3;
            rest ← decode_chars in4;
            Ok (quad ++ rest)
        | _ => Err decode_invalid_input
        end
  end.

Definition decode (blob : bytes) : result bytes := decode_chars blob.

(** ** Characters and values *)

(** A character of the alphabet, and the value it stands for. *)
Definition encodes (c v : Z) : Prop := code2val c = Ok v ∧ isspace c = false ∧ c ≠ 61 ∧ 0 ≤ v < 64.

Lemma codemap_decodes v : 0 ≤ v < 64 → ∃ c, codemap !! Z.to_nat v = Some c ∧ encodes c v.
Proof.
  intros Hv. assert (Hall : forallb (λ v, match codemap !! Z.to_nat v with
    | Some c => bool_decide (code2val c = Ok v) && negb (isspace c) && bool_decide (c ≠ 61)
    | None => false end) (seqZ 0 64) = true) by (by vm_compute).
  rewrite forallb_forall in Hall. specialize (Hall v). rewrite <-list_elem_of_In, elem_of_seqZ in Hall.
  specialize (Hall ltac:(lia)). destruct (codemap !! Z.to_nat v) as [c|]; [|done].
  rewrite !andb_true_iff, !bool_decide_eq_true, negb_true_iff in Hall. exists c. unfold encodes. naive_solver.
Qed.

Lemma code_at_spec val n :
  0 ≤ n → ∃ c, code_at val n = Ok c ∧ encodes c (val / 2 ^ n mod 64).
Proof.
  intros Hn. unfold code_at. change 63 with (2 ^ 6 - 1).
  rewrite land_ones_mod, Z.shiftr_div_pow2 by lia. change (2 ^ 6) with 64.
  destruct (codemap_decodes (val / 2 ^ n mod 64)) as (c & Hc & He); [apply Z.mod_pos_bound; lia|].
  exists c. split; [|done]. apply at_Some; [apply He|done].
Qed.

(** ** Quads *)

Lemma word24 a b : in_width 8 a → in_width 8 b → Z.lor (u32 (Z.shiftl a 16)) (u32 (Z.shiftl b 8)) = a * 2 ^ 16 + b * 2 ^ 8.
Proof.
  intros Ha Hb. rewrite !Z.shiftl_mul_pow2 by lia. rewrite !wrap_small by width_lia.
  rewrite lor_mul_add' by width_lia. done.
Qed.

(** The 24-bit value of a quad. *)
Definition quad_value (v0 v1 v2 v3 : Z) : Z := v0 * 2 ^ 18 + v1 * 2 ^ 12 + v2 * 2 ^ 6 + v3.

Lemma quad_bits v0 v1 v2 v3 :
  0 ≤ v0 < 64 → 0 ≤ v1 < 64 → 0 ≤ v2 < 64 → 0 ≤ v3 < 64 →
  let two := Z.lor (u32 (Z.shiftl v0 18)) (u32 (Z.shiftl v1 12)) in
  let three := Z.lor two (u32 (Z.shiftl v2 6)) in
  two = quad_value v0 v1 0 0 ∧ three = quad_value v0 v1 v2 0 ∧ Z.lor three v3 = quad_value v0 v1 v2 v3.
Proof.
  intros H0 H1 H2 H3. cbv zeta. rewrite !Z.shiftl_mul_pow2 by lia. rewrite !wrap_small by width_lia.
  rewrite (lor_mul_add' (v1 * 2 ^ 12) v0 18) by width_lia.
  replace (v0 * 2 ^ 18 + v1 * 2 ^ 12) with ((v0 * 2 ^ 6 + v1) * 2 ^ 12) by lia.
  rewrite (lor_mul_add' (v2 * 2 ^ 6) _ 12) by width_lia.
  replace ((v0 * 2 ^ 6 + v1) * 2 ^ 12 + v2 * 2 ^ 6) with (((v0 * 2 ^ 6 + v1) * 2 ^ 6 + v2) * 2 ^ 6) by lia.
  rewrite (lor_mul_add' v3 _ 6) by width_lia. unfold quad_value. lia.
Qed.

Section quads.
Context (c0 c1 c2 c3 v0 v1 v2 v3 : Z).
Context (E0 : encodes c0 v0) (E1 : encodes c1 v1) (E2 : encodes c2 v2) (E3 : encodes c3 v3).

Lemma decode_quad_three :
  decode_quad c0 c1 c2 c3 =
    let v := quad_value v0 v1 v2 v3 in Ok [u8 (v / 2 ^ 16); u8 (v / 2 ^ 8); u8 v].
Proof using All.
  destruct E0 as (H0 & _ & _ & B0), E1 as (H1 & _ & _ & B1), E2 as (H2 & _ & N2 & B2), E3 as (H3 & _ & N3 & B3).
  destruct (quad_bits v0 v1 v2 v3 B0 B1 B2 B3) as (_ & _ & Hb).
  unfold decode_quad. rewrite H0, H1. cbn. rewrite decide_False, H2 by done. cbn.
  rewrite decide_False, H3 by done. cbn. rewrite !decide_True by lia. by rewrite Hb, !Z.shiftr_div_pow2 by lia.
Qed.

Lemma decode_quad_two :
  decode_quad c0 c1 c2 61 = let v := quad_value v0 v1 v2 0 in Ok [u8 (v / 2 ^ 16); u8 (v / 2 ^ 8)].
Proof using E0 E1 E2.
  destruct E0 as (H0 & _ & _ & B0), E1 as (H1 & _ & _ & B1), E2 as (H2 & _ & N2 & B2).
  destruct (quad_bits v0 v1 v2 0 B0 B1 B2) as (_ & Hb & _); [lia|].
  unfold decode_quad. rewrite H0, H1. cbn. rewrite decide_False, H2 by done. cbn. rewrite Hb, (decide_True _ _ (eq_refl 61)). cbn.
  by rewrite !Z.shiftr_div_pow2 by lia.
Qed.

Lemma decode_quad_one : decode_quad c0 c1 61 61 = let v := quad_value v0 v1 0 0 in Ok [u8 (v / 2 ^ 16)].
Proof using E0 E1.
  destruct E0 as (H0 & _ & _ & B0), E1 as (H1 & _ & _ & B1).
  destruct (quad_bits v0 v1 0 0 B0 B1) as (Hb & _ & _); [lia..|].
  unfold decode_quad. rewrite H0, H1. cbn. rewrite Hb, (decide_True _ _ (eq_refl 61)). cbn.
  by rewrite !Z.shiftr_div_pow2 by lia.
Qed.
End quads.

(** ** Round trip *)

(** What the decoder does with a quad that stands for [out]. *)
Definition quad_for (quad out : bytes) : Prop :=
  ∃ c0 c1 c2 c3, quad = [c0; c1; c2; c3] ∧ isspace c0 = false ∧ decode_quad c0 c1 c2 c3 = Ok out.

Lemma decode_app_quad quad out rest :
  quad_for quad out → decode_chars (quad ++ rest) = (λ bs, out ++ bs) <$> decode_chars rest.
Proof.
  intros (c0 & c1 & c2 & c3 & -> & Hs & Hd). cbn. rewrite Hs, Hd. cbn. by destruct (decode_chars rest).
Qed.

(** Six bits at a time, the quad has the bits of the three bytes. *)
Lemma quad_value_of val :
  in_width 24 val →
  quad_value (val / 2 ^ 18 mod 64) (val / 2 ^ 12 mod 64) (val / 2 ^ 6 mod 64) (val / 2 ^ 0 mod 64) = val.
Proof. unfold quad_value. intros. width_lia. Qed.

Lemma encode_triplet_spec s0 s1 s2 rest :
  in_width 8 s0 → in_width 8 s1 → in_width 8 s2 →
  ∃ quad, encode_triplet (s0 :: s1 :: s2 :: rest) = Ok quad ∧ quad_for quad [s0; s1; s2].
Proof.
  intros H0 H1 H2. set (val := s0 * 2 ^ 16 + s1 * 2 ^ 8 + s2). assert (Hv : in_width 24 val) by width_lia.
  destruct (code_at_spec val 18) as (c0 & C0 & E0), (code_at_spec val 12) as (c1 & C1 & E1),
    (code_at_spec val 6) as (c2 & C2 & E2), (code_at_spec val 0) as (c3 & C3 & E3); [lia..|].
  exists [c0; c1; c2; c3]. split.
  - unfold encode_triplet. change (at_ (s0 :: s1 :: s2 :: rest) 0) with (@Ok invalid_argument Z s0).
    change (at_ (s0 :: s1 :: s2 :: rest) 1) with (@Ok invalid_argument Z s1).
    change (at_ (s0 :: s1 :: s2 :: rest) 2) with (@Ok invalid_argument Z s2). cbn [mbind outcome_bind].
    rewrite word24 by done.
    replace (Z.lor (s0 * 2 ^ 16 + s1 * 2 ^ 8) s2) with val by
      (replace (s0 * 2 ^ 16 + s1 * 2 ^ 8) with ((s0 * 2 ^ 8 + s1) * 2 ^ 8) by lia;
       rewrite lor_mul_add' by width_lia; lia).
    by rewrite C0, C1, C2, C3.
  - exists c0, c1, c2, c3. split_and!; [done|apply E0|].
    rewrite (decode_quad_three _ _ _ _ _ _ _ _ E0 E1 E2 E3), quad_value_of by done. cbn zeta.
    unfold val. repeat f_equal; width_lia.
Qed.

Lemma encode_rest_spec tail :
  bytes_ok tail → zsize tail = 1 ∨ zsize tail = 2 →
  ∃ quad, encode_rest tail (zsize tail) = Ok quad ∧ quad_for quad tail.
Proof.
  intros Ht Hn. destruct tail as [|s0 [|s1 [|? ?]]]; [done || size_lia|..|size_lia].
  - apply Forall_cons in Ht as [H0 _]. set (val := s0 * 2 ^ 16).
    assert (Hval : u32 (Z.shiftl s0 16) = val) by (rewrite Z.shiftl_mul_pow2 by lia; apply wrap_small; width_lia).
    destruct (code_at_spec val 18) as (c0 & C0 & E0), (code_at_spec val 12) as (c1 & C1 & E1); [lia..|].
    exists [c0; c1; 61; 61]. split.
    + change (zsize [s0]) with 1. unfold encode_rest. rewrite (decide_False (P := 1 = 2)), decide_True by done.
      change (at_ [s0] 0) with (@Ok invalid_argument Z s0). cbn [mbind outcome_bind]. by rewrite Hval, C0, C1.
    + exists c0, c1, 61, 61. split_and!; [done|apply E0|].
      rewrite (decode_quad_one _ _ _ _ E0 E1). cbn zeta. unfold val, quad_value. repeat f_equal. width_lia.
  - apply Forall_cons in Ht as [H0 [H1 _]%Forall_cons]. set (val := s0 * 2 ^ 16 + s1 * 2 ^ 8).
    destruct (code_at_spec val 18) as (c0 & C0 & E0), (code_at_spec val 12) as (c1 & C1 & E1),
      (code_at_spec val 6) as (c2 & C2 & E2); [lia..|].
    exists [c0; c1; c2; 61]. split.
    + change (zsize [s0; s1]) with 2. unfold encode_rest. rewrite !(decide_True _ _ (eq_refl 2)).
      change (at_ [s0; s1] 0) with (@Ok invalid_argument Z s0).
      change (at_ [s0; s1] 1) with (@Ok invalid_argument Z s1). cbn [mbind outcome_bind].
      rewrite word24 by done. fold val. by rewrite C0, C1, C2.
    + exists c0, c1, c2, 61. split_and!; [done|apply E0|].
      rewrite (decode_quad_two _ _ _ _ _ _ E0 E1 E2). cbn zeta. unfold val, quad_value. repeat f_equal; width_lia.
Qed.

Lemma encode_triplets_spec pretty_print n chunks blob acc :
  bytes_ok blob → (3 * n ≤ length blob)%nat →
  ∃ out, encode_triplets pretty_print n chunks blob acc = Ok (acc ++ out, drop (3 * n) blob) ∧
    ∀ rest, decode_chars (out ++ rest) = (λ bs, take (3 * n) blob ++ bs) <$> decode_chars rest.
Proof.
  revert chunks blob acc. induction n as [|n IH]; intros chunks blob acc Hb Hn.
  - exists []. rewrite app_nil_r. split; [done|]. intros rest. cbn. by destruct (decode_chars rest).
  - destruct blob as [|s0 [|s1 [|s2 blob]]]; cbn [length] in Hn; [lia..|].
    apply Forall_cons in Hb as [H0 Hb]. apply Forall_cons in Hb as [H1 Hb]. apply Forall_cons in Hb as [H2 Hb].
    destruct (encode_triplet_spec s0 s1 s2 blob H0 H1 H2) as (quad & Hq & Hquad).
    cbn [encode_triplets]. rewrite Hq. cbn [mbind outcome_bind drop]. rewrite drop_0.
    match goal with |- context [acc ++ quad ++ ?x] => set (newline := x) end.
    match goal with |- context [encode_triplets _ _ ?c blob] => set (chunks' := c) end.
    destruct (IH chunks' blob (acc ++ quad ++ newline) Hb) as (out & -> & Hd); [lia|].
    exists (quad ++ newline ++ out). replace (3 * S n)%nat with (S (S (S (3 * n)))) by lia.
    split; [by rewrite <-!app_assoc|]. intros rest.
    rewrite <-!app_assoc, (decode_app_quad _ _ _ Hquad).
    assert (decode_chars (newline ++ out ++ rest) = decode_chars (out ++ rest)) as ->.
    { unfold newline. by destruct (_ && _). }
    rewrite Hd. by destruct (decode_chars rest).
Qed.

(** The trailing newline of the pretty printer is skipped. *)
Lemma decode_snoc_newline out bs :
  (∀ rest, decode_chars (out ++ rest) = (λ x, bs ++ x) <$> decode_chars rest) →
  decode_chars out = Ok bs ∧ decode_chars (out ++ [10]) = Ok bs.
Proof.
  intros H. pose proof (H []) as H1. rewrite app_nil_r in H1. rewrite H1, (H [10]).
  change (decode_chars [10]) with (decode_chars []). cbn. by rewrite app_nil_r.
Qed.

(** Every sequence of bytes is encoded, with or without line breaks, and
    the decoder reads it back. *)
Theorem base64_roundtrip blob pretty_print :
  bytes_ok blob → blob ≠ [] ∨ pretty_print = false →
  ∃ text, encode blob pretty_print = Ok text ∧ decode text = Ok blob.
Proof.
  intros Hb Hne. unfold encode, decode. set (n := Z.to_nat (zsize blob / 3)).
  pose proof (Z_div_mod_eq_full (zsize blob) 3) as Hdiv. pose proof (Z.mod_pos_bound (zsize blob) 3 ltac:(lia)) as Hmod.
  assert (Hn : (3 * n ≤ length blob)%nat) by (unfold n, zsize in *; lia).
  destruct (encode_triplets_spec pretty_print n 0 blob [] Hb Hn) as (out & -> & Hd). cbn [mbind outcome_bind app].
  set (tail := drop (3 * n) blob) in *.
  assert (Htail : zsize tail = zsize blob mod 3) by (unfold tail; rewrite zsize_drop; unfold n, zsize in *; lia).
  assert (Hall : ∃ text, (if decide (0 < zsize blob mod 3) then tail ← encode_rest tail (zsize blob mod 3);
      Ok (out ++ tail) else Ok out) = Ok text ∧
      (∀ rest, decode_chars (text ++ rest) = (λ x, blob ++ x) <$> decode_chars rest)).
  { rewrite <-Htail. case_decide as Hr.
    - destruct (encode_rest_spec tail) as (quad & -> & Hq); [by apply Forall_drop|lia|].
      cbn. exists (out ++ quad). split; [done|]. intros rest. rewrite <-app_assoc, Hd, (decode_app_quad _ _ _ Hq).
      destruct (decode_chars rest); cbn; [|done..]. f_equal. rewrite app_assoc. f_equal. apply take_drop.
    - exists out. split; [done|]. intros rest. rewrite Hd, take_ge; [done|]. unfold n, zsize in *. lia. }
  destruct Hall as (text & -> & Ht). cbn [mbind outcome_bind]. destruct (decode_snoc_newline _ _ Ht) as [H1 H2].
  destruct pretty_print; [|by exists text]. destruct Hne as [Hne|]; [|done].
  destruct (at_in_range (E := invalid_argument) text (zsize text - 1)) as (b & -> & _).
  { destruct text; [|size_lia]. cbn in H1. congruence. }
  cbn. case_decide; [by exists text|by eexists].
Qed.

(** Pretty printing of an empty value reads the last character of an
    empty string. *)
Theorem base64_pretty_empty : encode [] true = Fault.
Proof. done. Qed.

Lemma base64_roundtrip_witness :
  ∃ text, encode [77; 97; 110; 33] true = Ok text ∧ decode text = Ok [77; 97; 110; 33].
Proof. apply (base64_roundtrip [77; 97; 110; 33] true); [apply (bool_decide_unpack _); by vm_compute|by left]. Defined.
