(* ===== verification/Platform.v ===== *)
(** * Hexadecimal text and identifiers: [core/platform/string_hex.cc],
      [core/platform/uuid.cc]

    [to_hex] is overloaded: [to_hex_uint] is the four overloads for integers,
    [to_hex] the one for strings.  A code of 128 or more is a negative
    [char]. *)

From S2P Require Import Prelude.

Inductive hex_error := hex_invalid_argument | hex_overflow_error.
Global Instance hex_error_eq_dec : EqDecision hex_error.
Proof. solve_decision. Defined.

(** ** [string_hex.cc] *)

Definition from_hex_digit (c : Z) : outcome hex_error Z :=
  if (48 <=? c) && (c <=? 57) then Ok (c - 48)
  else if (65 <=? c) && (c <=? 70) then Ok (c + 10 - 65)
  else if (97 <=? c) && (c <=? 102) then Ok (c + 10 - 97)
  else Err hex_invalid_argument.

Fixpoint from_hex_digits (ret : Z) (buffer : bytes) : outcome hex_error Z :=
  match buffer with
  | [] => Ok ret
  | digit :: buffer => d ← from_hex_digit digit; from_hex_digits (Z.lor (u64 (Z.shiftl ret 4)) d) buffer
  end.

Definition from_hex (buffer : bytes) : outcome hex_error Z :=
  if decide (16 < zsize buffer) then Err hex_overflow_error else from_hex_digits 0 buffer.

(** What [snprintf] and the streams print for a number in base 16, at least
    [width] digits *)
Definition hex_char (d : Z) : Z := if d <=? 9 then 48 + d else 97 + (d - 10).

Fixpoint hex_text (fuel : nat) (v : Z) (acc : bytes) : bytes :=
  match fuel with
  | O => acc
  | S fuel =>
      let acc := hex_char (v mod 16) :: acc in
      if decide (v < 16) then acc else hex_text fuel (v / 16) acc
  end.

Definition hex_padded (width : nat) (v : Z) : bytes :=
  let text := hex_text 16 v [] in replicate (width - length text) 48 ++ text.

(** The overload for [w]-bit integers *)
Definition to_hex_uint (w : nat) (val : Z) : bytes := ascii "0x" ++ hex_padded (w / 4) val.

(** [static_cast<std::uint32_t>(c)] of a [char] *)
Definition char_u32 (c : Z) : Z := if decide (c < 128) then c else u32 (c - 256).

Definition to_hex (buffer : bytes) : bytes :=
  if decide (buffer = []) then []
  else
    let ret := flat_map (λ c, ascii "0x" ++ hex_padded 2 (char_u32 c) ++ [32]) buffer in
    take (length ret - 1) ret.

(** ** [uuid.cc] *)

(** [random], given the numbers it draws *)
Definition uuid_random (drawn : bytes) : bytes := alter (λ b, Z.lor (Z.land b 0x0f) 0x40) 6%nat drawn.

(** The body of the loop of [from_string]; the array that is returned is
    filled from its start. *)
Definition from_string_step (str : bytes) (st : Z * bytes) : outcome hex_error (Z * bytes) :=
  let '(ii, ret) := st in
  ii ← (if bool_decide (ii = 8 ∨ ii = 13 ∨ ii = 18 ∨ ii = 23) then
          c ← at_ str ii;
          if decide (c = 45) then Ok (ii + 1) else Err hex_invalid_argument
        else Ok ii);
  pair ← range str ii 2;
  byte ← from_hex pair;
  if decide (zsize ret < 16) then Ok (ii + 2, ret ++ [u8 byte]) else Fault.

Definition from_string (str : bytes) : outcome hex_error bytes :=
  if decide (zsize str = 36) then
    snd <$> while_loop 18 (λ st, st.1 <? 36) (from_string_step str) (0, [])
  else Err hex_invalid_argument.

Definition to_char (c : Z) : Z := if c <=? 9 then 48 + c else 97 + (c - 10).

Definition to_string_step (st : outcome hex_error (Z * bytes)) (byte : Z) : outcome hex_error (Z * bytes) :=
  '(i, ret) ← st;
  ret ← store_range ret i [to_char (Z.land (u8 (Z.shiftr byte 4)) 0x0f)];
  ret ← store_range ret (i + 1) [to_char (Z.land byte 0x0f)];
  let i := i + 2 in
  Ok (if bool_decide (i = 6 ∨ i = 11 ∨ i = 16 ∨ i = 21) then i + 1 else i, ret).

Definition to_string (uuid : bytes) : outcome hex_error bytes :=
  snd <$> foldl to_string_step (Ok (0, replicate 36 45)) uuid.

(** ** What is read back *)

Lemma to_char_hex_char d : to_char d = hex_char d.
Proof. done. Qed.

(** The two digits of a byte *)
Definition hex_pair (b : Z) : bytes := [hex_char (b / 16); hex_char (b mod 16)].

Lemma from_hex_char d : 0 ≤ d < 16 → from_hex_digit (hex_char d) = Ok d.
Proof.
  intros Hd. assert (Hall : Forall (λ d, from_hex_digit (hex_char d) = Ok d) (seqZ 0 16)) by (apply (bool_decide_unpack _); by vm_compute).
  rewrite Forall_forall in Hall. apply Hall, elem_of_seqZ. lia.
Qed.

Lemma hex_char_not_hyphen d : 0 ≤ d < 16 → hex_char d ≠ 45.
Proof. unfold hex_char. intros. case_match; lia. Qed.

(** The value of a text of hexadecimal digits *)
Lemma from_hex_digits_app ret ds :
  Forall (λ d, 0 ≤ d < 16) ds → 0 ≤ ret → (ret + 1) * 16 ^ zsize ds ≤ 2 ^ 64 →
  from_hex_digits ret (map hex_char ds) = Ok (foldl (λ v d, v * 16 + d) ret ds).
Proof.
  revert ret. induction ds as [|d ds IH]; intros ret Hds Hr Hb; [done|]. apply Forall_cons in Hds as [Hd Hds].
  rewrite zsize_cons, Z.pow_add_r in Hb by (lia || apply zsize_nonneg). pose proof (zsize_nonneg ds).
  assert (Hp : 1 ≤ 16 ^ zsize ds) by (pose proof (Z.pow_pos_nonneg 16 (zsize ds)); lia).
  assert (Hval : Z.lor (u64 (Z.shiftl ret 4)) d = ret * 16 + d).
  { rewrite wrap_small by (rewrite Z.shiftl_mul_pow2 by lia; unfold in_width; nia).
    rewrite Z.lor_comm, lor_shiftl_add by (unfold in_width; lia). lia. }
  cbn [map from_hex_digits]. rewrite from_hex_char by done. cbn [mbind outcome_bind]. rewrite Hval. apply IH; [done|lia|nia].
Qed.

Lemma from_hex_pair b : is_u8 b → from_hex (hex_pair b) = Ok b.
Proof.
  intros Hb. unfold in_width in Hb. unfold from_hex. cbn [hex_pair zsize length]. rewrite decide_False by (unfold zsize; cbn; lia).
  change (hex_pair b) with (map hex_char [b / 16; b mod 16]). rewrite from_hex_digits_app; [cbn; f_equal; Z.to_euclidean_division_equations; lia| |lia|unfold zsize; cbn; lia].
  repeat constructor; Z.to_euclidean_division_equations; lia.
Qed.

Lemma uuid_pair b : is_u8 b → [to_char (Z.land (u8 (Z.shiftr b 4)) 0x0f); to_char (Z.land b 0x0f)] = hex_pair b.
Proof.
  intros Hb. unfold in_width in Hb. rewrite !to_char_hex_char, Z.shiftr_div_pow2 by lia.
  rewrite wrap_small by (unfold in_width; Z.to_euclidean_division_equations; lia).
  change 0x0f with (2 ^ 4 - 1). rewrite !land_ones_mod by lia. change (2 ^ 4) with 16. unfold hex_pair. do 3 f_equal.
  apply Z.mod_small. Z.to_euclidean_division_equations; lia.
Qed.

(** The bytes of a [uuid_t] in groups of [n1], 2, 2, 2 and the rest *)
Definition grouped (n1 : nat) (u : bytes) : bytes :=
  flat_map hex_pair (take n1 u) ++ 45 :: flat_map hex_pair (take 2 (drop n1 u)) ++ 45 :: flat_map hex_pair (take 2 (drop (n1 + 2) u)) ++
  45 :: flat_map hex_pair (take 2 (drop (n1 + 4) u)) ++ 45 :: flat_map hex_pair (drop (n1 + 6) u).

(** The form that [uuid.h] gives: [00000000-0000-0000-0000-000000000000] *)
Definition documented_text : bytes → bytes := grouped 4.

Ltac sixteen u := do 16 (destruct u as [|? u]; [done|]); destruct u; [|size_lia].

Lemma to_string_grouped u : zsize u = 16 → bytes_ok u → to_string u = Ok (grouped 3 u).
Proof.
  intros Hn Hu. sixteen u. decompose_Forall_hyps.
  unfold grouped. cbn [take drop flat_map Nat.add]. rewrite <-!uuid_pair by done. reflexivity.
Qed.

Section reading.
Context (str : bytes) (ii : Z) (ret : bytes) (b : Z).
Hypotheses (Hb : is_u8 b) (Hret : zsize ret < 16).

Lemma from_string_digits :
  bool_decide (ii = 8 ∨ ii = 13 ∨ ii = 18 ∨ ii = 23) = false → range (E:=hex_error) str ii 2 = Ok (hex_pair b) →
  from_string_step str (ii, ret) = Ok (ii + 2, ret ++ [b]).
Proof.
  intros Hii Hr. unfold from_string_step. rewrite Hii. cbn [mbind outcome_bind]. rewrite Hr. cbn [mbind outcome_bind].
  rewrite from_hex_pair by done. cbn [mbind outcome_bind]. by rewrite decide_True, wrap_small by done.
Qed.

Lemma from_string_hyphen :
  bool_decide (ii = 8 ∨ ii = 13 ∨ ii = 18 ∨ ii = 23) = true → at_ (E:=hex_error) str ii = Ok 45 →
  range (E:=hex_error) str (ii + 1) 2 = Ok (hex_pair b) → from_string_step str (ii, ret) = Ok (ii + 1 + 2, ret ++ [b]).
Proof.
  intros Hii Ha Hr. unfold from_string_step. rewrite Hii, Ha. cbn [mbind outcome_bind]. rewrite decide_True by done. cbn [mbind outcome_bind].
  rewrite Hr. cbn [mbind outcome_bind]. rewrite from_hex_pair by done. cbn [mbind outcome_bind]. by rewrite decide_True, wrap_small by done.
Qed.
End reading.

(** One iteration on a text whose characters are known *)
Ltac read_pair :=
  erewrite while_loop_step;
  [|done|first [eapply from_string_digits; [|done|done|reflexivity]; done | eapply from_string_hyphen; [|done|done|reflexivity|reflexivity]; done]].

Lemma from_string_documented u : zsize u = 16 → bytes_ok u → from_string (documented_text u) = Ok u.
Proof.
  intros Hn Hu. sixteen u. decompose_Forall_hyps. unfold from_string. rewrite decide_True by done.
  unfold documented_text, grouped. cbn [take drop flat_map Nat.add app]. do 16 read_pair. by rewrite while_loop_done.
Qed.

(** Its seventh character is a hyphen, where a digit is expected. *)
Lemma from_string_printed u : zsize u = 16 → bytes_ok u → from_string (grouped 3 u) = Err hex_invalid_argument.
Proof.
  intros Hn Hu. sixteen u. decompose_Forall_hyps. unfold from_string. rewrite decide_True by done.
  unfold grouped. cbn [take drop flat_map Nat.add app]. do 3 read_pair. done.
Qed.

Lemma hex_pair_inj a b : is_u8 a → is_u8 b → hex_char (a / 16) = hex_char (b / 16) → hex_char (a mod 16) = hex_char (b mod 16) → a = b.
Proof.
  intros Ha Hb H1 H2. assert (H : from_hex (hex_pair a) = from_hex (hex_pair b)) by (unfold hex_pair; by rewrite H1, H2).
  rewrite !from_hex_pair in H by done. congruence.
Qed.

Lemma grouped_inj u v : zsize u = 16 → zsize v = 16 → bytes_ok u → bytes_ok v → grouped 3 u = grouped 3 v → u = v.
Proof.
  intros Hn Hm Hu Hv. sixteen u. sixteen v. decompose_Forall_hyps. unfold grouped, hex_pair. cbn [take drop flat_map Nat.add app].
  intros Heq. injection Heq. intros. repeat f_equal; by apply hex_pair_inj.
Qed.

(** C40: What [to_string] prints tells identifiers apart, but it is not the form that
    [uuid.h] documents: the hyphens stand after 3, 5, 7 and 9 bytes, and
    [from_string], which reads the documented form, rejects it. *)
Theorem uuid_text u : zsize u = 16 → bytes_ok u →
  to_string u = Ok (grouped 3 u) ∧ from_string (grouped 3 u) = Err hex_invalid_argument ∧
  from_string (documented_text u) = Ok u ∧
  (∀ v, zsize v = 16 → bytes_ok v → to_string v = to_string u → v = u).
Proof.
  intros Hn Hu. split_and!; [by apply to_string_grouped|by apply from_string_printed|by apply from_string_documented|].
  intros v Hm Hv. rewrite !to_string_grouped by done. intros [= Heq]. by apply grouped_inj.
Qed.

Lemma uuid_text_witness :
  let u := seqZ 0 16 in
  to_string u = Ok (grouped 3 u) ∧ from_string (grouped 3 u) = Err hex_invalid_argument ∧
  from_string (documented_text u) = Ok u ∧
  (∀ v, zsize v = 16 → bytes_ok v → to_string v = to_string u → v = u).
Proof. apply (uuid_text (seqZ 0 16)); [done|apply (bool_decide_unpack _); by vm_compute]. Defined.

(** A negative [char] is extended to 32 bits before it is printed. *)
Lemma to_hex_negative_char : to_hex [0x80] = ascii "0xffffff80".
Proof. done. Qed.
