(* ===== verification/Sasl.v ===== *)
(** * Authentication: [core/sasl/]

    The client side of SCRAM-SHA1, SCRAM-SHA256 and SCRAM-SHA512 (RFC 5802,
    [scram-sha/scram-sha.cc], [stringutils.cc]), of PLAIN and OAUTHBEARER, and
    the choice between them ([mechanism.cc], [client.cc]).  The functions of
    OpenSSL are the class [OpenSSL]; [crypto/cbcrypto.cc] is above it.

    [Err] is an exception; the values of [error] are returned. *)

From S2P Require Import Prelude ByteOrder Topology Base64 Platform.

Inductive sasl_exception := LogicError | InvalidArgument | RuntimeError | BadAlloc | UnknownMechanism.
Global Instance sasl_exception_eq_dec : EqDecision sasl_exception.
Proof. solve_decision. Defined.

(** [sasl::error] *)
Inductive error := OK | CONTINUE | FAIL | BAD_PARAM | NO_MEM | NO_MECH | NO_USER | PASSWORD_ERROR | NO_RBAC_PROFILE | AUTH_PROVIDER_DIED.
Global Instance error_eq_dec : EqDecision error.
Proof. solve_decision. Defined.

Abbreviation throws := (outcome sasl_exception).

(** ** [crypto/cbcrypto.cc] *)

Inductive Algorithm := ALG_SHA1 | ALG_SHA256 | ALG_SHA512.

(** The library: [HMAC] returns a null pointer and [PKCS5_PBKDF2_HMAC] a code
    other than 1 when they fail, which is [None]. *)
Class OpenSSL := {
  HMAC : Algorithm → bytes → bytes → option bytes;
  PKCS5_PBKDF2_HMAC : Algorithm → bytes → bytes → Z → option bytes;
  SHA : Algorithm → bytes → bytes;
}.

Definition digest_size (algorithm : Algorithm) : Z :=
  match algorithm with ALG_SHA1 => 20 | ALG_SHA256 => 32 | ALG_SHA512 => 64 end.

(** What is documented of them: the sizes of their results, that digests do not
    fail, and that keys are derived for a positive number of iterations and not
    for others. *)
Class OpenSSLLaws `{OpenSSL} : Prop := {
  hmac_succeeds alg key data : ∃ d, HMAC alg key data = Some d;
  hmac_size alg key data d : HMAC alg key data = Some d → zsize d = digest_size alg ∧ bytes_ok d;
  sha_size alg data : zsize (SHA alg data) = digest_size alg ∧ bytes_ok (SHA alg data);
  pbkdf2_succeeds alg pass salt n : 0 < n → ∃ d, PKCS5_PBKDF2_HMAC alg pass salt n = Some d;
  pbkdf2_fails alg pass salt n : n ≤ 0 → PKCS5_PBKDF2_HMAC alg pass salt n = None;
  pbkdf2_size alg pass salt n d : PKCS5_PBKDF2_HMAC alg pass salt n = Some d → zsize d = digest_size alg ∧ bytes_ok d;
}.

Definition of_openssl (r : option bytes) : throws bytes := match r with Some d => Ok d | None => Err RuntimeError end.

(** [static_cast<int>] of a 32-bit word *)
Definition to_int (n : Z) : Z := if decide (n < 2 ^ 31) then n else n - 2 ^ 32.

Section crypto.
Context `{OpenSSL}.

Definition HMAC_SHA1 (key data : bytes) : throws bytes := of_openssl (HMAC ALG_SHA1 key data).
Definition HMAC_SHA256 (key data : bytes) : throws bytes := of_openssl (HMAC ALG_SHA256 key data).
Definition HMAC_SHA512 (key data : bytes) : throws bytes := of_openssl (HMAC ALG_SHA512 key data).

Definition PBKDF2_HMAC_SHA1 (pass salt : bytes) (iterationCount : Z) : throws bytes :=
  of_openssl (PKCS5_PBKDF2_HMAC ALG_SHA1 pass salt (to_int iterationCount)).
Definition PBKDF2_HMAC_SHA256 (pass salt : bytes) (iterationCount : Z) : throws bytes :=
  of_openssl (PKCS5_PBKDF2_HMAC ALG_SHA256 pass salt (to_int iterationCount)).
Definition PBKDF2_HMAC_SHA512 (pass salt : bytes) (iterationCount : Z) : throws bytes :=
  of_openssl (PKCS5_PBKDF2_HMAC ALG_SHA512 pass salt (to_int iterationCount)).

Definition digest_sha1 (data : bytes) : throws bytes := Ok (SHA ALG_SHA1 data).
Definition digest_sha256 (data : bytes) : throws bytes := Ok (SHA ALG_SHA256 data).
Definition digest_sha512 (data : bytes) : throws bytes := Ok (SHA ALG_SHA512 data).

Definition CBC_HMAC (algorithm : Algorithm) (key data : bytes) : throws bytes :=
  match algorithm with
  | ALG_SHA1 => HMAC_SHA1 key data
  | ALG_SHA256 => HMAC_SHA256 key data
  | ALG_SHA512 => HMAC_SHA512 key data
  end.

Definition PBKDF2_HMAC (algorithm : Algorithm) (pass salt : bytes) (iterationCount : Z) : throws bytes :=
  match algorithm with
  | ALG_SHA1 => PBKDF2_HMAC_SHA1 pass salt iterationCount
  | ALG_SHA256 => PBKDF2_HMAC_SHA256 pass salt iterationCount
  | ALG_SHA512 => PBKDF2_HMAC_SHA512 pass salt iterationCount
  end.

Definition digest (algorithm : Algorithm) (data : bytes) : throws bytes :=
  match algorithm with
  | ALG_SHA1 => digest_sha1 data
  | ALG_SHA256 => digest_sha256 data
  | ALG_SHA512 => digest_sha512 data
  end.
End crypto.

(** ** [scram-sha/stringutils.cc] *)

(** In the "C" locale; the code of a negative [char] is 128 or more. *)
Definition isprint (c : Z) : bool := (32 <=? c) && (c <=? 126).
Definition iscntrl (c : Z) : bool := ((0 <=? c) && (c <? 32)) || (c =? 127).

Fixpoint sasl_prep_check (string : bytes) : throws unit :=
  match string with
  | [] => Ok ()
  | c :: string =>
      if negb (Z.land c 0x80 =? 0) then Err RuntimeError
      else if iscntrl c then Err RuntimeError
      else sasl_prep_check string
  end.
Definition sasl_prep (string : bytes) : throws bytes := _ ← sasl_prep_check string; Ok string.

(** [s.find] and [s.find_first_of] from a position: the index of the first
    character that satisfies [p]. *)
Fixpoint find_index (p : Z → bool) (s : bytes) : option nat :=
  match s with
  | [] => None
  | c :: s => if p c then Some 0%nat else S <$> find_index p s
  end.
Definition find_from (p : Z → bool) (s : bytes) (pos : nat) : option nat := (λ i, (pos + i)%nat) <$> find_index p (drop pos s).

(** [s.replace(index, 1, with)] *)
Definition replace_char (s : bytes) (index : nat) (text : bytes) : bytes := take index s ++ text ++ drop (index + 1) s.

(** The loop of [encode_username] *)
Fixpoint encode_username_loop (fuel : nat) (ret : bytes) (index : nat) : throws bytes :=
  match find_from (λ c, (c =? 44) || (c =? 61)) ret index with
  | None => Ok ret
  | Some index =>
      match fuel with
      | O => Diverge
      | S fuel =>
          let ret := replace_char ret index (if decide (ret !! index = Some 44) then ascii "=2C" else ascii "=3D") in
          encode_username_loop fuel ret (index + 1)
      end
  end.
Definition encode_username (username : bytes) : throws bytes := encode_username_loop (length username) username 0.

(** ** [scram-sha/scram-sha.cc] *)

(** [std::map<char, std::string>]: ordered by the keys, which are signed. *)
Definition AttributeMap := list (Z * bytes).
Definition char_value (c : Z) : Z := if decide (c < 128) then c else c - 256.
Fixpoint attribute (key : Z) (attributes : AttributeMap) : option bytes :=
  match attributes with
  | [] => None
  | kv :: attributes => if decide (kv.1 = key) then Some kv.2 else attribute key attributes
  end.

Fixpoint try_emplace (key : Z) (value : bytes) (attributes : AttributeMap) : AttributeMap :=
  match attributes with
  | [] => [(key, value)]
  | kv :: rest =>
      if decide (kv.1 = key) then attributes
      else if decide (char_value key < char_value kv.1) then (key, value) :: attributes
      else kv :: try_emplace key value rest
  end.

(** One iteration of the loop; [None] is [return false]. *)
Definition decode_attribute (list : bytes) (pos : nat) (attributes : AttributeMap) : option (nat * AttributeMap) :=
  equal ← find_from (λ c, c =? 61) list pos;
  if negb (bool_decide (equal - pos = 1)%nat) then None
  else
    key ← list !! pos;
    let pos := (equal + 1)%nat in
    if has (attribute key attributes) then None
    else match find_from (λ c, c =? 44) list pos with
         | None => Some (length list, try_emplace key (drop pos list) attributes)
         | Some comma => Some ((comma + 1)%nat, try_emplace key (take (comma - pos) (drop pos list)) attributes)
         end.

Fixpoint decode_attributes (fuel : nat) (list : bytes) (pos : nat) (attributes : AttributeMap) : throws (option AttributeMap) :=
  if decide (pos < length list)%nat then
    match fuel with
    | O => Diverge
    | S fuel =>
        match decode_attribute list pos attributes with
        | None => Ok None
        | Some (pos, attributes) => decode_attributes fuel list pos attributes
        end
    end
  else Ok (Some attributes).
Definition decodeAttributeList (list : bytes) : throws (option AttributeMap) := decode_attributes (length list) list 0 [].

(** [std::stoi] *)
Definition stoi (s : bytes) : throws Z :=
  match stol s with
  | Ok v => if decide (- 2 ^ 31 ≤ v < 2 ^ 31) then Ok v else Err InvalidArgument
  | _ => Err InvalidArgument
  end.

(** [base64::encode] and [decode_to_string], whose exceptions are
    [std::invalid_argument] *)
Definition from_base64 {A} (r : outcome invalid_argument A) : throws A :=
  match r with Ok a => Ok a | Err _ => Err InvalidArgument | Fault => Fault | Diverge => Diverge end.

Definition printable_value (value : bytes) : throws bytes :=
  if existsb (λ c, (c =? 44) || negb (isprint c)) value then Err InvalidArgument else Ok value.

(** [addAttribute] for strings: what it writes *)
Definition addAttribute (key : Z) (value : bytes) (more : bool) : throws bytes :=
  text ← (if key =? 110 then (prepared ← sasl_prep value; encode_username prepared)
          else if key =? 114 then printable_value value
          else if (key =? 99) || (key =? 115) || (key =? 112) || (key =? 118) then from_base64 (Base64.encode value false)
          else if key =? 105 then (_ ← stoi value; Ok value)
          else if key =? 101 then printable_value value
          else Err InvalidArgument);
  Ok (key :: 61 :: text ++ (if more then [44] else [])).

(** [addAttribute] for integers *)
Definition addAttribute_int (key value : Z) (more : bool) : throws bytes :=
  if key =? 105 then Ok (key :: 61 :: signed_decimal value ++ (if more then [44] else []))
  else Err InvalidArgument.

(** [scram::ClientBackend], with the members of [ScramShaBackend] *)
Record scram := Scram {
  algorithm : Algorithm;
  client_first_message : bytes;
  client_first_message_bare : bytes;
  client_final_message : bytes;
  client_final_message_without_proof : bytes;
  server_first_message : bytes;
  server_final_message : bytes;
  clientNonce : bytes;
  nonce_ : bytes;
  saltedPassword : bytes;
  salt : bytes;
  iterationCount : Z;
}.

(** The constructor; [nonce] is what the random generator returns. *)
Definition scram_client (alg : Algorithm) (nonce : option bytes) : throws scram :=
  match nonce with
  | Some nonce => Ok (Scram alg [] [] [] [] [] [] (to_hex nonce) [] [] [] 4096)
  | None => Err BadAlloc
  end.

Definition set_first (first bare : bytes) (s : scram) : scram :=
  Scram (algorithm s) first bare (client_final_message s) (client_final_message_without_proof s) (server_first_message s)
    (server_final_message s) (clientNonce s) (nonce_ s) (saltedPassword s) (salt s) (iterationCount s).
Definition set_server_first (msg : bytes) (s : scram) : scram :=
  Scram (algorithm s) (client_first_message s) (client_first_message_bare s) (client_final_message s) (client_final_message_without_proof s)
    msg (server_final_message s) (clientNonce s) (nonce_ s) (saltedPassword s) (salt s) (iterationCount s).
Definition set_server_final (msg : bytes) (s : scram) : scram :=
  Scram (algorithm s) (client_first_message s) (client_first_message_bare s) (client_final_message s) (client_final_message_without_proof s)
    (server_first_message s) msg (clientNonce s) (nonce_ s) (saltedPassword s) (salt s) (iterationCount s).
Definition set_parameters (nonce slt : bytes) (n : Z) (s : scram) : scram :=
  Scram (algorithm s) (client_first_message s) (client_first_message_bare s) (client_final_message s) (client_final_message_without_proof s)
    (server_first_message s) (server_final_message s) (clientNonce s) nonce (saltedPassword s) slt n.
Definition set_salted (password : bytes) (s : scram) : scram :=
  Scram (algorithm s) (client_first_message s) (client_first_message_bare s) (client_final_message s) (client_final_message_without_proof s)
    (server_first_message s) (server_final_message s) (clientNonce s) (nonce_ s) password (salt s) (iterationCount s).
Definition set_final (final without_proof : bytes) (s : scram) : scram :=
  Scram (algorithm s) (client_first_message s) (client_first_message_bare s) final without_proof
    (server_first_message s) (server_final_message s) (clientNonce s) (nonce_ s) (saltedPassword s) (salt s) (iterationCount s).

Section scram.
Context `{OpenSSL}.

Definition getAuthMessage (s : scram) : throws bytes :=
  if decide (client_first_message_bare s = []) then Err LogicError
  else if decide (server_first_message s = []) then Err LogicError
  else if decide (client_final_message_without_proof s = []) then Err LogicError
  else Ok (client_first_message_bare s ++ [44] ++ server_first_message s ++ [44] ++ client_final_message_without_proof s).

Definition getSaltedPassword (s : scram) : throws bytes :=
  if decide (saltedPassword s = []) then Err LogicError else Ok (saltedPassword s).

Definition getServerSignature (s : scram) : throws bytes :=
  salted ← getSaltedPassword s;
  serverKey ← CBC_HMAC (algorithm s) salted (ascii "Server Key");
  message ← getAuthMessage s;
  CBC_HMAC (algorithm s) serverKey message.

(** The loop reads [cs] at the indices of [ck]. *)
Fixpoint xor_bytes (ck cs : bytes) : throws bytes :=
  match ck, cs with
  | [], _ => Ok []
  | k :: ck, s :: cs => rest ← xor_bytes ck cs; Ok (Z.lxor k s :: rest)
  | _ :: _, [] => Fault
  end.

Definition getClientProof (s : scram) : throws bytes :=
  salted ← getSaltedPassword s;
  clientKey ← CBC_HMAC (algorithm s) salted (ascii "Client Key");
  storedKey ← digest (algorithm s) clientKey;
  authMessage ← getAuthMessage s;
  clientSignature ← CBC_HMAC (algorithm s) storedKey authMessage;
  xor_bytes clientKey clientSignature.

Definition scram_start (username : bytes) (s : scram) : throws (scram * (error * bytes)) :=
  name ← addAttribute 110 username true;
  nonce ← addAttribute 114 (clientNonce s) false;
  let first := ascii "n,," ++ name ++ nonce in
  Ok (set_first first (drop 3 first) s, (OK, first)).

(** The [switch] over the attributes of the first message of the server; the
    result is [false] where it returns [BAD_PARAM]. *)
Fixpoint read_parameters (attributes : AttributeMap) (s : scram) : throws (scram * bool) :=
  match attributes with
  | [] => Ok (s, true)
  | (key, value) :: attributes =>
      if key =? 114 then read_parameters attributes (set_parameters value (salt s) (iterationCount s) s)
      else if key =? 115 then
        decoded ← from_base64 (Base64.decode value);
        read_parameters attributes (set_parameters (nonce_ s) decoded (iterationCount s) s)
      else if key =? 105 then
        match stoul value with
        | Ok n => read_parameters attributes (set_parameters (nonce_ s) (salt s) (u32 n) s)
        | _ => Ok (s, false)
        end
      else Ok (s, false)
  end.

Definition generateSaltedPassword (secret : bytes) (s : scram) : scram * bool :=
  match PBKDF2_HMAC (algorithm s) secret (salt s) (iterationCount s) with
  | Ok salted => (set_salted salted s, true)
  | _ => (s, false)
  end.

(** The answer to the first message of the server *)
Definition step_first (password input : bytes) (s : scram) : throws (scram * (error * bytes)) :=
  let s := set_server_first input s in
  decoded ← decodeAttributeList input;
  match decoded with
  | None => Ok (s, (BAD_PARAM, []))
  | Some attributes =>
      '(s, good) ← read_parameters attributes s;
      if negb good then Ok (s, (BAD_PARAM, []))
      else if negb (has (attribute 114 attributes) && has (attribute 115 attributes) && has (attribute 105 attributes))
      then Ok (s, (BAD_PARAM, []))
      else
        let '(s, generated) := generateSaltedPassword password s in
        if negb generated then Ok (s, (FAIL, []))
        else
          channel ← addAttribute 99 (ascii "n,,") true;
          nonce ← addAttribute 114 (nonce_ s) false;
          let without_proof := channel ++ nonce in
          let s := set_final (client_final_message s) without_proof s in
          proof ← getClientProof s;
          encoded ← addAttribute 112 proof false;
          let final := without_proof ++ [44] ++ encoded in
          Ok (set_final final without_proof s, (CONTINUE, final))
  end.

(** The check of the last message of the server *)
Definition step_final (input : bytes) (s : scram) : throws (scram * (error * bytes)) :=
  let s := set_server_final input s in
  decoded ← decodeAttributeList input;
  match decoded with
  | None => Ok (s, (BAD_PARAM, []))
  | Some attributes =>
      if has (attribute 101 attributes) then Ok (s, (FAIL, []))
      else match attribute 118 attributes with
           | None => Ok (s, (BAD_PARAM, []))
           | Some v =>
               signature ← getServerSignature s;
               encoded ← from_base64 (Base64.encode signature false);
               if decide (encoded = v) then Ok (s, (OK, [])) else Ok (s, (FAIL, []))
           end
  end.

Definition scram_step (password input : bytes) (s : scram) : throws (scram * (error * bytes)) :=
  if decide (input = []) then Ok (s, (BAD_PARAM, []))
  else if decide (server_first_message s = []) then step_first password input s
  else step_final input s.
End scram.

(** ** [mechanism.cc], [client.cc], [plain/plain.cc], [oauthbearer/oauthbearer.cc] *)

Inductive Mechanism := SCRAM_SHA512 | SCRAM_SHA256 | SCRAM_SHA1 | PLAIN | OAUTHBEARER.
Global Instance mechanism_eq_dec : EqDecision Mechanism.
Proof. solve_decision. Defined.

Definition mechs : list (bytes * Mechanism) :=
  [(ascii "SCRAM-SHA512", SCRAM_SHA512); (ascii "SCRAM-SHA256", SCRAM_SHA256); (ascii "SCRAM-SHA1", SCRAM_SHA1);
   (ascii "PLAIN", PLAIN); (ascii "OAUTHBEARER", OAUTHBEARER)].

Definition select_mechanism (available_mechanisms : list bytes) : throws Mechanism :=
  match filter (λ nc, nc.1 ∈ available_mechanisms) mechs with
  | (_, code) :: _ => Ok code
  | [] => Err UnknownMechanism
  end.

(** [MechanismBackend] *)
Inductive backend := ScramBackend (s : scram) | PlainBackend | BearerBackend.

(** [ClientContext] *)
Definition new_client_context (mechanisms : list bytes) (nonce : option bytes) : throws backend :=
  mechanism ← select_mechanism mechanisms;
  match mechanism with
  | SCRAM_SHA512 => ScramBackend <$> scram_client ALG_SHA512 nonce
  | SCRAM_SHA256 => ScramBackend <$> scram_client ALG_SHA256 nonce
  | SCRAM_SHA1 => ScramBackend <$> scram_client ALG_SHA1 nonce
  | PLAIN => Ok PlainBackend
  | OAUTHBEARER => Ok BearerBackend
  end.

Definition get_name (b : backend) : bytes :=
  match b with
  | ScramBackend s => match algorithm s with
                      | ALG_SHA512 => ascii "SCRAM-SHA512"
                      | ALG_SHA256 => ascii "SCRAM-SHA256"
                      | ALG_SHA1 => ascii "SCRAM-SHA1"
                      end
  | PlainBackend => ascii "PLAIN"
  | BearerBackend => ascii "OAUTHBEARER"
  end.

(** [username] and [password] are what the callbacks return. *)
Definition plain_start (username password : bytes) : error * bytes := (OK, [0] ++ username ++ [0] ++ password).
Definition oauthbearer_start (password : bytes) : error * bytes := (OK, ascii "n,," ++ [1] ++ ascii "auth=Bearer " ++ password ++ [1; 1]).

Definition sasl_start (username password : bytes) (b : backend) : throws (backend * (error * bytes)) :=
  match b with
  | ScramBackend s => '(s, r) ← scram_start username s; Ok (ScramBackend s, r)
  | PlainBackend => Ok (b, plain_start username password)
  | BearerBackend => Ok (b, oauthbearer_start password)
  end.

Definition plain_step : throws (error * bytes) := Err LogicError.
Definition oauthbearer_step : throws (error * bytes) := Err LogicError.

Definition sasl_step `{OpenSSL} (password input : bytes) (b : backend) : throws (backend * (error * bytes)) :=
  match b with
  | ScramBackend s => '(s, r) ← scram_step password input s; Ok (ScramBackend s, r)
  | PlainBackend => r ← plain_step; Ok (b, r)
  | BearerBackend => r ← oauthbearer_step; Ok (b, r)
  end.
