(* ===== verification/SaslTheorems.v ===== *)
(** * Properties of authentication

    A reference server of RFC 5802, and that the client of [Sasl.v] and the
    server authenticate each other when they share the password. *)

From S2P Require Import Prelude ByteOrder Topology Base64 Platform Sasl.

(** ** The server of RFC 5802 *)

Module Rfc5802.

(** Section 5.1: a comma and an equals sign in a name are [=2C] and [=3D]. *)
Definition escape (name : bytes) : bytes :=
  flat_map (λ c, if decide (c = 44) then ascii "=2C" else if decide (c = 61) then ascii "=3D" else [c]) name.

Fixpoint unescape (text : bytes) : option bytes :=
  match text with
  | [] => Some []
  | c :: text =>
      if decide (c = 61) then
        match text with
        | a :: b :: text =>
            if decide (a = 50 ∧ b = 67) then cons 44 <$> unescape text
            else if decide (a = 51 ∧ b = 68) then cons 61 <$> unescape text
            else None
        | _ => None
        end
      else cons c <$> unescape text
  end.

Fixpoint fields (text : bytes) : list bytes :=
  match text with
  | [] => [[]]
  | c :: text =>
      if decide (c = 44) then [] :: fields text
      else match fields text with f :: fs => (c :: f) :: fs | [] => [[c]] end
  end.

Definition base64 (value : bytes) : bytes := match Base64.encode value false with Ok text => text | _ => [] end.

(** What the server keeps of a password *)
Record credentials := Credentials {
  srv_algorithm : Algorithm;
  srv_salt : bytes;
  srv_iterations : Z;
  srv_stored_key : bytes;
  srv_server_key : bytes;
}.

Section server.
Context `{OpenSSL}.

Definition register (alg : Algorithm) (password slt : bytes) (n : Z) : option credentials :=
  salted ← PKCS5_PBKDF2_HMAC alg password slt n;
  client_key ← HMAC alg salted (ascii "Client Key");
  server_key ← HMAC alg salted (ascii "Server Key");
  Some (Credentials alg slt n (SHA alg client_key) server_key).

(** The name, the combined nonce and the first message, given the nonce of the
    server *)
Definition reply (cr : credentials) (server_nonce client_first : bytes) : option (bytes * bytes * bytes) :=
  match fields client_first with
  | [[110]; []; 110 :: 61 :: name; 114 :: 61 :: nonce] =>
      name ← unescape name;
      let combined := nonce ++ server_nonce in
      Some (name, combined,
        ascii "r=" ++ combined ++ ascii ",s=" ++ base64 (srv_salt cr) ++ ascii ",i=" ++ decimal (srv_iterations cr))
  | _ => None
  end.

(** Verifies the proof of the client; the result is the last message. *)
Definition verify (cr : credentials) (client_first server_first combined client_final : bytes) : option bytes :=
  match fields client_final with
  | [channel; nonce; 112 :: 61 :: proof] =>
      if decide (channel = ascii "c=" ++ base64 (ascii "n,,") ∧ nonce = ascii "r=" ++ combined) then
        match Base64.decode proof with
        | Ok proof =>
            let message := drop 3 client_first ++ [44] ++ server_first ++ [44] ++ channel ++ [44] ++ nonce in
            signature ← HMAC (srv_algorithm cr) (srv_stored_key cr) message;
            let client_key := zip_with Z.lxor proof signature in
            if decide (SHA (srv_algorithm cr) client_key = srv_stored_key cr) then
              server_signature ← HMAC (srv_algorithm cr) (srv_server_key cr) message;
              Some (ascii "v=" ++ base64 server_signature)
            else None
        | _ => None
        end
      else None
  | _ => None
  end.
End server.

Lemma fields_app text rest : 44 ∉ text → fields (text ++ 44 :: rest) = text :: fields rest.
Proof.
  induction text as [|c text IH]; intros Hn; cbn; [done|]. rewrite not_elem_of_cons in Hn. destruct Hn as [Hc Hn].
  rewrite decide_False by done. by rewrite IH.
Qed.

Lemma fields_last text : 44 ∉ text → fields text = [text].
Proof.
  induction text as [|c text IH]; intros Hn; cbn; [done|]. rewrite not_elem_of_cons in Hn. destruct Hn as [Hc Hn].
  rewrite decide_False by done. by rewrite IH.
Qed.

Lemma escape_no_comma name : 44 ∉ escape name.
Proof.
  induction name as [|c name IH]; cbn; [set_solver|]. rewrite elem_of_app. intros [Hc|]; [|done].
  repeat case_decide; cbn in Hc; rewrite ?elem_of_cons, ?elem_of_nil in Hc; naive_solver lia.
Qed.

Lemma unescape_plain c text : c ≠ 61 → unescape (c :: text) = cons c <$> unescape text.
Proof. intros Hc. cbn [unescape]. by rewrite decide_False. Qed.

Lemma unescape_escape name : unescape (escape name) = Some name.
Proof.
  induction name as [|c name IH]; [done|]. cbn [escape flat_map]. fold (escape name). case_decide as H1; [|case_decide as H2].
  - subst c. cbn. by rewrite IH.
  - subst c. cbn. by rewrite IH.
  - cbn [app]. by rewrite unescape_plain, IH.
Qed.
End Rfc5802.

(** ** Searching *)

Lemma find_index_None p (s : bytes) : Forall (λ c, p c = false) s → find_index p s = None.
Proof. induction 1 as [|c s Hc Hs IH]; cbn; [done|]. by rewrite Hc, IH. Qed.

Lemma find_index_app p (s rest : bytes) c : Forall (λ c, p c = false) s → p c = true → find_index p (s ++ c :: rest) = Some (length s).
Proof. intros Hs Hc. induction Hs as [|d s Hd Hs IH]; cbn; [by rewrite Hc|]. by rewrite Hd, IH. Qed.

Lemma find_index_cases p (s : bytes) :
  find_index p s = None ∧ Forall (λ c, p c = false) s ∨
  ∃ a c b, s = a ++ c :: b ∧ Forall (λ c, p c = false) a ∧ p c = true ∧ find_index p s = Some (length a).
Proof.
  induction s as [|c s IH]; [by left|]. destruct (p c) eqn:Hc.
  { right. exists [], c, s. cbn. by rewrite Hc. }
  destruct IH as [[Hi Hs]|(a & d & b & -> & Ha & Hd & Hi)]; cbn; rewrite Hc, Hi.
  - left. split; [done|by constructor].
  - right. exists (c :: a), d, b. split_and!; [done|by constructor|done|done].
Qed.

Lemma find_from_app p (pre s : bytes) : find_from p (pre ++ s) (length pre) = (λ i, (length pre + i)%nat) <$> find_index p s.
Proof. unfold find_from. by rewrite drop_app_length. Qed.

(** ** Names *)

Lemma sasl_prep_ok name : Forall (λ c, 32 ≤ c < 127) name → sasl_prep name = Ok name.
Proof.
  intros Hn. unfold sasl_prep. enough (sasl_prep_check name = Ok ()) as -> by done. induction Hn as [|c name Hc Hn IH]; [done|].
  cbn [sasl_prep_check]. assert (Z.land c 128 = 0) as ->.
  { change 128 with (2 ^ 7). rewrite Z.land_comm. apply Z.bits_inj'. intros i Hi. rewrite Z.land_spec, Z.bits_0.
    destruct (decide (i = 7)) as [->|]; [|by rewrite Z.pow2_bits_false by lia].
    rewrite (Z.bits_above_log2 c 7); [by rewrite andb_false_r|lia|]. apply Z.log2_lt_pow2; lia. }
  cbn. unfold iscntrl. rewrite (proj2 (Z.ltb_ge c 32)), andb_false_r by lia. by rewrite (proj2 (Z.eqb_neq c 127)) by lia.
Qed.

Definition special (c : Z) : bool := (c =? 44) || (c =? 61).

Lemma escape_app a b : Rfc5802.escape (a ++ b) = Rfc5802.escape a ++ Rfc5802.escape b.
Proof. apply flat_map_app. Qed.

Lemma escape_plain a : Forall (λ c, special c = false) a → Rfc5802.escape a = a.
Proof.
  induction 1 as [|c a Hc Ha IH]; [done|]. unfold special in Hc. apply orb_false_iff in Hc as [H1%Z.eqb_neq H2%Z.eqb_neq].
  cbn. rewrite !decide_False by done. cbn. f_equal. apply IH.
Qed.

Lemma encode_username_loop_escape fuel pre rest :
  (length (filter (λ c, special c = true) rest) ≤ fuel)%nat →
  encode_username_loop fuel (pre ++ rest) (length pre) = Ok (pre ++ Rfc5802.escape rest).
Proof.
  revert pre rest. induction fuel as [|fuel IH]; intros pre rest Hf; cbn [encode_username_loop]; rewrite find_from_app;
    fold special; destruct (find_index_cases special rest) as [[-> Hr]|(a & c & b & -> & Ha & Hc & ->)]; cbn [fmap option_fmap option_map];
    try (by rewrite escape_plain); rewrite filter_app, length_app, filter_cons, decide_True in Hf by done; cbn [length] in Hf; [lia|].
  set (esc := if decide (c = 44) then ascii "=2C" else ascii "=3D").
  assert (Hl : (pre ++ a ++ c :: b) !! (length pre + length a)%nat = Some c).
  { rewrite app_assoc, <-length_app. apply list_lookup_middle. done. }
  rewrite Hl. assert ((if decide (Some c = Some 44) then ascii "=2C" else ascii "=3D") = esc) as ->.
  { unfold esc. repeat case_decide; congruence. }
  assert (Hrep : replace_char (pre ++ a ++ c :: b) (length pre + length a) esc = (pre ++ a ++ [61]) ++ drop 1 esc ++ b).
  { unfold replace_char. rewrite (app_assoc pre a), <-length_app, take_app_length.
    replace (length (pre ++ a) + 1)%nat with (length ((pre ++ a) ++ [c])) by (rewrite !length_app; cbn; lia).
    replace ((pre ++ a) ++ c :: b) with (((pre ++ a) ++ [c]) ++ b) by (by rewrite <-(app_assoc _ [c])).
    rewrite drop_app_length, <-!app_assoc. do 2 f_equal. unfold esc. by case_decide. }
  rewrite Hrep. replace (length pre + length a + 1)%nat with (length (pre ++ a ++ [61])) by (rewrite !length_app; cbn; lia).
  rewrite IH.
  - rewrite !escape_app, (escape_plain a), (escape_plain (drop 1 esc)) by (done || (unfold esc; case_decide; repeat constructor)).
    cbn [Rfc5802.escape flat_map]. fold (Rfc5802.escape b). rewrite <-!app_assoc. do 3 f_equal. unfold esc.
    unfold special in Hc. apply orb_true_iff in Hc. rewrite !Z.eqb_eq in Hc. by destruct Hc as [->| ->].
  - assert (filter (λ c, special c = true) (drop 1 esc) = []) as Hnil by (unfold esc; case_decide; reflexivity).
    rewrite filter_app, Hnil. cbn. lia.
Qed.

Lemma encode_username_escape name : encode_username name = Ok (Rfc5802.escape name).
Proof. apply (encode_username_loop_escape _ [] name). apply length_filter. Qed.

(** ** Attributes *)

Section attributes.
Context (pre : bytes) (key : Z) (value : bytes) (attributes : AttributeMap).
Hypotheses (Hkey : key ≠ 61) (Hvalue : 44 ∉ value) (Hnew : attribute key attributes = None).

Lemma attribute_position rest :
  find_from (λ c, c =? 61) (pre ++ key :: 61 :: rest) (length pre) = Some (length pre + 1)%nat ∧
  (pre ++ key :: 61 :: rest) !! length pre = Some key ∧
  drop (length pre + 1 + 1) (pre ++ key :: 61 :: rest) = rest.
Proof using Hkey.
  split_and!.
  - rewrite find_from_app. cbn. by rewrite (proj2 (Z.eqb_neq key 61) Hkey).
  - by apply list_lookup_middle.
  - rewrite <-Nat.add_assoc, <-drop_drop, drop_app_length. done.
Qed.

Lemma plain_value : Forall (λ c, (c =? 44) = false) value.
Proof using Hvalue. rewrite Forall_forall. intros c Hc. apply Z.eqb_neq. by intros ->. Qed.

Lemma decode_attribute_more rest :
  decode_attribute (pre ++ key :: 61 :: value ++ 44 :: rest) (length pre) attributes =
    Some (length (pre ++ key :: 61 :: value ++ [44]), try_emplace key value attributes).
Proof using Hkey Hvalue Hnew.
  destruct (attribute_position (value ++ 44 :: rest)) as (Hf & Hl & Hd). unfold decode_attribute. rewrite Hf. cbn [mbind option_bind].
  rewrite (bool_decide_eq_true_2 _) by lia. cbn [negb]. rewrite Hl. cbn [mbind option_bind]. rewrite Hnew. cbn [has].
  unfold find_from. rewrite Hd, find_index_app; [|apply plain_value|done]. cbn [fmap option_fmap option_map].
  f_equal. f_equal; [rewrite !length_app; cbn; rewrite length_app; cbn; lia|]. f_equal.
  replace (length pre + 1 + 1 + length value - (length pre + 1 + 1))%nat with (length value) by lia. by rewrite take_app_length.
Qed.

Lemma decode_attribute_last :
  decode_attribute (pre ++ key :: 61 :: value) (length pre) attributes =
    Some (length (pre ++ key :: 61 :: value), try_emplace key value attributes).
Proof using Hkey Hvalue Hnew.
  destruct (attribute_position value) as (Hf & Hl & Hd). unfold decode_attribute. rewrite Hf. cbn [mbind option_bind].
  rewrite (bool_decide_eq_true_2 _) by lia. cbn [negb]. rewrite Hl. cbn [mbind option_bind]. rewrite Hnew. cbn [has].
  unfold find_from. rewrite Hd, find_index_None by apply plain_value. done.
Qed.
End attributes.

Lemma attribute_try_emplace k key value attributes : attribute key attributes = None →
  attribute k (try_emplace key value attributes) = if decide (k = key) then Some value else attribute k attributes.
Proof.
  induction attributes as [|[k' v'] attributes IH]; cbn [try_emplace attribute fst snd]; intros Hnew.
  { repeat case_decide; subst; done. }
  destruct (decide (k' = key)) as [->|Hk']; [done|].
  destruct (decide (char_value key < char_value k')); cbn [attribute fst snd].
  - destruct (decide (k = key)) as [->|Hk]; [by rewrite decide_True|by rewrite decide_False by congruence].
  - rewrite IH by done. destruct (decide (k = key)) as [->|Hk]; [by rewrite decide_False|done].
Qed.

(** The text of a list of attributes *)
Fixpoint attributes_text (kvs : list (Z * bytes)) : bytes :=
  match kvs with
  | [] => []
  | [(key, value)] => key :: 61 :: value
  | (key, value) :: kvs => key :: 61 :: value ++ 44 :: attributes_text kvs
  end.

Lemma decode_attributes_text fuel pre kvs attributes :
  kvs ≠ [] → (length kvs ≤ fuel)%nat → NoDup kvs.*1 →
  Forall (λ kv, kv.1 ≠ 61 ∧ (44 ∉ kv.2) ∧ attribute kv.1 attributes = None) kvs →
  decode_attributes fuel (pre ++ attributes_text kvs) (length pre) attributes =
    Ok (Some (foldl (λ a kv, try_emplace kv.1 kv.2 a) attributes kvs)).
Proof.
  revert fuel pre attributes. induction kvs as [|[key value] kvs IH]; intros fuel pre attributes Hne Hf Hnd Hall; [done|].
  apply Forall_cons in Hall as [(Hkey & Hvalue & Hnew) Hall]. cbn [fst snd] in *. apply NoDup_cons in Hnd as [Hnin Hnd].
  destruct fuel as [|fuel]; [cbn in Hf; lia|]. destruct kvs as [|kv kvs].
  - cbn [attributes_text decode_attributes]. rewrite decide_True by (rewrite length_app; cbn; lia).
    rewrite decode_attribute_last by done. cbn. destruct fuel; cbn; by rewrite decide_False by lia.
  - change (attributes_text ((key, value) :: kv :: kvs)) with (key :: 61 :: value ++ 44 :: attributes_text (kv :: kvs)).
    set (text := attributes_text (kv :: kvs)) in *. cbn [decode_attributes]. rewrite decide_True by (rewrite length_app; cbn; lia).
    rewrite decode_attribute_more by done.
    replace (pre ++ key :: 61 :: value ++ 44 :: text) with ((pre ++ key :: 61 :: value ++ [44]) ++ text)
      by (rewrite <-app_assoc; cbn; by rewrite <-app_assoc).
    rewrite IH; [done|done|cbn in *; lia|done|].
    rewrite Forall_forall in Hall |- *. intros kv' Hkv'. destruct (Hall kv' Hkv') as (H1 & H2 & H3). split_and!; [done..|].
    rewrite attribute_try_emplace, decide_False; [done| |done]. intros Heq. apply Hnin. change (key ∈ (kv :: kvs).*1).
    apply list_elem_of_fmap. by exists kv'.
Qed.

Lemma decode_list kvs :
  kvs ≠ [] → NoDup kvs.*1 → Forall (λ kv, kv.1 ≠ 61 ∧ 44 ∉ kv.2) kvs →
  decodeAttributeList (attributes_text kvs) = Ok (Some (foldl (λ a kv, try_emplace kv.1 kv.2 a) [] kvs)).
Proof.
  intros Hne Hnd Hall. unfold decodeAttributeList. apply (decode_attributes_text _ [] kvs []); [done| |done|].
  - clear. induction kvs as [|[k v] [|kv kvs] IH]; cbn [attributes_text length] in *; [lia..|]. rewrite length_app. cbn [length] in *. lia.
  - eapply Forall_impl; [exact Hall|]. naive_solver.
Qed.

(** ** The values of attributes *)

Lemma code_at_alphabet val n c : code_at val n = Ok c → c ≠ 44.
Proof.
  intros Hc. apply at_Ok in Hc as [_ Hc]. apply list_elem_of_lookup_2 in Hc.
  assert (Hall : Forall (λ c, c ≠ 44) codemap) by (apply (bool_decide_unpack _); by vm_compute).
  rewrite Forall_forall in Hall. by apply Hall.
Qed.

Lemma triplet_alphabet s quad : encode_triplet s = Ok quad → 44 ∉ quad.
Proof.
  unfold encode_triplet. intros Hq. repeat (apply bind_Ok in Hq as (? & ? & Hq)). injection Hq as <-.
  repeat match goal with H : code_at _ _ = Ok _ |- _ => apply code_at_alphabet in H end. set_solver.
Qed.

Lemma triplets_alphabet n chunks blob acc out rest :
  44 ∉ acc → encode_triplets false n chunks blob acc = Ok (out, rest) → 44 ∉ out.
Proof.
  revert chunks blob acc. induction n as [|n IH]; intros chunks blob acc Ha; cbn [encode_triplets]; [by intros [= <- _]|].
  intros Hq. apply bind_Ok in Hq as (quad & Hquad & Hq). eapply IH; [|exact Hq]. apply triplet_alphabet in Hquad. set_solver.
Qed.

Lemma rest_alphabet s num out : encode_rest s num = Ok out → 44 ∉ out.
Proof.
  unfold encode_rest. intros Hq. apply bind_Ok in Hq as (val & _ & Hq). apply bind_Ok in Hq as (c0 & H0%code_at_alphabet & Hq).
  apply bind_Ok in Hq as (c1 & H1%code_at_alphabet & Hq). apply bind_Ok in Hq as (c2 & H2 & Hq). injection Hq as <-.
  assert (c2 ≠ 44) by (case_decide; [by eapply code_at_alphabet|by injection H2 as <-]). set_solver.
Qed.

Lemma base64_text blob : bytes_ok blob →
  Base64.encode blob false = Ok (Rfc5802.base64 blob) ∧ Base64.decode (Rfc5802.base64 blob) = Ok blob ∧ 44 ∉ Rfc5802.base64 blob.
Proof.
  intros Hb. destruct (base64_roundtrip blob false Hb) as (text & He & Hd); [by right|]. unfold Rfc5802.base64. rewrite He.
  split_and!; [done..|]. unfold Base64.encode in He. apply bind_Ok in He as ([out rest] & Ht & He). apply triplets_alphabet in Ht; [|set_solver].
  apply bind_Ok in He as (t & Hr & [= <-]). case_decide; [|by injection Hr as <-].
  apply bind_Ok in Hr as (tail & Htail%rest_alphabet & [= <-]). set_solver.
Qed.

Lemma printable_ok value : Forall (λ c, c ≠ 44 ∧ isprint c = true) value → printable_value value = Ok value ∧ 44 ∉ value.
Proof.
  intros Hv. split.
  - unfold printable_value. enough (existsb (λ c, (c =? 44) || negb (isprint c)) value = false) as -> by done.
    induction Hv as [|c value [Hc Hp] Hv IH]; [done|]. cbn. by rewrite IH, Hp, (proj2 (Z.eqb_neq c 44) Hc).
  - rewrite Forall_forall in Hv. intros Hin. by apply Hv in Hin as [].
Qed.

Definition printable (value : bytes) : Prop := Forall (λ c, c ≠ 44 ∧ isprint c = true) value.

Lemma hex_text_printable fuel v acc : 0 ≤ v → printable acc → printable (hex_text fuel v acc).
Proof.
  revert v acc. induction fuel as [|fuel IH]; intros v acc Hv Hacc; [done|]. cbn [hex_text].
  assert (Hc : printable (hex_char (v mod 16) :: acc)).
  { constructor; [|done]. pose proof (Z.mod_pos_bound v 16 ltac:(lia)). unfold hex_char, isprint.
    case_match eqn:Hd; [apply Z.leb_le in Hd|apply Z.leb_gt in Hd]; (split; [lia|]); apply andb_true_iff; rewrite !Z.leb_le; lia. }
  case_decide; [done|]. apply IH; [apply Z.div_pos; lia|done].
Qed.

Lemma to_hex_printable nonce : bytes_ok nonce → printable (to_hex nonce).
Proof.
  intros Hn. unfold to_hex. case_decide; [constructor|]. apply Forall_take. induction Hn as [|c nonce Hc Hn IH]; [constructor|].
  destruct (decide (nonce = [])) as [->|]; [clear IH|specialize (IH ltac:(done))]; cbn [flat_map]; (apply Forall_app; split; [|done || constructor]);
    (apply Forall_app; split; [repeat constructor; done|]); (apply Forall_app; split; [|repeat constructor; done]);
    unfold hex_padded; (apply Forall_app; split; [apply Forall_replicate; done|]);
    (apply hex_text_printable; [unfold char_u32, in_width in *; case_decide; [lia|apply wrap_in_width; lia]|constructor]).
Qed.

Lemma decimal_no_comma n : 0 ≤ n → 44 ∉ decimal n.
Proof.
  intros Hn. unfold decimal. assert (H : ∀ fuel n acc, 0 ≤ n → 44 ∉ acc → 44 ∉ decimal_digits fuel n acc).
  { induction fuel as [|fuel IH]; intros m acc Hm Hacc; [done|]. cbn [decimal_digits]. pose proof (Z.mod_pos_bound m 10 ltac:(lia)).
    assert (44 ∉ 48 + m mod 10 :: acc) by (rewrite not_elem_of_cons; split; [lia|done]).
    case_decide; [done|]. apply IH; [apply Z.div_pos; lia|done]. }
  apply H; [done|set_solver].
Qed.

(** ** Attributes that are written *)

Lemma add_name user more : Forall (λ c, 32 ≤ c < 127) user →
  addAttribute 110 user more = Ok (110 :: 61 :: Rfc5802.escape user ++ (if more then [44] else [])).
Proof. intros Hu. unfold addAttribute. cbn [Z.eqb Pos.eqb]. rewrite sasl_prep_ok by done. cbn [mbind outcome_bind]. by rewrite encode_username_escape. Qed.

Lemma add_nonce nonce more : printable nonce → addAttribute 114 nonce more = Ok (114 :: 61 :: nonce ++ (if more then [44] else [])).
Proof. intros Hn. unfold addAttribute. cbn [Z.eqb Pos.eqb]. by rewrite (proj1 (printable_ok nonce Hn)). Qed.

Lemma add_base64 key value more : key = 99 ∨ key = 112 → bytes_ok value →
  addAttribute key value more = Ok (key :: 61 :: Rfc5802.base64 value ++ (if more then [44] else [])).
Proof. intros Hk Hv. unfold addAttribute. destruct (base64_text value Hv) as (-> & _ & _). by destruct Hk as [->| ->]. Qed.

Lemma xor_bytes_zip ck cs : length ck = length cs → xor_bytes ck cs = Ok (zip_with Z.lxor ck cs).
Proof. revert cs. induction ck as [|k ck IH]; intros [|c cs] Hl; try done. cbn. rewrite IH by (cbn in Hl; lia). done. Qed.

Lemma zip_xor_twice ck cs : length ck = length cs → zip_with Z.lxor (zip_with Z.lxor ck cs) cs = ck.
Proof.
  revert cs. induction ck as [|k ck IH]; intros [|c cs] Hl; try done. cbn in *. rewrite IH by lia.
  by rewrite Z.lxor_assoc, Z.lxor_nilpotent, Z.lxor_0_r.
Qed.

Lemma zip_xor_bytes ck cs : bytes_ok ck → bytes_ok cs → bytes_ok (zip_with Z.lxor ck cs).
Proof.
  intros Hc. revert cs. induction Hc as [|k ck Hk Hc IH]; intros [|c cs] Hs; cbn; [constructor..|]. apply Forall_cons in Hs as [H1 H2].
  constructor; [by apply lxor_in_width|by apply IH].
Qed.

(** ** The functions of OpenSSL *)

Section crypto.
Context `{OpenSSL}.

Lemma CBC_HMAC_eq alg key data : CBC_HMAC alg key data = of_openssl (HMAC alg key data).
Proof. by destruct alg. Qed.

Lemma PBKDF2_HMAC_eq alg pass slt n : PBKDF2_HMAC alg pass slt n = of_openssl (PKCS5_PBKDF2_HMAC alg pass slt (to_int n)).
Proof. by destruct alg. Qed.

Lemma digest_eq alg data : digest alg data = Ok (SHA alg data).
Proof. by destruct alg. Qed.
End crypto.

(** ** The exchange *)

Ltac no_comma := repeat (apply not_elem_of_cons; split; [discriminate|]); first [assumption | apply not_elem_of_nil].

Lemma digest_size_pos a : 0 < digest_size a.
Proof. by destruct a. Qed.

Section exchange.
Context {lib : OpenSSL} {laws : OpenSSLLaws}.
Context (alg : Algorithm) (user password slt : bytes) (n : Z) (nonce server_nonce : bytes).
Hypotheses (Huser : Forall (λ c, 32 ≤ c < 127) user) (Hslt : bytes_ok slt) (Hn : 0 < n < 2 ^ 31).
Hypotheses (Hnonce : bytes_ok nonce) (Hserver : printable server_nonce).

Let combined := to_hex nonce ++ server_nonce.
Let first := ascii "n,," ++ 110 :: 61 :: Rfc5802.escape user ++ [44] ++ 114 :: 61 :: to_hex nonce.
Let server_first := ascii "r=" ++ combined ++ ascii ",s=" ++ Rfc5802.base64 slt ++ ascii ",i=" ++ decimal n.
Let without_proof := 99 :: 61 :: Rfc5802.base64 (ascii "n,,") ++ [44] ++ 114 :: 61 :: combined.
Let message := drop 3 first ++ [44] ++ server_first ++ [44] ++ without_proof.

Lemma combined_printable : printable combined.
Proof using All. apply Forall_app. split; [by apply to_hex_printable|done]. Qed.

Definition started : scram := Scram alg first (drop 3 first) [] [] [] [] (to_hex nonce) [] [] [] 4096.

Lemma start_result s0 : scram_client alg (Some nonce) = Ok s0 → scram_start user s0 = Ok (started, (OK, first)).
Proof using All.
  intros [= <-]. unfold scram_start. cbn [clientNonce]. rewrite add_name by done. cbn [mbind outcome_bind].
  rewrite add_nonce by by apply to_hex_printable. cbn [mbind outcome_bind]. rewrite app_nil_r.
  assert (ascii "n,," ++ (110 :: 61 :: Rfc5802.escape user ++ [44]) ++ 114 :: 61 :: to_hex nonce = first) as -> by (unfold first; cbn; by rewrite <-app_assoc).
  done.
Qed.

Lemma answer_result cr : Rfc5802.srv_salt cr = slt → Rfc5802.srv_iterations cr = n →
  Rfc5802.reply cr server_nonce first = Some (user, combined, server_first).
Proof using All.
  intros Hs Hi. assert (Hf : Rfc5802.fields first = [[110]; []; 110 :: 61 :: Rfc5802.escape user; 114 :: 61 :: to_hex nonce]).
  { change first with ([110] ++ 44 :: [] ++ 44 :: (110 :: 61 :: Rfc5802.escape user) ++ 44 :: 114 :: 61 :: to_hex nonce).
    do 2 rewrite Rfc5802.fields_app by no_comma. rewrite Rfc5802.fields_app.
    - rewrite Rfc5802.fields_last; [done|]. destruct (printable_ok _ (to_hex_printable nonce Hnonce)) as [_ Hc]. no_comma.
    - pose proof (Rfc5802.escape_no_comma user). no_comma. }
  unfold Rfc5802.reply. rewrite Hf, Rfc5802.unescape_escape. cbn [mbind option_bind]. by rewrite Hs, Hi.
Qed.

Lemma decode_server_first :
  decodeAttributeList server_first = Ok (Some [(105, decimal n); (114, combined); (115, Rfc5802.base64 slt)]).
Proof using All.
  assert (Ht : server_first = attributes_text [(114, combined); (115, Rfc5802.base64 slt); (105, decimal n)]).
  { unfold server_first. cbn. by rewrite <-?app_assoc. }
  rewrite Ht, decode_list; [done|done| |].
  - cbn. repeat constructor; no_comma.
  - destruct (base64_text slt Hslt) as (_ & _ & Hb). destruct (printable_ok _ combined_printable) as [_ Hc].
    assert (0 ≤ n) as Hn0 by (destruct Hn; by apply Z.lt_le_incl).
    pose proof (decimal_no_comma n Hn0). repeat constructor; cbn; first [discriminate|assumption].
Qed.

(** After the message of the server has been read *)
Definition salted_state (salted : bytes) : scram :=
  Scram alg first (drop 3 first) [] without_proof server_first [] (to_hex nonce) combined salted slt n.

Context (salted client_key server_key client_signature : bytes).
Hypotheses (Hsalted : PKCS5_PBKDF2_HMAC alg password slt n = Some salted).
Hypotheses (Hck : HMAC alg salted (ascii "Client Key") = Some client_key) (Hsk : HMAC alg salted (ascii "Server Key") = Some server_key).
Hypotheses (Hsig : HMAC alg (SHA alg client_key) message = Some client_signature).
Let proof := zip_with Z.lxor client_key client_signature.
Let final := without_proof ++ [44] ++ 112 :: 61 :: Rfc5802.base64 proof.

Lemma salted_nonempty : salted ≠ [].
Proof using All.
  intros ->. destruct (pbkdf2_size _ _ _ _ _ Hsalted) as [Hz _]. pose proof (digest_size_pos alg). rewrite zsize_nil in Hz. lia.
Qed.

Lemma auth_message s :
  client_first_message_bare s = drop 3 first → server_first_message s = server_first → client_final_message_without_proof s = without_proof →
  getAuthMessage s = Ok message.
Proof using All. intros H1 H2 H3. unfold getAuthMessage. rewrite H1, H2, H3. done. Qed.

Lemma same_length : length client_key = length client_signature.
Proof using All.
  destruct (hmac_size _ _ _ _ Hck) as [H1 _], (hmac_size _ _ _ _ Hsig) as [H2 _]. unfold zsize in *. lia.
Qed.

Lemma client_proof s :
  saltedPassword s = salted → algorithm s = alg → client_first_message_bare s = drop 3 first → server_first_message s = server_first →
  client_final_message_without_proof s = without_proof → getClientProof s = Ok proof.
Proof using All.
  intros H1 H2 H3 H4 H5. unfold getClientProof, getSaltedPassword. rewrite H1, H2, decide_False by apply salted_nonempty.
  cbn [mbind outcome_bind]. rewrite CBC_HMAC_eq, Hck. cbn [of_openssl mbind outcome_bind]. rewrite digest_eq. cbn [mbind outcome_bind].
  rewrite (auth_message s) by done. cbn [mbind outcome_bind]. rewrite CBC_HMAC_eq, Hsig. cbn [of_openssl mbind outcome_bind].
  by rewrite xor_bytes_zip by apply same_length.
Qed.

Lemma proof_bytes : bytes_ok proof.
Proof using All. apply zip_xor_bytes; [by apply (hmac_size _ _ _ _ Hck)|by apply (hmac_size _ _ _ _ Hsig)]. Qed.

Lemma step_first_result :
  scram_step password server_first started = Ok (set_final final without_proof (salted_state salted), (CONTINUE, final)).
Proof using All.
  unfold scram_step. rewrite decide_False by done. rewrite decide_True by done. unfold step_first. rewrite decode_server_first.
  cbn [mbind outcome_bind read_parameters Z.eqb Pos.eqb]. rewrite stoul_decimal by (unfold in_width; lia).
  rewrite wrap_small by (unfold in_width; lia). cbn [read_parameters Z.eqb Pos.eqb].
  destruct (base64_text slt Hslt) as (_ & -> & _). cbn [from_base64 mbind outcome_bind negb].
  unfold generateSaltedPassword. rewrite PBKDF2_HMAC_eq. cbn [set_parameters algorithm salt iterationCount set_server_first started].
  unfold to_int. rewrite decide_True by lia. rewrite Hsalted. cbn [of_openssl negb].
  rewrite (add_base64 99); [|by left|by repeat constructor]. cbn [mbind outcome_bind].
  rewrite add_nonce by apply combined_printable. cbn [mbind outcome_bind]. rewrite app_nil_r.
  replace ((99 :: 61 :: Rfc5802.base64 (ascii "n,,") ++ [44]) ++ 114 :: 61 :: combined) with without_proof by (unfold without_proof; cbn; by rewrite <-app_assoc).
  erewrite client_proof by done. cbn [mbind outcome_bind]. rewrite (add_base64 112); [|by right|apply proof_bytes].
  cbn [mbind outcome_bind]. rewrite app_nil_r. done.
Qed.

Lemma fields_final :
  Rfc5802.fields final = [99 :: 61 :: Rfc5802.base64 (ascii "n,,"); 114 :: 61 :: combined; 112 :: 61 :: Rfc5802.base64 proof].
Proof using All.
  destruct (base64_text proof proof_bytes) as (_ & _ & Hp).
  replace final with ((99 :: 61 :: Rfc5802.base64 (ascii "n,,")) ++ 44 :: (114 :: 61 :: combined) ++ 44 :: 112 :: 61 :: Rfc5802.base64 proof)
    by (unfold final, without_proof; cbn; by rewrite <-!app_assoc).
  destruct (printable_ok _ combined_printable) as [_ Hc].
  rewrite Rfc5802.fields_app by (vm_compute; no_comma). rewrite (Rfc5802.fields_app (114 :: 61 :: combined)) by no_comma.
  by rewrite Rfc5802.fields_last by no_comma.
Qed.

Lemma verify_result signature :
  HMAC alg server_key message = Some signature →
  Rfc5802.verify (Rfc5802.Credentials alg slt n (SHA alg client_key) server_key) first server_first combined final =
    Some (118 :: 61 :: Rfc5802.base64 signature).
Proof using All.
  intros Hss. unfold Rfc5802.verify. rewrite fields_final. cbn [Rfc5802.srv_algorithm Rfc5802.srv_stored_key Rfc5802.srv_server_key].
  rewrite decide_True by done. destruct (base64_text proof proof_bytes) as (_ & -> & _).
  replace (drop 3 first ++ [44] ++ server_first ++ [44] ++ (99 :: 61 :: Rfc5802.base64 (ascii "n,,")) ++ [44] ++ 114 :: 61 :: combined) with message
    by (unfold message, without_proof; cbn; by rewrite <-?app_assoc).
  rewrite Hsig. cbn [mbind option_bind]. unfold proof. rewrite zip_xor_twice by apply same_length. rewrite decide_True by done.
  by rewrite Hss.
Qed.

Lemma server_signature s :
  saltedPassword s = salted → algorithm s = alg → client_first_message_bare s = drop 3 first → server_first_message s = server_first →
  client_final_message_without_proof s = without_proof → getServerSignature s = of_openssl (HMAC alg server_key message).
Proof using All.
  intros H1 H2 H3 H4 H5. unfold getServerSignature, getSaltedPassword. rewrite H1, H2, decide_False by apply salted_nonempty.
  cbn [mbind outcome_bind]. rewrite CBC_HMAC_eq, Hsk. cbn [of_openssl mbind outcome_bind].
  rewrite (auth_message s) by done. cbn [mbind outcome_bind]. apply CBC_HMAC_eq.
Qed.

Lemma step_final_result signature :
  HMAC alg server_key message = Some signature →
  ∃ s, scram_step password (118 :: 61 :: Rfc5802.base64 signature) (set_final final without_proof (salted_state salted)) = Ok (s, (OK, [])).
Proof using All.
  intros Hss. eexists. unfold scram_step. rewrite !decide_False by done. unfold step_final.
  destruct (hmac_size _ _ _ _ Hss) as [_ Hb]. destruct (base64_text signature Hb) as (He & _ & Hc).
  change (118 :: 61 :: Rfc5802.base64 signature) with (attributes_text [(118, Rfc5802.base64 signature)]).
  rewrite decode_list; [|done|cbn; repeat constructor; no_comma|repeat constructor; cbn; first [discriminate|assumption]].
  cbn [mbind outcome_bind foldl try_emplace attribute fst snd]. rewrite decide_False by done. cbn [has]. rewrite decide_True by done.
  erewrite server_signature by done. rewrite Hss. cbn [of_openssl mbind outcome_bind]. rewrite He. cbn [from_base64 mbind outcome_bind].
  by rewrite decide_True.
Qed.
End exchange.

(** A client that knows the password and a server of RFC 5802 that keeps
    the keys derived from it authenticate each other: the server reads the
    name and the nonce of the client, accepts its proof, and the client accepts
    the signature of the server. *)
Theorem scram_exchange {lib : OpenSSL} {laws : OpenSSLLaws} alg user password slt n nonce server_nonce s0 :
  Forall (λ c, 32 ≤ c < 127) user → bytes_ok slt → 0 < n < 2 ^ 31 → bytes_ok nonce → printable server_nonce →
  scram_client alg (Some nonce) = Ok s0 →
  ∃ cr s1 first combined server_first s2 final last s3,
    Rfc5802.register alg password slt n = Some cr ∧
    scram_start user s0 = Ok (s1, (OK, first)) ∧
    Rfc5802.reply cr server_nonce first = Some (user, combined, server_first) ∧
    scram_step password server_first s1 = Ok (s2, (CONTINUE, final)) ∧
    Rfc5802.verify cr first server_first combined final = Some last ∧
    scram_step password last s2 = Ok (s3, (OK, [])).
Proof.
  intros Huser Hslt Hn Hnonce Hserver Hs0.
  destruct (pbkdf2_succeeds alg password slt n) as [salted Hsalted]; [lia|].
  destruct (hmac_succeeds alg salted (ascii "Client Key")) as [ck Hck], (hmac_succeeds alg salted (ascii "Server Key")) as [sk Hsk].
  edestruct (hmac_succeeds alg (SHA alg ck)) as [cs Hcs]. edestruct (hmac_succeeds alg sk) as [sig Hsig].
  edestruct (step_final_result alg user password slt n nonce server_nonce) as [s3 Hs3]; [eassumption..|].
  exists (Rfc5802.Credentials alg slt n (SHA alg ck) sk). do 7 eexists. exists s3. split_and!.
  - unfold Rfc5802.register. rewrite Hsalted. cbn [mbind option_bind]. rewrite Hck. cbn [mbind option_bind]. by rewrite Hsk.
  - eapply start_result; eassumption.
  - apply (answer_result alg user password slt n nonce server_nonce); done.
  - eapply step_first_result; eassumption.
  - eapply verify_result; eassumption.
  - exact Hs3.
Qed.

(** ** Any peer *)

Lemma find_from_bounds p s pos i : find_from p s pos = Some i → (pos ≤ i < length s)%nat.
Proof.
  unfold find_from. destruct (find_index_cases p (drop pos s)) as [[-> _]|(a & c & b & Hs & _ & _ & ->)]; [done|]. intros [= <-].
  apply (f_equal length) in Hs. rewrite length_drop, length_app in Hs. cbn in Hs. lia.
Qed.

Lemma decode_attribute_advances s pos a pos' a' : decode_attribute s pos a = Some (pos', a') → (pos < length s → pos < pos' ≤ length s)%nat.
Proof.
  unfold decode_attribute. intros Hd Hp. destruct (find_from _ s pos) as [equal|] eqn:Heq; [|done]. cbn [mbind option_bind] in Hd.
  apply find_from_bounds in Heq. destruct (negb _); [done|]. destruct (s !! pos); [|done]. cbn [mbind option_bind] in Hd.
  destruct (has _); [done|]. destruct (find_from _ s (equal + 1)) as [comma|] eqn:Hc; injection Hd as <- <-; [apply find_from_bounds in Hc|]; lia.
Qed.

Lemma decode_attributes_defined fuel s pos a : (length s - pos ≤ fuel)%nat → ∃ r, decode_attributes fuel s pos a = Ok r.
Proof.
  revert pos a. induction fuel as [|fuel IH]; intros pos a Hf; cbn [decode_attributes]; (case_decide as Hp; [|by eexists]); [lia|].
  destruct (decode_attribute s pos a) as [[pos' a']|] eqn:Hd; [|by eexists]. apply decode_attribute_advances in Hd; [|done]. apply IH. lia.
Qed.

Lemma decodeAttributeList_Ok s : ∃ r, decodeAttributeList s = Ok r.
Proof. apply decode_attributes_defined. lia. Qed.

Lemma code2val_defined c : defined (code2val c).
Proof. unfold code2val. repeat case_match; done. Qed.

Lemma decode_quad_defined a b c d : defined (decode_quad a b c d).
Proof. unfold decode_quad. repeat (apply bind_defined; [apply code2val_defined || (repeat case_match; done) |intros ? _]); repeat (case_match || apply bind_defined || apply code2val_defined || intros ? || done). Qed.

Lemma decode_chars_defined s : defined (decode_chars s).
Proof.
  induction s as [s IH] using (induction_ltof1 _ (@length Z)). unfold ltof in IH. destruct s as [|c0 s]; [done|]. cbn [decode_chars].
  case_match; [apply IH; cbn; lia|]. destruct s as [|c1 [|c2 [|c3 s]]]; [done..|].
  apply bind_defined; [apply decode_quad_defined|]. intros q _. apply bind_defined; [apply IH; cbn; lia|done].
Qed.

Lemma from_base64_defined {A} (r : outcome invalid_argument A) : defined r → defined (from_base64 r).
Proof. by destruct r. Qed.

Lemma read_parameters_defined attributes s : defined (read_parameters attributes s).
Proof.
  revert s. induction attributes as [|[key value] attributes IH]; intros s; [done|]. cbn [read_parameters].
  destruct (key =? 114); [apply IH|]. destruct (key =? 115).
  { apply bind_defined; [apply from_base64_defined, decode_chars_defined|intros decoded _; apply IH]. }
  destruct (key =? 105); [|done]. destruct (stoul value); [apply IH|done..].
Qed.

Lemma add_nonce_defined nonce more : defined (addAttribute 114 nonce more).
Proof. unfold addAttribute. cbn [Z.eqb Pos.eqb]. unfold printable_value. by destruct (existsb _ _). Qed.

Section any_peer.
Context {lib : OpenSSL} {laws : OpenSSLLaws}.

Lemma of_openssl_defined r : defined (of_openssl r).
Proof. by destruct r. Qed.

Lemma auth_message_defined s : defined (getAuthMessage s).
Proof. unfold getAuthMessage. by repeat case_decide. Qed.

Lemma client_proof_safe s : defined (getClientProof s) ∧ (∀ proof, getClientProof s = Ok proof → bytes_ok proof).
Proof using laws.
  unfold getClientProof, getSaltedPassword. case_decide; [done|]. cbn [mbind outcome_bind]. rewrite CBC_HMAC_eq.
  destruct (HMAC (algorithm s) (saltedPassword s) (ascii "Client Key")) as [ck|] eqn:Hck; [|done]. cbn [of_openssl mbind outcome_bind].
  rewrite digest_eq. cbn [mbind outcome_bind].
  pose proof (auth_message_defined s) as Hm. destruct (getAuthMessage s) as [m| | |]; try done. cbn [mbind outcome_bind].
  rewrite CBC_HMAC_eq. destruct (HMAC (algorithm s) (SHA (algorithm s) ck) m) as [cs|] eqn:Hcs; [|done]. cbn [of_openssl mbind outcome_bind].
  apply hmac_size in Hck as [Hck ?], Hcs as [Hcs ?]. unfold zsize in *. rewrite xor_bytes_zip by lia.
  split; [done|]. intros proof [= <-]. by apply zip_xor_bytes.
Qed.

Lemma server_signature_safe s : defined (getServerSignature s) ∧ (∀ sig, getServerSignature s = Ok sig → bytes_ok sig).
Proof using laws.
  unfold getServerSignature, getSaltedPassword. case_decide; [done|]. cbn [mbind outcome_bind]. rewrite CBC_HMAC_eq.
  destruct (HMAC (algorithm s) (saltedPassword s) _) as [sk|] eqn:Hsk; [|done]. cbn [of_openssl mbind outcome_bind].
  pose proof (auth_message_defined s) as Hm. destruct (getAuthMessage s) as [m| | |]; try done. cbn [mbind outcome_bind].
  rewrite CBC_HMAC_eq. destruct (HMAC (algorithm s) sk m) as [sig|] eqn:Hsig; [|done]. split; [done|]. intros sig' [= <-]. by apply hmac_size in Hsig as [].
Qed.

Lemma step_first_defined password input s : defined (step_first password input s).
Proof using laws.
  unfold step_first. destruct (decodeAttributeList_Ok input) as [[attributes|] ->]; [|done]. cbn [mbind outcome_bind].
  apply bind_defined; [apply read_parameters_defined|]. intros [s1 good] _. case_match; [done|]. case_match; [done|].
  destruct (generateSaltedPassword password s1) as [s2 generated]. case_match; [done|].
  rewrite (add_base64 99); [|by left|by repeat constructor]. cbn [mbind outcome_bind].
  apply bind_defined; [apply add_nonce_defined|]. intros nonce _.
  destruct (client_proof_safe (set_final (client_final_message s2) ((99 :: 61 :: Rfc5802.base64 (ascii "n,,") ++ [44]) ++ nonce) s2)) as [Hd Hb].
  apply bind_defined; [done|]. intros proof Hproof. rewrite (add_base64 112); [done|by right|by apply Hb].
Qed.

Lemma step_final_defined input s : defined (step_final input s).
Proof using laws.
  unfold step_final. destruct (decodeAttributeList_Ok input) as [[attributes|] ->]; [|done]. cbn [mbind outcome_bind].
  case_match; [done|]. case_match; [|done]. destruct (server_signature_safe (set_server_final input s)) as [Hd Hb].
  apply bind_defined; [done|]. intros sig Hsig. destruct (base64_text sig) as (-> & _ & _); [by apply Hb|]. cbn [from_base64 mbind outcome_bind].
  by case_decide.
Qed.
End any_peer.

(** Whatever a peer answers, the client of SCRAM returns a value of [error]
    or throws a C++ exception: no character is read outside the message, and
    the loops over attributes and base 64 end.  An answer to the proof is
    accepted only if it has the signature of the server and no error. *)
Theorem scram_any_peer {lib : OpenSSL} {laws : OpenSSLLaws} password input s :
  defined (scram_step password input s) ∧
  (∀ s' text, scram_step password input s = Ok (s', (OK, text)) →
    ∃ attributes signature v, decodeAttributeList input = Ok (Some attributes) ∧ attribute 101 attributes = None ∧
      getServerSignature s = Ok signature ∧ attribute 118 attributes = Some v ∧ Base64.decode v = Ok signature).
Proof.
  split.
  - unfold scram_step. case_decide; [done|]. case_decide; [apply step_first_defined|apply step_final_defined].
  - intros s' text. unfold scram_step. case_decide; [done|]. case_decide.
    + intros Hs. exfalso. unfold step_first in Hs. apply bind_Ok in Hs as ([attributes|] & _ & Hs); [|done].
      apply bind_Ok in Hs as ([s1 good] & _ & Hs). case_match; [done|]. case_match; [done|].
      destruct (generateSaltedPassword password s1) as [s2 generated]. case_match; [done|].
      by do 4 (apply bind_Ok in Hs as (? & _ & Hs)).
    + unfold step_final. destruct (decodeAttributeList_Ok input) as [[attributes|] Ha]; rewrite Ha; [|done]. cbn [mbind outcome_bind].
      destruct (attribute 101 attributes) eqn:H101; [done|]. cbn [has]. destruct (attribute 118 attributes) as [v|] eqn:H118; [|done].
      intros Hs. apply bind_Ok in Hs as (signature & Hsig & Hs). pose proof (proj2 (server_signature_safe _) _ Hsig) as Hb.
      destruct (base64_text signature Hb) as (He & Hd & _). rewrite He in Hs. cbn [from_base64 mbind outcome_bind] in Hs.
      case_decide as Hv; [|done]. exists attributes, signature, v. split_and!; [done..|exact Hsig|done|by rewrite <-Hv].
Qed.

(** ** Instances *)

Definition checksum (alg : Algorithm) (data : bytes) : bytes := replicate (Z.to_nat (digest_size alg)) (u8 (foldr Z.add 0 data)).

(** A library that satisfies the laws *)
#[local] Instance checksums : OpenSSL := {|
  HMAC alg key data := Some (checksum alg (key ++ data));
  PKCS5_PBKDF2_HMAC alg pass salt n := if decide (0 < n) then Some (checksum alg (pass ++ salt ++ [n])) else None;
  SHA := checksum;
|}.

Lemma checksum_size alg data : zsize (checksum alg data) = digest_size alg ∧ bytes_ok (checksum alg data).
Proof.
  unfold checksum. rewrite zsize_replicate. split; [by destruct alg|]. apply Forall_replicate, wrap_in_width. lia.
Qed.

#[local] Instance checksums_laws : OpenSSLLaws.
Proof.
  split; cbn; intros.
  - by eexists.
  - simplify_eq. apply checksum_size.
  - apply checksum_size.
  - rewrite decide_True by done. by eexists.
  - by rewrite decide_False by lia.
  - case_decide; simplify_eq. apply checksum_size.
Qed.

Definition example_user : bytes := ascii "us,er=1".
Definition example_state : scram := Scram ALG_SHA256 [] [] [] [] [] [] (to_hex [1; 200]) [] [] [] 4096.

Lemma scram_exchange_witness :
  ∃ cr s1 first combined server_first s2 final last s3,
    Rfc5802.register ALG_SHA256 (ascii "pass") [1; 2; 3] 4096 = Some cr ∧
    scram_start example_user example_state = Ok (s1, (OK, first)) ∧
    Rfc5802.reply cr (ascii "server") first = Some (example_user, combined, server_first) ∧
    scram_step (ascii "pass") server_first s1 = Ok (s2, (CONTINUE, final)) ∧
    Rfc5802.verify cr first server_first combined final = Some last ∧
    scram_step (ascii "pass") last s2 = Ok (s3, (OK, [])).
Proof.
  apply (scram_exchange ALG_SHA256 example_user (ascii "pass") [1; 2; 3] 4096 [1; 200] (ascii "server") example_state);
    [apply (bool_decide_unpack _); by vm_compute|apply (bool_decide_unpack _); by vm_compute|lia|
     apply (bool_decide_unpack _); by vm_compute|apply (bool_decide_unpack _); by vm_compute|reflexivity].
Defined.

Definition example_started : scram := match scram_start example_user example_state with Ok (s, _) => s | _ => example_state end.
Definition example_answered : scram :=
  match scram_step (ascii "pass") (ascii "r=other,s=AQID,i=4096") example_started with Ok (s, _) => s | _ => example_state end.
Definition example_last : bytes :=
  ascii "v=" ++ match getServerSignature example_answered with Ok s => Rfc5802.base64 s | _ => [] end.

Lemma scram_any_peer_witness :
  (∃ s, scram_step (ascii "pass") example_last example_answered = Ok (s, (OK, []))) ∧
  ∃ attributes signature v, decodeAttributeList example_last = Ok (Some attributes) ∧ attribute 101 attributes = None ∧
    getServerSignature example_answered = Ok signature ∧ attribute 118 attributes = Some v ∧ Base64.decode v = Ok signature.
Proof.
  assert (H : ∃ s, scram_step (ascii "pass") example_last example_answered = Ok (s, (OK, []))) by (eexists; by vm_compute).
  split; [exact H|]. destruct H as [s Hs]. exact (proj2 (scram_any_peer (ascii "pass") example_last example_answered) s [] Hs).
Defined.

(** The nonce of the server is not compared with the one of the client, whose
    continuation it has to be (RFC 5802, section 5.1). *)
Lemma foreign_nonce_accepted :
  ∃ s final, scram_step (ascii "pass") (ascii "r=other,s=AQID,i=4096") example_started = Ok (s, (CONTINUE, final)).
Proof. do 2 eexists. by vm_compute. Qed.

(** A salt that is not base 64 is an exception, and not [BAD_PARAM]. *)
Lemma bad_salt_throws : scram_step (ascii "pass") (ascii "r=other,s=A,i=4096") example_started = Err InvalidArgument.
Proof. by vm_compute. Qed.

(** The count of iterations is truncated to 32 bits, and a negative count is a
    large one. *)
Lemma iterations_truncated : ∃ s r, scram_step (ascii "pass") (ascii "r=other,s=AQID,i=4294967297") example_started = Ok (s, r) ∧ iterationCount s = 1.
Proof. do 2 eexists. split; by vm_compute. Qed.

(** ** Which mechanism is chosen *)

(** SCRAM is preferred to PLAIN, whatever the order of the list. *)
Theorem strongest_mechanism mechanisms m :
  select_mechanism mechanisms = Ok m → m = PLAIN →
  ∀ name, name ∈ [ascii "SCRAM-SHA512"; ascii "SCRAM-SHA256"; ascii "SCRAM-SHA1"] → name ∉ mechanisms.
Proof.
  unfold select_mechanism, mechs. intros Hm -> name Hname Hin. rewrite !filter_cons in Hm. cbn [fst] in Hm.
  repeat case_decide; try done. set_solver.
Qed.

(** The second message of PLAIN or OAUTHBEARER is an exception. *)
Lemma plain_does_not_step password input : sasl_step password input PlainBackend = Err LogicError ∧ sasl_step password input BearerBackend = Err LogicError.
Proof. done. Qed.
