(* ===== verification/Websocket.v ===== *)
(** * The web socket codec: [core/websocket_codec.cxx]

    The frames of RFC 6455, the opening handshake and the state machine that
    [feed] drives.  The HTTP parser (llhttp) and SHA-1 are third-party code:
    the first is the class [HttpParser], the second a parameter of
    [signature_is_valid].  Random keys are arguments. *)

From S2P Require Import Prelude ByteOrder Base64.

(** ** Constants *)

Definition flag_fin : Z := 128.
Definition flag_mask : Z := 128.
Definition reserved_bit_mask : Z := 112.
Definition opcode_mask : Z := 15.
Definition payload_length_7_mask : Z := 127.

Definition opcode_continuation : Z := 0.
Definition opcode_text : Z := 1.
Definition opcode_binary : Z := 2.
Definition opcode_close : Z := 8.
Definition opcode_ping : Z := 9.
Definition opcode_pong : Z := 10.

Definition is_data_frame (opcode : Z) : bool := bool_decide (opcode = opcode_text ∨ opcode = opcode_binary).
Definition is_control_frame (opcode : Z) : bool :=
  bool_decide (opcode = opcode_close ∨ opcode = opcode_ping ∨ opcode = opcode_pong).

(** The texts given to [on_error]. *)
Inductive decoding_error := reserved_bit_used | fragmented_control_frame | expected_continuation_frame | control_frame_too_long.
Inductive ws_error :=
  | decoding_failed (e : decoding_error)
  | unexpected_continuation_frame
  | unexpected_frame_type (type : Z)
  | failed_to_parse_http (errno : Z)
  | response_status_must_be_101 (status : Z) (message : bytes)
  | no_connection_upgrade
  | no_upgrade_websocket
  | invalid_accept_key.

(** [ws_fault] marks the programs that have no [Err] of their own. *)
Abbreviation result := (outcome invalid_argument).

(** ** Frames *)

(** [mask_payload_data]: the payload afterwards. *)
Definition mask_payload_data (masking_key payload : bytes) : bytes :=
  imap (λ i b, Z.lxor b (masking_key !!! (i `mod` length masking_key)%nat)) payload.

Definition encode_payload_length (length : Z) : bytes :=
  if decide (length ≤ 125) then [Z.lor (u8 length) flag_mask]
  else if decide (length ≤ 65535) then
    [Z.lor 126 flag_mask; Z.land (Z.shiftr length 8) 255; Z.land length 255]
  else
    [Z.lor 127 flag_mask;
     Z.land (Z.shiftr length 56) 255; Z.land (Z.shiftr length 48) 255; Z.land (Z.shiftr length 40) 255;
     Z.land (Z.shiftr length 32) 255; Z.land (Z.shiftr length 24) 255; Z.land (Z.shiftr length 16) 255;
     Z.land (Z.shiftr length 8) 255; Z.land length 255].

Definition encode_frame (masking_key : bytes) (opcode : Z) (message : bytes) : bytes :=
  [Z.lor opcode flag_fin] ++ encode_payload_length (zsize message) ++ masking_key ++
  mask_payload_data masking_key message.

(** [memcpy] into the integer, then the reversal of its bytes. *)
Definition decode_uint64 (data : bytes) : Z :=
  let result := le_value data in
  let field m := Z.land result m in
  Z.lor (Z.lor (Z.lor (Z.lor (Z.lor (Z.lor (Z.lor
    (u64 (Z.shiftl (field 0xFF) 56)) (u64 (Z.shiftl (field 0xFF00) 40)))
    (u64 (Z.shiftl (field 0xFF0000) 24))) (u64 (Z.shiftl (field 0xFF000000) 8)))
    (Z.shiftr (field 0xFF00000000) 8)) (Z.shiftr (field 0xFF0000000000) 24))
    (Z.shiftr (field 0xFF000000000000) 40)) (Z.shiftr (field 0xFF00000000000000) 56).

Definition decode_uint16 (data : bytes) : Z :=
  let result := le_value data in u16 (Z.lor (Z.shiftl result 8) (Z.shiftr result 8)).

Record decoded_frame := DecodedFrame {
  frame_type : Z;
  frame_payload : bytes;
  consumed_bytes : Z;
  expected_continuation : bool;
}.

Inductive decode_status :=
  | Decoded (frame : decoded_frame)
  | Decoding_error (e : decoding_error)
  | Need_more_data.

(** [data.subspan(offset)], whose contract is that the offset is in the span. *)
Definition subspan (data : bytes) (offset : Z) : result bytes := range data offset (zsize data - offset).

(** The lengths that the second byte announces, unless more bytes are needed. *)
Definition frame_lengths (data : bytes) (length_7 : Z) : result (option (Z * Z)) :=
  if decide (length_7 = 127) then
    if decide (zsize data < 10) then Ok None
    else field ← range data 2 8; Ok (Some (10, decode_uint64 field))
  else if decide (length_7 = 126) then
    if decide (zsize data < 4) then Ok None
    else field ← range data 2 2; Ok (Some (4, decode_uint16 field))
  else Ok (Some (2, length_7)).

Definition masking_key_size : Z := 4.

Definition decode_frame (data : bytes) (expected_continuation : bool) : result decode_status :=
  first_byte ← at_ data 0;
  if decide (Z.land first_byte reserved_bit_mask ≠ 0) then Ok (Decoding_error reserved_bit_used)
  else
    let expect_more := bool_decide (Z.land first_byte flag_fin = 0) in
    let frame_type := Z.land first_byte opcode_mask in
    if expect_more && is_control_frame frame_type then Ok (Decoding_error fragmented_control_frame)
    else if is_data_frame frame_type && expected_continuation then Ok (Decoding_error expected_continuation_frame)
    else
      second_byte ← at_ data 1;
      let masked := negb (bool_decide (Z.land second_byte flag_mask = 0)) in
      let length_7 := Z.land second_byte payload_length_7_mask in
      if is_control_frame frame_type && bool_decide (125 < length_7) then Ok (Decoding_error control_frame_too_long)
      else
        lengths ← frame_lengths data length_7;
        match lengths with
        | None => Ok Need_more_data
        | Some (header_length, payload_length) =>
            if decide (zsize data < u64 (header_length + payload_length + (if masked then masking_key_size else 0)))
            then Ok Need_more_data
            else
              payload ← subspan data header_length;
              '(payload, consumed) ←
                (if masked then
                   masking_key ← range data header_length masking_key_size;
                   payload ← subspan data (header_length + zsize masking_key);
                   Ok (mask_payload_data masking_key payload, header_length + zsize masking_key)
                 else Ok (payload, header_length));
              Ok (Decoded (DecodedFrame frame_type payload (consumed + zsize payload) expect_more))
        end.

(** ** Callbacks *)

(** The members of [websocket_callbacks] that a call of [feed] invokes. *)
Inductive event :=
  | on_text (payload : bytes)
  | on_binary (payload : bytes)
  | on_ping (payload : bytes)
  | on_pong (payload : bytes)
  | on_close (payload : bytes)
  | on_ready
  | on_error (message : ws_error).

(** ** Handlers *)

Record partial_frame := PartialFrame { partial_type : Z; partial_payload : bytes }.

Record data_state := DataState { ds_buffer : bytes; ds_partial : option partial_frame }.

(** What a callback of llhttp is called with. *)
Inductive http_event :=
  | http_status (status_code : Z) (text : bytes)
  | http_header_field (text : bytes)
  | http_header_value (text : bytes)
  | http_body (text : bytes)
  | http_message_complete.

(** [llhttp_errno]: the two values the code compares with, and the others. *)
Inductive llhttp_errno := HPE_OK | HPE_PAUSED_UPGRADE | HPE_OTHER (errno : Z).

(** [llhttp_execute]: the parser afterwards, the callbacks it invoked, its
    result and, as an offset, what [llhttp_get_error_pos] returns. *)
Class HttpParser := {
  llhttp : Type;
  llhttp_init : llhttp;
  llhttp_execute : llhttp → bytes → llhttp * list http_event * llhttp_errno * Z;
}.

Section handlers.
Context `{HttpParser}.

Record handshake := Handshake {
  hs_parser : llhttp;
  hs_header_field : bytes;
  hs_complete : bool;
  hs_status_code : Z;
  hs_status_message : bytes;
  hs_headers : gmap bytes bytes;
  hs_body : bytes;
}.

(** [open_handshake::open_handshake] *)
Definition open_handshake : handshake := Handshake llhttp_init [] false 0 [] ∅ [].

Inductive handler :=
  | handshake_handler (h : handshake)
  | data_handler (d : data_state)
  | error_handler (message : ws_error).

(** [std::tolower] in the "C" locale. *)
Definition tolower (c : Z) : Z := if decide (65 ≤ c ≤ 90) then c + 32 else c.

Definition case_insensitive_equals (str1 str2 : bytes) : bool :=
  if decide (zsize str1 ≠ zsize str2) then false
  else bool_decide (map tolower str1 = map tolower str2).

(** The callbacks of the handshake. *)
Definition run_http_event (h : handshake) (e : http_event) : handshake :=
  match e with
  | http_status code text =>
      Handshake (hs_parser h) (hs_header_field h) (hs_complete h) code text (hs_headers h) (hs_body h)
  | http_header_field text =>
      Handshake (hs_parser h) (map tolower text) (hs_complete h) (hs_status_code h) (hs_status_message h) (hs_headers h) (hs_body h)
  | http_header_value text =>
      Handshake (hs_parser h) (hs_header_field h) (hs_complete h) (hs_status_code h) (hs_status_message h)
        (<[hs_header_field h := text]> (hs_headers h)) (hs_body h)
  | http_body text =>
      Handshake (hs_parser h) (hs_header_field h) (hs_complete h) (hs_status_code h) (hs_status_message h) (hs_headers h)
        (hs_body h ++ text)
  | http_message_complete =>
      Handshake (hs_parser h) (hs_header_field h) true (hs_status_code h) (hs_status_message h) (hs_headers h) (hs_body h)
  end.

(** [headers_[name]]: a missing header is added with an empty value. *)
Definition header (h : handshake) (name : bytes) : bytes := default [] (hs_headers h !! name).

(** [session_key_] of the codec, and SHA-1. *)
Context (session_key : bytes) (sha1 : bytes → bytes).

Definition websocket_guid : bytes := ascii "258EAFA5-E914-47DA-95CA-C5AB0DC85B11".

Definition signature_is_valid (signature : bytes) : result bool :=
  text ← encode (sha1 (session_key ++ websocket_guid)) false;
  Ok (bool_decide (text = signature)).

(** A new handler, with the callback its constructor invokes. *)
Definition make_error_handler (message : ws_error) : handler * list event := (error_handler message, [on_error message]).
Definition make_data_handler (remaining : bytes) : handler * list event :=
  (data_handler (DataState remaining None), [on_ready]).

(** [open_handshake::feed]: the handler afterwards. *)
Definition feed_handshake (h : handshake) (data : bytes) : result (handler * list event) :=
  let '(parser, events, error, error_pos) := llhttp_execute (hs_parser h) data in
  let h := foldl run_http_event
             (Handshake parser (hs_header_field h) (hs_complete h) (hs_status_code h) (hs_status_message h)
                (hs_headers h) (hs_body h)) events in
  match error with
  | HPE_OTHER errno => Ok (make_error_handler (failed_to_parse_http errno))
  | _ =>
      if hs_complete h then
        if decide (hs_status_code h ≠ 101) then
          Ok (make_error_handler (response_status_must_be_101 (hs_status_code h) (hs_status_message h)))
        else if negb (case_insensitive_equals (header h (ascii "connection")) (ascii "upgrade")) then
          Ok (make_error_handler no_connection_upgrade)
        else if negb (case_insensitive_equals (header h (ascii "upgrade")) (ascii "websocket")) then
          Ok (make_error_handler no_upgrade_websocket)
        else
          valid ← signature_is_valid (header h (ascii "sec-websocket-accept"));
          if negb valid then Ok (make_error_handler invalid_accept_key)
          else
            match error with
            | HPE_PAUSED_UPGRADE => remaining ← subspan data error_pos; Ok (make_data_handler remaining)
            | _ => Ok (make_data_handler [])
            end
      else Ok (handshake_handler h, [])
  end.

(** One frame of [data_handler::feed]: the callbacks, and the partial
    response afterwards or the error that ends the loop. *)
Definition on_frame (partial : option partial_frame) (frame : decoded_frame) :
    list event * (option partial_frame + ws_error) :=
  let data_frame on_data :=
    if expected_continuation frame
    then ([], inl (Some (PartialFrame (frame_type frame) (frame_payload frame))))
    else ([on_data (frame_payload frame)], inl partial) in
  if decide (frame_type frame = opcode_text) then data_frame on_text
  else if decide (frame_type frame = opcode_binary) then data_frame on_binary
  else if decide (frame_type frame = opcode_close) then ([on_close (frame_payload frame)], inl partial)
  else if decide (frame_type frame = opcode_ping) then ([on_ping (frame_payload frame)], inl partial)
  else if decide (frame_type frame = opcode_pong) then ([on_pong (frame_payload frame)], inl partial)
  else if decide (frame_type frame = opcode_continuation) then
    match partial with
    | Some response =>
        if expected_continuation frame
        then ([], inl (Some (PartialFrame (partial_type response) (partial_payload response ++ frame_payload frame))))
        else if decide (partial_type response = opcode_text)
             then ([on_text (partial_payload response)], inl partial)
             else ([on_binary (partial_payload response)], inl partial)
    | None => ([], inr unexpected_continuation_frame)
    end
  else ([], inr (unexpected_frame_type (frame_type frame))).

(** The loop of [data_handler::feed]; [events] are the callbacks so far. *)
Fixpoint feed_loop (fuel : nat) (d : data_state) (data : bytes) (events : list event) : result (handler * list event) :=
  match fuel with
  | O => Diverge
  | S fuel =>
      if decide (data = []) then Ok (data_handler d, events)
      else
        status ← decode_frame data (has (ds_partial d));
        match status with
        | Decoding_error e => let '(h, more) := make_error_handler (decoding_failed e) in Ok (h, events ++ more)
        | Need_more_data => Ok (data_handler (DataState (ds_buffer d ++ data) (ds_partial d)), events)
        | Decoded frame =>
            let '(more, next) := on_frame (ds_partial d) frame in
            match next with
            | inr e => let '(h, last) := make_error_handler e in Ok (h, events ++ more ++ last)
            | inl partial =>
                data ← subspan data (consumed_bytes frame);
                feed_loop fuel (DataState (ds_buffer d) partial) data (events ++ more)
            end
        end
  end.

(** [data_handler::feed] *)
Definition feed_data (d : data_state) (data : bytes) : result (handler * list event) :=
  let '(d, data) :=
    if decide (ds_buffer d ≠ []) then (DataState [] (ds_partial d), ds_buffer d ++ data) else (d, data) in
  feed_loop (S (length data)) d data [].

(** [websocket_codec::feed] *)
Definition feed (h : handler) (chunk : bytes) : result (handler * list event) :=
  match h with
  | handshake_handler h => feed_handshake h chunk
  | data_handler d => feed_data d chunk
  | error_handler message => Ok (h, [on_error message])
  end.

Fixpoint feed_all (h : handler) (chunks : list bytes) : result (handler * list event) :=
  match chunks with
  | [] => Ok (h, [])
  | chunk :: chunks =>
      '(h, events) ← feed h chunk; '(h, more) ← feed_all h chunks; Ok (h, events ++ more)
  end.
End handlers.
