(* ===== verification/WebsocketProofs.v ===== *)
(** * The web socket codec: theorems

    Frames that the codec writes are read back however they are cut into
    chunks, the loop of [feed] handles at most one frame, and what the decoder
    does with several frames in one chunk, with fragments, with a single byte
    and with lengths close to the width of [std::size_t]. *)

From S2P Require Import Prelude ByteOrder Base64 Websocket.

(** ** Lengths *)

Lemma land_field v i :
  0 ≤ i → Z.land v (Z.shiftl (Z.ones 8) (8 * i)) = v / 2 ^ (8 * i) mod 2 ^ 8 * 2 ^ (8 * i).
Proof. intros. by rewrite land_mask by lia. Qed.

(** Appending a byte below the ones that are there. *)
Lemma lor_next m b k : in_width 8 b → 0 ≤ k → Z.lor (m * 2 ^ (k + 8)) (b * 2 ^ k) = (m * 2 ^ 8 + b) * 2 ^ k.
Proof.
  intros Hb Hk. rewrite lor_mul_add'; [rewrite Z.pow_add_r by lia; lia| |lia].
  unfold in_width in *. rewrite Z.pow_add_r by lia. nia.
Qed.

Lemma decode_uint64_be bs : bytes_ok bs → length bs = 8%nat → decode_uint64 bs = be_value bs.
Proof.
  intros Hbs Hl. do 9 (destruct bs as [|? bs]; try done). clear Hl.
  unfold decode_uint64. cbv zeta. set (v := le_value _).
  change 0xFF with (Z.shiftl (Z.ones 8) (8 * 0)). change 0xFF00 with (Z.shiftl (Z.ones 8) (8 * 1)).
  change 0xFF0000 with (Z.shiftl (Z.ones 8) (8 * 2)). change 0xFF000000 with (Z.shiftl (Z.ones 8) (8 * 3)).
  change 0xFF00000000 with (Z.shiftl (Z.ones 8) (8 * 4)). change 0xFF0000000000 with (Z.shiftl (Z.ones 8) (8 * 5)).
  change 0xFF000000000000 with (Z.shiftl (Z.ones 8) (8 * 6)).
  change 0xFF00000000000000 with (Z.shiftl (Z.ones 8) (8 * 7)).
  rewrite !land_field by lia.
  decompose_Forall_hyps.
  assert (Hv : v = z + z0 * 2 ^ 8 + z1 * 2 ^ 16 + z2 * 2 ^ 24 + z3 * 2 ^ 32 + z4 * 2 ^ 40 + z5 * 2 ^ 48 + z6 * 2 ^ 56).
  { unfold v, le_value. simpl rev. rewrite !be_value_cons, be_value_nil, !zsize_cons, zsize_nil. lia. }
  clearbody v.
  assert (F0 : v / 2 ^ (8 * 0) mod 2 ^ 8 = z) by width_lia. assert (F1 : v / 2 ^ (8 * 1) mod 2 ^ 8 = z0) by width_lia.
  assert (F2 : v / 2 ^ (8 * 2) mod 2 ^ 8 = z1) by width_lia. assert (F3 : v / 2 ^ (8 * 3) mod 2 ^ 8 = z2) by width_lia.
  assert (F4 : v / 2 ^ (8 * 4) mod 2 ^ 8 = z3) by width_lia. assert (F5 : v / 2 ^ (8 * 5) mod 2 ^ 8 = z4) by width_lia.
  assert (F6 : v / 2 ^ (8 * 6) mod 2 ^ 8 = z5) by width_lia. assert (F7 : v / 2 ^ (8 * 7) mod 2 ^ 8 = z6) by width_lia.
  rewrite F0, F1, F2, F3, F4, F5, F6, F7, !Z.shiftl_mul_pow2, !Z.shiftr_div_pow2 by lia. clear F0 F1 F2 F3 F4 F5 F6 F7.
  replace (u64 (z * 2 ^ (8 * 0) * 2 ^ 56)) with (z * 2 ^ (48 + 8)) by width_lia.
  replace (u64 (z0 * 2 ^ (8 * 1) * 2 ^ 40)) with (z0 * 2 ^ 48) by width_lia.
  replace (u64 (z1 * 2 ^ (8 * 2) * 2 ^ 24)) with (z1 * 2 ^ 40) by width_lia.
  replace (u64 (z2 * 2 ^ (8 * 3) * 2 ^ 8)) with (z2 * 2 ^ 32) by width_lia.
  replace (z3 * 2 ^ (8 * 4) / 2 ^ 8) with (z3 * 2 ^ 24) by width_lia.
  replace (z4 * 2 ^ (8 * 5) / 2 ^ 24) with (z4 * 2 ^ 16) by width_lia.
  replace (z5 * 2 ^ (8 * 6) / 2 ^ 40) with (z5 * 2 ^ 8) by width_lia.
  replace (z6 * 2 ^ (8 * 7) / 2 ^ 56) with (z6 * 2 ^ 0) by width_lia.
  rewrite (lor_next _ _ 48) by done. rewrite (lor_next _ _ 40) by done. rewrite (lor_next _ _ 32) by done.
  rewrite (lor_next _ _ 24) by done. rewrite (lor_next _ _ 16) by done. rewrite (lor_next _ _ 8) by done.
  rewrite (lor_next _ _ 0) by done. unfold be_value. cbn [be_value_acc]. lia.
Qed.

Lemma decode_uint16_be bs : bytes_ok bs → length bs = 2%nat → decode_uint16 bs = be_value bs.
Proof.
  intros Hbs Hl. rewrite <-(byte_swap16_le bs Hbs Hl).
  assert (Hv : is_u16 (le_value bs)).
  { pose proof (le_value_bound bs Hbs) as Hb. unfold zsize in Hb. by rewrite Hl in Hb. }
  rewrite byte_swap16_spec by done. unfold decode_uint16. cbv zeta.
  rewrite Z.shiftl_mul_pow2, Z.shiftr_div_pow2 by lia. rewrite lor_mul_add' by width_lia. width_lia.
Qed.

(** ** Frames on the wire *)

(** The length field of a frame, with the mask bit. *)
Definition length_field (masked : bool) (n : Z) : bytes :=
  let bit := if masked then 128 else 0 in
  if decide (n ≤ 125) then [bit + n]
  else if decide (n ≤ 65535) then (bit + 126) :: be_bytes 2 n
  else (bit + 127) :: be_bytes 8 n.

(** RFC 6455, 5.2: a frame with the given first byte, key and payload. *)
Definition wire_frame (first : Z) (key : option bytes) (message : bytes) : bytes :=
  first :: length_field (has key) (zsize message) ++
  match key with None => message | Some key => key ++ mask_payload_data key message end.

Lemma encode_payload_length_spec n : 0 ≤ n < 2 ^ 64 → encode_payload_length n = length_field true n.
Proof.
  intros Hn. unfold encode_payload_length, length_field.
  assert (Hb : ∀ a, Z.land a 255 = u8 a) by (intros; apply (land_ones_mod a 8); lia).
  rewrite !Hb. repeat case_decide; [|by rewrite <-be_bytes_2|].
  - rewrite wrap_small by width_lia. f_equal. unfold flag_mask. change 128 with (1 * 2 ^ 7).
    rewrite lor_mul_add by width_lia. lia.
  - replace 255 with 255 by done. f_equal. rewrite <-be_bytes_8. done.
Qed.

Lemma encode_frame_wire key opcode message :
  0 ≤ opcode < 16 → zsize message < 2 ^ 64 →
  encode_frame key opcode message = wire_frame (128 + opcode) (Some key) message.
Proof.
  intros Ho Hn. unfold encode_frame, wire_frame. rewrite encode_payload_length_spec by size_lia.
  cbn [app has]. f_equal. unfold flag_fin. change 128 with (1 * 2 ^ 7). rewrite lor_mul_add by width_lia. lia.
Qed.

(** ** Masking *)

Lemma mask_involutive key payload : mask_payload_data key (mask_payload_data key payload) = payload.
Proof.
  unfold mask_payload_data. apply list_eq. intros i. rewrite !list_lookup_imap.
  destruct (payload !! i) as [x|]; [|done]. cbn. by rewrite Z.lxor_assoc, Z.lxor_nilpotent, Z.lxor_0_r.
Qed.

Lemma zsize_mask key payload : zsize (mask_payload_data key payload) = zsize payload.
Proof. unfold zsize, mask_payload_data. by rewrite length_imap. Qed.

Lemma length_field_shape m n :
  0 ≤ n < 2 ^ 64 →
  ∃ l7 ext, length_field m n = ((if m then 128 else 0) + l7) :: ext ∧ bytes_ok ext ∧
    ((l7 = n ∧ n ≤ 125 ∧ ext = []) ∨ (l7 = 126 ∧ 125 < n < 2 ^ 16 ∧ ext = be_bytes 2 n) ∨
     (l7 = 127 ∧ 2 ^ 16 ≤ n ∧ ext = be_bytes 8 n)).
Proof.
  intros Hn. unfold length_field. repeat case_decide; do 2 eexists; (split; [reflexivity|]).
  - split; [constructor|]. auto.
  - split; [apply be_bytes_ok|]. right; left. split_and!; [done|lia..|done].
  - split; [apply be_bytes_ok|]. right; right. split_and!; [done|lia|done].
Qed.

Lemma land_127 (m : bool) l7 : 0 ≤ l7 < 128 → Z.land ((if m then 128 else 0) + l7) payload_length_7_mask = l7.
Proof.
  intros Hl. unfold payload_length_7_mask. change 127 with (2 ^ 7 - 1). rewrite land_ones_mod by lia.
  destruct m; width_lia.
Qed.

Lemma land_128 (m : bool) l7 : 0 ≤ l7 < 128 → Z.land ((if m then 128 else 0) + l7) flag_mask = if m then 128 else 0.
Proof.
  intros Hl. unfold flag_mask. change 128 with (Z.shiftl (Z.ones 1) 7) at 2. rewrite land_mask by lia.
  destruct m; width_lia.
Qed.

(** No frame is longer than its payload and fourteen bytes. *)
Lemma wire_frame_size first key message :
  from_option (λ k, length k = 4%nat) True key → zsize message + 14 < 2 ^ 64 →
  zsize (wire_frame first key message) ≤ zsize message + 14.
Proof.
  intros Hkey Hn. unfold wire_frame.
  destruct (length_field_shape (has key) (zsize message)) as (l7 & ext & -> & _ & Hext); [size_lia|].
  assert (zsize ext ≤ 8) by (destruct Hext as [(_ & _ & ->)|[(_ & _ & ->)|(_ & _ & ->)]]; rewrite ?zsize_be_bytes; size_lia).
  rewrite !zsize_cons, !zsize_app, !zsize_cons. destruct key as [k|]; [|lia]. cbn in Hkey.
  rewrite zsize_app, zsize_mask. unfold zsize in *. lia.
Qed.

Section lengths.
Context (first b n : Z) (ext : bytes) (l7 : Z).
Context (Hext : (l7 = n ∧ n ≤ 125 ∧ ext = []) ∨ (l7 = 126 ∧ 125 < n < 2 ^ 16 ∧ ext = be_bytes 2 n) ∨
                (l7 = 127 ∧ 2 ^ 16 ≤ n ∧ ext = be_bytes 8 n)).

Lemma frame_lengths_short tail : zsize tail < zsize ext → frame_lengths (first :: b :: tail) l7 = Ok None.
Proof using Hext.
  intros Hs. unfold frame_lengths.
  destruct Hext as [(-> & ? & ->)|[(-> & ? & ->)|(-> & ? & ->)]].
  - size_lia.
  - rewrite zsize_be_bytes in Hs. rewrite decide_False, decide_True by done. rewrite decide_True by size_lia. done.
  - rewrite zsize_be_bytes in Hs. rewrite decide_True by done. rewrite decide_True by size_lia. done.
Qed.

Lemma frame_lengths_long rest :
  0 ≤ n < 2 ^ 64 → frame_lengths (first :: b :: ext ++ rest) l7 = Ok (Some (2 + zsize ext, n)).
Proof using Hext.
  intros Hn. unfold frame_lengths.
  assert (Hr : ∀ k, range (E := invalid_argument) ([first; b] ++ be_bytes k n ++ rest) 2 (Z.of_nat k) = Ok (be_bytes k n))
    by (intros; apply range_app; [done|by rewrite zsize_be_bytes]).
  destruct Hext as [(-> & ? & ->)|[(-> & ? & ->)|(-> & ? & ->)]].
  - rewrite !decide_False by lia. done.
  - rewrite decide_False, decide_True by done. rewrite decide_False by (rewrite !zsize_cons, zsize_app, zsize_be_bytes; size_lia).
    change (first :: b :: be_bytes 2 n ++ rest) with ([first; b] ++ be_bytes 2 n ++ rest). rewrite (Hr 2%nat : range _ 2 2 = _).
    cbn [mbind outcome_bind]. rewrite decode_uint16_be, be_value_be_bytes_small, zsize_be_bytes;
      [done|width_lia|apply be_bytes_ok|apply length_be_bytes].
  - rewrite decide_True by done. rewrite decide_False by (rewrite !zsize_cons, zsize_app, zsize_be_bytes; size_lia).
    change (first :: b :: be_bytes 8 n ++ rest) with ([first; b] ++ be_bytes 8 n ++ rest). rewrite (Hr 8%nat : range _ 2 8 = _).
    cbn [mbind outcome_bind]. rewrite decode_uint64_be, be_value_be_bytes_small, zsize_be_bytes;
      [done|width_lia|apply be_bytes_ok|apply length_be_bytes].
Qed.
End lengths.

(** ** One frame *)

(** The first byte of a frame the decoder accepts. *)
Definition first_byte (fin : bool) (opcode : Z) : Z := (if fin then 128 else 0) + opcode.

Lemma first_byte_bits (fin : bool) opcode :
  0 ≤ opcode < 16 →
  Z.land (first_byte fin opcode) reserved_bit_mask = 0 ∧
  bool_decide (Z.land (first_byte fin opcode) flag_fin = 0) = negb fin ∧
  Z.land (first_byte fin opcode) opcode_mask = opcode.
Proof.
  intros Ho. unfold first_byte, reserved_bit_mask, opcode_mask, flag_fin.
  rewrite (land_128 fin opcode ltac:(lia) : Z.land _ 128 = _). change 112 with (Z.shiftl (Z.ones 3) 4). rewrite land_mask by lia.
  change 15 with (2 ^ 4 - 1). rewrite land_ones_mod by lia.
  split_and!; [destruct fin; width_lia|by destruct fin|destruct fin; width_lia].
Qed.

(** The conditions on the type of a frame and the length of its payload. *)
Definition acceptable (fin : bool) (opcode n : Z) (pc : bool) : Prop :=
  0 ≤ opcode < 16 ∧ (is_control_frame opcode = true → fin = true ∧ n ≤ 125) ∧
  (is_data_frame opcode = true → pc = false) ∧ 0 ≤ n ∧ n + 14 < 2 ^ 64.

Lemma decode_frame_checks fin opcode n pc (m : bool) l7 tail :
  acceptable fin opcode n pc → 0 ≤ l7 < 128 → (n ≤ 125 → l7 ≤ 125) →
  decode_frame (first_byte fin opcode :: ((if m then 128 else 0) + l7) :: tail) pc =
    (let data := first_byte fin opcode :: ((if m then 128 else 0) + l7) :: tail in
     lengths ← frame_lengths data l7;
     match lengths with
     | None => Ok Need_more_data
     | Some (header_length, payload_length) =>
         if decide (zsize data < u64 (header_length + payload_length + (if m then masking_key_size else 0)))
         then Ok Need_more_data
         else
           payload ← subspan data header_length;
           '(payload, consumed) ←
             (if m then
                masking_key ← range data header_length masking_key_size;
                payload ← subspan data (header_length + zsize masking_key);
                Ok (mask_payload_data masking_key payload, header_length + zsize masking_key)
              else Ok (payload, header_length));
           Ok (Decoded (DecodedFrame opcode payload (consumed + zsize payload) (negb fin)))
     end).
Proof.
  intros (Ho & Hc & Hd & Hn & _) Hl Hln. destruct (first_byte_bits fin opcode Ho) as (B1 & B2 & B3).
  unfold decode_frame. set (data := first_byte fin opcode :: _).
  change (at_ data 0) with (@Ok invalid_argument Z (first_byte fin opcode)).
  change (at_ data 1) with (@Ok invalid_argument Z ((if m then 128 else 0) + l7)). cbn [mbind outcome_bind].
  rewrite decide_False by (rewrite B1; naive_solver). rewrite B2, B3.
  destruct (is_control_frame opcode) eqn:Hctl.
  - destruct Hc as [-> Hle]; [done|]. cbn [negb andb]. destruct (is_data_frame opcode); [rewrite Hd by done|];
      cbn [andb]; rewrite land_127, land_128 by lia; rewrite bool_decide_eq_false_2 by lia; by destruct m.
  - rewrite andb_false_r. destruct (is_data_frame opcode); [rewrite Hd by done|];
      cbn [andb]; rewrite land_127, land_128 by lia; by destruct m.
Qed.

Lemma subspan_app l1 l2 i : i = zsize l1 → subspan (l1 ++ l2) i = Ok l2.
Proof. intros ->. apply range_app_end; size_lia. Qed.

Section frame.
Context (fin : bool) (opcode : Z) (key : option bytes) (message : bytes) (pc : bool).
Context (Hacc : acceptable fin opcode (zsize message) pc).
Context (Hkey : from_option (λ k, length k = 4%nat) True key).

Definition body : bytes :=
  match key with None => message | Some key => key ++ mask_payload_data key message end.

Lemma zsize_body : zsize body = zsize message + (if has key then 4 else 0).
Proof using Hkey.
  unfold body. destruct key as [k|]; cbn [has]; [|lia]. rewrite zsize_app, zsize_mask.
  unfold zsize in *. cbn in Hkey. lia.
Qed.

Definition received (rest : bytes) : bytes :=
  match key with None => message ++ rest | Some key => mask_payload_data key (mask_payload_data key message ++ rest) end.

Lemma received_nil : received [] = message.
Proof using. clear Hkey Hacc. unfold received. destruct key; rewrite app_nil_r; [apply mask_involutive|done]. Qed.

(** A complete frame, alone or in front of other bytes. *)
Lemma decode_frame_complete rest :
  let data := wire_frame (first_byte fin opcode) key message ++ rest in
  zsize data < 2 ^ 64 →
  decode_frame data pc = Ok (Decoded (DecodedFrame opcode (received rest) (zsize data) (negb fin))).
Proof using Hacc Hkey.
  cbv zeta. pose proof Hacc as (_ & _ & _ & Hn & Hn'). unfold wire_frame. fold body.
  destruct (length_field_shape (has key) (zsize message)) as (l7 & ext & -> & _ & Hext); [lia|].
  assert (Hl : 0 ≤ l7 < 128) by lia. cbn [app]. rewrite (decode_frame_checks _ _ (zsize message)) by (done || lia).
  cbv zeta. rewrite <-!app_assoc, (frame_lengths_long _ _ _ _ _ Hext) by lia. cbn [mbind outcome_bind].
  assert (Hb := zsize_body). assert (He : 0 ≤ zsize ext ≤ 8) by (destruct Hext as [(_ & _ & ->)|[(_ & _ & ->)|(_ & _ & ->)]]; rewrite ?zsize_be_bytes; size_lia).
  intros Hlt. rewrite decide_False.
  2: { rewrite wrap_small; unfold masking_key_size, in_width; destruct (has key); size_lia. }
  set (pre := first_byte fin opcode :: (if has key then 128 else 0) + l7 :: ext).
  change (first_byte fin opcode :: (if has key then 128 else 0) + l7 :: ext ++ body ++ rest) with (pre ++ body ++ rest).
  assert (Hpre : zsize pre = 2 + zsize ext) by (unfold pre; size_lia). clearbody pre.
  rewrite (subspan_app pre (body ++ rest)) by lia. cbn [mbind outcome_bind].
  unfold body, received. destruct key as [k|]; cbn [has].
  - rewrite <-app_assoc, range_app; [|done|cbn in Hkey; unfold zsize; rewrite Hkey; done]. cbn [mbind outcome_bind].
    rewrite (app_assoc pre), subspan_app by size_lia.
    cbn [mbind outcome_bind]. do 3 f_equal. rewrite zsize_mask. size_lia.
  - cbn [mbind outcome_bind]. do 3 f_equal. size_lia.
Qed.

(** A part of a frame that holds at least two bytes. *)
Lemma decode_frame_partial part :
  2 ≤ zsize part → part `prefix_of` wire_frame (first_byte fin opcode) key message →
  zsize part < zsize (wire_frame (first_byte fin opcode) key message) →
  decode_frame part pc = Ok Need_more_data.
Proof using Hacc Hkey.
  pose proof Hacc as (_ & _ & _ & Hn & Hn'). unfold wire_frame. fold body.
  destruct (length_field_shape (has key) (zsize message)) as (l7 & ext & -> & _ & Hext); [lia|].
  assert (Hl : 0 ≤ l7 < 128) by lia. assert (Hb := zsize_body).
  destruct part as [|f [|b tail]]; [size_lia..|]. cbn [app].
  intros _ Hpre Hlt. apply prefix_cons_inv_1 in Hpre as Hf. apply prefix_cons_inv_2 in Hpre.
  apply prefix_cons_inv_1 in Hpre as Hb'. apply prefix_cons_inv_2 in Hpre. subst f b.
  rewrite (decode_frame_checks _ _ (zsize message)) by (done || lia). cbv zeta.
  destruct (decide (zsize tail < zsize ext)) as [Hs|Hs].
  { by rewrite (frame_lengths_short _ _ _ _ _ Hext) by done. }
  assert (∃ r, tail = ext ++ r ∧ zsize r < zsize body) as (r & -> & Hr).
  { destruct Hpre as [k Hk]. exists (drop (length ext) tail). apply app_eq_inv in Hk as [(r & -> & _)|(r & -> & Hr)].
    - assert (r = []) as -> by (apply zsize_0_inv; size_lia). rewrite app_nil_r in *. rewrite drop_all, app_nil_r. split; [done|size_lia].
    - rewrite drop_app_length. split; [done|]. size_lia. }
  rewrite (frame_lengths_long _ _ _ _ _ Hext) by lia. cbn [mbind outcome_bind]. rewrite decide_True; [done|].
  unfold masking_key_size. assert (He : 0 ≤ zsize ext ≤ 8)
    by (destruct Hext as [(_ & _ & ->)|[(_ & _ & ->)|(_ & _ & ->)]]; rewrite ?zsize_be_bytes; size_lia).
  rewrite wrap_small by (unfold in_width; destruct (has key); lia). destruct (has key); size_lia.
Qed.
End frame.

(** ** Streams of frames *)

(** The callback for an unfragmented frame. *)
Definition frame_event (opcode : Z) (payload : bytes) : list event :=
  if decide (opcode = opcode_text) then [on_text payload]
  else if decide (opcode = opcode_binary) then [on_binary payload]
  else if decide (opcode = opcode_close) then [on_close payload]
  else if decide (opcode = opcode_ping) then [on_ping payload]
  else [on_pong payload].

Definition message_opcode (opcode : Z) : bool := is_data_frame opcode || is_control_frame opcode.

Lemma message_opcode_range opcode : message_opcode opcode = true → 0 ≤ opcode < 16.
Proof.
  unfold message_opcode, is_data_frame, is_control_frame.
  intros [Ho|Ho]%orb_true_iff; apply bool_decide_eq_true in Ho; destruct_or! Ho; by rewrite Ho.
Qed.

Section streams.
Context `{HttpParser} (session_key : bytes) (sha1 : bytes → bytes).

Abbreviation feed := (feed session_key sha1).
Abbreviation feed_all := (feed_all session_key sha1).
Abbreviation receiving buffer := (data_handler (DataState buffer None)).

Lemma on_frame_final opcode payload n pc :
  message_opcode opcode = true →
  on_frame pc (DecodedFrame opcode payload n false) = (frame_event opcode payload, inl pc).
Proof using.
  unfold message_opcode, is_data_frame, is_control_frame. intros [Ho|Ho]%orb_true_iff;
    apply bool_decide_eq_true in Ho; destruct_or! Ho; by subst.
Qed.

Lemma feed_loop_nil fuel d events : feed_loop (S fuel) d [] events = Ok (data_handler d, events).
Proof using. done. Qed.

Lemma feed_all_cons h chunk chunks :
  feed_all h (chunk :: chunks) =
    ('(h, events) ← feed h chunk; '(h, more) ← feed_all h chunks; Ok (h, events ++ more)).
Proof using. done. Qed.

Section frame_chunks.
Context (opcode : Z) (key : option bytes) (message : bytes).
Context (Hop : message_opcode opcode = true) (Hacc : acceptable true opcode (zsize message) false).
Context (Hkey : from_option (λ k, length k = 4%nat) True key).
Let frame := wire_frame (first_byte true opcode) key message.
Context (Hsize : zsize frame < 2 ^ 64).

Lemma frame_long : 2 ≤ zsize frame.
Proof using Hacc.
  pose proof Hacc as (_ & _ & _ & Hn & Hn'). unfold frame, wire_frame.
  destruct (length_field_shape (has key) (zsize message)) as (l7 & ext & -> & _ & _); [lia|]. size_lia.
Qed.

Lemma feed_loop_frame fuel :
  feed_loop (S (S fuel)) (DataState [] None) frame [] = Ok (receiving [], frame_event opcode message).
Proof using All.
  pose proof frame_long as Hl. cbn [feed_loop]. rewrite decide_False by (intros Hn; rewrite Hn in Hl; size_lia).
  pose proof (decode_frame_complete true opcode key message false Hacc Hkey []) as Hd. cbv zeta in Hd.
  rewrite app_nil_r in Hd. fold frame in Hd. cbn [ds_partial ds_buffer has]. rewrite Hd by done. cbn [mbind outcome_bind].
  rewrite received_nil. cbn [negb]. rewrite on_frame_final by done. cbn [consumed_bytes].
  rewrite <-(app_nil_r frame) at 1. rewrite subspan_app by done. done.
Qed.

Lemma feed_loop_part fuel part :
  2 ≤ zsize part → part `prefix_of` frame → zsize part < zsize frame →
  feed_loop (S fuel) (DataState [] None) part [] = Ok (receiving part, []).
Proof using Hacc Hkey.
  intros Hl Hp Hlt. cbn [feed_loop]. rewrite decide_False by (intros ->; size_lia). cbn [ds_partial has].
  by rewrite (decode_frame_partial true opcode key message false Hacc Hkey part).
Qed.

Lemma feed_idle chunks : concat chunks = [] → feed_all (receiving []) chunks = Ok (receiving [], []).
Proof using.
  induction chunks as [|c chunks IH]; [done|]. cbn [concat]. intros [-> Hc]%app_eq_nil. cbn [feed_all].
  change (feed (receiving []) []) with (@Ok invalid_argument _ (receiving [], @nil event)).
  cbn [mbind outcome_bind]. by rewrite IH.
Qed.

Lemma feed_buffered buffer chunk :
  2 ≤ zsize (buffer ++ chunk) → buffer ++ chunk `prefix_of` frame →
  feed (receiving buffer) chunk =
    if decide (buffer ++ chunk = frame) then Ok (receiving [], frame_event opcode message)
    else Ok (receiving (buffer ++ chunk), []).
Proof using All.
  intros Hl Hp. cbn [Websocket.feed]. unfold feed_data. cbn [ds_buffer ds_partial].
  assert (Hfuel : ∀ data : bytes, 2 ≤ zsize data → ∃ n, S (length data) = S (S n)).
  { intros data Hd. destruct data; [size_lia|]. by eexists. }
  assert (Hloop : feed_loop (S (length (buffer ++ chunk))) (DataState [] None) (buffer ++ chunk) [] =
    if decide (buffer ++ chunk = frame) then Ok (receiving [], frame_event opcode message)
    else Ok (receiving (buffer ++ chunk), [])).
  { destruct (Hfuel _ Hl) as [n ->]. case_decide as Hf; [rewrite Hf; apply feed_loop_frame|].
    apply feed_loop_part; [done..|]. destruct Hp as [k Hk]. rewrite Hk, zsize_app.
    destruct k as [|x k]; [by rewrite app_nil_r in Hk|]. size_lia. }
  destruct (decide (buffer ≠ [])) as [Hb|Hb]; [exact Hloop|]. apply dec_stable in Hb. subst buffer. exact Hloop.
Qed.

(** A frame that arrives in pieces, the first of at least two bytes. *)
Lemma feed_frame buffer chunk chunks :
  2 ≤ zsize (buffer ++ chunk) → buffer ++ chunk ++ concat chunks = frame →
  feed_all (receiving buffer) (chunk :: chunks) = Ok (receiving [], frame_event opcode message).
Proof using All.
  revert buffer chunk. induction chunks as [|c chunks IH]; intros buffer chunk Hl Hf; rewrite feed_all_cons.
  - cbn in Hf. rewrite app_nil_r in Hf. rewrite feed_buffered by (done || by rewrite Hf).
    rewrite decide_True by done. cbn. by rewrite app_nil_r.
  - rewrite feed_buffered; [|done|exists (concat (c :: chunks)); by rewrite <-app_assoc]. case_decide as Hd; cbn [mbind outcome_bind].
    + assert (concat (c :: chunks) = []) as Hnil.
      { rewrite app_assoc, Hd in Hf. apply (f_equal length) in Hf. rewrite length_app in Hf.
        apply nil_length_inv. lia. }
      rewrite (feed_idle _ Hnil). cbn. by rewrite app_nil_r.
    + rewrite (IH (buffer ++ chunk) c); [done|rewrite zsize_app; size_lia|]. by rewrite <-!app_assoc.
Qed.
End frame_chunks.

Lemma feed_all_app h chunks chunks' :
  feed_all h (chunks ++ chunks') =
    ('(h, events) ← feed_all h chunks; '(h, more) ← feed_all h chunks'; Ok (h, events ++ more)).
Proof using.
  revert h. induction chunks as [|c chunks IH]; intros h; cbn [app Websocket.feed_all].
  - cbn. by destruct (feed_all h chunks') as [[]| | |].
  - destruct (feed h c) as [[h' e]| | |]; [|done..]. cbn [mbind outcome_bind]. rewrite IH.
    destruct (feed_all h' chunks) as [[h'' e']| | |]; [|done..]. cbn.
    destruct (feed_all h'' chunks') as [[]| | |]; [|done..]. cbn. by rewrite app_assoc.
Qed.

(** An unmasked frame in a chunk of its own, with the partial response it meets. *)
Lemma feed_fragment fin opcode message partial :
  acceptable fin opcode (zsize message) (has partial) →
  feed (data_handler (DataState [] partial)) (wire_frame (first_byte fin opcode) None message) =
    let '(events, next) := on_frame partial (DecodedFrame opcode message (zsize (wire_frame (first_byte fin opcode) None message)) (negb fin)) in
    match next with
    | inr e => Ok (error_handler e, events ++ [on_error e])
    | inl partial => Ok (data_handler (DataState [] partial), events)
    end.
Proof using.
  intros Hacc. cbn [Websocket.feed]. unfold feed_data. cbn [ds_buffer ds_partial]. rewrite decide_False by naive_solver.
  set (data := wire_frame _ _ _). assert (Hnil : data ≠ []) by done.
  pose proof (wire_frame_size (first_byte fin opcode) None message I) as Hsz. pose proof Hacc as (_ & _ & _ & _ & Hn).
  pose proof (decode_frame_complete fin opcode None message (has partial) Hacc I []) as Hd. cbv zeta in Hd.
  rewrite app_nil_r, received_nil in Hd. fold data in Hd, Hsz.
  cbn [feed_loop]. rewrite decide_False by done. cbn [ds_partial ds_buffer]. rewrite Hd by lia. cbn [mbind outcome_bind].
  destruct (on_frame partial _) as [events [p|e]]; [|done]. cbn [consumed_bytes].
  rewrite <-(app_nil_r data) at 1. rewrite subspan_app by done. cbn [mbind outcome_bind]. destruct data; [done|].
  by cbn [length feed_loop].
Qed.

(** A frame the peer sends, with the chunks it arrives in. *)
Record delivery := Delivery { dl_opcode : Z; dl_key : option bytes; dl_message : bytes; dl_chunks : list bytes }.

Definition delivered (d : delivery) : Prop :=
  message_opcode (dl_opcode d) = true ∧ (is_control_frame (dl_opcode d) = true → zsize (dl_message d) ≤ 125) ∧
  from_option (λ k, length k = 4%nat) True (dl_key d) ∧ zsize (dl_message d) + 14 < 2 ^ 64 ∧
  concat (dl_chunks d) = wire_frame (first_byte true (dl_opcode d)) (dl_key d) (dl_message d) ∧
  ∃ chunk chunks, dl_chunks d = chunk :: chunks ∧ 2 ≤ zsize chunk.

(** C34: a stream of messages in one frame each is delivered.  When every frame
    has the FIN bit and the opcode of a message (text, binary, close, ping or
    pong), and starts with a new chunk of at least two bytes, [feed] invokes
    exactly the callbacks of the frames, in order, with their payloads, whether
    they are masked or not and however the rest of each frame is cut; nothing
    stays in the buffer.  ([websocket_last_fragment_lost] is about messages in
    several frames, [websocket_swallows_next_frame] about chunks in which a
    frame does not come first.) *)
Theorem websocket_stream_delivered (ds : list delivery) :
  Forall delivered ds →
  feed_all (receiving []) (concat (map dl_chunks ds)) =
    Ok (receiving [], concat (map (λ d, frame_event (dl_opcode d) (dl_message d)) ds)).
Proof.
  induction 1 as [|d ds (Hop & Hctl & Hkey & Hn & Hcat & c & cs & Hcs & Hc) _ IH]; [done|]. cbn [map concat].
  pose proof (message_opcode_range _ Hop) as Ho.
  rewrite feed_all_app, Hcs. rewrite Hcs in Hcat.
  rewrite (feed_frame (dl_opcode d) (dl_key d) (dl_message d)) with (buffer := []); [|done|..|done|done].
  - cbn [mbind outcome_bind]. by rewrite IH.
  - split_and!; [lia|naive_solver..|size_lia|lia].
  - done.
  - pose proof (wire_frame_size (first_byte true (dl_opcode d)) (dl_key d) (dl_message d) Hkey). lia.
Qed.

(** The bytes behind a frame in its chunk become a part of its payload.
    The decoder returns the rest of the buffer as the payload, so a chunk that
    holds a frame and [rest], which may be further frames, invokes the callback
    of the first frame with [rest] appended (unmasked with its key), and the
    frames in [rest] are never seen. *)
Theorem websocket_swallows_next_frame opcode key message rest :
  message_opcode opcode = true → (is_control_frame opcode = true → zsize message ≤ 125) →
  from_option (λ k, length k = 4%nat) True key → zsize message + zsize rest + 14 < 2 ^ 64 →
  feed (receiving []) (wire_frame (first_byte true opcode) key message ++ rest) =
    Ok (receiving [], frame_event opcode (received key message rest)).
Proof.
  intros Hop Hctl Hkey Hn. assert (Hacc : acceptable true opcode (zsize message) false).
  { pose proof (message_opcode_range _ Hop). split_and!; [lia|naive_solver..|size_lia|size_lia]. }
  cbn [Websocket.feed]. unfold feed_data. cbn [ds_buffer ds_partial]. rewrite decide_False by naive_solver.
  pose proof (frame_long opcode key message Hacc) as Hl. set (data := _ ++ rest).
  assert (Hd : zsize data < 2 ^ 64).
  { pose proof (wire_frame_size (first_byte true opcode) key message Hkey). unfold data. size_lia. }
  assert (Hnil : data ≠ []) by (unfold data, wire_frame; done).
  cbn [feed_loop]. rewrite decide_False by done. cbn [ds_partial ds_buffer has].
  pose proof (decode_frame_complete true opcode key message false Hacc Hkey rest Hd) as Hdec. fold data in Hdec.
  rewrite Hdec. cbn [mbind outcome_bind negb].
  rewrite on_frame_final by done. cbn [consumed_bytes]. fold data. rewrite <-(app_nil_r data) at 1.
  rewrite subspan_app by done. cbn [mbind outcome_bind]. destruct data; [done|]. by cbn [length feed_loop].
Qed.

(** The last fragment of a message is lost, and the message never ends.  A
    text that arrives as three fragments is reported without the payload of
    the last one, and the codec still waits for a continuation: the next text
    is answered with an error. *)
Theorem websocket_last_fragment_lost p1 p2 p3 next :
  zsize p1 + 14 < 2 ^ 64 → zsize p2 + 14 < 2 ^ 64 → zsize p3 + 14 < 2 ^ 64 → zsize next + 14 < 2 ^ 64 →
  feed_all (receiving [])
    [wire_frame (first_byte false opcode_text) None p1; wire_frame (first_byte false opcode_continuation) None p2;
     wire_frame (first_byte true opcode_continuation) None p3; wire_frame (first_byte true opcode_text) None next] =
  Ok (error_handler (decoding_failed expected_continuation_frame),
      [on_text (p1 ++ p2); on_error (decoding_failed expected_continuation_frame)]).
Proof.
  intros H1 H2 H3 H4.
  assert (Hacc : ∀ fin opcode (p : bytes) pc, opcode = opcode_text ∧ pc = false ∨ opcode = opcode_continuation →
    zsize p + 14 < 2 ^ 64 → acceptable fin opcode (zsize p) pc).
  { intros fin opcode p pc [[-> ->]| ->] Hp; (split_and!; [done|done|done|done|size_lia|done]). }
  assert (F1 : feed (receiving []) (wire_frame (first_byte false opcode_text) None p1) =
    Ok (data_handler (DataState [] (Some (PartialFrame opcode_text p1))), []))
    by (by rewrite feed_fragment by (apply Hacc; [by left|done])).
  assert (F2 : feed (data_handler (DataState [] (Some (PartialFrame opcode_text p1))))
      (wire_frame (first_byte false opcode_continuation) None p2) =
    Ok (data_handler (DataState [] (Some (PartialFrame opcode_text (p1 ++ p2)))), []))
    by (by rewrite feed_fragment by (apply Hacc; [by right|done])).
  assert (F3 : feed (data_handler (DataState [] (Some (PartialFrame opcode_text (p1 ++ p2)))))
      (wire_frame (first_byte true opcode_continuation) None p3) =
    Ok (data_handler (DataState [] (Some (PartialFrame opcode_text (p1 ++ p2)))), [on_text (p1 ++ p2)]))
    by (by rewrite feed_fragment by (apply Hacc; [by right|done])).
  rewrite feed_all_cons, F1. cbn [mbind outcome_bind]. rewrite feed_all_cons, F2. cbn [mbind outcome_bind].
  by rewrite feed_all_cons, F3.
Qed.
End streams.

(** ** Bounds *)

(** The 64-bit length that a chunk may announce. *)
Definition announces_less (data : bytes) (limit : Z) : Prop :=
  ∀ field : bytes, range (E := invalid_argument) data 2 8 = Ok field → be_value field < limit.

Lemma range_bytes_ok data i n field :
  range (E := invalid_argument) data i n = Ok field → bytes_ok data → bytes_ok field ∧ length field = Z.to_nat n.
Proof.
  intros (? & ? & ? & -> & Hs)%range_Ok Hd. split; [by apply Forall_take, Forall_drop|]. unfold zsize in Hs. lia.
Qed.

Lemma frame_lengths_ok data l7 :
  bytes_ok data → 2 ≤ zsize data → 0 ≤ l7 < 128 → announces_less data (2 ^ 64 - 14) →
  frame_lengths data l7 = Ok None ∨
  ∃ h n, frame_lengths data l7 = Ok (Some (h, n)) ∧ 2 ≤ h ≤ 10 ∧ h ≤ zsize data ∧ 0 ≤ n < 2 ^ 64 - 14.
Proof.
  intros Hd Hs Hl Hann. unfold frame_lengths. repeat case_decide; auto.
  - destruct (range (E := invalid_argument) data 2 8) as [field|?| |] eqn:Hf;
      [|by apply range_not_err in Hf|rewrite range_ok in Hf by lia; done|by apply range_not_diverge in Hf].
    right. destruct (range_bytes_ok _ _ _ _ Hf Hd) as [Hok Hlen]. cbn [mbind outcome_bind].
    rewrite decode_uint64_be by done. exists 10, (be_value field). pose proof (be_value_bound field Hok).
    split_and!; [done|lia..|by apply Hann].
  - destruct (range (E := invalid_argument) data 2 2) as [field|?| |] eqn:Hf;
      [|by apply range_not_err in Hf|rewrite range_ok in Hf by lia; done|by apply range_not_diverge in Hf].
    right. destruct (range_bytes_ok _ _ _ _ Hf Hd) as [Hok Hlen]. cbn [mbind outcome_bind].
    rewrite decode_uint16_be by done. exists 4, (be_value field). pose proof (be_value_bound field Hok) as Hb.
    assert (zsize field = 2) as Hz by (unfold zsize; lia). rewrite Hz in Hb. change (256 ^ 2) with 65536 in Hb.
    split_and!; [done|lia..].
  - right. exists 2, l7. split_and!; [done|lia..].
Qed.

Lemma subspan_Ok data i : 0 ≤ i ≤ zsize data → subspan data i = Ok (drop (Z.to_nat i) data).
Proof.
  intros Hi. unfold subspan. rewrite range_ok by lia. f_equal. apply take_ge. rewrite length_drop. unfold zsize in *. lia.
Qed.

Lemma decode_frame_ok data pc :
  bytes_ok data → 2 ≤ zsize data < 2 ^ 64 → announces_less data (2 ^ 64 - 14) →
  ∃ status, decode_frame data pc = Ok status ∧ ∀ frame, status = Decoded frame → consumed_bytes frame = zsize data.
Proof.
  intros Hd Hs Hann. unfold decode_frame.
  destruct (at_in_range (E := invalid_argument) data 0) as (b0 & -> & _); [lia|]. cbn [mbind outcome_bind].
  case_decide; [by eexists|]. destruct (_ && is_control_frame _); [by eexists|].
  destruct (is_data_frame _ && _); [by eexists|].
  destruct (at_in_range (E := invalid_argument) data 1) as (b1 & -> & _); [lia|]. cbn [mbind outcome_bind].
  destruct (is_control_frame _ && _); [by eexists|].
  destruct (frame_lengths_ok data (Z.land b1 payload_length_7_mask) Hd ltac:(lia)) as [->|(h & n & -> & Hh & Hhs & Hn)];
    [unfold payload_length_7_mask; change 127 with (2 ^ 7 - 1); rewrite land_ones_mod by lia; apply Z.mod_pos_bound; lia|done|by eexists|].
  cbn [mbind outcome_bind]. set (masked := negb _). unfold masking_key_size.
  rewrite wrap_small by (unfold in_width; destruct masked; lia). case_decide as Hlt; [by eexists|].
  rewrite subspan_Ok by lia. cbn [mbind outcome_bind]. destruct masked.
  - rewrite range_ok by lia. cbn [mbind outcome_bind].
    assert (Hk : zsize (take (Z.to_nat 4) (drop (Z.to_nat h) data)) = 4) by (rewrite zsize_take, zsize_drop; lia).
    rewrite Hk, subspan_Ok by lia. cbn [mbind outcome_bind]. eexists. split; [done|]. intros frame [= <-].
    cbn [consumed_bytes]. rewrite zsize_mask, zsize_drop. lia.
  - cbn [mbind outcome_bind]. eexists. split; [done|]. intros frame [= <-]. cbn [consumed_bytes]. rewrite zsize_drop. lia.
Qed.

(** What the decoder reads.  A chunk of at least two bytes that announces
    less than 2^64 - 14 bytes is handled without an access outside of it and
    in one iteration of the loop; a single byte that is the start of an
    acceptable frame, and a masked frame with a length of 2^64 - 14, whose end
    wraps around to 0, are read beyond their end. *)
Theorem websocket_read_bounds `{HttpParser} session_key sha1 partial data :
  bytes_ok data → 2 ≤ zsize data < 2 ^ 64 → announces_less data (2 ^ 64 - 14) →
  (∃ h events, feed session_key sha1 (data_handler (DataState [] partial)) data = Ok (h, events)) ∧
  (∀ opcode pc, 0 ≤ opcode < 16 → ¬ (is_data_frame opcode = true ∧ pc = true) →
     decode_frame [first_byte true opcode] pc = Fault) ∧
  decode_frame ([first_byte true opcode_text; 255] ++ be_bytes 8 (2 ^ 64 - 14)) false = Fault.
Proof.
  intros Hd Hs Hann. split_and!; [| |by vm_compute].
  - cbn [feed]. unfold feed_data. cbn [ds_buffer ds_partial]. rewrite decide_False by naive_solver.
    cbn [feed_loop]. rewrite decide_False by (intros ->; size_lia). cbn [ds_partial].
    destruct (decode_frame_ok data (has partial) Hd Hs Hann) as (status & -> & Hc). cbn [mbind outcome_bind].
    destruct status as [frame|e|]; [|by do 2 eexists..]. destruct (on_frame partial frame) as [more [p|e]]; [|by do 2 eexists].
    rewrite (Hc frame), subspan_Ok by (done || lia). cbn [mbind outcome_bind]. rewrite zsize_to_nat, drop_all.
    destruct data; [size_lia|]. cbn. by do 2 eexists.
  - intros opcode pc Ho Hpc. destruct (first_byte_bits true opcode Ho) as (B1 & B2 & B3).
    unfold decode_frame. change (at_ [first_byte true opcode] 0) with (@Ok invalid_argument Z (first_byte true opcode)).
    cbn [mbind outcome_bind]. rewrite decide_False by (rewrite B1; naive_solver). rewrite B2, B3. cbn [negb andb].
    destruct (is_data_frame opcode), pc; try done. naive_solver.
Qed.

(** ** The handshake *)

(** The response that RFC 6455, 4.1 asks the client to accept. *)
Record accepted_response `{HttpParser} (session_key : bytes) (sha1 : bytes → bytes) (h : handshake) : Prop := {
  accepted_complete : hs_complete h = true;
  accepted_status : hs_status_code h = 101;
  accepted_connection : map tolower (header h (ascii "connection")) = ascii "upgrade";
  accepted_upgrade : map tolower (header h (ascii "upgrade")) = ascii "websocket";
  accepted_signature : encode (sha1 (session_key ++ websocket_guid)) false = Ok (header h (ascii "sec-websocket-accept"));
}.

(** The handshake after the callbacks of llhttp. *)
Definition after_execute `{HttpParser} (h : handshake) (data : bytes) : handshake * llhttp_errno * Z :=
  let '(parser, events, error, error_pos) := llhttp_execute (hs_parser h) data in
  (foldl run_http_event
     (Handshake parser (hs_header_field h) (hs_complete h) (hs_status_code h) (hs_status_message h)
        (hs_headers h) (hs_body h)) events, error, error_pos).

Lemma case_insensitive_lower text lower :
  map tolower lower = lower → case_insensitive_equals text lower = true → map tolower text = lower.
Proof.
  intros Hl. unfold case_insensitive_equals. case_decide; [done|]. intros Heq%bool_decide_eq_true. congruence.
Qed.

(** The codec becomes ready exactly after a response that proves that the
    server speaks the protocol.  The handshake hands over to the data handler
    only when the response is complete, has the status 101, names the upgrade
    and carries the digest of the session key; then only [on_ready] is
    invoked, and what followed the response is kept for the next chunk. *)
Theorem websocket_handshake_checks `{HttpParser} session_key sha1 h data d events :
  feed_handshake session_key sha1 h data = Ok (data_handler d, events) →
  let '(h', error, error_pos) := after_execute h data in
  accepted_response session_key sha1 h' ∧ events = [on_ready] ∧ ds_partial d = None ∧
  ds_buffer d = match error with HPE_PAUSED_UPGRADE => drop (Z.to_nat error_pos) data | _ => [] end.
Proof.
  unfold feed_handshake, after_execute. destruct (llhttp_execute _ _) as [[[parser es] error] pos].
  set (h' := foldl _ _ _). intros Hf.
  assert (Hf' : (if hs_complete h' then
    if decide (hs_status_code h' ≠ 101) then
      Ok (make_error_handler (response_status_must_be_101 (hs_status_code h') (hs_status_message h')))
    else if negb (case_insensitive_equals (header h' (ascii "connection")) (ascii "upgrade")) then
      Ok (make_error_handler no_connection_upgrade)
    else if negb (case_insensitive_equals (header h' (ascii "upgrade")) (ascii "websocket")) then
      Ok (make_error_handler no_upgrade_websocket)
    else
      valid ← signature_is_valid session_key sha1 (header h' (ascii "sec-websocket-accept"));
      if negb valid then Ok (make_error_handler invalid_accept_key)
      else
        match error with
        | HPE_PAUSED_UPGRADE => remaining ← subspan data pos; Ok (make_data_handler remaining)
        | _ => Ok (make_data_handler [])
        end
    else Ok (handshake_handler h', [])) = Ok (data_handler d, events)) by (by destruct error).
  clear Hf. destruct (hs_complete h') eqn:Hc; [|done]. case_decide as Hs; [done|].
  destruct (case_insensitive_equals (header h' (ascii "connection")) _) eqn:Hcon; [|done].
  destruct (case_insensitive_equals (header h' (ascii "upgrade")) _) eqn:Hup; [|done]. cbn [negb] in Hf'.
  unfold signature_is_valid in Hf'. destruct (encode _ _) as [text|e| |] eqn:He; [|done..]. cbn [mbind outcome_bind] in Hf'.
  destruct (bool_decide _) eqn:Hsig; [|done]. apply bool_decide_eq_true in Hsig. subst text. cbn [negb] in Hf'.
  split; [split; [done|lia|by apply case_insensitive_lower|by apply case_insensitive_lower|done]|].
  destruct error; [by injection Hf' as <- <-| |by injection Hf' as <- <-].
  unfold subspan in Hf'. destruct (range _ _ _) as [remaining|e| |] eqn:Hr; [|done..]. injection Hf' as <- <-.
  apply range_Ok in Hr as (? & ? & ? & -> & _). split_and!; [done..|]. cbn. apply take_ge. rewrite length_drop.
  unfold zsize in *. lia.
Qed.

(** ** The theorems at concrete inputs *)

(** A parser that answers with the same response whatever it is given. *)
Definition scripted (events : list http_event) (error : llhttp_errno) (error_pos : Z) : HttpParser :=
  {| llhttp := unit; llhttp_init := tt; llhttp_execute _ _ := (tt, events, error, error_pos) |}.

Definition silent : HttpParser := scripted [] HPE_OK 0.

Definition hello_text : delivery :=
  let frame := encode_frame [1; 2; 3; 4] opcode_text [104; 105] in
  Delivery opcode_text (Some [1; 2; 3; 4]) [104; 105] [take 3 frame; drop 3 frame].
Definition ping_frame : delivery := Delivery opcode_ping None [] [[137; 0]].

Lemma websocket_stream_delivered_witness :
  feed_all (H := silent) [] id (data_handler (DataState [] None)) (concat (map dl_chunks [hello_text; ping_frame])) =
    Ok (data_handler (DataState [] None), [on_text [104; 105]; on_ping []]).
Proof.
  apply (websocket_stream_delivered (H := silent) [] id [hello_text; ping_frame]).
  repeat constructor; try (by vm_compute); (by do 2 eexists).
Defined.

Lemma websocket_swallows_next_frame_witness :
  feed (H := silent) [] id (data_handler (DataState [] None)) (wire_frame (first_byte true opcode_text) None [104] ++ [137; 0]) =
    Ok (data_handler (DataState [] None), [on_text [104; 137; 0]]).
Proof. by apply (websocket_swallows_next_frame (H := silent) [] id opcode_text None [104] [137; 0]). Defined.

Lemma websocket_last_fragment_lost_witness :
  feed_all (H := silent) [] id (data_handler (DataState [] None)) [[1; 1; 97]; [0; 1; 98]; [128; 1; 99]; [129; 1; 100]] =
  Ok (error_handler (decoding_failed expected_continuation_frame),
      [on_text [97; 98]; on_error (decoding_failed expected_continuation_frame)]).
Proof. by apply (websocket_last_fragment_lost (H := silent) [] id [97] [98] [99] [100]). Defined.

Lemma websocket_read_bounds_witness :
  (∃ h events, feed (H := silent) [] id (data_handler (DataState [] None)) [129; 1] = Ok (h, events)) ∧
  (∀ opcode pc, 0 ≤ opcode < 16 → ¬ (is_data_frame opcode = true ∧ pc = true) →
     decode_frame [first_byte true opcode] pc = Fault) ∧
  decode_frame ([first_byte true opcode_text; 255] ++ be_bytes 8 (2 ^ 64 - 14)) false = Fault.
Proof.
  apply (websocket_read_bounds (H := silent) [] id None [129; 1]); [repeat constructor; lia|by vm_compute|].
  intros field Hf. done.
Defined.

(** The response to the key "k", for a digest that is the identity. *)
Definition upgrade_response : list http_event :=
  [http_status 101 (ascii "Switching Protocols");
   http_header_field (ascii "Connection"); http_header_value (ascii "Upgrade");
   http_header_field (ascii "Upgrade"); http_header_value (ascii "WebSocket");
   http_header_field (ascii "Sec-WebSocket-Accept");
   http_header_value (ascii "azI1OEVBRkE1LUU5MTQtNDdEQS05NUNBLUM1QUIwREM4NUIxMQ==");
   http_message_complete].
Definition upgrading : HttpParser := scripted upgrade_response HPE_PAUSED_UPGRADE 1.

Lemma websocket_handshake_checks_witness :
  let '(h', error, error_pos) := after_execute (H := upgrading) (open_handshake (H := upgrading)) [0; 137; 0] in
  accepted_response (H := upgrading) [107] id h' ∧ [on_ready] = [on_ready] ∧ None = None (A := partial_frame) ∧
  [137; 0] = match error with HPE_PAUSED_UPGRADE => drop (Z.to_nat error_pos) [0; 137; 0] | _ => [] end.
Proof.
  apply (websocket_handshake_checks (H := upgrading) [107] id open_handshake [0; 137; 0]
    (DataState [137; 0] None) [on_ready]). by vm_compute.
Defined.
