(* ===== verification/OperationQueue.v ===== *)
(** * Requests and their queues: [core/mcbp/queue_request.cxx],
      [core/mcbp/operation_queue.cxx], [core/mcbp/operation_consumer.cxx]

    The requests of the collection-aware dispatch path.  They are shared
    objects: a queue, the table of a session and the callbacks that wait for
    them all hold the same request, so the model keeps them in a store and
    passes their identities.  The members of a queue lock its mutex for their
    whole body, so each is one transition; [close_consumer], which locks the
    mutex it holds, is modelled with the mutex.  A request locks its mutex for
    a part of its members only, and calls back outside of it: [cancel] and
    [try_callback] are the transitions up to the exchange of [is_completed_]
    and an invocation of their own, between which other threads act; an
    invocation is taken at the point where it moves or enters [callback_]. *)

From S2P Require Import Prelude Retry.

(** [std::error_code]: the codes of the file and of its callers. *)
Inductive error_code :=
  | operation_queue_closed | operation_queue_full | request_already_queued | request_cancelled
  | request_canceled | collection_not_found | unambiguous_timeout | ambiguous_timeout | operation_aborted
  | protocol_error | bucket_closed | cluster_closed | service_not_available | invalid_argument
  | other_error (code : Z).

Global Instance error_code_eq_dec : EqDecision error_code.
Proof. solve_decision. Defined.

(** ** State *)

(** [queue_request]; timers are armed or not. *)
Record queue_request := QueueRequest {
  qr_completed : bool;
  qr_queued_with : option nat;
  qr_waiting_in : option nat;
  qr_persistent : bool;
  qr_opaque : Z;
  qr_scope : bytes;
  qr_collection : bytes;
  qr_collection_id : Z;
  qr_deadline : bool;
  qr_backoff : bool;
  qr_retries : retry_request;
}.

Record operation_queue := OperationQueue { q_items : list nat; q_is_open : bool }.

(** The requests, the queues, the tables [operations_] of the sessions and the
    invocations of callbacks, newest first. *)
Record store := Store {
  st_requests : gmap nat queue_request;
  st_queues : gmap nat operation_queue;
  st_operations : gmap (nat * Z) nat;
  st_callbacks : list (nat * option error_code);
}.

Definition upd_request (r : nat) (f : queue_request → queue_request) (st : store) : store :=
  Store (alter f r (st_requests st)) (st_queues st) (st_operations st) (st_callbacks st).
Definition upd_queue (q : nat) (f : operation_queue → operation_queue) (st : store) : store :=
  Store (st_requests st) (alter f q (st_queues st)) (st_operations st) (st_callbacks st).
Definition upd_operations (f : gmap (nat * Z) nat → gmap (nat * Z) nat) (st : store) : store :=
  Store (st_requests st) (st_queues st) (f (st_operations st)) (st_callbacks st).
Definition invoke_callback (r : nat) (ec : option error_code) (st : store) : store :=
  Store (st_requests st) (st_queues st) (st_operations st) ((r, ec) :: st_callbacks st).

Definition set_completed (r : queue_request) : queue_request :=
  QueueRequest true (qr_queued_with r) (qr_waiting_in r) (qr_persistent r) (qr_opaque r) (qr_scope r) (qr_collection r)
    (qr_collection_id r) (qr_deadline r) (qr_backoff r) (qr_retries r).
Definition set_queued_with (q : option nat) (r : queue_request) : queue_request :=
  QueueRequest (qr_completed r) q (qr_waiting_in r) (qr_persistent r) (qr_opaque r) (qr_scope r) (qr_collection r)
    (qr_collection_id r) (qr_deadline r) (qr_backoff r) (qr_retries r).
Definition set_waiting_in (s : option nat) (r : queue_request) : queue_request :=
  QueueRequest (qr_completed r) (qr_queued_with r) s (qr_persistent r) (qr_opaque r) (qr_scope r) (qr_collection r)
    (qr_collection_id r) (qr_deadline r) (qr_backoff r) (qr_retries r).
Definition set_collection_id (id : Z) (r : queue_request) : queue_request :=
  QueueRequest (qr_completed r) (qr_queued_with r) (qr_waiting_in r) (qr_persistent r) (qr_opaque r) (qr_scope r)
    (qr_collection r) id (qr_deadline r) (qr_backoff r) (qr_retries r).
Definition set_opaque (opaque : Z) (r : queue_request) : queue_request :=
  QueueRequest (qr_completed r) (qr_queued_with r) (qr_waiting_in r) (qr_persistent r) opaque (qr_scope r) (qr_collection r)
    (qr_collection_id r) (qr_deadline r) (qr_backoff r) (qr_retries r).
Definition set_timers (deadline backoff : bool) (r : queue_request) : queue_request :=
  QueueRequest (qr_completed r) (qr_queued_with r) (qr_waiting_in r) (qr_persistent r) (qr_opaque r) (qr_scope r)
    (qr_collection r) (qr_collection_id r) deadline backoff (qr_retries r).
Definition set_retries (rr : retry_request) (r : queue_request) : queue_request :=
  QueueRequest (qr_completed r) (qr_queued_with r) (qr_waiting_in r) (qr_persistent r) (qr_opaque r) (qr_scope r)
    (qr_collection r) (qr_collection_id r) (qr_deadline r) (qr_backoff r) rr.

Definition set_items (l : list nat) (q : operation_queue) : operation_queue := OperationQueue l (q_is_open q).

(** [std::atomic::compare_exchange_strong] on [queued_with_] *)
Definition cas_queued_with (r : nat) (expected desired : option nat) (st : store) : bool * store :=
  match st_requests st !! r with
  | Some req =>
      if decide (qr_queued_with req = expected) then (true, upd_request r (set_queued_with desired) st) else (false, st)
  | None => (false, st)
  end.

(** ** [operation_queue] *)

(** [push]; [None] stands for the empty error code. *)
Definition push (q r : nat) (max_items : Z) (st : store) : option error_code * store :=
  match st_queues st !! q, st_requests st !! r with
  | Some queue, Some request =>
      if negb (q_is_open queue) then (Some operation_queue_closed, st)
      else if bool_decide (0 < max_items) && bool_decide (max_items ≤ zsize (q_items queue))
      then (Some operation_queue_full, st)
      else
        let '(exchanged, st) := cas_queued_with r None (Some q) st in
        if negb exchanged then (Some request_already_queued, st)
        else if qr_completed request then (Some request_cancelled, upd_request r (set_queued_with None) st)
        else (None, upd_queue q (λ queue, set_items (q_items queue ++ [r]) queue) st)
  | _, _ => (Some operation_queue_closed, st)
  end.

(** Erases the first occurrence: [std::find] and [std::list::erase]. *)
Fixpoint erase_first (r : nat) (l : list nat) : option (list nat) :=
  match l with
  | [] => None
  | x :: l => if decide (x = r) then Some l else cons x <$> erase_first r l
  end.

Definition remove (q r : nat) (st : store) : bool * store :=
  match st_queues st !! q with
  | Some queue =>
      if negb (q_is_open queue) then (false, st)
      else
        let '(exchanged, st) := cas_queued_with r None None st in
        if negb exchanged then (false, st)
        else
          match erase_first r (q_items queue) with
          | Some items => (true, upd_queue q (set_items items) st)
          | None => (false, st)
          end
  | None => (false, st)
  end.

Definition close_queue (q : nat) (st : store) : store := upd_queue q (λ queue, OperationQueue (q_items queue) false) st.

(** [items_to_drain] *)
Definition items_to_drain (q : nat) (st : store) : list nat * store :=
  match st_queues st !! q with
  | Some queue =>
      if q_is_open queue then ([], st)
      else if decide (q_items queue = []) then ([], st)
      else (q_items queue, foldl (λ st r, upd_request r (set_queued_with None) st) (upd_queue q (set_items []) st) (q_items queue))
  | None => ([], st)
  end.

(** [drain] with a callback that acts on the store. *)
Definition drain (q : nat) (callback : nat → store → store) (st : store) : store :=
  let '(items, st) := items_to_drain q st in foldl (λ st r, callback r st) st items.

(** What a call of [pop] does with a given state of the queue: it waits until
    the predicate it gives to [wait] holds. *)
Inductive popped :=
  | pop_waits
  | pop_returns (request : option nat) (st : store).

Definition pop (q : nat) (consumer_closed : bool) (st : store) : outcome error_code popped :=
  match st_queues st !! q with
  | None => Fault
  | Some queue =>
      let predicate := q_is_open queue && negb consumer_closed && bool_decide (q_items queue = []) in
      if negb predicate then Ok pop_waits
      else if negb (q_is_open queue) || consumer_closed then Ok (pop_returns None st)
      else
        request ← at_ (q_items queue) 0;
        let st := upd_queue q (set_items (drop 1 (q_items queue))) st in
        Ok (pop_returns (Some request) (upd_request request (set_queued_with None) st))
  end.

(** [close_consumer] and [operation_consumer::close], which call each other;
    [locked] tells whether the caller holds the mutex, whose lock is undefined
    then. *)
Fixpoint close_consumer (fuel : nat) (locked : bool) : outcome error_code unit :=
  match fuel with
  | O => Diverge
  | S fuel => if locked then Fault else close_consumer fuel true
  end.
Definition consumer_close (fuel : nat) : outcome error_code unit := close_consumer fuel false.

(** ** [queue_request] *)

(** [operation_map::remove_request] of a session: whatever has the opaque. *)
Definition remove_request (session : nat) (r : nat) (st : store) : store :=
  match st_requests st !! r with
  | Some request => upd_operations (delete (session, qr_opaque request)) st
  | None => st
  end.

(** [mcbp_session_impl::enqueue_request] *)
Definition enqueue_request (session : nat) (opaque : Z) (r : nat) (st : store) : store :=
  upd_operations (λ ops, match ops !! (session, opaque) with Some _ => ops | None => <[(session, opaque) := r]> ops end)
    (upd_request r (set_waiting_in (Some session)) st).

Definition internal_cancel (r : nat) (st : store) : bool * store :=
  match st_requests st !! r with
  | None => (false, st)
  | Some request =>
      if qr_completed request then (false, st)
      else
        let st := upd_request r (λ request, set_timers false false (set_completed request)) st in
        let st := match qr_queued_with request with Some q => (remove q r st).2 | None => st end in
        let st := match qr_waiting_in request with Some s => remove_request s r st | None => st end in
        (true, st)
  end.

(** What a call still has to do once it decided to call back: those that
    completed the request move [callback_] out of it before they invoke it, the
    others invoke it where it is. *)
Record invocation := Invocation { iv_request : nat; iv_error : option error_code; iv_moves : bool }.

(** [cancel(error)] up to the invocation. *)
Definition cancel_test (r : nat) (error : error_code) (st : store) : option invocation * store :=
  let '(cancelled, st) := internal_cancel r st in
  (if cancelled then Some (Invocation r (Some error) true) else None, st).

(** The two sections of [try_callback] before the invocation: the one under
    the mutex, and the one without. *)
Definition stop_timers (r : nat) (st : store) : store := upd_request r (set_timers false false) st.

Definition try_callback_test (r : nat) (error : option error_code) (st : store) : option invocation * store :=
  match st_requests st !! r with
  | None => (None, st)
  | Some request =>
      if qr_persistent request then
        match error with
        | Some error => cancel_test r error st
        | None => (if qr_completed request then None else Some (Invocation r None false), st)
        end
      else if qr_completed request then (None, st)
      else (Some (Invocation r error true), upd_request r set_completed st)
  end.

Definition perform (i : option invocation) (st : store) : store :=
  match i with Some i => invoke_callback (iv_request i) (iv_error i) st | None => st end.

(** The calls without interference. *)
Definition cancel (r : nat) (error : error_code) (st : store) : store :=
  let '(i, st) := cancel_test r error st in perform i st.

Definition try_callback (r : nat) (error : option error_code) (st : store) : store :=
  let '(i, st) := try_callback_test r error (stop_timers r st) in perform i st.

(** ** Interleavings *)

Inductive queue_step : store → store → Prop :=
  | step_new st r request :
      st_requests st !! r = None → qr_completed request = false → qr_queued_with request = None →
      queue_step st (Store (<[r := request]> (st_requests st)) (st_queues st) (st_operations st) (st_callbacks st))
  | step_new_queue st q :
      st_queues st !! q = None →
      queue_step st (Store (st_requests st) (<[q := OperationQueue [] true]> (st_queues st)) (st_operations st) (st_callbacks st))
  | step_push st q r max_items : queue_step st (push q r max_items st).2
  | step_remove st q r : queue_step st (remove q r st).2
  | step_close st q : queue_step st (close_queue q st)
  | step_items_to_drain st q : queue_step st (items_to_drain q st).2
  | step_pop st q consumer_closed request st' :
      pop q consumer_closed st = Ok (pop_returns request st') → queue_step st st'
  | step_internal_cancel st r : queue_step st (internal_cancel r st).2
  | step_enqueue st session opaque r : queue_step st (enqueue_request session opaque r st)
  | step_set_collection st r id : queue_step st (upd_request r (set_collection_id id) st)
  | step_set_timers st r deadline backoff : queue_step st (upd_request r (set_timers deadline backoff) st)
  | step_set_retries st r rr : queue_step st (upd_request r (set_retries rr) st).

Definition empty_store : store := Store ∅ ∅ ∅ [].

(** Calls under way: the requests whose [callback_] was moved away, and what
    the threads still have to do. *)
Record threads := Threads { th_store : store; th_moved : gset nat; th_under_way : list invocation }.

Definition begin_call (w : threads) (call : option invocation * store) : threads :=
  Threads call.2 (th_moved w) (option_list call.1 ++ th_under_way w).

(** Takes up an invocation; [None] stands for [std::bad_function_call], which
    calling an empty function throws. *)
Definition invoke (i : invocation) (w : threads) : option threads :=
  if decide (iv_request i ∈ th_moved w) then None
  else Some (Threads (invoke_callback (iv_request i) (iv_error i) (th_store w))
    (if iv_moves i then {[iv_request i]} ∪ th_moved w else th_moved w) (th_under_way w)).

Definition set_under_way (l : list invocation) (w : threads) : threads := Threads (th_store w) (th_moved w) l.

(** [call_fails] is an invocation that throws in its thread. *)
Inductive thread_step : threads → threads → Prop :=
  | call_queue w st : queue_step (th_store w) st → thread_step w (Threads st (th_moved w) (th_under_way w))
  | call_cancel w r error : thread_step w (begin_call w (cancel_test r error (th_store w)))
  | call_stop_timers w r : thread_step w (Threads (stop_timers r (th_store w)) (th_moved w) (th_under_way w))
  | call_try_callback w r error : thread_step w (begin_call w (try_callback_test r error (th_store w)))
  | call_invoke w l1 i l2 w' :
      th_under_way w = l1 ++ i :: l2 → invoke i (set_under_way (l1 ++ l2) w) = Some w' → thread_step w w'
  | call_fails w l1 i l2 :
      th_under_way w = l1 ++ i :: l2 → invoke i (set_under_way (l1 ++ l2) w) = None →
      thread_step w (set_under_way (l1 ++ l2) w).

Definition no_threads : threads := Threads empty_store ∅ [].

(** ** What the transitions keep *)

(** What the completion of a request depends on. *)
Definition fate (st : store) (r : nat) : option (bool * bool) :=
  (λ request, (qr_completed request, qr_persistent request)) <$> st_requests st !! r.

Lemma lookup_upd_request r f st r' :
  st_requests (upd_request r f st) !! r' = if decide (r = r') then f <$> st_requests st !! r' else st_requests st !! r'.
Proof.
  unfold upd_request. cbn [st_requests]. case_decide as Hr; [subst; apply lookup_alter_eq|by apply lookup_alter_ne].
Qed.

(** Transitions that complete nothing and call nobody. *)
Definition quiet (st st' : store) : Prop :=
  (∀ r, fate st' r = fate st r) ∧ st_callbacks st' = st_callbacks st.

Lemma quiet_refl st : quiet st st.
Proof. done. Qed.
Lemma quiet_trans st1 st2 st3 : quiet st1 st2 → quiet st2 st3 → quiet st1 st3.
Proof. intros [H1 C1] [H2 C2]. split; [intros r; by rewrite H2|by rewrite C2]. Qed.
Global Instance quiet_preorder : PreOrder quiet.
Proof. split; [exact quiet_refl|exact quiet_trans]. Qed.

Lemma quiet_upd_request r f st :
  (∀ request, qr_completed (f request) = qr_completed request ∧ qr_persistent (f request) = qr_persistent request) →
  quiet st (upd_request r f st).
Proof.
  intros Hf. split; [|done]. intros r'. unfold fate. rewrite lookup_upd_request. case_decide; [|done].
  destruct (st_requests st !! r') as [request|]; [|done]. cbn. by destruct (Hf request) as [-> ->].
Qed.

Lemma quiet_upd_queue q f st : quiet st (upd_queue q f st).
Proof. done. Qed.
Lemma quiet_upd_operations f st : quiet st (upd_operations f st).
Proof. done. Qed.

Create HintDb queues discriminated.
#[export] Hint Resolve quiet_refl quiet_upd_queue quiet_upd_operations : queues.
#[export] Hint Extern 1 (quiet _ (upd_request _ _ _)) => (by apply quiet_upd_request) : queues.

Lemma quiet_cas r expected desired st : quiet st (cas_queued_with r expected desired st).2.
Proof. unfold cas_queued_with. destruct (st_requests st !! r); [case_decide|]; cbn [snd]; auto with queues. Qed.

Lemma quiet_push q r max_items st : quiet st (push q r max_items st).2.
Proof.
  unfold push. destruct (st_queues st !! q) as [queue|]; [|done]. destruct (st_requests st !! r) as [request|]; [|done].
  destruct (negb (q_is_open queue)); [done|]. destruct (_ && _); [done|].
  pose proof (quiet_cas r None (Some q) st) as Hcas. destruct (cas_queued_with r None (Some q) st) as [exchanged st1].
  cbn [snd] in Hcas. destruct (negb exchanged); [done|]. etrans; [exact Hcas|].
  destruct (qr_completed request); cbn [snd]; auto with queues.
Qed.

Lemma quiet_remove q r st : quiet st (remove q r st).2.
Proof.
  unfold remove. destruct (st_queues st !! q) as [queue|]; [|done]. destruct (negb (q_is_open queue)); [done|].
  pose proof (quiet_cas r None None st) as Hcas. destruct (cas_queued_with r None None st) as [exchanged st1].
  cbn [snd] in Hcas. destruct (negb exchanged); [done|]. etrans; [exact Hcas|].
  destruct (erase_first r (q_items queue)); cbn [snd]; auto with queues.
Qed.

Lemma quiet_foldl (f : store → nat → store) l st : (∀ st r, quiet st (f st r)) → quiet st (foldl f st l).
Proof.
  intros Hf. revert st. induction l as [|r l IH]; intros st; [done|]. cbn [foldl]. etrans; [apply Hf|apply IH].
Qed.

Lemma quiet_items_to_drain q st : quiet st (items_to_drain q st).2.
Proof.
  unfold items_to_drain. destruct (st_queues st !! q) as [queue|]; [|done]. destruct (q_is_open queue); [done|].
  case_decide; [done|]. cbn [snd]. etrans; [apply quiet_upd_queue|]. apply quiet_foldl. auto with queues.
Qed.

Lemma quiet_remove_request session r st : quiet st (remove_request session r st).
Proof. unfold remove_request. by destruct (st_requests st !! r). Qed.

Lemma quiet_enqueue session opaque r st : quiet st (enqueue_request session opaque r st).
Proof. unfold enqueue_request. etrans; [|apply quiet_upd_operations]. auto with queues. Qed.
#[export] Hint Resolve quiet_cas quiet_push quiet_remove quiet_items_to_drain quiet_remove_request quiet_enqueue : queues.

(** [internal_cancel] completes a request that has not completed, and nothing
    else. *)
Lemma internal_cancel_fate r st :
  st_callbacks (internal_cancel r st).2 = st_callbacks st ∧
  (∀ r', r' ≠ r → fate (internal_cancel r st).2 r' = fate st r') ∧
  match fate st r with
  | Some (false, p) => (internal_cancel r st).1 = true ∧ fate (internal_cancel r st).2 r = Some (true, p)
  | _ => internal_cancel r st = (false, st)
  end.
Proof.
  unfold internal_cancel, fate at 3. destruct (st_requests st !! r) as [request|] eqn:Hr; [|done]. cbn.
  destruct (qr_completed request) eqn:Hc; [done|]. cbn [fst snd].
  set (st1 := upd_request r _ st). set (st3 := match qr_waiting_in request with Some s => _ | None => _ end).
  assert (Hq : quiet st1 st3).
  { unfold st3. etrans; [|by destruct (qr_waiting_in request); auto with queues].
    destruct (qr_queued_with request); auto with queues. }
  destruct Hq as [Hf Hcb]. split; [done|]. split; [intros r' Hne|split; [done|]]; rewrite Hf; unfold fate, st1;
    rewrite lookup_upd_request; [by rewrite decide_False|]. rewrite decide_True, Hr by done. done.
Qed.

(** ** Every request is answered at most once *)

(** The invocations of the callback of a request, newest first, and those that
    are under way. *)
Definition calls (st : store) (r : nat) : list (option error_code) := snd <$> filter (λ e, e.1 = r) (st_callbacks st).
Definition under_way (w : threads) (r : nat) : list invocation := filter (λ i, iv_request i = r) (th_under_way w).

(** The outcomes that end a request: all, or, when it is persistent, those
    that report an error. *)
Definition ending (persistent : bool) (l : list (option error_code)) : list (option error_code) :=
  filter (λ e, persistent = false ∨ e ≠ None) l.

Lemma calls_invoke r error st r' :
  calls (invoke_callback r error st) r' = if decide (r = r') then error :: calls st r' else calls st r'.
Proof. unfold calls, invoke_callback. cbn [st_callbacks]. rewrite filter_cons. cbn [fst]. by case_decide. Qed.

Lemma quiet_calls st st' r : quiet st st' → calls st' r = calls st r.
Proof. intros [_ H]. unfold calls. by rewrite H. Qed.

(** What the state records of a request: one of moved and about to be moved,
    and only when it completed. *)
Record recorded (w : threads) (r : nat) (completed persistent : bool) : Prop := {
  rec_kinds i : i ∈ under_way w r → iv_moves i = true ↔ (persistent = false ∨ iv_error i ≠ None);
  rec_once : ((if decide (r ∈ th_moved w) then 1 else 0) + length (ending persistent (iv_error <$> under_way w r)) ≤
             (if completed then 1 else 0))%nat;
  rec_called : length (ending persistent (calls (th_store w) r)) = if decide (r ∈ th_moved w) then 1%nat else 0%nat;
}.

Definition traced (w : threads) (r : nat) : Prop :=
  match fate (th_store w) r with
  | Some (completed, persistent) => recorded w r completed persistent
  | None => calls (th_store w) r = [] ∧ under_way w r = [] ∧ r ∉ th_moved w
  end.

Lemma ending_perm p l l' : l ≡ₚ l' → ending p l ≡ₚ ending p l'.
Proof. intros H. unfold ending. by rewrite H. Qed.

Lemma traced_ext w w' r :
  fate (th_store w') r = fate (th_store w) r → calls (th_store w') r = calls (th_store w) r →
  under_way w' r ≡ₚ under_way w r → (r ∈ th_moved w' ↔ r ∈ th_moved w) → traced w r → traced w' r.
Proof.
  intros Hf Hc Hu Hm. unfold traced. rewrite Hf, Hc. destruct (fate (th_store w) r) as [[c p]|].
  - intros [H1 H2 H3].
    assert (Hd : (if decide (r ∈ th_moved w') then 1 else 0)%nat = (if decide (r ∈ th_moved w) then 1 else 0)%nat)
      by (do 2 case_decide; naive_solver).
    split; rewrite ?Hc, ?Hd; [intros i; rewrite Hu; apply H1| |done].
    by rewrite (ending_perm p _ _ (fmap_Permutation iv_error _ _ Hu)).
  - intros (H1 & H2 & H3). rewrite H2 in Hu. split_and!; [done|by apply Permutation_nil_r|naive_solver].
Qed.

Lemma traced_quiet w st r : quiet (th_store w) st → traced w r → traced (Threads st (th_moved w) (th_under_way w)) r.
Proof. intros Hq. apply traced_ext; [apply Hq|by apply quiet_calls|done..]. Qed.

(** Completing a request without calling it back, and beginning to. *)
Lemma traced_complete w st call r :
  st_callbacks st = st_callbacks (th_store w) →
  (∀ r', r' ≠ r → fate st r' = fate (th_store w) r') →
  (∀ p, fate (th_store w) r = Some (false, p) → fate st r = Some (true, p) ∧
     match call with Some i => iv_request i = r ∧ iv_moves i = true ∧ (p = false ∨ iv_error i ≠ None) | None => True end) →
  ((∀ p, fate (th_store w) r ≠ Some (false, p)) → fate st r = fate (th_store w) r ∧ call = None) →
  (∀ r', traced w r') → ∀ r', traced (begin_call w (call, st)) r'.
Proof.
  intros Hcb Hother Hfresh Hold H r'. assert (Hcalls : ∀ r, calls st r = calls (th_store w) r) by (intros; unfold calls; by rewrite Hcb).
  destruct (decide (∃ p, fate (th_store w) r = Some (false, p))) as [[p Hp]|Hn].
  - destruct (Hfresh p Hp) as [Hst Hcall]. destruct (decide (r' = r)) as [->|Hne].
    + specialize (H r). unfold traced in *. cbn [begin_call fst snd th_store]. rewrite Hst. rewrite Hp in H.
      destruct H as [H1 H2 H3]. cbn match in H2. assert (Hz : length (ending p (iv_error <$> under_way w r)) = 0%nat) by (destruct (decide (r ∈ th_moved w)); lia).
      assert (Hm : r ∉ th_moved w) by (intros Hm; rewrite decide_True in H2 by done; lia). rewrite decide_False in H2, H3 by done.
      assert (Hu : under_way (begin_call w (call, st)) r = option_list call ++ under_way w r).
      { unfold under_way, begin_call. cbn [th_under_way fst]. rewrite filter_app. f_equal. destruct call as [i|]; [|done].
        cbn. unfold filter. cbn. rewrite decide_True by apply Hcall. done. }
      split; [intros i|..]; rewrite ?Hu; cbn [begin_call th_store th_moved fst snd]; rewrite ?Hcalls, ?decide_False by done; [| |done].
      * destruct call as [i'|]; [|apply H1]. cbn [option_list option_rect app]. intros [->|Hin]%elem_of_cons; [naive_solver|by apply H1].
      * destruct call as [i'|]; cbn [option_list option_rect app]; [|rewrite Hz; cbn; lia].
        rewrite fmap_cons. unfold ending in *. rewrite filter_cons, (decide_True (P := _ ∨ _)) by naive_solver. cbn [length]. by rewrite Hz.
    + apply (traced_ext w); cbn [begin_call th_store th_moved th_under_way fst snd]; [by apply Hother|done| |done|apply H].
      unfold under_way. cbn [th_under_way]. destruct call as [i'|]; [|done]. cbn. unfold filter. cbn. rewrite decide_False; [done|].
      destruct Hcall as [-> _]. congruence.
  - destruct Hold as [Hst ->]; [naive_solver|]. apply (traced_ext w); cbn; [|done..|apply H].
    destruct (decide (r' = r)) as [->|Hne]; [done|by apply Hother].
Qed.

Lemma cancel_test_callbacks r error st : st_callbacks (cancel_test r error st).2 = st_callbacks st.
Proof.
  unfold cancel_test. destruct (internal_cancel_fate r st) as [H _]. by destruct (internal_cancel r st).
Qed.

Lemma cancel_test_call r error st :
  (cancel_test r error st).2 = (internal_cancel r st).2 ∧
  (cancel_test r error st).1 = match fate st r with Some (false, _) => Some (Invocation r (Some error) true) | _ => None end.
Proof.
  unfold cancel_test. destruct (internal_cancel_fate r st) as (_ & _ & H).
  destruct (internal_cancel r st) as [b st']. cbn in *. split; [done|].
  destruct (fate st r) as [[[] p]|]; [by injection H as -> ->|by destruct H as [-> _]|by injection H as -> ->].
Qed.

Lemma traced_internal_cancel r call w :
  match fate (th_store w) r with
  | Some (false, p) => match call with Some i => iv_request i = r ∧ iv_moves i = true ∧ (p = false ∨ iv_error i ≠ None) | None => True end
  | _ => call = None
  end →
  (∀ r', traced w r') → ∀ r', traced (begin_call w (call, (internal_cancel r (th_store w)).2)) r'.
Proof.
  intros Hcall. destruct (internal_cancel_fate r (th_store w)) as (Hcb & Hother & Hr). apply (traced_complete w _ _ r); [done..| |].
  - intros p Hp. rewrite Hp in *. by destruct Hr as [_ ->].
  - intros Hn. destruct (fate (th_store w) r) as [[[] p]|] eqn:Hf; [|by destruct (Hn p)|]; rewrite Hr; cbn [snd]; by rewrite ?Hf.
Qed.

Lemma traced_cancel_test r error w : (∀ r', traced w r') → ∀ r', traced (begin_call w (cancel_test r error (th_store w))) r'.
Proof.
  intros H r'. pose proof (cancel_test_call r error (th_store w)) as [H1 H2].
  destruct (cancel_test r error (th_store w)) as [call st]. cbn [fst snd] in *. subst.
  apply traced_internal_cancel; [|done]. destruct (fate _ r) as [[[] p]|]; [done| |done]. cbn. split_and!; [done..|by right].
Qed.

Lemma fate_set_completed r st r' :
  fate (upd_request r set_completed st) r' = if decide (r = r') then (λ f, (true, f.2)) <$> fate st r' else fate st r'.
Proof. unfold fate. rewrite lookup_upd_request. case_decide; [|done]. by destruct (st_requests st !! r'). Qed.

Lemma traced_try_callback_test r error w :
  (∀ r', traced w r') → ∀ r', traced (begin_call w (try_callback_test r error (th_store w))) r'.
Proof.
  intros H. unfold try_callback_test. destruct (st_requests (th_store w) !! r) as [request|] eqn:Hr; [|intros r'; apply (traced_ext w); done].
  assert (Hf : fate (th_store w) r = Some (qr_completed request, qr_persistent request)) by (unfold fate; by rewrite Hr).
  destruct (qr_persistent request) eqn:Hp; [destruct error as [e|]; [by apply traced_cancel_test|]|];
    destruct (qr_completed request) eqn:Hc; [by intros r'; apply (traced_ext w)| |by intros r'; apply (traced_ext w)|].
  - intros r'. destruct (decide (r' = r)) as [->|Hne].
    + specialize (H r). unfold traced in *. cbn [begin_call fst snd th_store]. rewrite Hf in *. destruct H as [H1 H2 H3].
      assert (Hu : under_way (begin_call w (Some (Invocation r None false), th_store w)) r = Invocation r None false :: under_way w r).
      { unfold under_way, begin_call. cbn. unfold filter. cbn. by rewrite decide_True. }
      split; [|rewrite Hu, fmap_cons; unfold ending in *; rewrite filter_cons, (decide_False (P := _ ∨ _)) by (cbn [iv_error]; intros [?|?]; congruence); exact H2|exact H3].
      intros i. rewrite Hu. intros [->|Hin]%elem_of_cons; [cbn; naive_solver|by apply H1].
    + apply (traced_ext w); [done|done| |done|apply H]. unfold under_way, begin_call. cbn. unfold filter. cbn. by rewrite decide_False by congruence.
  - apply (traced_complete w _ _ r); [done| | | |done].
    + intros r' Hne. by rewrite fate_set_completed, decide_False.
    + intros p. rewrite Hf. intros [= <-]. rewrite fate_set_completed, decide_True, Hf by done. cbn. auto.
    + intros Hn. by destruct (Hn false).
Qed.

Lemma pop_quiet q consumer_closed st request st' :
  pop q consumer_closed st = Ok (pop_returns request st') → quiet st st'.
Proof.
  unfold pop. destruct (st_queues st !! q) as [queue|]; [|done].
  destruct (q_is_open queue); cbn [andb orb negb]; [|done]. destruct consumer_closed; cbn [andb orb negb]; [done|].
  case_bool_decide as Hn; cbn [negb]; [by rewrite Hn|done].
Qed.

Lemma traced_queue_step w st :
  queue_step (th_store w) st → (∀ r, traced w r) → ∀ r, traced (Threads st (th_moved w) (th_under_way w)) r.
Proof.
  destruct w as [st0 moved ways]. cbn [th_store th_moved th_under_way]. intros Hstep H.
  destruct Hstep as [s r request Hn Hcm Hq|s q Hn|s q r m|s q r|s q|s q|s q cc request st' Hpop|s r|s sn o r|s r id|s r d b|s r rr];
    try (intros r'; apply (traced_quiet (Threads s moved ways)); [cbn; eauto using pop_quiet with queues|apply H]; fail).
  - intros r'. destruct (decide (r = r')) as [<-|Hne].
    2: { apply (traced_ext (Threads s moved ways)); [|done..|apply H]. unfold fate. cbn. by rewrite lookup_insert_ne. }
    specialize (H r). unfold traced, fate, calls, under_way in *. cbn [th_store th_moved th_under_way st_requests st_callbacks] in *.
    rewrite lookup_insert_eq. rewrite Hn in H. cbn in *. rewrite Hcm. destruct H as (H1 & H2 & H3).
    split; unfold under_way, calls; cbn [th_store th_moved th_under_way st_callbacks].
    + intros i. rewrite H2. by intros ?%elem_of_nil.
    + rewrite H2, decide_False by done. done.
    + rewrite H1, decide_False by done. done.
  - intros r'. by apply (traced_ext (Threads s moved ways)).
  - by apply (traced_internal_cancel r None (Threads s moved ways)); [cbn; destruct (fate s r) as [[[] ?]|]|].
Qed.

Lemma under_way_split w l1 i l2 r :
  th_under_way w = l1 ++ i :: l2 →
  under_way w r ≡ₚ (if decide (iv_request i = r) then [i] else []) ++ under_way (set_under_way (l1 ++ l2) w) r.
Proof.
  intros Hw. unfold under_way, set_under_way. cbn [th_under_way]. rewrite Hw, !filter_app, filter_cons.
  case_decide; cbn [app]; [|done]. by rewrite Permutation_middle.
Qed.

(** Taking up an invocation. *)
Lemma traced_invoke w l1 i l2 :
  th_under_way w = l1 ++ i :: l2 → (∀ r, traced w r) →
  ∀ r, traced (default (set_under_way (l1 ++ l2) w) (invoke i (set_under_way (l1 ++ l2) w))) r.
Proof.
  intros Hw H r. pose proof (under_way_split w l1 i l2 r Hw) as Hperm. specialize (H r).
  set (w0 := set_under_way (l1 ++ l2) w) in *. destruct (decide (iv_request i = r)) as [Hi|Hi].
  - unfold traced in H. destruct (fate (th_store w) r) as [[c p]|] eqn:Hf.
    2: { destruct H as (_ & H & _). rewrite H in Hperm. by apply Permutation_nil_l in Hperm. }
    destruct H as [H1 H2 H3]. pose proof (H1 i) as Hk. rewrite Hperm in Hk. specialize (Hk ltac:(left)).
    rewrite (ending_perm p _ _ (fmap_Permutation iv_error _ _ Hperm)) in H2. cbn [app fmap list_fmap] in H2.
    assert (Hk0 : ∀ j, j ∈ under_way w0 r → iv_moves j = true ↔ (p = false ∨ iv_error j ≠ None))
      by (intros j Hj; apply H1; rewrite Hperm; by right).
    unfold ending in H2. rewrite filter_cons in H2. fold (ending p (iv_error <$> under_way w0 r)) in H2.
    unfold invoke. rewrite Hi. change (th_moved w0) with (th_moved w). unfold traced.
    destruct (decide (r ∈ th_moved w)) as [Hm|Hm]; cbn [from_option id th_store]; change (th_store w0) with (th_store w).
    + change (fate (invoke_callback r (iv_error i) (th_store w)) r) with (fate (th_store w) r) in *. rewrite Hf.
      split; [exact Hk0| |]; change (th_moved w0) with (th_moved w); rewrite decide_True by done; [|exact H3].
      case_decide; cbn [length] in H2; lia.
    + change (fate (invoke_callback r (iv_error i) (th_store w)) r) with (fate (th_store w) r). rewrite Hf.
      split; [exact Hk0| |]; cbn [th_moved th_store]; change (th_moved w0) with (th_moved w).
      * change (under_way _ r) with (under_way w0 r). destruct (iv_moves i); [rewrite decide_True by set_solver|rewrite decide_False by done];
          case_decide; cbn [length] in H2; try lia; naive_solver.
      * rewrite calls_invoke, decide_True by done. unfold ending in *. rewrite filter_cons.
        change (th_store w0) with (th_store w).
        destruct (iv_moves i); [rewrite (decide_True (P := r ∈ _)) by set_solver|rewrite (decide_False (P := r ∈ _)) by done];
          case_decide; cbn [length]; rewrite ?H3; naive_solver.
  - apply (traced_ext w); [..|done]; unfold invoke; change (th_moved w0) with (th_moved w); case_decide as Hm; cbn [from_option id th_store th_moved]; try done.
    + rewrite calls_invoke. by rewrite decide_False.
    + destruct (iv_moves i); set_solver.
Qed.

Lemma traced_step w w' : thread_step w w' → (∀ r, traced w r) → ∀ r, traced w' r.
Proof.
  intros Hstep H. destruct Hstep as [w st Hq|w r error|w r|w r error|w l1 i l2 w' Hw Hi|w l1 i l2 Hw Hi].
  - by apply traced_queue_step.
  - by apply traced_cancel_test.
  - intros r'. apply traced_quiet; [|apply H]. unfold stop_timers. auto with queues.
  - by apply traced_try_callback_test.
  - intros r. pose proof (traced_invoke w l1 i l2 Hw H r) as Ht. by rewrite Hi in Ht.
  - intros r. pose proof (traced_invoke w l1 i l2 Hw H r) as Ht. by rewrite Hi in Ht.
Qed.

Lemma reachable_traced w : rtc thread_step no_threads w → ∀ r, traced w r.
Proof.
  revert w. apply (rtc_ind_r (λ w, ∀ r, traced w r)).
  - intros r. unfold traced, fate, calls, under_way. cbn. rewrite lookup_empty. split_and!; [done..|apply not_elem_of_empty].
  - intros. by eapply traced_step.
Qed.

(** Without interference a call is answered in one go. *)
Lemma calls_cancel r error p st :
  fate st r = Some (false, p) → calls (cancel r error st) r = Some error :: calls st r.
Proof.
  intros Hf. unfold cancel. destruct (cancel_test_call r error st) as [_ Hc]. rewrite Hf in Hc.
  pose proof (cancel_test_callbacks r error st) as Hb. destruct (cancel_test r error st) as [call st']. cbn [fst snd] in *. subst call.
  cbn [perform iv_request iv_error]. rewrite calls_invoke, decide_True by done. unfold calls. by rewrite Hb.
Qed.

Lemma fate_stop_timers r st r' : fate (stop_timers r st) r' = fate st r'.
Proof. by apply (quiet_upd_request r (set_timers false false) st). Qed.

(** What the test of [try_callback] begins with a pending request. *)
Lemma try_callback_test_call r error st :
  match fate st r with
  | Some (false, p) => (try_callback_test r error st).1 =
      Some (Invocation r error (negb p || bool_decide (error ≠ None))) ∧
      (p = false ∨ error ≠ None → fate (try_callback_test r error st).2 r = Some (true, p))
  | _ => try_callback_test r error st = (None, st)
  end ∧ st_callbacks (try_callback_test r error st).2 = st_callbacks st.
Proof.
  unfold try_callback_test. destruct (st_requests st !! r) as [request|] eqn:Hr; [|by unfold fate; rewrite Hr].
  assert (Hf : fate st r = Some (qr_completed request, qr_persistent request)) by (unfold fate; by rewrite Hr).
  pose proof Hf as Hf'. rewrite Hf. destruct (qr_persistent request) eqn:Hp.
  - destruct error as [error|]; [|destruct (qr_completed request); cbn; split; [done|done|split; [done|]; by intros [?|?]|done]].
    destruct (cancel_test_call r error st) as [H1 H2]. destruct (internal_cancel_fate r st) as (H3 & _ & H4).
    split; [|by rewrite H1]. rewrite Hf in H2, H4.
    destruct (qr_completed request); [unfold cancel_test; by rewrite H4|]. rewrite H1, H2. split; [done|]. intros _. apply H4.
  - destruct (qr_completed request); [done|]. split; [|done]. split; [done|]. intros _. cbn [snd].
    by rewrite fate_set_completed, decide_True, Hf.
Qed.

Lemma calls_try_callback r error p st :
  fate st r = Some (false, p) → calls (try_callback r error st) r = error :: calls st r.
Proof.
  intros Hf. unfold try_callback. destruct (try_callback_test_call r error (stop_timers r st)) as [Hc Hb].
  rewrite fate_stop_timers, Hf in Hc. destruct Hc as [Hc _].
  destruct (try_callback_test r error _) as [call st']. cbn [fst snd] in *. subst call. cbn [perform iv_request iv_error].
  rewrite calls_invoke, decide_True by done. unfold calls. by rewrite Hb.
Qed.

(** C35: a request is answered at most once.  Threads push, remove, drain,
    pop, cancel and answer; each call is the sections under the mutex, the
    exchange of [is_completed_] and, separately, the invocation.  However
    they interleave, of the outcomes that end a request (all of them, or, for
    a persistent one, those with an error) at most one was given to its
    callback or is about to be, and none before the request completed; the
    one that is about to be is given when its thread goes on, and after it
    nothing is; cancelling or answering a pending request begins the
    invocation with the outcome of the call, and with a completed one
    nothing. *)
Theorem request_answered_once w r completed persistent :
  rtc thread_step no_threads w → fate (th_store w) r = Some (completed, persistent) →
  (length (ending persistent (calls (th_store w) r)) + length (ending persistent (iv_error <$> under_way w r)) ≤
     if completed then 1 else 0)%nat ∧
  (∀ l1 i l2, th_under_way w = l1 ++ i :: l2 → iv_request i = r →
     if decide (persistent = false ∨ iv_error i ≠ None)
     then ∃ w', invoke i (set_under_way (l1 ++ l2) w) = Some w' ∧ calls (th_store w') r = iv_error i :: calls (th_store w) r
     else ending persistent (calls (th_store w) r) ≠ [] → invoke i (set_under_way (l1 ++ l2) w) = None) ∧
  (∀ error,
     let '(i, st) := cancel_test r error (th_store w) in
     let '(i', st') := try_callback_test r (Some error) (th_store w) in
     let '(i'', st'') := try_callback_test r None (th_store w) in
     if completed then i = None ∧ i' = None ∧ i'' = None
     else i = Some (Invocation r (Some error) true) ∧ i' = i ∧ i'' = Some (Invocation r None (negb persistent)) ∧
          fate st r = Some (true, persistent) ∧ fate st' r = Some (true, persistent) ∧
          (persistent = false → fate st'' r = Some (true, persistent))).
Proof.
  intros Hr Hf. pose proof (reachable_traced w Hr r) as Ht. unfold traced in Ht. rewrite Hf in Ht. destruct Ht as [H1 H2 H3].
  split_and!; [by rewrite H3| |].
  - intros l1 i l2 Hw Hi. pose proof (under_way_split w l1 i l2 r Hw) as Hperm. rewrite decide_True in Hperm by done.
    unfold invoke. rewrite Hi. change (th_moved (set_under_way (l1 ++ l2) w)) with (th_moved w).
    rewrite (ending_perm _ _ _ (fmap_Permutation iv_error _ _ Hperm)) in H2. cbn [app] in H2. rewrite fmap_cons in H2.
    unfold ending at 1 in H2. rewrite filter_cons in H2.
    destruct (decide (persistent = false ∨ iv_error i ≠ None)) as [Hend|Hend].
    + try rewrite (decide_True (P := _ ∨ _)) in H2 by done.
      destruct (decide (r ∈ th_moved w)); [cbn [length] in H2; destruct completed; lia|]. eexists. split; [done|].
      cbn [th_store set_under_way]. by rewrite calls_invoke, decide_True.
    + intros Hne. destruct (decide (r ∈ th_moved w)); [done|]. destruct (ending persistent (calls (th_store w) r)); [done|]. discriminate H3.
  - intros error. destruct (cancel_test_call r error (th_store w)) as [E1 E2]. destruct (internal_cancel_fate r (th_store w)) as (_ & _ & E3).
    destruct (try_callback_test_call r (Some error) (th_store w)) as [E4 _]. destruct (try_callback_test_call r None (th_store w)) as [E5 _].
    rewrite Hf in E2, E3, E4, E5. destruct (cancel_test _ _ _) as [i st], (try_callback_test r (Some error) _) as [i' st'],
      (try_callback_test r None _) as [i'' st'']. cbn [fst snd] in *. subst i st. destruct completed; [naive_solver|].
    destruct E4 as [-> E4], E5 as [-> E5], E3 as [_ E3]. rewrite orb_true_r, orb_false_r. naive_solver.
Qed.

(** ** Membership in queues *)

Definition queued (st : store) (r : nat) : option nat := st_requests st !! r ≫= qr_queued_with.
Definition items (st : store) (q : nat) : list nat := match st_queues st !! q with Some queue => q_items queue | None => [] end.

(** The items of the queues are the requests that name them. *)
Record consistent (st : store) : Prop := {
  con_items q r : r ∈ items st q ↔ queued st r = Some q;
  con_nodup q : NoDup (items st q);
}.

(** Transitions that leave queues and membership alone. *)
Definition same_queues (st st' : store) : Prop :=
  st_queues st' = st_queues st ∧ ∀ r, queued st' r = queued st r.

Lemma same_queues_trans st1 st2 st3 : same_queues st1 st2 → same_queues st2 st3 → same_queues st1 st3.
Proof. intros [H1 C1] [H2 C2]. split; [by rewrite H2|intros r; by rewrite C2]. Qed.

Lemma consistent_same st st' : same_queues st st' → consistent st → consistent st'.
Proof.
  intros [Hq Hr] [H1 H2]. split; [intros q r|intros q]; unfold items; rewrite Hq; [|apply H2]. rewrite Hr. apply H1.
Qed.

Lemma same_upd_request r f st :
  (∀ request, qr_queued_with (f request) = qr_queued_with request) → same_queues st (upd_request r f st).
Proof.
  intros Hf. split; [done|]. intros r'. unfold queued. rewrite lookup_upd_request. case_decide; [|done].
  destruct (st_requests st !! r') as [request|]; [|done]. cbn. apply Hf.
Qed.

Lemma queued_upd_request r q st r' :
  queued (upd_request r (set_queued_with q) st) r' =
  if decide (r = r') then st_requests st !! r' ≫= (λ _, q) else queued st r'.
Proof.
  unfold queued. rewrite lookup_upd_request. case_decide; [|done]. by destruct (st_requests st !! r').
Qed.

Lemma items_upd_queue q f st q' :
  items (upd_queue q f st) q' =
  if decide (q = q') then match st_queues st !! q with Some queue => q_items (f queue) | None => [] end else items st q'.
Proof.
  unfold items, upd_queue. cbn [st_queues]. case_decide; [subst|by rewrite lookup_alter_ne].
  rewrite lookup_alter_eq. by destruct (st_queues st !! q').
Qed.

(** The exchange in [remove] expects that the request is in no queue. *)
Lemma remove_nothing q r st : consistent st → remove q r st = (false, st).
Proof.
  intros [H1 _]. unfold remove. destruct (st_queues st !! q) as [queue|] eqn:Hq; [|done].
  destruct (q_is_open queue); [|done]. cbn [negb]. unfold cas_queued_with.
  destruct (st_requests st !! r) as [request|] eqn:Hr; [|done]. case_decide as Hw; [|done]. cbn [negb].
  assert (Hst : upd_request r (set_queued_with None) st = st).
  { destruct st as [reqs qs ops cbs]. unfold upd_request. cbn [st_requests st_queues st_operations st_callbacks] in *.
    f_equal. apply map_eq. intros r'. destruct (decide (r = r')) as [<-|Hne]; [|by rewrite lookup_alter_ne].
    rewrite lookup_alter_eq, Hr. cbn. f_equal. destruct request; cbn in *. by subst. }
  rewrite Hst. assert (Hn : r ∉ q_items queue).
  { intros Hin. specialize (H1 q r). unfold items, queued in H1. rewrite Hq, Hr in H1. cbn in H1. naive_solver. }
  replace (erase_first r (q_items queue)) with (@None (list nat)); [done|].
  revert Hn. generalize (q_items queue) as l. induction l as [|x l IH]; [done|]. intros [Hx Hn]%not_elem_of_cons.
  cbn. rewrite decide_False by done. by rewrite <-IH.
Qed.

Lemma internal_cancel_same r st : consistent st → same_queues st (internal_cancel r st).2.
Proof.
  intros Hc. unfold internal_cancel. destruct (st_requests st !! r) as [request|]; [|done].
  destruct (qr_completed request); [done|]. cbn [snd]. set (st1 := upd_request r _ st).
  assert (H1 : same_queues st st1) by (by apply same_upd_request). eapply same_queues_trans; [exact H1|].
  destruct (qr_queued_with request) as [q|];
    [rewrite remove_nothing by (by eapply consistent_same)|];
    (destruct (qr_waiting_in request); [unfold remove_request; cbn; by case_match|done]).
Qed.

Lemma perform_same i st : same_queues st (perform i st).
Proof. by destruct i. Qed.

Lemma cancel_test_same r error st : consistent st → same_queues st (cancel_test r error st).2.
Proof. intros Hc. rewrite (proj1 (cancel_test_call r error st)). by apply internal_cancel_same. Qed.

Lemma cancel_same r error st : consistent st → same_queues st (cancel r error st).
Proof.
  intros Hc. unfold cancel. pose proof (cancel_test_same r error st Hc) as Hs. destruct (cancel_test r error st) as [i st'].
  eapply same_queues_trans; [exact Hs|apply perform_same].
Qed.

Lemma stop_timers_same r st : same_queues st (stop_timers r st).
Proof. by apply (same_upd_request r (set_timers false false)). Qed.

Lemma try_callback_test_same r error st : consistent st → same_queues st (try_callback_test r error st).2.
Proof.
  intros Hc. unfold try_callback_test. destruct (st_requests st !! r) as [request|]; [|done]. destruct (qr_persistent request).
  - destruct error; [by apply cancel_test_same|done].
  - destruct (qr_completed request); [done|]. by apply (same_upd_request r set_completed).
Qed.

Lemma try_callback_same r error st : consistent st → same_queues st (try_callback r error st).
Proof.
  intros Hc. unfold try_callback. pose proof (stop_timers_same r st) as H1.
  pose proof (try_callback_test_same r error (stop_timers r st) (consistent_same _ _ H1 Hc)) as H2.
  destruct (try_callback_test r error _) as [i st']. cbn [snd] in H2.
  eapply same_queues_trans; [exact H1|]. eapply same_queues_trans; [exact H2|apply perform_same].
Qed.

Lemma push_consistent q r max_items st : consistent st → consistent (push q r max_items st).2.
Proof.
  intros Hcon. unfold push. destruct (st_queues st !! q) as [queue|] eqn:Hq; [|done].
  destruct (st_requests st !! r) as [request|] eqn:Hr; [|done].
  destruct (negb (q_is_open queue)); [done|]. destruct (_ && _); [done|]. unfold cas_queued_with. rewrite Hr.
  case_decide as Hw; [|done]. cbn [negb]. set (st1 := upd_request r (set_queued_with (Some q)) st).
  assert (Hnone : queued st r = None) by (unfold queued; by rewrite Hr).
  destruct (qr_completed request); cbn [snd].
  - apply (consistent_same st); [|done]. split; [done|]. intros r'. rewrite !queued_upd_request. unfold st1.
    rewrite !queued_upd_request, lookup_upd_request. case_decide as Hd; [subst r'|done]. by rewrite Hr.
  - destruct Hcon as [H1 H2].
    assert (Hitems : ∀ q', items (upd_queue q (λ queue, set_items (q_items queue ++ [r]) queue) st1) q' =
      if decide (q = q') then items st q ++ [r] else items st q').
    { intros q'. rewrite items_upd_queue. unfold st1. cbn [upd_request st_queues]. unfold items. by rewrite Hq. }
    split.
    + intros q' r'. rewrite Hitems. change (queued (upd_queue q _ st1) r') with (queued st1 r'). unfold st1.
      rewrite queued_upd_request. destruct (decide (r = r')) as [<-|Hr']; [rewrite Hr; cbn|];
        (destruct (decide (q = q')) as [<-|Hq']; [rewrite elem_of_app, list_elem_of_singleton|]; rewrite H1; naive_solver).
    + intros q'. rewrite Hitems. case_decide as Hd; [|apply H2]. apply NoDup_app. split_and!; [apply H2| |apply NoDup_singleton].
      intros x Hx ->%list_elem_of_singleton. apply H1 in Hx. congruence.
Qed.

Lemma queued_foldl_clear l st r :
  queued (foldl (λ st r, upd_request r (set_queued_with None) st) st l) r = if decide (r ∈ l) then None else queued st r.
Proof.
  revert st. induction l as [|x l IH]; intros st; [by rewrite decide_False by apply not_elem_of_nil|].
  cbn [foldl]. rewrite IH, queued_upd_request.
  destruct (decide (r ∈ l)) as [Hl|Hl]; [by rewrite decide_True by by right|].
  destruct (decide (x = r)) as [->|Hx].
  - rewrite decide_True by left. by destruct (st_requests st !! r).
  - rewrite decide_False; [done|]. by intros [->|?]%elem_of_cons.
Qed.

Lemma queues_foldl_clear l st :
  st_queues (foldl (λ st r, upd_request r (set_queued_with None) st) st l) = st_queues st.
Proof. revert st. induction l as [|x l IH]; intros st; [done|]. cbn [foldl]. by rewrite IH. Qed.

Lemma drain_consistent q st : consistent st → consistent (items_to_drain q st).2.
Proof.
  intros [H1 H2]. unfold items_to_drain. destruct (st_queues st !! q) as [queue|] eqn:Hq; [|done].
  destruct (q_is_open queue); [done|]. case_decide; [done|]. cbn [snd].
  assert (Hq' : q_items queue = items st q) by (unfold items; by rewrite Hq).
  set (st1 := upd_queue q (set_items []) st).
  assert (Hitems : ∀ q', items (foldl (λ st r, upd_request r (set_queued_with None) st) st1 (q_items queue)) q' =
    if decide (q = q') then [] else items st q').
  { intros q'. unfold items. rewrite queues_foldl_clear. fold (items st1 q'). unfold st1. rewrite items_upd_queue.
    by rewrite Hq. }
  split.
  - intros q' r. rewrite Hitems, queued_foldl_clear, Hq'. change (queued st1 r) with (queued st r).
    specialize (H1 q' r) as H1'. destruct (decide (r ∈ items st q)) as [Hin|Hin].
    + apply H1 in Hin. case_decide as Hd; [by rewrite elem_of_nil|]. rewrite H1'. naive_solver.
    + case_decide as Hd; [|done]. subst q'. rewrite elem_of_nil. naive_solver.
  - intros q'. rewrite Hitems. case_decide; [constructor|apply H2].
Qed.

(** [wait] returns to a queue that is empty, so [front] has nothing. *)
Lemma pop_no_return q consumer_closed st request st' : pop q consumer_closed st ≠ Ok (pop_returns request st').
Proof.
  unfold pop. destruct (st_queues st !! q) as [queue|]; [|done].
  destruct (q_is_open queue); cbn [andb orb negb]; [|done]. destruct consumer_closed; cbn [andb orb negb]; [done|].
  case_bool_decide as Hn; cbn [negb]; [by rewrite Hn|done].
Qed.

Lemma step_consistent st st' : queue_step st st' → consistent st → consistent st'.
Proof.
  intros Hstep Hc.
  destruct Hstep as [? r request Hn Hcm Hq|? q Hn|? q r m|? q r|? q|? q|? q cc request st' Hpop|? r|? s o r|? r id|? r d b|? r rr].
  - apply (consistent_same st); [|done]. split; [done|]. intros r'. unfold queued. cbn [st_requests].
    destruct (decide (r = r')) as [<-|Hne]; [|by rewrite lookup_insert_ne]. by rewrite lookup_insert_eq, Hn.
  - destruct Hc as [H1 H2].
    assert (Hi : ∀ q', items (Store (st_requests st) (<[q := OperationQueue [] true]> (st_queues st)) (st_operations st) (st_callbacks st)) q' = items st q').
    { intros q'. unfold items. cbn [st_queues]. destruct (decide (q = q')) as [<-|Hne]; [|by rewrite lookup_insert_ne].
      by rewrite lookup_insert_eq, Hn. }
    split; [intros q' r|intros q']; rewrite Hi; [apply H1|apply H2].
  - by apply push_consistent.
  - by rewrite remove_nothing.
  - destruct Hc as [H1 H2]. assert (Hi : ∀ q', items (close_queue q st) q' = items st q').
    { intros q'. unfold close_queue. rewrite items_upd_queue. case_decide; [|done]. subst. unfold items.
      by destruct (st_queues st !! q'). }
    split; [intros q' r|intros q']; rewrite Hi; [apply H1|apply H2].
  - by apply drain_consistent.
  - by apply pop_no_return in Hpop.
  - apply (consistent_same st); [by apply internal_cancel_same|done].
  - apply (consistent_same st); [|done]. by apply (same_upd_request r (set_waiting_in (Some s))).
  - apply (consistent_same st); [by apply same_upd_request|done].
  - apply (consistent_same st); [by apply same_upd_request|done].
  - apply (consistent_same st); [by apply same_upd_request|done].
Qed.

Lemma empty_consistent : consistent empty_store.
Proof. split; [|constructor]. intros q r. unfold items, queued. cbn. rewrite !lookup_empty. cbn. by rewrite elem_of_nil. Qed.

Lemma thread_step_consistent w w' : thread_step w w' → consistent (th_store w) → consistent (th_store w').
Proof.
  intros Hstep Hc. destruct Hstep as [w st Hq|w r error|w r|w r error|w l1 i l2 w' Hw Hi|w l1 i l2 Hw Hi]; cbn [th_store begin_call set_under_way].
  - by eapply step_consistent.
  - eapply consistent_same; [by apply cancel_test_same|done].
  - eapply consistent_same; [apply stop_timers_same|done].
  - eapply consistent_same; [by apply try_callback_test_same|done].
  - unfold invoke in Hi. case_decide; [done|]. injection Hi as <-. by apply (consistent_same (th_store w)).
  - done.
Qed.

Lemma reachable_consistent w : rtc thread_step no_threads w → consistent (th_store w).
Proof.
  revert w. apply (rtc_ind_r (λ w, consistent (th_store w))); [apply empty_consistent|].
  intros. by eapply thread_step_consistent.
Qed.

(** A cancelled request stays in its queue.  In every reachable state the
    items of the queues are exactly the requests that name their queue, each
    once; [remove] exchanges that name only when there is none, so it removes
    nothing, and a request that is cancelled is still counted by [push] and
    handed out when the queue is drained. *)
Theorem cancelled_request_stays_queued w q r error :
  rtc thread_step no_threads w →
  let st := th_store w in
  (r ∈ items st q ↔ queued st r = Some q) ∧ NoDup (items st q) ∧ remove q r st = (false, st) ∧
  items (cancel r error st) q = items st q ∧
  (is_Some (st_queues st !! q) → (items_to_drain q (close_queue q (cancel r error st))).1 = items st q).
Proof.
  intros Hr st. pose proof (reachable_consistent w Hr : consistent st) as Hc. pose proof (cancel_same r error st Hc) as [Hq _].
  split; [by apply con_items|]. split; [by apply con_nodup|]. split; [by apply remove_nothing|].
  split; [unfold items; by rewrite Hq|]. intros [queue Hl]. unfold items_to_drain, close_queue, upd_queue. cbn [st_queues].
  rewrite lookup_alter_eq, Hq, Hl. cbn [fmap option_fmap option_map q_is_open q_items]. unfold items. rewrite Hl.
  by case_decide as Hn.
Qed.

(** A consumer gets nothing.  [pop] waits until its queue is open and
    empty: on every other state it waits, also when the queue has items or
    was closed, and on that state it reads the front of an empty list;
    closing a consumer locks a mutex it holds. *)
Theorem pop_never_returns q consumer_closed st queue :
  st_queues st !! q = Some queue →
  pop q consumer_closed st =
    (if q_is_open queue && negb consumer_closed && bool_decide (q_items queue = []) then Fault else Ok pop_waits) ∧
  (∀ fuel, (2 ≤ fuel)%nat → consumer_close fuel = Fault).
Proof.
  intros Hq. split.
  - unfold pop. rewrite Hq. destruct (q_is_open queue); cbn [andb orb negb]; [|done].
    destruct consumer_closed; cbn [andb orb negb]; [done|]. case_bool_decide as Hn; cbn [negb]; [by rewrite Hn|done].
  - intros [|[|fuel]] Hf; [lia..|done].
Qed.

(** ** The theorems at concrete inputs *)

Definition pending_request : queue_request :=
  QueueRequest false None None false 7 [115] [99] 0 false false (RetryRequest false 0 ∅).
Definition one_queued : store :=
  (push 0 0 2 (Store {[0%nat := pending_request]} {[0%nat := OperationQueue [] true]} ∅ [])).2.

Definition one_thread : threads := Threads one_queued ∅ [].

Lemma one_thread_reachable : rtc thread_step no_threads one_thread.
Proof.
  eapply rtc_l; [apply call_queue, (step_new_queue _ 0); done|].
  eapply rtc_l; [apply call_queue, (step_new _ 0 pending_request); done|].
  eapply rtc_l; [apply call_queue, (step_push _ 0 0 2)|reflexivity].
Qed.

(** A persistent request to which a response and a cancellation come at the
    same time: the response finds that it has not completed, the request is
    cancelled and called back, and then the thread of the response invokes a
    function that was moved away. *)
Definition streaming_request : queue_request :=
  QueueRequest false None None true 7 [115] [99] 0 false false (RetryRequest false 0 ∅).

Theorem late_response_throws :
  ∃ w i, rtc thread_step no_threads w ∧ th_under_way w = [i] ∧ iv_error i = None ∧
    calls (th_store w) (iv_request i) = [Some request_canceled] ∧ invoke i (set_under_way [] w) = None.
Proof.
  set (w1 := Threads (Store {[0%nat := streaming_request]} ∅ ∅ []) ∅ []).
  set (w2 := begin_call w1 (try_callback_test 0 None (th_store w1))).
  set (w3 := begin_call w2 (cancel_test 0 request_canceled (th_store w2))).
  set (i := Invocation 0 (Some request_canceled) true).
  exists (default w3 (invoke i (set_under_way [Invocation 0 None false] w3))), (Invocation 0 None false).
  split; [|by vm_compute]. eapply rtc_l; [apply call_queue, (step_new _ 0 streaming_request); done|].
  eapply rtc_l; [apply (call_try_callback _ 0 None)|]. eapply rtc_l; [apply (call_cancel _ 0 request_canceled)|].
  eapply rtc_l; [apply (call_invoke _ [] i [Invocation 0 None false]); by vm_compute|reflexivity].
Qed.

Lemma request_answered_once_witness :
  (length (ending false (calls (th_store one_thread) 0)) + length (ending false (iv_error <$> under_way one_thread 0)) ≤ 0)%nat ∧
  (∀ l1 i l2, th_under_way one_thread = l1 ++ i :: l2 → iv_request i = 0%nat →
     if decide (false = false ∨ iv_error i ≠ None)
     then ∃ w', invoke i (set_under_way (l1 ++ l2) one_thread) = Some w' ∧
                calls (th_store w') 0 = iv_error i :: calls (th_store one_thread) 0
     else ending false (calls (th_store one_thread) 0) ≠ [] → invoke i (set_under_way (l1 ++ l2) one_thread) = None) ∧
  (∀ error,
     let '(i, st) := cancel_test 0 error (th_store one_thread) in
     let '(i', st') := try_callback_test 0 (Some error) (th_store one_thread) in
     let '(i'', st'') := try_callback_test 0 None (th_store one_thread) in
     i = Some (Invocation 0 (Some error) true) ∧ i' = i ∧ i'' = Some (Invocation 0 None true) ∧
     fate st 0 = Some (true, false) ∧ fate st' 0 = Some (true, false) ∧ (false = false → fate st'' 0 = Some (true, false))).
Proof. apply (request_answered_once one_thread 0 false false one_thread_reachable eq_refl). Defined.

Lemma cancelled_request_stays_queued_witness :
  let st := th_store one_thread in
  (0%nat ∈ items st 0 ↔ queued st 0 = Some 0%nat) ∧ NoDup (items st 0) ∧
  remove 0 0 st = (false, st) ∧ items (cancel 0 request_canceled st) 0 = items st 0 ∧
  (is_Some (st_queues st !! 0%nat) → (items_to_drain 0 (close_queue 0 (cancel 0 request_canceled st))).1 = items st 0).
Proof. apply (cancelled_request_stays_queued one_thread 0 0 request_canceled one_thread_reachable). Defined.

Lemma pop_never_returns_witness :
  pop 0 false one_queued = Ok pop_waits ∧ (∀ fuel, (2 ≤ fuel)%nat → consumer_close fuel = Fault).
Proof. by apply (pop_never_returns 0 false one_queued (OperationQueue [0%nat] true)). Defined.
