(* ===== verification/Dispatch.v ===== *)
(** * Giving requests to a bucket: [core/cluster.cxx], [core/bucket.cxx],
      [core/io/mcbp_session.cxx]

    What [cluster::direct_dispatch] and [direct_re_queue] do with a
    [queue_request], and how [bucket::resolve_response] ends it or has it
    retried.  What they find on the way, the bucket, its session and their
    flags, is the argument [cluster_view]; what becomes of the request is the
    [verdict], which [settle] carries out on the store of requests. *)

From S2P Require Import Prelude Protocol Packet Codec Retry OperationQueue.

(** The session of a request: [is_stopped], [next_opaque], the error of
    [encode_packet], and [stopped_] when the bytes are to be written. *)
Record session_view := SessionView {
  sv_id : nat;
  sv_has_config : bool;
  sv_is_stopped : bool;
  sv_opaque : Z;
  sv_encode_error : option error_code;
  sv_stopped : bool;
}.

(** [bv_session] is the answer of [route_request]. *)
Record bucket_view := BucketView { bv_closed : bool; bv_configured : bool; bv_session : option session_view }.
Record cluster_view := ClusterView { cv_stopped : bool; cv_named : bool; cv_bucket : option bucket_view }.

(** What becomes of a request: nothing, a deferred command keeps it, it is
    with a session (in [operations_], or in the handler of a command), a timer
    will queue it again, or it was called back, by [cancel] or by
    [try_callback]. *)
Inductive verdict :=
  | untouched
  | deferred
  | written (session : nat) (opaque : Z) (subscribed : bool)
  | backing_off
  | called_back (error : option error_code) (cancelled : bool).

Section dispatching.
Context (strategy : option retry_strategy).

(** [bucket_impl::backoff_and_retry]; [otherwise] when nothing is retried. *)
Definition backoff_and_retry (otherwise : verdict) (reason : retry_reason) (retries : retry_request) : verdict * retry_request :=
  let '(action, retries) := should_retry strategy retries reason in
  (if need_to_retry action then backing_off else otherwise, retries).

(** The reason for a retry that a status gives, when it gives one. *)
Definition status_reason (unlock : bool) (status : Z) (reason : retry_reason) : retry_reason :=
  if is_enum status Status.locked then (if unlock then reason else key_value_locked)
  else if is_enum status Status.temporary_failure then key_value_temporary_failure
  else if is_enum status Status.sync_write_in_progress then key_value_sync_write_in_progress
  else if is_enum status Status.sync_write_re_commit_in_progress then key_value_sync_write_re_commit_in_progress
  else reason.

(** [bucket_impl::resolve_response]: the status of the response, when there is
    one, and whether the error map asks for a retry. *)
Definition resolve_response (unlock : bool) (response : option Z) (ec : option error_code) (reason : retry_reason)
    (has_retry_attribute : bool) (retries : retry_request) : verdict * retry_request :=
  if decide (ec = Some operation_aborted) then
    (called_back (Some (if rr_idempotent retries then unambiguous_timeout else ambiguous_timeout)) false, retries)
  else if decide (ec = Some request_canceled) then
    if negb (rr_idempotent retries) && negb (allows_non_idempotent_retry reason) then (called_back ec false, retries)
    else backoff_and_retry untouched (if decide (reason = do_not_retry) then node_not_available else reason) retries
  else
    let status := default (enum_code Status.unknown) response in
    let reason := if is_enum status Status.not_my_vbucket then key_value_not_my_vbucket else reason in
    let reason :=
      if is_enum status Status.unknown && has_retry_attribute then key_value_error_map_retry_indicated
      else status_reason unlock status reason in
    if decide (reason = do_not_retry) then (called_back ec false, retries)
    else backoff_and_retry (called_back ec false) reason retries.

(** [bucket_impl::handle_response]: the packet that [decode_packet] reads, if
    it reads one. *)
Definition handle_response (unlock : bool) (packet : option Z) (ec : option error_code) (reason : retry_reason)
    (has_retry_attribute : bool) (retries : retry_request) : verdict * retry_request :=
  match packet with
  | None => resolve_response unlock None (Some protocol_error) reason has_retry_attribute retries
  | Some status => resolve_response unlock (Some status) ec reason has_retry_attribute retries
  end.

(** What a stopped session hands to the handler: an error with an empty
    message, whose header [decode_packet] refuses. *)
Definition canceled_by_session (retries : retry_request) : verdict * retry_request :=
  handle_response false None (Some request_canceled) socket_closed_while_in_flight false retries.

(** [mcbp_session_impl::write_and_subscribe] of a request. *)
Definition write_and_subscribe (s : session_view) (retries : retry_request) : verdict * retry_request :=
  match sv_encode_error s with
  | Some error => (called_back (Some error) false, retries)
  | None => if sv_stopped s then canceled_by_session retries else (written (sv_id s) (sv_opaque s) true, retries)
  end.

(** [bucket_impl::direct_dispatch]: the verdict, the error it returns and what
    was recorded of retries. *)
Definition bucket_dispatch (b : bucket_view) (retries : retry_request) : verdict * option error_code * retry_request :=
  if bv_closed b then (called_back (Some bucket_closed) true, Some bucket_closed, retries)
  else if negb (bv_configured b) then (deferred, None, retries)
  else
    match bv_session b with
    | None => (deferred, None, retries)
    | Some s =>
        if negb (sv_has_config s) then (deferred, None, retries)
        else if sv_is_stopped s then
          let '(v, retries) := backoff_and_retry untouched node_not_available retries in
          (v, match v with backing_off => None | _ => Some service_not_available end, retries)
        else
          let '(v, retries) := write_and_subscribe s retries in (v, None, retries)
    end.

(** [bucket_impl::direct_re_queue] *)
Definition bucket_re_queue (b : bucket_view) (retries : retry_request) : verdict * option error_code * retry_request :=
  match bv_session b with
  | None => (deferred, None, retries)
  | Some s =>
      if negb (sv_has_config s) then (deferred, None, retries)
      else if sv_is_stopped s then
        let '(v, retries) := backoff_and_retry (called_back (Some service_not_available) false) node_not_available retries in
        (v, match v with backing_off => None | _ => Some service_not_available end, retries)
      else
        match sv_encode_error s with
        | Some error => (called_back (Some error) false, Some error, retries)
        | None =>
            if sv_stopped s then let '(v, retries) := canceled_by_session retries in (v, None, retries)
            else (written (sv_id s) (sv_opaque s) false, None, retries)
        end
  end.

(** [cluster_impl::direct_dispatch] and [direct_re_queue]: a bucket that is
    not open is opened, and the request waits for it. *)
Definition through_cluster (f : bucket_view → retry_request → verdict * option error_code * retry_request)
    (c : cluster_view) (retries : retry_request) : verdict * option error_code * retry_request :=
  if cv_stopped c then (untouched, Some cluster_closed, retries)
  else if negb (cv_named c) then (untouched, Some invalid_argument, retries)
  else match cv_bucket c with None => (deferred, None, retries) | Some b => f b retries end.

Definition direct_dispatch := through_cluster bucket_dispatch.
Definition direct_re_queue := through_cluster bucket_re_queue.
End dispatching.

(** What a verdict does to a request of the store. *)
Definition settle (r : nat) (v : verdict) (retries : retry_request) (st : store) : store :=
  let st := upd_request r (set_retries retries) st in
  match v with
  | untouched | deferred => st
  | written session opaque subscribed =>
      let st := upd_request r (set_opaque opaque) st in if subscribed then enqueue_request session opaque r st else st
  | backing_off => upd_request r (λ request, set_timers (qr_deadline request) true request) st
  | called_back error cancelled =>
      match error with
      | Some error => if cancelled then cancel r error st else try_callback r (Some error) st
      | None => try_callback r None st
      end
  end.

(** ** Queues and membership are left alone *)

Lemma enqueue_same session opaque r st : same_queues st (enqueue_request session opaque r st).
Proof. by apply (same_upd_request r (set_waiting_in (Some session))). Qed.

Lemma settle_same r v retries st : consistent st → same_queues st (settle r v retries st).
Proof.
  intros Hc. unfold settle. set (st1 := upd_request r (set_retries retries) st).
  assert (H1 : same_queues st st1) by (by apply same_upd_request). assert (Hc1 : consistent st1) by (by eapply consistent_same).
  eapply same_queues_trans; [exact H1|]. destruct v as [| |session opaque subscribed| |error cancelled]; [done|done| | |].
  - set (st2 := upd_request r (set_opaque opaque) st1). assert (H2 : same_queues st1 st2) by (by apply same_upd_request).
    destruct subscribed; [|exact H2]. eapply same_queues_trans; [exact H2|apply enqueue_same].
  - by apply same_upd_request.
  - destruct error as [error|]; [destruct cancelled; [by apply cancel_same|]|]; by apply try_callback_same.
Qed.

(** ** What the callers learn *)

(** [decode_packet] refuses the header of a message without contents: its
    magic is none. *)
Lemma empty_message_refused `{ServerDuration} c body : decode_packet_parts c (replicate 24 0) body = Err (errc_network Network.protocol_error).
Proof. done. Qed.

Section answers.
Context (strategy : option retry_strategy).
Lemma bor_cases otherwise reason retries :
  (backoff_and_retry strategy otherwise reason retries).1 = backing_off ∨ (backoff_and_retry strategy otherwise reason retries).1 = otherwise.
Proof. unfold backoff_and_retry. destruct (should_retry _ _ _) as [a r']. destruct (need_to_retry a); auto. Qed.

(** Nothing is lost: when no error is returned, a command, a session or a
    timer keeps the request, or it was called back with an error; when one is
    returned, the request was left alone or was called back with that error. *)
Theorem dispatch_accounts c retries :
  (let '(v, ec, _) := direct_dispatch strategy c retries in
   match ec with
   | Some e => v = untouched ∨ v = called_back (Some e) true
   | None => v ≠ untouched ∧ ∀ cancelled, v ≠ called_back None cancelled
   end) ∧
  (let '(v, ec, _) := direct_re_queue strategy c retries in
   match ec with
   | Some e => v = untouched ∨ v = called_back (Some e) false
   | None => v ≠ untouched ∧ ∀ cancelled, v ≠ called_back None cancelled
   end).
Proof.
  assert (Hs : ∀ retries, let '(v, _) := canceled_by_session strategy retries in v ≠ untouched ∧ ∀ c, v ≠ called_back None c).
  { intros rr. pose proof (bor_cases (called_back (Some protocol_error) false) socket_closed_while_in_flight rr) as H.
    change (canceled_by_session strategy rr) with (backoff_and_retry strategy (called_back (Some protocol_error) false) socket_closed_while_in_flight rr).
    destruct (backoff_and_retry _ _ _ _) as [v rr']. cbn in H. destruct H as [-> | ->]; (split; [done|by intros]). }
  split; unfold direct_dispatch, direct_re_queue, through_cluster, bucket_dispatch, bucket_re_queue, write_and_subscribe;
    repeat (case_match; try done; auto);
    try (specialize (Hs retries)); simplify_eq; auto;
    try (match goal with H : backoff_and_retry ?s ?o ?r ?x = _ |- _ => destruct (bor_cases o r x) as [E|E]; rewrite H in E; cbn in E; subst end; auto; done).
  all: match goal with H : canceled_by_session _ _ = _ |- _ => by rewrite H in Hs end.
Qed.
End answers.
