(* ===== verification/Collections.v ===== *)
(** * Collection identifiers: [core/collections_component.cxx]

    The cache that maps the names of a collection to its identifier, and the
    queue in which requests wait while the identifier is looked up.  Entries
    are shared objects: the callback of a lookup keeps its entry after the
    cache has dropped it, so the cache holds identities of entries.  Requests
    go on to [Dispatch]; a lookup that is refused there is called back before
    the call returns.  What cluster and bucket look like at a call, the retry
    strategies and the JSON text of range scans are parameters. *)

From S2P Require Import Prelude Retry OperationQueue Dispatch.

Definition unknown_collection_id : Z := 0xffffffff.
Definition pending_collection_id : Z := 0xfffffffe.
Definition parsing_failure : error_code := other_error 8.

Definition default_name : bytes := [95; 100; 101; 102; 97; 117; 108; 116].

(** [build_key] *)
Definition build_key (scope_name collection_name : bytes) : bytes := scope_name ++ [46] ++ collection_name.

(** [collection_id_cache_entry_impl]; its queue by identity. *)
Record entry := Entry {
  ent_scope : bytes;
  ent_collection : bytes;
  ent_id : Z;
  ent_queue : nat;
}.

Global Instance entry_eq_dec : EqDecision entry.
Proof. solve_decision. Defined.

(** What the component hands to the dispatcher, oldest last, with the
    identifier of the collection that the request has then. *)
Inductive sent :=
  | sent_dispatch (request : nat) (collection_id : Z)
  | sent_re_queue (request : nat) (collection_id : Z) (is_retry : bool)
  | sent_get_collection_id (scope_name collection_name : bytes).

(** [cw_scans] holds the values of the requests that create range scans;
    [cw_lookups] the callbacks of lookups without an answer, with the entry
    and the request they hold and the names their request carries. *)
Record lookup_ := Lookup { lk_entry : nat; lk_request : nat; lk_scope : bytes; lk_collection : bytes }.

Global Instance lookup_eq_dec : EqDecision lookup_.
Proof. solve_decision. Defined.

Record world := World {
  cw_store : store;
  cw_entries : gmap nat entry;
  cw_cache : gmap bytes nat;
  cw_scans : gmap nat bytes;
  cw_lookups : list lookup_;
  cw_sent : list sent;
}.

Definition upd_store (f : store → store) (w : world) : world :=
  World (f (cw_store w)) (cw_entries w) (cw_cache w) (cw_scans w) (cw_lookups w) (cw_sent w).
Definition upd_entry (e : nat) (f : entry → entry) (w : world) : world :=
  World (cw_store w) (alter f e (cw_entries w)) (cw_cache w) (cw_scans w) (cw_lookups w) (cw_sent w).
Definition upd_cache (f : gmap bytes nat → gmap bytes nat) (w : world) : world :=
  World (cw_store w) (cw_entries w) (f (cw_cache w)) (cw_scans w) (cw_lookups w) (cw_sent w).
Definition set_scan (r : nat) (value : bytes) (w : world) : world :=
  World (cw_store w) (cw_entries w) (cw_cache w) (<[r := value]> (cw_scans w)) (cw_lookups w) (cw_sent w).
Definition set_lookups (l : list lookup_) (w : world) : world :=
  World (cw_store w) (cw_entries w) (cw_cache w) (cw_scans w) l (cw_sent w).
Definition send (s : sent) (w : world) : world :=
  World (cw_store w) (cw_entries w) (cw_cache w) (cw_scans w) (cw_lookups w) (s :: cw_sent w).

Definition set_id (id : Z) (e : entry) : entry := Entry (ent_scope e) (ent_collection e) id (ent_queue e).
Definition set_queue (q : nat) (e : entry) : entry := Entry (ent_scope e) (ent_collection e) (ent_id e) q.

Section component.
Context (max_queue_size : Z).
(** The strategies of a request and of the lookups, the body of a range scan
    with the identifier added, [None] when the value is not JSON, and what is
    found when a request is dispatched. *)
Context (strategy lookup_strategy : option retry_strategy) (scan_body : bytes → Z → option bytes).
Context (view : sent → store → cluster_view).

(** A call of the dispatcher for a request of the store. *)
Definition dispatch_with (s : sent) (r : nat) (w : world) : option error_code * world :=
  match st_requests (cw_store w) !! r with
  | None => (None, w)
  | Some request =>
      let call := match s with sent_re_queue _ _ _ => direct_re_queue | _ => direct_dispatch end in
      let '(v, ec, retries) := call strategy (view s (cw_store w)) (qr_retries request) in
      (ec, send s (upd_store (settle r v retries) w))
  end.

Definition collection_id_of (r : nat) (w : world) : Z :=
  match st_requests (cw_store w) !! r with Some request => qr_collection_id request | None => 0 end.

(** [get_and_maybe_insert]: the entry, which is created when it is missing. *)
Definition get_and_maybe_insert (scope_name collection_name : bytes) (id : Z) (w : world) : nat * world :=
  let key := build_key scope_name collection_name in
  match cw_cache w !! key with
  | Some e => (e, w)
  | None =>
      let e := fresh (dom (cw_entries w)) in
      let q := fresh (dom (st_queues (cw_store w))) in
      let st := cw_store w in
      (e, World (Store (st_requests st) (<[q := OperationQueue [] true]> (st_queues st)) (st_operations st) (st_callbacks st))
            (<[e := Entry scope_name collection_name id q]> (cw_entries w)) (<[key := e]> (cw_cache w))
            (cw_scans w) (cw_lookups w) (cw_sent w))
  end.

Definition remove_entry (scope_name collection_name : bytes) (w : world) : world :=
  upd_cache (delete (build_key scope_name collection_name)) w.

Definition upsert (scope_name collection_name : bytes) (id : Z) (w : world) : world :=
  match cw_cache w !! build_key scope_name collection_name with
  | Some e => upd_entry e (set_id id) w
  | None => (get_and_maybe_insert scope_name collection_name id w).2
  end.

Definition reset_id (e : nat) (w : world) : world :=
  upd_entry e (λ e, if decide (ent_id e ≠ unknown_collection_id ∧ ent_id e ≠ pending_collection_id)
                    then set_id unknown_collection_id e else e) w.

(** [assign_collection_id] *)
Definition assign_collection_id (e r : nat) (w : world) : option error_code * world :=
  match cw_entries w !! e with
  | None => (None, w)
  | Some entry =>
      match cw_scans w !! r with
      | Some value =>
          match scan_body value (ent_id entry) with
          | None => (Some parsing_failure, w)
          | Some body => (None, set_scan r body w)
          end
      | None => (None, upd_store (upd_request r (set_collection_id (ent_id entry))) w)
      end
  end.

(** [handle_collection_unknown] *)
Definition handle_collection_unknown (r : nat) (w : world) : bool * world :=
  match st_requests (cw_store w) !! r with
  | None => (false, w)
  | Some request =>
      if decide (qr_scope request = [] ∨ qr_collection request = []) then (false, w)
      else
        let '(action, retries) := should_retry strategy (qr_retries request) key_value_collection_outdated in
        let w := upd_store (upd_request r (set_retries retries)) w in
        if need_to_retry action
        then (true, upd_store (upd_request r (λ request, set_timers (qr_deadline request) true request)) w)
        else (false, w)
  end.

(** [swap_queue]: the queue the entry had. *)
Definition swap_queue (e : nat) (w : world) : option (nat * world) :=
  match cw_entries w !! e with
  | None => None
  | Some entry =>
      let q := fresh (dom (st_queues (cw_store w))) in
      let st := cw_store w in
      let st := Store (st_requests st) (<[q := OperationQueue [] true]> (st_queues st)) (st_operations st) (st_callbacks st) in
      Some (ent_queue entry, upd_entry e (set_queue q) (upd_store (λ _, st) w))
  end.

(** [queue->close(); queue->drain(callback)] *)
Definition close_and_drain (q : nat) (callback : nat → world → world) (w : world) : world :=
  let w := upd_store (close_queue q) w in
  let '(items, st) := items_to_drain q (cw_store w) in
  foldl (λ w r, callback r w) (upd_store (λ _, st) w) items.

(** The last branch of the callback of [refresh_collection_id]. *)
Definition requeue_drained (e r : nat) (w : world) : world :=
  let '(ec, w) := assign_collection_id e r w in
  match ec with
  | Some _ => w
  | None => (dispatch_with (sent_re_queue r (collection_id_of r w) false) r w).2
  end.

(** The error branch, after the attempt to retry. *)
Definition fail_lookup (e : nat) (request : queue_request) (ec : error_code) (w : world) : world :=
  let w := remove_entry (qr_scope request) (qr_collection request) w in
  match swap_queue e w with
  | None => w
  | Some (q, w) => close_and_drain q (λ r w, upd_store (try_callback r (Some ec)) w) w
  end.

(** The callback that [refresh_collection_id] gives to [get_collection_id]. *)
Definition refreshed (e r : nat) (ec : option error_code) (w : world) : world :=
  match cw_entries w !! e, st_requests (cw_store w) !! r with
  | Some entry, Some request =>
      match ec with
      | Some ec =>
          if decide (ec = collection_not_found) then
            let w := upd_entry e (set_id unknown_collection_id) w in
            let '(removed, st) := remove (ent_queue entry) r (cw_store w) in
            let w := upd_store (λ _, st) w in
            let '(retried, w) := if removed : bool then handle_collection_unknown r w else (false, w) in
            if retried : bool then w else fail_lookup e request ec w
          else fail_lookup e request ec w
      | None =>
          match swap_queue e w with
          | None => w
          | Some (q, w) => close_and_drain q (requeue_drained e) w
          end
      end
  | _, _ => w
  end.

(** [get_collection_id], for a lookup of the component itself.  Its request is
    idempotent; its handler, which a refusal invokes before the call returns,
    is the callback above. *)
Definition get_collection_id (scope_name collection_name : bytes) (e r : nat) (w : world) : option error_code * world :=
  let scope_name := if decide (scope_name = []) then default_name else scope_name in
  let collection_name := if decide (collection_name = []) then default_name else collection_name in
  let s := sent_get_collection_id scope_name collection_name in
  let '(v, ec, _) := direct_dispatch lookup_strategy (view s (cw_store w)) (RetryRequest true 0 ∅) in
  let w := send s w in
  match v with
  | called_back error _ => (ec, refreshed e r error w)
  | _ =>
      match ec with
      | Some ec => (Some ec, w)
      | None => (None, set_lookups (Lookup e r scope_name collection_name :: cw_lookups w) w)
      end
  end.

(** [refresh_collection_id] *)
Definition refresh_collection_id (e r : nat) (w : world) : option error_code * world :=
  match cw_entries w !! e, st_requests (cw_store w) !! r with
  | Some entry, Some request =>
      let '(ec, st) := push (ent_queue entry) r max_queue_size (cw_store w) in
      let w := upd_store (λ _, st) w in
      match ec with
      | Some ec => (Some ec, w)
      | None => get_collection_id (qr_scope request) (qr_collection request) e r w
      end
  | _, _ => (None, w)
  end.

(** [collection_id_cache_entry_impl::dispatch] *)
Definition entry_dispatch (e r : nat) (w : world) : option error_code * world :=
  match cw_entries w !! e with
  | None => (None, w)
  | Some entry =>
      if decide (ent_id entry = unknown_collection_id) then
        let '(ec, w) := refresh_collection_id e r (upd_entry e (set_id pending_collection_id) w) in
        match ec with
        | Some ec => (Some ec, upd_entry e (set_id unknown_collection_id) w)
        | None => (None, w)
        end
      else if decide (ent_id entry = pending_collection_id) then
        let '(ec, st) := push (ent_queue entry) r max_queue_size (cw_store w) in (ec, upd_store (λ _, st) w)
      else
        let '(ec, w) := assign_collection_id e r w in
        match ec with
        | Some ec => (Some ec, w)
        | None => dispatch_with (sent_dispatch r (collection_id_of r w)) r w
        end
  end.

(** [collections_component_impl::dispatch] *)
Definition dispatch (r : nat) (w : world) : option error_code * world :=
  match st_requests (cw_store w) !! r with
  | None => (None, w)
  | Some request =>
      if decide (0 < qr_collection_id request ∨ (qr_collection request = [] ∧ qr_scope request = []) ∨
                 (qr_collection request = default_name ∧ qr_scope request = default_name))
      then dispatch_with (sent_dispatch r (collection_id_of r w)) r w
      else
        let '(e, w) := get_and_maybe_insert (qr_scope request) (qr_collection request) unknown_collection_id w in
        entry_dispatch e r w
  end.

(** [re_queue], which the timer of a retry calls. *)
Definition re_queue (r : nat) (w : world) : world :=
  match st_requests (cw_store w) !! r with
  | None => w
  | Some request =>
      let '(e, w) := get_and_maybe_insert (qr_scope request) (qr_collection request) unknown_collection_id w in
      let '(ec, w) := entry_dispatch e r (reset_id e w) in
      match ec with Some ec => upd_store (try_callback r (Some ec)) w | None => w end
  end.

(** The answer to a lookup: the callback of its request, which upserts the
    identifier that a successful response carries. *)
Definition answer (lk : lookup_) (result : Z + error_code) (w : world) : world :=
  let w := set_lookups (filter (λ lk', lk' ≠ lk) (cw_lookups w)) w in
  match result with
  | inl id => refreshed (lk_entry lk) (lk_request lk) None (upsert (lk_scope lk) (lk_collection lk) id w)
  | inr ec => refreshed (lk_entry lk) (lk_request lk) (Some ec) w
  end.
End component.

(** ** Well-formed worlds *)

(** Every entry has an open queue of its own, the cache refers to entries
    under their names, and the queues hold the requests that name them. *)
Record wf (w : world) : Prop := {
  wf_store : consistent (cw_store w);
  wf_queue e ent : cw_entries w !! e = Some ent → ∃ l, st_queues (cw_store w) !! ent_queue ent = Some (OperationQueue l true);
  wf_distinct e e' ent ent' :
    cw_entries w !! e = Some ent → cw_entries w !! e' = Some ent' → ent_queue ent = ent_queue ent' → e = e';
  wf_cache key e : cw_cache w !! key = Some e →
    ∃ ent, cw_entries w !! e = Some ent ∧ key = build_key (ent_scope ent) (ent_collection ent);
}.

(** Changes of the store that keep the queues open, but for those in [P]. *)
Definition keeps_open (P : nat → Prop) (st st' : store) : Prop :=
  consistent st' ∧
  ∀ q l, ¬ P q → st_queues st !! q = Some (OperationQueue l true) → ∃ l', st_queues st' !! q = Some (OperationQueue l' true).

Lemma wf_upd_store w st' : wf w → keeps_open (λ _, False) (cw_store w) st' → wf (upd_store (λ _, st') w).
Proof.
  intros [H1 H2 H3 H4] [Hc Hk]. split; [exact Hc| |exact H3|exact H4].
  intros e ent He. destruct (H2 e ent He) as [l Hl]. eapply Hk; [auto|exact Hl].
Qed.

Lemma keeps_same st st' : consistent st → same_queues st st' → keeps_open (λ _, False) st st'.
Proof.
  intros Hc Hs. split; [by eapply consistent_same|]. destruct Hs as [Hq _]. intros q l _ Hl. rewrite Hq. eauto.
Qed.

Lemma push_keeps q r m st : consistent st → keeps_open (λ _, False) st (push q r m st).2.
Proof.
  intros Hc. split; [by apply push_consistent|]. intros q' l _ Hl. unfold push.
  destruct (st_queues st !! q) as [queue|] eqn:Hq; [|eauto]. destruct (st_requests st !! r) as [request|]; [|eauto].
  destruct (negb _); [eauto|]. destruct (_ && _); [eauto|]. unfold cas_queued_with.
  assert (Hcas : ∀ v, st_queues (upd_request r (set_queued_with v) st) = st_queues st) by done.
  destruct (st_requests st !! r); [|eauto]. case_decide; [|eauto]. cbn [negb].
  destruct (qr_completed request); cbn [snd]; [eauto|]. unfold upd_queue. cbn [st_queues upd_request].
  destruct (decide (q = q')) as [<-|Hne]; [|rewrite lookup_alter_ne by done; eauto].
  rewrite lookup_alter_eq, Hl. cbn. eauto.
Qed.

Lemma wf_upd_entry e f w :
  (∀ ent, ent_queue (f ent) = ent_queue ent ∧ ent_scope (f ent) = ent_scope ent ∧ ent_collection (f ent) = ent_collection ent) →
  wf w → wf (upd_entry e f w).
Proof.
  intros Hf [H1 H2 H3 H4].
  assert (Hback : ∀ e' ent', cw_entries (upd_entry e f w) !! e' = Some ent' →
    ∃ ent, cw_entries w !! e' = Some ent ∧ ent_queue ent' = ent_queue ent).
  { intros e' ent'. unfold upd_entry. cbn [cw_entries]. destruct (decide (e = e')) as [<-|Hne].
    - rewrite lookup_alter_eq. intros (ent & He & ->)%fmap_Some. exists ent. split; [done|]. apply Hf.
    - rewrite lookup_alter_ne by done. eauto. }
  split; [exact H1|..].
  - intros e' ent' (ent & He & Hq)%Hback. rewrite Hq. by eapply H2.
  - intros e1 e2 ent1 ent2 (x1 & Hx1 & E1)%Hback (x2 & Hx2 & E2)%Hback Heq. eapply H3; [done..|congruence].
  - intros key e' Hk. destruct (H4 key e' Hk) as (ent & He & Hkey). unfold upd_entry. cbn [cw_entries].
    destruct (decide (e = e')) as [<-|Hne]; [|rewrite lookup_alter_ne by done; eauto].
    rewrite lookup_alter_eq, He. cbn. exists (f ent). split; [done|]. by destruct (Hf ent) as (_ & -> & ->).
Qed.

Lemma consistent_new_queue q st :
  st_queues st !! q = None → consistent st →
  consistent (Store (st_requests st) (<[q := OperationQueue [] true]> (st_queues st)) (st_operations st) (st_callbacks st)).
Proof. intros Hq Hc. by eapply step_consistent; [apply step_new_queue|]. Qed.

Lemma fresh_lookup {V} (m : gmap nat V) : m !! fresh (dom m) = None.
Proof. apply not_elem_of_dom, is_fresh. Qed.

Lemma wf_get_and_maybe_insert scope collection id w : wf w → wf (get_and_maybe_insert scope collection id w).2.
Proof.
  intros [H1 H2 H3 H4]. unfold get_and_maybe_insert. destruct (cw_cache w !! _) as [e|] eqn:Hk; [done|]. cbn [snd].
  set (e := fresh (dom (cw_entries w))). set (q := fresh (dom (st_queues (cw_store w)))).
  assert (He : cw_entries w !! e = None) by apply fresh_lookup.
  assert (Hq : st_queues (cw_store w) !! q = None) by apply fresh_lookup.
  assert (Hne : ∀ e' ent, cw_entries w !! e' = Some ent → ent_queue ent ≠ q)
    by (intros e' ent (l & Hl)%H2 Heq; congruence).
  split; cbn [cw_store cw_entries cw_cache].
  - by apply consistent_new_queue.
  - intros e' ent [[<- <-]|[? Hl]]%lookup_insert_Some; cbn [st_queues ent_queue]; [rewrite lookup_insert_eq; eauto|].
    rewrite lookup_insert_ne by (by apply not_eq_sym, (Hne e')). by eapply H2.
  - intros e1 e2 ent1 ent2 [[<- <-]|[? L1]]%lookup_insert_Some [[<- <-]|[? L2]]%lookup_insert_Some Heq; cbn in Heq; [done|..].
    + symmetry in Heq. by apply Hne in L2.
    + by apply Hne in L1.
    + by eapply H3.
  - intros key e' [[<- <-]|[? Hl]]%lookup_insert_Some; [rewrite lookup_insert_eq; by eexists|].
    destruct (H4 key e' Hl) as (ent & Hent & ?). exists ent. rewrite lookup_insert_ne by congruence. done.
Qed.

Section preservation.
Context (max_queue_size : Z).
Context (strategy lookup_strategy : option retry_strategy) (scan_body : bytes → Z → option bytes).
Context (view : sent → store → cluster_view).

Lemma wf_send s w : wf w → wf (send s w).
Proof using. by intros []. Qed.
Lemma wf_set_lookups l w : wf w → wf (set_lookups l w).
Proof using. by intros []. Qed.
Lemma wf_set_scan r v w : wf w → wf (set_scan r v w).
Proof using. by intros []. Qed.
Lemma wf_upd_cache_delete key w : wf w → wf (upd_cache (delete key) w).
Proof using. intros [H1 H2 H3 H4]. split; [done..|]. intros key' e. cbn [cw_cache upd_cache].
  intros [_ Hl]%lookup_delete_Some. by apply H4.
Qed.

Lemma wf_same w st' : wf w → same_queues (cw_store w) st' → wf (upd_store (λ _, st') w).
Proof using. intros Hw Hs. apply wf_upd_store; [done|]. apply keeps_same; [apply Hw|done]. Qed.

Lemma wf_upd_request r f w :
  (∀ request, qr_queued_with (f request) = qr_queued_with request) → wf w → wf (upd_store (upd_request r f) w).
Proof using. intros Hf Hw. apply (wf_same w); [done|by apply same_upd_request]. Qed.

Lemma wf_try_callback r ec w : wf w → wf (upd_store (try_callback r ec) w).
Proof using. intros Hw. apply (wf_same w); [done|]. apply try_callback_same, Hw. Qed.

Lemma wf_dispatch_with s r w : wf w → wf (dispatch_with strategy view s r w).2.
Proof using.
  intros Hw. unfold dispatch_with. destruct (st_requests (cw_store w) !! r) as [request|]; [|done].
  destruct (_ strategy _ _) as [[v ec] retries]. apply wf_send. apply (wf_same w); [done|]. apply settle_same, Hw.
Qed.

Lemma wf_assign e r w : wf w → wf (assign_collection_id scan_body e r w).2.
Proof using.
  intros Hw. unfold assign_collection_id. destruct (cw_entries w !! e); [|done].
  destruct (cw_scans w !! r); [case_match; [by apply wf_set_scan|done]|]. by apply wf_upd_request.
Qed.

Lemma wf_push q r w : wf w → wf (upd_store (λ _, (push q r max_queue_size (cw_store w)).2) w).
Proof using. intros Hw. apply wf_upd_store; [done|]. apply push_keeps, Hw. Qed.

Lemma wf_handle_unknown r w : wf w → wf (handle_collection_unknown strategy r w).2.
Proof using.
  intros Hw. unfold handle_collection_unknown. destruct (st_requests (cw_store w) !! r) as [request|]; [|done].
  case_decide; [done|]. destruct (should_retry _ _ _) as [action retries].
  destruct (need_to_retry action); cbn [snd]; repeat apply wf_upd_request; done.
Qed.

(** After the swap the old queue belongs to no entry. *)
Lemma wf_swap_queue e w q w' :
  wf w → swap_queue e w = Some (q, w') →
  wf w' ∧ (∀ e' ent, cw_entries w' !! e' = Some ent → ent_queue ent ≠ q) ∧
  (∃ l, st_queues (cw_store w') !! q = Some (OperationQueue l true) ∧ items (cw_store w) q = l).
Proof using.
  intros [H1 H2 H3 H4]. unfold swap_queue. destruct (cw_entries w !! e) as [entry|] eqn:He; [|done]. intros [= <- <-].
  set (q := fresh (dom (st_queues (cw_store w)))).
  assert (Hq : st_queues (cw_store w) !! q = None) by apply fresh_lookup.
  assert (Hne : ∀ e' ent, cw_entries w !! e' = Some ent → ent_queue ent ≠ q)
    by (intros e' ent (l & Hl)%H2 Heq; congruence).
  assert (Hent : ∀ e' ent', cw_entries (upd_entry e (set_queue q) (upd_store (λ _, Store (st_requests (cw_store w))
      (<[q := OperationQueue [] true]> (st_queues (cw_store w))) (st_operations (cw_store w)) (st_callbacks (cw_store w))) w)) !! e' = Some ent' →
    (e = e' ∧ ent' = set_queue q entry) ∨ (e ≠ e' ∧ cw_entries w !! e' = Some ent')).
  { intros e' ent'. unfold upd_entry. cbn [cw_entries upd_store]. destruct (decide (e = e')) as [<-|Hd].
    - rewrite lookup_alter_eq, He. cbn. intros [= <-]. by left.
    - rewrite lookup_alter_ne by done. by right. }
  split_and!.
  - split.
    + by apply consistent_new_queue.
    + intros e' ent' [[<- ->]|[Hd Hl]]%Hent; cbn [cw_store upd_entry upd_store st_queues].
      * cbn [ent_queue set_queue]. rewrite lookup_insert_eq. eauto.
      * rewrite lookup_insert_ne by (by apply not_eq_sym, (Hne e')). by eapply H2.
    + intros e1 e2 ent1 ent2 [[<- ->]|[D1 L1]]%Hent [[<- ->]|[D2 L2]]%Hent Heq; cbn in Heq; [done|..].
      * symmetry in Heq. by apply Hne in L2.
      * by apply Hne in L1.
      * by eapply H3.
    + intros key e' Hk. destruct (H4 key e' Hk) as (ent & Hl & ->). cbn [cw_entries upd_entry upd_store].
      destruct (decide (e = e')) as [<-|Hd]; [|rewrite lookup_alter_ne by done; eauto].
      rewrite lookup_alter_eq, Hl. cbn. eauto.
  - intros e' ent' [[<- ->]|[Hd Hl]]%Hent; cbn; [by apply not_eq_sym, (Hne e)|]. intros Heq. apply Hd. by eapply H3.
  - destruct (H2 e entry He) as [l Hl]. exists l. cbn [cw_store upd_entry upd_store st_queues]. split.
    + rewrite lookup_insert_ne; [done|]. by apply not_eq_sym, (Hne e).
    + unfold items. by rewrite Hl.
Qed.

Lemma wf_upd_store_but q w st' :
  wf w → (∀ e ent, cw_entries w !! e = Some ent → ent_queue ent ≠ q) →
  keeps_open (λ q', q' = q) (cw_store w) st' → wf (upd_store (λ _, st') w).
Proof using.
  intros [H1 H2 H3 H4] Hq [Hc Hk]. split; [exact Hc| |exact H3|exact H4].
  intros e ent He. destruct (H2 e ent He) as [l Hl]. eapply Hk; [by eapply Hq|exact Hl].
Qed.

Lemma close_keeps q st : consistent st → keeps_open (λ q', q' = q) st (close_queue q st).
Proof using.
  intros Hc. split; [by eapply step_consistent; [apply step_close|]|]. intros q' l Hne Hl.
  unfold close_queue, upd_queue. cbn [st_queues]. rewrite lookup_alter_ne by congruence. eauto.
Qed.

Lemma drain_keeps q st : consistent st → keeps_open (λ q', q' = q) st (items_to_drain q st).2.
Proof using.
  intros Hc. split; [by apply drain_consistent|]. intros q' l Hne Hl. unfold items_to_drain.
  destruct (st_queues st !! q) as [queue|]; [|eauto]. destruct (q_is_open queue); [eauto|]. case_decide; [eauto|].
  cbn [snd]. rewrite queues_foldl_clear. unfold upd_queue. cbn [st_queues]. rewrite lookup_alter_ne by congruence. eauto.
Qed.

Lemma wf_foldl (f : world → nat → world) l w : (∀ r w, wf w → wf (f w r)) → wf w → wf (foldl f w l).
Proof using.
  intros Hf. revert w. induction l as [|r l IH]; intros w Hw; [done|]. cbn [foldl]. by apply IH, Hf.
Qed.

Lemma wf_close_and_drain q callback w :
  wf w → (∀ e ent, cw_entries w !! e = Some ent → ent_queue ent ≠ q) → (∀ r w, wf w → wf (callback r w)) →
  wf (close_and_drain q callback w).
Proof using.
  intros Hw Hq Hcb. unfold close_and_drain. set (w1 := upd_store (close_queue q) w).
  assert (H1 : wf w1) by (apply (wf_upd_store_but q w); [done..|apply close_keeps, Hw]).
  pose proof (wf_upd_store_but q w1 _ H1 Hq (drain_keeps q (cw_store w1) (wf_store _ H1))) as H2.
  destruct (items_to_drain q (cw_store w1)) as [l st]. apply wf_foldl; [apply Hcb|exact H2].
Qed.

Lemma wf_fail_lookup e request ec w : wf w → wf (fail_lookup e request ec w).
Proof using.
  intros Hw. unfold fail_lookup. set (w1 := remove_entry _ _ w). assert (H1 : wf w1) by (by apply wf_upd_cache_delete).
  destruct (swap_queue e w1) as [[q w2]|] eqn:Hs; [|done]. destruct (wf_swap_queue _ _ _ _ H1 Hs) as (H2 & Hq & _).
  apply wf_close_and_drain; [done..|]. intros r' w'. apply wf_try_callback.
Qed.

Lemma wf_refreshed e r ec w : wf w → wf (refreshed strategy scan_body view e r ec w).
Proof using.
  intros Hw. unfold refreshed. destruct (cw_entries w !! e) as [entry|]; [|done].
  destruct (st_requests (cw_store w) !! r) as [request|]; [|done]. destruct ec as [ec|].
  - case_decide; [|by apply wf_fail_lookup]. set (w1 := upd_entry e (set_id unknown_collection_id) w).
    assert (H1 : wf w1) by (by apply wf_upd_entry). rewrite remove_nothing by apply H1. by apply wf_fail_lookup.
  - destruct (swap_queue e w) as [[q w2]|] eqn:Hs; [|done]. destruct (wf_swap_queue _ _ _ _ Hw Hs) as (H2 & Hq & _).
    apply wf_close_and_drain; [done..|]. intros r' w' Hw'. unfold requeue_drained.
    pose proof (wf_assign e r' w' Hw') as Ha. destruct (assign_collection_id _ _ _ _) as [[ec|] w'']; [exact Ha|].
    by apply wf_dispatch_with.
Qed.

Lemma wf_get_collection_id s c e r w : wf w → wf (get_collection_id strategy lookup_strategy scan_body view s c e r w).2.
Proof using.
  intros Hw. unfold get_collection_id. destruct (direct_dispatch _ _ _) as [[v ec] retries].
  destruct v as [| | | |error cancelled]; [..|by apply wf_refreshed, wf_send];
    (destruct ec; [by apply wf_send|by apply wf_set_lookups, wf_send]).
Qed.

Lemma wf_refresh e r w : wf w → wf (refresh_collection_id max_queue_size strategy lookup_strategy scan_body view e r w).2.
Proof using.
  intros Hw. unfold refresh_collection_id. destruct (cw_entries w !! e) as [entry|]; [|done].
  destruct (st_requests (cw_store w) !! r) as [request|]; [|done].
  pose proof (wf_push (ent_queue entry) r w Hw) as Hp. destruct (push _ _ _ _) as [[ec|] st]; [exact Hp|].
  by apply wf_get_collection_id.
Qed.

Lemma wf_entry_dispatch e r w : wf w → wf (entry_dispatch max_queue_size strategy lookup_strategy scan_body view e r w).2.
Proof using.
  intros Hw. unfold entry_dispatch. destruct (cw_entries w !! e) as [entry|]; [|done]. case_decide; [|case_decide].
  - assert (Hr : wf (refresh_collection_id max_queue_size strategy lookup_strategy scan_body view e r (upd_entry e (set_id pending_collection_id) w)).2)
      by (by apply wf_refresh, wf_upd_entry).
    destruct (refresh_collection_id _ _ _ _ _ _ _ _) as [[ec|] w']; [by apply wf_upd_entry|exact Hr].
  - pose proof (wf_push (ent_queue entry) r w Hw) as Hp. by destruct (push _ _ _ _) as [ec st].
  - pose proof (wf_assign e r w Hw) as Ha. destruct (assign_collection_id _ _ _ _) as [[ec|] w']; [exact Ha|].
    by apply wf_dispatch_with.
Qed.

Lemma wf_dispatch r w : wf w → wf (dispatch max_queue_size strategy lookup_strategy scan_body view r w).2.
Proof using.
  intros Hw. unfold dispatch. destruct (st_requests (cw_store w) !! r) as [request|]; [|done].
  case_decide; [by apply wf_dispatch_with|].
  match goal with |- context [get_and_maybe_insert ?a ?b ?c w] =>
    pose proof (wf_get_and_maybe_insert a b c w Hw) as Hg; destruct (get_and_maybe_insert a b c w) as [e w'] end.
  by apply wf_entry_dispatch.
Qed.

Lemma wf_reset_id e w : wf w → wf (reset_id e w).
Proof using. intros Hw. apply wf_upd_entry; [|done]. intros ent. by case_decide. Qed.

Lemma wf_re_queue r w : wf w → wf (re_queue max_queue_size strategy lookup_strategy scan_body view r w).
Proof using.
  intros Hw. unfold re_queue. destruct (st_requests (cw_store w) !! r) as [request|]; [|done].
  match goal with |- context [get_and_maybe_insert ?a ?b ?c w] =>
    pose proof (wf_get_and_maybe_insert a b c w Hw) as Hg; destruct (get_and_maybe_insert a b c w) as [e w'] end.
  pose proof (wf_entry_dispatch e r _ (wf_reset_id e _ Hg)) as Hd. cbn [snd] in Hd.
  destruct (entry_dispatch _ _ _ _ _ _ _ _) as [[ec|] w'']; [by apply wf_try_callback|exact Hd].
Qed.

Lemma wf_upsert s c id w : wf w → wf (upsert s c id w).
Proof using.
  intros Hw. unfold upsert. destruct (cw_cache w !! _); [by apply wf_upd_entry|by apply wf_get_and_maybe_insert].
Qed.

Lemma wf_answer lk result w : wf w → wf (answer strategy scan_body view lk result w).
Proof using.
  intros Hw. unfold answer. destruct result; apply wf_refreshed; [apply wf_upsert|]; by apply wf_set_lookups.
Qed.
End preservation.

(** ** Runs *)

Section runs.
Context (max_queue_size : Z).
Context (strategy lookup_strategy : option retry_strategy) (scan_body : bytes → Z → option bytes).

(** Every call of the component is a transition, as are the sections of the
    threads that cancel and answer requests. *)
Inductive component_step : world → world → Prop :=
  | component_new w r request value :
      st_requests (cw_store w) !! r = None → qr_completed request = false → qr_queued_with request = None →
      component_step w
        (World (Store (<[r := request]> (st_requests (cw_store w))) (st_queues (cw_store w)) (st_operations (cw_store w))
                  (st_callbacks (cw_store w))) (cw_entries w) (cw_cache w)
           (match value with Some v => <[r := v]> (cw_scans w) | None => cw_scans w end) (cw_lookups w) (cw_sent w))
  | component_dispatch view w r :
      component_step w (dispatch max_queue_size strategy lookup_strategy scan_body view r w).2
  | component_re_queue view w r :
      component_step w (re_queue max_queue_size strategy lookup_strategy scan_body view r w)
  | component_answer view w lk result :
      lk ∈ cw_lookups w → component_step w (answer strategy scan_body view lk result w)
  | component_settle w r v retries : component_step w (upd_store (settle r v retries) w)
  | component_cancel w r error : component_step w (upd_store (λ st, (cancel_test r error st).2) w)
  | component_stop_timers w r : component_step w (upd_store (stop_timers r) w)
  | component_try_callback w r error : component_step w (upd_store (λ st, (try_callback_test r error st).2) w)
  | component_invoke w r error : component_step w (upd_store (invoke_callback r error) w)
  | component_remove w scope_name collection_name : component_step w (remove_entry scope_name collection_name w).

Definition empty_world : world := World empty_store ∅ ∅ ∅ [] [].

Lemma reachable_wf w : rtc component_step empty_world w → wf w.
Proof using.
  revert w. apply (rtc_ind_r wf).
  - split; cbn; [apply empty_consistent|..]; intros *; by rewrite lookup_empty.
  - intros w w' _ Hstep Hw. pose proof (wf_store _ Hw) as Hc.
    destruct Hstep as [w r request value Hn Hcm Hq|view w r|view w r|view w lk result _|w r v retries|w r error|w r|w r error|w r error|w s c].
    + destruct Hw as [H1 H2 H3 H4]. split; [by eapply step_consistent; [by apply step_new|]|exact H2|exact H3|exact H4].
    + by apply wf_dispatch.
    + by apply wf_re_queue.
    + by apply wf_answer.
    + apply (wf_same w); [done|by apply settle_same].
    + apply (wf_same w); [done|by apply cancel_test_same].
    + apply (wf_same w); [done|by apply stop_timers_same].
    + apply (wf_same w); [done|by apply try_callback_test_same].
    + by apply (wf_same w).
    + by apply wf_upd_cache_delete.
Qed.

(** C36: the cache stays well formed.  Whatever is dispatched, answered,
    retried, cancelled or dropped, every entry has an open queue of its own,
    the cache names entries that exist under their own names, and the items of
    the queues are the requests that wait in them. *)
Theorem collections_well_formed w : rtc component_step empty_world w → wf w.
Proof. apply reachable_wf. Qed.
End runs.

(** ** What the callback of a lookup does *)

(** The requests that wait in the queue of an entry. *)
Definition waiting (e : nat) (w : world) : list nat :=
  match cw_entries w !! e with Some entry => items (cw_store w) (ent_queue entry) | None => [] end.

Lemma drained_items q l st :
  st_queues st !! q = Some (OperationQueue l true) → (items_to_drain q (close_queue q st)).1 = l.
Proof.
  intros Hl. unfold items_to_drain, close_queue, upd_queue. cbn [st_queues]. rewrite lookup_alter_eq, Hl. cbn.
  by destruct l.
Qed.

Lemma try_callback_other r error st r' :
  r' ≠ r → fate (try_callback r error st) r' = fate st r' ∧ calls (try_callback r error st) r' = calls st r'.
Proof.
  intros Hne. unfold try_callback. set (st1 := stop_timers r st).
  assert (Hcall : ∀ i st2, fate st2 r' = fate st r' → st_callbacks st2 = st_callbacks st1 →
    match i with Some i => iv_request i = r | None => True end →
    fate (perform i st2) r' = fate st r' ∧ calls (perform i st2) r' = calls st r').
  { intros [i|] st2 Hf Hcb Hi; cbn [perform]; [rewrite calls_invoke, decide_False by congruence|];
      (split; [done|unfold calls; by rewrite Hcb]). }
  assert (H1 : fate st1 r' = fate st r') by apply fate_stop_timers.
  unfold try_callback_test. destruct (st_requests st1 !! r) as [request|]; [|by apply Hcall].
  assert (Hcancel : ∀ e, let '(i, st2) := cancel_test r e st1 in
    fate (perform i st2) r' = fate st r' ∧ calls (perform i st2) r' = calls st r').
  { intros e. destruct (cancel_test_call r e st1) as [E1 E2]. destruct (internal_cancel_fate r st1) as (Hcb & Hf & _).
    specialize (Hf r' Hne). destruct (cancel_test r e st1) as [i st2]. cbn [fst snd] in *. subst.
    apply Hcall; [congruence|done|]. by destruct (fate st1 r) as [[[] ?]|]. }
  destruct (qr_persistent request).
  - destruct error as [e|]; [|destruct (qr_completed request); by apply Hcall].
    specialize (Hcancel e). by destruct (cancel_test r e st1).
  - destruct (qr_completed request); [by apply Hcall|]. apply Hcall; [|done|done]. by rewrite fate_set_completed, decide_False.
Qed.

(** Answering a list of different requests. *)
Lemma fold_try_callback error l st r p :
  NoDup l → r ∈ l → fate st r = Some (false, p) →
  calls (foldl (λ st r, try_callback r (Some error) st) st l) r = Some error :: calls st r.
Proof.
  intros Hn. revert st. induction l as [|x l IH]; intros st Hin Hf; [by apply elem_of_nil in Hin|].
  apply NoDup_cons in Hn as [Hx Hn]. cbn [foldl].
  assert (Hrest : ∀ l st, r ∉ l → calls (foldl (λ st r, try_callback r (Some error) st) st l) r = calls st r).
  { clear. induction l as [|y l IH]; intros st Hni; [done|]. cbn [foldl].
    apply not_elem_of_cons in Hni as [Hy Hni]. rewrite IH by done. by apply try_callback_other. }
  apply elem_of_cons in Hin as [->|Hin].
  - rewrite Hrest by done. by apply (calls_try_callback _ _ p).
  - assert (Hne : r ≠ x) by (by intros ->). destruct (try_callback_other x (Some error) st r Hne) as [F C].
    rewrite IH; [by rewrite C|done..|by rewrite F].
Qed.

(** No request is forgotten. *)
Lemma fate_is_Some st r : is_Some (fate st r) ↔ is_Some (st_requests st !! r).
Proof. unfold fate. apply fmap_is_Some. Qed.

Lemma internal_cancel_keeps r st r' : is_Some (fate st r') → is_Some (fate (internal_cancel r st).2 r').
Proof.
  destruct (internal_cancel_fate r st) as (_ & Hother & Hr). destruct (decide (r' = r)) as [->|Hne]; [|by rewrite Hother].
  intros H. destruct (fate st r) as [[[] p]|] eqn:Hf; [rewrite Hr; cbn; by rewrite Hf|destruct Hr as [_ ->]; by eexists|by destruct H].
Qed.

Lemma cancel_keeps r error st r' : is_Some (fate st r') → is_Some (fate (cancel r error st) r').
Proof.
  intros H. unfold cancel. destruct (cancel_test_call r error st) as [E _]. destruct (cancel_test r error st) as [i st'].
  cbn [snd] in E. subst. destruct i; by apply internal_cancel_keeps.
Qed.

Lemma try_callback_keeps r error st r' : is_Some (fate st r') → is_Some (fate (try_callback r error st) r').
Proof.
  intros H. unfold try_callback. assert (H1 : is_Some (fate (stop_timers r st) r')) by (by rewrite fate_stop_timers).
  enough (H2 : is_Some (fate (try_callback_test r error (stop_timers r st)).2 r')).
  { destruct (try_callback_test r error _) as [i st']. by destruct i. }
  unfold try_callback_test. destruct (st_requests (stop_timers r st) !! r) as [request|]; [|done]. destruct (qr_persistent request).
  - destruct error; [|done]. rewrite (proj1 (cancel_test_call _ _ _)). by apply internal_cancel_keeps.
  - destruct (qr_completed request); [done|]. cbn [snd]. rewrite fate_set_completed. case_decide; [by apply fmap_is_Some|done].
Qed.

Lemma settle_keeps r v retries st r' : is_Some (fate st r') → is_Some (fate (settle r v retries st) r').
Proof.
  intros H. unfold settle. set (st1 := upd_request r (set_retries retries) st).
  assert (Hq : ∀ st st', quiet st st' → is_Some (fate st r') → is_Some (fate st' r')) by (intros ? ? [Hq _] ?; by rewrite Hq).
  assert (H1 : is_Some (fate st1 r')) by (apply (Hq st); [unfold st1; auto with queues|done]).
  destruct v as [| |session opaque subscribed| |error cancelled]; [done|done|..].
  - apply (Hq st1); [|done]. destruct subscribed; [etrans; [|apply quiet_enqueue]|]; auto with queues.
  - apply (Hq st1); [auto with queues|done].
  - destruct error as [error|]; [destruct cancelled; [by apply cancel_keeps|]|]; by apply try_callback_keeps.
Qed.

Section lookups.
Context (max_queue_size : Z).
Context (strategy lookup_strategy : option retry_strategy) (scan_body : bytes → Z → option bytes).
Context (view : sent → store → cluster_view).

Lemma foldl_upd_store (f : nat → store → store) l w :
  foldl (λ w r, upd_store (f r) w) w l = upd_store (λ st, foldl (λ st r, f r st) st l) w.
Proof using. revert w. induction l as [|r l IH]; intros w; [by destruct w|]. cbn [foldl]. by rewrite IH. Qed.

(** A collection that is not found is never looked up again.  When the
    answer to a lookup is [collection_not_found], the request that started it
    is not found in the queue, so no retry strategy is asked; every request
    that waits for the identifier is answered with the error. *)
Theorem collection_not_found_fails_all e r w r' p :
  wf w → is_Some (cw_entries w !! e) → is_Some (st_requests (cw_store w) !! r) →
  (∀ strategy', refreshed strategy scan_body view e r (Some collection_not_found) w =
                refreshed strategy' scan_body view e r (Some collection_not_found) w) ∧
  (r' ∈ waiting e w → fate (cw_store w) r' = Some (false, p) →
   calls (cw_store (refreshed strategy scan_body view e r (Some collection_not_found) w)) r' =
     Some collection_not_found :: calls (cw_store w) r').
Proof.
  intros Hw [entry He] [request Hr].
  set (w1 := upd_entry e (set_id unknown_collection_id) w). assert (H1 : wf w1) by (by apply wf_upd_entry).
  assert (Hrem : remove (ent_queue entry) r (cw_store w1) = (false, cw_store w1)) by (apply remove_nothing, H1).
  assert (Hall : ∀ s, refreshed s scan_body view e r (Some collection_not_found) w = fail_lookup e request collection_not_found w1).
  { intros s. unfold refreshed. rewrite He, Hr. rewrite decide_True by done. fold w1. rewrite Hrem.
    by destruct w1. }
  split; [intros s; by rewrite !Hall|]. rewrite Hall. unfold waiting. rewrite He. intros Hin Hf.
  unfold fail_lookup. set (w2 := remove_entry _ _ w1). assert (H2 : wf w2) by (by apply wf_upd_cache_delete).
  destruct (swap_queue e w2) as [[q w3]|] eqn:Hs; [|exfalso].
  2: { unfold swap_queue in Hs. unfold w2, w1, upd_entry in Hs. cbn [cw_entries remove_entry upd_cache] in Hs.
       by rewrite lookup_alter_eq, He in Hs. }
  destruct (wf_swap_queue _ _ _ _ H2 Hs) as (H3 & Hq & l & Hl & Hitems).
  assert (Hqe : q = ent_queue entry ∧ st_requests (cw_store w3) = st_requests (cw_store w) ∧
    st_callbacks (cw_store w3) = st_callbacks (cw_store w)).
  { unfold swap_queue, w2, w1, upd_entry in Hs. cbn [cw_entries remove_entry upd_cache] in Hs.
    rewrite lookup_alter_eq, He in Hs. by injection Hs as <- <-. }
  destruct Hqe as (-> & Hreq & Hcb). change (items (cw_store w2) (ent_queue entry)) with (items (cw_store w) (ent_queue entry)) in Hitems.
  unfold close_and_drain. cbn [cw_store upd_store].
  pose proof (drained_items _ _ _ Hl) as Hd. pose proof (quiet_items_to_drain (ent_queue entry) (close_queue (ent_queue entry) (cw_store w3))) as [Qf Qc].
  destruct (items_to_drain _ _) as [l' st4]. cbn [fst snd] in *. subst l'.
  rewrite (foldl_upd_store (λ r, try_callback r (Some collection_not_found))). cbn [cw_store upd_store].
  rewrite (fold_try_callback _ _ _ _ p).
  - unfold calls. by rewrite Qc, <-Hcb.
  - rewrite <-Hitems. apply (con_nodup _ (wf_store _ Hw)).
  - by rewrite <-Hitems.
  - rewrite Qf. unfold fate. cbn [close_queue upd_queue st_requests]. by rewrite Hreq.
Qed.

Lemma requeue_drained_sent e entry r w :
  cw_entries w !! e = Some entry → cw_scans w = ∅ → is_Some (st_requests (cw_store w) !! r) →
  let w' := requeue_drained strategy scan_body view e r w in
  cw_sent w' = sent_re_queue r (ent_id entry) false :: cw_sent w ∧ cw_entries w' = cw_entries w ∧ cw_scans w' = ∅ ∧
  cw_cache w' = cw_cache w ∧
  ∀ r', is_Some (st_requests (cw_store w) !! r') → is_Some (st_requests (cw_store w') !! r').
Proof using.
  intros He Hs [request Hr]. unfold requeue_drained, assign_collection_id. rewrite He, Hs, lookup_empty.
  set (w1 := upd_store _ w).
  assert (Hr1 : st_requests (cw_store w1) !! r = Some (set_collection_id (ent_id entry) request)).
  { unfold w1. cbn [cw_store upd_store]. by rewrite lookup_upd_request, decide_True, Hr. }
  assert (Hid : collection_id_of r w1 = ent_id entry) by (unfold collection_id_of; by rewrite Hr1).
  rewrite Hid. unfold dispatch_with. rewrite Hr1. destruct (direct_re_queue _ _ _) as [[v ec] retries].
  cbn. split_and!; [done|done|done|done|].
  intros r' Hr'. rewrite <-fate_is_Some. apply settle_keeps. rewrite fate_is_Some, lookup_upd_request.
  case_decide; [by apply fmap_is_Some|done].
Qed.

Lemma requeue_all_sent e entry l w :
  cw_entries w !! e = Some entry → cw_scans w = ∅ → (∀ r, r ∈ l → is_Some (st_requests (cw_store w) !! r)) →
  let w' := foldl (λ w r, requeue_drained strategy scan_body view e r w) w l in
  cw_sent w' = rev (map (λ r, sent_re_queue r (ent_id entry) false) l) ++ cw_sent w ∧ cw_entries w' = cw_entries w.
Proof using.
  revert w. induction l as [|r l IH]; intros w He Hs Hl; [done|]. cbn [foldl map rev].
  destruct (requeue_drained_sent e entry r w He Hs) as (S1 & E1 & C1 & _ & R1); [apply Hl; by left|].
  destruct (IH (requeue_drained strategy scan_body view e r w)) as [S2 E2]; [by rewrite E1|done|intros r' Hr'; apply R1, Hl; by right|].
  cbv zeta. rewrite S2, E2, S1, E1. by rewrite <-app_assoc.
Qed.

(** After a successful lookup the queue is handed over in order. *)
Lemma refreshed_requeues e entry r w :
  wf w → cw_entries w !! e = Some entry → cw_scans w = ∅ → is_Some (st_requests (cw_store w) !! r) →
  let w' := refreshed strategy scan_body view e r None w in
  cw_sent w' = rev (map (λ r, sent_re_queue r (ent_id entry) false) (waiting e w)) ++ cw_sent w ∧
  ∃ q, cw_entries w' !! e = Some (set_queue q entry).
Proof using.
  intros Hw He Hscan [request Hr]. unfold refreshed. rewrite He, Hr.
  destruct (swap_queue e w) as [[q w3]|] eqn:Hs; [|unfold swap_queue in Hs; by rewrite He in Hs].
  destruct (wf_swap_queue _ _ _ _ Hw Hs) as (H3 & Hq & l & Hl & Hitems).
  unfold swap_queue in Hs. rewrite He in Hs. injection Hs as <- <-. set (w3 := upd_entry e _ _) in *.
  unfold close_and_drain. cbn [cw_store upd_store].
  pose proof (drained_items _ _ _ Hl) as Hd.
  pose proof (quiet_items_to_drain (ent_queue entry) (close_queue (ent_queue entry) (cw_store w3))) as [Qf _].
  destruct (items_to_drain _ _) as [l' st4]. cbn [fst snd] in *. subst l'.
  assert (He3 : cw_entries (upd_store (λ _, st4) (upd_store (close_queue (ent_queue entry)) w3)) !! e =
    Some (set_queue (fresh (dom (st_queues (cw_store w)))) entry)).
  { unfold w3, upd_entry. cbn [cw_entries upd_store]. by rewrite lookup_alter_eq, He. }
  destruct (requeue_all_sent e _ l _ He3) as [S E]; [done| |].
  - intros r' Hin. cbn [cw_store upd_store]. rewrite <-Hitems in Hin. apply (con_items _ (wf_store _ Hw)) in Hin.
    specialize (Qf r'). unfold fate in Qf. cbn [close_queue upd_queue st_requests w3 upd_entry cw_store upd_store] in Qf.
    unfold queued in Hin. destruct (st_requests (cw_store w) !! r') as [req|]; [|done].
    destruct (st_requests st4 !! r'); [by eexists|done].
  - cbv zeta in *. rewrite S, E, He3. unfold waiting. rewrite He, Hitems. split; [done|]. by eexists.
Qed.

(** A successful lookup hands everything over.  When the identifier of a
    collection arrives, every request that waits for it is queued again with
    the identifier, once and in the order of arrival, and nothing is left in
    the queue of the entry. *)
Theorem collection_found_requeues_all e entry lk id w :
  wf w → cw_entries w !! e = Some entry → cw_scans w = ∅ → is_Some (st_requests (cw_store w) !! lk_request lk) →
  lk_entry lk = e → cw_cache w !! build_key (lk_scope lk) (lk_collection lk) = Some e →
  let w' := answer strategy scan_body view lk (inl id) w in
  cw_sent w' = rev (map (λ r, sent_re_queue r id false) (waiting e w)) ++ cw_sent w ∧
  ∃ q, cw_entries w' !! e = Some (Entry (ent_scope entry) (ent_collection entry) id q).
Proof.
  intros Hw He Hscan Hr Hlk Hc. cbv zeta. unfold answer, upsert. cbn [cw_cache set_lookups]. rewrite Hc, Hlk.
  set (w1 := upd_entry e (set_id id) _).
  assert (Hw1 : wf w1) by (by apply wf_upd_entry; [|apply wf_set_lookups]).
  assert (He1 : cw_entries w1 !! e = Some (set_id id entry)).
  { unfold w1, upd_entry. cbn [cw_entries set_lookups]. by rewrite lookup_alter_eq, He. }
  destruct (refreshed_requeues e _ (lk_request lk) w1 Hw1 He1 Hscan Hr) as [S [q E]].
  cbv zeta in *. rewrite S, E. split; [|by exists q]. unfold waiting. by rewrite He1, He.
Qed.

(** A collection whose scope has no name is never resolved.  Its entry is
    cached under the empty name, but the lookup replaces the empty name with
    the default one, and the answer is stored under that: the requests that
    waited are sent with the placeholder for a pending identifier, and the
    entry stays pending. *)
Theorem empty_scope_stays_pending e entry r id w :
  wf w → cw_entries w !! e = Some entry → cw_scans w = ∅ → is_Some (st_requests (cw_store w) !! r) →
  ent_scope entry = [] → ent_id entry = pending_collection_id →
  let w' := answer strategy scan_body view (Lookup e r default_name (ent_collection entry)) (inl id) w in
  cw_sent w' = rev (map (λ r, sent_re_queue r pending_collection_id false) (waiting e w)) ++ cw_sent w ∧
  ∃ q, cw_entries w' !! e = Some (Entry [] (ent_collection entry) pending_collection_id q).
Proof.
  intros Hw He Hscan Hr Hsc Hid. cbv zeta. unfold answer. cbn [lk_entry lk_request lk_scope lk_collection].
  set (w0 := set_lookups _ w). assert (Hw0 : wf w0) by (by apply wf_set_lookups).
  set (w1 := upsert default_name (ent_collection entry) id w0).
  assert (Hw1 : wf w1) by (by apply wf_upsert).
  assert (H1 : cw_entries w1 !! e = Some entry ∧ waiting e w1 = waiting e w ∧ cw_sent w1 = cw_sent w ∧ cw_scans w1 = ∅ ∧
    st_requests (cw_store w1) = st_requests (cw_store w)).
  { unfold w1, upsert. cbn [cw_cache set_lookups w0]. destruct (cw_cache w !! _) as [e'|] eqn:Hc.
    - assert (Hne : e' ≠ e).
      { intros ->. destruct (wf_cache _ Hw _ _ Hc) as (ent & Hent & Hkey). rewrite He in Hent. injection Hent as <-.
        unfold build_key in Hkey. rewrite Hsc in Hkey. apply (f_equal length) in Hkey. rewrite !length_app in Hkey.
        cbn in Hkey. lia. }
      assert (E : cw_entries (upd_entry e' (set_id id) w0) !! e = Some entry)
        by (unfold upd_entry; cbn [cw_entries]; by rewrite lookup_alter_ne).
      split_and!; [exact E|unfold waiting; by rewrite E, He|done..].
    - unfold get_and_maybe_insert. cbn [cw_cache set_lookups w0]. rewrite Hc. cbn [snd].
      set (e' := fresh (dom (cw_entries w0))). set (q' := fresh (dom (st_queues (cw_store w0)))).
      assert (He' : e' ≠ e).
      { intros Heq. pose proof (fresh_lookup (cw_entries w0)) as Hf. fold e' in Hf. rewrite Heq in Hf.
        change (cw_entries w !! e = None) in Hf. congruence. }
      destruct (wf_queue _ Hw e entry He) as [l Hl]. assert (Hq' : q' ≠ ent_queue entry).
      { intros Heq. pose proof (fresh_lookup (st_queues (cw_store w0))) as Hf. fold q' in Hf. rewrite Heq in Hf.
        change (st_queues (cw_store w) !! ent_queue entry = None) in Hf. congruence. }
      split_and!; [cbn [cw_entries]; by rewrite lookup_insert_ne| |done..].
      unfold waiting, items. cbn [cw_entries cw_store st_queues]. rewrite lookup_insert_ne by done.
      change (cw_entries w0) with (cw_entries w). rewrite He. by rewrite lookup_insert_ne. }
  destruct H1 as (He1 & Hwait & Hsent & Hs1 & Hreq).
  destruct (refreshed_requeues e entry r w1 Hw1 He1 Hs1) as [S [q E]]; [by rewrite Hreq|].
  cbv zeta in *. rewrite S, E, Hwait, Hsent, Hid. split; [done|]. exists q. unfold set_queue. by rewrite Hsc, Hid.
Qed.
End lookups.

(** ** The theorems at concrete inputs *)

(** A cluster whose bucket waits for its configuration, one whose bucket is
    closed, and one whose session has stopped. *)
Definition deferring : sent → store → cluster_view := λ _ _, ClusterView false true (Some (BucketView false false None)).
Definition closing : sent → store → cluster_view := λ _ _, ClusterView false true (Some (BucketView true true None)).
Definition stopping : sent → store → cluster_view := λ _ _,
  ClusterView false true (Some (BucketView false true (Some (SessionView 0 true true 9 None false)))).

Definition waiting_request (scope_name : bytes) : queue_request :=
  QueueRequest false None None false 7 scope_name [99] 0 false false (RetryRequest true 0 ∅).

(** Two requests for a collection, of which the first started the lookup. *)
Definition two_waiting (scope_name : bytes) : world :=
  let request := waiting_request scope_name in
  let w := World (Store {[0%nat := request; 1%nat := request]} ∅ ∅ []) ∅ ∅ ∅ [] [] in
  (dispatch 8 None None (λ _ _, None) deferring 1 (dispatch 8 None None (λ _ _, None) deferring 0 w).2).2.

Lemma two_waiting_reachable scope_name :
  rtc (component_step 8 None None (λ _ _, None)) empty_world (two_waiting scope_name).
Proof.
  eapply rtc_l; [by apply (component_new _ _ _ _ _ 1 (waiting_request scope_name) None)|].
  eapply rtc_l; [by apply (component_new _ _ _ _ _ 0 (waiting_request scope_name) None)|].
  eapply rtc_l; [apply (component_dispatch _ _ _ _ deferring _ 0)|]. eapply rtc_l; [apply (component_dispatch _ _ _ _ deferring _ 1)|]. reflexivity.
Qed.

Lemma two_waiting_wf scope_name : wf (two_waiting scope_name).
Proof. apply (reachable_wf 8 None None (λ _ _, None)), two_waiting_reachable. Qed.

Lemma collections_well_formed_witness : wf (two_waiting [115]).
Proof. apply (collections_well_formed 8 None None (λ _ _, None)), two_waiting_reachable. Defined.

Lemma collection_not_found_fails_all_witness :
  let w := two_waiting [115] in
  (∀ strategy', refreshed None (λ _ _, None) deferring 0 0 (Some collection_not_found) w =
                refreshed strategy' (λ _ _, None) deferring 0 0 (Some collection_not_found) w) ∧
  (1%nat ∈ waiting 0 w → fate (cw_store w) 1 = Some (false, false) →
   calls (cw_store (refreshed None (λ _ _, None) deferring 0 0 (Some collection_not_found) w)) 1 =
     Some collection_not_found :: calls (cw_store w) 1).
Proof.
  apply (collection_not_found_fails_all None (λ _ _, None) deferring 0 0 (two_waiting [115]) 1 false); [apply two_waiting_wf|..];
    apply (bool_decide_unpack _); by vm_compute.
Defined.

Definition entry_of (w : world) (e : nat) : entry :=
  match cw_entries w !! e with Some entry => entry | None => Entry [] [] 0 0 end.

Lemma collection_found_requeues_all_witness :
  let w := two_waiting [115] in
  let w' := answer None (λ _ _, None) deferring (Lookup 0 0 [115] [99]) (inl 8) w in
  cw_sent w' = [sent_re_queue 1 8 false; sent_re_queue 0 8 false; sent_get_collection_id [115] [99]] ∧
  ∃ q, cw_entries w' !! 0%nat = Some (Entry [115] [99] 8 q).
Proof.
  apply (collection_found_requeues_all None (λ _ _, None) deferring 0 (entry_of (two_waiting [115]) 0) (Lookup 0 0 [115] [99]) 8 (two_waiting [115]));
    [apply two_waiting_wf|..]; apply (bool_decide_unpack _); by vm_compute.
Defined.

Lemma empty_scope_stays_pending_witness :
  let w := two_waiting [] in
  let w' := answer None (λ _ _, None) deferring (Lookup 0 0 default_name [99]) (inl 8) w in
  cw_sent w' = [sent_re_queue 1 pending_collection_id false; sent_re_queue 0 pending_collection_id false;
                sent_get_collection_id default_name [99]] ∧
  ∃ q, cw_entries w' !! 0%nat = Some (Entry [] [99] pending_collection_id q).
Proof.
  apply (empty_scope_stays_pending None (λ _ _, None) deferring 0 (entry_of (two_waiting []) 0) 0 8 (two_waiting []));
    [apply two_waiting_wf|..]; apply (bool_decide_unpack _); by vm_compute.
Defined.

(** ** Requests that are refused *)

Definition one_request : world :=
  World (Store {[0%nat := waiting_request [115]]} ∅ ∅ []) ∅ ∅ ∅ [] [].

(** A request to a closed bucket is refused twice: its callback is invoked
    and the call returns the error as well. *)
Theorem closed_bucket_refuses_twice :
  let '(ec, w) := dispatch 8 None None (λ _ _, None) closing 0 one_request in
  ec = Some bucket_closed ∧ calls (cw_store w) 0 = [Some bucket_closed].
Proof. by vm_compute. Qed.

(** A request whose lookup is refused by a stopped session, which calls
    nobody back, is refused to the caller and stays in the queue of its entry:
    the next lookup that succeeds sends it. *)
Theorem refused_request_is_sent :
  let '(ec, w) := dispatch 8 None None (λ _ _, None) stopping 0 one_request in
  ec = Some service_not_available ∧ waiting 0 w = [0%nat] ∧
  let w := upd_store (λ st, Store (<[1%nat := waiting_request [115]]> (st_requests st)) (st_queues st) (st_operations st) (st_callbacks st)) w in
  let '(ec, w) := dispatch 8 None None (λ _ _, None) deferring 1 w in
  ec = None ∧
  cw_sent (answer None (λ _ _, None) deferring (Lookup 0 1 [115] [99]) (inl 8) w) =
    sent_re_queue 1 8 false :: sent_re_queue 0 8 false :: cw_sent w.
Proof. by vm_compute. Qed.
