(* ===== verification/Dns.v ===== *)
(** * DNS messages: [core/io/dns_codec.hxx], [dns_message.hxx] and
      [dns_client.cxx]

    The query for SRV records, its encoding, and the decoding of responses.
    The loop of [get_name] follows compression pointers without a bound; its
    fuel is one more than the size of the message, and a name that needs more
    has no end ([dns_names_without_end]). *)

From stdpp Require Import finite.
From S2P Require Import Prelude ByteOrder Protocol McbpParser ClientRequest ClientResponse.

(** ** Messages *)

(** Values of [resource_type] and [resource_class] that the client uses *)
Definition type_srv : Z := 33.
Definition class_in : Z := 1.

Record dns_flags := DnsFlags {
  qr : bool;
  opcode : Z;
  aa : bool;
  tc : bool;
  rd : bool;
  ra : bool;
  rcode : Z;
}.

(** The flags of a new message *)
Definition query_flags : dns_flags := DnsFlags false 0 false false true false 0.

Definition encode_flags (f : dns_flags) : Z :=
  u16 (Z.lor (Z.lor (Z.lor (Z.lor (Z.lor (Z.lor
    (u32 (Z.shiftl (Z.land (Z.b2z (qr f)) 1) 15))
    (u32 (Z.shiftl (Z.land (opcode f) 15) 11)))
    (u32 (Z.shiftl (Z.land (Z.b2z (aa f)) 1) 10)))
    (u32 (Z.shiftl (Z.land (Z.b2z (tc f)) 1) 9)))
    (u32 (Z.shiftl (Z.land (Z.b2z (rd f)) 1) 8)))
    (u32 (Z.shiftl (Z.land (Z.b2z (ra f)) 1) 7)))
    (Z.land (rcode f) 15)).

Definition flag_bit (blob n : Z) : bool := bool_decide (Z.land (Z.shiftr blob n) 1 ≠ 0).

Definition decode_flags (blob : Z) : dns_flags :=
  DnsFlags (flag_bit blob 15) (Z.land (Z.shiftr blob 11) 15) (flag_bit blob 10) (flag_bit blob 9)
    (flag_bit blob 8) (flag_bit blob 7) (Z.land blob 15).

Record question_record := QuestionRecord {
  q_labels : list bytes;
  q_type : Z;
  q_class : Z;
}.

Record srv_record := SrvRecord {
  sr_labels : list bytes;
  sr_ttl : Z;
  sr_priority : Z;
  sr_weight : Z;
  sr_port : Z;
  sr_target : list bytes;
}.

Record dns_message := DnsMessage {
  id : Z;
  flags : dns_flags;
  questions : list question_record;
  answers : list srv_record;
}.

Definition question_size (q : question_record) : Z :=
  foldl (λ res label, res + (1 + zsize label)) 4 (q_labels q) + 1.

Definition request_size (m : dns_message) : Z :=
  foldl (λ res q, res + question_size q) 12 (questions m).

(** ** Encoding *)

(** Writes into the vector, which keeps its size *)
Definition put16 {E} (payload : bytes) (offset v : Z) : outcome E bytes :=
  store_range payload offset (le_bytes 2 (byte_swap16 v)).

Definition put_label {E} (s : bytes * Z) (label : bytes) : outcome E (bytes * Z) :=
  let '(payload, offset) := s in
  payload ← store_range payload offset [u8 (zsize label)];
  payload ← store_range payload (offset + 1) label;
  Ok (payload, offset + 1 + zsize label).

Fixpoint put_labels {E} (labels : list bytes) (s : bytes * Z) : outcome E (bytes * Z) :=
  match labels with
  | [] => Ok s
  | label :: labels => s ← put_label s label; put_labels labels s
  end.

Definition put_question {E} (s : bytes * Z) (q : question_record) : outcome E (bytes * Z) :=
  '(payload, offset) ← put_labels (q_labels q) s;
  payload ← store_range payload offset [0];
  payload ← put16 payload (offset + 1) (q_type q);
  payload ← put16 payload (offset + 1 + 2) (q_class q);
  Ok (payload, offset + 1 + 2 + 2).

Fixpoint put_questions {E} (qs : list question_record) (s : bytes * Z) : outcome E (bytes * Z) :=
  match qs with
  | [] => Ok s
  | q :: qs => s ← put_question s q; put_questions qs s
  end.

Definition encode {E} (m : dns_message) : outcome E bytes :=
  let payload := resize_to (request_size m) 0 [] in
  payload ← put16 payload 0 (id m);
  payload ← put16 payload 2 (encode_flags (flags m));
  payload ← put16 payload 4 (u16 (zsize (questions m)));
  '(payload, _) ← put_questions (questions m) (payload, 12);
  Ok payload.

(** ** Decoding *)

(** The loop of [get_name]: the labels so far and [save_offset]. *)
Fixpoint get_name_loop {E} (fuel : nat) (payload : bytes) (offset : Z) (labels : list bytes) (save_offset : option Z) :
    outcome E (list bytes * Z) :=
  match fuel with
  | O => Diverge
  | S fuel =>
      len ← at_ payload offset;
      if decide (len = 0) then
        Ok (labels, match save_offset with Some o => o | None => offset + 1 end)
      else if decide (Z.land len 192 ≠ 0) then
        ptr ← load16 payload offset;
        get_name_loop fuel payload (Z.land ptr 16383) labels (Some (offset + 2))
      else
        label ← range payload (offset + 1) len;
        get_name_loop fuel payload (offset + u16 (1 + len)) (labels ++ [label]) save_offset
  end.

Definition get_name {E} (payload : bytes) (offset : Z) : outcome E (list bytes * Z) :=
  get_name_loop (S (length payload)) payload offset [] None.

Fixpoint get_questions {E} (n : nat) (payload : bytes) (offset : Z) (qs : list question_record) :
    outcome E (list question_record * Z) :=
  match n with
  | O => Ok (qs, offset)
  | S n =>
      '(name, offset) ← get_name payload offset;
      type ← load16 payload offset;
      class ← load16 payload (offset + 2);
      get_questions n payload (offset + 2 + 2) (qs ++ [QuestionRecord name type class])
  end.

(** An answer, if it is an SRV record, and the offset behind it *)
Definition get_answer {E} (payload : bytes) (offset : Z) : outcome E (option srv_record * Z) :=
  '(name, offset) ← get_name payload offset;
  type ← load16 payload offset;
  class ← load16 payload (offset + 2);
  ttl ← load32 payload (offset + 4);
  size ← load16 payload (offset + 8);
  let offset := offset + 10 in
  if decide (class ≠ class_in ∨ type ≠ type_srv) then Ok (None, offset + size)
  else
    priority ← load16 payload offset;
    weight ← load16 payload (offset + 2);
    port ← load16 payload (offset + 4);
    '(target, offset) ← get_name payload (offset + 6);
    Ok (Some (SrvRecord name ttl priority weight port target), offset).

Fixpoint get_answers {E} (n : nat) (payload : bytes) (offset : Z) (rs : list srv_record) :
    outcome E (list srv_record) :=
  match n with
  | O => Ok rs
  | S n =>
      '(r, offset) ← get_answer payload offset;
      get_answers n payload offset (match r with Some r => rs ++ [r] | None => rs end)
  end.

(** The counts of authority and additional records are read, and their
    records are not. *)
Definition decode {E} (payload : bytes) : outcome E dns_message :=
  id ← load16 payload 0;
  blob ← load16 payload 2;
  question_records ← load16 payload 4;
  answer_records ← load16 payload 6;
  _ ← load16 payload 8;
  _ ← load16 payload 10;
  '(qs, offset) ← get_questions (Z.to_nat question_records) payload 12 [];
  rs ← get_answers (Z.to_nat answer_records) payload offset [];
  Ok (DnsMessage id (decode_flags blob) qs rs).

(** ** The client *)

(** [std::getline(stream, label, '.')] until it fails: the text after the last
    dot is a label only when there is some. *)
Fixpoint split_labels (name : bytes) (label : bytes) : list bytes :=
  match name with
  | [] => if bool_decide (label = []) then [] else [label]
  | c :: name => if decide (c = 46) then label :: split_labels name [] else split_labels name (label ++ [c])
  end.

(** The request of [dns_srv_command] *)
Definition srv_request (name service : bytes) : dns_message :=
  DnsMessage 0 query_flags
    [QuestionRecord (service :: ascii "_tcp" :: split_labels name []) type_srv class_in] [].

Fixpoint join_labels (labels : list bytes) : bytes :=
  match labels with
  | [] => []
  | [label] => label
  | label :: labels => label ++ [46] ++ join_labels labels
  end.

(** What is done with a UDP response: the message is truncated and the query
    is sent again by TCP, or these are the targets. *)
Definition udp_response {E} (payload : bytes) : outcome E (option (list (bytes * Z))) :=
  m ← decode payload;
  Ok (if tc (flags m) then None else Some (map (λ r, (join_labels (sr_target r), sr_port r)) (answers m))).

(** The request with its length, for TCP *)
Definition tcp_request (send_buf : bytes) : bytes :=
  let send_size := u16 (zsize send_buf) in
  u8 (Z.shiftr send_size 8) :: u8 (Z.land send_size 255) :: send_buf.

(** ** Lemmas: flags *)

Definition flags_ok (f : dns_flags) : Prop := 0 ≤ opcode f < 16 ∧ 0 ≤ rcode f < 16.

#[export] Instance dns_flags_eq_dec : EqDecision dns_flags.
Proof. solve_decision. Defined.

Definition flags_check (f : dns_flags) : bool :=
  (0 <=? encode_flags f) && (encode_flags f <? 65536) && bool_decide (decode_flags (encode_flags f) = f).

Definition booleans : list bool := [true; false].

Definition forall_flags (P : dns_flags → bool) : bool :=
  forallb (λ o, forallb (λ r, forallb (λ b1, forallb (λ b2, forallb (λ b3, forallb (λ b4, forallb (λ b5,
    P (DnsFlags b1 o b2 b3 b4 b5 r)) booleans) booleans) booleans) booleans) booleans) (seqZ 0 16)) (seqZ 0 16).

Lemma all_booleans f : forallb f booleans = true → ∀ b, f b = true.
Proof. intros Hf b. rewrite forallb_forall in Hf. apply Hf. destruct b; [by left|by right; left]. Qed.
Lemma all_nibbles f : forallb f (seqZ 0 16) = true → ∀ z, 0 ≤ z < 16 → f z = true.
Proof. intros Hf z Hz. rewrite forallb_forall in Hf. apply Hf. by apply list_elem_of_In, elem_of_seqZ. Qed.

Lemma all_flags P f : forall_flags P = true → flags_ok f → P f = true.
Proof.
  destruct f as [b1 o b2 b3 b4 b5 r]. intros H [Ho Hr]. cbn in Ho, Hr. unfold forall_flags in H.
  apply all_nibbles with (z := o) in H; [|done]. apply all_nibbles with (z := r) in H; [|done].
  apply all_booleans with (b := b1) in H. apply all_booleans with (b := b2) in H.
  apply all_booleans with (b := b3) in H. apply all_booleans with (b := b4) in H.
  by apply all_booleans with (b := b5) in H.
Qed.

(** The fields of the flags do not overlap: by computation *)
Lemma flags_checked : forall_flags flags_check = true.
Proof. vm_compute. reflexivity. Qed.

Lemma flags_roundtrip f : flags_ok f → is_u16 (encode_flags f) ∧ decode_flags (encode_flags f) = f.
Proof.
  intros H%(all_flags _ _ flags_checked). unfold flags_check in H.
  apply andb_true_iff in H as [[H1 H2]%andb_true_iff H3]. apply bool_decide_eq_true in H3.
  split; [unfold in_width; lia|exact H3].
Qed.

(** ** Lemmas: the bytes of a request *)

Definition label_bytes (label : bytes) : bytes := u8 (zsize label) :: label.
Definition name_bytes (labels : list bytes) : bytes := concat (map label_bytes labels) ++ [0].
Definition question_bytes (q : question_record) : bytes :=
  name_bytes (q_labels q) ++ be_bytes 2 (q_type q) ++ be_bytes 2 (q_class q).

Definition message_bytes (m : dns_message) : bytes :=
  be_bytes 2 (id m) ++ be_bytes 2 (encode_flags (flags m)) ++ be_bytes 2 (u16 (zsize (questions m))) ++
  replicate 6 0 ++ concat (map question_bytes (questions m)).

Lemma zsize_concat_labels labels :
  foldl (λ res label, res + (1 + zsize label)) 4 labels = 4 + zsize (concat (map label_bytes labels)).
Proof.
  assert (H : ∀ z, foldl (λ res label, res + (1 + zsize label)) z labels = z + zsize (concat (map label_bytes labels))).
  { induction labels as [|l labels IH]; intros z; cbn [foldl map concat]; [size_lia|].
    rewrite IH. unfold label_bytes at 2. size_lia. }
  apply H.
Qed.

Lemma zsize_question q : zsize (question_bytes q) = question_size q.
Proof.
  unfold question_bytes, name_bytes, question_size. rewrite zsize_concat_labels.
  rewrite !zsize_app, !zsize_be_bytes, zsize_cons, zsize_nil. lia.
Qed.

Lemma zsize_questions m : request_size m = 12 + zsize (concat (map question_bytes (questions m))).
Proof.
  unfold request_size. generalize 12. induction (questions m) as [|q qs IH]; intros z; cbn [foldl map concat]; [size_lia|].
  rewrite IH, zsize_app, zsize_question. lia.
Qed.

(** The state of the encoder when [written] was written and [k] zeros are left *)
Definition cursor (written : bytes) (k : nat) : bytes * Z := (written ++ replicate k 0, zsize written).

Lemma put_behind {E} written k v i :
  (length v ≤ k)%nat → i = zsize written →
  store_range (E:=E) (written ++ replicate k 0) i v = Ok (cursor (written ++ v) (k - length v)).1.
Proof.
  intros Hk ->. replace (replicate k 0) with (replicate (length v) 0 ++ replicate (k - length v) 0)
    by (rewrite <-replicate_add; f_equal; lia).
  rewrite store_range_app; [by rewrite app_assoc|done|]. by rewrite length_replicate.
Qed.

Lemma put16_behind {E} written k v i :
  (2 ≤ k)%nat → is_u16 v → i = zsize written →
  put16 (E:=E) (written ++ replicate k 0) i v = Ok (cursor (written ++ be_bytes 2 v) (k - 2)).1.
Proof. intros Hk Hv Hi. unfold put16. rewrite byte_swap16_store by done. by rewrite put_behind. Qed.

Lemma put_label_behind {E} written k label :
  (length (label_bytes label) ≤ k)%nat →
  put_label (E:=E) (cursor written k) label = Ok (cursor (written ++ label_bytes label) (k - length (label_bytes label))).
Proof.
  intros Hk. cbn [label_bytes length] in Hk. unfold put_label, cursor at 1.
  rewrite put_behind by (done || (cbn; lia)). cbn [mbind outcome_bind cursor fst].
  rewrite put_behind by (cbn [length]; first [lia|size_lia]). cbn [mbind outcome_bind cursor fst length label_bytes].
  unfold cursor. rewrite <-app_assoc. cbn [app]. replace (k - 1 - length label)%nat with (k - S (length label))%nat by lia.
  unfold label_bytes. rewrite <-!app_assoc. cbn [app]. do 2 f_equal. size_lia.
Qed.

Lemma put_labels_behind {E} labels written k :
  let bs := concat (map label_bytes labels) in
  (length bs ≤ k)%nat → put_labels (E:=E) labels (cursor written k) = Ok (cursor (written ++ bs) (k - length bs)).
Proof.
  cbv zeta. revert written k. induction labels as [|label labels IH]; intros written k Hk; cbn [put_labels map concat] in *.
  - rewrite app_nil_r. cbn [length]. by rewrite Nat.sub_0_r.
  - rewrite length_app in *. rewrite put_label_behind by lia. cbn [mbind outcome_bind]. rewrite IH by lia.
    rewrite app_assoc. do 2 f_equal. lia.
Qed.

Definition question_ok (q : question_record) : Prop :=
  Forall (λ label, 1 ≤ zsize label < 64) (q_labels q) ∧ is_u16 (q_type q) ∧ is_u16 (q_class q).

Lemma put_question_behind {E} q written k :
  (length (question_bytes q) ≤ k)%nat → question_ok q →
  put_question (E:=E) (cursor written k) q = Ok (cursor (written ++ question_bytes q) (k - length (question_bytes q))).
Proof.
  intros Hk (_ & Ht & Hc). unfold question_bytes, name_bytes in *. rewrite !length_app, !length_be_bytes in *. cbn [length] in *.
  unfold put_question. rewrite put_labels_behind by lia. cbn [mbind outcome_bind]. unfold cursor at 1.
  rewrite put_behind by (done || (cbn [length]; lia)). cbn [mbind outcome_bind cursor fst length].
  rewrite put16_behind by (done || lia || size_lia). cbn [mbind outcome_bind cursor fst].
  rewrite put16_behind by (done || lia || (autorewrite with sizes; rewrite zsize_be_bytes; lia)).
  cbn [mbind outcome_bind cursor fst]. unfold cursor.
  set (n := length (concat (map label_bytes (q_labels q)))) in *.
  replace (k - n - 1 - 2 - 2)%nat with (k - (n + 1 + (2 + 2)))%nat by lia. rewrite <-!app_assoc. do 2 f_equal.
  autorewrite with sizes. rewrite !zsize_be_bytes. lia.
Qed.

Lemma put_questions_behind {E} qs written k :
  let bs := concat (map question_bytes qs) in
  (length bs ≤ k)%nat → Forall question_ok qs →
  put_questions (E:=E) qs (cursor written k) = Ok (cursor (written ++ bs) (k - length bs)).
Proof.
  cbv zeta. revert written k. induction qs as [|q qs IH]; intros written k Hk Hqs; cbn [put_questions map concat] in *.
  - rewrite app_nil_r. cbn [length]. by rewrite Nat.sub_0_r.
  - apply Forall_cons in Hqs as [Hq Hqs]. rewrite length_app in *. rewrite put_question_behind by (done || lia).
    cbn [mbind outcome_bind]. rewrite IH by (done || lia). rewrite app_assoc. do 2 f_equal. lia.
Qed.

Definition request_ok (m : dns_message) : Prop :=
  is_u16 (id m) ∧ flags_ok (flags m) ∧ Forall question_ok (questions m).

Lemma encode_spec {E} m : request_ok m → encode (E:=E) m = Ok (message_bytes m).
Proof.
  intros (Hid & Hf & Hqs). apply flags_roundtrip in Hf as [Hf _].
  set (bs := concat (map question_bytes (questions m))).
  assert (Hsize : request_size m = Z.of_nat (12 + length bs)) by (rewrite zsize_questions; unfold zsize, bs; lia).
  unfold encode. rewrite Hsize. unfold resize_to. rewrite Nat2Z.id, resize_nil.
  change (replicate (12 + length bs) 0) with ([] ++ replicate (12 + length bs) 0).
  rewrite put16_behind by (done || lia). cbn [mbind outcome_bind cursor fst].
  rewrite put16_behind by (done || lia). cbn [mbind outcome_bind cursor fst].
  rewrite put16_behind; [|lia|by apply wrap_in_width|done]. cbn [mbind outcome_bind cursor fst].
  replace (12 + length bs - 2 - 2 - 2)%nat with (6 + length bs)%nat by lia. rewrite replicate_add, app_assoc.
  match goal with |- context [put_questions _ (?w ++ replicate (length bs) 0, 12)] =>
    change (w ++ replicate (length bs) 0, 12) with (cursor w (length bs)) end.
  rewrite put_questions_behind by done. cbn [mbind outcome_bind cursor]. unfold message_bytes. fold bs.
  rewrite Nat.sub_diag. cbn [replicate]. by rewrite app_nil_r, <-!app_assoc.
Qed.

(** ** Lemmas: reading *)

Lemma load16_be {E} l1 l2 v i : i = zsize l1 → is_u16 v → load16 (E:=E) (l1 ++ be_bytes 2 v ++ l2) i = Ok v.
Proof.
  intros Hi Hv. unfold load16. rewrite range_app by (done || by rewrite zsize_be_bytes). cbn [fmap outcome_fmap].
  rewrite byte_swap16_le by (apply be_bytes_ok || apply length_be_bytes). by rewrite be_value_be_bytes_small.
Qed.

Lemma land_label : forallb (λ n, Z.land n 192 =? 0) (seqZ 0 64) = true.
Proof. vm_compute. reflexivity. Qed.

Lemma land_small n : 0 ≤ n < 64 → Z.land n 192 = 0.
Proof.
  intros Hn. generalize land_label. rewrite forallb_forall. intros H. apply Z.eqb_eq, H.
  by apply list_elem_of_In, elem_of_seqZ.
Qed.

(** A name of RFC 1035 at [offset], with [depth] pointers, and where the
    record goes on behind it *)
Inductive name_at (payload : bytes) : nat → Z → list bytes → Z → Prop :=
  | name_end offset : at_ (E:=unit) payload offset = Ok 0 → name_at payload 0 offset [] (offset + 1)
  | name_label depth offset len label labels next :
      at_ (E:=unit) payload offset = Ok len → 1 ≤ len < 64 →
      range (E:=unit) payload (offset + 1) len = Ok label →
      name_at payload depth (offset + 1 + len) labels next →
      name_at payload depth offset (label :: labels) next
  | name_pointer depth offset len ptr labels next :
      at_ (E:=unit) payload offset = Ok len → Z.land len 192 ≠ 0 →
      load16 (E:=unit) payload offset = Ok ptr →
      name_at payload depth (Z.land ptr 16383) labels next →
      name_at payload (S depth) offset labels (offset + 2).

Lemma at_change {E E'} l i x : at_ (A:=Z) (E:=E) l i = Ok x → at_ (E:=E') l i = Ok x.
Proof. unfold at_. case_decide; [|done]. case_match; [|done]. by intros [= ->]. Qed.
Lemma range_change {E E'} l i n (x : bytes) : range (E:=E) l i n = Ok x → range (E:=E') l i n = Ok x.
Proof. unfold range. case_decide; [|done]. by intros [= ->]. Qed.
Lemma load16_change {E E'} l i x : load16 (E:=E) l i = Ok x → load16 (E:=E') l i = Ok x.
Proof. unfold load16, range. case_decide; cbn; [|done]. by intros [= ->]. Qed.

(** The labels are read; the offset is right with at most one pointer. *)
Lemma get_name_loop_name {E} payload depth offset labels next acc save fuel :
  name_at payload depth offset labels next →
  get_name_loop (E:=E) fuel payload offset acc save = Diverge ∨
  ∃ o, get_name_loop (E:=E) fuel payload offset acc save = Ok (acc ++ labels, o) ∧
       ((depth ≤ 1)%nat → (depth = 1%nat → save = None) → o = match save with Some o => o | None => next end).
Proof.
  intros H. revert acc save fuel. induction H as [offset H0|depth offset len label labels next Hlen Hl Hlabel Hn IH
    |depth offset len ptr labels next Hlen Hl Hptr Hn IH]; intros acc save [|fuel]; cbn [get_name_loop]; try by left.
  - rewrite (at_change _ _ _ H0). cbn [mbind outcome_bind]. rewrite decide_True by done. right.
    eexists. rewrite app_nil_r. split; [done|]. by destruct save.
  - rewrite (at_change _ _ _ Hlen). cbn [mbind outcome_bind]. rewrite decide_False by lia.
    rewrite land_small, decide_False by lia. rewrite (range_change _ _ _ _ Hlabel). cbn [mbind outcome_bind].
    rewrite wrap_small by width_lia. replace (offset + (1 + len)) with (offset + 1 + len) by lia.
    destruct (IH (acc ++ [label]) save fuel) as [Hd|(o & Ho & Hnext)]; [by left|right]. exists o.
    rewrite <-app_assoc in Ho. by split.
  - rewrite (at_change _ _ _ Hlen). cbn [mbind outcome_bind].
    rewrite decide_False by (intros ->; by rewrite Z.land_0_l in Hl). rewrite decide_True by done.
    rewrite (load16_change _ _ _ Hptr). cbn [mbind outcome_bind].
    destruct (IH acc (Some (offset + 2)) fuel) as [Hd|(o & Ho & Hnext)]; [by left|right]. exists o. split; [done|].
    intros Hdepth Hsave. rewrite Hsave by lia. apply Hnext; [lia|]. intros ->. lia.
Qed.

(** ** Names without end *)

Section names.
Context {E : Type} (payload : bytes).

(** Where the loop of [get_name] goes on, if it does *)
Definition next_offset (offset : Z) : option Z :=
  match at_ (E:=E) payload offset with
  | Ok len =>
      if decide (len = 0) then None
      else if decide (Z.land len 192 ≠ 0) then
        match load16 (E:=E) payload offset with Ok ptr => Some (Z.land ptr 16383) | _ => None end
      else
        match range (E:=E) payload (offset + 1) len with Ok _ => Some (offset + u16 (1 + len)) | _ => None end
  | _ => None
  end.

Fixpoint offset_after (n : nat) (offset : Z) : option Z :=
  match n with
  | O => Some offset
  | S n => offset' ← next_offset offset; offset_after n offset'
  end.

Lemma get_name_diverges fuel offset labels save :
  get_name_loop (E:=E) fuel payload offset labels save = Diverge ↔ is_Some (offset_after fuel offset).
Proof.
  revert offset labels save. induction fuel as [|fuel IH]; intros offset labels save; cbn [get_name_loop offset_after].
  { split; [by eexists|done]. }
  unfold next_offset. destruct (at_ payload offset) as [len|e| |] eqn:Hat; cbn [mbind outcome_bind option_bind];
    [|by split; [|intros []]..|by apply at_not_diverge in Hat].
  case_decide; [by split; [|intros []]|]. case_decide.
  - destruct (load16 payload offset) as [ptr|e| |] eqn:Hl; cbn [mbind outcome_bind option_bind]; try (by split; [|intros []]); [apply IH|].
    unfold load16 in Hl. destruct (range payload offset 2) eqn:Hr; try done. by apply range_not_diverge in Hr.
  - destruct (range payload (offset + 1) len) as [l|e| |] eqn:Hr; cbn [mbind outcome_bind option_bind]; try (by split; [|intros []]); [apply IH|].
    by apply range_not_diverge in Hr.
Qed.

Lemma offset_after_add n m offset :
  offset_after (n + m) offset = offset' ← offset_after n offset; offset_after m offset'.
Proof.
  revert offset. induction n as [|n IH]; intros offset; cbn [Nat.add offset_after]; [done|].
  destruct (next_offset offset); cbn; [apply IH|done].
Qed.

Lemma offset_after_le n m offset : (n ≤ m)%nat → is_Some (offset_after m offset) → is_Some (offset_after n offset).
Proof.
  intros Hle [x Hx]. replace m with (n + (m - n))%nat in Hx by lia. rewrite offset_after_add in Hx.
  destruct (offset_after n offset); [by eexists|done].
Qed.

Lemma next_offset_range offset offset' : next_offset offset = Some offset' → 0 ≤ offset < zsize payload.
Proof.
  unfold next_offset. destruct (at_ payload offset) as [x|e| |] eqn:Hat; try done. intros _. by apply at_Ok in Hat as [? _].
Qed.

(** After as many steps as there are bytes an offset was seen twice. *)
Lemma endless offset : is_Some (offset_after (S (length payload)) offset) → ∀ n, is_Some (offset_after n offset).
Proof.
  intros Hs. set (f := λ i, Z.to_nat (default 0 (offset_after i offset))).
  assert (Hin : ∀ i, (i < S (length payload))%nat → ∃ o, offset_after i offset = Some o ∧ 0 ≤ o < zsize payload).
  { intros i Hi. apply (offset_after_le (i + 1)) in Hs; [|lia]. rewrite offset_after_add in Hs.
    destruct (offset_after i offset) as [o|]; [|by destruct Hs]. exists o. split; [done|]. destruct Hs as [o' Ho'].
    cbn in Ho'. destruct (next_offset o) eqn:Hn; [|done]. by eapply next_offset_range. }
  destruct (nat_pigeonhole f (S (length payload)) (length payload)) as (i & j & [Hij Hj] & Hf); [lia| |].
  { intros i Hi. destruct (Hin i Hi) as (o & Ho & Hr). unfold f. rewrite Ho. cbn. unfold zsize in Hr. lia. }
  destruct (Hin i) as (o & Hoi & Hri); [lia|]. destruct (Hin j) as (o' & Hoj & Hrj); [lia|].
  assert (o = o') as <- by (unfold f in Hf; rewrite Hoi, Hoj in Hf; cbn in Hf; lia).
  intros n. induction n as [n IH] using lt_wf_ind. destruct (decide (n ≤ j)%nat) as [Hle|Hgt]; [by apply (offset_after_le n j)|].
  replace n with (j + (n - j))%nat by lia. rewrite offset_after_add, Hoj. cbn [mbind option_bind].
  specialize (IH (i + (n - j))%nat ltac:(lia)). by rewrite offset_after_add, Hoi in IH.
Qed.

Lemma name_ends depth offset labels next : name_at payload depth offset labels next → ∃ n, offset_after n offset = None.
Proof.
  induction 1 as [offset H0|depth offset len label labels next Hlen Hl Hlabel Hn [n IH]|depth offset len ptr labels next Hlen Hl Hptr Hn [n IH]].
  - exists 1%nat. cbn. unfold next_offset. by rewrite (at_change _ _ _ H0), decide_True by done.
  - exists (S n). cbn. unfold next_offset. rewrite (at_change _ _ _ Hlen), decide_False by lia.
    rewrite land_small, decide_False by lia. rewrite (range_change _ _ _ _ Hlabel). cbn.
    rewrite wrap_small by width_lia. by replace (offset + (1 + len)) with (offset + 1 + len) by lia.
  - exists (S n). cbn. unfold next_offset. rewrite (at_change _ _ _ Hlen).
    rewrite decide_False by (intros ->; by rewrite Z.land_0_l in Hl). rewrite decide_True by done.
    by rewrite (load16_change _ _ _ Hptr).
Qed.

Lemma get_name_name depth offset labels next :
  name_at payload depth offset labels next →
  ∃ o, get_name (E:=E) payload offset = Ok (labels, o) ∧ ((depth ≤ 1)%nat → o = next).
Proof.
  intros Hn. destruct (get_name_loop_name (E:=E) _ _ _ _ _ [] None (S (length payload)) Hn) as [Hd|(o & Ho & Hnext)].
  - apply get_name_diverges in Hd. destruct (name_ends _ _ _ _ Hn) as [n Hend].
    destruct (endless offset Hd n) as [x Hx]. congruence.
  - exists o. split; [done|]. auto.
Qed.
End names.

(** ** The claims *)

(** The name of a question as it was written *)
Lemma name_at_bytes l1 labels l2 :
  Forall (λ label, 1 ≤ zsize label < 64) labels →
  name_at (l1 ++ name_bytes labels ++ l2) 0 (zsize l1) labels (zsize l1 + zsize (name_bytes labels)).
Proof.
  revert l1. induction labels as [|label labels IH]; intros l1 Hl.
  - cbn. replace (zsize l1 + zsize [0]) with (zsize l1 + 1) by size_lia. apply name_end. apply at_app_0.
  - apply Forall_cons in Hl as [Hlabel Hl]. unfold name_bytes. cbn [map concat]. unfold label_bytes at 1 3.
    rewrite <-!app_assoc. cbn [app].
    assert (u8 (zsize label) = zsize label) as Hu by (apply wrap_small; width_lia). rewrite Hu.
    eapply (name_label _ 0 _ (zsize label) label); [apply at_app_0|lia| |].
    + change (?x :: label ++ ?r) with ([x] ++ label ++ r). rewrite app_assoc. by rewrite range_app by (done || size_lia).
    + specialize (IH (l1 ++ zsize label :: label) Hl). unfold name_bytes in IH.
      set (r := concat (map label_bytes labels)) in *.
      replace (l1 ++ zsize label :: label ++ r ++ 0 :: l2) with ((l1 ++ zsize label :: label) ++ (r ++ [0]) ++ l2)
        by (by rewrite <-!app_assoc).
      replace (zsize l1 + 1 + zsize label) with (zsize (l1 ++ zsize label :: label)) by size_lia.
      match goal with |- name_at _ _ _ _ ?n => match type of IH with name_at _ _ _ _ ?n' => replace n with n' by size_lia end end.
      exact IH.
Qed.

Lemma get_questions_bytes {E} qs l1 l2 acc :
  Forall question_ok qs →
  get_questions (E:=E) (length qs) (l1 ++ concat (map question_bytes qs) ++ l2) (zsize l1) acc =
  Ok (acc ++ qs, zsize l1 + zsize (concat (map question_bytes qs))).
Proof.
  revert l1 acc. induction qs as [|q qs IH]; intros l1 acc Hqs; cbn [length get_questions map concat].
  { rewrite app_nil_r. do 2 f_equal. size_lia. }
  apply Forall_cons in Hqs as [(Hl & Ht & Hc) Hqs]. set (r := concat (map question_bytes qs)) in *.
  unfold question_bytes. fold r. set (n := name_bytes (q_labels q)) in *. rewrite <-!app_assoc.
  destruct (get_name_name (E:=E) _ _ _ _ _ (name_at_bytes l1 (q_labels q) (be_bytes 2 (q_type q) ++ be_bytes 2 (q_class q) ++ r ++ l2) Hl))
    as (o & Ho & Hnext). rewrite (Hnext ltac:(lia)) in Ho. fold n in Ho. rewrite Ho. cbn [mbind outcome_bind]. clear Ho.
  rewrite (app_assoc l1). rewrite (load16_be (l1 ++ n) _ _ (zsize l1 + zsize n)) by (done || size_lia). cbn [mbind outcome_bind].
  rewrite (app_assoc (l1 ++ n)). rewrite load16_be; [|rewrite !zsize_app, zsize_be_bytes; lia|done]. cbn [mbind outcome_bind].
  rewrite (app_assoc _ (be_bytes 2 (q_class q))).
  replace (zsize l1 + zsize n + 2 + 2) with (zsize (((l1 ++ n) ++ be_bytes 2 (q_type q)) ++ be_bytes 2 (q_class q)))
    by (rewrite !zsize_app, !zsize_be_bytes; lia).
  rewrite IH by done. rewrite <-app_assoc. destruct q. cbn [app q_labels q_type q_class].
  do 2 f_equal. rewrite !zsize_app, !zsize_be_bytes. lia.
Qed.

(** The six fields of a header *)
Lemma load16_fields {E} (vs : list Z) v body i :
  Forall (in_width 16) vs → vs !! i = Some v →
  load16 (E:=E) (concat (map (be_bytes 2) vs) ++ body) (2 * Z.of_nat i) = Ok v.
Proof.
  intros Hvs Hv. rewrite <-(take_drop_middle _ _ _ Hv), map_app, concat_app. cbn [map concat].
  rewrite <-!app_assoc. apply load16_be.
  - assert (Hl : ∀ l, zsize (concat (map (be_bytes 2) l)) = 2 * zsize l).
    { induction l as [|x l IH]; [done|]. cbn [map concat]. rewrite zsize_app, zsize_be_bytes, IH. size_lia. }
    rewrite Hl, zsize_take. apply lookup_lt_Some in Hv. unfold zsize. lia.
  - rewrite Forall_forall in Hvs. by apply Hvs, list_elem_of_lookup_2 with i.
Qed.

(** C39: A request whose labels have between 1 and 63 bytes is encoded, in
    exactly the size that was reserved, and decoding it gives the request. *)
Theorem dns_request_roundtrip m :
  request_ok m → answers m = [] → zsize (questions m) < 2 ^ 16 →
  ∃ payload, encode (E:=unit) m = Ok payload ∧ zsize payload = request_size m ∧ decode (E:=unit) payload = Ok m.
Proof.
  intros Hok Hans Hcount. exists (message_bytes m). split; [by apply encode_spec|]. split.
  { rewrite zsize_questions. unfold message_bytes. rewrite !zsize_app, !zsize_be_bytes, zsize_replicate. lia. }
  destruct Hok as (Hid & Hf & Hqs). destruct (flags_roundtrip _ Hf) as [Hf16 Hfr].
  assert (Hn : is_u16 (zsize (questions m))) by (pose proof (zsize_nonneg (questions m)); width_lia).
  unfold message_bytes. rewrite (wrap_small 16) by done. set (body := concat (map question_bytes (questions m))).
  set (vs := [id m; encode_flags (flags m); zsize (questions m); 0; 0; 0]).
  change (be_bytes 2 (id m) ++ _) with (concat (map (be_bytes 2) vs) ++ body).
  assert (Hvs : Forall (in_width 16) vs) by (unfold vs; repeat constructor; try done; apply Hid || apply Hf16 || apply Hn).
  unfold decode. change 2 with (2 * Z.of_nat 1). change 4 with (2 * Z.of_nat 2). change 6 with (2 * Z.of_nat 3).
  change 8 with (2 * Z.of_nat 4). change 10 with (2 * Z.of_nat 5).
  change (load16 (E:=unit) ?l 0) with (load16 (E:=unit) l (2 * Z.of_nat 0)).
  do 6 (erewrite load16_fields by done; cbn [mbind outcome_bind]).
  rewrite <-(app_nil_r body).
  match goal with |- context [get_questions _ (?l ++ body ++ []) _ _] =>
    change 12 with (zsize l); replace (Z.to_nat (zsize (questions m))) with (length (questions m)) by (unfold zsize; lia) end.
  unfold body. rewrite get_questions_bytes by done. cbn [mbind outcome_bind app Z.to_nat get_answers].
  rewrite Hfr. destruct m. cbn in *. by subst.
Qed.

(** A name of RFC 1035, that is labels of 1 to 63 bytes which end with a
    zero or go on at a compression pointer, is read with all its labels; with
    at most one pointer the record goes on where the name ends. *)
Theorem dns_name_decoded payload depth offset labels next :
  name_at payload depth offset labels next →
  ∃ o, get_name (E:=unit) payload offset = Ok (labels, o) ∧ ((depth ≤ 1)%nat → o = next).
Proof. apply get_name_name. Qed.

(** When [get_name] has not ended after as many steps as the message has
    bytes and one, it never ends: the compression pointers lead into a cycle.
    A response of 18 bytes has this effect. *)
Theorem dns_names_without_end payload offset :
  get_name (E:=unit) payload offset = Diverge →
  ∀ fuel labels save_offset, get_name_loop (E:=unit) fuel payload offset labels save_offset = Diverge.
Proof.
  intros H fuel labels save_offset. apply get_name_diverges, endless. by apply get_name_diverges in H.
Qed.

(** A response with one question whose name points to itself *)
Definition endless_response : bytes :=
  [0; 0; 129; 128; 0; 1; 0; 0; 0; 0; 0; 0; 192; 12; 0; 33; 0; 1].

(** A response with two answers for the name [a]: the target of the first is
    [b.a], and the name of the second points to that target, which ends with a
    pointer to [a].  The ports are 11210 and 11211. *)
Definition nested_response : bytes :=
  [0; 0; 129; 128; 0; 1; 0; 2; 0; 0; 0; 0] ++
  [1; 97; 0] ++ [0; 33; 0; 1] ++
  [192; 12] ++ [0; 33; 0; 1; 0; 0; 0; 0; 0; 10; 0; 0; 0; 0; 43; 202] ++ [1; 98; 192; 12] ++
  [192; 37] ++ [0; 33; 0; 1; 0; 0; 0; 0; 0; 8; 0; 0; 0; 0; 43; 203] ++ [192; 12].

(** The second answer is lost: its name goes on behind the inner pointer. *)
Lemma dns_nested_pointer_lost :
  name_at nested_response 2 41 [[98]; [97]] 43 ∧ get_name (E:=unit) nested_response 41 = Ok ([[98]; [97]], 41) ∧
  ∃ m, decode (E:=unit) nested_response = Ok m ∧ map sr_port (answers m) = [11210].
Proof.
  split; [|split; [by vm_compute|eexists; split; [by vm_compute|done]]].
  change 43 with (41 + 2). eapply name_pointer; [by vm_compute..|].
  eapply (name_label _ _ _ 1 [98]); [by vm_compute|lia|by vm_compute|].
  change (Z.land _ _ + 1 + 1) with 39. eapply name_pointer; [by vm_compute..|].
  eapply (name_label _ _ _ 1 [97]); [by vm_compute|lia|by vm_compute|]. by apply name_end.
Qed.

(** ** Witnesses *)

Definition example_request : dns_message := srv_request (ascii "a.b") (ascii "_couchbases").

Lemma dns_request_roundtrip_witness :
  ∃ payload, encode (E:=unit) example_request = Ok payload ∧ zsize payload = request_size example_request ∧
    decode (E:=unit) payload = Ok example_request.
Proof.
  apply (dns_request_roundtrip example_request); [|done..].
  split; [done|]. split; [done|]. repeat constructor; by vm_compute.
Defined.

(** The name of the first answer points to the question. *)
Lemma dns_name_decoded_witness :
  ∃ o, get_name (E:=unit) nested_response 19 = Ok ([[97]], o) ∧ ((1 ≤ 1)%nat → o = 21).
Proof.
  apply (dns_name_decoded nested_response 1 19 [[97]] 21). change 21 with (19 + 2).
  eapply name_pointer; [by vm_compute..|].
  eapply (name_label _ _ _ 1 [97]); [by vm_compute|lia|by vm_compute|]. by apply name_end.
Defined.

Lemma dns_names_without_end_witness :
  decode (E:=unit) endless_response = Diverge ∧
  ∀ fuel labels save_offset, get_name_loop (E:=unit) fuel endless_response 12 labels save_offset = Diverge.
Proof. split; [by vm_compute|]. apply (dns_names_without_end endless_response 12). by vm_compute. Defined.
