(* ===== verification/Transactions.v ===== *)
(** * Transactions: vocabulary, errors and staged mutations

    [core/transactions/error_class.hxx], [exceptions.hxx], [exceptions.cxx],
    [internal/exceptions_internal.hxx], [error_list.hxx], [attempt_state.hxx],
    [result.hxx], [result.cxx], [utils.cxx], [internal/utils.hxx], and from
    [staged_mutation.cxx] the queue of staged mutations.  The messages of
    errors are left out.  The queue is related to a map from documents. *)

From S2P Require Import Prelude ByteOrder Protocol McbpParser ClientRequest ClientResponse Commands.

(** ** Enumerations *)

Inductive error_class :=
  | FAIL_HARD | FAIL_OTHER | FAIL_TRANSIENT | FAIL_AMBIGUOUS | FAIL_DOC_ALREADY_EXISTS
  | FAIL_DOC_NOT_FOUND | FAIL_PATH_NOT_FOUND | FAIL_CAS_MISMATCH | FAIL_WRITE_WRITE_CONFLICT
  | FAIL_ATR_FULL | FAIL_PATH_ALREADY_EXISTS | FAIL_EXPIRY.

Inductive external_exception :=
  | UNKNOWN | ACTIVE_TRANSACTION_RECORD_ENTRY_NOT_FOUND | ACTIVE_TRANSACTION_RECORD_FULL
  | ACTIVE_TRANSACTION_RECORD_NOT_FOUND | DOCUMENT_ALREADY_IN_TRANSACTION
  | DOCUMENT_EXISTS_EXCEPTION | DOCUMENT_NOT_FOUND_EXCEPTION | NOT_SET
  | FEATURE_NOT_AVAILABLE_EXCEPTION | TRANSACTION_ABORTED_EXTERNALLY
  | PREVIOUS_OPERATION_FAILED | FORWARD_COMPATIBILITY_FAILURE | PARSING_FAILURE
  | ILLEGAL_STATE_EXCEPTION | COUCHBASE_EXCEPTION | SERVICE_NOT_AVAILABLE_EXCEPTION
  | REQUEST_CANCELED_EXCEPTION | CONCURRENT_OPERATIONS_DETECTED_ON_SAME_DOCUMENT
  | COMMIT_NOT_PERMITTED | ROLLBACK_NOT_PERMITTED | TRANSACTION_ALREADY_ABORTED
  | TRANSACTION_ALREADY_COMMITTED | DOCUMENT_UNRETRIEVABLE_EXCEPTION.

Inductive final_error := FAILED | EXPIRED | FAILED_POST_COMMIT | AMBIGUOUS.

Module FailureType.
Inductive failure_type := FAIL | EXPIRY | COMMIT_AMBIGUOUS.
End FailureType.

Module AttemptState.
Inductive attempt_state :=
  | NOT_STARTED | PENDING | ABORTED | COMMITTED | COMPLETED | ROLLED_BACK | UNKNOWN.
End AttemptState.
Abbreviation attempt_state := AttemptState.attempt_state.

Module TransactionOp.
(** [errc::transaction_op] *)
Inductive transaction_op :=
  | generic | active_transaction_record_entry_not_found | active_transaction_record_full
  | active_transaction_record_not_found | document_already_in_transaction | document_exists
  | document_not_found | feature_not_available | transaction_aborted_externally
  | previous_operation_failed | forward_compatibility_failure | parsing_failure
  | illegal_state | service_not_available | request_canceled
  | concurrent_operations_detected_on_same_document | commit_not_permitted
  | rollback_not_permitted | transaction_already_aborted | transaction_already_committed
  | document_unretrievable | transaction_op_failed.
End TransactionOp.
Abbreviation transaction_op := TransactionOp.transaction_op.

Global Instance error_class_eq_dec : EqDecision error_class.
Proof. solve_decision. Defined.
Global Instance external_exception_eq_dec : EqDecision external_exception.
Proof. solve_decision. Defined.
Global Instance final_error_eq_dec : EqDecision final_error.
Proof. solve_decision. Defined.
Global Instance attempt_state_eq_dec : EqDecision attempt_state.
Proof. solve_decision. Defined.
Global Instance transaction_op_eq_dec : EqDecision transaction_op.
Proof. solve_decision. Defined.

(** ** [attempt_state.hxx] *)

Definition attempt_state_name (s : attempt_state) : bytes :=
  match s with
  | AttemptState.NOT_STARTED => ascii "NOT_STARTED"
  | AttemptState.PENDING => ascii "PENDING"
  | AttemptState.ABORTED => ascii "ABORTED"
  | AttemptState.COMMITTED => ascii "COMMITTED"
  | AttemptState.COMPLETED => ascii "COMPLETED"
  | AttemptState.ROLLED_BACK => ascii "ROLLED_BACK"
  | AttemptState.UNKNOWN => ascii "UNKNOWN"
  end.

Definition attempt_state_value (str : bytes) : attempt_state :=
  if decide (str = ascii "NOT_STARTED") then AttemptState.NOT_STARTED
  else if decide (str = ascii "PENDING") then AttemptState.PENDING
  else if decide (str = ascii "ABORTED") then AttemptState.ABORTED
  else if decide (str = ascii "COMMITTED") then AttemptState.COMMITTED
  else if decide (str = ascii "COMPLETED") then AttemptState.COMPLETED
  else if decide (str = ascii "ROLLED_BACK") then AttemptState.ROLLED_BACK
  else AttemptState.UNKNOWN.

(** ** [exceptions.cxx] *)

Definition external_exception_from_error_class (ec : error_class) : external_exception :=
  match ec with
  | FAIL_DOC_NOT_FOUND => DOCUMENT_NOT_FOUND_EXCEPTION
  | FAIL_DOC_ALREADY_EXISTS => DOCUMENT_EXISTS_EXCEPTION
  | _ => UNKNOWN
  end.

Definition error_class_from_external_exception (e : external_exception) : error_class :=
  match e with
  | DOCUMENT_NOT_FOUND_EXCEPTION => FAIL_DOC_NOT_FOUND
  | DOCUMENT_EXISTS_EXCEPTION => FAIL_DOC_ALREADY_EXISTS
  | _ => FAIL_OTHER
  end.

(** [None] is the default error code. *)
Definition transaction_op_errc_from_external_exception (e : external_exception) : option transaction_op :=
  match e with
  | NOT_SET => None
  | UNKNOWN | COUCHBASE_EXCEPTION => Some TransactionOp.generic
  | ACTIVE_TRANSACTION_RECORD_ENTRY_NOT_FOUND =>
      Some TransactionOp.active_transaction_record_entry_not_found
  | ACTIVE_TRANSACTION_RECORD_FULL => Some TransactionOp.active_transaction_record_full
  | COMMIT_NOT_PERMITTED => Some TransactionOp.commit_not_permitted
  | ACTIVE_TRANSACTION_RECORD_NOT_FOUND => Some TransactionOp.active_transaction_record_not_found
  | CONCURRENT_OPERATIONS_DETECTED_ON_SAME_DOCUMENT =>
      Some TransactionOp.concurrent_operations_detected_on_same_document
  | DOCUMENT_ALREADY_IN_TRANSACTION => Some TransactionOp.document_already_in_transaction
  | DOCUMENT_EXISTS_EXCEPTION => Some TransactionOp.document_exists
  | DOCUMENT_NOT_FOUND_EXCEPTION => Some TransactionOp.document_not_found
  | FEATURE_NOT_AVAILABLE_EXCEPTION => Some TransactionOp.feature_not_available
  | FORWARD_COMPATIBILITY_FAILURE => Some TransactionOp.forward_compatibility_failure
  | ILLEGAL_STATE_EXCEPTION => Some TransactionOp.illegal_state
  | PARSING_FAILURE => Some TransactionOp.parsing_failure
  | PREVIOUS_OPERATION_FAILED => Some TransactionOp.previous_operation_failed
  | REQUEST_CANCELED_EXCEPTION => Some TransactionOp.request_canceled
  | ROLLBACK_NOT_PERMITTED => Some TransactionOp.rollback_not_permitted
  | SERVICE_NOT_AVAILABLE_EXCEPTION => Some TransactionOp.service_not_available
  | TRANSACTION_ABORTED_EXTERNALLY => Some TransactionOp.transaction_aborted_externally
  | TRANSACTION_ALREADY_ABORTED => Some TransactionOp.transaction_already_aborted
  | TRANSACTION_ALREADY_COMMITTED => Some TransactionOp.transaction_already_committed
  | DOCUMENT_UNRETRIEVABLE_EXCEPTION => Some TransactionOp.document_unretrievable
  end.

Definition external_exception_from_transaction_op_errc (ec : transaction_op) : external_exception :=
  match ec with
  | TransactionOp.generic => UNKNOWN
  | TransactionOp.active_transaction_record_entry_not_found =>
      ACTIVE_TRANSACTION_RECORD_ENTRY_NOT_FOUND
  | TransactionOp.active_transaction_record_full => ACTIVE_TRANSACTION_RECORD_FULL
  | TransactionOp.active_transaction_record_not_found => ACTIVE_TRANSACTION_RECORD_NOT_FOUND
  | TransactionOp.document_already_in_transaction => DOCUMENT_ALREADY_IN_TRANSACTION
  | TransactionOp.document_exists => DOCUMENT_EXISTS_EXCEPTION
  | TransactionOp.document_not_found => DOCUMENT_NOT_FOUND_EXCEPTION
  | TransactionOp.feature_not_available => FEATURE_NOT_AVAILABLE_EXCEPTION
  | TransactionOp.transaction_aborted_externally => TRANSACTION_ABORTED_EXTERNALLY
  | TransactionOp.previous_operation_failed => PREVIOUS_OPERATION_FAILED
  | TransactionOp.forward_compatibility_failure => FORWARD_COMPATIBILITY_FAILURE
  | TransactionOp.parsing_failure => PARSING_FAILURE
  | TransactionOp.illegal_state => ILLEGAL_STATE_EXCEPTION
  | TransactionOp.service_not_available => SERVICE_NOT_AVAILABLE_EXCEPTION
  | TransactionOp.request_canceled => REQUEST_CANCELED_EXCEPTION
  | TransactionOp.concurrent_operations_detected_on_same_document =>
      CONCURRENT_OPERATIONS_DETECTED_ON_SAME_DOCUMENT
  | TransactionOp.commit_not_permitted => COMMIT_NOT_PERMITTED
  | TransactionOp.rollback_not_permitted => ROLLBACK_NOT_PERMITTED
  | TransactionOp.transaction_already_aborted => TRANSACTION_ALREADY_ABORTED
  | TransactionOp.transaction_already_committed => TRANSACTION_ALREADY_COMMITTED
  | TransactionOp.document_unretrievable => DOCUMENT_UNRETRIEVABLE_EXCEPTION
  | TransactionOp.transaction_op_failed => UNKNOWN
  end.

(** ** Results of requests: [result.hxx], [result.cxx], [utils.cxx] *)

Record subdoc_result := SubdocResult { sr_value : bytes; sr_status : Z }.

Record result := Result {
  res_ec : option error_code;
  res_cas : Z;
  res_values : list subdoc_result;
  res_is_deleted : bool;
  res_ignore_subdoc_errors : bool;
}.

(** What the responses of the operations hold of which results and error
    classes are made: error code, index of the first error among the fields,
    CAS, deleted flag, and the values and statuses of the fields. *)
Record response := Response {
  resp_ec : option error_code;
  resp_first_error_index : option Z;
  resp_cas : Z;
  resp_deleted : bool;
  resp_fields : list (bytes * Z);
}.

Definition create_from_mutation_response (r : response) : result :=
  Result (resp_ec r) (resp_cas r) [] false false.

Definition create_from_subdoc_response (r : response) : result :=
  Result (resp_ec r) (resp_cas r) (map (λ f, SubdocResult f.1 f.2) (resp_fields r)) (resp_deleted r) false.

Definition is_success (r : result) : bool := negb (has (res_ec r)).

(** [subdoc_result::status_type] *)
Definition sd_success : Z := 0.
Definition sd_path_not_found : Z := 192.
Definition sd_path_exists : Z := 201.

Definition subdoc_status (r : result) : Z :=
  match list_find (λ v, sr_status v ≠ sd_success) (res_values r) with
  | Some (_, v) => sr_status v
  | None => sd_success
  end.

(** The classes of [res.ec], the same list in [error_class_from_response]. *)
Definition error_class_of_code (ec : error_code) : option error_class :=
  if decide (ec = errc_key_value KeyValue.document_not_found) then Some FAIL_DOC_NOT_FOUND
  else if decide (ec = errc_key_value KeyValue.document_exists) then Some FAIL_DOC_ALREADY_EXISTS
  else if decide (ec = errc_common Common.cas_mismatch) then Some FAIL_CAS_MISMATCH
  else if decide (ec = errc_key_value KeyValue.value_too_large) then Some FAIL_ATR_FULL
  else if decide (ec = errc_common Common.unambiguous_timeout ∨
                  ec = errc_common Common.temporary_failure ∨
                  ec = errc_key_value KeyValue.durable_write_in_progress) then Some FAIL_TRANSIENT
  else if decide (ec = errc_key_value KeyValue.durability_ambiguous ∨
                  ec = errc_common Common.ambiguous_timeout ∨
                  ec = errc_common Common.request_canceled) then Some FAIL_AMBIGUOUS
  else if decide (ec = errc_key_value KeyValue.path_not_found) then Some FAIL_PATH_NOT_FOUND
  else if decide (ec = errc_key_value KeyValue.path_exists) then Some FAIL_PATH_ALREADY_EXISTS
  else None.

(** [error_class_from_result]; its assertion is [client_error_asserted] below. *)
Definition error_class_from_result (r : result) : error_class :=
  if has (res_ec r) || res_ignore_subdoc_errors r then
    match res_ec r ≫= error_class_of_code with Some c => c | None => FAIL_OTHER end
  else if decide (subdoc_status r = sd_path_not_found) then FAIL_PATH_NOT_FOUND
  else if decide (subdoc_status r = sd_path_exists) then FAIL_PATH_ALREADY_EXISTS
  else FAIL_OTHER.

Record client_error := ClientError { ce_ec : error_class; ce_res : option result }.

Definition client_error_of_result (r : result) : client_error :=
  ClientError (error_class_from_result r) (Some r).
Definition client_error_of_class (ec : error_class) : client_error := ClientError ec None.

Definition set_ec (ec : error_code) (r : result) : result :=
  Result (Some ec) (res_cas r) (res_values r) (res_is_deleted r) (res_ignore_subdoc_errors r).

(** [validate_operation_result]: throws a [client_error] or leaves the result. *)
Definition validate_operation_result (r : result) (ignore_subdoc_errors : bool) :
    outcome client_error result :=
  if negb (is_success r) then Err (client_error_of_result r)
  else if res_is_deleted r && bool_decide (res_values r = []) then
    Err (client_error_of_result (set_ec (errc_key_value KeyValue.document_not_found) r))
  else if negb (bool_decide (res_values r = [])) && negb ignore_subdoc_errors &&
          existsb (λ v, negb (sr_status v =? sd_success)) (res_values r) then
    Err (client_error_of_result r)
  else Ok r.

(** The specializations for responses of [mutate_in] *)
Definition is_error (r : response) : bool :=
  has (resp_ec r) || has (resp_first_error_index r).

(** [fields.at(i)] throws when out of range: [Err tt]. *)
Definition error_class_from_response_extras (r : response) :
    outcome unit (option error_class) :=
  match resp_first_error_index r with
  | None => Ok None
  | Some i =>
      match (if decide (0 ≤ i) then resp_fields r !! Z.to_nat i else None) with
      | None => Err tt
      | Some (_, status) =>
          if decide (status = enum_code Status.subdoc_path_not_found) then Ok (Some FAIL_PATH_NOT_FOUND)
          else if decide (status = enum_code Status.subdoc_path_exists) then Ok (Some FAIL_PATH_ALREADY_EXISTS)
          else Ok (Some FAIL_OTHER)
      end
  end.

Definition error_class_from_response (r : response) : outcome unit (option error_class) :=
  if negb (is_error r) then Ok None
  else
    match resp_ec r ≫= error_class_of_code with
    | Some c => Ok (Some c)
    | None =>
        extra ← error_class_from_response_extras r;
        match extra with
        | Some c => Ok (Some c)
        | None => Ok (if has (resp_ec r) then Some FAIL_OTHER else None)
        end
    end.

(** ** Failures: [internal/exceptions_internal.hxx], [error_list.hxx] *)

(** The class [transaction_operation_failed] *)
Record operation_failure := OperationFailure {
  ec_ : error_class;
  retry_ : bool;
  rollback_ : bool;
  to_raise_ : final_error;
  cause_ : external_exception;
}.

Global Instance operation_failure_eq_dec : EqDecision operation_failure.
Proof. solve_decision. Defined.

(** The three constructors *)
Definition operation_failed (ec : error_class) : operation_failure :=
  OperationFailure ec false true FAILED (external_exception_from_error_class ec).
Definition operation_failed_with (ec : error_class) (cause : option external_exception) : operation_failure :=
  OperationFailure ec false true FAILED
    (if decide (default UNKNOWN cause = UNKNOWN) then external_exception_from_error_class ec
     else default UNKNOWN cause).
Definition operation_failed_by (e : client_error) : operation_failure :=
  OperationFailure (ce_ec e) false true FAILED UNKNOWN.

(** The members that change a failure and return it *)
Definition retry (f : operation_failure) : operation_failure :=
  OperationFailure (ec_ f) true (rollback_ f) (to_raise_ f) (cause_ f).
Definition no_rollback (f : operation_failure) : operation_failure :=
  OperationFailure (ec_ f) (retry_ f) false (to_raise_ f) (cause_ f).
Definition expired (f : operation_failure) : operation_failure :=
  OperationFailure (ec_ f) (retry_ f) (rollback_ f) EXPIRED (cause_ f).
Definition failed_post_commit (f : operation_failure) : operation_failure :=
  OperationFailure (ec_ f) (retry_ f) (rollback_ f) FAILED_POST_COMMIT (cause_ f).
Definition ambiguous (f : operation_failure) : operation_failure :=
  OperationFailure (ec_ f) (retry_ f) (rollback_ f) AMBIGUOUS (cause_ f).
Definition cause (c : external_exception) (f : operation_failure) : operation_failure :=
  OperationFailure (ec_ f) (retry_ f) (rollback_ f) (to_raise_ f) c.

(** The loop of [merge_errors] *)
Fixpoint merge_loop (errors : list operation_failure) (error_to_throw : operation_failure) :
    operation_failure :=
  match errors with
  | [] => error_to_throw
  | ex :: errors =>
      let error_to_throw := if retry_ ex then error_to_throw else ex in
      if rollback_ ex then merge_loop errors error_to_throw else ex
  end.

(** [merge_errors]: [front] of an empty list is undefined. *)
Definition merge_errors {E} (errors : list operation_failure) (c : option external_exception) :
    outcome E operation_failure :=
  match errors with
  | [] => Fault
  | e :: _ =>
      let error_to_throw := merge_loop errors e in
      Ok (match c with Some c => cause c error_to_throw | None => error_to_throw end)
  end.

(** The [transaction_exception] the user sees: its type and cause. *)
Record transaction_exception := TransactionException {
  te_cause : external_exception;
  te_type : FailureType.failure_type;
}.

Definition do_throw (f : operation_failure) : option transaction_exception :=
  match to_raise_ f with
  | FAILED_POST_COMMIT => None
  | EXPIRED => Some (TransactionException (cause_ f) FailureType.EXPIRY)
  | AMBIGUOUS => Some (TransactionException (cause_ f) FailureType.COMMIT_AMBIGUOUS)
  | FAILED => Some (TransactionException (cause_ f) FailureType.FAIL)
  end.

Definition get_final_exception (f : operation_failure) : option transaction_exception :=
  match to_raise_ f with
  | EXPIRED => Some (TransactionException (cause_ f) FailureType.EXPIRY)
  | AMBIGUOUS => Some (TransactionException (cause_ f) FailureType.COMMIT_AMBIGUOUS)
  | FAILED_POST_COMMIT => None
  | FAILED => Some (TransactionException (cause_ f) FailureType.FAIL)
  end.

Definition get_error_ctx (f : operation_failure) : option transaction_op :=
  transaction_op_errc_from_external_exception (cause_ f).

(** ** Sub-document commands: [core/impl/subdoc] *)

Definition path_flag_create_parents : Z := 1.
Definition path_flag_xattr : Z := 4.
Definition path_flag_expand_macros : Z := 16.
Definition path_flag_binary_value : Z := 32.

Definition build_mutate_in_path_flags (xattr create_path expand_macro binary : bool) : Z :=
  let flags := 0 in
  let flags :=
    if xattr then
      let flags := Z.lor flags path_flag_xattr in
      if binary then Z.lor flags path_flag_binary_value else flags
    else flags in
  let flags := if create_path then Z.lor flags path_flag_create_parents else flags in
  if expand_macro then Z.lor flags path_flag_expand_macros else flags.

Definition build_lookup_in_path_flags (xattr binary : bool) : Z :=
  if xattr then
    let flags := path_flag_xattr in
    if binary then Z.lor flags path_flag_binary_value else flags
  else 0.

(** The [encode] of the builders [upsert], [insert], [replace] and [remove].
    That of [insert] has no use for its member [binary_]. *)
Definition subdoc_upsert (path value : bytes) (xattr create_path expand_macro binary : bool) : subdoc_command :=
  SubdocCommand (enum_code SubdocOpcode.dict_upsert) path value
    (build_mutate_in_path_flags xattr create_path expand_macro binary).
Definition subdoc_insert (path value : bytes) (xattr create_path expand_macro binary : bool) : subdoc_command :=
  SubdocCommand (enum_code SubdocOpcode.dict_add) path value
    (build_mutate_in_path_flags xattr create_path expand_macro false).
Definition subdoc_replace (path value : bytes) (xattr expand_macro binary : bool) : subdoc_command :=
  SubdocCommand (enum_code (if decide (path = []) then SubdocOpcode.set_doc else SubdocOpcode.replace))
    path value (build_mutate_in_path_flags xattr false expand_macro binary).
Definition subdoc_remove (path : bytes) (xattr : bool) : subdoc_command :=
  SubdocCommand (enum_code (if decide (path = []) then SubdocOpcode.remove_doc else SubdocOpcode.remove))
    path [] (build_mutate_in_path_flags xattr false false false).
Definition subdoc_get (path : bytes) (xattr binary : bool) : subdoc_command :=
  SubdocCommand (enum_code (if decide (path = []) then SubdocOpcode.get_doc else SubdocOpcode.get))
    path [] (build_lookup_in_path_flags xattr binary).

(** [to_binary(mutate_in_macro::cas)] *)
Definition macro_cas : bytes :=
  [34; 36; 123; 77; 117; 116; 97; 116; 105; 111; 110; 46; 67; 65; 83; 125; 34].

(** ** Requests *)

Inductive store_semantics := store_replace | store_upsert | store_insert.

Record mutate_in_request := MutateInRequest {
  mi_id : document_id;
  mi_specs : list subdoc_command;
  mi_cas : Z;
  mi_access_deleted : bool;
  mi_revive_document : bool;
  mi_create_as_deleted : bool;
  mi_store_semantics : store_semantics;
  mi_durability_level : Z;
  mi_flags : option Z;
}.

Inductive request :=
  | mutate_in (r : mutate_in_request)
  | lookup_in (id : document_id) (specs : list subdoc_command) (access_deleted : bool)
  | lookup_in_any_replica (id : document_id) (specs : list subdoc_command) (access_deleted : bool)
  | insert (id : document_id) (content : bytes) (flags durability_level : Z)
  | remove (id : document_id) (cas durability_level : Z).

(** A request with the defaults of the struct *)
Definition new_mutate_in (id : document_id) : mutate_in_request :=
  MutateInRequest id [] 0 false false false store_replace 0 None.
Definition with_specs (specs : list subdoc_command) (r : mutate_in_request) : mutate_in_request :=
  MutateInRequest (mi_id r) specs (mi_cas r) (mi_access_deleted r) (mi_revive_document r) (mi_create_as_deleted r)
    (mi_store_semantics r) (mi_durability_level r) (mi_flags r).
Definition with_cas (cas : Z) (r : mutate_in_request) : mutate_in_request :=
  MutateInRequest (mi_id r) (mi_specs r) cas (mi_access_deleted r) (mi_revive_document r) (mi_create_as_deleted r)
    (mi_store_semantics r) (mi_durability_level r) (mi_flags r).
Definition with_access_deleted (r : mutate_in_request) : mutate_in_request :=
  MutateInRequest (mi_id r) (mi_specs r) (mi_cas r) true (mi_revive_document r) (mi_create_as_deleted r)
    (mi_store_semantics r) (mi_durability_level r) (mi_flags r).
Definition with_revive_document (r : mutate_in_request) : mutate_in_request :=
  MutateInRequest (mi_id r) (mi_specs r) (mi_cas r) (mi_access_deleted r) true (mi_create_as_deleted r)
    (mi_store_semantics r) (mi_durability_level r) (mi_flags r).
Definition with_create_as_deleted (r : mutate_in_request) : mutate_in_request :=
  MutateInRequest (mi_id r) (mi_specs r) (mi_cas r) (mi_access_deleted r) (mi_revive_document r) true
    (mi_store_semantics r) (mi_durability_level r) (mi_flags r).
Definition with_store_semantics (s : store_semantics) (r : mutate_in_request) : mutate_in_request :=
  MutateInRequest (mi_id r) (mi_specs r) (mi_cas r) (mi_access_deleted r) (mi_revive_document r) (mi_create_as_deleted r)
    s (mi_durability_level r) (mi_flags r).
Definition with_flags (flags : Z) (r : mutate_in_request) : mutate_in_request :=
  MutateInRequest (mi_id r) (mi_specs r) (mi_cas r) (mi_access_deleted r) (mi_revive_document r) (mi_create_as_deleted r)
    (mi_store_semantics r) (mi_durability_level r) (Some flags).
Definition wrap_durable_request (level : Z) (r : mutate_in_request) : mutate_in_request :=
  MutateInRequest (mi_id r) (mi_specs r) (mi_cas r) (mi_access_deleted r) (mi_revive_document r) (mi_create_as_deleted r)
    (mi_store_semantics r) level (mi_flags r).

(** ** JSON texts

    Values are printed and read by a third-party library; [read_string] is
    [content_as<std::string>], [None] where it throws. *)
Class TransactionJson := {
  print_string : bytes → bytes;
  print_number : Z → bytes;
  print_array : list (list (bytes * bytes)) → bytes;
  read_string : bytes → option bytes;
}.

(** What the protocol relies on: strings are read as they were printed. *)
Class TransactionJsonLaws `{TransactionJson} : Prop :=
  read_print_string : ∀ s, read_string (print_string s) = Some s.

(** ** [internal/transaction_fields.hxx] *)

Definition ATR_FIELD_ATTEMPTS : bytes := ascii "attempts".
Definition ATR_FIELD_STATUS : bytes := ascii "st".
Definition ATR_FIELD_START_TIMESTAMP : bytes := ascii "tst".
Definition ATR_FIELD_EXPIRES_AFTER_MSECS : bytes := ascii "exp".
Definition ATR_FIELD_START_COMMIT : bytes := ascii "tsc".
Definition ATR_FIELD_TIMESTAMP_ROLLBACK_START : bytes := ascii "tsrs".
Definition ATR_FIELD_DOCS_INSERTED : bytes := ascii "ins".
Definition ATR_FIELD_DOCS_REPLACED : bytes := ascii "rep".
Definition ATR_FIELD_DOCS_REMOVED : bytes := ascii "rem".
Definition ATR_FIELD_PER_DOC_ID : bytes := ascii "id".
Definition ATR_FIELD_PER_DOC_BUCKET : bytes := ascii "bkt".
Definition ATR_FIELD_PER_DOC_SCOPE : bytes := ascii "scp".
Definition ATR_FIELD_PER_DOC_COLLECTION : bytes := ascii "col".
Definition ATR_FIELD_TRANSACTION_ID : bytes := ascii "tid".
Definition ATR_FIELD_DURABILITY_LEVEL : bytes := ascii "d".
Definition ATR_FIELD_PREVENT_COLLLISION : bytes := ascii "p".
Definition TRANSACTION_INTERFACE_PREFIX_ONLY : bytes := ascii "txn".
Definition TRANSACTION_INTERFACE_PREFIX : bytes := TRANSACTION_INTERFACE_PREFIX_ONLY ++ [ascii_dot].
Definition STAGED_DATA : bytes := TRANSACTION_INTERFACE_PREFIX ++ ascii "op.stgd".
Definition STAGED_BINARY_DATA : bytes := TRANSACTION_INTERFACE_PREFIX ++ ascii "op.bin".

(** ** Staged mutations: [document_metadata.hxx], [staged_mutation.cxx] *)

Record document_metadata := DocumentMetadata {
  dm_cas : option bytes;
  dm_revid : option bytes;
  dm_exptime : option Z;
  dm_crc32 : option bytes;
}.

Inductive staged_mutation_type := INSERT | REMOVE | REPLACE.

Global Instance staged_mutation_type_eq_dec : EqDecision staged_mutation_type.
Proof. solve_decision. Defined.

Record staged_mutation := StagedMutation {
  sm_type : staged_mutation_type;
  sm_id : document_id;
  sm_cas : Z;
  sm_staged_content : option bytes;
  sm_staged_flags : Z;
  sm_current_user_flags : Z;
  sm_doc_metadata : option document_metadata;
}.

(** [codec_flags::extract_common_flags], as the code of the flags *)
Definition extract_common_flags (flags : Z) : Z :=
  let value := Z.shiftr flags 24 in
  if decide (value = 1 ∨ value = 2 ∨ value = 3 ∨ value = 4) then value else 0.

Definition is_staged_binary (m : staged_mutation) : bool :=
  extract_common_flags (sm_staged_flags m) =? 3.

Definition set_cas (cas : Z) (m : staged_mutation) : staged_mutation :=
  StagedMutation (sm_type m) (sm_id m) cas (sm_staged_content m) (sm_staged_flags m) (sm_current_user_flags m) (sm_doc_metadata m).

Definition document_ids_equal (id1 id2 : document_id) : bool :=
  bool_decide (id_key id1 = id_key id2) && bool_decide (id_bucket id1 = id_bucket id2) &&
  bool_decide (id_scope id1 = id_scope id2) && bool_decide (id_collection id1 = id_collection id2).

Abbreviation staged_mutation_queue := (list staged_mutation).

Module Queue.
Definition empty (queue : staged_mutation_queue) : bool := bool_decide (queue = []).

(** [add]: erases the mutations of the document and appends. *)
Definition add (mutation : staged_mutation) (queue : staged_mutation_queue) : staged_mutation_queue :=
  filter (λ item, document_ids_equal (sm_id item) (sm_id mutation) = false) queue ++ [mutation].

Definition remove_any (id : document_id) (queue : staged_mutation_queue) : staged_mutation_queue :=
  filter (λ item, document_ids_equal (sm_id item) id = false) queue.

(** The members that search return a pointer into the vector: here the index
    and the mutation. *)
Definition find_any (id : document_id) (queue : staged_mutation_queue) : option (nat * staged_mutation) :=
  list_find (λ item, document_ids_equal (sm_id item) id = true) queue.

Definition find_type (t : staged_mutation_type) (id : document_id) (queue : staged_mutation_queue) :
    option (nat * staged_mutation) :=
  list_find (λ item, sm_type item = t ∧ document_ids_equal (sm_id item) id = true) queue.
Definition find_replace := find_type REPLACE.
Definition find_insert := find_type INSERT.
Definition find_remove := find_type REMOVE.
End Queue.

Section extract.
Context `{TransactionJson}.

Definition document_fields (id : document_id) : list (bytes * bytes) :=
  [(ATR_FIELD_PER_DOC_ID, id_key id); (ATR_FIELD_PER_DOC_BUCKET, id_bucket id);
   (ATR_FIELD_PER_DOC_SCOPE, id_scope id); (ATR_FIELD_PER_DOC_COLLECTION, id_collection id)].

Definition documents_of (t : staged_mutation_type) (queue : staged_mutation_queue) :
    list (list (bytes * bytes)) :=
  map (λ item, document_fields (sm_id item)) (filter (λ item, sm_type item = t) queue).

(** [extract_to]: the commands it appends to a request *)
Definition extract_to (prefix : bytes) (queue : staged_mutation_queue) : list subdoc_command :=
  [subdoc_upsert (prefix ++ ATR_FIELD_DOCS_INSERTED) (print_array (documents_of INSERT queue)) true true false false;
   subdoc_upsert (prefix ++ ATR_FIELD_DOCS_REPLACED) (print_array (documents_of REPLACE queue)) true true false false;
   subdoc_upsert (prefix ++ ATR_FIELD_DOCS_REMOVED) (print_array (documents_of REMOVE queue)) true true false false].
End extract.

(** ** Properties *)

(** Names and codes that cross the wire or the API come back as they were. *)
Theorem attempt_state_roundtrip s : attempt_state_value (attempt_state_name s) = s.
Proof. by destruct s. Qed.

(** An error of the public API has the cause it was made from; [NOT_SET] has
    no code and [COUCHBASE_EXCEPTION] has that of [UNKNOWN]. *)
Theorem transaction_op_roundtrip e ec :
  transaction_op_errc_from_external_exception e = Some ec →
  e ≠ COUCHBASE_EXCEPTION → external_exception_from_transaction_op_errc ec = e.
Proof. by destruct e; intros [= <-]. Qed.

(** The assertion of [error_class_from_result]: whatever
    [validate_operation_result] throws has an error code or, when fields are
    not ignored, a failed field. *)
Lemma client_error_asserted r ignore e :
  res_ignore_subdoc_errors r = false →
  validate_operation_result r ignore = Err e →
  ∃ r', ce_res e = Some r' ∧ ce_ec e = error_class_from_result r' ∧
    (has (res_ec r') = true ∨
     (res_ignore_subdoc_errors r' = false ∧ subdoc_status r' ≠ sd_success)).
Proof.
  unfold validate_operation_result, is_success. intros Hi.
  destruct (has (res_ec r)) eqn:Hec; cbn [negb].
  { intros [= <-]. exists r. naive_solver. }
  destruct (res_is_deleted r && _).
  { intros [= <-]. eexists. split_and!; [done..|]. by left. }
  destruct (_ && existsb _ _) eqn:He; [|done]. intros [= <-]. exists r. split_and!; [done..|].
  right. split; [done|]. apply andb_true_iff in He as [_ (v & Hv & Hs)%existsb_exists].
  unfold subdoc_status. destruct (list_find _ _) as [[i w]|] eqn:Hf.
  - by apply list_find_Some in Hf as (? & ? & ?).
  - apply list_find_None in Hf. rewrite Forall_forall in Hf. exfalso. apply (Hf v); [by apply list_elem_of_In|].
    intros Heq. rewrite Heq in Hs. done.
Qed.

Lemma validate_total r ignore :
  (∃ r', validate_operation_result r ignore = Ok r') ∨ (∃ e, validate_operation_result r ignore = Err e).
Proof. unfold validate_operation_result. repeat case_match; eauto. Qed.

(** [FAIL_HARD], [FAIL_EXPIRY] and [FAIL_WRITE_WRITE_CONFLICT] never come
    from a response. *)
Lemma error_class_from_result_range r :
  error_class_from_result r ∈
    [FAIL_OTHER; FAIL_TRANSIENT; FAIL_AMBIGUOUS; FAIL_DOC_ALREADY_EXISTS; FAIL_DOC_NOT_FOUND;
     FAIL_PATH_NOT_FOUND; FAIL_CAS_MISMATCH; FAIL_ATR_FULL; FAIL_PATH_ALREADY_EXISTS].
Proof.
  unfold error_class_from_result, error_class_of_code.
  destruct (res_ec r); cbn [has orb mbind option_bind];
    repeat case_match; simplify_eq; set_solver.
Qed.

Lemma validate_error_range r ignore e :
  validate_operation_result r ignore = Err e →
  ce_ec e ≠ FAIL_HARD ∧ ce_ec e ≠ FAIL_EXPIRY ∧ ce_ec e ≠ FAIL_WRITE_WRITE_CONFLICT.
Proof.
  intros He. assert (∃ r', ce_ec e = error_class_from_result r') as [r' ->].
  { unfold validate_operation_result in He. repeat case_match; try discriminate He; injection He as <-; by eexists. }
  pose proof (error_class_from_result_range r') as Hr. split_and!; intros Heq; rewrite Heq in Hr; set_solver.
Qed.

Lemma merge_loop_spec errors acc :
  merge_loop errors acc =
    match find (λ f, negb (rollback_ f)) errors with
    | Some f => f
    | None => default acc (find (λ f, negb (retry_ f)) (rev errors))
    end.
Proof.
  revert acc. induction errors as [|ex errors IH]; intros acc; [done|].
  cbn [merge_loop find rev]. destruct (rollback_ ex); cbn [negb]; [|done].
  rewrite IH. destruct (find _ errors); [done|].
  assert (Happ : ∀ l, find (λ f, negb (retry_ f)) (l ++ [ex]) =
    match find (λ f, negb (retry_ f)) l with
    | Some f => Some f | None => if retry_ ex then None else Some ex end).
  { induction l as [|x l IHl]; cbn [app find]; [by destruct (retry_ ex)|].
    destruct (negb (retry_ x)); [done|]. exact IHl. }
  rewrite Happ. destruct (find _ (rev errors)); [done|]. by destruct (retry_ ex).
Qed.

(** Merging the errors of a transaction keeps the first that forbids the
    rollback; when none does, the last that does not ask for a retry, where the
    comment promises the first; when all ask for one, the first. *)
Theorem merge_errors_keeps e errors c :
  let all := e :: errors in
  let kept :=
    match find (λ f, negb (rollback_ f)) all with
    | Some f => f
    | None => default e (find (λ f, negb (retry_ f)) (rev all))
    end in
  merge_errors (E:=unit) all c = Ok (match c with Some c => cause c kept | None => kept end) ∧
  rollback_ kept = forallb rollback_ all ∧
  (rollback_ kept = true → retry_ kept = forallb retry_ all).
Proof.
  intros all kept. split_and!.
  - unfold merge_errors, all. by rewrite merge_loop_spec.
  - subst kept. destruct (find _ all) as [f|] eqn:Hf.
    + apply find_some in Hf as [Hin Hr%negb_true_iff]. rewrite Hr. symmetry.
      apply not_true_iff_false. rewrite forallb_forall. intros Hall. rewrite (Hall f Hin) in Hr. done.
    + assert (Hall : ∀ x, x ∈ all → rollback_ x = true).
      { intros x Hx%list_elem_of_In. apply (find_none _ _ Hf x), negb_false_iff in Hx. done. }
      rewrite (proj2 (forallb_forall _ all)) by (intros x Hx; apply Hall; by apply list_elem_of_In).
      destruct (find _ (rev all)) as [f|] eqn:Hl; cbn [from_option]; unfold id.
      * apply find_some in Hl as [Hin _]. apply Hall, list_elem_of_In. by apply in_rev.
      * apply Hall. set_solver.
  - subst kept. destruct (find _ all) as [f|] eqn:Hf.
    { apply find_some in Hf as [_ Hr%negb_true_iff]. congruence. }
    intros _. destruct (find _ (rev all)) as [f|] eqn:Hl; cbn [from_option]; unfold id.
    + apply find_some in Hl as [Hin Hr%negb_true_iff]. rewrite Hr. symmetry.
      apply not_true_iff_false. rewrite forallb_forall. intros Hall.
      rewrite (Hall f) in Hr; [done|]. by apply in_rev.
    + assert (Hall : ∀ x, In x all → retry_ x = true).
      { intros x Hx. apply negb_false_iff, (find_none _ _ Hl x). by apply in_rev in Hx. }
      rewrite (proj2 (forallb_forall _ all)) by done. apply Hall. by left.
Qed.

(** ** The queue is a map from documents *)

Definition document_name (id : document_id) : bytes * bytes * bytes * bytes :=
  (id_key id, id_bucket id, id_scope id, id_collection id).
Definition mutation_name (m : staged_mutation) := document_name (sm_id m).

Definition one_per_document (queue : staged_mutation_queue) : Prop := NoDup (map mutation_name queue).

Definition queue_map (queue : staged_mutation_queue) :
    gmap (bytes * bytes * bytes * bytes) staged_mutation :=
  list_to_map (map (λ m, (mutation_name m, m)) queue).

Lemma document_ids_equal_spec a b : document_ids_equal a b = true ↔ document_name a = document_name b.
Proof.
  unfold document_ids_equal, document_name. rewrite !andb_true_iff, !bool_decide_eq_true.
  split; [by intros [[[-> ->] ->] ->]|by intros [= -> -> -> ->]].
Qed.

Lemma document_ids_equal_false a b : document_ids_equal a b = false ↔ document_name a ≠ document_name b.
Proof. rewrite <-document_ids_equal_spec. symmetry. apply not_true_iff_false. Qed.

Lemma queue_map_lookup queue n m :
  one_per_document queue → queue_map queue !! n = Some m ↔ m ∈ queue ∧ mutation_name m = n.
Proof.
  intros Hd. unfold queue_map. rewrite <-elem_of_list_to_map.
  - rewrite list_elem_of_fmap. split; [intros (x & [= -> ->] & Hx); done|].
    intros [Hin <-]. by exists m.
  - unfold one_per_document in Hd. by rewrite <-list_fmap_compose.
Qed.

Lemma one_per_document_filter (P : staged_mutation → Prop) `{∀ m, Decision (P m)} queue :
  one_per_document queue → one_per_document (filter P queue).
Proof.
  unfold one_per_document. induction queue as [|m queue IH]; [done|].
  cbn [map]. intros [Hm Hq]%NoDup_cons. rewrite filter_cons. case_decide; [|by apply IH].
  cbn [map]. apply NoDup_cons. split; [|by apply IH]. contradict Hm.
  apply list_elem_of_fmap in Hm as (x & -> & [_ Hx]%list_elem_of_filter). by apply list_elem_of_fmap_2.
Qed.

(** A search that can only hit one document is a lookup. *)
Lemma find_is_lookup (P : staged_mutation → Prop) `{∀ m, Decision (P m)} queue n :
  one_per_document queue → (∀ m, P m → mutation_name m = n) →
  snd <$> list_find P queue =
    (m ← queue_map queue !! n; if decide (P m) then Some m else None).
Proof.
  intros Hd HP. destruct (list_find P queue) as [[i m]|] eqn:Hf; cbn [fmap option_fmap option_map snd].
  - apply list_find_Some in Hf as (Hi & HPm & _).
    rewrite (proj2 (queue_map_lookup queue n m Hd)).
    + cbn [mbind option_bind]. by rewrite decide_True.
    + split; [by eapply list_elem_of_lookup_2|by apply HP].
  - apply list_find_None in Hf. rewrite Forall_forall in Hf.
    destruct (queue_map queue !! n) as [m|] eqn:Hm; [|done]. cbn [mbind option_bind].
    apply queue_map_lookup in Hm as [Hin _]; [|done]. rewrite decide_False; [done|]. by apply Hf.
Qed.

(** C33: The queue of staged mutations is a map from documents: it starts
    empty, [add] inserts, [remove_any] deletes, the searches look up, and no
    document ever has two mutations. *)
Theorem staged_queue_is_map queue id m t :
  one_per_document queue →
  one_per_document (Queue.add m queue) ∧
  queue_map (Queue.add m queue) = <[mutation_name m := m]> (queue_map queue) ∧
  one_per_document (Queue.remove_any id queue) ∧
  queue_map (Queue.remove_any id queue) = delete (document_name id) (queue_map queue) ∧
  snd <$> Queue.find_any id queue = queue_map queue !! document_name id ∧
  snd <$> Queue.find_type t id queue =
    (m ← queue_map queue !! document_name id; if decide (sm_type m = t) then Some m else None).
Proof.
  intros Hd.
  assert (Hr : ∀ id, one_per_document (Queue.remove_any id queue) ∧
    queue_map (Queue.remove_any id queue) = delete (document_name id) (queue_map queue)).
  { intros id'. assert (Hd' : one_per_document (Queue.remove_any id' queue)) by by apply one_per_document_filter.
    split; [done|]. apply map_eq. intros n. apply option_eq. intros x.
    rewrite lookup_delete_Some, !queue_map_lookup by done. unfold Queue.remove_any.
    rewrite list_elem_of_filter, document_ids_equal_false. unfold mutation_name. naive_solver. }
  assert (Ha : one_per_document (Queue.add m queue)).
  { destruct (Hr (sm_id m)) as [Hq _]. unfold one_per_document, Queue.add. rewrite map_app.
    apply NoDup_app. split_and!; [done| |apply NoDup_singleton].
    intros n Hn. cbn [map]. rewrite list_elem_of_singleton. intros ->.
    apply list_elem_of_fmap in Hn as (x & Hx & [Hne _]%list_elem_of_filter).
    apply document_ids_equal_false in Hne. by apply Hne. }
  split_and!; [done| |by apply Hr..| |].
  - apply map_eq. intros n. apply option_eq. intros x.
    rewrite lookup_insert_Some, !queue_map_lookup by done. unfold Queue.add.
    rewrite elem_of_app, list_elem_of_filter, list_elem_of_singleton, document_ids_equal_false.
    unfold mutation_name. split.
    + intros [[[Hne Hx]| ->] <-]; [right|by left]. split; [congruence|done].
    + intros [[<- <-]|(Hne & Hx & <-)]; [by split; [right|]|]. split; [left|done]. split; [congruence|done].
  - unfold Queue.find_any. rewrite (find_is_lookup _ _ (document_name id)); [|done|].
    + destruct (queue_map queue !! document_name id) as [x|] eqn:Hx; [|done]. cbn [mbind option_bind].
      apply queue_map_lookup in Hx as [_ Hn]; [|done]. by rewrite decide_True by by apply document_ids_equal_spec.
    + intros x Hx. by apply document_ids_equal_spec.
  - unfold Queue.find_type. rewrite (find_is_lookup _ _ (document_name id)); [|done|].
    + destruct (queue_map queue !! document_name id) as [x|] eqn:Hx; [|done]. cbn [mbind option_bind].
      apply queue_map_lookup in Hx as [_ Hn]; [|done].
      apply decide_ext. split; [by intros []|]. intros. split; [done|]. by apply document_ids_equal_spec.
    + intros x [_ Hx]. by apply document_ids_equal_spec.
Qed.

Lemma staged_queue_is_map_witness :
  let m := StagedMutation INSERT (document_id_of_key [98] [107]) 1 None 0 0 None in
  one_per_document [] ∧ snd <$> Queue.find_any (document_id_of_key [98] [107]) (Queue.add m []) = Some m.
Proof.
  intros m. assert (Hd : one_per_document []) by (apply NoDup_nil_2). split; [done|].
  destruct (staged_queue_is_map [] (document_id_of_key [98] [107]) m INSERT Hd) as (Ha & Hm & _).
  reflexivity.
Defined.

(** A printer that only quotes, for the witnesses *)
Definition quoting : TransactionJson := {|
  print_string s := 34 :: s ++ [34];
  print_number z := [48];
  print_array l := [91; 93];
  read_string s :=
    match s with
    | q :: s => if decide (q = 34 ∧ last s = Some 34) then Some (take (length s - 1) s) else None
    | [] => None
    end;
|}.

Lemma quoting_laws : @TransactionJsonLaws quoting.
Proof.
  intros s. cbn. rewrite decide_True by (split; [done|]; apply last_snoc).
  rewrite length_app. cbn. rewrite Nat.add_sub, take_app_length. done.
Qed.
