(* ===== verification/TransactionLinks.v ===== *)
(** * Documents in transactions: [core/transactions/transaction_links.hxx],
      [transaction_get_result.cxx], [forward_compat.cxx],
      [active_transaction_record.cxx]

    A staged document carries metadata, JSON in an extended attribute, that
    say which attempt staged it and where its record is; the record lists the
    attempts.  Here is what is written, how it is read back, and what clients
    of another version ask for.  Where the code throws a [std::exception], a
    function returns [Err tt]. *)

From S2P Require Import Prelude ByteOrder Protocol McbpParser ClientRequest ClientResponse Commands Transactions.

(** ** JSON values: [tao::json::value]

    The members of an object are ordered by their keys. *)

Inductive json :=
  | JNull
  | JBool (b : bool)
  | JNumber (n : Z)
  | JString (s : bytes)
  | JArray (items : list json)
  | JObject (members : list (bytes * json)).

(** The library that prints and reads JSON, and converts its numbers; [None]
    where it throws *)
Class Json := {
  jsonify : json → bytes;
  parse_json : bytes → option json;
  as_uint32 : json → option Z;
  as_int32 : json → option Z;
  as_uint64 : json → option Z;
}.

(** What is relied on: a number in range is converted to itself. *)
Class JsonLaws `{Json} : Prop :=
  as_uint32_small : ∀ n, 0 ≤ n < 2 ^ 32 → as_uint32 (JNumber n) = Some n.

Definition json_object := list (bytes * json).

(** [std::string::operator<] *)
Fixpoint bytes_ltb (s t : bytes) : bool :=
  match s, t with
  | [], [] => false
  | [], _ :: _ => true
  | _ :: _, [] => false
  | x :: s, y :: t => (x <? y) || (x =? y) && bytes_ltb s t
  end.

Fixpoint object_find (key : bytes) (members : json_object) : option json :=
  match members with
  | [] => None
  | (k, v) :: members => if decide (k = key) then Some v else object_find key members
  end.

(** [members[key] = v] *)
Fixpoint object_set (key : bytes) (v : json) (members : json_object) : json_object :=
  match members with
  | [] => [(key, v)]
  | (k, w) :: members =>
      if decide (k = key) then (key, v) :: members
      else if bytes_ltb key k then (key, v) :: (k, w) :: members
      else (k, w) :: object_set key v members
  end.

(** An initializer list *)
Definition json_members (l : list (bytes * json)) : json_object :=
  foldl (λ o kv, object_set kv.1 kv.2 o) [] l.

Abbreviation thrown A := (outcome unit A).

Definition of_option {A} (o : option A) : thrown A :=
  match o with Some x => Ok x | None => Err tt end.

Definition get_string (j : json) : thrown bytes := match j with JString s => Ok s | _ => Err tt end.
Definition get_array (j : json) : thrown (list json) := match j with JArray l => Ok l | _ => Err tt end.
Definition get_object (j : json) : thrown json_object := match j with JObject o => Ok o | _ => Err tt end.

(** [find] of a value that must be an object *)
Definition find_member (key : bytes) (j : json) : thrown (option json) :=
  o ← get_object j; Ok (object_find key o).

(** [at], and the subscript followed by a conversion, for which a missing
    member is null *)
Definition at_member (key : bytes) (j : json) : thrown json :=
  m ← find_member key j; of_option m.

(** [optional<T>(key)] *)
Definition optional_member {A} (f : json → thrown A) (key : bytes) (j : json) : thrown (option A) :=
  m ← find_member key j;
  match m with
  | Some v => x ← f v; Ok (Some x)
  | None => Ok None
  end.

Definition optional_string := optional_member get_string.

Section json.
Context `{Json}.

Definition deserialize (value : bytes) : thrown json := of_option (parse_json value).
Definition deserialize_string (value : bytes) : thrown bytes := j ← deserialize value; get_string j.
Definition get_uint32 (j : json) : thrown Z := of_option (as_uint32 j).
Definition get_int32 (j : json) : thrown Z := of_option (as_int32 j).
Definition get_uint64 (j : json) : thrown Z := of_option (as_uint64 j).

(** The texts of [Transactions.v] *)
#[global] Instance transaction_json : TransactionJson := {|
  print_string s := jsonify (JString s);
  print_number n := jsonify (JNumber n);
  print_array items := jsonify (JArray (map (λ o, JObject (json_members (map (λ f, (f.1, JString f.2)) o))) items));
  read_string value := match parse_json value with Some (JString s) => Some s | _ => None end;
|}.
End json.

(** ** Values and links *)

(** [codec::encoded_value] *)
Record encoded_value := EncodedValue { ev_data : bytes; ev_flags : Z }.
Definition no_value : encoded_value := EncodedValue [] 0.

Definition json_common_flags : Z := Z.shiftl 2 24.
Definition binary_common_flags : Z := Z.shiftl 3 24.

(** [codec_flags::has_common_flags(flags, expected)] *)
Definition has_common_flags (flags expected : Z) : bool :=
  negb (extract_common_flags flags =? 0) && (Z.land flags 0x0F000000 =? expected).

Record transaction_links := TransactionLinks {
  tl_atr_id : option bytes;
  tl_atr_bucket_name : option bytes;
  tl_atr_scope_name : option bytes;
  tl_atr_collection_name : option bytes;
  tl_staged_transaction_id : option bytes;
  tl_staged_attempt_id : option bytes;
  tl_staged_operation_id : option bytes;
  tl_staged_content_json : option encoded_value;
  tl_staged_content_binary : option encoded_value;
  tl_cas_pre_txn : option bytes;
  tl_revid_pre_txn : option bytes;
  tl_exptime_pre_txn : option Z;
  tl_crc32_of_staging : option bytes;
  tl_op : option bytes;
  tl_forward_compat : option json;
  tl_is_deleted : bool;
}.
Definition no_links : transaction_links :=
  TransactionLinks None None None None None None None None None None None None None None None false.

Definition is_document_in_transaction (l : transaction_links) : bool := has (tl_atr_id l).
Definition is_document_being_removed (l : transaction_links) : bool := bool_decide (tl_op l = Some (ascii "remove")).
Definition is_document_being_inserted (l : transaction_links) : bool := bool_decide (tl_op l = Some (ascii "insert")).
Definition has_staged_content (l : transaction_links) : bool :=
  has (tl_staged_content_json l) || has (tl_staged_content_binary l).
Definition has_staged_write (l : transaction_links) : bool := has (tl_staged_attempt_id l).
Definition staged_content_json_or_binary (l : transaction_links) : encoded_value :=
  default (default no_value (tl_staged_content_binary l)) (tl_staged_content_json l).

Record transaction_get_result := TransactionGetResult {
  tg_id : document_id;
  tg_content : encoded_value;
  tg_cas : Z;
  tg_links : transaction_links;
  tg_metadata : option document_metadata;
}.

(** [create_from(document, content)] copies all links but loses that there is
    no staged content of a kind: its members are then empty values. *)
Definition create_from (document : transaction_get_result) (content : encoded_value) : transaction_get_result :=
  let l := tg_links document in
  TransactionGetResult (tg_id document) content (tg_cas document)
    (TransactionLinks (tl_atr_id l) (tl_atr_bucket_name l) (tl_atr_scope_name l) (tl_atr_collection_name l)
       (tl_staged_transaction_id l) (tl_staged_attempt_id l) (tl_staged_operation_id l)
       (Some (default no_value (tl_staged_content_json l))) (Some (default no_value (tl_staged_content_binary l)))
       (tl_cas_pre_txn l) (tl_revid_pre_txn l) (tl_exptime_pre_txn l) (tl_crc32_of_staging l) (tl_op l)
       (tl_forward_compat l) (tl_is_deleted l))
    (tg_metadata document).

Section links.
Context `{Json}.

(** *** Reading a document: [create_from_subdoc] *)

(** [resp.fields[i]]: the value if the field was found.  The index of a vector
    is not checked. *)
Definition found_field (resp : response) (i : nat) : thrown (option bytes) :=
  match resp_fields resp !! i with
  | Some (value, status) => Ok (if status =? enum_code Status.success then Some value else None)
  | None => Fault
  end.

(** A field that is read when it was found *)
Definition read_field {A} (resp : response) (i : nat) (f : bytes → thrown A) : thrown (option A) :=
  v ← found_field resp i;
  match v with
  | Some v => x ← f v; Ok (Some x)
  | None => Ok None
  end.

(** An object and three, or four, of its members *)
Definition three_members {A B C} (f : json → thrown A) (g : json → thrown B) (h : json → thrown C) (value : bytes) :
    thrown (A * B * C) :=
  j ← deserialize value; x ← f j; y ← g j; z ← h j; Ok (x, y, z).

Definition read_id := three_members (optional_string (ascii "txn")) (optional_string (ascii "atmpt"))
  (optional_string (ascii "op")).
Definition read_atr (value : bytes) : thrown (option bytes * option bytes * option bytes * option bytes) :=
  j ← deserialize value;
  id ← optional_string (ascii "id") j; bkt ← optional_string (ascii "bkt") j;
  scp ← optional_string (ascii "scp") j; coll ← optional_string (ascii "coll") j;
  Ok (id, bkt, scp, coll).
Definition read_restore := three_members (optional_string (ascii "CAS")) (optional_string (ascii "revid"))
  (optional_member get_uint32 (ascii "exptime")).

(** "$document": the metadata of the server and the flags *)
Definition read_document (value : bytes) : thrown (document_metadata * Z) :=
  j ← deserialize value;
  cas ← at_member (ascii "CAS") j; cas ← get_string cas;
  revid ← at_member (ascii "revid") j; revid ← get_string revid;
  exptime ← at_member (ascii "exptime") j; exptime ← get_uint32 exptime;
  crc32 ← at_member (ascii "value_crc32c") j; crc32 ← get_string crc32;
  flags ← at_member (ascii "flags") j; flags ← get_uint32 flags;
  Ok (DocumentMetadata (Some cas) (Some revid) (Some exptime) (Some crc32), flags).

Definition read_aux (value : bytes) : thrown (option Z) :=
  j ← deserialize value; optional_member get_uint32 (ascii "uf") j.

Definition no_metadata : document_metadata := DocumentMetadata None None None None.

(** The fields are those of [get_doc_specs] below; [id] is the document that
    was looked up. *)
Definition create_from_subdoc (id : document_id) (resp : response) : thrown transaction_get_result :=
  ids ← read_field resp 0 read_id;
  let '(transaction_id, attempt_id, operation_id) := default (None, None, None) ids in
  atr ← read_field resp 1 read_atr;
  let '(atr_id, atr_bucket_name, atr_scope_name, atr_collection_name) := default (None, None, None, None) atr in
  op ← read_field resp 2 deserialize_string;
  staged_json ← found_field resp 3;
  crc32_of_staging ← read_field resp 4 deserialize_string;
  restore ← default (None, None, None) <$> read_field resp 5 read_restore;
  let '(cas_pre_txn, revid_pre_txn, exptime_pre_txn) := restore in
  forward_compat ← read_field resp 6 deserialize;
  document ← read_field resp 7 read_document;
  staged_binary ← found_field resp 8;
  aux ← read_field resp 9 read_aux;
  body ← found_field resp 10;
  let staged_content_json := (λ data, EncodedValue data json_common_flags) <$> staged_json in
  let staged_content_binary :=
    (λ data, EncodedValue data (default binary_common_flags (default None aux))) <$> staged_binary in
  Ok (TransactionGetResult id
       (EncodedValue (default [] body) (default 0 (snd <$> document))) (resp_cas resp)
       (TransactionLinks atr_id atr_bucket_name atr_scope_name atr_collection_name
          transaction_id attempt_id operation_id staged_content_json staged_content_binary
          cas_pre_txn revid_pre_txn exptime_pre_txn crc32_of_staging op forward_compat (resp_deleted resp))
       (Some (default no_metadata (fst <$> document)))).

(** The specs of [get_doc] *)
Definition get_doc_specs : list subdoc_command :=
  [subdoc_get (ascii "txn.id") true false; subdoc_get (ascii "txn.atr") true false;
   subdoc_get (ascii "txn.op.type") true false; subdoc_get (ascii "txn.op.stgd") true false;
   subdoc_get (ascii "txn.op.crc32") true false; subdoc_get (ascii "txn.restore") true false;
   subdoc_get (ascii "txn.fc") true false; subdoc_get (ascii "$document") true false;
   subdoc_get (ascii "txn.op.bin") true true; subdoc_get (ascii "txn.aux") true false;
   subdoc_get [] false false].
End links.

(** ** The standard library *)

Definition is_space (c : Z) : bool := (c =? 32) || (9 <=? c) && (c <=? 13).

Definition digit_value (base c : Z) : option Z :=
  let d := if (48 <=? c) && (c <=? 57) then c - 48
           else if (97 <=? c) && (c <=? 122) then c - 87
           else if (65 <=? c) && (c <=? 90) then c - 55
           else base in
  if d <? base then Some d else None.

Fixpoint digits_value (base acc : Z) (s : bytes) : Z :=
  match s with
  | [] => acc
  | c :: s => match digit_value base c with Some d => digits_value base (acc * base + d) s | None => acc end
  end.

Fixpoint skip_spaces (s : bytes) : bytes :=
  match s with
  | c :: s' => if is_space c then skip_spaces s' else s
  | [] => []
  end.

(** [std::stoull(s, nullptr, base)] for base 10 or 16; [std::stoul] is the
    same, [long] having 64 bits. *)
Definition stoull (base : Z) (s : bytes) : thrown Z :=
  let s := skip_spaces s in
  let '(negative, s) := match s with
                        | c :: s' => if c =? 45 then (true, s') else if c =? 43 then (false, s') else (false, s)
                        | [] => (false, s)
                        end in
  let s := if base =? 16 then
             match s with
             | z :: x :: (c :: _) as s' =>
                 if (z =? 48) && ((x =? 120) || (x =? 88)) && has (digit_value base c) then s' else s
             | _ => s
             end
           else s in
  match s with
  | c :: _ =>
      if has (digit_value base c) then
        let v := digits_value base 0 s in
        if v <? 2 ^ 64 then Ok (if negative : bool then u64 (- v) else v) else Err tt
      else Err tt
  | [] => Err tt
  end.

(** [utils::split_string]: an empty last element is dropped. *)
Fixpoint split_string (delimiter : Z) (element input : bytes) : list bytes :=
  match input with
  | [] => if decide (element = []) then [] else [element]
  | c :: input =>
      if c =? delimiter then element :: split_string delimiter [] input
      else split_string delimiter (element ++ [c]) input
  end.

(** ** What clients of other versions ask for: [forward_compat.cxx] *)

Inductive forward_compat_stage :=
  | WRITE_WRITE_CONFLICT_READING_ATR | WRITE_WRITE_CONFLICT_REPLACING | WRITE_WRITE_CONFLICT_REMOVING
  | WRITE_WRITE_CONFLICT_INSERTING | WRITE_WRITE_CONFLICT_INSERTING_GET | GETS | GETS_READING_ATR
  | CLEANUP_ENTRY | CAS_MISMATCH_DURING_COMMIT | CAS_MISMATCH_DURING_ROLLBACK
  | CAS_MISMATCH_DURING_STAGING | GET_MULTI_GET.

Inductive forward_compat_behavior := CONTINUE | RETRY_TXN | FAIL_FAST_TXN.

Global Instance forward_compat_stage_eq_dec : EqDecision forward_compat_stage.
Proof. solve_decision. Defined.

(** [to_string(stage)] *)
Definition stage_to_string (s : forward_compat_stage) : bytes :=
  match s with
  | WRITE_WRITE_CONFLICT_READING_ATR => ascii "WW_R"
  | WRITE_WRITE_CONFLICT_REPLACING => ascii "WW_RP"
  | WRITE_WRITE_CONFLICT_REMOVING => ascii "WW_RM"
  | WRITE_WRITE_CONFLICT_INSERTING => ascii "WW_I"
  | WRITE_WRITE_CONFLICT_INSERTING_GET => ascii "WW_IG"
  | GETS => ascii "G"
  | GETS_READING_ATR => ascii "G_A"
  | CLEANUP_ENTRY => ascii "CL_E"
  | CAS_MISMATCH_DURING_COMMIT => ascii "CM_C"
  | CAS_MISMATCH_DURING_ROLLBACK => ascii "CM_R"
  | CAS_MISMATCH_DURING_STAGING => ascii "CM_S"
  | GET_MULTI_GET => ascii "GM_G"
  end.

Definition create_forward_compat_stage (str : bytes) : thrown forward_compat_stage :=
  if decide (str = ascii "WW_R") then Ok WRITE_WRITE_CONFLICT_READING_ATR
  else if decide (str = ascii "WW_RP") then Ok WRITE_WRITE_CONFLICT_REPLACING
  else if decide (str = ascii "WW_RM") then Ok WRITE_WRITE_CONFLICT_REMOVING
  else if decide (str = ascii "WW_I") then Ok WRITE_WRITE_CONFLICT_INSERTING
  else if decide (str = ascii "WW_IG") then Ok WRITE_WRITE_CONFLICT_INSERTING_GET
  else if decide (str = ascii "G") then Ok GETS
  else if decide (str = ascii "G_A") then Ok GETS_READING_ATR
  else if decide (str = ascii "CL_E") then Ok CLEANUP_ENTRY
  else if decide (str = ascii "CM_C") then Ok CAS_MISMATCH_DURING_COMMIT
  else if decide (str = ascii "CM_R") then Ok CAS_MISMATCH_DURING_ROLLBACK
  else if decide (str = ascii "CM_S") then Ok CAS_MISMATCH_DURING_STAGING
  else if decide (str = ascii "GM_G") then Ok GET_MULTI_GET
  else Err tt.

Definition create_forward_compat_behavior (str : bytes) : forward_compat_behavior :=
  if decide (str = ascii "r") then RETRY_TXN else FAIL_FAST_TXN.

(** [forward_compat_behavior_full]: the delay before a retry in milliseconds *)
Record forward_compat_behavior_full := ForwardCompatBehavior {
  fb_behavior : forward_compat_behavior;
  fb_retry_delay : option Z;
}.

Definition get_unsigned (j : json) : thrown Z :=
  match j with JNumber n => if 0 <=? n then Ok n else Err tt | _ => Err tt end.

Definition behavior_of_json (j : json) : thrown forward_compat_behavior_full :=
  b ← at_member (ascii "b") j; b ← get_string b;
  ra ← optional_member get_unsigned (ascii "ra") j;
  Ok (ForwardCompatBehavior (create_forward_compat_behavior b) ra).

(** The two classes that implement [forward_compat_requirement] *)
Inductive forward_compat_requirement :=
  | protocol_requirement (b : forward_compat_behavior_full) (min_major min_minor : Z)
  | extension_requirement (b : forward_compat_behavior_full) (extension_id : bytes).

Record forward_compat_supported := ForwardCompatSupported {
  protocol_major : Z;
  protocol_minor : Z;
  extensions : list bytes;
}.

Definition supported : forward_compat_supported :=
  ForwardCompatSupported 2 0
    (map ascii ["BF3705"; "BF3787"; "BF3791"; "BF3838"; "BM"; "BS"; "CM"; "CO"; "IX"; "MO"; "PU"; "QC"; "QU";
                "RC"; "RP"; "RX"; "SD"; "SI"; "TI"; "TS"; "UA"; "GM"; "RPP1"]%string).

Definition check_requirement (r : forward_compat_requirement) (s : forward_compat_supported) :
    forward_compat_behavior_full :=
  match r with
  | protocol_requirement b major minor =>
      if (protocol_major s <? major) || (protocol_minor s <? minor) then b else ForwardCompatBehavior CONTINUE None
  | extension_requirement b ext =>
      if bool_decide (ext ∈ extensions s) then ForwardCompatBehavior CONTINUE None else b
  end.

(** [compat_map_]: the requirements in the order they were added, with their
    stages *)
Abbreviation compat_map := (list (forward_compat_stage * forward_compat_requirement)).

(** [proto[0]] and [proto[1]] are not checked to be there. *)
Definition requirement_of_json (item : json) : thrown (option forward_compat_requirement) :=
  behavior ← behavior_of_json item;
  e ← find_member (ascii "e") item;
  match e with
  | Some e => ext ← get_string e; Ok (Some (extension_requirement behavior ext))
  | None =>
      p ← find_member (ascii "p") item;
      match p with
      | Some p =>
          s ← get_string p;
          match split_string 46 [] s with
          | major :: minor :: _ =>
              major ← stoull 10 major; minor ← stoull 10 minor;
              Ok (Some (protocol_requirement behavior major minor))
          | _ => Fault
          end
      | None => Ok None
      end
  end.

Fixpoint stage_requirements (stage : forward_compat_stage) (items : list json) : thrown compat_map :=
  match items with
  | [] => Ok []
  | item :: items =>
      r ← requirement_of_json item;
      rest ← stage_requirements stage items;
      Ok (match r with Some r => (stage, r) :: rest | None => rest end)
  end.

Fixpoint object_requirements (members : json_object) : thrown compat_map :=
  match members with
  | [] => Ok []
  | (key, value) :: members =>
      stage ← create_forward_compat_stage key;
      items ← get_array value;
      rs ← stage_requirements stage items;
      rest ← object_requirements members;
      Ok (rs ++ rest)
  end.

(** The loop of [check_internal]; the delay before a retry is left out. *)
Fixpoint check_internal (rs : list forward_compat_requirement) (s : forward_compat_supported) :
    option operation_failure :=
  match rs with
  | [] => None
  | r :: rs =>
      let ex := cause FORWARD_COMPATIBILITY_FAILURE (operation_failed FAIL_OTHER) in
      match fb_behavior (check_requirement r s) with
      | FAIL_FAST_TXN => Some ex
      | RETRY_TXN => Some (retry ex)
      | CONTINUE => check_internal rs s
      end
  end.

Definition stage_map (stage : forward_compat_stage) (m : compat_map) : list forward_compat_requirement :=
  (filter (λ r, r.1 = stage) m).*2.

Definition check_forward_compat (stage : forward_compat_stage) (j : option json) : thrown (option operation_failure) :=
  match j with
  | None => Ok None
  | Some j =>
      o ← get_object j;
      m ← object_requirements o;
      Ok (check_internal (stage_map stage m) supported)
  end.

(** ** What a staged document carries: [create_document_metadata]

    [tid], [aid] and [atr_key] are the identifiers of the transaction, of the
    attempt and of the last record that was chosen; [atr] is [atr_id_]. *)

Definition restore_object (m : document_metadata) : json_object :=
  let o := match dm_cas m with Some cas => object_set (ascii "CAS") (JString cas) [] | None => [] end in
  let o := match dm_revid m with Some revid => object_set (ascii "revid") (JString revid) o | None => o end in
  match dm_exptime m with Some exptime => object_set (ascii "exptime") (JNumber exptime) o | None => o end.

(** Binary documents ask for the extension that introduced them. *)
Definition fc_check : json :=
  JArray [JObject (json_members [(ascii "e", JString (ascii "BS")); (ascii "b", JString (ascii "f"))])].
Definition binary_forward_compat : json :=
  JObject (json_members (map (λ s, (stage_to_string s, fc_check))
    [WRITE_WRITE_CONFLICT_INSERTING; WRITE_WRITE_CONFLICT_INSERTING_GET; GETS; CLEANUP_ENTRY])).

Definition create_document_metadata (operation_type operation_id : bytes) (metadata : option document_metadata)
    (flags : Z) (tid aid atr_key : bytes) (atr : option document_id) : json :=
  let txn := object_set (ascii "op") (JObject (json_members [(ascii "type", JString operation_type)])) [] in
  let txn := object_set (ascii "aux") (JObject (json_members [(ascii "uf", JNumber flags)])) txn in
  let txn := object_set (ascii "id") (JObject (json_members
               [(ascii "txn", JString tid); (ascii "atmpt", JString aid); (ascii "op", JString operation_id)])) txn in
  let atr_members := json_members [(ascii "id", JString atr_key)] in
  let atr_members := match atr with
                     | Some id =>
                         object_set (ascii "coll") (JString (id_collection id))
                           (object_set (ascii "scp") (JString (id_scope id))
                              (object_set (ascii "bkt") (JString (id_bucket id)) atr_members))
                     | None => atr_members
                     end in
  let txn := object_set (ascii "atr") (JObject atr_members) txn in
  let txn := match metadata with
             | Some m => if decide (restore_object m = []) then txn
                         else object_set (ascii "restore") (JObject (restore_object m)) txn
             | None => txn
             end in
  let txn := if has_common_flags flags binary_common_flags &&
                (bool_decide (operation_type = ascii "replace") || bool_decide (operation_type = ascii "insert"))
             then object_set (ascii "fc") binary_forward_compat txn else txn in
  JObject txn.

(** ** The record of attempts: [active_transaction_record.cxx] *)

(** [parse_mutation_cas] of a non-empty text: the bytes of a 64-bit number in
    the other order *)
Definition byteswap_step (s : Z * Z) : Z * Z :=
  (Z.lor (u64 (Z.shiftl s.1 8)) (Z.land s.2 0xff), Z.shiftr s.2 8).
Definition mutation_cas_byteswap (val : Z) : Z := (Nat.iter 8 byteswap_step (0, val)).1.

Definition parse_mutation_cas (cas : bytes) : thrown Z :=
  if decide (cas = []) then Ok 0
  else
    val ← stoull 16 cas;
    Ok (mutation_cas_byteswap val / 1000000).

(** The atr_entry of an attempt; [doc_record] is an identifier of a document. *)
Record atr_entry := AtrEntry {
  ae_atr_bucket : bytes;
  ae_atr_id : bytes;
  ae_attempt_id : bytes;
  ae_state : attempt_state;
  ae_timestamp_start_ms : option Z;
  ae_timestamp_commit_ms : option Z;
  ae_timestamp_complete_ms : option Z;
  ae_timestamp_rollback_ms : option Z;
  ae_timestamp_rolled_back_ms : option Z;
  ae_expires_after_ms : option Z;
  ae_inserted_ids : option (list document_id);
  ae_replaced_ids : option (list document_id);
  ae_removed_ids : option (list document_id);
  ae_forward_compat : option json;
  ae_cas : Z;
  ae_durability_level : option bytes;
}.

(** The [cas] of an entry holds the time of the server in nanoseconds. *)
Definition has_expired (e : atr_entry) (safety_margin : Z) : outcome unit bool :=
  let cas_ms := ae_cas e / 1000000 in
  match ae_timestamp_start_ms e with
  | Some start =>
      if start <? cas_ms then
        match ae_expires_after_ms e with
        | Some expires_after_ms => Ok (u32 (expires_after_ms + safety_margin) <? cas_ms - start)
        | None => Fault
        end
      else Ok false
  | None => Ok false
  end.
Definition age_ms (e : atr_entry) : Z := u32 (ae_cas e / 1000000 - default 0 (ae_timestamp_start_ms e)).

(** [doc_record::create_from] *)
Definition doc_record_create_from (obj : json_object) : thrown document_id :=
  bucket ← of_option (object_find ATR_FIELD_PER_DOC_BUCKET obj); bucket ← get_string bucket;
  scope ← of_option (object_find ATR_FIELD_PER_DOC_SCOPE obj); scope ← get_string scope;
  collection ← of_option (object_find ATR_FIELD_PER_DOC_COLLECTION obj); collection ← get_string collection;
  id ← of_option (object_find ATR_FIELD_PER_DOC_ID obj); id ← get_string id;
  Ok (document_id_in bucket scope collection id).

Fixpoint doc_records (items : list json) : thrown (list document_id) :=
  match items with
  | [] => Ok []
  | record :: items =>
      o ← get_object record; d ← doc_record_create_from o; ds ← doc_records items; Ok (d :: ds)
  end.

Definition process_document_ids (entry : json) (key : bytes) : thrown (option (list document_id)) :=
  items ← find_member key entry;
  match items with
  | Some (JArray items) => records ← doc_records items; Ok (Some records)
  | _ => Ok None
  end.

(** The time of the server in nanoseconds, in 64 bits *)
Definition now_ns_from_vbucket (vbucket : json) : thrown Z :=
  hlc ← at_member (ascii "HLC") vbucket;
  now ← at_member (ascii "now") hlc;
  now ← get_string now;
  seconds ← stoull 10 now;
  Ok (u64 (seconds * 1000000000)).

Definition ATR_FIELD_TIMESTAMP_COMPLETE : bytes := ascii "tsco".
Definition ATR_FIELD_TIMESTAMP_ROLLBACK_COMPLETE : bytes := ascii "tsrc".
Definition ATR_FIELD_FORWARD_COMPAT : bytes := ascii "fc".

Record active_transaction_record := ActiveTransactionRecord {
  ar_id : document_id;
  ar_entries : list atr_entry;
}.

Section record.
Context `{Json}.

Definition mutation_cas_member (key : bytes) (val : json) : thrown Z :=
  s ← optional_string key val; parse_mutation_cas (default [] s).

(** One attempt of [map_to_atr] *)
Definition atr_entry_of_json (id : document_id) (now_ns : Z) (key : bytes) (val : json) : thrown atr_entry :=
  forward_compat ← find_member ATR_FIELD_FORWARD_COMPAT val;
  expires ← optional_member get_int32 ATR_FIELD_EXPIRES_AFTER_MSECS val;
  status ← at_member ATR_FIELD_STATUS val; status ← get_string status;
  start ← mutation_cas_member ATR_FIELD_START_TIMESTAMP val;
  commit ← mutation_cas_member ATR_FIELD_START_COMMIT val;
  complete ← mutation_cas_member ATR_FIELD_TIMESTAMP_COMPLETE val;
  rollback ← mutation_cas_member ATR_FIELD_TIMESTAMP_ROLLBACK_START val;
  rolled_back ← mutation_cas_member ATR_FIELD_TIMESTAMP_ROLLBACK_COMPLETE val;
  inserted ← process_document_ids val ATR_FIELD_DOCS_INSERTED;
  replaced ← process_document_ids val ATR_FIELD_DOCS_REPLACED;
  removed ← process_document_ids val ATR_FIELD_DOCS_REMOVED;
  level ← optional_string ATR_FIELD_DURABILITY_LEVEL val;
  Ok (AtrEntry (id_bucket id) (id_key id) key (attempt_state_value status) (Some start) (Some commit) (Some complete)
        (Some rollback) (Some rolled_back) (Some (Z.max (default 0 expires) 0)) inserted replaced removed
        forward_compat now_ns level).

Fixpoint atr_entries (id : document_id) (now_ns : Z) (attempts : json_object) : thrown (list atr_entry) :=
  match attempts with
  | [] => Ok []
  | (key, val) :: attempts =>
      e ← atr_entry_of_json id now_ns key val; es ← atr_entries id now_ns attempts; Ok (e :: es)
  end.

(** [map_to_atr]: the record [id] was looked up with [get_atr_specs]. *)
Definition map_to_atr (id : document_id) (resp : response) : thrown active_transaction_record :=
  attempts ← found_field resp 0;
  match attempts with
  | None => Ok (ActiveTransactionRecord id [])
  | Some attempts =>
      attempts ← deserialize attempts;
      vbucket ← match resp_fields resp !! 1%nat with Some (v, _) => deserialize v | None => Fault end;
      now_ns ← now_ns_from_vbucket vbucket;
      attempts ← get_object attempts;
      entries ← atr_entries id now_ns attempts;
      Ok (ActiveTransactionRecord id entries)
  end.

Definition get_atr_specs : list subdoc_command :=
  [subdoc_get ATR_FIELD_ATTEMPTS true false; subdoc_get (ascii "$vbucket") true false].

(** The handler of [get_atr]: an error, or the record if there is one *)
Definition get_atr_result (id : document_id) (resp : response) :
    outcome unit (error_code + option active_transaction_record) :=
  if decide (resp_ec resp = Some (errc_key_value KeyValue.document_not_found)) then Ok (inr None)
  else
    match resp_ec resp with
    | Some ec => Ok (inl ec)
    | None =>
        match map_to_atr id resp with
        | Ok record => Ok (inr (Some record))
        | Err _ => Ok (inl (errc_key_value KeyValue.path_invalid))
        | Fault => Fault
        | Diverge => Diverge
        end
    end.

(** The entry of an attempt *)
Definition find_entry (attempt_id : bytes) (r : active_transaction_record) : option atr_entry :=
  snd <$> list_find (λ e, ae_attempt_id e = attempt_id) (ar_entries r).
End record.

(** ** Objects *)

Lemma object_find_set key v o : object_find key (object_set key v o) = Some v.
Proof.
  induction o as [|[k w] o IH]; cbn; [by rewrite decide_True|].
  case_decide as Hk; cbn; [by rewrite decide_True|].
  case_match; cbn; [by rewrite decide_True|]. by rewrite decide_False.
Qed.

Lemma object_find_set_ne key key' v o : key ≠ key' → object_find key (object_set key' v o) = object_find key o.
Proof.
  intros Hne. induction o as [|[k w] o IH]; cbn; [by rewrite decide_False|].
  destruct (decide (k = key')) as [->|Hk]; cbn; [by rewrite !decide_False by done|].
  destruct (bytes_ltb key' k); cbn; [by rewrite (decide_False (P:=key' = key))|].
  by rewrite IH.
Qed.

(** ** Timestamps *)

(** How the server writes "${Mutation.CAS}": the bytes of the number, the
    least significant first, in hexadecimal *)
Definition hex_digit (d : Z) : Z := if d <? 10 then 48 + d else 87 + d.
Definition hex_byte (b : Z) : bytes := [hex_digit (b / 16); hex_digit (b mod 16)].
Definition mutation_cas_text (cas : Z) : bytes := ascii "0x" ++ concat (map hex_byte (le_bytes 8 cas)).

Lemma digit_value_hex d : 0 ≤ d < 16 → digit_value 16 (hex_digit d) = Some d.
Proof.
  intros Hd. assert (Hall : Forall (λ d, digit_value 16 (hex_digit d) = Some d) (seqZ 0 16)).
  { apply (bool_decide_unpack _). vm_compute. exact I. }
  rewrite Forall_forall in Hall. apply Hall, elem_of_seqZ. lia.
Qed.

Lemma digits_value_hex bs acc : bytes_ok bs → digits_value 16 acc (concat (map hex_byte bs)) = be_value_acc acc bs.
Proof.
  intros Hbs. revert acc. induction Hbs as [|b bs Hb Hbs IH]; intros acc; [done|]. unfold in_width in Hb.
  cbn [map concat hex_byte app digits_value be_value_acc].
  rewrite !digit_value_hex by (split; [apply Z.div_pos|apply Z.div_lt_upper_bound]; lia || apply Z.mod_pos_bound; lia).
  rewrite digit_value_hex by (apply Z.mod_pos_bound; lia). rewrite IH. f_equal. pose proof (Z.div_mod b 16). lia.
Qed.

Lemma byteswap_bytes bs r :
  bytes_ok bs → 0 ≤ r → r * 256 ^ zsize bs + 256 ^ zsize bs ≤ 2 ^ 64 →
  Nat.iter (length bs) byteswap_step (r, be_value bs) = (be_value_acc r (rev bs), 0).
Proof.
  revert r. induction bs as [|b bs IH] using rev_ind; intros r Hbs Hr Hb; [done|].
  apply bytes_ok_app in Hbs as [Hbs [Hb0 _]%Forall_cons]. unfold in_width in Hb0.
  rewrite length_app, Nat.add_1_r, Nat.iter_succ_r, rev_app_distr. cbn [rev app be_value_acc].
  rewrite zsize_app, Z.pow_add_r in Hb by size_lia. change (256 ^ zsize [b]) with 256 in Hb.
  assert (Hp : 0 < 256 ^ zsize bs) by (apply Z.pow_pos_nonneg; size_lia).
  replace (byteswap_step (r, be_value (bs ++ [b]))) with (r * 256 + b, be_value bs); [apply IH; [done|lia|nia]|].
  unfold byteswap_step. cbn [fst snd]. rewrite be_value_app, be_value_cons, be_value_nil.
  change (256 ^ zsize [b]) with 256. change (256 ^ zsize []) with 1. rewrite Z.mul_1_r, Z.add_0_r.
  assert (Hr256 : r * 256 + 256 ≤ 2 ^ 64) by nia. f_equal.
  - change 255 with (Z.ones 8). rewrite Z.land_ones by lia. change (2 ^ 8) with 256.
    assert (Hm : (be_value bs * 256 + b) mod 256 = b) by (rewrite Z.add_comm, Z.mod_add, Z.mod_small; lia).
    rewrite Hm. rewrite Z.shiftl_mul_pow2 by lia. change (2 ^ 8) with 256.
    rewrite wrap_small by (unfold in_width; lia). symmetry. apply (lor_mul_add' b r 8); [unfold in_width|]; lia.
  - rewrite Z.shiftr_div_pow2 by lia. change (2 ^ 8) with 256. symmetry. rewrite Z.add_comm, Z.div_add by lia.
    by rewrite Z.div_small by lia.
Qed.

Lemma stoull_mutation_cas cas : is_u64 cas → stoull 16 (mutation_cas_text cas) = Ok (be_value (le_bytes 8 cas)).
Proof.
  intros Hc. assert (Hok : bytes_ok (le_bytes 8 cas)) by (apply bytes_ok_rev, be_bytes_ok).
  assert (Hlen : length (le_bytes 8 cas) = 8%nat) by apply length_le_bytes.
  pose proof (be_value_bound _ Hok) as Hb. unfold zsize in Hb. rewrite Hlen in Hb.
  pose proof (digits_value_hex (le_bytes 8 cas) 0 Hok) as Hd. unfold mutation_cas_text.
  destruct (le_bytes 8 cas) as [|b bs]; [done|]. apply Forall_cons in Hok as [Hb0 _]. unfold in_width in Hb0.
  cbn [map concat hex_byte app] in *.
  assert (Hx : digit_value 16 (hex_digit (b / 16)) = Some (b / 16)).
  { apply digit_value_hex. split; [apply Z.div_pos|apply Z.div_lt_upper_bound]; lia. }
  unfold stoull. change (ascii "0x") with [48; 120]. cbn [app skip_spaces is_space Z.eqb Z.leb andb orb].
  cbn -[digits_value digit_value be_value Z.ltb]. rewrite Hx. cbn [has]. rewrite Hx. cbn [has]. rewrite Hd.
  fold (be_value (b :: bs)). change (256 ^ Z.of_nat 8) with (2 ^ 64) in Hb.
  destruct (Z.ltb_spec (be_value (b :: bs)) (2 ^ 64)); [done|lia].
Qed.

(** ** The claims *)

(** What the server writes for "${Mutation.CAS}" is read back: the number
    of nanoseconds, whose bytes stand in the text in the other order, in
    milliseconds. *)
Theorem mutation_cas_roundtrip cas : is_u64 cas → parse_mutation_cas (mutation_cas_text cas) = Ok (cas / 1000000).
Proof.
  intros Hc. unfold parse_mutation_cas. rewrite decide_False by done. rewrite stoull_mutation_cas by done.
  cbn [mbind outcome_bind]. unfold mutation_cas_byteswap.
  change 8%nat with (length (le_bytes 8 0)) at 1. rewrite length_le_bytes, <-(length_le_bytes 8 cas).
  rewrite byteswap_bytes; [|apply bytes_ok_rev, be_bytes_ok|lia|unfold zsize; rewrite length_le_bytes; done].
  cbn [fst]. do 2 f_equal. change (le_value (le_bytes 8 cas) = cas). by apply le_value_le_bytes.
Qed.

(** ** Staged metadata are read back *)

Section metadata.
Context `{JsonLaws}.

Fixpoint member_at (path : list bytes) (j : json) : option json :=
  match path, j with
  | [], j => Some j
  | key :: path, JObject o => object_find key o ≫= member_at path
  | _ :: _, _ => None
  end.

(** The field of a lookup shows a member of the metadata, or holds a value. *)
Definition shows (member : option json) (f : bytes * Z) : Prop :=
  match member with
  | Some j => f.2 = enum_code Status.success ∧ parse_json f.1 = Some j
  | None => f.2 ≠ enum_code Status.success
  end.
Definition holds (value : option bytes) (f : bytes * Z) : Prop :=
  match value with
  | Some v => f = (v, enum_code Status.success)
  | None => f.2 ≠ enum_code Status.success
  end.

(** The answer to [get_doc_specs] for a document that carries the metadata
    [txn] and the staged content [staged] *)
Definition staged_response (txn : json) (staged : option bytes) (binary : bool) (crc32 : bytes)
    (document : document_metadata * Z) (body : option bytes) (resp : response) : Prop :=
  ∃ f0 f1 f2 f3 f4 f5 f6 f7 f8 f9 f10, resp_fields resp = [f0; f1; f2; f3; f4; f5; f6; f7; f8; f9; f10] ∧
    shows (member_at [ascii "id"] txn) f0 ∧ shows (member_at [ascii "atr"] txn) f1 ∧
    shows (member_at [ascii "op"; ascii "type"] txn) f2 ∧ holds (if binary then None else staged) f3 ∧
    shows (Some (JString crc32)) f4 ∧ shows (member_at [ascii "restore"] txn) f5 ∧
    shows (member_at [ascii "fc"] txn) f6 ∧
    (f7.2 = enum_code Status.success ∧ read_document f7.1 = Ok document) ∧
    holds (if binary then staged else None) f8 ∧ shows (member_at [ascii "aux"] txn) f9 ∧ holds body f10.

Lemma found_shows resp i member f :
  resp_fields resp !! i = Some f → shows member f →
  match member with
  | Some j => ∃ v, found_field resp i = Ok (Some v) ∧ deserialize v = Ok j
  | None => found_field resp i = Ok None
  end.
Proof.
  unfold found_field, deserialize. intros ->. destruct f as [v st]. destruct member; cbn.
  - intros [-> Hp]. exists v. by rewrite Hp.
  - intros Hne. by rewrite (proj2 (Z.eqb_neq _ _) Hne).
Qed.

Lemma found_holds resp i value f : resp_fields resp !! i = Some f → holds value f → found_field resp i = Ok value.
Proof.
  unfold found_field. intros ->. destruct f as [v st]. destruct value; cbn.
  - by intros [= -> ->].
  - intros Hne. by rewrite (proj2 (Z.eqb_neq _ _) Hne).
Qed.

Lemma read_field_shows {A} resp i j f (g : json → thrown A) (h : bytes → thrown A) x :
  resp_fields resp !! i = Some f → shows (Some j) f →
  (∀ v, h v = (j ← deserialize v; g j)) → g j = Ok x → read_field resp i h = Ok (Some x).
Proof.
  intros Hf Hs Hh Hg. destruct (found_shows _ _ _ _ Hf Hs) as (v & Hv & Hd).
  unfold read_field. rewrite Hv. cbn [mbind outcome_bind]. rewrite Hh, Hd. cbn [mbind outcome_bind]. by rewrite Hg.
Qed.

Lemma read_field_none {A} resp i f (h : bytes → thrown A) :
  resp_fields resp !! i = Some f → shows None f → read_field resp i h = Ok None.
Proof. intros Hf Hs. unfold read_field. by rewrite (found_shows _ _ _ _ Hf Hs). Qed.
End metadata.

Ltac find_member := repeat first [rewrite object_find_set | rewrite object_find_set_ne by (vm_compute; discriminate)].
Ltac written m :=
  unfold create_document_metadata; destruct (_ && _), m as [?md|]; try case_decide; cbn [member_at]; by find_member.

Section written.
Context (op operation_id : bytes) (m : option document_metadata) (flags : Z) (tid aid atr_key : bytes) (atr : document_id).
Abbreviation txn := (create_document_metadata op operation_id m flags tid aid atr_key (Some atr)).

Definition asks_for_binary : bool :=
  has_common_flags flags binary_common_flags && (bool_decide (op = ascii "replace") || bool_decide (op = ascii "insert")).

Lemma written_id : member_at [ascii "id"] txn =
  Some (JObject (json_members [(ascii "txn", JString tid); (ascii "atmpt", JString aid); (ascii "op", JString operation_id)])).
Proof. written m. Qed.

Lemma written_atr : member_at [ascii "atr"] txn =
  Some (JObject (object_set (ascii "coll") (JString (id_collection atr))
    (object_set (ascii "scp") (JString (id_scope atr)) (object_set (ascii "bkt") (JString (id_bucket atr))
      (json_members [(ascii "id", JString atr_key)]))))).
Proof. written m. Qed.

Lemma written_type : member_at [ascii "op"; ascii "type"] txn = Some (JString op).
Proof. written m. Qed.

Lemma written_aux : member_at [ascii "aux"] txn = Some (JObject (json_members [(ascii "uf", JNumber flags)])).
Proof. written m. Qed.

Lemma written_restore : member_at [ascii "restore"] txn =
  match m with
  | Some md => if decide (restore_object md = []) then None else Some (JObject (restore_object md))
  | None => None
  end.
Proof. written m. Qed.

Lemma written_fc : member_at [ascii "fc"] txn = if asks_for_binary then Some binary_forward_compat else None.
Proof. unfold asks_for_binary. written m. Qed.
End written.

Lemma binary_accepted stage : check_forward_compat stage (Some binary_forward_compat) = Ok None.
Proof. by destruct stage; vm_compute. Qed.

Lemma restore_read `{JsonLaws} (m : document_metadata) :
  (∀ e, dm_exptime m = Some e → is_u32 e) →
  optional_string (ascii "CAS") (JObject (restore_object m)) = Ok (dm_cas m) ∧
  optional_string (ascii "revid") (JObject (restore_object m)) = Ok (dm_revid m) ∧
  optional_member get_uint32 (ascii "exptime") (JObject (restore_object m)) = Ok (dm_exptime m).
Proof.
  intros He. unfold restore_object, optional_string, optional_member, find_member, get_object.
  destruct m as [[cas|] [revid|] [e|] crc]; cbn [dm_cas dm_revid dm_exptime mbind outcome_bind] in *;
    find_member; cbn [object_find mbind outcome_bind]; find_member; cbn [mbind outcome_bind get_string];
    unfold get_uint32; rewrite ?as_uint32_small by (by apply He); done.
Qed.

Lemma restore_empty (m : document_metadata) :
  restore_object m = [] → dm_cas m = None ∧ dm_revid m = None ∧ dm_exptime m = None.
Proof. by destruct m as [[cas|] [revid|] [e|] crc]. Qed.

(** The functions that read a field, on values *)
Definition read_id_json `{Json} (j : json) : thrown (option bytes * option bytes * option bytes) :=
  x ← optional_string (ascii "txn") j; y ← optional_string (ascii "atmpt") j; z ← optional_string (ascii "op") j;
  Ok (x, y, z).
Definition read_atr_json (j : json) : thrown (option bytes * option bytes * option bytes * option bytes) :=
  id ← optional_string (ascii "id") j; bkt ← optional_string (ascii "bkt") j;
  scp ← optional_string (ascii "scp") j; coll ← optional_string (ascii "coll") j;
  Ok (id, bkt, scp, coll).
Definition restored (m : option document_metadata) : option bytes * option bytes * option Z :=
  (m ≫= dm_cas, m ≫= dm_revid, m ≫= dm_exptime).

Section fields.
Context `{JsonLaws} (resp : response).

Lemma read_field_restore f m :
  resp_fields resp !! 5%nat = Some f →
  shows (match m with
         | Some md => if decide (restore_object md = []) then None else Some (JObject (restore_object md))
         | None => None
         end) f →
  (∀ md e, m = Some md → dm_exptime md = Some e → is_u32 e) →
  default (None, None, None) <$> read_field resp 5 read_restore = Ok (restored m).
Proof.
  intros Hf Hs He. destruct m as [md|]; [|by rewrite (read_field_none _ _ _ _ Hf Hs)]. case_decide as Hd.
  - rewrite (read_field_none _ _ _ _ Hf Hs). unfold restored. cbn. by destruct (restore_empty _ Hd) as (-> & -> & ->).
  - destruct (restore_read md) as (H1 & H2 & H3); [by intros; eapply He|].
    erewrite (read_field_shows resp 5 _ f (λ j, x ← optional_string (ascii "CAS") j; y ← optional_string (ascii "revid") j;
      z ← optional_member get_uint32 (ascii "exptime") j; Ok (x, y, z)) read_restore _ Hf Hs); [|done|].
    2: { by rewrite H1, H2, H3. }
    done.
Qed.

Lemma read_field_fc f (fc : option json) :
  resp_fields resp !! 6%nat = Some f → shows fc f → read_field resp 6 deserialize = Ok fc.
Proof.
  intros Hf Hs. destruct fc as [j|]; [|by apply (read_field_none _ _ _ _ Hf)].
  apply (read_field_shows resp 6 j f (λ j, Ok j) _ _ Hf Hs); [|done]. intros v. by destruct (deserialize v).
Qed.

Lemma read_field_document f document :
  resp_fields resp !! 7%nat = Some f → f.2 = enum_code Status.success ∧ read_document f.1 = Ok document →
  read_field resp 7 read_document = Ok (Some document).
Proof.
  intros Hf [Hs Hd]. unfold read_field, found_field. rewrite Hf. destruct f as [v st]. cbn in *. rewrite Hs.
  cbn. by rewrite Hd.
Qed.

Lemma read_field_string i f s :
  resp_fields resp !! i = Some f → shows (Some (JString s)) f → read_field resp i deserialize_string = Ok (Some s).
Proof. intros Hf Hs. exact (read_field_shows resp i _ f get_string deserialize_string s Hf Hs (λ _, eq_refl) eq_refl). Qed.

Lemma read_field_id f tid aid oid :
  resp_fields resp !! 0%nat = Some f →
  shows (Some (JObject (json_members [(ascii "txn", JString tid); (ascii "atmpt", JString aid); (ascii "op", JString oid)]))) f →
  read_field resp 0 read_id = Ok (Some (Some tid, Some aid, Some oid)).
Proof.
  intros Hf Hs. refine (read_field_shows resp 0 _ f read_id_json read_id _ Hf Hs (λ _, eq_refl) _). by vm_compute.
Qed.

Lemma read_field_atr f key atr :
  resp_fields resp !! 1%nat = Some f →
  shows (Some (JObject (object_set (ascii "coll") (JString (id_collection atr))
    (object_set (ascii "scp") (JString (id_scope atr)) (object_set (ascii "bkt") (JString (id_bucket atr))
      (json_members [(ascii "id", JString key)])))))) f →
  read_field resp 1 read_atr = Ok (Some (Some key, Some (id_bucket atr), Some (id_scope atr), Some (id_collection atr))).
Proof.
  intros Hf Hs. refine (read_field_shows resp 1 _ f read_atr_json read_atr _ Hf Hs (λ _, eq_refl) _). by vm_compute.
Qed.

Lemma read_field_flags f flags :
  resp_fields resp !! 9%nat = Some f → shows (Some (JObject (json_members [(ascii "uf", JNumber flags)]))) f →
  is_u32 flags → read_field resp 9 read_aux = Ok (Some (Some flags)).
Proof.
  intros Hf Hs Hflags.
  refine (read_field_shows resp 9 _ f (optional_member get_uint32 (ascii "uf")) read_aux _ Hf Hs (λ _, eq_refl) _).
  unfold optional_member, find_member, get_object, json_members. cbn [mbind outcome_bind foldl object_set fst snd object_find].
  rewrite decide_True by done. unfold get_uint32. by rewrite as_uint32_small.
Qed.
End fields.

(** C23: What an attempt writes into a document that it stages is what any
    client reads: from a response that shows the members of the metadata and
    the staged content, the identifiers of the transaction, attempt, operation
    and record, the kind of the mutation, the values to restore and the staged
    content, which has the flags of the user when it is binary, and those of
    JSON otherwise.  The requirements that the metadata carry are met by this
    client at every stage. *)
Theorem staged_metadata_roundtrip `{JsonLaws} op operation_id m flags tid aid atr id staged crc document body resp :
  is_u32 flags → (∀ md e, m = Some md → dm_exptime md = Some e → is_u32 e) →
  let binary := has_common_flags flags binary_common_flags in
  let fc := if asks_for_binary op flags then Some binary_forward_compat else None in
  staged_response (create_document_metadata op operation_id m flags tid aid (id_key atr) (Some atr))
    staged binary crc document body resp →
  create_from_subdoc id resp =
    Ok (TransactionGetResult id (EncodedValue (default [] body) document.2) (resp_cas resp)
          (TransactionLinks (Some (id_key atr)) (Some (id_bucket atr)) (Some (id_scope atr)) (Some (id_collection atr))
             (Some tid) (Some aid) (Some operation_id)
             (if binary then None else (λ data, EncodedValue data json_common_flags) <$> staged)
             (if binary then (λ data, EncodedValue data flags) <$> staged else None)
             (m ≫= dm_cas) (m ≫= dm_revid) (m ≫= dm_exptime) (Some crc) (Some op) fc (resp_deleted resp))
          (Some document.1)) ∧
  ∀ stage, check_forward_compat stage fc = Ok None.
Proof.
  intros Hflags He binary fc (f0 & f1 & f2 & f3 & f4 & f5 & f6 & f7 & f8 & f9 & f10 & Hf & H0' & H1 & H2 & H3 & H4 & H5 & H6 & H7 & H8 & H9 & H10).
  split; [|intros stage; unfold fc; destruct (asks_for_binary op flags); [apply binary_accepted|done]].
  assert (Hn : ∀ (i : nat) (f : bytes * Z), [f0; f1; f2; f3; f4; f5; f6; f7; f8; f9; f10] !! i = Some f →
    resp_fields resp !! i = Some f) by (clear -Hf; by rewrite Hf).
  rewrite written_id in H0'. rewrite written_atr in H1. rewrite written_type in H2. rewrite written_restore in H5.
  rewrite written_fc in H6. rewrite written_aux in H9. unfold create_from_subdoc.
  rewrite (read_field_id resp f0 _ _ _ (Hn 0%nat f0 eq_refl) H0'), (read_field_atr resp f1 _ _ (Hn 1%nat f1 eq_refl) H1).
  rewrite (read_field_string resp 2 f2 op (Hn 2%nat f2 eq_refl) H2).
  rewrite (found_holds resp 3 _ f3 (Hn 3%nat f3 eq_refl) H3).
  rewrite (read_field_string resp 4 f4 crc (Hn 4%nat f4 eq_refl) H4).
  rewrite (read_field_restore resp f5 m (Hn 5%nat f5 eq_refl) H5 He).
  rewrite (read_field_fc resp f6 _ (Hn 6%nat f6 eq_refl) H6).
  rewrite (read_field_document resp f7 document (Hn 7%nat f7 eq_refl) H7).
  rewrite (found_holds resp 8 _ f8 (Hn 8%nat f8 eq_refl) H8).
  rewrite (read_field_flags resp f9 flags (Hn 9%nat f9 eq_refl) H9 Hflags).
  rewrite (found_holds resp 10 _ f10 (Hn 10%nat f10 eq_refl) H10).
  cbn [mbind outcome_bind default]. destruct (restored m) as [[cas revid] exptime] eqn:Hr.
  unfold fc. destruct binary, staged, m as [md|]; cbn in Hr; injection Hr as <- <- <-; reflexivity.
Qed.

(** ** Documents named in a record *)

Definition documents_json (t : staged_mutation_type) (queue : staged_mutation_queue) : json :=
  JArray (map (λ o, JObject (json_members (map (λ f, (f.1, JString f.2)) o))) (documents_of t queue)).

Lemma doc_record_read id :
  doc_record_create_from (json_members (map (λ f, (f.1, JString f.2)) (document_fields id))) =
    Ok (document_id_in (id_bucket id) (id_scope id) (id_collection id) (id_key id)).
Proof. by vm_compute. Qed.

(** The documents that [extract_to] writes into the record when an attempt
    commits or aborts are those the cleaning of the record reads: for each
    kind the staged documents of this kind, in their order. *)
Theorem record_documents_roundtrip `{Json} t queue key entry :
  (key, t) ∈ [(ATR_FIELD_DOCS_INSERTED, INSERT); (ATR_FIELD_DOCS_REPLACED, REPLACE); (ATR_FIELD_DOCS_REMOVED, REMOVE)] →
  find_member key entry = Ok (Some (documents_json t queue)) →
  (∀ prefix, ∃ c, c ∈ extract_to prefix queue ∧ sc_path c = prefix ++ key ∧ sc_value c = jsonify (documents_json t queue)) ∧
  ∃ ids, process_document_ids entry key = Ok (Some ids) ∧
    Forall2 (λ m id, document_ids_equal (sm_id m) id = true) (filter (λ m, sm_type m = t) queue) ids.
Proof.
  intros Hk He. split.
  - intros prefix. exists (subdoc_upsert (prefix ++ key) (jsonify (documents_json t queue)) true true false false).
    split; [|done]. unfold extract_to. clear He.
    repeat (apply elem_of_cons in Hk as [[= -> ->]|Hk]); [..|by apply not_elem_of_nil in Hk]; repeat constructor.
  - unfold process_document_ids. rewrite He. cbn [mbind outcome_bind]. unfold documents_json, documents_of.
    generalize (filter (λ m, sm_type m = t) queue). intros ms.
    exists (map (λ m, document_id_in (id_bucket (sm_id m)) (id_scope (sm_id m)) (id_collection (sm_id m)) (id_key (sm_id m))) ms).
    split.
    + rewrite map_map. cbn beta. assert (Hr : doc_records (map (λ m, JObject (json_members (map (λ f, (f.1, JString f.2))
        (document_fields (sm_id m))))) ms) = Ok (map (λ m, document_id_in (id_bucket (sm_id m)) (id_scope (sm_id m))
        (id_collection (sm_id m)) (id_key (sm_id m))) ms)); [|by rewrite Hr].
      induction ms as [|m ms IH]; [done|]. cbn [map doc_records get_object mbind outcome_bind].
      rewrite doc_record_read. cbn [mbind outcome_bind]. by rewrite IH.
    + induction ms as [|m ms IH]; cbn; constructor; [|done]. unfold document_ids_equal. cbn. by rewrite !bool_decide_true.
Qed.

(** ** Requirements of other versions *)

(** A major version that is older than the one supported is refused for its
    minor version, and a version without a minor one is read beyond the end. *)
Lemma protocol_minor_compared :
  let requires p := JObject [(ascii "G", JArray [JObject [(ascii "b", JString (ascii "f")); (ascii "p", JString p)]])] in
  check_forward_compat GETS (Some (requires (ascii "1.5"))) =
    Ok (Some (cause FORWARD_COMPATIBILITY_FAILURE (operation_failed FAIL_OTHER))) ∧
  check_forward_compat GETS (Some (requires (ascii "2.0"))) = Ok None ∧
  check_forward_compat GETS (Some (requires (ascii "2"))) = Fault.
Proof. by vm_compute. Qed.

(** A stage that is not known makes every stage fail. *)
Lemma unknown_stage_throws stage :
  check_forward_compat stage (Some (JObject [(ascii "ZZ", JArray [])])) = Err tt.
Proof. by vm_compute. Qed.

(** ** Examples *)

(** A parser that knows a table of texts *)
Definition table_json (table : list (bytes * json)) : Json := {|
  jsonify _ := [0];
  parse_json v := snd <$> list_find (λ e, e.1 = v) table ≫= λ p, Some p.2;
  as_uint32 j := match j with JNumber n => if (0 <=? n) && (n <? 2 ^ 32) then Some n else None | _ => None end;
  as_int32 j := match j with JNumber n => if (- 2 ^ 31 <=? n) && (n <? 2 ^ 31) then Some n else None | _ => None end;
  as_uint64 j := match j with JNumber n => if (0 <=? n) && (n <? 2 ^ 64) then Some n else None | _ => None end;
|}.

Lemma table_json_laws table : @JsonLaws (table_json table).
Proof.
  intros n Hn. cbn -[Z.pow]. destruct (Z.leb_spec 0 n); [|lia]. by destruct (Z.ltb_spec n (2 ^ 32)); [|lia].
Qed.

(** A binary document [k] that attempt [97] of transaction [116] inserts, its
    record being [r], and the answer that shows it *)
Definition example_txn : json :=
  create_document_metadata (ascii "insert") [111] None binary_common_flags [116] [97] [114] (Some (document_id_of_key [98] [114])).
Definition example_document : json :=
  JObject [(ascii "CAS", JString [1]); (ascii "exptime", JNumber 0); (ascii "flags", JNumber 5); (ascii "revid", JString [2]);
           (ascii "value_crc32c", JString [3])].
Definition example_fields : list (option json) :=
  [member_at [ascii "id"] example_txn; member_at [ascii "atr"] example_txn; member_at [ascii "op"; ascii "type"] example_txn;
   None; Some (JString [9]); member_at [ascii "restore"] example_txn; member_at [ascii "fc"] example_txn;
   Some example_document; None; member_at [ascii "aux"] example_txn; None].
Definition example_table : list (bytes * json) := imap (λ i m, ([Z.of_nat i], default JNull m)) example_fields.
Definition example_response : response :=
  Response None None 7 true
    (<[8%nat := ([10; 11], 0)]> (imap (λ (i : nat) m, ([Z.of_nat i], if has m then 0 else 192)) example_fields)).
Definition example_json : Json := table_json example_table.

Lemma mutation_cas_roundtrip_witness : is_u64 1500000000000000 ∧ parse_mutation_cas (mutation_cas_text 1500000000000000) = Ok 1500000000.
Proof. split; [unfold is_u64, in_width; lia|]. apply (mutation_cas_roundtrip 1500000000000000). unfold is_u64, in_width. lia. Defined.

Lemma staged_metadata_roundtrip_witness :
  ∃ d, @create_from_subdoc example_json (document_id_of_key [98] [107]) example_response = Ok d ∧
    tl_staged_content_binary (tg_links d) = Some (EncodedValue [10; 11] binary_common_flags) ∧
    tl_staged_attempt_id (tg_links d) = Some [97] ∧ tl_atr_id (tg_links d) = Some [114].
Proof.
  destruct (@staged_metadata_roundtrip example_json (table_json_laws _) (ascii "insert") [111] None binary_common_flags [116] [97]
    (document_id_of_key [98] [114]) (document_id_of_key [98] [107]) (Some [10; 11]) [9]
    (DocumentMetadata (Some [1]) (Some [2]) (Some 0) (Some [3]), 5) None example_response) as [Hd _].
  - unfold is_u32, in_width, binary_common_flags. by vm_compute.
  - by intros.
  - do 11 eexists. split; [vm_compute; reflexivity|]. repeat split; try by vm_compute.
  - eexists. split; [exact Hd|]. by vm_compute.
Defined.

Definition example_mutation : staged_mutation := StagedMutation INSERT (document_id_of_key [98] [107]) 7 (Some [10]) 0 0 None.
Lemma record_documents_roundtrip_witness :
  ∃ ids, process_document_ids (JObject [(ATR_FIELD_DOCS_INSERTED, documents_json INSERT [example_mutation])]) ATR_FIELD_DOCS_INSERTED =
      Ok (Some ids) ∧
    Forall2 (λ m id, document_ids_equal (sm_id m) id = true) [example_mutation] ids.
Proof.
  destruct (@record_documents_roundtrip example_json INSERT [example_mutation] ATR_FIELD_DOCS_INSERTED
    (JObject [(ATR_FIELD_DOCS_INSERTED, documents_json INSERT [example_mutation])])) as [_ Hids].
  - apply elem_of_cons. by left.
  - by vm_compute.
  - exact Hids.
Defined.
