(* ===== verification/SubdocOps.v ===== *)
(** * Sub-document operations: [core/operations/document_lookup_in.cxx] and
      [document_mutate_in.cxx]

    The specs of the caller are reordered for the wire, extended attributes
    first, and the fields of a response are put back into the order of the
    caller. *)

From stdpp Require Import sorting.
From S2P Require Import Prelude ByteOrder Protocol McbpParser ClientRequest ClientResponse Commands Transactions.

(** ** Sorting: [std::stable_sort] and [std::sort] with a comparison *)

Section sort.
Context {A : Type} (less : A → A → bool).

(** [x] before the first element that is not less *)
Fixpoint insert_sorted (x : A) (l : list A) : list A :=
  match l with
  | [] => [x]
  | y :: l' => if less y x then y :: insert_sorted x l' else x :: y :: l'
  end.

Definition sort (l : list A) : list A := foldr insert_sorted [] l.
End sort.

(** ** Specs *)

(** [impl::subdoc::command] with [original_index_] *)
Record spec := Spec { sp_command : subdoc_command; sp_index : nat }.

Definition has_xattr_path_flag (flags : Z) : bool := bool_decide (Z.land flags path_flag_xattr = path_flag_xattr).
Definition has_binary_value_path_flag (flags : Z) : bool :=
  bool_decide (Z.land flags path_flag_binary_value = path_flag_binary_value).
Definition reset_binary_value_path_flag (flags : Z) : Z := Z.land flags (u8 (Z.lnot path_flag_binary_value)).

(** The loop of [encode_to]: [binary_xattr] is the feature of the session. *)
Definition prepare_spec (binary_xattr : bool) (i : nat) (c : subdoc_command) : spec :=
  let flags := if has_binary_value_path_flag (sc_flags c) && negb binary_xattr
               then reset_binary_value_path_flag (sc_flags c) else sc_flags c in
  Spec (SubdocCommand (sc_opcode c) (sc_path c) (sc_value c) flags) i.

Definition is_xattr (s : spec) : bool := has_xattr_path_flag (sc_flags (sp_command s)).

Definition prepare_specs (binary_xattr : bool) (cs : list subdoc_command) : list spec :=
  sort (λ lhs rhs, is_xattr lhs && negb (is_xattr rhs)) (imap (prepare_spec binary_xattr) cs).

(** ** Requests *)

(** Features of the session that [encode_to] asks for *)
Record features := Features { subdoc_create_as_deleted : bool; subdoc_binary_xattr : bool }.

Record lookup_in_operation := LookupInOperation {
  lo_id : document_id;
  lo_partition : Z;
  lo_opaque : Z;
  lo_access_deleted : bool;
  lo_specs : list subdoc_command;
}.

(** What is set in the encoded request, and the specs that are kept *)
Record encoded_lookup_in := EncodedLookupIn {
  el_opaque : Z;
  el_partition : Z;
  el_id : document_id;
  el_access_deleted : bool;
  el_specs : list spec;
}.

Definition lookup_in_encode_to (fs : features) (o : lookup_in_operation) : outcome error_code encoded_lookup_in :=
  if bool_decide (lo_specs o = []) then Err (errc_common Common.invalid_argument)
  else Ok (EncodedLookupIn (lo_opaque o) (lo_partition o) (lo_id o) (lo_access_deleted o)
             (prepare_specs (subdoc_binary_xattr fs) (lo_specs o))).

(** The command keeps its request: when it is sent again, [encode_to] finds
    the specs as the first call has left them. *)
Definition resent_specs (binary_xattr : bool) (specs : list spec) : list spec :=
  prepare_specs binary_xattr (map sp_command specs).

(** The specs of the request after it was encoded once and [retries] times more *)
Fixpoint encoded_specs (binary_xattr : bool) (retries : nat) (cs : list subdoc_command) : list spec :=
  match retries with
  | O => prepare_specs binary_xattr cs
  | S n => resent_specs binary_xattr (encoded_specs binary_xattr n cs)
  end.

Record mutate_in_operation := MutateInOperation {
  mo_id : document_id;
  mo_partition : Z;
  mo_opaque : Z;
  mo_cas : Z;
  mo_access_deleted : bool;
  mo_create_as_deleted : bool;
  mo_revive_document : bool;
  mo_expiry : option Z;
  mo_store_semantics : store_semantics;
  mo_specs : list subdoc_command;
  mo_preserve_expiry : bool;
  mo_flags : option Z;
}.

Record encoded_mutate_in := EncodedMutateIn {
  em_opaque : Z;
  em_partition : Z;
  em_id : document_id;
  em_cas : Z;
  em_expiry : option Z;
  em_access_deleted : bool;
  em_create_as_deleted : bool;
  em_revive_document : bool;
  em_store_semantics : store_semantics;
  em_specs : list spec;
  em_preserve_expiry : bool;
  em_user_flags : option Z;
}.

Definition mutate_in_encode_to (fs : features) (o : mutate_in_operation) : outcome error_code encoded_mutate_in :=
  match mo_store_semantics o with
  | store_upsert => if decide (mo_cas o ≠ 0) then Err (errc_common Common.invalid_argument) else Ok tt
  | _ => Ok tt
  end ≫= λ _,
  if mo_create_as_deleted o && negb (subdoc_create_as_deleted fs) then
    Err (errc_common Common.unsupported_operation)
  else if bool_decide (mo_specs o = []) then Err (errc_common Common.invalid_argument)
  else
    Ok (EncodedMutateIn (mo_opaque o) (mo_partition o) (mo_id o) (mo_cas o) (mo_expiry o)
          (mo_access_deleted o) (mo_create_as_deleted o) (mo_revive_document o) (mo_store_semantics o)
          (prepare_specs (subdoc_binary_xattr fs) (mo_specs o)) (mo_preserve_expiry o)
          (if subdoc_binary_xattr fs then mo_flags o else None)).

(** ** Responses *)

(** [lookup_in_response::entry] and [mutate_in_response::entry]; the latter
    has no [exists]. *)
Record field := Field {
  f_path : bytes;
  f_value : bytes;
  f_index : nat;
  f_exists : bool;
  f_opcode : Z;
  f_status : Z;
  f_ec : option error_code;
}.

Definition status_success : Z := enum_code Status.success.
Definition status_success_deleted : Z := enum_code Status.subdoc_success_deleted.

Definition new_field (s : spec) : field :=
  Field (sc_path (sp_command s)) [] (sp_index s) false (sc_opcode (sp_command s)) status_success None.

Definition by_index (lhs rhs : field) : bool := bool_decide (f_index lhs < f_index rhs)%nat.

(** The parts of [key_value_error_context] that are read *)
Record context := Context_ { ctx_ec : option error_code; ctx_status_code : option Z; ctx_bucket : bytes }.

(** The response, with the parts of [subdocument_error_context] *)
Record subdoc_response := SubdocResponse {
  rs_ec : option error_code;
  rs_first_error_path : option bytes;
  rs_first_error_index : option Z;
  rs_deleted : bool;
  rs_cas : Z;
  rs_token : option (mutation_token * Z * bytes);
  rs_fields : list field;
}.

Definition is_deleted_status (status : Z) : bool :=
  bool_decide (status = status_success_deleted ∨ status = enum_code Status.subdoc_multi_path_failure_deleted).

(** *** [lookup_in_request::make_response] *)

Section lookup_in.
(** [utils::json::generate_binary] of a boolean *)
Context (generate_bool : bool → bytes).

Definition lookup_field (f : field) (entry : lookup_in_field) : field :=
  let ec := map_status_code (enum_code ClientOpcode.subdoc_multi_mutation) (lf_status entry) in
  let is_exists := bool_decide (f_opcode f = enum_code SubdocOpcode.exists_) in
  let ec := if is_exists && bool_decide (ec = Some (errc_key_value KeyValue.path_not_found)) then None else ec in
  let exists_ := bool_decide (lf_status entry = status_success ∨ lf_status entry = status_success_deleted) in
  Field (f_path f) (if is_exists && negb (has ec) then generate_bool exists_ else lf_value entry)
    (f_index f) exists_ (f_opcode f) (lf_status entry) ec.

(** One entry: the fields, and the index and path of the first error *)
Definition lookup_step (i : nat) (entry : lookup_in_field) (st : list field * option (nat * bytes)) :
    outcome unit (list field * option (nat * bytes)) :=
  let '(fields, first_error) := st in
  f ← at_ fields (Z.of_nat i);
  let f := lookup_field f entry in
  Ok (<[i := f]> fields,
      match first_error with
      | None => if has (f_ec f) then Some (f_index f, f_path f) else None
      | e => e
      end).

Fixpoint lookup_entries (i : nat) (entries : list lookup_in_field) (st : list field * option (nat * bytes)) :
    outcome unit (list field * option (nat * bytes)) :=
  match entries with
  | [] => Ok st
  | entry :: entries => st ← lookup_step i entry st; lookup_entries (S i) entries st
  end.

Definition lookup_in_make_response (ctx : context) (specs : list spec) (status cas : Z)
    (entries : list lookup_in_field) : outcome unit subdoc_response :=
  let deleted := is_deleted_status status in
  if has (ctx_ec ctx) then Ok (SubdocResponse (ctx_ec ctx) None None deleted 0 None [])
  else
    '(fields, first_error) ← lookup_entries 0 entries (map new_field specs, None);
    Ok (SubdocResponse (ctx_ec ctx) (snd <$> first_error) (Z.of_nat ∘ fst <$> first_error) deleted cas None
          (sort by_index fields)).
End lookup_in.

(** *** [mutate_in_request::make_response] *)

(** The loop over the entries, which stops at the first that failed: with
    [ec], the index and the path of the error. *)
Fixpoint mutate_entries (entries : list mutate_in_field) (fields : list field) :
    outcome unit (list field * option (option error_code * Z * bytes)) :=
  match entries with
  | [] => Ok (fields, None)
  | entry :: entries =>
      f ← at_ fields (mf_index entry);
      if decide (mf_status entry = status_success) then
        mutate_entries entries
          (<[Z.to_nat (mf_index entry) := Field (f_path f) (mf_value entry) (f_index f) (f_exists f) (f_opcode f) (f_status f) (f_ec f)]> fields)
      else
        let ec := map_status_code (enum_code ClientOpcode.subdoc_multi_mutation) (mf_status entry) in
        Ok (<[Z.to_nat (mf_index entry) := Field (f_path f) (f_value f) (f_index f) (f_exists f) (f_opcode f) (mf_status entry) ec]> fields,
            Some (ec, mf_index entry, f_path f))
  end.

Definition mutate_in_make_response (ctx : context) (o : mutate_in_operation) (specs : list spec) (status cas : Z)
    (body : mutate_in_body) : outcome unit subdoc_response :=
  let deleted := is_deleted_status status in
  if has (ctx_ec ctx) then
    let ec := match mo_store_semantics o with
              | store_insert =>
                  if decide (ctx_ec ctx = Some (errc_common Common.cas_mismatch) ∨
                             ctx_status_code ctx = Some (enum_code Status.not_stored))
                  then Some (errc_key_value KeyValue.document_exists) else ctx_ec ctx
              | _ => ctx_ec ctx
              end in
    Ok (SubdocResponse ec None None deleted 0 None [])
  else
    '(fields, error) ← mutate_entries (mi_fields body) (map new_field specs);
    let ec := match error with Some (ec, _, _) => ec | None => None end in
    Ok (SubdocResponse ec (snd <$> error) ((λ e, e.1.2) <$> error) deleted (if has ec then 0 else cas)
          (if has ec then None else Some (mi_token body, mo_partition o, ctx_bucket ctx)) (sort by_index fields)).

(** ** Lemmas: sorting *)

Section sort_lemmas.
Context {A : Type}.

Lemma insert_sorted_perm (less : A → A → bool) x l : insert_sorted less x l ≡ₚ x :: l.
Proof.
  induction l as [|y l IH]; cbn [insert_sorted]; [done|]. destruct (less y x); [|done].
  rewrite IH. apply Permutation_swap.
Qed.

Lemma sort_perm (less : A → A → bool) l : sort less l ≡ₚ l.
Proof. induction l as [|x l IH]; [done|]. cbn [sort foldr]. rewrite insert_sorted_perm. by apply perm_skip. Qed.

(** A stable sort by one bit *)
Lemma sort_partition (p : A → bool) l :
  sort (λ x y, p x && negb (p y)) l = filter (λ x, p x = true) l ++ filter (λ x, p x = false) l.
Proof.
  assert (Hskip : ∀ x l l', p x = false → Forall (λ y, p y = true) l → Forall (λ y, p y = false) l' →
    insert_sorted (λ x y, p x && negb (p y)) x (l ++ l') = l ++ x :: l').
  { intros x l1 l2 Hx Hl1 Hl2. induction Hl1 as [|y l1 Hy Hl1 IH]; cbn [app insert_sorted].
    - destruct Hl2 as [|z l2 Hz Hl2]; [done|]. cbn [insert_sorted]. by rewrite Hz.
    - rewrite Hy, Hx. cbn [andb negb]. by rewrite IH. }
  induction l as [|x l IH]; [done|]. cbn [sort foldr]. fold (sort (λ x y, p x && negb (p y)) l). rewrite IH.
  destruct (p x) eqn:Hx.
  - rewrite filter_cons_True, filter_cons_False by (rewrite Hx; done). cbn [app].
    destruct (filter _ l ++ filter _ l) as [|y r] eqn:Hr; cbn [insert_sorted]; [done|].
    by rewrite Hx, andb_false_r.
  - rewrite filter_cons_False, filter_cons_True by (rewrite Hx; done). apply Hskip; [done|apply Forall_forall; by intros y [? _]%list_elem_of_filter..].
Qed.

(** Sorting by a key that runs through the indexes puts them in place. *)
Lemma insert_sorted_sorted (key : A → nat) x l :
  StronglySorted (λ x y, key x ≤ key y)%nat l →
  StronglySorted (λ x y, key x ≤ key y)%nat (insert_sorted (λ x y, bool_decide (key x < key y)%nat) x l).
Proof.
  induction 1 as [|y l Hl IH Hy]; cbn [insert_sorted]; [repeat constructor|].
  case_bool_decide as Hlt.
  - constructor; [done|]. rewrite insert_sorted_perm. constructor; [lia|done].
  - constructor; [by constructor|]. constructor; [lia|]. eapply Forall_impl; [done|]. intros z Hz. cbn in *. lia.
Qed.

Lemma sort_key (key : A → nat) l :
  map key l ≡ₚ seq 0 (length l) → map key (sort (λ x y, bool_decide (key x < key y)%nat) l) = seq 0 (length l).
Proof.
  intros Hl. apply (StronglySorted_unique (≤)%nat).
  - assert (Hs : StronglySorted (λ x y, key x ≤ key y)%nat (sort (λ x y, bool_decide (key x < key y)%nat) l)).
    { clear Hl. induction l as [|x l IH]; [constructor|]. by apply insert_sorted_sorted. }
    clear Hl. induction Hs as [|x l' Hl' IH Hx]; cbn [map]; constructor; [done|]. by apply Forall_map.
  - clear Hl. generalize 0%nat. induction (length l) as [|n IH]; intros i; cbn [seq]; [constructor|].
    constructor; [apply IH|]. apply Forall_forall. intros y [Hy _]%elem_of_seq. lia.
  - rewrite <-Hl. apply Permutation_map, sort_perm.
Qed.

Lemma sort_key_lookup (key : A → nat) l x :
  map key l ≡ₚ seq 0 (length l) → x ∈ l → sort (λ x y, bool_decide (key x < key y)%nat) l !! key x = Some x.
Proof.
  intros Hl Hx. pose proof (sort_key key l Hl) as Hs.
  rewrite <-(sort_perm (λ x y, bool_decide (key x < key y)%nat) l) in Hx. apply list_elem_of_lookup_1 in Hx as [j Hj].
  assert (Hk : map key (sort (λ x y, bool_decide (key x < key y)%nat) l) !! j = Some (key x)) by (by rewrite list_lookup_fmap, Hj).
  rewrite Hs in Hk. apply lookup_seq in Hk as [Hk _]. cbn in Hk. by rewrite Hk.
Qed.
End sort_lemmas.

(** ** Lemmas: specs *)

Lemma prepare_specs_partition b cs :
  let specs := imap (prepare_spec b) cs in
  prepare_specs b cs = filter (λ s, is_xattr s = true) specs ++ filter (λ s, is_xattr s = false) specs.
Proof. apply sort_partition. Qed.

Lemma prepare_specs_perm b cs : prepare_specs b cs ≡ₚ imap (prepare_spec b) cs.
Proof. apply sort_perm. Qed.

Lemma length_prepare_specs b cs : length (prepare_specs b cs) = length cs.
Proof. by rewrite prepare_specs_perm, length_imap. Qed.

Lemma prepare_spec_elem b cs j c : cs !! j = Some c → prepare_spec b j c ∈ prepare_specs b cs.
Proof.
  intros Hj. rewrite prepare_specs_perm. apply list_elem_of_lookup_2 with j. by rewrite list_lookup_imap, Hj.
Qed.

Lemma prepare_specs_indexes b cs : map sp_index (prepare_specs b cs) ≡ₚ seq 0 (length cs).
Proof.
  rewrite prepare_specs_perm. apply reflexive_eq. apply list_eq. intros i.
  change (map sp_index) with (fmap (M:=list) sp_index).
  rewrite list_lookup_fmap, list_lookup_imap. destruct (cs !! i) as [c|] eqn:Hc; cbn.
  - symmetry. apply lookup_seq. split; [done|]. by apply lookup_lt_Some in Hc.
  - symmetry. apply lookup_seq_ge. by apply lookup_ge_None in Hc.
Qed.

Lemma reset_twice b i j c :
  prepare_spec b j (sp_command (prepare_spec b i c)) = Spec (sp_command (prepare_spec b i c)) j.
Proof.
  unfold prepare_spec. cbn [sp_command sc_flags sc_opcode sc_path sc_value].
  destruct (has_binary_value_path_flag (sc_flags c) && negb b) eqn:Hb; [|by rewrite Hb].
  assert (has_binary_value_path_flag (reset_binary_value_path_flag (sc_flags c)) = false) as ->; [|done].
  unfold has_binary_value_path_flag, reset_binary_value_path_flag. rewrite <-Z.land_assoc.
  change (Z.land (u8 (Z.lnot path_flag_binary_value)) path_flag_binary_value) with 0.
  rewrite Z.land_0_r. done.
Qed.

(** Specs that are in order stay where they are, and are numbered anew. *)
Lemma resent_specs_spec b cs :
  resent_specs b (prepare_specs b cs) = imap (λ i s, Spec (sp_command s) i) (prepare_specs b cs).
Proof.
  unfold resent_specs. set (specs := prepare_specs b cs).
  assert (Hspecs : Forall (λ s, ∃ i c, s = prepare_spec b i c) specs).
  { unfold specs. rewrite prepare_specs_perm. apply Forall_forall. intros s Hs.
    apply list_elem_of_lookup_1 in Hs as [i Hi]. rewrite list_lookup_imap in Hi.
    destruct (cs !! i) as [c|] eqn:Hc; [|done]. injection Hi as <-. by exists i, c. }
  assert (Himap : imap (prepare_spec b) (map sp_command specs) = imap (λ i s, Spec (sp_command s) i) specs).
  { change (map sp_command specs) with (sp_command <$> specs). rewrite imap_fmap.
    rewrite Forall_lookup in Hspecs. apply imap_ext. intros i s Hs. cbn.
    destruct (Hspecs i s Hs) as (j & c & ->). apply reset_twice. }
  rewrite prepare_specs_partition, Himap. cbv zeta. unfold specs. clear. rewrite prepare_specs_partition. cbv zeta.
  assert (Hfilter : ∀ (l : list spec) (p : bool) (f : nat → nat), Forall (λ s, is_xattr s = p) l →
    filter (λ s, is_xattr s = p) (imap (λ i s, Spec (sp_command s) (f i)) l) = imap (λ i s, Spec (sp_command s) (f i)) l ∧
    filter (λ s, is_xattr s = negb p) (imap (λ i s, Spec (sp_command s) (f i)) l) = []).
  { intros l p f Hl. revert f. induction Hl as [|s l Hs Hl IH]; intros f; [done|]. cbn [imap].
    destruct (IH (f ∘ S)) as [IH1 IH2]. rewrite filter_cons_True by done.
    rewrite filter_cons_False by (unfold is_xattr in *; cbn [sp_command]; rewrite Hs; by destruct p).
    split; [f_equal; exact IH1|exact IH2]. }
  set (l := imap (prepare_spec b) cs).
  assert (Ht : Forall (λ s, is_xattr s = true) (filter (λ s, is_xattr s = true) l)) by (apply Forall_forall; by intros s [? _]%list_elem_of_filter).
  assert (Hf : Forall (λ s, is_xattr s = false) (filter (λ s, is_xattr s = false) l)) by (apply Forall_forall; by intros s [? _]%list_elem_of_filter).
  rewrite imap_app, !filter_app.
  destruct (Hfilter _ true id Ht) as [H1 H2]. destruct (Hfilter _ false (λ i, length (filter (λ s, is_xattr s = true) l) + i)%nat Hf) as [H3 H4].
  unfold id in H1, H2. cbn [negb] in H2, H4. unfold compose. rewrite H1, H2, H3, H4. by rewrite app_nil_r.
Qed.

(** Sorting a third time changes nothing. *)
Lemma encoded_specs_retried b n cs : encoded_specs b (S n) cs = resent_specs b (prepare_specs b cs).
Proof.
  induction n as [|n IH]; [done|]. cbn [encoded_specs] in *. rewrite IH.
  assert (Hc : map sp_command (resent_specs b (prepare_specs b cs)) = map sp_command (prepare_specs b cs)); [|unfold resent_specs at 1; by rewrite Hc].
  rewrite resent_specs_spec. change (@map spec subdoc_command) with (fmap (M:=list) (A:=spec) (B:=subdoc_command)).
  rewrite fmap_imap. apply list_eq. intros i. rewrite list_lookup_imap, list_lookup_fmap. by destruct (prepare_specs b cs !! i).
Qed.

(** ** Lemmas: the fields of a response *)

Section lookup_lemmas.
Context (gb : bool → bytes).

Lemma lookup_entries_spec i entries fields err :
  (i + length entries ≤ length fields)%nat →
  ∃ fields' err', lookup_entries gb i entries (fields, err) = Ok (fields', err') ∧ length fields' = length fields ∧
    (∀ k, (k < i)%nat → fields' !! k = fields !! k) ∧
    (∀ k entry f, entries !! k = Some entry → fields !! (i + k)%nat = Some f → fields' !! (i + k)%nat = Some (lookup_field gb f entry)).
Proof.
  revert i fields err. induction entries as [|entry entries IH]; intros i fields err Hlen; cbn [lookup_entries].
  { exists fields, err. by split_and!. }
  cbn [length] in Hlen. destruct (fields !! i) as [f|] eqn:Hf; [|apply lookup_ge_None in Hf; lia].
  unfold lookup_step. rewrite (at_Some _ _ f) by (rewrite ?Nat2Z.id; done || lia). cbn [mbind outcome_bind].
  destruct (IH (S i) (<[i := lookup_field gb f entry]> fields)
    match err with None => if has (f_ec (lookup_field gb f entry)) then Some (f_index (lookup_field gb f entry), f_path (lookup_field gb f entry)) else None | e => e end)
    as (fields' & err' & Hr & Hl & Hlow & Hhigh); [rewrite length_insert; lia|].
  exists fields', err'. split; [exact Hr|]. rewrite length_insert in Hl. split; [done|]. split.
  - intros k Hk. rewrite Hlow by lia. by rewrite list_lookup_insert_ne by lia.
  - intros [|k] entry' f' He Hf'; cbn in He.
    + simplify_eq. rewrite Nat.add_0_r in *. simplify_eq. rewrite Hlow by lia.
      by rewrite list_lookup_insert_eq by (by eapply lookup_lt_Some).
    + rewrite <-Nat.add_succ_comm in *. apply Hhigh; [done|]. by rewrite list_lookup_insert_ne by lia.
Qed.

(** An entry without a spec is written behind the end of the vector. *)
Lemma lookup_entries_fault i entries fields err :
  (i ≤ length fields)%nat → (length fields < i + length entries)%nat → lookup_entries gb i entries (fields, err) = Fault.
Proof.
  revert i fields err. induction entries as [|entry entries IH]; intros i fields err Hi Hlen; cbn [length lookup_entries] in *; [lia|].
  unfold lookup_step. destruct (decide (i = length fields)) as [->|Hne].
  - by rewrite at_out by (unfold zsize; lia).
  - destruct (fields !! i) as [f|] eqn:Hf; [|apply lookup_ge_None in Hf; lia].
    rewrite (at_Some _ _ f) by (rewrite ?Nat2Z.id; done || lia). cbn [mbind outcome_bind].
    apply IH; rewrite length_insert; lia.
Qed.

Lemma map_new_field_index specs : map f_index (map new_field specs) = map sp_index specs.
Proof. by rewrite map_map. Qed.

Lemma fields_indexes fields specs :
  length fields = length specs →
  (∀ k s, specs !! k = Some s → ∃ f, fields !! k = Some f ∧ f_index f = sp_index s) →
  map f_index fields = map sp_index specs.
Proof.
  intros Hl Hf. apply list_eq. intros k. change (@map field nat) with (fmap (M:=list) (A:=field) (B:=nat)).
  change (@map spec nat) with (fmap (M:=list) (A:=spec) (B:=nat)). rewrite !list_lookup_fmap.
  destruct (specs !! k) as [s|] eqn:Hs; cbn.
  - destruct (Hf k s Hs) as (f & -> & <-). done.
  - apply lookup_ge_None in Hs. rewrite <-Hl in Hs. apply lookup_ge_None in Hs. by rewrite Hs.
Qed.

(** The fields sorted by the index of the caller *)
Lemma sort_fields fields b cs f :
  map f_index fields = map sp_index (prepare_specs b cs) → f ∈ fields →
  sort by_index fields !! f_index f = Some f ∧ length (sort by_index fields) = length cs.
Proof.
  intros Hidx Hf. assert (Hlen : length fields = length cs).
  { apply (f_equal length) in Hidx. rewrite !length_map in Hidx. by rewrite Hidx, length_prepare_specs. }
  split; [|by rewrite sort_perm]. apply (sort_key_lookup f_index); [|done]. rewrite Hidx, Hlen. apply prepare_specs_indexes.
Qed.
End lookup_lemmas.

(** ** The claims *)

Lemma lookup_fields_in_order gb b cs ctx status cas entries :
  ctx_ec ctx = None → length entries = length cs → cs ≠ [] →
  ∃ r, lookup_in_make_response gb ctx (prepare_specs b cs) status cas entries = Ok r ∧
    length (rs_fields r) = length cs ∧ rs_cas r = cas ∧
    ∀ j c, cs !! j = Some c → ∃ k entry,
      prepare_specs b cs !! k = Some (prepare_spec b j c) ∧ entries !! k = Some entry ∧
      rs_fields r !! j = Some (lookup_field gb (new_field (prepare_spec b j c)) entry).
Proof.
  intros Hec Hlen Hne. set (specs := prepare_specs b cs).
  assert (Hspecs : length specs = length cs) by apply length_prepare_specs.
  destruct (lookup_entries_spec gb 0 entries (map new_field specs) None) as (fields & err & Hr & Hl & _ & Hf);
    [rewrite length_map; lia|]. cbn in Hf. rewrite length_map in Hl.
  assert (Hnew : ∀ k s, specs !! k = Some s → map new_field specs !! k = Some (new_field s)).
  { intros k s Hs. change (@map spec field) with (fmap (M:=list) (A:=spec) (B:=field)). by rewrite list_lookup_fmap, Hs. }
  assert (Hentry : ∀ k s, specs !! k = Some s → ∃ entry, entries !! k = Some entry ∧
    fields !! k = Some (lookup_field gb (new_field s) entry)).
  { intros k s Hs. destruct (entries !! k) as [entry|] eqn:He.
    - exists entry. split; [done|]. by apply Hf; [|apply Hnew].
    - apply lookup_ge_None in He. apply lookup_lt_Some in Hs. lia. }
  assert (Hidx : map f_index fields = map sp_index specs).
  { apply fields_indexes; [done|]. intros k s Hs. destruct (Hentry k s Hs) as (entry & _ & Hk). by eexists. }
  unfold lookup_in_make_response. rewrite Hec. cbn [has]. fold specs. rewrite Hr. cbn [mbind outcome_bind].
  eexists. split; [done|]. cbn [rs_fields rs_cas].
  assert (Hget : ∀ j c, cs !! j = Some c → ∃ k entry, specs !! k = Some (prepare_spec b j c) ∧ entries !! k = Some entry ∧
    sort by_index fields !! j = Some (lookup_field gb (new_field (prepare_spec b j c)) entry) ∧
    length (sort by_index fields) = length cs).
  { intros j c Hj. apply (prepare_spec_elem b) in Hj. apply list_elem_of_lookup_1 in Hj as [k Hk].
    destruct (Hentry k _ Hk) as (entry & He & Hfk). exists k, entry. split; [done|]. split; [done|].
    apply list_elem_of_lookup_2 in Hfk. by apply (sort_fields fields b cs) in Hfk. }
  destruct cs as [|c cs]; [done|]. split; [by destruct (Hget 0%nat c eq_refl) as (k & e & _ & _ & _ & ?)|]. split; [done|].
  intros j c' Hj. destruct (Hget j c' Hj) as (k & e & ? & ? & ? & _). by exists k, e.
Qed.

Lemma resent_fields_in_order gb b cs ctx status cas entries :
  ctx_ec ctx = None → length entries = length cs → cs ≠ [] →
  ∃ r, lookup_in_make_response gb ctx (resent_specs b (prepare_specs b cs)) status cas entries = Ok r ∧
    length (rs_fields r) = length cs ∧ rs_cas r = cas ∧
    ∀ k s, prepare_specs b cs !! k = Some s → ∃ entry,
      entries !! k = Some entry ∧ rs_fields r !! k = Some (lookup_field gb (new_field (Spec (sp_command s) k)) entry).
Proof.
  intros Hec Hlen Hne. set (cs' := map sp_command (prepare_specs b cs)).
  assert (Hl : length cs' = length cs) by (unfold cs'; by rewrite length_map, length_prepare_specs).
  destruct (lookup_fields_in_order gb b cs' ctx status cas entries) as (r & Hr & Hlr & Hcas & Hf); [done|lia|by destruct cs', cs|].
  exists r. split; [exact Hr|]. split; [lia|]. split; [done|]. intros k s Hs.
  assert (Hk : cs' !! k = Some (sp_command s)).
  { change cs' with (sp_command <$> prepare_specs b cs). by rewrite list_lookup_fmap, Hs. }
  destruct (Hf _ _ Hk) as (j & entry & Hj & He & Hfield). fold (resent_specs b (prepare_specs b cs)) in Hj.
  change (prepare_specs b cs') with (resent_specs b (prepare_specs b cs)) in Hj.
  rewrite resent_specs_spec, list_lookup_imap in Hj.
  assert (Hmap : prepare_spec b k (sp_command s) = Spec (sp_command s) k).
  { apply list_elem_of_lookup_2 in Hs. rewrite prepare_specs_perm in Hs. apply list_elem_of_lookup_1 in Hs as [i Hi].
    rewrite list_lookup_imap in Hi. destruct (cs !! i); [|done]. injection Hi as <-. apply reset_twice. }
  rewrite Hmap in *. destruct (prepare_specs b cs !! j) as [s'|]; [|done]. injection Hj as _ ->. by exists entry.
Qed.

(** What an entry of the response says about a spec of the caller: a spec that
    asks whether a path exists gets the answer as its value, unless the entry
    has another error than that the path is missing; every other spec gets the
    value and the error of the entry. *)
Definition field_tells (gb : bool → bytes) (c : subdoc_command) (entry : lookup_in_field) (f : field) : Prop :=
  let error := map_status_code (enum_code ClientOpcode.subdoc_multi_mutation) (lf_status entry) in
  let asks := sc_opcode c = enum_code SubdocOpcode.exists_ in
  let missing := Some (errc_key_value KeyValue.path_not_found) in
  f_path f = sc_path c ∧ f_opcode f = sc_opcode c ∧ f_status f = lf_status entry ∧
  (f_exists f = true ↔ lf_status entry = status_success ∨ lf_status entry = status_success_deleted) ∧
  (asks → error = None ∨ error = missing → f_ec f = None ∧ f_value f = gb (f_exists f)) ∧
  (asks → error ≠ None → error ≠ missing → f_ec f = error ∧ f_value f = lf_value entry) ∧
  (¬ asks → f_ec f = error ∧ f_value f = lf_value entry).

Lemma lookup_field_tells gb b i j c entry :
  field_tells gb c entry (lookup_field gb (new_field (Spec (sp_command (prepare_spec b i c)) j)) entry).
Proof.
  unfold field_tells, lookup_field. cbn [new_field sp_command sp_index prepare_spec sc_path sc_opcode f_path f_opcode f_status f_exists f_ec f_value f_index].
  set (error := map_status_code _ _). split_and!; try done.
  - by rewrite bool_decide_eq_true.
  - intros Ha He. rewrite (bool_decide_true (sc_opcode c = _)) by done. cbn [andb].
    destruct He as [He|He]; rewrite He; [by rewrite bool_decide_false by done|by rewrite bool_decide_true by done].
  - intros Ha Hn Hm. rewrite (bool_decide_true (sc_opcode c = _)) by done. cbn [andb].
    rewrite bool_decide_false by done. by destruct error.
  - intros Ha. by rewrite (bool_decide_false (sc_opcode c = _)) by done.
Qed.

(** C38: The fields of a lookup, for any list of specs that was encoded once
    and [retries] times more, answered with an entry for every spec.  The specs
    go on the wire with the extended attributes first, each group in the order
    of the caller.  Every spec of the caller has one entry, at its place on the
    wire, and one field, which tells what the entry says about it
    ([field_tells]); when the specs were encoded once the field is at the place
    of the spec in the list of the caller, and after a retry it is at its place
    on the wire. *)
Theorem lookup_in_caller_order gb b cs retries ctx status cas entries :
  ctx_ec ctx = None → length entries = length cs → cs ≠ [] →
  let numbered := imap (prepare_spec b) cs in
  let wire := filter (λ s, is_xattr s = true) numbered ++ filter (λ s, is_xattr s = false) numbered in
  map sp_command (encoded_specs b retries cs) = map sp_command wire ∧
  ∃ r, lookup_in_make_response gb ctx (encoded_specs b retries cs) status cas entries = Ok r ∧
    length (rs_fields r) = length cs ∧ rs_cas r = cas ∧
    ∀ j c, cs !! j = Some c → ∃ k entry f,
      wire !! k = Some (prepare_spec b j c) ∧ entries !! k = Some entry ∧
      rs_fields r !! (if decide (retries = 0%nat) then j else k) = Some f ∧ field_tells gb c entry f.
Proof.
  intros Hec Hlen Hne. cbv zeta. pose proof (prepare_specs_partition b cs) as Hp. cbv zeta in Hp. rewrite <-Hp. destruct retries as [|n].
  - split; [done|]. destruct (lookup_fields_in_order gb b cs ctx status cas entries) as (r & Hr & Hl & Hc & Hf); [done..|].
    exists r. split_and!; [done..|]. intros j c Hj. destruct (Hf j c Hj) as (k & entry & Hk & He & Hfield).
    exists k, entry, (lookup_field gb (new_field (prepare_spec b j c)) entry). split_and!; [done|done|by rewrite decide_True by done|].
    exact (lookup_field_tells gb b j j c entry).
  - rewrite encoded_specs_retried. split.
    { rewrite resent_specs_spec. change (@map spec subdoc_command) with (fmap (M:=list) (A:=spec) (B:=subdoc_command)).
      rewrite fmap_imap. apply list_eq. intros i. rewrite list_lookup_imap, list_lookup_fmap. by destruct (prepare_specs b cs !! i). }
    destruct (resent_fields_in_order gb b cs ctx status cas entries) as (r & Hr & Hl & Hc & Hf); [done..|].
    exists r. split_and!; [done..|]. intros j c Hj. apply (prepare_spec_elem b) in Hj. apply list_elem_of_lookup_1 in Hj as [k Hk].
    destruct (Hf k _ Hk) as (entry & He & Hfield).
    exists k, entry, (lookup_field gb (new_field (Spec (sp_command (prepare_spec b j c)) k)) entry).
    split_and!; [done|done|by rewrite decide_False by done|]. apply lookup_field_tells.
Qed.

(** When a lookup is sent again its specs are numbered anew, in the order
    in which the first attempt has left them: the fields of the response are
    then in the order of the wire, extended attributes first, and not in that
    of the caller. *)
Theorem retried_lookup_in_wire_order gb b cs ctx status cas entries :
  ctx_ec ctx = None → length entries = length cs → cs ≠ [] →
  ∃ r, lookup_in_make_response gb ctx (resent_specs b (prepare_specs b cs)) status cas entries = Ok r ∧
    length (rs_fields r) = length cs ∧
    ∀ k s, prepare_specs b cs !! k = Some s → ∃ entry,
      entries !! k = Some entry ∧ rs_fields r !! k = Some (lookup_field gb (new_field (Spec (sp_command s) k)) entry).
Proof.
  intros Hec Hlen Hne. destruct (resent_fields_in_order gb b cs ctx status cas entries) as (r & ? & ? & _ & ?); [done..|]. by exists r.
Qed.

(** [f] with the value of an entry *)
Definition with_value (v : bytes) (f : field) : field :=
  Field (f_path f) v (f_index f) (f_exists f) (f_opcode f) (f_status f) (f_ec f).

Lemma mutate_entries_success n entries fields :
  length fields = n →
  Forall (λ e, mf_status e = status_success ∧ 0 ≤ mf_index e < Z.of_nat n) entries →
  NoDup (map mf_index entries) →
  ∃ fields', mutate_entries entries fields = Ok (fields', None) ∧ length fields' = n ∧
    (∀ k, Z.of_nat k ∉ map mf_index entries → fields' !! k = fields !! k) ∧
    (∀ e k f, e ∈ entries → mf_index e = Z.of_nat k → fields !! k = Some f → fields' !! k = Some (with_value (mf_value e) f)).
Proof.
  revert fields. induction entries as [|e entries IH]; intros fields Hl Hok Hnd; cbn [mutate_entries].
  { exists fields. split_and!; try done. intros e k f He. by apply not_elem_of_nil in He. }
  apply Forall_cons in Hok as [[Hs Hi] Hok]. cbn [map] in Hnd. apply NoDup_cons in Hnd as [Hnot Hnd].
  destruct (fields !! Z.to_nat (mf_index e)) as [f|] eqn:Hf; [|apply lookup_ge_None in Hf; lia].
  rewrite (at_Some _ _ f) by (done || lia). cbn [mbind outcome_bind]. rewrite decide_True by done.
  destruct (IH (<[Z.to_nat (mf_index e):=with_value (mf_value e) f]> fields)) as (fields' & Hr & Hl' & Hother & Hin);
    [by rewrite length_insert|done|done|].
  exists fields'. split; [exact Hr|]. split; [done|]. split.
  - intros k Hk. cbn [map] in Hk. apply not_elem_of_cons in Hk as [Hk1 Hk2]. rewrite Hother by done.
    by rewrite list_lookup_insert_ne by lia.
  - intros e' k f' [->|He']%elem_of_cons Hk Hf'.
    + rewrite Hother by (by rewrite <-Hk). rewrite Hk, Nat2Z.id in *. simplify_eq.
      by rewrite list_lookup_insert_eq by (by eapply lookup_lt_Some).
    + apply Hin; [done|done|]. rewrite list_lookup_insert_ne; [done|].
      intros Heq. apply Hnot. rewrite list_elem_of_fmap. exists e'. split; [lia|done].
Qed.

(** When every mutation succeeded, the fields are in the order of the
    caller: the field with the index of a spec has its path, and the value of
    the entry that names the place of this spec on the wire. *)
Theorem mutate_in_caller_order b cs ctx o status cas body :
  ctx_ec ctx = None → cs ≠ [] →
  Forall (λ e, mf_status e = status_success ∧ 0 ≤ mf_index e < zsize cs) (mi_fields body) →
  NoDup (map mf_index (mi_fields body)) →
  ∃ r, mutate_in_make_response ctx o (prepare_specs b cs) status cas body = Ok r ∧
    rs_ec r = None ∧ rs_cas r = cas ∧ length (rs_fields r) = length cs ∧
    ∀ j c, cs !! j = Some c → ∃ k v,
      prepare_specs b cs !! k = Some (prepare_spec b j c) ∧
      rs_fields r !! j = Some (with_value v (new_field (prepare_spec b j c))) ∧
      (∀ e, e ∈ mi_fields body → mf_index e = Z.of_nat k → mf_value e = v) ∧
      (Z.of_nat k ∉ map mf_index (mi_fields body) → v = []).
Proof.
  intros Hec Hne Hok Hnd. set (specs := prepare_specs b cs).
  assert (Hspecs : length specs = length cs) by apply length_prepare_specs.
  assert (Hnew : ∀ k s, specs !! k = Some s → map new_field specs !! k = Some (new_field s)).
  { intros k s Hs. change (@map spec field) with (fmap (M:=list) (A:=spec) (B:=field)). by rewrite list_lookup_fmap, Hs. }
  destruct (mutate_entries_success (length cs) (mi_fields body) (map new_field specs)) as (fields & Hr & Hl & Hother & Hin);
    [by rewrite length_map|done|done|].
  assert (Hfield : ∀ k s, specs !! k = Some s → ∃ v, fields !! k = Some (with_value v (new_field s)) ∧
    (∀ e, e ∈ mi_fields body → mf_index e = Z.of_nat k → mf_value e = v) ∧
    (Z.of_nat k ∉ map mf_index (mi_fields body) → v = [])).
  { intros k s Hs. apply Hnew in Hs. destruct (decide (Z.of_nat k ∈ map mf_index (mi_fields body))) as [Hk|Hk].
    - rewrite list_elem_of_fmap in Hk. destruct Hk as (e & He & Hein). exists (mf_value e).
      assert (Hv := Hin e k _ Hein (eq_sym He) Hs). split; [done|]. split; [|by rewrite list_elem_of_fmap; intros []; exists e].
      intros e' He' Hk'. assert (Hv' := Hin e' k _ He' Hk' Hs). rewrite Hv in Hv'. by injection Hv'.
    - exists []. rewrite Hother by done. split; [done|]. split; [|done].
      intros e He Hk'. destruct Hk. rewrite list_elem_of_fmap. by exists e. }
  assert (Hidx : map f_index fields = map sp_index specs).
  { apply fields_indexes; [lia|]. intros k s Hs. destruct (Hfield k s Hs) as (v & Hv & _). by eexists. }
  unfold mutate_in_make_response. rewrite Hec. cbn [has]. fold specs. rewrite Hr. cbn [mbind outcome_bind has].
  eexists. split; [done|]. cbn [rs_fields rs_cas rs_ec]. split; [done|]. split; [done|].
  assert (Hget : ∀ j c, cs !! j = Some c → ∃ k v, specs !! k = Some (prepare_spec b j c) ∧
    (sort by_index fields !! j = Some (with_value v (new_field (prepare_spec b j c))) ∧ length (sort by_index fields) = length cs) ∧
    (∀ e, e ∈ mi_fields body → mf_index e = Z.of_nat k → mf_value e = v) ∧
    (Z.of_nat k ∉ map mf_index (mi_fields body) → v = [])).
  { intros j c Hj. apply (prepare_spec_elem b) in Hj. apply list_elem_of_lookup_1 in Hj as [k Hk].
    destruct (Hfield k _ Hk) as (v & Hfk & Hv). exists k, v. split; [done|]. split; [|done].
    apply list_elem_of_lookup_2 in Hfk. by apply (sort_fields fields b cs) in Hfk. }
  destruct cs as [|c cs]; [done|]. split; [by destruct (Hget 0%nat c eq_refl) as (k & v & _ & [_ ?] & _)|].
  intros j c' Hj. destruct (Hget j c' Hj) as (k & v & ? & [? _] & ?). by exists k, v.
Qed.

(** The entries of a response are not checked against the specs: a lookup
    with more entries than specs, and a mutation whose first entry has an index
    that is not one of a spec, are written outside of the vector of fields. *)
Theorem subdoc_entries_out_of_bounds gb b cs ctx :
  ctx_ec ctx = None →
  (∀ status cas entries, lookup_in_make_response gb ctx (prepare_specs b cs) status cas entries = Fault ↔
     (length cs < length entries)%nat) ∧
  (∀ o status cas token e entries, zsize cs ≤ mf_index e →
     mutate_in_make_response ctx o (prepare_specs b cs) status cas (MutateInBody (e :: entries) token) = Fault).
Proof.
  intros Hec. assert (Hl : length (map new_field (prepare_specs b cs)) = length cs) by (by rewrite length_map, length_prepare_specs).
  split.
  - intros status cas entries. unfold lookup_in_make_response. rewrite Hec. cbn [has]. split.
    + intros Hf. destruct (decide (length cs < length entries)%nat) as [|Hle]; [done|].
      destruct (lookup_entries_spec gb 0 entries (map new_field (prepare_specs b cs)) None) as (fields & err & Hr & _); [lia|].
      by rewrite Hr in Hf.
    + intros Hlt. by rewrite lookup_entries_fault by lia.
  - intros o status cas token e entries He. unfold mutate_in_make_response. rewrite Hec. cbn [has mi_fields mutate_entries].
    by rewrite at_out by (unfold zsize in *; lia).
Qed.

(** The index reported with the error of a mutation is the place on the wire,
    not the one of the caller: here the second spec fails and moves to the
    front. *)
Definition get_body_then_xattr : list subdoc_command :=
  [SubdocCommand 0 [98] [] 0; SubdocCommand 0 [120] [] path_flag_xattr].

Lemma mutate_error_index_of_wire ctx o :
  ctx_ec ctx = None →
  ∃ r, mutate_in_make_response ctx o (prepare_specs true get_body_then_xattr) 0 7
         (MutateInBody [MutateInField 0 (enum_code Status.subdoc_path_exists) []] empty_token) = Ok r ∧
    rs_first_error_index r = Some 0 ∧ rs_first_error_path r = Some [120] ∧
    (f_path <$> rs_fields r !! 1%nat) = Some [120].
Proof. intros Hec. unfold mutate_in_make_response. rewrite Hec. eexists. split; [reflexivity|]. by vm_compute. Qed.

(** ** Witnesses *)

Definition no_error : context := Context_ None None [].
Definition example_entries : list lookup_in_field := [LookupInField 0 [1]; LookupInField 0 [2]].

Lemma lookup_in_caller_order_witness :
  (∃ r, lookup_in_make_response (λ _, []) no_error (encoded_specs true 0 get_body_then_xattr) 0 7 example_entries = Ok r ∧
    map f_value (rs_fields r) = [[2]; [1]]) ∧
  (∃ r, lookup_in_make_response (λ _, []) no_error (encoded_specs true 3 get_body_then_xattr) 0 7 example_entries = Ok r ∧
    map f_value (rs_fields r) = [[1]; [2]]).
Proof.
  split.
  - destruct (lookup_in_caller_order (λ _, []) true get_body_then_xattr 0 no_error 0 7 example_entries)
      as (_ & r & Hr & _); [done..|]. exists r. split; [done|]. vm_compute in Hr. by injection Hr as <-.
  - destruct (lookup_in_caller_order (λ _, []) true get_body_then_xattr 3 no_error 0 7 example_entries)
      as (_ & r & Hr & _); [done..|]. exists r. split; [done|]. vm_compute in Hr. by injection Hr as <-.
Defined.

Definition example_mutation : mutate_in_operation :=
  MutateInOperation (document_id_of_key [98] [107]) 0 0 0 false false false None store_replace get_body_then_xattr false None.

(** The caller asks for a field of the body and then for an extended
    attribute, and finds them swapped after a retry. *)
Lemma retried_lookup_in_wire_order_witness :
  map f_path <$> (rs_fields <$> lookup_in_make_response (λ _, []) no_error (prepare_specs true get_body_then_xattr) 0 7 example_entries) = Ok [[98]; [120]] ∧
  ∃ r, lookup_in_make_response (λ _, []) no_error (resent_specs true (prepare_specs true get_body_then_xattr)) 0 7 example_entries = Ok r ∧
    map f_path (rs_fields r) = [[120]; [98]] ∧ map f_value (rs_fields r) = [[1]; [2]].
Proof.
  split; [by vm_compute|].
  destruct (retried_lookup_in_wire_order (λ _, []) true get_body_then_xattr no_error 0 7 [LookupInField 0 [1]; LookupInField 0 [2]])
    as (r & Hr & _); [done..|]. exists r. split; [done|]. vm_compute in Hr. by injection Hr as <-.
Defined.

Lemma mutate_in_caller_order_witness :
  ∃ r, mutate_in_make_response no_error example_mutation (prepare_specs true get_body_then_xattr) 0 7
         (MutateInBody [MutateInField 1 0 [2]] empty_token) = Ok r ∧ map f_value (rs_fields r) = [[2]; []].
Proof.
  destruct (mutate_in_caller_order true get_body_then_xattr no_error example_mutation 0 7 (MutateInBody [MutateInField 1 0 [2]] empty_token))
    as (r & Hr & _); [done|done|by repeat constructor|by repeat constructor; set_solver|]. exists r. split; [done|].
  vm_compute in Hr. by injection Hr as <-.
Defined.

Lemma subdoc_entries_out_of_bounds_witness :
  lookup_in_make_response (λ _, []) no_error (prepare_specs true []) 0 7 [LookupInField 0 []] = Fault.
Proof. apply (subdoc_entries_out_of_bounds (λ _, []) true [] no_error eq_refl). cbn. lia. Defined.
