(* ===== verification/Operations.v ===== *)
(** * Key-value operations: [core/operations/document_*.cxx] and
      [core/impl/get_replica.cxx]

    Every operation fills the encoded request ([encode_to]) and builds its
    response ([make_response]); [mcbp_command] keeps the request and the
    encoded request of an operation while it is sent, and sent again.  The
    class [Operation] is what [mcbp_command::send] uses of an operation, the
    class [OperationSpec] states what its packet is. *)

From S2P Require Import Prelude ByteOrder Protocol Leb128 Packet Codec CodecProofs CodecTheorems McbpParser ClientRequest ClientResponse Commands Transactions SubdocOps.

(** ** Setters of the bodies *)

(** The members that all requests have *)
Record target := Target { t_id : document_id; t_partition : Z; t_opaque : Z }.

Definition update_body (f : request_body → request_body) (e : client_request) : client_request :=
  ClientRequest (rq_magic e) (rq_opcode e) (rq_partition e) (rq_opaque e) (rq_cas e) (rq_datatype e) (f (rq_body e)).
Definition set_rb_key (key : bytes) (b : request_body) : request_body :=
  RequestBody key (rb_framing_extras b) (rb_extras b) (rb_value b).
Definition set_rb_frames (fe : bytes) (b : request_body) : request_body :=
  RequestBody (rb_key b) fe (rb_extras b) (rb_value b).
Definition set_rb_extras (extras : bytes) (b : request_body) : request_body :=
  RequestBody (rb_key b) (rb_framing_extras b) extras (rb_value b).

(** [body().id(id)], [content(value)], [preserve_expiry()] and [durability(level, timeout)] *)
Definition body_id (id : document_id) (e : client_request) : outcome error_code client_request :=
  key ← make_protocol_key id;
  Ok (update_body (set_rb_key key) e).

Definition body_content (v : bytes) (e : client_request) : client_request :=
  update_body (λ b, RequestBody (rb_key b) (rb_framing_extras b) (rb_extras b) v) e.

Definition body_preserve_expiry (e : client_request) : outcome error_code client_request :=
  fe ← add_preserve_expiry_frame_info (rb_framing_extras (rq_body e));
  Ok (update_body (set_rb_frames fe) e).

(** [durability_level::none] *)
Definition level_none : Z := 0.

Definition body_durability (level : Z) (timeout : option Z) (e : client_request) : outcome error_code client_request :=
  if decide (level = level_none) then Ok e
  else
    fe ← add_durability_frame_info (rb_framing_extras (rq_body e)) level timeout;
    Ok (update_body (set_rb_frames fe) e).

(** The first lines of every [encode_to] *)
Definition encode_target (t : target) (e : client_request) : outcome error_code client_request :=
  body_id (t_id t) (rq_set_partition (t_partition t) (rq_set_opaque (t_opaque t) e)).

(** [codec_flags::has_common_flags(flags, common_flags::json)] *)
Definition has_json_flags (flags : Z) : bool :=
  negb (extract_common_flags flags =? 0) && (Z.land flags 0x0F000000 =? Z.shiftl 2 24).

Definition set_json (flags : Z) (e : client_request) : client_request :=
  if has_json_flags flags then rq_set_datatype datatype_json e else e.

(** ** What a command needs of an operation *)

Class Operation (R : Type) := {
  op_opcode : ClientOpcode.client_opcode;
  (** [extras_] of a new body *)
  op_new_extras : bytes;
  op_target : R → target;
  op_with_target : target → R → R;
  (** [durability_level], none for requests without it *)
  op_level : R → Z;
  op_encode_to : R → client_request → outcome error_code client_request;
  (** [fill_extras], which [extras()] and [size()] call when [extras_] is empty *)
  op_fill_extras : R → bytes → outcome error_code bytes;
}.

(** A new [encoded] member *)
Definition new_encoded (R : Type) `{Operation R} : client_request :=
  make_request op_opcode (RequestBody [] [] op_new_extras []).

(** The timeout of the durability frame: nine tenths, converted to 16 bits,
    which is not defined for a value that does not fit. *)
Definition durability_timeout (timeout : Z) : outcome error_code Z :=
  if decide (10 * 2 ^ 16 ≤ 9 * timeout) then Fault else Ok (9 * timeout / 10).

Definition body_extras `{Operation R} (r : R) (e : client_request) : outcome error_code client_request :=
  match rb_extras (rq_body e) with
  | [] => extras ← op_fill_extras r []; Ok (update_body (set_rb_extras extras) e)
  | _ => Ok e
  end.

(** [mcbp_command::send] from the call of [encode_to] on; the magic of the
    object, which [data()] upgrades as well, is not read when there are frames. *)
Definition send `{Snappy} `{Operation R} (timeout : Z) (snappy : bool) (r : R) (e : client_request) :
    outcome error_code (client_request * bytes) :=
  e ← op_encode_to r e;
  e ← (if decide (op_level r ≠ level_none) then
         t ← durability_timeout timeout; body_durability (op_level r) (Some t) e
       else Ok e);
  e ← body_extras r e;
  payload ← request_data e snappy;
  Ok (e, payload).

(** The attempts of a command: the opaque is new every time, and the partition
    and the identifier of the collection may be. *)
Fixpoint attempts `{Snappy} `{Operation R} (timeout : Z) (snappy : bool) (r : R) (ts : list target) (e : client_request) :
    outcome error_code (client_request * list bytes) :=
  match ts with
  | [] => Ok (e, [])
  | t :: ts =>
      '(e, w) ← send timeout snappy (op_with_target t r) e;
      '(e, ws) ← attempts timeout snappy r ts e;
      Ok (e, w :: ws)
  end.

(** ** The operations *)

(** *** upsert, insert, replace *)

Record upsert_request := UpsertRequest {
  up_target : target;
  up_value : bytes;
  up_flags : Z;
  up_expiry : Z;
  up_durability_level : Z;
  up_preserve_expiry : bool;
}.

Definition upsert_encode_to (r : upsert_request) (e : client_request) : outcome error_code client_request :=
  e ← encode_target (up_target r) e;
  let e := body_content (up_value r) e in
  e ← (if up_preserve_expiry r then body_preserve_expiry e else Ok e);
  Ok (set_json (up_flags r) e).

#[export] Instance upsert_operation : Operation upsert_request := {|
  op_opcode := ClientOpcode.upsert;
  op_new_extras := [];
  op_target := up_target;
  op_with_target := λ t r, UpsertRequest t (up_value r) (up_flags r) (up_expiry r) (up_durability_level r) (up_preserve_expiry r);
  op_level := up_durability_level;
  op_encode_to := upsert_encode_to;
  op_fill_extras := λ r x, upsert_fill_extras x (up_flags r) (up_expiry r);
|}.

Record insert_request := InsertRequest {
  in_target : target;
  in_value : bytes;
  in_flags : Z;
  in_expiry : Z;
  in_durability_level : Z;
}.

Definition insert_encode_to (r : insert_request) (e : client_request) : outcome error_code client_request :=
  e ← encode_target (in_target r) e;
  Ok (set_json (in_flags r) (body_content (in_value r) e)).

#[export] Instance insert_operation : Operation insert_request := {|
  op_opcode := ClientOpcode.insert;
  op_new_extras := [];
  op_target := in_target;
  op_with_target := λ t r, InsertRequest t (in_value r) (in_flags r) (in_expiry r) (in_durability_level r);
  op_level := in_durability_level;
  op_encode_to := insert_encode_to;
  op_fill_extras := λ r x, insert_fill_extras x (in_flags r) (in_expiry r);
|}.

Record replace_request := ReplaceRequest {
  re_target : target;
  re_value : bytes;
  re_flags : Z;
  re_expiry : Z;
  re_cas : Z;
  re_durability_level : Z;
  re_preserve_expiry : bool;
}.

Definition replace_encode_to (r : replace_request) (e : client_request) : outcome error_code client_request :=
  e ← encode_target (re_target r) (rq_set_cas (re_cas r) e);
  let e := body_content (re_value r) e in
  e ← (if re_preserve_expiry r then body_preserve_expiry e else Ok e);
  Ok (set_json (re_flags r) e).

#[export] Instance replace_operation : Operation replace_request := {|
  op_opcode := ClientOpcode.replace;
  op_new_extras := [];
  op_target := re_target;
  op_with_target := λ t r, ReplaceRequest t (re_value r) (re_flags r) (re_expiry r) (re_cas r) (re_durability_level r) (re_preserve_expiry r);
  op_level := re_durability_level;
  op_encode_to := replace_encode_to;
  op_fill_extras := λ r x, replace_fill_extras x (re_flags r) (re_expiry r);
|}.

(** *** append, prepend, remove *)

Record append_request := AppendRequest {
  ap_target : target;
  ap_value : bytes;
  ap_cas : Z;
  ap_durability_level : Z;
}.

Definition append_encode_to (r : append_request) (e : client_request) : outcome error_code client_request :=
  e ← encode_target (ap_target r) (rq_set_cas (ap_cas r) e);
  Ok (body_content (ap_value r) e).

#[export] Instance append_operation : Operation append_request := {|
  op_opcode := ClientOpcode.append;
  op_new_extras := [];
  op_target := ap_target;
  op_with_target := λ t r, AppendRequest t (ap_value r) (ap_cas r) (ap_durability_level r);
  op_level := ap_durability_level;
  op_encode_to := append_encode_to;
  op_fill_extras := λ _ _, Ok [];
|}.

Record prepend_request := PrependRequest {
  pr_target : target;
  pr_value : bytes;
  pr_cas : Z;
  pr_durability_level : Z;
}.

Definition prepend_encode_to (r : prepend_request) (e : client_request) : outcome error_code client_request :=
  e ← encode_target (pr_target r) (rq_set_cas (pr_cas r) e);
  Ok (body_content (pr_value r) e).

#[export] Instance prepend_operation : Operation prepend_request := {|
  op_opcode := ClientOpcode.prepend;
  op_new_extras := [];
  op_target := pr_target;
  op_with_target := λ t r, PrependRequest t (pr_value r) (pr_cas r) (pr_durability_level r);
  op_level := pr_durability_level;
  op_encode_to := prepend_encode_to;
  op_fill_extras := λ _ _, Ok [];
|}.

Record remove_request := RemoveRequest {
  rm_target : target;
  rm_cas : Z;
  rm_durability_level : Z;
}.

Definition remove_encode_to (r : remove_request) (e : client_request) : outcome error_code client_request :=
  encode_target (rm_target r) (rq_set_cas (rm_cas r) e).

#[export] Instance remove_operation : Operation remove_request := {|
  op_opcode := ClientOpcode.remove;
  op_new_extras := [];
  op_target := rm_target;
  op_with_target := λ t r, RemoveRequest t (rm_cas r) (rm_durability_level r);
  op_level := rm_durability_level;
  op_encode_to := remove_encode_to;
  op_fill_extras := λ _ _, Ok [];
|}.

(** *** increment, decrement *)

(** [initial_value] and [expiry] of the body: without an initial value the
    expiry tells the server not to create the document. *)
Definition counter_defaults (initial_value : option Z) (expiry : Z) : Z * Z :=
  match initial_value with Some v => (v, expiry) | None => (0, 0xffffffff) end.

Record increment_request := IncrementRequest {
  ic_target : target;
  ic_expiry : Z;
  ic_delta : Z;
  ic_initial_value : option Z;
  ic_durability_level : Z;
}.

Definition increment_encode_to (r : increment_request) (e : client_request) : outcome error_code client_request :=
  encode_target (ic_target r) e.

#[export] Instance increment_operation : Operation increment_request := {|
  op_opcode := ClientOpcode.increment;
  op_new_extras := [];
  op_target := ic_target;
  op_with_target := λ t r, IncrementRequest t (ic_expiry r) (ic_delta r) (ic_initial_value r) (ic_durability_level r);
  op_level := ic_durability_level;
  op_encode_to := increment_encode_to;
  op_fill_extras := λ r x,
    let '(initial_value, expiry) := counter_defaults (ic_initial_value r) (ic_expiry r) in
    increment_fill_extras x (ic_delta r) initial_value expiry;
|}.

Record decrement_request := DecrementRequest {
  dc_target : target;
  dc_expiry : Z;
  dc_delta : Z;
  dc_initial_value : option Z;
  dc_durability_level : Z;
}.

Definition decrement_encode_to (r : decrement_request) (e : client_request) : outcome error_code client_request :=
  encode_target (dc_target r) e.

#[export] Instance decrement_operation : Operation decrement_request := {|
  op_opcode := ClientOpcode.decrement;
  op_new_extras := [];
  op_target := dc_target;
  op_with_target := λ t r, DecrementRequest t (dc_expiry r) (dc_delta r) (dc_initial_value r) (dc_durability_level r);
  op_level := dc_durability_level;
  op_encode_to := decrement_encode_to;
  op_fill_extras := λ r x,
    let '(initial_value, expiry) := counter_defaults (dc_initial_value r) (dc_expiry r) in
    decrement_fill_extras x (dc_delta r) initial_value expiry;
|}.

(** *** get, get_replica, exists, unlock, touch, get_and_touch, get_and_lock *)

Record get_request := GetRequest { gt_target : target }.
Definition get_encode_to (r : get_request) (e : client_request) : outcome error_code client_request :=
  encode_target (gt_target r) e.
#[export] Instance get_operation : Operation get_request := {|
  op_opcode := ClientOpcode.get; op_new_extras := []; op_target := gt_target;
  op_with_target := λ t r, GetRequest t; op_level := λ _, level_none;
  op_encode_to := get_encode_to; op_fill_extras := λ _ _, Ok [];
|}.

Record get_replica_request := GetReplicaRequest { gr_target : target }.
Definition get_replica_encode_to (r : get_replica_request) (e : client_request) : outcome error_code client_request :=
  encode_target (gr_target r) e.
#[export] Instance get_replica_operation : Operation get_replica_request := {|
  op_opcode := ClientOpcode.get_replica; op_new_extras := []; op_target := gr_target;
  op_with_target := λ t r, GetReplicaRequest t; op_level := λ _, level_none;
  op_encode_to := get_replica_encode_to; op_fill_extras := λ _ _, Ok [];
|}.

(** The body of [get_meta] has the version of its format as extras. *)
Record exists_request := ExistsRequest { ex_target : target }.
Definition exists_encode_to (r : exists_request) (e : client_request) : outcome error_code client_request :=
  encode_target (ex_target r) e.
#[export] Instance exists_operation : Operation exists_request := {|
  op_opcode := ClientOpcode.get_meta; op_new_extras := [2]; op_target := ex_target;
  op_with_target := λ t r, ExistsRequest t; op_level := λ _, level_none;
  op_encode_to := exists_encode_to; op_fill_extras := λ _ x, Ok x;
|}.

Record unlock_request := UnlockRequest { ul_target : target; ul_cas : Z }.
Definition unlock_encode_to (r : unlock_request) (e : client_request) : outcome error_code client_request :=
  e ← encode_target (ul_target r) e;
  Ok (rq_set_cas (ul_cas r) e).
#[export] Instance unlock_operation : Operation unlock_request := {|
  op_opcode := ClientOpcode.unlock; op_new_extras := []; op_target := ul_target;
  op_with_target := λ t r, UnlockRequest t (ul_cas r); op_level := λ _, level_none;
  op_encode_to := unlock_encode_to; op_fill_extras := λ _ _, Ok [];
|}.

(** The body of [touch] writes its extras when the expiry is set. *)
Record touch_request := TouchRequest { to_target : target; to_expiry : Z }.
Definition touch_encode_to (r : touch_request) (e : client_request) : outcome error_code client_request :=
  e ← encode_target (to_target r) e;
  extras ← touch_expiry (rb_extras (rq_body e)) (to_expiry r);
  Ok (update_body (set_rb_extras extras) e).
#[export] Instance touch_operation : Operation touch_request := {|
  op_opcode := ClientOpcode.touch; op_new_extras := []; op_target := to_target;
  op_with_target := λ t r, TouchRequest t (to_expiry r); op_level := λ _, level_none;
  op_encode_to := touch_encode_to; op_fill_extras := λ _ _, Ok [];
|}.

Record get_and_touch_request := GetAndTouchRequest { gat_target : target; gat_expiry : Z }.
Definition get_and_touch_encode_to (r : get_and_touch_request) (e : client_request) : outcome error_code client_request :=
  encode_target (gat_target r) e.
#[export] Instance get_and_touch_operation : Operation get_and_touch_request := {|
  op_opcode := ClientOpcode.get_and_touch; op_new_extras := []; op_target := gat_target;
  op_with_target := λ t r, GetAndTouchRequest t (gat_expiry r); op_level := λ _, level_none;
  op_encode_to := get_and_touch_encode_to; op_fill_extras := λ r x, get_and_touch_fill_extras x (gat_expiry r);
|}.

Record get_and_lock_request := GetAndLockRequest { gal_target : target; gal_lock_time : Z }.
Definition get_and_lock_encode_to (r : get_and_lock_request) (e : client_request) : outcome error_code client_request :=
  encode_target (gal_target r) e.
#[export] Instance get_and_lock_operation : Operation get_and_lock_request := {|
  op_opcode := ClientOpcode.get_and_lock; op_new_extras := []; op_target := gal_target;
  op_with_target := λ t r, GetAndLockRequest t (gal_lock_time r); op_level := λ _, level_none;
  op_encode_to := get_and_lock_encode_to; op_fill_extras := λ r x, get_and_lock_fill_extras x (gal_lock_time r);
|}.

(** ** Responses *)

(** [utils::build_mutation_token(token, partition, bucket)] *)
Definition build_mutation_token (source : mutation_token) (partition_id : Z) (bucket_name : bytes) : mutation_token * Z * bytes :=
  (source, partition_id, bucket_name).

(** The responses of upsert, insert, replace, append, prepend and remove *)
Record mutation_result := MutationResult {
  mr_ctx : context;
  mr_cas : Z;
  mr_token : option (mutation_token * Z * bytes);
}.

Definition mutation_make_response (t : target) (ctx : context) (encoded : client_response mutation_token) : mutation_result :=
  if has (ctx_ec ctx) then MutationResult ctx 0 None
  else MutationResult ctx (ClientResponse.rs_cas encoded)
         (Some (build_mutation_token (rs_body encoded) (t_partition t) (ctx_bucket ctx))).

Definition upsert_make_response (r : upsert_request) := mutation_make_response (up_target r).
Definition insert_make_response (r : insert_request) := mutation_make_response (in_target r).
Definition replace_make_response (r : replace_request) := mutation_make_response (re_target r).
Definition append_make_response (r : append_request) := mutation_make_response (ap_target r).
Definition prepend_make_response (r : prepend_request) := mutation_make_response (pr_target r).
Definition remove_make_response (r : remove_request) := mutation_make_response (rm_target r).

Record counter_result := CounterResult {
  cr_ctx : context;
  cr_content : Z;
  cr_cas : Z;
  cr_token : option (mutation_token * Z * bytes);
}.

Definition counter_make_response (t : target) (ctx : context) (encoded : client_response counter_body) : counter_result :=
  if has (ctx_ec ctx) then CounterResult ctx 0 0 None
  else CounterResult ctx (counter_content (rs_body encoded)) (ClientResponse.rs_cas encoded)
         (Some (build_mutation_token (counter_token (rs_body encoded)) (t_partition t) (ctx_bucket ctx))).

Definition increment_make_response (r : increment_request) := counter_make_response (ic_target r).
Definition decrement_make_response (r : decrement_request) := counter_make_response (dc_target r).

(** The responses of get, get_replica, get_and_touch and get_and_lock *)
Record document_result := DocumentResult {
  dr_ctx : context;
  dr_value : bytes;
  dr_cas : Z;
  dr_flags : Z;
}.

Definition document_make_response (ctx : context) (encoded : client_response document_body) : document_result :=
  if has (ctx_ec ctx) then DocumentResult ctx [] 0 0
  else DocumentResult ctx (doc_value (rs_body encoded)) (ClientResponse.rs_cas encoded) (doc_flags (rs_body encoded)).

Definition get_make_response := document_make_response.
Definition get_replica_make_response := document_make_response.
Definition get_and_touch_make_response := document_make_response.
Definition get_and_lock_make_response := document_make_response.

(** The responses of touch and unlock *)
Definition cas_make_response {B} (ctx : context) (encoded : client_response B) : context * Z :=
  if has (ctx_ec ctx) then (ctx, 0) else (ctx, ClientResponse.rs_cas encoded).

Definition touch_make_response {B} := @cas_make_response B.
Definition unlock_make_response {B} := @cas_make_response B.

Record exists_result := ExistsResult {
  er_ctx : context;
  er_deleted : bool;
  er_cas : Z;
  er_flags : Z;
  er_expiry : Z;
  er_sequence_number : Z;
  er_datatype : Z;
  er_document_exists : bool;
}.

(** A document that is not found is not an error. *)
Definition exists_make_response (ctx : context) (encoded : client_response get_meta_body) : exists_result :=
  if negb (has (ctx_ec ctx)) then
    let b := rs_body encoded in
    let deleted := bool_decide (gm_deleted b ≠ 0) in
    ExistsResult ctx deleted (ClientResponse.rs_cas encoded) (gm_flags b) (gm_expiry b) (gm_sequence_number b)
      (gm_datatype b) (negb deleted)
  else
    let ctx := if bool_decide (ctx_ec ctx = Some (errc_key_value KeyValue.document_not_found))
               then Context_ None (ctx_status_code ctx) (ctx_bucket ctx) else ctx in
    ExistsResult ctx false 0 0 0 0 0 false.

(** ** What the packets are *)

Definition preserve_frame (b : bool) : bytes := if b then frame_bytes request_preserve_expiry [] else [].

Definition store_extras (flags expiry : Z) : bytes := be_bytes 4 flags ++ be_bytes 4 expiry.
Definition counter_extras (delta : Z) (initial_value : option Z) (expiry : Z) : bytes :=
  match initial_value with
  | Some v => be_bytes 8 delta ++ be_bytes 8 v ++ be_bytes 4 expiry
  | None => be_bytes 8 delta ++ replicate 8 0 ++ replicate 4 255
  end.
(** The common flags are the upper eight bits, and JSON is 2. *)
Definition store_datatype (flags : Z) : Z :=
  if decide (Z.shiftr flags 24 = 2) then datatype_json else datatype_raw.
#[local] Arguments store_extras : simpl never.
#[local] Arguments counter_extras : simpl never.
#[local] Arguments store_datatype : simpl never.

Class OperationSpec (R : Type) `{Operation R} := {
  (** The members are values of their C++ types. *)
  spec_ok : R → Prop;
  spec_datatype : R → Z;
  spec_cas : R → Z;
  spec_extras : R → bytes;
  spec_value : R → bytes;
  spec_preserve : R → bool;
  law_not_random : is_enum (enum_code op_opcode) ClientOpcode.get_random_key = false;
  law_target : ∀ t r, op_target (op_with_target t r) = t;
  law_with_target : ∀ t r, (spec_ok r → spec_ok (op_with_target t r)) ∧ op_level (op_with_target t r) = op_level r ∧
    spec_datatype (op_with_target t r) = spec_datatype r ∧ spec_cas (op_with_target t r) = spec_cas r ∧
    spec_extras (op_with_target t r) = spec_extras r ∧ spec_value (op_with_target t r) = spec_value r ∧
    spec_preserve (op_with_target t r) = spec_preserve r;
  (** [encode_to] on a new encoded request or on one that was sent before *)
  law_encode : ∀ r p o cas dt k fe x v,
    spec_ok r → cas = 0 ∨ cas = byte_swap64 (spec_cas r) → dt = datatype_raw ∨ dt = spec_datatype r →
    x = op_new_extras ∨ x = spec_extras r → v = [] ∨ v = spec_value r →
    ∃ x', match x' with [] => op_fill_extras r [] | _ => Ok x' end = Ok (spec_extras r) ∧
      op_encode_to r (ClientRequest (enum_code Magic.client_request) (enum_code op_opcode) p o cas dt (RequestBody k fe x v)) =
      (key ← make_protocol_key (t_id (op_target r));
       Ok (ClientRequest (enum_code Magic.client_request) (enum_code op_opcode) (t_partition (op_target r))
             (byte_swap32 (t_opaque (op_target r))) (byte_swap64 (spec_cas r)) (spec_datatype r)
             (RequestBody key (fe ++ preserve_frame (spec_preserve r)) x' (spec_value r))));
}.

Lemma fill_store_extras_spec {E} flags expiry :
  is_u32 flags → is_u32 expiry → fill_store_extras (E:=E) [] flags expiry = Ok (store_extras flags expiry).
Proof.
  intros Hf He. unfold fill_store_extras. change (resize_to 8 0 []) with (@nil Z ++ replicate 8 0).
  rewrite !byte_swap32_store by done.
  rewrite store_append by (done || rewrite length_be_bytes; lia). cbn [mbind outcome_bind].
  rewrite store_append by (rewrite ?length_be_bytes; cbn [app]; rewrite ?zsize_be_bytes; lia).
  rewrite !length_be_bytes. cbn [Nat.sub replicate app]. by rewrite app_nil_r.
Qed.

Lemma fill_field32_spec {E} x field :
  is_u32 field → x = [] ∨ zsize x = 4 → fill_field32 (E:=E) x field = Ok (be_bytes 4 field).
Proof.
  intros Hf Hx. unfold fill_field32. rewrite byte_swap32_store by done.
  assert (Hr : ∃ l, resize_to 4 0 x = l ++ [] ∧ length l = 4%nat).
  { destruct Hx as [->|Hx]; [by exists [0; 0; 0; 0]|]. exists x. rewrite app_nil_r. unfold zsize in Hx.
    split; [|lia]. unfold resize_to. rewrite resize_all_alt; [done|lia]. }
  destruct Hr as (l & -> & Hl). rewrite (store_range_app [] l []) by (done || by rewrite length_be_bytes, Hl).
  cbn [app]. by rewrite app_nil_r.
Qed.

Lemma fill_counter_extras_spec {E} delta v x :
  is_u64 delta → is_u64 v → is_u32 x →
  fill_counter_extras (E:=E) [] delta v x = Ok (be_bytes 8 delta ++ be_bytes 8 v ++ be_bytes 4 x).
Proof.
  intros Hd Hv Hx. unfold fill_counter_extras. change (resize_to _ 0 []) with (@nil Z ++ replicate 20 0).
  rewrite !byte_swap64_store, byte_swap32_store by done.
  rewrite store_append by (done || rewrite length_be_bytes; lia). cbn [mbind outcome_bind app].
  rewrite store_append by (rewrite ?length_be_bytes, ?zsize_be_bytes; lia). cbn [mbind outcome_bind].
  rewrite store_append by (rewrite ?length_be_bytes, ?zsize_app, ?zsize_be_bytes; lia).
  rewrite !length_be_bytes. cbn [Nat.sub replicate]. by rewrite app_nil_r, <-!app_assoc.
Qed.

Lemma store_extras_ne flags expiry : store_extras flags expiry ≠ [].
Proof. done. Qed.

(** An [encode_to] that leaves the extras to be filled when they are empty *)
Lemma extras_filled (x s : bytes) (fill : outcome error_code bytes) :
  x = [] ∨ x = s → fill = Ok s → match x with [] => fill | _ => Ok x end = Ok s.
Proof. intros [->|Hx] Hs; [done|]. destruct x; [done|]. by rewrite Hx. Qed.

Ltac target_laws := intros; split_and!; done.

(** The steps all instances share: the key is made or the request fails, and
    the members that are not written have the value they end with. *)
Ltac encode_law fill :=
  intros [] p o cas dt k fe x v Hok Hcas Hdt Hx Hv; cbn in Hok, Hcas, Hdt, Hx, Hv |- *;
  exists x; split; [apply extras_filled; [done|fill]|];
  cbv [upsert_encode_to insert_encode_to replace_encode_to append_encode_to prepend_encode_to remove_encode_to
    increment_encode_to decrement_encode_to get_encode_to get_replica_encode_to exists_encode_to unlock_encode_to
    get_and_touch_encode_to get_and_lock_encode_to encode_target body_id];
  cbn [up_target in_target re_target ap_target pr_target rm_target ic_target dc_target gt_target gr_target ex_target
    ul_target gat_target gal_target];
  destruct (make_protocol_key _); cbn [mbind outcome_bind]; [|done..].

Lemma has_json_flags_spec flags : has_json_flags flags = bool_decide (Z.shiftr flags 24 = 2).
Proof.
  unfold has_json_flags, extract_common_flags.
  assert (Hf : Z.land flags 0x0F000000 = Z.shiftl (Z.land (Z.shiftr flags 24) 15) 24).
  { apply Z.bits_inj'. intros i Hi. change 0x0F000000 with (Z.shiftl 15 24). rewrite Z.land_spec.
    destruct (decide (i < 24)) as [Hlt|Hge]; [by rewrite !Z.shiftl_spec_low, andb_false_r by done|].
    rewrite !Z.shiftl_spec, Z.land_spec, Z.shiftr_spec by lia. by replace (i - 24 + 24) with i by lia. }
  rewrite Hf. destruct (decide (_ ∨ _)) as [Hv|Hv].
  - destruct Hv as [->|[->|[->| ->]]]; by vm_compute.
  - cbn [negb andb Z.eqb]. symmetry. apply bool_decide_eq_false. tauto.
Qed.

Lemma set_json_datatype flags e :
  rq_datatype e = datatype_raw ∨ rq_datatype e = store_datatype flags →
  set_json flags e = rq_set_datatype (store_datatype flags) e.
Proof.
  unfold set_json, store_datatype. intros Hd. rewrite has_json_flags_spec.
  destruct (decide (Z.shiftr flags 24 = 2)); [by rewrite bool_decide_eq_true_2|].
  rewrite bool_decide_eq_false_2 by done.
  destruct e; cbn in *. by destruct Hd as [->| ->].
Qed.

Lemma body_preserve_expiry_spec (b : bool) e :
  (if b then body_preserve_expiry e else Ok e) =
  Ok (update_body (set_rb_frames (rb_framing_extras (rq_body e) ++ preserve_frame b)) e).
Proof.
  destruct b; cbn [preserve_frame].
  - unfold body_preserve_expiry. by rewrite add_preserve_expiry_frame_info_spec.
  - rewrite app_nil_r. by destruct e as [? ? ? ? ? ? []].
Qed.

#[export] Instance upsert_spec : OperationSpec upsert_request.
Proof.
  refine {|
    spec_ok := λ r, is_u32 (up_flags r) ∧ is_u32 (up_expiry r);
    spec_datatype := λ r, store_datatype (up_flags r); spec_cas := λ _, 0;
    spec_extras := λ r, store_extras (up_flags r) (up_expiry r);
    spec_value := up_value; spec_preserve := up_preserve_expiry |}; [done|done|target_laws|].
  encode_law ltac:(destruct Hok; by apply fill_store_extras_spec).
  rewrite body_preserve_expiry_spec. cbn [mbind outcome_bind]. rewrite set_json_datatype by done.
  by destruct Hcas as [->| ->].
Defined.

#[export] Instance insert_spec : OperationSpec insert_request.
Proof.
  refine {|
    spec_ok := λ r, is_u32 (in_flags r) ∧ is_u32 (in_expiry r);
    spec_datatype := λ r, store_datatype (in_flags r); spec_cas := λ _, 0;
    spec_extras := λ r, store_extras (in_flags r) (in_expiry r);
    spec_value := in_value; spec_preserve := λ _, false |}; [done|done|target_laws|].
  encode_law ltac:(destruct Hok; by apply fill_store_extras_spec).
  rewrite set_json_datatype by done. unfold rq_set_datatype. cbn. rewrite app_nil_r.
  by destruct Hcas as [->| ->].
Defined.

#[export] Instance replace_spec : OperationSpec replace_request.
Proof.
  refine {|
    spec_ok := λ r, is_u32 (re_flags r) ∧ is_u32 (re_expiry r);
    spec_datatype := λ r, store_datatype (re_flags r); spec_cas := re_cas;
    spec_extras := λ r, store_extras (re_flags r) (re_expiry r);
    spec_value := re_value; spec_preserve := re_preserve_expiry |}; [done|done|target_laws|].
  encode_law ltac:(destruct Hok; by apply fill_store_extras_spec).
  rewrite body_preserve_expiry_spec. cbn [mbind outcome_bind]. by rewrite set_json_datatype by done.
Defined.

#[export] Instance append_spec : OperationSpec append_request.
Proof.
  refine {|
    spec_ok := λ r, True; spec_datatype := λ _, datatype_raw; spec_cas := ap_cas; spec_extras := λ _, [];
    spec_value := ap_value; spec_preserve := λ _, false |}; [done|done|target_laws|].
  encode_law ltac:(done). cbn. rewrite app_nil_r. by destruct Hdt as [->| ->].
Defined.

#[export] Instance prepend_spec : OperationSpec prepend_request.
Proof.
  refine {|
    spec_ok := λ r, True; spec_datatype := λ _, datatype_raw; spec_cas := pr_cas; spec_extras := λ _, [];
    spec_value := pr_value; spec_preserve := λ _, false |}; [done|done|target_laws|].
  encode_law ltac:(done). cbn. rewrite app_nil_r. by destruct Hdt as [->| ->].
Defined.

#[export] Instance remove_spec : OperationSpec remove_request.
Proof.
  refine {|
    spec_ok := λ r, True; spec_datatype := λ _, datatype_raw; spec_cas := rm_cas; spec_extras := λ _, [];
    spec_value := λ _, []; spec_preserve := λ _, false |}; [done|done|target_laws|].
  encode_law ltac:(done). cbn. rewrite app_nil_r. by destruct Hdt as [->| ->], Hv as [->| ->].
Defined.

Lemma counter_fill_spec delta (initial_value : option Z) expiry :
  is_u64 delta → (∀ v, initial_value = Some v → is_u64 v) → is_u32 expiry →
  (let '(v, x) := counter_defaults initial_value expiry in fill_counter_extras (E:=error_code) [] delta v x) =
  Ok (counter_extras delta initial_value expiry).
Proof.
  intros Hd Hv Hx. unfold counter_extras, counter_defaults. destruct initial_value as [v|].
  - apply fill_counter_extras_spec; auto.
  - by rewrite fill_counter_extras_spec by (done || width_lia).
Qed.

#[export] Instance increment_spec : OperationSpec increment_request.
Proof.
  refine {|
    spec_ok := λ r, is_u64 (ic_delta r) ∧ (∀ v, ic_initial_value r = Some v → is_u64 v) ∧ is_u32 (ic_expiry r);
    spec_datatype := λ _, datatype_raw; spec_cas := λ _, 0;
    spec_extras := λ r, counter_extras (ic_delta r) (ic_initial_value r) (ic_expiry r);
    spec_value := λ _, []; spec_preserve := λ _, false |}; [done|done|target_laws|].
  encode_law ltac:(destruct Hok as (? & ? & ?); by apply counter_fill_spec). cbn. rewrite app_nil_r.
  by destruct Hdt as [->| ->], Hv as [->| ->], Hcas as [->| ->].
Defined.

#[export] Instance decrement_spec : OperationSpec decrement_request.
Proof.
  refine {|
    spec_ok := λ r, is_u64 (dc_delta r) ∧ (∀ v, dc_initial_value r = Some v → is_u64 v) ∧ is_u32 (dc_expiry r);
    spec_datatype := λ _, datatype_raw; spec_cas := λ _, 0;
    spec_extras := λ r, counter_extras (dc_delta r) (dc_initial_value r) (dc_expiry r);
    spec_value := λ _, []; spec_preserve := λ _, false |}; [done|done|target_laws|].
  encode_law ltac:(destruct Hok as (? & ? & ?); by apply counter_fill_spec). cbn. rewrite app_nil_r.
  by destruct Hdt as [->| ->], Hv as [->| ->], Hcas as [->| ->].
Defined.

(** The operations without durability and without a value *)
Ltac read_law :=
  cbn -[be_bytes]; rewrite app_nil_r;
  repeat match goal with H : ?v = _ ∨ ?v = _ |- _ => destruct H as [->| ->] end; done.

#[export] Instance get_spec : OperationSpec get_request.
Proof.
  refine {| spec_ok := λ r, True; spec_datatype := λ _, datatype_raw; spec_cas := λ _, 0; spec_extras := λ _, [];
            spec_value := λ _, []; spec_preserve := λ _, false |}; [done|done|target_laws|].
  encode_law ltac:(done). read_law.
Defined.

#[export] Instance get_replica_spec : OperationSpec get_replica_request.
Proof.
  refine {| spec_ok := λ r, True; spec_datatype := λ _, datatype_raw; spec_cas := λ _, 0; spec_extras := λ _, [];
            spec_value := λ _, []; spec_preserve := λ _, false |}; [done|done|target_laws|].
  encode_law ltac:(done). read_law.
Defined.

#[export] Instance exists_spec : OperationSpec exists_request.
Proof.
  refine {| spec_ok := λ r, True; spec_datatype := λ _, datatype_raw; spec_cas := λ _, 0; spec_extras := λ _, [2];
            spec_value := λ _, []; spec_preserve := λ _, false |}; [done|done|target_laws|].
  intros [] p o cas dt k fe x v Hok Hcas Hdt Hx Hv. exists [2]. split; [done|].
  unfold op_encode_to; cbn [exists_operation]. unfold exists_encode_to, encode_target, body_id. cbn [ex_target op_target exists_operation].
  destruct (make_protocol_key _); [|done..]. cbn in *. rewrite app_nil_r.
  by destruct Hdt as [->| ->], Hv as [->| ->], Hcas as [->| ->], Hx as [->| ->].
Defined.

#[export] Instance unlock_spec : OperationSpec unlock_request.
Proof.
  refine {| spec_ok := λ r, True; spec_datatype := λ _, datatype_raw; spec_cas := ul_cas; spec_extras := λ _, [];
            spec_value := λ _, []; spec_preserve := λ _, false |}; [done|done|target_laws|].
  encode_law ltac:(done). cbn. rewrite app_nil_r. by destruct Hdt as [->| ->], Hv as [->| ->].
Defined.

#[export] Instance touch_spec : OperationSpec touch_request.
Proof.
  refine {| spec_ok := λ r, is_u32 (to_expiry r); spec_datatype := λ _, datatype_raw; spec_cas := λ _, 0;
            spec_extras := λ r, be_bytes 4 (to_expiry r);
            spec_value := λ _, []; spec_preserve := λ _, false |}; [done|done|target_laws|].
  intros [t expiry] p o cas dt k fe x v Hok Hcas Hdt Hx Hv. exists (be_bytes 4 expiry). split; [done|].
  unfold op_encode_to; cbn [touch_operation]. unfold touch_encode_to, encode_target, body_id.
  cbn [to_target op_target touch_operation op_new_extras spec_ok spec_extras to_expiry] in *.
  destruct (make_protocol_key _); cbn [mbind outcome_bind]; [|done..].
  unfold touch_expiry. rewrite fill_field32_spec; [|done|].
  - cbn [mbind outcome_bind]. cbn -[be_bytes] in *. rewrite app_nil_r. by destruct Hdt as [->| ->], Hv as [->| ->], Hcas as [->| ->].
  - cbn -[be_bytes] in *. destruct Hx as [->| ->]; [by left|right]. by rewrite zsize_be_bytes.
Defined.

#[export] Instance get_and_touch_spec : OperationSpec get_and_touch_request.
Proof.
  refine {| spec_ok := λ r, is_u32 (gat_expiry r); spec_datatype := λ _, datatype_raw; spec_cas := λ _, 0;
            spec_extras := λ r, be_bytes 4 (gat_expiry r);
            spec_value := λ _, []; spec_preserve := λ _, false |}; [done|done|target_laws|].
  encode_law ltac:(apply fill_field32_spec; [done|by left]). read_law.
Defined.

#[export] Instance get_and_lock_spec : OperationSpec get_and_lock_request.
Proof.
  refine {| spec_ok := λ r, is_u32 (gal_lock_time r); spec_datatype := λ _, datatype_raw; spec_cas := λ _, 0;
            spec_extras := λ r, be_bytes 4 (gal_lock_time r);
            spec_value := λ _, []; spec_preserve := λ _, false |}; [done|done|target_laws|].
  encode_law ltac:(apply fill_field32_spec; [done|by left]). read_law.
Defined.

(** ** Sending *)

Section sending.
Context `{ServerDuration} `{Snappy} {R : Type} `{OperationSpec R}.
Implicit Types (r : R) (c : codec) (e : client_request).

(** The packet of an operation *)
Definition op_packet (timeout : Z) (r : R) : packet := {|
  magic_ := enum_code Magic.client_request;
  command_ := enum_code op_opcode;
  datatype_ := spec_datatype r;
  status_ := 0;
  status_code_ := enum_code Status.success;
  vbucket_ := t_partition (op_target r);
  opaque_ := t_opaque (op_target r);
  cas_ := spec_cas r;
  collection_id_ := default 0 (id_collection_uid (t_id (op_target r)));
  key_ := id_key (t_id (op_target r));
  extras_ := spec_extras r;
  value_ := spec_value r;
  barrier_frame_ := None;
  durability_level_frame_ := if decide (op_level r = level_none) then None else Some (op_level r);
  durability_timeout_frame_ := if decide (op_level r = level_none) then None else Some (9 * timeout / 10);
  stream_id_frame_ := None;
  open_tracing_frame_ := None;
  server_duration_frame_ := None;
  user_impersonation_frame_ := None;
  preserve_expiry_frame_ := if spec_preserve r then Some () else None;
  read_units_frame_ := None;
  write_units_frame_ := None;
  unsupported_frames_ := []
|}.

(** The frames that one attempt appends, and those of [n] attempts *)
Definition attempt_frames (timeout : Z) (r : R) : list (Z * bytes) := frames_sent (op_packet timeout r).
Definition repeated_frames (timeout : Z) (r : R) (n : nat) : list (Z * bytes) :=
  concat (replicate n (attempt_frames timeout r)).

Definition sent_request (timeout : Z) (r : R) (key fe : bytes) : client_request :=
  operation_request (op_packet timeout r) key fe (spec_extras r).

(** An encoded request that is new or was sent before, with the frames [fe] *)
Definition resendable (r : R) (fe : bytes) (e : client_request) : Prop :=
  ∃ p o cas dt k x v,
    e = ClientRequest (enum_code Magic.client_request) (enum_code op_opcode) p o cas dt (RequestBody k fe x v) ∧
    (cas = 0 ∨ cas = byte_swap64 (spec_cas r)) ∧ (dt = datatype_raw ∨ dt = spec_datatype r) ∧
    (x = op_new_extras ∨ x = spec_extras r) ∧ (v = [] ∨ v = spec_value r).

Record sendable (timeout : Z) (r : R) : Prop := {
  sendable_ok : spec_ok r;
  sendable_level : is_u8 (op_level r);
  sendable_timeout : op_level r ≠ level_none → 0 ≤ timeout ∧ 9 * timeout < 10 * 2 ^ 16;
}.

Definition target_ok (t : target) : Prop := ∀ uid, id_collection_uid (t_id t) = Some uid → is_u32 uid.

Lemma make_protocol_key_ok {E} t : target_ok t → ∃ key, make_protocol_key (E:=E) (t_id t) = Ok key.
Proof.
  intros Ht. unfold make_protocol_key. destruct (id_collection_uid (t_id t)) as [uid|] eqn:Hu; [|by eexists].
  destruct (unsigned_leb128_spec (E:=E) 32 uid) as (enc & -> & _); [by left|by apply Ht|]. by eexists.
Qed.

Lemma new_resendable r : resendable r [] (new_encoded R).
Proof. unfold new_encoded, make_request, resendable. repeat eexists; by left. Qed.

Lemma sent_resendable timeout r r' key fe :
  spec_datatype r' = spec_datatype r → spec_cas r' = spec_cas r → spec_extras r' = spec_extras r →
  spec_value r' = spec_value r → resendable r fe (sent_request timeout r' key fe).
Proof.
  intros Hd Hc Hx Hv. unfold sent_request, resendable. rewrite <-Hd, <-Hc, <-Hx, <-Hv.
  repeat eexists; by right.
Qed.

Lemma attempt_frames_bytes timeout r :
  frames_bytes (attempt_frames timeout r) = preserve_frame (spec_preserve r) ++
    if decide (op_level r = level_none) then []
    else frame_bytes request_sync_durability (durability_payload (Some (9 * timeout / 10)) (op_level r)).
Proof.
  unfold attempt_frames, frames_sent. rewrite frames_bytes_app, !frames_bytes_opt. cbn [op_packet preserve_expiry_frame_ durability_level_frame_ durability_timeout_frame_].
  f_equal; [by destruct (spec_preserve r)|by case_decide].
Qed.

Lemma repeated_frames_S timeout r n :
  frames_bytes (repeated_frames timeout r (S n)) = frames_bytes (repeated_frames timeout r n) ++ frames_bytes (attempt_frames timeout r).
Proof.
  unfold repeated_frames. rewrite <-frames_bytes_app. f_equal.
  rewrite replicate_S_end, concat_app. cbn [concat]. by rewrite app_nil_r.
Qed.

(** The bytes that travel *)
Definition payload_of (snappy : bool) (e : client_request) : bytes :=
  match request_data (E:=error_code) e snappy with Ok w => w | _ => [] end.

Lemma payload_of_ok snappy e : request_data (E:=error_code) e snappy = Ok (payload_of snappy e).
Proof. unfold payload_of. by destruct (request_data_ok (E:=error_code) e snappy) as [w ->]. Qed.

Lemma payload_plain e : payload_of false e = request_wire e.
Proof. unfold payload_of, request_data. rewrite generate_payload_plain. by destruct (is_one_of _ _). Qed.

(** One attempt *)
Lemma send_spec timeout snappy r fe e key :
  sendable timeout r → make_protocol_key (E:=error_code) (t_id (op_target r)) = Ok key → resendable r fe e →
  let e' := sent_request timeout r key (fe ++ frames_bytes (attempt_frames timeout r)) in
  send timeout snappy r e = Ok (e', payload_of snappy e').
Proof.
  intros [Hok Hlevel Htime] Hkey (p & o & cas & dt & k & x & v & -> & Hcas & Hdt & Hx & Hv). cbv zeta.
  destruct (law_encode r p o cas dt k fe x v Hok Hcas Hdt Hx Hv) as (x' & Hx' & He).
  unfold send. rewrite He, Hkey. cbn [mbind outcome_bind]. rewrite attempt_frames_bytes.
  set (d := if decide (op_level r = level_none) then [] else _).
  assert (Hd : ∀ e, (if decide (op_level r ≠ level_none)
                     then t ← durability_timeout timeout; body_durability (op_level r) (Some t) e else Ok e) =
    Ok (update_body (set_rb_frames (rb_framing_extras (rq_body e) ++ d)) e)).
  { intros e. unfold d. case_decide as Hl.
    - destruct (Htime Hl) as [Ht0 Ht]. rewrite decide_False by done. unfold durability_timeout. rewrite decide_False by lia. cbn [mbind outcome_bind].
      unfold body_durability. rewrite decide_False by done. rewrite add_durability_frame_info_spec; [done|done|].
      intros t [= <-]. unfold in_width. split; [apply Z.div_pos; lia|apply Z.div_lt_upper_bound; lia].
    - rewrite (decide_True (P:=op_level r = level_none)) by done. rewrite app_nil_r. by destruct e as [? ? ? ? ? ? []]. }
  rewrite Hd. cbn [mbind outcome_bind]. clear Hd He.
  match goal with |- context [body_extras r ?e1] => set (e1' := e1) end.
  assert (Hfill : body_extras r e1' = Ok (update_body (set_rb_extras (spec_extras r)) e1')).
  { unfold body_extras, e1'. cbn [rq_body update_body set_rb_frames rb_extras]. destruct x' as [|b x'].
    - by rewrite Hx'.
    - injection Hx' as ->. done. }
  rewrite Hfill. cbn [mbind outcome_bind]. unfold e1'.
  match goal with |- (payload ← request_data ?a snappy; _) = Ok (?b, _) => change a with (sent_request timeout r key ((fe ++ preserve_frame (spec_preserve r)) ++ d)) end.
  rewrite <-app_assoc. by rewrite payload_of_ok.
Qed.

Lemma sendable_with_target timeout t r : sendable timeout r → sendable timeout (op_with_target t r).
Proof.
  intros [Hok Hlevel Ht]. destruct (law_with_target t r) as (Hok' & Hl & _). split; [auto|by rewrite Hl..].
Qed.

Lemma attempt_frames_with_target timeout t r : attempt_frames timeout (op_with_target t r) = attempt_frames timeout r.
Proof.
  unfold attempt_frames, frames_sent. destruct (law_with_target t r) as (_ & Hl & _ & _ & _ & _ & Hp).
  unfold op_packet; cbn [preserve_expiry_frame_ durability_level_frame_ durability_timeout_frame_]. by rewrite Hl, Hp.
Qed.

(** All attempts but the last *)
Lemma attempts_spec timeout snappy r ts n e :
  sendable timeout r → Forall target_ok ts → resendable r (frames_bytes (repeated_frames timeout r n)) e →
  ∃ e' ws, attempts timeout snappy r ts e = Ok (e', ws) ∧ length ws = length ts ∧
    resendable r (frames_bytes (repeated_frames timeout r (n + length ts))) e'.
Proof.
  intros Hs Hts. revert n e. induction Hts as [|t ts Ht Hts IH]; intros n e He; cbn [attempts length].
  { exists e, []. by rewrite Nat.add_0_r. }
  destruct (make_protocol_key_ok (E:=error_code) t Ht) as [key Hkey].
  destruct (law_with_target t r) as (_ & _ & Hd & Hc & Hx & Hv & _).
  assert (He' : resendable (op_with_target t r) (frames_bytes (repeated_frames timeout r n)) e).
  { destruct He as (p & o & cas & dt & k & x & v & ? & Hcas & Hdt & Hxs & Hvs). exists p, o, cas, dt, k, x, v.
    by rewrite Hd, Hc, Hx, Hv. }
  erewrite send_spec by (by (apply sendable_with_target || (rewrite law_target; done) || done)).
  cbn [mbind outcome_bind]. rewrite attempt_frames_with_target, <-repeated_frames_S.
  set (e1 := sent_request _ _ _ _).
  destruct (IH (S n) e1) as (e' & ws & Hr & Hl & Hre); [by apply sent_resendable|].
  rewrite Hr. cbn [mbind outcome_bind]. exists e', (payload_of snappy e1 :: ws). split; [done|]. cbn [length].
  rewrite <-Nat.add_succ_comm. auto.
Qed.

Lemma attempts_app timeout snappy r ts t e :
  attempts timeout snappy r (ts ++ [t]) e =
  ('(e, ws) ← attempts timeout snappy r ts e;
   '(e, w) ← send timeout snappy (op_with_target t r) e;
   Ok (e, ws ++ [w])).
Proof.
  revert e. induction ts as [|t' ts IH]; intros e; cbn [app attempts mbind outcome_bind].
  - by destruct (send timeout snappy (op_with_target t r) e) as [[]|e'| |].
  - destruct (send timeout snappy (op_with_target t' r) e) as [[e1 w]|e'| |]; cbn [mbind outcome_bind]; try done.
    rewrite IH. destruct (attempts timeout snappy r ts e1) as [[e2 ws]|e'| |]; cbn [mbind outcome_bind]; try done.
    by destruct (send timeout snappy (op_with_target t r) e2) as [[]|e'| |].
Qed.

(** The last attempt *)
Lemma last_attempt timeout snappy r ts t key :
  sendable timeout r → Forall target_ok ts → make_protocol_key (E:=error_code) (t_id t) = Ok key →
  let e := sent_request timeout (op_with_target t r) key (frames_bytes (repeated_frames timeout r (S (length ts)))) in
  ∃ ws, attempts timeout snappy r (ts ++ [t]) (new_encoded R) = Ok (e, ws ++ [payload_of snappy e]) ∧ length ws = length ts.
Proof.
  intros Hs Hts Hkey. cbv zeta.
  destruct (attempts_spec timeout snappy r ts 0 (new_encoded R) Hs Hts (new_resendable r)) as (e & ws & Hr & Hl & He).
  destruct (law_with_target t r) as (_ & _ & Hd & Hc & Hx & Hv & _).
  assert (He' : resendable (op_with_target t r) (frames_bytes (repeated_frames timeout r (length ts))) e).
  { destruct He as (p & o & cas & dt & k & x & v & ? & Hcas & Hdt & Hxs & Hvs). exists p, o, cas, dt, k, x, v.
    by rewrite Hd, Hc, Hx, Hv. }
  exists ws. split; [|done]. rewrite attempts_app, Hr. cbn [mbind outcome_bind].
  erewrite send_spec by (by (apply sendable_with_target || (rewrite law_target; done) || done)).
  cbn [mbind outcome_bind]. by rewrite attempt_frames_with_target, <-repeated_frames_S.
Qed.

(** A decoder reads the repeated frames as the frames of the packet. *)
Definition attempt_effect (timeout : Z) (r : R) (pkt : packet) : packet :=
  let pkt := if spec_preserve r then set_preserve_expiry_frame (Some ()) pkt else pkt in
  if decide (op_level r = level_none) then pkt
  else set_durability_timeout_frame (Some (9 * timeout / 10)) (set_durability_level_frame (Some (op_level r)) pkt).

Lemma apply_attempt_frames timeout r pkt :
  sendable timeout r →
  apply_frames (enum_code Magic.alt_client_request) pkt (attempt_frames timeout r) = Ok (attempt_effect timeout r pkt).
Proof.
  intros [_ Hlevel Htime]. unfold attempt_frames, frames_sent, op_packet. cbn [preserve_expiry_frame_ durability_level_frame_ durability_timeout_frame_].
  assert (Hbound : op_level r ≠ level_none → 0 ≤ 9 * timeout / 10 < 2 ^ 16).
  { intros [Ht0 Ht]%Htime. split; [apply Z.div_pos; lia|apply Z.div_lt_upper_bound; lia]. }
  assert (Hdur : ∀ pkt, apply_frames (enum_code Magic.alt_client_request) pkt
      (opt_frame request_sync_durability (durability_payload (if decide (op_level r = level_none) then None else Some (9 * timeout / 10)))
        (if decide (op_level r = level_none) then None else Some (op_level r))) =
    Ok (if decide (op_level r = level_none) then pkt
        else set_durability_timeout_frame (Some (9 * timeout / 10)) (set_durability_level_frame (Some (op_level r)) pkt))).
  { intros q. destruct (decide (op_level r = level_none)) as [|Hn]; [done|]. specialize (Hbound Hn). cbn [opt_frame apply_frames].
    rewrite decode_request_durability by (intros x [= <-]; lia). cbn [mbind outcome_bind fmap option_fmap option_map].
    by rewrite Z.min_l by lia. }
  unfold attempt_effect. destruct (spec_preserve r); cbn [opt_frame app]; [|apply Hdur]. cbn [apply_frames].
  change (apply_frame _ pkt _) with (Ok (E:=error_code) (set_preserve_expiry_frame (Some ()) pkt)). cbn [mbind outcome_bind]. apply Hdur.
Qed.

Lemma apply_frames_app magic fs1 fs2 pkt :
  apply_frames magic pkt (fs1 ++ fs2) = pkt ← apply_frames magic pkt fs1; apply_frames magic pkt fs2.
Proof.
  revert pkt. induction fs1 as [|f fs1 IH]; intros pkt; cbn [app apply_frames]; [done|].
  destruct (apply_frame magic pkt f); cbn [mbind outcome_bind]; [apply IH|done..].
Qed.

Lemma repeated_frames_of timeout snappy r n :
  sendable timeout r → frames_of (packet_sent snappy (op_packet timeout r)) (repeated_frames timeout r (S n)).
Proof.
  intros Hs. pose proof Hs as [_ Hlevel Htime]. split.
  - unfold repeated_frames. apply Forall_concat, Forall_replicate. unfold attempt_frames, frames_sent, op_packet.
    cbn [preserve_expiry_frame_ durability_level_frame_ durability_timeout_frame_].
    apply Forall_app_2; apply opt_frame_ok; [done|done|done|].
    intros l Hl. case_decide; [done|]. injection Hl as <-. unfold durability_payload.
    destruct (be_bytes_frame_ok 2 0); [lia|]. split; [constructor; [done|apply be_bytes_ok]|done].
  - assert (Hstep : ∀ pkt, attempt_effect timeout r (attempt_effect timeout r pkt) = attempt_effect timeout r pkt).
    { intros pkt. unfold attempt_effect. by destruct (spec_preserve r), (decide (op_level r = level_none)). }
    assert (Hrep : ∀ pkt, apply_frames (enum_code Magic.alt_client_request) pkt (repeated_frames timeout r (S n)) = Ok (attempt_effect timeout r pkt)).
    { induction n as [|n IH]; intros pkt; unfold repeated_frames; cbn [replicate concat];
        rewrite apply_frames_app, apply_attempt_frames by done; cbn [mbind outcome_bind]; [done|].
      etrans; [apply IH|]. by rewrite Hstep. }
    assert (Hall : ∀ q, apply_frames (enum_code Magic.alt_client_request) (header_packet q) (repeated_frames timeout r (S n)) =
      Ok (set_frames (op_packet timeout r) (header_packet q))).
    2:{ unfold packet_sent. destruct (_ && _), (compress_value (value_ (op_packet timeout r))); apply Hall. }
    intros q. rewrite Hrep. f_equal. unfold set_frames, attempt_effect. change (is_request (op_packet timeout r)) with true. cbn match.
    unfold set_request_frames, op_packet. cbn [preserve_expiry_frame_ durability_level_frame_ durability_timeout_frame_
      user_impersonation_frame_ open_tracing_frame_ stream_id_frame_ barrier_frame_].
    assert (Hmin : op_level r ≠ level_none → Z.min (9 * timeout / 10) 65535 = 9 * timeout / 10).
    { intros [Ht0 Ht]%Htime. apply Z.min_l. assert (9 * timeout / 10 < 65536) by (apply Z.div_lt_upper_bound; lia). lia. }
    unfold header_packet. destruct (is_request q), (spec_preserve r), (decide (op_level r = level_none)); cbn; by rewrite ?Hmin.
Qed.

Lemma op_packet_operation timeout r : sendable timeout r → operation_packet (op_packet timeout r).
Proof.
  intros [_ _ Htime]. split; try done. cbn. intros t Hl. case_decide as Hn; [done|]. injection Hl as <-. destruct (Htime Hn) as [Ht0 Ht].
  split; [apply Z.div_pos; lia|apply Z.div_lt_upper_bound; lia].
Qed.

Lemma sent_extras_op c timeout r : sent_extras c (op_packet timeout r) = spec_extras r.
Proof. unfold sent_extras. cbn [op_packet command_ extras_]. by rewrite law_not_random, andb_false_r. Qed.

(** The bytes of a request with any frames that are not more than the header can say *)
Lemma sent_wire_packet c p fs :
  is_request p = true → accepted c p → well_typed p → fits p (zsize (frames_bytes fs)) (sent_key c p) (sent_extras c p) →
  request_wire (operation_request p (sent_key c p) (frames_bytes fs) (sent_extras c p)) =
  header_bytes p (zsize (frames_bytes fs)) (sent_key c p) (sent_extras c p) ++
  frames_bytes fs ++ sent_extras c p ++ sent_key c p ++ value_ p.
Proof.
  intros Hreq Ha Hw Hf. unfold request_wire.
  cbn [rq_body operation_request rq_set_cas rq_set_opaque rq_set_partition rq_set_datatype
    rb_framing_extras rb_extras rb_key rb_value]. f_equal.
  unfold request_header, header_bytes, wire_magic, body_size.
  cbn [rq_body operation_request rq_set_cas rq_set_opaque rq_set_partition rq_set_datatype
    rb_framing_extras rb_extras rb_key rb_value rq_magic rq_opcode rq_partition rq_opaque rq_cas rq_datatype].
  rewrite byte_swap32_store, byte_swap64_store by apply Hw.
  rewrite (wrap_small 8 (datatype_ p)), (wrap_small 16 (vbucket_ p)) by apply Hw.
  rewrite Hreq. pose proof (accepted_magic c p Ha) as Hm. rewrite Hreq in Hm. rewrite Hm. rewrite wrap_wrap by lia.
  set (n := zsize (frames_bytes fs)). assert (0 ≤ n) by apply zsize_nonneg.
  replace (n + zsize (sent_extras c p) + zsize (sent_key c p) + zsize (value_ p))
    with (zsize (sent_key c p) + zsize (sent_extras c p) + zsize (value_ p) + n) by lia.
  destruct (decide (0 < n)); [by rewrite decide_False by lia|by rewrite decide_True by lia].
Qed.

Lemma received_op c timeout snappy r :
  sendable timeout r → let p := op_packet timeout r in
  collection_in_key c p = has (id_collection_uid (t_id (op_target r))) →
  received c (packet_sent snappy p) = packet_sent snappy p.
Proof.
  intros [_ _ Htime] p Hc. assert (Hr : received c p = p).
  { unfold received. rewrite Hc. unfold p. rewrite sent_extras_op.
    assert (Hmin : op_level r ≠ level_none → Z.min (9 * timeout / 10) 65535 = 9 * timeout / 10).
    { intros [Ht0 Ht]%Htime. apply Z.min_l. assert (9 * timeout / 10 < 65536) by (apply Z.div_lt_upper_bound; lia). lia. }
    unfold op_packet. cbn -[enum_code]. f_equal.
    - by destruct (id_collection_uid (t_id (op_target r))).
    - case_decide; [done|]. cbn. by rewrite Hmin. }
  unfold packet_sent. destruct (_ && _); [|done]. destruct (compress_value (value_ p)) as [v|]; [|done].
  change (received c (set_value v (set_datatype (Z.lor (datatype_ p) datatype_snappy) p)))
    with (set_value v (set_datatype (Z.lor (datatype_ p) datatype_snappy) (received c p))). by rewrite Hr.
Qed.

(** C20: Every attempt of every operation, the first one and each that follows
    with another opaque, partition or identifier of the collection, and with or
    without compression, is a packet that the decoder reads as the operation:
    its opcode, key, collection, extras, CAS and flags of the datatype, the
    value as it travels, and the durability and expiry that were asked for.
    The conditions are that the frames of all attempts so far fit into the byte
    of the header and that the timeout of an operation with a durability level
    is less than the 72.8 seconds from which its conversion is not defined. *)
Theorem operation_on_wire c timeout snappy (r : R) ts t rest :
  let p := op_packet timeout (op_with_target t r) in
  snappy_typed → sendable timeout r → Forall target_ok ts → target_ok t →
  accepted c p → well_typed p → addressable c p → collection_in_key c p = has (id_collection_uid (t_id t)) →
  fits p (zsize (frames_bytes (repeated_frames timeout r (S (length ts))))) (sent_key c p) (sent_extras c p) →
  ∃ e ws w, attempts timeout snappy r (ts ++ [t]) (new_encoded R) = Ok (e, ws ++ [w]) ∧ length ws = length ts ∧
    decode_packet c (w ++ rest) = Ok (packet_sent snappy p, zsize w).
Proof.
  intros p Hsn Hs Hts Ht Ha Hw Had Hc Hf. pose proof (sendable_with_target _ t _ Hs) as Hst.
  assert (Htgt : op_target (op_with_target t r) = t) by apply law_target.
  assert (Hkey : make_protocol_key (E:=error_code) (t_id t) = Ok (sent_key c p)).
  { apply make_protocol_key_sent; [done|done| |]; cbn; rewrite Htgt; [by intros uid ->|done]. }
  destruct (last_attempt timeout snappy r ts t (sent_key c p) Hs Hts Hkey) as (ws & Hr & Hl).
  eexists _, ws, _. split; [exact Hr|]. split; [done|].
  set (fs := repeated_frames timeout r (S (length ts))) in *.
  assert (Hfs : frames_of (packet_sent snappy p) fs).
  { unfold fs, p, repeated_frames. rewrite <-(attempt_frames_with_target timeout t r). by apply repeated_frames_of. }
  destruct (packet_sent_ok c p _ snappy Hsn Ha Hw Had Hf) as (Ha' & Hw' & Had' & Hf' & Hk & Hx & _).
  assert (Hpay : payload_of snappy (sent_request timeout (op_with_target t r) (sent_key c p) (frames_bytes fs)) =
    request_wire (operation_request (packet_sent snappy p) (sent_key c p) (frames_bytes fs) (sent_extras c p))).
  { unfold payload_of, sent_request. fold p. rewrite <-(sent_extras_op c timeout (op_with_target t r)). fold p.
    rewrite request_data_sent; [done|apply Hw..|]. destruct Hf. lia. }
  rewrite Hpay. set (q := packet_sent snappy p) in *. rewrite <-Hk, <-Hx in Hf' |- *.
  assert (Hq : is_request q = true).
  { unfold q, packet_sent. by destruct (_ && _), (compress_value (value_ p)). }
  rewrite sent_wire_packet by done.
  replace ((header_bytes q (zsize (frames_bytes fs)) (sent_key c q) (sent_extras c q) ++
      frames_bytes fs ++ sent_extras c q ++ sent_key c q ++ value_ q) ++ rest)
    with (header_bytes q (zsize (frames_bytes fs)) (sent_key c q) (sent_extras c q) ++
      (frames_bytes fs ++ sent_extras c q ++ sent_key c q ++ value_ q) ++ rest) by by rewrite <-!app_assoc.
  rewrite decode_packet_split.
  - rewrite decode_packet_parts_frames by done.
    assert (received c q = q) as -> by (apply received_op; [done|by rewrite Htgt]). do 2 f_equal. rewrite !zsize_app, zsize_header. lia.
  - apply zsize_header.
  - destruct (header_fields (E:=error_code) q _ _ _ Hw' Hf') as (_ & _ & _ & -> & _).
    f_equal. rewrite !zsize_app. lia.
Qed.

(** The encoded request keeps its framing extras between attempts, and
    [encode_to] and [send] append to them: the request of the n-th attempt
    holds the frames of the expiry and of the durability n times.  The header
    announces their size modulo 256, so that from some attempt on it is not
    the size of what follows. *)
Theorem resent_frames_accumulate timeout (r : R) ts t :
  sendable timeout r → Forall target_ok ts → target_ok t → attempt_frames timeout r ≠ [] →
  let fe := frames_bytes (repeated_frames timeout r (S (length ts))) in
  zsize fe = Z.of_nat (S (length ts)) * zsize (frames_bytes (attempt_frames timeout r)) ∧
  ∃ e ws w, attempts timeout false r (ts ++ [t]) (new_encoded R) = Ok (e, ws ++ [w]) ∧
    take (length fe) (drop 24 w) = fe ∧
    at_ (E:=unit) w 2 = Ok (zsize fe mod 256).
Proof.
  intros Hs Hts Ht Hne fe. split.
  { unfold fe. generalize (S (length ts)). intros n. induction n as [|n IH]; [done|].
    rewrite repeated_frames_S, zsize_app, IH. lia. }
  destruct (make_protocol_key_ok (E:=error_code) t Ht) as [key Hkey].
  destruct (last_attempt timeout false r ts t key Hs Hts Hkey) as (ws & Hr & Hl). fold fe in Hr. rewrite payload_plain in Hr.
  eexists _, ws, _. split; [exact Hr|]. set (e := sent_request _ _ _ _). unfold request_wire. split.
  - rewrite drop_app_length' by (symmetry; apply length_request_header). by rewrite take_app_length' by done.
  - unfold request_header. rewrite decide_False; [done|]. unfold e, sent_request.
    cbn [rq_body operation_request rq_set_cas rq_set_opaque rq_set_partition rq_set_datatype rb_framing_extras].
    assert (0 < zsize fe); [|lia]. unfold fe. rewrite repeated_frames_S, zsize_app.
    pose proof (frames_bytes_nonempty _ Hne). pose proof (zsize_nonneg (frames_bytes (repeated_frames timeout r (length ts)))). lia.
Qed.
End sending.

(** The conversion of the timeout to 16 bits is not defined from 72.8 seconds on. *)
Lemma long_durability_undefined `{Snappy} t timeout key :
  72818 ≤ timeout → make_protocol_key (E:=error_code) (t_id t) = Ok key →
  send timeout false (RemoveRequest t 0 1) (new_encoded remove_request) = Fault.
Proof.
  intros Ht Hkey. unfold send. cbn -[durability_timeout body_durability]. unfold remove_encode_to, encode_target, body_id.
  cbn [rm_target]. rewrite Hkey. cbn -[durability_timeout]. unfold durability_timeout. by rewrite (decide_True (P:=10 * 2 ^ 16 ≤ 9 * timeout)) by lia.
Qed.

(** ** Responses: nothing is reported with an error *)

Lemma mutation_response_error t ctx encoded :
  has (ctx_ec ctx) = true → mutation_make_response t ctx encoded = MutationResult ctx 0 None.
Proof. intros He. unfold mutation_make_response. by rewrite He. Qed.

Lemma exists_not_found ctx encoded :
  ctx_ec ctx = Some (errc_key_value KeyValue.document_not_found) →
  er_document_exists (exists_make_response ctx encoded) = false ∧ ctx_ec (er_ctx (exists_make_response ctx encoded)) = None.
Proof. intros He. unfold exists_make_response. rewrite He. done. Qed.

(** ** Witnesses *)

Definition example_target (opaque : Z) : target := Target example_document 5 opaque.
Definition example_upsert : upsert_request := UpsertRequest (example_target 1) [123; 125] 0x02000006 60 1 true.

Definition example_large : upsert_request := UpsertRequest (example_target 1) (replicate 40 65) 0x02000006 60 1 true.

Lemma operation_on_wire_witness :
  ∃ e ws w, attempts (H:=run_snappy) 2500 true example_large ([example_target 1] ++ [example_target 2]) (new_encoded upsert_request) =
      Ok (e, ws ++ [w]) ∧ length ws = 1%nat ∧
    decode_packet (H:=identity_duration) (make_codec example_features) (w ++ [1; 2; 3]) =
      Ok (packet_sent (H0:=run_snappy) true (op_packet 2500 (op_with_target (example_target 2) example_large)), zsize w).
Proof.
  assert (Htgt : ∀ o, target_ok (example_target o)) by (intros o uid [= <-]; by vm_compute).
  apply (operation_on_wire (H:=identity_duration) (H0:=run_snappy) (make_codec example_features) 2500 true example_large [example_target 1]
    (example_target 2) [1; 2; 3]).
  - apply run_snappy_typed.
  - split; [by vm_compute|by vm_compute|by vm_compute].
  - constructor; [apply Htgt|constructor].
  - apply Htgt.
  - concrete_packet.
  - concrete_packet; match goal with H : _ = Some _ |- _ => vm_compute in H; injection H as <-; by vm_compute end.
  - concrete_packet.
  - done.
  - split; by vm_compute.
Defined.

(** After 52 attempts there are 260 bytes of frames, and the header announces four. *)
Lemma resent_frames_accumulate_witness :
  let fe := frames_bytes (repeated_frames 2500 example_upsert 52) in
  zsize fe = 260 ∧
  ∃ e ws w, attempts (H:=no_snappy) 2500 false example_upsert (map example_target (seqZ 1 51) ++ [example_target 52]) (new_encoded upsert_request) =
      Ok (e, ws ++ [w]) ∧
    take (length fe) (drop 24 w) = fe ∧ at_ (E:=unit) w 2 = Ok 4.
Proof.
  assert (Htgt : ∀ o, target_ok (example_target o)) by (intros o uid [= <-]; by vm_compute).
  destruct (resent_frames_accumulate (H0:=no_snappy) 2500 example_upsert (map example_target (seqZ 1 51)) (example_target 52))
    as (Hsize & Hrest).
  - split; [by vm_compute|by vm_compute|by vm_compute].
  - apply Forall_map, Forall_forall. intros o _. apply Htgt.
  - apply Htgt.
  - done.
  - split; [by vm_compute|exact Hrest].
Defined.
