(* ===== verification/ReplicaReads.v ===== *)
(** * Reads from replicas: [core/operations/document_get_any_replica.hxx],
      [document_get_all_replicas.hxx], [document_lookup_in_any_replica.hxx] and
      [document_lookup_in_all_replicas.hxx]

    A read asks every node that holds a copy of the document
    ([core/impl/replica_utils.cxx]).  The requests share a context; their
    handlers run on any thread, one at a time under its mutex.  The [any]
    variants answer with the first success and cancel the other requests, the
    [all] variants answer when the last response has come. *)

From S2P Require Import Prelude ByteOrder Protocol Topology McbpParser ClientRequest ClientResponse Commands Transactions SubdocOps Operations.

(** ** The nodes to read from: [core/impl/replica_utils.cxx] *)

Inductive read_preference := no_preference | selected_server_group | selected_server_group_or_all_available.
#[export] Instance read_preference_eq_dec : EqDecision read_preference.
Proof. solve_decision. Defined.

Record readable_node := ReadableNode { rn_is_replica : bool; rn_index : Z }.

(** The loop over the copies: those that a node holds, and those of the group *)
Fixpoint collect_nodes (id : document_id) (config : configuration) (group : bytes) (idxs : list Z)
    (available local : list readable_node) : outcome topology_error (list readable_node * list readable_node) :=
  match idxs with
  | [] => Ok (available, local)
  | idx :: idxs =>
      '(_, server) ← map_key config (id_key id) idx;
      match server with
      | Some server =>
          if decide (server < zsize (nodes config)) then
            let n := ReadableNode (negb (idx =? 0)) idx in
            holder ← at_ (nodes config) server;
            collect_nodes id config group idxs (available ++ [n])
              (if bool_decide (group = server_group holder) then local ++ [n] else local)
          else collect_nodes id config group idxs available local
      | None => collect_nodes id config group idxs available local
      end
  end.

(** [*config] *)
Definition deref (config : option configuration) : outcome topology_error configuration :=
  match config with Some c => Ok c | None => Fault end.

Definition effective_nodes (id : document_id) (config : option configuration) (preference : read_preference)
    (group : bytes) : outcome topology_error (list readable_node) :=
  if decide (preference = selected_server_group ∧ group = []) then Ok []
  else
    c ← deref config;
    '(available, local) ← collect_nodes id c group (seqZ 0 (default 0 (num_replicas c) + 1)) [] [];
    Ok (match preference with
        | no_preference => available
        | selected_server_group => local
        | selected_server_group_or_all_available => if decide (local = []) then available else local
        end).

(** ** What is answered before any request is sent *)

(** The arguments of the message that is logged when there are no nodes are
    evaluated at every level, [config->num_replicas] among them. *)
Definition log_no_nodes (config : option configuration) : outcome topology_error () :=
  c ← deref config; Ok (let _ := num_replicas c in tt).

(** [if (e && !ec) ec = e] *)
Definition or_error (ec e : option error_code) : option error_code := match ec with None => e | _ => ec end.

(** An error for the handler, or the nodes to read from.  [ec] and [config] are
    what [with_bucket_configuration] passes, [e] and [group] come from [origin]. *)
Definition get_any_replica_nodes (id : document_id) (preference : read_preference) (group : bytes)
    (ec : option error_code) (config : option configuration) (e : option error_code) :
    outcome topology_error (error_code + list readable_node) :=
  let ec := or_error ec e in
  nodes ← effective_nodes id config preference group;
  ec ← (if decide (nodes = []) then
          _ ← log_no_nodes config; Ok (Some (errc_key_value KeyValue.document_irretrievable))
        else Ok ec);
  Ok (match ec with Some ec => inl ec | None => inr nodes end).

Definition get_all_replicas_nodes (id : document_id) (preference : read_preference) (group : bytes)
    (ec : option error_code) (config : option configuration) (e : option error_code) :
    outcome topology_error (error_code + list readable_node) :=
  match or_error ec e with
  | Some ec => Ok (inl ec)
  | None =>
      nodes ← effective_nodes id config preference group;
      if decide (nodes = []) then
        _ ← log_no_nodes config; Ok (inl (errc_key_value KeyValue.document_irretrievable))
      else Ok (inr nodes)
  end.

(** Both lookups.  [open_ec] is what [open_bucket] passes. *)
Definition lookup_in_replicas_nodes (id : document_id) (specs : list subdoc_command) (preference : read_preference)
    (group : bytes) (open_ec ec : option error_code) (config : option configuration) (e : option error_code) :
    outcome topology_error (error_code + list readable_node) :=
  match open_ec with
  | Some ec => Ok (inl ec)
  | None =>
      c ← deref config;
      let ec := if negb (Capability.supports_subdoc_read_replica (capabilities c))
                then Some (errc_common Common.feature_not_available) else ec in
      let ec := or_error ec e in
      nodes ← effective_nodes id config preference group;
      ec ← (if decide (nodes = []) then
              _ ← log_no_nodes config; Ok (Some (errc_key_value KeyValue.document_irretrievable))
            else Ok ec);
      let ec := if bool_decide (ec = None) && bool_decide (specs = [])
                then Some (errc_common Common.invalid_argument) else ec in
      Ok (match ec with Some ec => inl ec | None => inr nodes end)
  end.

(** *** The requests that are sent to the nodes *)

Definition new_target (id : document_id) : target := Target id 0 0.

(** The index of the copy is in the identifier of the document. *)
Inductive get_sub_request :=
  | sub_get_replica (node_index : Z) (r : get_replica_request)
  | sub_get (r : get_request).

Definition get_sub_request_for (id : document_id) (n : readable_node) : get_sub_request :=
  if rn_is_replica n then sub_get_replica (rn_index n) (GetReplicaRequest (new_target id))
  else sub_get (GetRequest (new_target id)).

(** [impl::lookup_in_replica_request] *)
Record lookup_in_replica_request := LookupInReplicaRequest {
  lr_id : document_id;
  lr_node_index : Z;
  lr_partition : Z;
  lr_opaque : Z;
  lr_access_deleted : bool;
  lr_specs : list subdoc_command;
}.

(** [encode_to]: the flags of the specs are left as they are. *)
Record encoded_lookup_in_replica := EncodedLookupInReplica {
  elr_opaque : Z;
  elr_partition : Z;
  elr_id : document_id;
  elr_read_replica : bool;
  elr_access_deleted : bool;
  elr_specs : list spec;
}.

Definition lookup_in_replica_encode_to (r : lookup_in_replica_request) : encoded_lookup_in_replica :=
  EncodedLookupInReplica (lr_opaque r) (lr_partition r) (lr_id r) true (lr_access_deleted r)
    (sort (λ lhs rhs, is_xattr lhs && negb (is_xattr rhs)) (imap (λ i c, Spec c i) (lr_specs r))).

Inductive lookup_sub_request :=
  | sub_lookup_in_replica (r : lookup_in_replica_request)
  | sub_lookup_in (r : lookup_in_operation).

Definition lookup_sub_request_for (id : document_id) (specs : list subdoc_command) (access_deleted : bool)
    (n : readable_node) : lookup_sub_request :=
  if rn_is_replica n then sub_lookup_in_replica (LookupInReplicaRequest id (rn_index n) 0 0 access_deleted specs)
  else sub_lookup_in (LookupInOperation id 0 0 false specs).

(** ** The shared context of a read *)

(** What the handlers do with the responses of the requests; the results of the
    two kinds of reads differ. *)
Class ReplicaRead (Resp Entry AnyOut AllOut : Type) := {
  (** [resp.ctx.ec()] or [resp.fields.empty()] *)
  failed : Resp → bool;
  (** [resp.ctx.override_ec(document_irretrievable)] *)
  irretrievable : Resp → Resp;
  (** The response for the handler, and the entry of a result; the flag says
      whether the copy is a replica. *)
  any_result : bool → Resp → AnyOut;
  all_entry : bool → Resp → Entry;
  all_error : Resp → AllOut;
  all_result : list Entry → AllOut;
}.

(** [handler_] says whether the handler is still there; the tokens of the [any]
    variants are the numbers of their requests. *)
Record replica_context (Entry : Type) := ReplicaContext {
  handler_ : bool;
  expected_responses_ : Z;
  done_ : bool;
  cancel_tokens_ : list nat;
  result_ : list Entry;
}.
Arguments ReplicaContext {_} _ _ _ _ _.
Arguments handler_ {_} _.
Arguments expected_responses_ {_} _.
Arguments done_ {_} _.
Arguments cancel_tokens_ {_} _.
Arguments result_ {_} _.

(** What a handler still has to do when it has left the mutex: its copy of
    [resp], [local_handler] and [cancel_tokens]. *)
Record completion (Resp : Type) := Completion {
  co_replica : bool;
  co_resp : Resp;
  co_handler : bool;
  co_tokens : list nat;
}.
Arguments Completion {_} _ _ _ _.
Arguments co_replica {_} _.
Arguments co_resp {_} _.
Arguments co_handler {_} _.
Arguments co_tokens {_} _.

Section context.
Context `{ReplicaRead Resp Entry AnyOut AllOut}.

Definition new_context (expected : nat) : replica_context Entry :=
  ReplicaContext true (Z.of_nat expected) false [] [].

Definition add_cancellation_token (token : nat) (c : replica_context Entry) : replica_context Entry :=
  ReplicaContext (handler_ c) (expected_responses_ c) (done_ c) (cancel_tokens_ c ++ [token]) (result_ c).

(** [--ctx->expected_responses_], a [std::size_t] *)
Definition decrement_expected (c : replica_context Entry) : replica_context Entry :=
  ReplicaContext (handler_ c) (u64 (expected_responses_ c - 1)) (done_ c) (cancel_tokens_ c) (result_ c).

(** The handlers of the [any] variants, under the mutex *)
Definition any_response (replica : bool) (resp : Resp) (c : replica_context Entry) :
    replica_context Entry * option (completion Resp) :=
  if done_ c then (c, None)
  else
    let c := decrement_expected c in
    if failed resp && (0 <? expected_responses_ c) then (c, None)
    else
      let resp := if failed resp then irretrievable resp else resp in
      (ReplicaContext false (expected_responses_ c) true [] (result_ c),
       Some (Completion replica resp (handler_ c) (cancel_tokens_ c))).

(** The handlers of the [all] variants *)
Definition all_response (replica : bool) (resp : Resp) (c : replica_context Entry) :
    replica_context Entry * option (completion Resp) :=
  if done_ c then (c, None)
  else
    let c := decrement_expected c in
    if failed resp && (0 <? expected_responses_ c) then (c, None)
    else
      let c := if failed resp then c
               else ReplicaContext (handler_ c) (expected_responses_ c) (done_ c) (cancel_tokens_ c)
                      (result_ c ++ [all_entry replica resp]) in
      if expected_responses_ c =? 0 then
        (ReplicaContext false (expected_responses_ c) true (cancel_tokens_ c) (result_ c),
         Some (Completion replica resp (handler_ c) []))
      else (c, None).

(** What the handlers pass to [local_handler] *)
Definition any_deliver (c : replica_context Entry) (co : completion Resp) : AnyOut :=
  any_result (co_replica co) (co_resp co).

Definition all_deliver (c : replica_context Entry) (co : completion Resp) : AllOut :=
  match result_ c with [] => all_error (co_resp co) | result => all_result result end.
End context.

(** ** The reads as a machine

    The thread of [execute] walks through the nodes: it creates the request of
    a node with its token ([prepare]) and passes it to the core ([launch]).
    Every request that was passed to the core responds at most once, at any
    time ([respond]); its handler runs in the mutex, and what it does afterwards
    are steps of their own ([proceed]): it cancels one token or, when none are
    left, invokes the handler of the read. *)

Inductive event (Resp : Type) := prepare | launch | respond (i : nat) (r : Resp) | proceed.
Arguments prepare {_}.
Arguments launch {_}.
Arguments respond {_} _ _.
Arguments proceed {_}.

Record world (Resp Entry Out : Type) := World {
  w_ctx : replica_context Entry;
  w_next : nat;
  w_prepared : bool;
  w_running : gset nat;
  w_completions : list (completion Resp);
  w_cancelled : list nat;
  w_calls : list Out;
  (** The responses, in the order in which their handlers had the mutex *)
  w_log : list (nat * Resp);
}.
Arguments World {_ _ _} _ _ _ _ _ _ _ _.
Arguments w_ctx {_ _ _} _.
Arguments w_next {_ _ _} _.
Arguments w_prepared {_ _ _} _.
Arguments w_running {_ _ _} _.
Arguments w_completions {_ _ _} _.
Arguments w_cancelled {_ _ _} _.
Arguments w_calls {_ _ _} _.
Arguments w_log {_ _ _} _.

Section machine.
Context {Resp Entry Out : Type}.
(** One of the two kinds of reads: whether its requests have tokens, its
    handlers, and what they deliver *)
Context (cancellable : bool)
  (on_response : bool → Resp → replica_context Entry → replica_context Entry * option (completion Resp))
  (deliver : replica_context Entry → completion Resp → Out).
Context (nodes : list readable_node).

Definition start : world Resp Entry Out := World (new_context (length nodes)) 0 false ∅ [] [] [] [].

Definition step (ev : event Resp) (w : world Resp Entry Out) : option (world Resp Entry Out) :=
  match ev with
  | prepare =>
      if negb (w_prepared w) && bool_decide (w_next w < length nodes)%nat then
        Some (World (if cancellable then add_cancellation_token (w_next w) (w_ctx w) else w_ctx w)
                (w_next w) true (w_running w) (w_completions w) (w_cancelled w) (w_calls w) (w_log w))
      else None
  | launch =>
      if w_prepared w then
        Some (World (w_ctx w) (S (w_next w)) false ({[w_next w]} ∪ w_running w) (w_completions w) (w_cancelled w)
                (w_calls w) (w_log w))
      else None
  | respond i r =>
      match nodes !! i with
      | Some n =>
          if decide (i ∈ w_running w) then
            let '(c, co) := on_response (rn_is_replica n) r (w_ctx w) in
            Some (World c (w_next w) (w_prepared w) (w_running w ∖ {[i]}) (w_completions w ++ option_list co)
                    (w_cancelled w) (w_calls w) (w_log w ++ [(i, r)]))
          else None
      | None => None
      end
  | proceed =>
      match w_completions w with
      | co :: cos =>
          match co_tokens co with
          | token :: tokens =>
              Some (World (w_ctx w) (w_next w) (w_prepared w) (w_running w)
                      (Completion (co_replica co) (co_resp co) (co_handler co) tokens :: cos)
                      (w_cancelled w ++ [token]) (w_calls w) (w_log w))
          | [] =>
              Some (World (w_ctx w) (w_next w) (w_prepared w) (w_running w) cos (w_cancelled w)
                      (w_calls w ++ if co_handler co then [deliver (w_ctx w) co] else []) (w_log w))
          end
      | [] => None
      end
  end.

Fixpoint run (evs : list (event Resp)) (w : world Resp Entry Out) : option (world Resp Entry Out) :=
  match evs with [] => Some w | ev :: evs => w ← step ev w; run evs w end.
End machine.

(** ** The four reads *)

Definition no_context : context := Context_ None None [].
Definition override_ec (ec : error_code) (c : context) : context := Context_ (Some ec) (ctx_status_code c) (ctx_bucket c).

(** *** get_any_replica and get_all_replicas *)

Record get_any_replica_response := GetAnyReplicaResponse {
  gar_ctx : context;
  gar_value : bytes;
  gar_cas : Z;
  gar_flags : Z;
  gar_replica : bool;
}.

(** The identity of the node that answered is left out of the entries. *)
Record get_all_replicas_entry := GetAllReplicasEntry {
  gae_value : bytes;
  gae_cas : Z;
  gae_flags : Z;
  gae_replica : bool;
}.
Record get_all_replicas_response := GetAllReplicasResponse {
  gal_ctx : context;
  gal_entries : list get_all_replicas_entry;
}.

#[export] Instance document_reads : ReplicaRead document_result get_all_replicas_entry get_any_replica_response get_all_replicas_response := {|
  failed := λ r, has (ctx_ec (dr_ctx r));
  irretrievable := λ r,
    DocumentResult (override_ec (errc_key_value KeyValue.document_irretrievable) (dr_ctx r)) (dr_value r) (dr_cas r) (dr_flags r);
  any_result := λ replica r, GetAnyReplicaResponse (dr_ctx r) (dr_value r) (dr_cas r) (dr_flags r) replica;
  all_entry := λ replica r, GetAllReplicasEntry (dr_value r) (dr_cas r) (dr_flags r) replica;
  all_error := λ r, GetAllReplicasResponse (dr_ctx r) [];
  all_result := λ entries, GetAllReplicasResponse no_context entries;
|}.

(** *** lookup_in_any_replica and lookup_in_all_replicas *)

Record lookup_in_any_replica_response := LookupInAnyReplicaResponse {
  lar_ec : option error_code;
  lar_first_error : option bytes * option Z;
  lar_cas : Z;
  lar_fields : list field;
  lar_deleted : bool;
  lar_is_replica : bool;
}.

Record lookup_in_all_replicas_entry := LookupInAllReplicasEntry {
  lae_cas : Z;
  lae_fields : list field;
  lae_deleted : bool;
  lae_is_replica : bool;
}.
Record lookup_in_all_replicas_response := LookupInAllReplicasResponse {
  lal_ec : option error_code;
  lal_entries : list lookup_in_all_replicas_entry;
}.

#[export] Instance lookup_reads :
    ReplicaRead subdoc_response lookup_in_all_replicas_entry lookup_in_any_replica_response lookup_in_all_replicas_response := {|
  failed := λ r, bool_decide (length (rs_fields r) = 0%nat);
  irretrievable := λ r,
    SubdocResponse (Some (errc_key_value KeyValue.document_irretrievable)) (rs_first_error_path r) (rs_first_error_index r)
      (rs_deleted r) (SubdocOps.rs_cas r) (rs_token r) (rs_fields r);
  any_result := λ replica r,
    LookupInAnyReplicaResponse (rs_ec r) (rs_first_error_path r, rs_first_error_index r) (SubdocOps.rs_cas r) (rs_fields r)
      (rs_deleted r) replica;
  all_entry := λ replica r, LookupInAllReplicasEntry (SubdocOps.rs_cas r) (rs_fields r) (rs_deleted r) replica;
  all_error := λ r, LookupInAllReplicasResponse (rs_ec r) [];
  all_result := λ entries, LookupInAllReplicasResponse None entries;
|}.

(** ** What the reads answer *)

Section answers.
Context `{ReplicaRead Resp Entry AnyOut AllOut}.
Context (nodes : list readable_node).

Definition replica_at (i : nat) : bool := from_option rn_is_replica false (nodes !! i).

(** The first success, or the last failure of all copies with another error *)
Definition any_answer (log : list (nat * Resp)) : list AnyOut :=
  match list_find (λ p, failed p.2 = false) log with
  | Some (_, (i, r)) => [any_result (replica_at i) r]
  | None =>
      if decide (length log = length nodes) then
        (λ p, any_result (replica_at p.1) (irretrievable p.2)) <$> option_list (last log)
      else []
  end.

(** All successes once all copies have answered, or the error of the last *)
Definition successes (log : list (nat * Resp)) : list Entry :=
  (λ p, all_entry (replica_at p.1) p.2) <$> filter (λ p, failed p.2 = false) log.

Definition all_answer (log : list (nat * Resp)) : list AllOut :=
  if decide (length log = length nodes) then
    match successes log with
    | [] => all_error ∘ snd <$> option_list (last log)
    | entries => [all_result entries]
    end
  else [].
End answers.

(** ** Lemmas: the machine *)

Section machine_lemmas.
Context {Resp Entry Out : Type}.
Context (cancellable : bool)
  (on_response : bool → Resp → replica_context Entry → replica_context Entry * option (completion Resp))
  (deliver : replica_context Entry → completion Resp → Out).
Context (nodes : list readable_node) (answer : list (nat * Resp) → list Out)
  (context_ok : replica_context Entry → list (nat * Resp) → Prop).

Definition tokens_of (cos : list (completion Resp)) : list nat := concat (map co_tokens cos).
#[local] Arguments tokens_of : simpl never.
Definition open (c : replica_context Entry) : nat := if done_ c then 0 else 1.

(** What the two kinds of handlers promise to the machine *)
Record handler_laws : Prop := {
  law_start : context_ok (new_context (length nodes)) [] ∧ answer [] = [];
  law_add_token : ∀ token c log, cancellable = true → context_ok c log → context_ok (add_cancellation_token token c) log;
  law_token_deliver : ∀ token c, deliver (add_cancellation_token token c) = deliver c;
  law_deliver : ∀ c co tokens, deliver c (Completion (co_replica co) (co_resp co) (co_handler co) tokens) = deliver c co;
  law_answered : ∀ log, length log = length nodes → ∃ o, answer log = [o];
  law_respond : ∀ i n r c c' co log,
    context_ok c log → nodes !! i = Some n → (length log < length nodes)%nat →
    on_response (rn_is_replica n) r c = (c', co) →
    context_ok c' (log ++ [(i, r)]) ∧ answer (log ++ [(i, r)]) = answer log ++ (deliver c' <$> option_list co) ∧
    Forall (λ co, co_handler co = true) (option_list co) ∧
    (answer log = [] ∨ deliver c' = deliver c) ∧
    cancel_tokens_ c = tokens_of (option_list co) ++ cancel_tokens_ c' ∧
    (length (option_list co) + open c' ≤ open c)%nat;
}.
Context (laws : handler_laws).

#[local] Abbreviation world := (world Resp Entry Out).
#[local] Abbreviation step := (step cancellable on_response deliver nodes).
#[local] Abbreviation run := (run cancellable on_response deliver nodes).

Definition prepared (w : world) : nat := w_next w + if w_prepared w then 1 else 0.

Record reachable_ok (w : world) : Prop := {
  ok_next : (prepared w ≤ length nodes)%nat;
  ok_ids : w_running w ∪ list_to_set ((w_log w).*1) = set_seq 0 (w_next w);
  ok_disjoint : w_running w ## list_to_set ((w_log w).*1);
  ok_nodup : NoDup (w_log w).*1;
  ok_context : context_ok (w_ctx w) (w_log w);
  ok_answer : w_calls w ++ (deliver (w_ctx w) <$> w_completions w) = answer (w_log w);
  ok_handlers : Forall (λ co, co_handler co = true) (w_completions w);
  ok_tokens : w_cancelled w ++ tokens_of (w_completions w) ++ cancel_tokens_ (w_ctx w) =
    if cancellable then seq 0 (prepared w) else [];
}.

Lemma reachable_counts w : reachable_ok w → (length (w_log w) + size (w_running w) = w_next w)%nat.
Proof.
  intros []. apply (f_equal size) in ok_ids0. rewrite size_union, size_set_seq in ok_ids0 by done.
  rewrite size_list_to_set, length_fmap in ok_ids0 by done. lia.
Qed.

Lemma start_ok : reachable_ok (start nodes).
Proof.
  destruct (law_start laws) as [Hc Ha].
  constructor; cbn; try done; [lia|constructor|by destruct cancellable].
Qed.

(** An upper bound of the number of steps that are left *)
Definition potential (w : world) : nat :=
  4 * (length nodes - w_next w) - (if w_prepared w then 2 else 0) + size (w_running w) +
  length (cancel_tokens_ (w_ctx w)) + length (tokens_of (w_completions w)) + length (w_completions w) + open (w_ctx w).

Lemma prepare_ok w w' : reachable_ok w → step prepare w = Some w' → reachable_ok w' ∧ (potential w' < potential w)%nat.
Proof.
  intros Hok Hs. pose proof Hok as []. cbn in Hs.
  destruct (w_prepared w) eqn:Hp; [done|]. cbn [negb andb] in Hs. case_bool_decide as Hlt; [|done]. simplify_eq.
  unfold prepared in ok_next0, ok_tokens0. rewrite Hp in ok_next0, ok_tokens0. split.
  - constructor; cbn; try done; [unfold prepared; cbn; lia|..].
    + pose proof (law_add_token laws (w_next w) (w_ctx w)) as Hadd. destruct cancellable; [by apply Hadd|done].
    + destruct cancellable; [by rewrite (law_token_deliver laws)|done].
    + unfold prepared. cbn. destruct cancellable; [|done].
      cbn. rewrite Nat.add_0_r in ok_tokens0. by rewrite Nat.add_1_r, seq_S, <-ok_tokens0, <-!app_assoc.
  - unfold potential. cbn. rewrite Hp. destruct cancellable; cbn; rewrite ?length_app; cbn; unfold open; cbn; lia.
Qed.

Lemma launch_ok w w' : reachable_ok w → step launch w = Some w' → reachable_ok w' ∧ (potential w' < potential w)%nat.
Proof.
  intros Hok Hs. pose proof Hok as []. cbn in Hs. destruct (w_prepared w) eqn:Hp; [|done]. simplify_eq.
  unfold prepared in ok_next0, ok_tokens0. rewrite Hp in ok_next0, ok_tokens0.
  assert (Hnew : (w_next w ∉ w_running w) ∧ w_next w ∉ (w_log w).*1).
  { assert (w_next w ∉ (w_running w ∪ list_to_set ((w_log w).*1))) as Hn; [|set_solver].
    rewrite ok_ids0, elem_of_set_seq. lia. }
  split.
  - constructor; cbn; try done; [unfold prepared; cbn; lia|..].
    + rewrite <-(assoc_L (∪)), ok_ids0. apply set_eq. intros j. rewrite !elem_of_union, !elem_of_singleton, !elem_of_set_seq. lia.
    + set_solver.
    + unfold prepared. cbn. rewrite ok_tokens0. destruct cancellable; [|done]. by rewrite Nat.add_1_r, Nat.add_0_r.
  - unfold potential. cbn. rewrite Hp, size_union by set_solver. rewrite size_singleton. lia.
Qed.

Lemma respond_ok i r w w' : reachable_ok w → step (respond i r) w = Some w' → reachable_ok w' ∧ (potential w' < potential w)%nat.
Proof.
  intros Hok Hs. pose proof (reachable_counts w Hok) as Hcount. pose proof Hok as []. cbn in Hs.
  destruct (nodes !! i) as [n|] eqn:Hn; [|done]. destruct (decide (i ∈ w_running w)) as [Hi|]; [|done].
  destruct (on_response _ _ _) as [c co] eqn:Hr. simplify_eq.
  assert (Hsize : size (w_running w) = S (size (w_running w ∖ {[i]}))).
  { rewrite (union_difference_singleton_L i (w_running w)) at 1 by done. rewrite size_union by set_solver.
    by rewrite size_singleton. }
  destruct (law_respond laws i n r (w_ctx w) c co (w_log w)) as (Hc & Ha & Hh & Hd & Ht & Hl);
    [done|done|unfold prepared in ok_next0; lia|done|].
  assert (Hi' : i ∉ (w_log w).*1) by set_solver.
  split.
  - constructor; cbn; try done.
    + rewrite fmap_app, list_to_set_app_L. rewrite <-ok_ids0. cbn [fmap list_fmap fst list_to_set].
      apply set_eq. intros j. rewrite !elem_of_union, elem_of_difference, !elem_of_singleton, elem_of_empty.
      destruct (decide (j = i)) as [->|]; naive_solver.
    + rewrite fmap_app, list_to_set_app_L. set_solver.
    + rewrite fmap_app, NoDup_app. cbn. split_and!; [done|set_solver|apply NoDup_singleton].
    + rewrite Ha, fmap_app, app_assoc. f_equal. destruct Hd as [He|Hd]; [|by rewrite Hd].
      rewrite He in ok_answer0. apply app_nil in ok_answer0 as [-> Hm]. apply fmap_nil_inv in Hm. by rewrite Hm, He.
    + by apply Forall_app.
    + unfold tokens_of. rewrite map_app, concat_app. fold (tokens_of (w_completions w)) (tokens_of (option_list co)).
      rewrite <-app_assoc, <-Ht. done.
  - unfold potential. cbn. unfold tokens_of. rewrite map_app, concat_app, !length_app.
    fold (tokens_of (w_completions w)) (tokens_of (option_list co)). apply (f_equal length) in Ht.
    rewrite length_app in Ht. lia.
Qed.

Lemma proceed_ok w w' : reachable_ok w → step proceed w = Some w' → reachable_ok w' ∧ (potential w' < potential w)%nat.
Proof.
  intros Hok Hs. pose proof Hok as []. cbn in Hs. destruct (w_completions w) as [|co cos] eqn:Hcos; [done|].
  destruct (co_tokens co) as [|token tokens] eqn:Htokens; simplify_eq.
  - rewrite Forall_cons in ok_handlers0. destruct ok_handlers0 as [Hh Hhs]. split.
    + constructor; cbn; try done; [by rewrite Hh, <-app_assoc|]. unfold tokens_of in *. cbn in ok_tokens0.
      by rewrite Htokens in ok_tokens0.
    + unfold potential. cbn. rewrite Hcos. unfold tokens_of. cbn. rewrite Htokens. cbn. lia.
  - split.
    + constructor; cbn; try done; [by rewrite (law_deliver laws)|by apply Forall_cons in ok_handlers0 as [? ?]; constructor|].
      unfold tokens_of in *. cbn in *. rewrite Htokens in ok_tokens0.
      etrans; [|exact ok_tokens0]. cbn. by rewrite <-app_assoc.
    + unfold potential. cbn. rewrite Hcos. unfold tokens_of. cbn. rewrite Htokens. cbn. lia.
Qed.

Lemma run_ok evs w w' : reachable_ok w → run evs w = Some w' → reachable_ok w' ∧ (length evs + potential w' ≤ potential w)%nat.
Proof.
  revert w. induction evs as [|ev evs IH]; intros w Hok Hr; cbn in Hr; [simplify_eq; split; [done|cbn; lia]|].
  apply bind_Some in Hr as (w1 & Hs & Hr).
  assert (reachable_ok w1 ∧ (potential w1 < potential w)%nat) as [Hok1 Hp].
  { destruct ev; eauto using prepare_ok, launch_ok, respond_ok, proceed_ok. }
  destruct (IH _ Hok1 Hr) as [? ?]. split; [done|]. cbn [length]. lia.
Qed.

(** Nothing is running and no thread can go on. *)
Definition quiet (w : world) : Prop :=
  w_running w = ∅ ∧ step prepare w = None ∧ step launch w = None ∧ step proceed w = None.

Lemma quiet_done w : reachable_ok w → quiet w → length (w_log w) = length nodes ∧ w_completions w = [] ∧ w_calls w = answer (w_log w).
Proof.
  intros Hok (Hrun & Hp & Hl & Hpr). pose proof (reachable_counts w Hok) as Hcount. pose proof Hok as [].
  rewrite Hrun, size_empty in Hcount. cbn in Hp, Hl, Hpr. unfold prepared in ok_next0.
  destruct (w_prepared w); [done|]. cbn [negb andb] in Hp. case_bool_decide as Hlt; [done|].
  destruct (w_completions w) as [|co cos]; [|by destruct (co_tokens co)].
  split_and!; [lia|done|]. by rewrite <-ok_answer0, fmap_nil, app_nil_r.
Qed.
End machine_lemmas.

(** ** Lemmas: the handlers *)

Section handler_lemmas.
Context `{ReplicaRead Resp Entry AnyOut AllOut}.
Context (nodes : list readable_node) (Hnodes : (0 < length nodes)%nat) (Hsize : Z.of_nat (length nodes) < 2 ^ 64).

Definition all_failed (log : list (nat * Resp)) : Prop := Forall (λ p, failed p.2 = true) log.

(** The read waits: for all copies that have not answered *)
Definition waiting (c : replica_context Entry) (log : list (nat * Resp)) : Prop :=
  handler_ c = true ∧ expected_responses_ c = zsize nodes - zsize log ∧ (length log < length nodes)%nat.

Definition any_context_ok (c : replica_context Entry) (log : list (nat * Resp)) : Prop :=
  if done_ c then length log = length nodes ∨ ¬ all_failed log else waiting c log ∧ all_failed log.

Definition all_context_ok (c : replica_context Entry) (log : list (nat * Resp)) : Prop :=
  cancel_tokens_ c = [] ∧ result_ c = successes nodes log ∧
  if done_ c then length log = length nodes else waiting c log.

Lemma replica_at_lookup i n : nodes !! i = Some n → replica_at nodes i = rn_is_replica n.
Proof. unfold replica_at. by intros ->. Qed.

(** The counter of the responses that are expected, after one more *)
Lemma expected_after c log :
  waiting c log → u64 (expected_responses_ c - 1) = zsize nodes - zsize log - 1 ∧ 0 ≤ zsize nodes - zsize log - 1.
Proof. intros (_ & -> & Hl). unfold zsize. rewrite wrap_small by (unfold in_width; lia). lia. Qed.

Lemma not_all_failed log : ¬ all_failed log → ∃ j p, list_find (λ p : nat * Resp, failed p.2 = false) log = Some (j, p).
Proof.
  intros Hf. destruct (list_find _ log) as [[j p]|] eqn:Hfind; [by exists j, p|].
  apply list_find_None in Hfind. destruct Hf. eapply Forall_impl; [done|]. intros [? x]. cbn. by destruct (failed x).
Qed.

Lemma all_failed_find log : all_failed log → list_find (λ p : nat * Resp, failed p.2 = false) log = None.
Proof. intros Hf. apply list_find_None. eapply Forall_impl; [done|]. intros [? x]. cbn. by intros ->. Qed.

Lemma any_answer_failed log : all_failed log → (length log < length nodes)%nat → any_answer nodes log = [].
Proof. intros Hf Hl. unfold any_answer. rewrite all_failed_find by done. by rewrite decide_False by lia. Qed.

Lemma any_answer_settled log x : ¬ all_failed log → any_answer nodes (log ++ [x]) = any_answer nodes log.
Proof.
  intros Hf. destruct (not_all_failed log Hf) as (j & p & Hfind). unfold any_answer.
  rewrite (list_find_app_l _ _ _ _ _ Hfind). by rewrite Hfind.
Qed.

Lemma any_answer_next log i r :
  all_failed log →
  any_answer nodes (log ++ [(i, r)]) =
    if failed r then if decide (S (length log) = length nodes) then [any_result (replica_at nodes i) (irretrievable r)] else []
    else [any_result (replica_at nodes i) r].
Proof.
  intros Hf. unfold any_answer. rewrite list_find_app_r by (by apply all_failed_find). cbn.
  rewrite length_app, last_snoc. cbn. rewrite Nat.add_1_r. destruct (failed r) eqn:Hr; cbn.
  - rewrite decide_False by congruence. done.
  - by rewrite decide_True.
Qed.

Lemma any_laws : handler_laws true any_response any_deliver nodes (any_answer nodes) any_context_ok.
Proof.
  constructor.
  - split; [|unfold any_answer; cbn; by rewrite decide_False by lia]. split; [|constructor].
    split_and!; [done|unfold zsize; cbn; lia|cbn; lia].
  - intros token c log _ Hc. exact Hc.
  - done.
  - done.
  - intros log Hl. unfold any_answer. destruct (list_find _ _) as [[? [i r]]|]; [by eexists|]. rewrite decide_True by done.
    destruct (last log) as [x|] eqn:Hlast; [by eexists|]. apply last_None in Hlast as ->. cbn in Hl. lia.
  - intros i n r c c' co log Hc Hn Hlen Hr. unfold any_response in Hr. unfold any_context_ok in Hc |- *.
    destruct (done_ c) eqn:Hd.
    { simplify_eq. destruct Hc as [?|Hf]; [lia|]. rewrite Hd. cbn. rewrite app_nil_r, any_answer_settled by done. unfold open.
      split_and!; try done; [|by right]. right. unfold all_failed. rewrite Forall_app. tauto. }
    destruct Hc as [Hw Hf]. destruct (expected_after c log Hw) as [He He0]. cbn in Hr. rewrite He in Hr.
    destruct Hw as (Hh & _ & _). rewrite any_answer_next, (any_answer_failed log), (replica_at_lookup _ _ Hn) by done.
    unfold zsize in *. destruct (failed r) eqn:Hfr; cbn [andb] in Hr; [destruct (0 <? _) eqn:Hpos|].
    + apply Z.ltb_lt in Hpos. simplify_eq. cbn. rewrite Hd, decide_False by lia. unfold open. cbn. rewrite Hd.
      split; [|split_and!; by (done || left || constructor)].
      split; [|unfold all_failed; by rewrite Forall_app, Forall_singleton].
      unfold waiting. cbn. unfold zsize. rewrite length_app. cbn. split_and!; [done|rewrite He; lia|lia].
    + apply Z.ltb_ge in Hpos. simplify_eq. cbn. rewrite decide_True by lia. unfold open. cbn. rewrite Hd.
      split; [left; rewrite length_app; cbn; lia|].
      split_and!; [done|by repeat constructor|by left|unfold tokens_of; cbn; by rewrite !app_nil_r|done].
    + simplify_eq. cbn. unfold open. cbn. rewrite Hd. split.
      { right. unfold all_failed. rewrite Forall_app, Forall_singleton. cbn. intros [_ ?]. congruence. }
      split_and!; [done|by repeat constructor|by left|unfold tokens_of; cbn; by rewrite !app_nil_r|done].
Qed.

Lemma successes_next log i r :
  successes nodes (log ++ [(i, r)]) = successes nodes log ++ (if failed r then [] else [all_entry (replica_at nodes i) r]).
Proof.
  unfold successes. rewrite filter_app, fmap_app. f_equal. destruct (failed r) eqn:Hr.
  - by rewrite filter_cons_False by (cbn; congruence).
  - by rewrite filter_cons_True by done.
Qed.

Lemma all_laws : handler_laws false all_response all_deliver nodes (all_answer nodes) all_context_ok.
Proof.
  constructor.
  - split; [|unfold all_answer; cbn; by rewrite decide_False by lia]. split; [done|]. split; [done|].
    split_and!; [done|unfold zsize; cbn; lia|cbn; lia].
  - done.
  - done.
  - done.
  - intros log Hl. unfold all_answer. rewrite decide_True by done. destruct (successes nodes log); [|by eexists].
    destruct (last log) as [x|] eqn:Hlast; [by eexists|]. apply last_None in Hlast as ->. cbn in Hl. lia.
  - intros i n r c c' co log (Ht & Hres & Hc) Hn Hlen Hr. unfold all_response in Hr. unfold all_context_ok.
    destruct (done_ c) eqn:Hd; [lia|]. destruct (expected_after c log Hc) as [He He0]. cbn in Hr. rewrite He in Hr.
    destruct Hc as (Hh & _ & _).
    assert (Hnow : all_answer nodes log = []) by (unfold all_answer; by rewrite decide_False by lia). rewrite !Hnow.
    assert (Hsucc : successes nodes (log ++ [(i, r)]) = result_ c ++ (if failed r then [] else [all_entry (rn_is_replica n) r])).
    { by rewrite successes_next, Hres, (replica_at_lookup _ _ Hn). }
    unfold all_answer. rewrite Hsucc, length_app. cbn [length]. unfold zsize in *. unfold open. rewrite Hd.
    destruct (failed r) eqn:Hfr; cbn [andb] in Hr; [rewrite app_nil_r; destruct (0 <? _) eqn:Hpos|].
    + apply Z.ltb_lt in Hpos. simplify_eq. cbn. rewrite Hd, decide_False by lia.
      split; [|split_and!; by (done || left || constructor)].
      split_and!; [done|done|]. unfold waiting. cbn. unfold zsize. rewrite length_app. cbn. split_and!; [done|rewrite He; lia|lia].
    + apply Z.ltb_ge in Hpos. assert (Hz : Z.of_nat (length nodes) - Z.of_nat (length log) - 1 = 0) by lia.
      cbn in Hr. rewrite He, Hz in Hr. cbn in Hr. simplify_eq. cbn. rewrite decide_True by lia.
      rewrite last_snoc. cbn. split; [split_and!; [done|done|lia]|].
      split_and!; [unfold all_deliver; cbn; by destruct (result_ c)|by repeat constructor|by left|done|done].
    + cbn in Hr. destruct (Z.eqb_spec (Z.of_nat (length nodes) - Z.of_nat (length log) - 1) 0) as [H0|H0]; simplify_eq; cbn.
      * rewrite decide_True by lia. split; [split_and!; [done|done|lia]|].
        split_and!; [unfold all_deliver; cbn; by destruct (result_ c)|by repeat constructor|by left|done|done].
      * rewrite Hd, decide_False by lia. split; [|split_and!; by (done || left || constructor)].
        split_and!; [done|done|]. unfold waiting. cbn. unfold zsize. rewrite length_app. cbn. split_and!; [done|lia|lia].
Qed.
End handler_lemmas.

(** ** Lemmas: runs *)

Section runs.
Context {Resp Entry Out : Type}.
Context (cancellable : bool)
  (on_response : bool → Resp → replica_context Entry → replica_context Entry * option (completion Resp))
  (deliver : replica_context Entry → completion Resp → Out).
Context (nodes : list readable_node) (answer : list (nat * Resp) → list Out)
  (context_ok : replica_context Entry → list (nat * Resp) → Prop).
Context (laws : handler_laws cancellable on_response deliver nodes answer context_ok).

(** What holds of every run of a read *)
Record read_spec (evs : list (event Resp)) (w : world Resp Entry Out) : Prop := {
  (** No request answers twice. *)
  read_once : NoDup (w_log w).*1;
  (** What was delivered, or is about to be, is the answer to the responses. *)
  read_answer : w_calls w ++ (deliver (w_ctx w) <$> w_completions w) = answer (w_log w);
  (** The handler is invoked at most once. *)
  read_handler : (length (w_calls w) ≤ 1)%nat;
  (** The read ends, and when it has ended the handler was invoked. *)
  read_bounded : (length evs ≤ 4 * length nodes + 1)%nat;
  read_completes : quiet cancellable on_response deliver nodes w →
    length (w_log w) = length nodes ∧ ∃ o, answer (w_log w) = [o] ∧ w_calls w = [o];
}.

Lemma read_run_ok evs w :
  run cancellable on_response deliver nodes evs (start nodes) = Some w → reachable_ok cancellable deliver nodes answer context_ok w.
Proof. intros Hr. eapply run_ok in Hr as [? _]; [done|exact laws|by eapply start_ok]. Qed.

Lemma read_run evs w :
  (∀ log, (length (answer log) ≤ 1)%nat) →
  run cancellable on_response deliver nodes evs (start nodes) = Some w → read_spec evs w.
Proof.
  intros Hone Hr. eapply run_ok in Hr as [Hok Hlen]; [|exact laws|by eapply start_ok].
  pose proof Hok as []. constructor; [done|done|..].
  - specialize (Hone (w_log w)). rewrite <-ok_answer0, length_app in Hone. lia.
  - assert (Hp : potential nodes (start (Entry:=Entry) (Out:=Out) (Resp:=Resp) nodes) = (4 * length nodes + 1)%nat).
    { unfold potential, start, open, tokens_of. cbn -[Nat.mul]. rewrite size_empty. lia. }
    lia.
  - intros Hq. destruct (quiet_done _ _ _ _ _ _ w Hok Hq) as (Hl & _ & Hc). split; [done|].
    destruct (law_answered _ _ _ _ _ _ laws _ Hl) as [o Ho]. exists o. by rewrite Hc.
Qed.
End runs.

(** ** The claims *)

Section claims.
Context `{ReplicaRead Resp Entry AnyOut AllOut}.
Context (nodes : list readable_node).

Lemma any_answer_once log : (length (any_answer nodes log) ≤ 1)%nat.
Proof.
  unfold any_answer. destruct (list_find _ _) as [[? [? ?]]|]; [cbn; lia|]. case_decide; [|cbn; lia].
  destruct (last log); cbn; lia.
Qed.

Lemma all_answer_once log : (length (all_answer nodes log) ≤ 1)%nat.
Proof.
  unfold all_answer. case_decide; [|cbn; lia]. destruct (successes nodes log); [|cbn; lia]. destruct (last log); cbn; lia.
Qed.

(** C21: A read from any replica, under every interleaving of the thread that
    sends the requests with their responses and the handlers: the handler is
    invoked at most once, with the first success in the order of the mutex, or
    with [document_irretrievable] after all copies have failed; after at most
    four steps per node and one nothing is left to do, and then the handler
    was invoked. *)
Theorem any_replica_read evs (w : world Resp Entry AnyOut) :
  (0 < length nodes)%nat → Z.of_nat (length nodes) < 2 ^ 64 →
  run true any_response any_deliver nodes evs (start nodes) = Some w →
  read_spec true any_response any_deliver nodes (any_answer nodes) evs w.
Proof. intros Hn Hs. apply (read_run _ _ _ _ _ _ (any_laws nodes Hn Hs)), any_answer_once. Qed.

(** C37: A read from all replicas, under every interleaving: the handler is
    invoked at most once, when every copy has answered, with all successes in
    the order in which they arrived, or with the error of the last response
    when there was none; after at most four steps per node and one nothing is
    left to do, and then the handler was invoked. *)
Theorem all_replicas_read evs (w : world Resp Entry AllOut) :
  (0 < length nodes)%nat → Z.of_nat (length nodes) < 2 ^ 64 →
  run false all_response all_deliver nodes evs (start nodes) = Some w →
  read_spec false all_response all_deliver nodes (all_answer nodes) evs w.
Proof. intros Hn Hs. apply (read_run _ _ _ _ _ _ (all_laws nodes Hn Hs)), all_answer_once. Qed.

(** The tokens of a read from any replica: each is cancelled, about to be, or
    was added after the read had its answer; before that none is.  The response
    that settles the read takes the tokens of all requests created so far. *)
Lemma any_replica_tokens evs (w : world Resp Entry AnyOut) :
  (0 < length nodes)%nat → Z.of_nat (length nodes) < 2 ^ 64 →
  run true any_response any_deliver nodes evs (start nodes) = Some w →
  w_cancelled w ++ tokens_of (w_completions w) ++ cancel_tokens_ (w_ctx w) = seq 0 (prepared w) ∧
  (∀ i r w', done_ (w_ctx w) = false → step true any_response any_deliver nodes (respond i r) w = Some w' →
    done_ (w_ctx w') = true → tokens_of (w_completions w') = cancel_tokens_ (w_ctx w) ∧ cancel_tokens_ (w_ctx w') = []).
Proof.
  intros Hn Hs Hr. pose proof (read_run_ok _ _ _ _ _ _ (any_laws nodes Hn Hs) _ _ Hr) as []. split; [done|].
  intros i r w' Hd Hstep Hd'. cbn in Hstep. destruct (nodes !! i) as [n|] eqn:Hi; [|done].
  destruct (decide _); [|done]. destruct (any_response _ _ _) as [c co] eqn:Hany. simplify_eq. cbn in Hd' |- *.
  unfold any_context_ok in ok_context0. rewrite Hd in ok_context0. destruct ok_context0 as [Hw Hf].
  rewrite (any_answer_failed nodes) in ok_answer0 by (done || apply Hw).
  apply app_nil in ok_answer0 as [_ Hm]. apply fmap_nil_inv in Hm. rewrite Hm.
  unfold any_response in Hany. rewrite Hd in Hany. cbn in Hany.
  destruct (failed r && _); simplify_eq; cbn in Hd'; [congruence|]. unfold tokens_of. cbn. by rewrite app_nil_r.
Qed.
End claims.

(** ** The nodes that are asked *)

(** The node that holds copy [idx] of a vbucket, given the row of the vbucket *)
Definition holder (c : configuration) (row : list Z) (idx : Z) : option node :=
  s ← row !! Z.to_nat idx;
  if decide (0 ≤ s) then nodes c !! Z.to_nat s else None.

Definition copies (c : configuration) : list Z := seqZ 0 (default 0 (num_replicas c) + 1).
Definition copy_node (idx : Z) : readable_node := ReadableNode (negb (idx =? 0)) idx.

(** The copies that a node holds, and those that a node of the group holds *)
Definition available_copies (c : configuration) (row : list Z) : list readable_node :=
  copy_node <$> filter (λ idx, is_Some (holder c row idx)) (copies c).
Definition local_copies (c : configuration) (row : list Z) (group : bytes) : list readable_node :=
  copy_node <$> filter (λ idx, server_group <$> holder c row idx = Some group) (copies c).

(** A configuration that routes every copy *)
Definition copies_routable (c : configuration) (m : list (list Z)) : Prop := Forall (routable c m) (copies c).

Lemma collect_nodes_spec id c m group row idxs available local :
  bytes_ok (id_key id) → Forall (routable c m) idxs →
  m !! Z.to_nat (crc32_reference (id_key id) mod zsize m) = Some row →
  collect_nodes id c group idxs available local =
    Ok (available ++ (copy_node <$> filter (λ idx, is_Some (holder c row idx)) idxs),
        local ++ (copy_node <$> filter (λ idx, server_group <$> holder c row idx = Some group) idxs)).
Proof.
  intros Hk Hr Hrow. revert available local. induction Hr as [|idx idxs Hidx Hr IH]; intros available local.
  { cbn. by rewrite !app_nil_r. }
  destruct (map_key_spec c m idx (id_key id) Hidx Hk) as (vb & row' & s & -> & _ & Hrow' & Hs & Hmap & Hb).
  rewrite Hrow in Hrow'. simplify_eq. cbn [collect_nodes]. rewrite Hmap. cbn [mbind outcome_bind].
  assert (Hh : holder c row' idx = if decide (0 ≤ s) then nodes c !! Z.to_nat s else None) by (unfold holder; by rewrite Hs).
  rewrite !filter_cons. destruct (decide (0 ≤ s)) as [H0|H0].
  - rewrite (decide_True (P:=s < _)) by done. destruct (at_in_range (E:=topology_error) (nodes c) s) as (n & -> & Hn); [lia|].
    rewrite Hn in Hh. cbn [mbind outcome_bind]. rewrite (decide_True (P:=is_Some _)) by (rewrite Hh; by eexists).
    rewrite IH. cbn [fmap list_fmap]. rewrite <-app_assoc. cbn [app].
    destruct (decide (server_group <$> holder c row' idx = Some group)) as [Hg|Hg]; rewrite Hh in Hg; cbn in Hg;
      case_bool_decide; try congruence; cbn [fmap list_fmap]; [by rewrite <-app_assoc|done].
  - rewrite IH, !decide_False; [done|rewrite Hh; by cbn|rewrite Hh; by intros [? ?]].
Qed.

(** The nodes that are asked.  With a vbucket map that routes all copies,
    [effective_nodes] returns, in the order of the copies, those of the vbucket
    of the key that a node holds, or those held in the preferred group; with
    the preference that may fall back, all when the group holds none, and with
    the strict one none when no group is given. *)
Theorem effective_nodes_spec id c m preference group :
  bytes_ok (id_key id) → copies_routable c m → copies c ≠ [] →
  ∃ row, m !! Z.to_nat (crc32_reference (id_key id) mod zsize m) = Some row ∧
    effective_nodes id (Some c) preference group =
      Ok (match preference with
          | no_preference => available_copies c row
          | selected_server_group => if decide (group = []) then [] else local_copies c row group
          | selected_server_group_or_all_available =>
              match local_copies c row group with [] => available_copies c row | local => local end
          end).
Proof.
  intros Hk Hr Hne. assert (∃ row, m !! Z.to_nat (crc32_reference (id_key id) mod zsize m) = Some row) as [row Hrow].
  { unfold copies_routable in Hr. destruct (copies c) as [|idx idxs]; [done|]. apply Forall_cons in Hr as [Hr _].
    destruct (map_key_spec c m idx (id_key id) Hr Hk) as (vb & row & s & -> & _ & Hrow & _). by exists row. }
  exists row. split; [done|]. unfold effective_nodes.
  destruct (decide (preference = selected_server_group ∧ group = [])) as [[-> ->]|Hp]; [by rewrite decide_True|].
  cbn [deref mbind outcome_bind]. fold (copies c). rewrite (collect_nodes_spec id c m group row) by done.
  cbn [mbind outcome_bind app]. fold (available_copies c row) (local_copies c row group).
  destruct preference; [done|rewrite decide_False by tauto; done|]. by destruct (local_copies c row group).
Qed.

(** Without a configuration, which is what a closed bucket and a stopped
    cluster pass with their error, get_all_replicas reports the error, but
    get_any_replica dereferences the null pointer for every preference, and so
    do both lookups when the bucket was opened. *)
Theorem reads_without_configuration id specs preference group ec e :
  get_all_replicas_nodes id preference group (Some ec) None e = Ok (inl ec) ∧
  get_any_replica_nodes id preference group (Some ec) None e = Fault ∧
  lookup_in_replicas_nodes id specs preference group None (Some ec) None e = Fault.
Proof.
  split_and!; [done| |done]. unfold get_any_replica_nodes, effective_nodes.
  case_decide as Hp; [|done]. cbn [mbind outcome_bind]. by rewrite decide_True.
Qed.

(** ** Examples *)

Definition zone_node (group : bytes) : node := Node false 0 [] no_ports no_ports ∅ group [].

(** Two vbuckets with two replicas each, on three nodes in two groups *)
Definition zone_configuration : configuration :=
  Configuration (Some 1) (Some 7) (Some 2) [zone_node [65]; zone_node [66]; zone_node [66]]
    (Some [[0; 1; 2]; [1; 2; 0]]) Capability.no_capabilities false.

Lemma effective_nodes_spec_witness :
  ∃ row, [[0; 1; 2]; [1; 2; 0]] !! Z.to_nat (crc32_reference (id_key example_document) mod 2) = Some row ∧
    effective_nodes example_document (Some zone_configuration) selected_server_group_or_all_available [66] =
      Ok (match local_copies zone_configuration row [66] with [] => available_copies zone_configuration row | local => local end).
Proof.
  apply (effective_nodes_spec example_document zone_configuration [[0; 1; 2]; [1; 2; 0]] selected_server_group_or_all_available [66]).
  - apply (bool_decide_unpack _). vm_compute. exact I.
  - repeat constructor; apply (bool_decide_unpack _); vm_compute; exact I.
  - done.
Defined.

Definition read_answer_of (ec : option error_code) (value : bytes) : document_result :=
  DocumentResult (Context_ ec None []) value 7 0.
Definition not_found : document_result := read_answer_of (Some (errc_key_value KeyValue.document_not_found)) [].
Definition found (value : bytes) : document_result := read_answer_of None value.

Definition three_copies : list readable_node := map copy_node [0; 1; 2].

(** The active copy fails, the first replica has the document; the other
    replica is asked after that, and answers in vain. *)
Definition late_replica : list (event document_result) :=
  [prepare; launch; prepare; respond 0 not_found; launch; respond 1 (found [1]); prepare; proceed; launch; proceed; proceed;
   respond 2 (found [2])].

Lemma any_replica_read_witness :
  ∃ w : world document_result get_all_replicas_entry get_any_replica_response,
    run true any_response any_deliver three_copies late_replica (start three_copies) = Some w ∧
    read_spec true any_response any_deliver three_copies (any_answer three_copies) late_replica w ∧
    w_calls w = [GetAnyReplicaResponse (Context_ None None []) [1] 7 0 true] ∧ w_cancelled w = [0; 1]%nat.
Proof.
  destruct (run true any_response any_deliver three_copies late_replica (start three_copies)) as [w|] eqn:Hr; [|by vm_compute in Hr].
  exists w. split; [reflexivity|]. split; [apply any_replica_read; [cbn; lia|by vm_compute|exact Hr]|].
  assert (Hw : (λ w, (w_calls w, w_cancelled w)) <$> run true any_response any_deliver three_copies late_replica (start three_copies) =
    Some ([GetAnyReplicaResponse (Context_ None None []) [1] 7 0 true], [0; 1]%nat)) by by vm_compute.
  rewrite Hr in Hw. injection Hw as -> ->. split; reflexivity.
Defined.

Lemma all_replicas_read_witness :
  ∃ w : world document_result get_all_replicas_entry get_all_replicas_response,
    run false all_response all_deliver three_copies (late_replica ++ [proceed]) (start three_copies) = None ∧
    run false all_response all_deliver three_copies
      [prepare; launch; prepare; respond 0 not_found; launch; respond 1 (found [1]); prepare; launch; respond 2 (found [2]); proceed]
      (start three_copies) = Some w ∧
    read_spec false all_response all_deliver three_copies (all_answer three_copies)
      [prepare; launch; prepare; respond 0 not_found; launch; respond 1 (found [1]); prepare; launch; respond 2 (found [2]); proceed] w ∧
    w_calls w = [GetAllReplicasResponse no_context [GetAllReplicasEntry [1] 7 0 true; GetAllReplicasEntry [2] 7 0 true]].
Proof.
  set (evs := [prepare; launch; prepare; respond 0 not_found; launch; respond 1 (found [1]); prepare; launch; respond 2 (found [2]); proceed]).
  destruct (run false all_response all_deliver three_copies evs (start three_copies)) as [w|] eqn:Hr; [|by vm_compute in Hr].
  exists w. split; [by vm_compute|]. split; [reflexivity|]. split; [apply all_replicas_read; [cbn; lia|by vm_compute|exact Hr]|].
  assert (Hw : w_calls <$> run false all_response all_deliver three_copies evs (start three_copies) =
    Some [GetAllReplicasResponse no_context [GetAllReplicasEntry [1] 7 0 true; GetAllReplicasEntry [2] 7 0 true]]) by by vm_compute.
  rewrite Hr in Hw. injection Hw as ->. reflexivity.
Defined.
