(* ===== verification/ObservePoll.v ===== *)
(** * Legacy durability: [core/impl/observe_poll.cxx], [observe_seqno.cxx] and
      [with_legacy_durability.hxx]

    After a mutation the client asks the nodes for the sequence numbers they
    have received and persisted, again and again, until enough of them have
    reached that of the mutation or a deadline of five seconds passes.  The
    poll is a step relation over the events of its timers, the configuration
    and the responses. *)

From S2P Require Import Prelude ByteOrder Protocol McbpParser ClientRequest ClientResponse Commands Transactions SubdocOps Operations.

(** ** Requirements *)

Inductive persist_to := persist_none | persist_active | persist_one | persist_two | persist_three | persist_four.
Inductive replicate_to := replicate_none | replicate_one | replicate_two | replicate_three.
#[export] Instance persist_to_eq_dec : EqDecision persist_to.
Proof. solve_decision. Defined.
#[export] Instance replicate_to_eq_dec : EqDecision replicate_to.
Proof. solve_decision. Defined.

Definition touches_replica (p : persist_to) (r : replicate_to) : bool :=
  match r with
  | replicate_one | replicate_two | replicate_three => true
  | replicate_none =>
      match p with
      | persist_one | persist_two | persist_three | persist_four => true
      | persist_none | persist_active => false
      end
  end.

(** The two overloads of [number_of_replica_nodes_required] *)
Definition persist_nodes_required (p : persist_to) : Z :=
  match p with
  | persist_one => 1
  | persist_two => 2
  | persist_three | persist_four => 3
  | persist_none | persist_active => 0
  end.

Definition replicate_nodes_required (r : replicate_to) : Z :=
  match r with replicate_one => 1 | replicate_two => 2 | replicate_three => 3 | replicate_none => 0 end.

(** What the poll reads of a configuration *)
Inductive node_locator_type := locator_unknown | locator_vbucket | locator_ketama.
#[export] Instance node_locator_type_eq_dec : EqDecision node_locator_type.
Proof. solve_decision. Defined.
Record bucket_configuration := BucketConfiguration { node_locator : node_locator_type; bc_num_replicas : option Z }.

(** [n > *num_replicas] of an optional, which is only compared when it has a value *)
Definition validate_replicas (config : bucket_configuration) (p : persist_to) (r : replicate_to) : option error_code * Z :=
  if decide (node_locator config ≠ locator_vbucket) then (Some (errc_common Common.feature_not_available), 0)
  else if touches_replica p r then
    match bc_num_replicas config with
    | None => (Some (errc_key_value KeyValue.durability_impossible), 0)
    | Some number_of_replicas =>
        if (number_of_replicas <? persist_nodes_required p) || (number_of_replicas <? replicate_nodes_required r)
        then (Some (errc_key_value KeyValue.durability_impossible), 0)
        else (None, number_of_replicas)
    end
  else (None, 0).

(** ** The requests: [observe_seqno.cxx] *)

(** The index of the node is in the identifier of the document. *)
Record observe_seqno_request := ObserveSeqnoRequest {
  os_node_index : Z;
  os_active : bool;
  os_partition_uuid : Z;
  os_partition : Z;
  os_opaque : Z;
}.

(** The request has neither key nor framing extras. *)
Definition observe_seqno_encode_to (r : observe_seqno_request) (e : client_request) : outcome error_code client_request :=
  value ← observe_seqno_fill_body (os_partition_uuid r);
  Ok (body_content value (rq_set_partition (os_partition r) (rq_set_opaque (os_opaque r) e))).

Record observe_seqno_response := ObserveSeqnoResponse {
  or_ec : option error_code;
  or_active : bool;
  or_partition : Z;
  or_partition_uuid : Z;
  or_last_persisted_sequence_number : Z;
  or_current_sequence_number : Z;
  or_old_partition_uuid : option Z;
  or_last_received_sequence_number : option Z;
}.

Definition failed_over (r : observe_seqno_response) : bool := has (or_old_partition_uuid r).

Definition observe_seqno_make_response (active : bool) (ec : option error_code) (body : observe_body) : observe_seqno_response :=
  if has ec then ObserveSeqnoResponse ec active 0 0 0 0 None None
  else ObserveSeqnoResponse ec active (ob_partition_id body) (ob_partition_uuid body) (ob_last_persisted body)
         (ob_current body) (ob_old_partition_uuid body) (Some (ob_last_persisted body)).

(** ** The status of a poll *)

(** [std::size_t] counters *)
Record observe_status := ObserveStatus { replicated_ : Z; persisted_ : Z; persisted_on_active_ : bool }.
Definition reset : observe_status := ObserveStatus 0 0 false.

Definition is_replicated (seqno : Z) (r : observe_seqno_response) : bool := seqno <=? or_current_sequence_number r.
Definition is_persisted (seqno : Z) (r : observe_seqno_response) : bool := seqno <=? or_last_persisted_sequence_number r.

Definition examine (seqno : Z) (r : observe_seqno_response) (s : observe_status) : observe_status :=
  ObserveStatus
    (u64 (replicated_ s + if is_replicated seqno r && negb (or_active r) then 1 else 0))
    (u64 (persisted_ s + if is_persisted seqno r then 1 else 0))
    (persisted_on_active_ s || or_active r && is_persisted seqno r).

Definition meets_condition (p : persist_to) (r : replicate_to) (s : observe_status) : bool :=
  let persistence_condition :=
    bool_decide (p = persist_active) && persisted_on_active_ s || (persist_nodes_required p <=? persisted_ s) in
  let replication_condition := replicate_nodes_required r <=? replicated_ s in
  persistence_condition && replication_condition.

(** ** The poll *)

(** What [on_last_response_] does: poll again, or nothing *)
Inductive last_response := poll_again | do_nothing.

Record world := World {
  status_ : observe_status;
  requests_ : list observe_seqno_request;
  expect_number_of_responses_ : Z;
  (** Whether the handler is still there; an empty [on_last_response_] is [None]. *)
  handler_ : bool;
  on_last_response_ : option last_response;
  (** Armed timers; the backoff has the function to call. *)
  poll_deadline_ : bool;
  poll_backoff_ : option last_response;
  (** Pending callbacks of [with_bucket_configuration], and requests that were
      passed to the core and have not been answered *)
  w_configurations : nat;
  w_outstanding : list observe_seqno_request;
  (** Invocations of the handler, and the responses of the current round *)
  w_calls : list (option error_code);
  w_seen : list (observe_seqno_request * observe_seqno_response);
}.

Section poll.
(** The sequence number and the partition of the token of the mutation *)
Context (seqno partition_uuid : Z) (p : persist_to) (r : replicate_to).

(** [observe_context::start] and the first call of [observe_poll] *)
Definition initiate_observe_poll : world :=
  World reset [] 0 true None true None 1 [] [] [].

Definition finish (ec : error_code) (w : world) : world :=
  World (status_ w) (requests_ w) 0 false (Some do_nothing) false None (w_configurations w) (w_outstanding w)
    (w_calls w ++ if handler_ w then [Some ec] else []) (w_seen w).

Definition maybe_finish (w : world) : world :=
  if negb (handler_ w) then w
  else if meets_condition p r (status_ w) then
    World (status_ w) (requests_ w) 0 false (Some do_nothing) false None (w_configurations w) (w_outstanding w)
      (w_calls w ++ [None]) (w_seen w)
  else if expect_number_of_responses_ w =? 0 then
    match on_last_response_ w with
    | Some f =>
        World (status_ w) (requests_ w) (expect_number_of_responses_ w) (handler_ w) None (poll_deadline_ w) (Some f)
          (w_configurations w) (w_outstanding w) (w_calls w) (w_seen w)
    | None => w
    end
  else w.

(** The lambda of [core.execute] *)
Definition handle_response (response : observe_seqno_response) (w : world) : world :=
  maybe_finish
    (World (examine seqno response (status_ w)) (requests_ w) (u64 (expect_number_of_responses_ w - 1)) (handler_ w)
       (on_last_response_ w) (poll_deadline_ w) (poll_backoff_ w) (w_configurations w) (w_outstanding w) (w_calls w) (w_seen w)).

Definition add_requests (requests : list observe_seqno_request) (w : world) : world :=
  World (status_ w) (requests_ w ++ requests) (expect_number_of_responses_ w) (handler_ w) (on_last_response_ w)
    (poll_deadline_ w) (poll_backoff_ w) (w_configurations w) (w_outstanding w) (w_calls w) (w_seen w).

Definition execute (w : world) : world :=
  World reset [] (zsize (requests_ w)) (handler_ w) (Some poll_again) (poll_deadline_ w) (poll_backoff_ w)
    (w_configurations w) (w_outstanding w ++ requests_ w) (w_calls w) [].

Definition active_request : observe_seqno_request := ObserveSeqnoRequest 0 true partition_uuid 0 0.
Definition replica_request (index : Z) : observe_seqno_request := ObserveSeqnoRequest index false partition_uuid 0 0.

(** The requests of a round *)
Definition poll_requests (number_of_replicas : Z) : list observe_seqno_request :=
  (if decide (p ≠ persist_none) then [active_request] else []) ++
  (if touches_replica p r then map replica_request (seqZ 1 number_of_replicas) else []).

(** [observe_poll] asks for the configuration; the callback: *)
Definition on_configuration (ec : option error_code) (config : bucket_configuration) (w : world) : world :=
  match ec with
  | Some ec => finish ec w
  | None =>
      let '(err, number_of_replicas) := validate_replicas config p r in
      match err with
      | Some err => finish err w
      | None => execute (add_requests (poll_requests number_of_replicas) w)
      end
  end.

(** *** Events *)

Inductive event :=
  | configuration_arrives (ec : option error_code) (config : bucket_configuration)
  | response_arrives (k : nat) (ec : option error_code) (body : observe_body)
  | deadline_fires
  | backoff_fires.

Definition step (ev : event) (w : world) : option world :=
  match ev with
  | configuration_arrives ec config =>
      match w_configurations w with
      | O => None
      | S n => Some (on_configuration ec config
                 (World (status_ w) (requests_ w) (expect_number_of_responses_ w) (handler_ w) (on_last_response_ w)
                    (poll_deadline_ w) (poll_backoff_ w) n (w_outstanding w) (w_calls w) (w_seen w)))
      end
  | response_arrives k ec body =>
      match w_outstanding w !! k with
      | Some request =>
          let response := observe_seqno_make_response (os_active request) ec body in
          Some (handle_response response
            (World (status_ w) (requests_ w) (expect_number_of_responses_ w) (handler_ w) (on_last_response_ w)
               (poll_deadline_ w) (poll_backoff_ w) (w_configurations w) (delete k (w_outstanding w)) (w_calls w)
               (w_seen w ++ [(request, response)])))
      | None => None
      end
  | deadline_fires =>
      if poll_deadline_ w then
        Some (finish (errc_common Common.ambiguous_timeout)
          (World (status_ w) (requests_ w) (expect_number_of_responses_ w) (handler_ w) (on_last_response_ w)
             false (poll_backoff_ w) (w_configurations w) (w_outstanding w) (w_calls w) (w_seen w)))
      else None
  | backoff_fires =>
      match poll_backoff_ w with
      | Some f =>
          Some (World (status_ w) (requests_ w) (expect_number_of_responses_ w) (handler_ w) (on_last_response_ w)
            (poll_deadline_ w) None (match f with poll_again => S (w_configurations w) | do_nothing => w_configurations w end)
            (w_outstanding w) (w_calls w) (w_seen w))
      | None => None
      end
  end.

Fixpoint run (evs : list event) (w : world) : option world :=
  match evs with [] => Some w | ev :: evs => w ← step ev w; run evs w end.
End poll.

(** *** [with_legacy_durability::execute]: the response of the mutation, and
    that of the poll *)

Definition after_mutation (resp : mutation_result) : mutation_result + world :=
  if has (ctx_ec (mr_ctx resp)) then inl resp else inr initiate_observe_poll.

Definition after_poll (resp : mutation_result) (ec : option error_code) : mutation_result :=
  match ec with
  | Some ec => MutationResult (Context_ (Some ec) (ctx_status_code (mr_ctx resp)) (ctx_bucket (mr_ctx resp))) (mr_cas resp) (mr_token resp)
  | None => resp
  end.

(** ** Lemmas: the status *)

Section lemmas.
Context (seqno partition_uuid : Z) (p : persist_to) (r : replicate_to).

#[local] Abbreviation seen := (list (observe_seqno_request * observe_seqno_response)).

(** The replicas that have the mutation, and the nodes that have persisted it *)
Definition replicas_reached (l : seen) : Z :=
  zsize (filter (λ x, is_replicated seqno x.2 && negb (or_active x.2) = true) l).
Definition nodes_persisted (l : seen) : Z := zsize (filter (λ x, is_persisted seqno x.2 = true) l).

(** What the poll waits for *)
Definition reached (l : seen) : Prop :=
  persist_nodes_required p ≤ nodes_persisted l ∧ replicate_nodes_required r ≤ replicas_reached l.

Definition status_of (l : seen) : observe_status := foldl (λ s x, examine seqno x.2 s) reset l.

Lemma status_of_snoc l x : status_of (l ++ [x]) = examine seqno x.2 (status_of l).
Proof. unfold status_of. by rewrite foldl_app. Qed.

Lemma filter_snoc_size {A} (f : A → bool) l x :
  zsize (filter (λ y, f y = true) (l ++ [x])) = zsize (filter (λ y, f y = true) l) + if f x then 1 else 0.
Proof.
  rewrite filter_app, zsize_app. f_equal. destruct (f x) eqn:Hf.
  - by rewrite filter_cons_True.
  - by rewrite filter_cons_False by congruence.
Qed.

Lemma filter_size {A} (P : A → Prop) `{∀ x, Decision (P x)} l : 0 ≤ zsize (filter P l) ≤ zsize l.
Proof. unfold zsize. pose proof (length_filter P l). lia. Qed.

Lemma status_of_spec l :
  zsize l < 2 ^ 64 → replicated_ (status_of l) = replicas_reached l ∧ persisted_ (status_of l) = nodes_persisted l.
Proof.
  induction l as [|x l IH] using rev_ind; intros Hl; [done|]. rewrite zsize_app in Hl. change (zsize [x]) with 1 in Hl.
  destruct IH as [Hr Hp]; [lia|]. rewrite status_of_snoc. cbn [examine replicated_ persisted_].
  unfold replicas_reached, nodes_persisted in *.
  rewrite (filter_snoc_size (λ x, is_replicated seqno x.2 && negb (or_active x.2))), (filter_snoc_size (λ x, is_persisted seqno x.2)).
  rewrite Hr, Hp.
  pose proof (filter_size (λ x : observe_seqno_request * observe_seqno_response, is_replicated seqno x.2 && negb (or_active x.2) = true) l).
  pose proof (filter_size (λ x : observe_seqno_request * observe_seqno_response, is_persisted seqno x.2 = true) l).
  assert (Hw : ∀ z (b : bool), 0 ≤ z ≤ zsize l → u64 (z + if b then 1 else 0) = z + if b then 1 else 0).
  { intros z b Hz. apply wrap_small. unfold in_width. destruct b; lia. }
  split; by apply Hw.
Qed.

(** The disjunct for the active node is never needed: nothing is required of
    the count then. *)
Lemma meets_condition_spec l : zsize l < 2 ^ 64 → meets_condition p r (status_of l) = true ↔ reached l.
Proof.
  intros Hl. destruct (status_of_spec l Hl) as [Hr Hp]. unfold meets_condition, reached. rewrite Hr, Hp.
  rewrite andb_true_iff, orb_true_iff, andb_true_iff, bool_decide_eq_true, !Z.leb_le.
  assert (0 ≤ nodes_persisted l) by apply filter_size.
  split; [|tauto]. intros [[[-> _]|?] ?]; split; done || (cbn; lia).
Qed.

(** ** Lemmas: the poll *)

#[local] Abbreviation step := (step seqno partition_uuid p r).
#[local] Abbreviation run := (run seqno partition_uuid p r).

(** [num_replicas] is a [std::uint32_t]. *)
Definition valid_event (ev : event) : Prop :=
  match ev with
  | configuration_arrives None config => ∀ n, bc_num_replicas config = Some n → is_u32 n
  | _ => True
  end.

Lemma poll_requests_nodup n : NoDup (poll_requests partition_uuid p r n).
Proof.
  unfold poll_requests. apply NoDup_app. split; [case_decide; [apply NoDup_singleton|constructor]|]. split.
  - intros x Hx. case_decide; [|set_solver]. apply list_elem_of_singleton in Hx as ->.
    destruct (touches_replica p r); [|set_solver]. intros (i & Hi & _)%list_elem_of_In%in_map_iff. done.
  - destruct (touches_replica p r); [|constructor]. change (@map Z observe_seqno_request) with (fmap (M:=list) (A:=Z) (B:=observe_seqno_request)).
    apply NoDup_fmap_2; [|apply NoDup_seqZ]. by intros i j [= ->].
Qed.

Lemma poll_requests_size n : is_u32 n → zsize (poll_requests partition_uuid p r n) ≤ 2 ^ 32.
Proof.
  intros Hn. unfold is_u32, in_width in Hn. unfold poll_requests. rewrite zsize_app. unfold zsize. case_decide; destruct (touches_replica p r); cbn [length];
    rewrite ?length_map, ?length_seqZ; lia.
Qed.

(** A round: the requests that have been answered and those that have not *)
Record round (w : world) : Prop := {
  rd_status : status_ w = status_of (w_seen w);
  rd_expected : expect_number_of_responses_ w = zsize (w_outstanding w);
  rd_last : on_last_response_ w = Some poll_again;
  rd_nodup : NoDup ((w_seen w).*1 ++ w_outstanding w);
  rd_size : zsize (w_seen w) + zsize (w_outstanding w) ≤ 2 ^ 32;
  rd_open : w_seen w ≠ [] → w_outstanding w ≠ [] ∧ ¬ reached (w_seen w);
}.

(** The poll waits for the configuration, for responses or for the backoff. *)
Inductive phase (w : world) : Prop :=
  | asks_configuration : w_configurations w = 1%nat → w_outstanding w = [] → poll_backoff_ w = None → phase w
  | waits_responses : w_configurations w = 0%nat → poll_backoff_ w = None → round w → phase w
  | waits_backoff : w_configurations w = 0%nat → w_outstanding w = [] → poll_backoff_ w = Some poll_again → phase w.

Record poll_ok (w : world) : Prop := {
  po_requests : requests_ w = [];
  po_deadline : poll_deadline_ w = handler_ w;
  po_calls : length (w_calls w) = if handler_ w then 0%nat else 1%nat;
  po_phase : handler_ w = true → phase w;
}.

Lemma initiate_ok : poll_ok initiate_observe_poll.
Proof. constructor; try done. intros _. by apply asks_configuration. Qed.

Lemma finish_ok ec w : requests_ w = [] → length (w_calls w) = (if handler_ w then 0 else 1)%nat → poll_ok (finish ec w).
Proof.
  intros Hr Hc. constructor; cbn; [done|done| |done]. rewrite length_app, Hc. by destruct (handler_ w).
Qed.

Lemma configuration_ok ec config w w' :
  valid_event (configuration_arrives ec config) → poll_ok w → step (configuration_arrives ec config) w = Some w' → poll_ok w'.
Proof.
  intros Hv [Hreq Hd Hc Hph] Hs. cbn in Hs. destruct (w_configurations w) as [|n] eqn:Hn; [done|]. simplify_eq.
  unfold on_configuration. destruct ec as [ec|]; [by apply finish_ok|]. unfold validate_replicas.
  case_decide; [by apply finish_ok|].
  assert (Hexec : ∀ k, is_u32 k → poll_ok (execute (add_requests (poll_requests partition_uuid p r k)
    (World (status_ w) (requests_ w) (expect_number_of_responses_ w) (handler_ w) (on_last_response_ w) (poll_deadline_ w)
      (poll_backoff_ w) n (w_outstanding w) (w_calls w) (w_seen w))))).
  { intros k Hk. constructor; cbn; [done|done|done|]. intros Hh. destruct (Hph Hh) as [H1 H2 H3|H1 _ _|H1 _ _]; [|congruence..].
    rewrite Hn in H1. simplify_eq. apply waits_responses; cbn; [done|done|]. rewrite Hreq, H2.
    constructor; cbn; [done|done|done|apply poll_requests_nodup|by apply poll_requests_size|done]. }
  destruct (touches_replica p r).
  - destruct (bc_num_replicas config) as [k|] eqn:Hk; [|by apply finish_ok].
    destruct (_ || _); [by apply finish_ok|]. by apply Hexec, Hv.
  - by apply Hexec.
Qed.

(** A response while the handler is there belongs to a round. *)
Lemma response_round w k request : poll_ok w → handler_ w = true → w_outstanding w !! k = Some request →
  w_configurations w = 0%nat ∧ poll_backoff_ w = None ∧ round w.
Proof.
  intros [_ _ _ Hph] Hh Hk. destruct (Hph Hh) as [_ Ho _|? ? ?|_ Ho _]; [by rewrite Ho in Hk|done|by rewrite Ho in Hk].
Qed.

(** What a response does to the handler, and to the phase when it stays *)
Lemma response_step k ec body w w' :
  poll_ok w → step (response_arrives k ec body) w = Some w' →
  poll_ok w' ∧ (handler_ w = true → NoDup (w_seen w').*1 ∧ (w_calls w' = [None] ↔ reached (w_seen w'))).
Proof.
  intros Hok Hs. pose proof Hok as [Hreq Hd Hc _]. cbn in Hs. destruct (w_outstanding w !! k) as [request|] eqn:Hk; [|done].
  injection Hs as <-. set (response := observe_seqno_make_response (os_active request) ec body).
  unfold handle_response. cbn. unfold maybe_finish at 1 2 3 4. cbn. destruct (handler_ w) eqn:Hh; cbn.
  2: { split; [|done]. constructor; cbn; [done|congruence|by rewrite Hc, ?Hh|congruence]. }
  destruct (response_round w k request Hok Hh Hk) as (Hn & Hb & [Hst He Hl Hnd Hsz Hop]).
  apply nil_length_inv in Hc. assert (Hex := status_of_snoc (w_seen w) (request, response)). cbn [snd] in Hex. rewrite Hst, <-Hex.
  assert (Hperm : w_outstanding w ≡ₚ request :: delete k (w_outstanding w)) by by apply delete_Permutation.
  assert (Hlen : zsize (w_outstanding w) = 1 + zsize (delete k (w_outstanding w))).
  { unfold zsize. rewrite Hperm at 1. cbn [length]. lia. }
  pose proof (zsize_nonneg (w_seen w)). pose proof (zsize_nonneg (delete k (w_outstanding w))).
  assert (Hnd' : NoDup ((w_seen w ++ [(request, response)]).*1 ++ delete k (w_outstanding w))).
  { rewrite fmap_app, <-app_assoc. cbn. by rewrite <-Hperm. }
  assert (Hsz' : zsize (w_seen w ++ [(request, response)]) + zsize (delete k (w_outstanding w)) ≤ 2 ^ 32).
  { rewrite zsize_app. change (zsize [(request, response)]) with 1. lia. }
  assert (Hmeets := meets_condition_spec (w_seen w ++ [(request, response)])). specialize (Hmeets ltac:(lia)).
  rewrite He, Hlen. replace (u64 (1 + _ - 1)) with (zsize (delete k (w_outstanding w)))
    by (rewrite wrap_small; unfold in_width; lia).
  pose proof Hnd' as Hseen. apply NoDup_app in Hseen as [Hseen _].
  rewrite Hc, Hl. destruct (meets_condition p r _) eqn:Hm; cbn; [|destruct (zsize (delete k (w_outstanding w)) =? 0) eqn:Hz; cbn].
  - split; [by constructor|]. intros _. split; [done|]. split; [intros _; by apply Hmeets|done].
  - apply Z.eqb_eq, zsize_0_inv in Hz. split; [|intros _; split; [done|]; rewrite <-Hmeets; split; [done|congruence]].
    constructor; cbn; [done|done|done|]. intros _. by apply waits_backoff.
  - apply Z.eqb_neq in Hz. split; [|intros _; split; [done|]; rewrite <-Hmeets; split; [done|congruence]].
    constructor; cbn; [done|done|done|]. intros _. apply waits_responses; cbn; [done|done|].
    constructor; cbn; [done|done|done|done|done|]. intros _. split; [by intros Hnil; rewrite Hnil in Hz|].
    rewrite <-Hmeets. congruence.
Qed.

Lemma timer_ok ev w w' :
  ev = deadline_fires ∨ ev = backoff_fires → poll_ok w → step ev w = Some w' →
  poll_ok w' ∧ (w_calls w = [] → w_calls w' ≠ [None]).
Proof.
  intros Hev Hok Hs. pose proof Hok as [Hreq Hd Hc Hph]. destruct Hev as [->| ->]; cbn in Hs.
  - rewrite Hd in Hs. destruct (handler_ w) eqn:Hh; [|done]. simplify_eq. split; [by apply finish_ok; cbn; rewrite ?Hh|].
    intros Hn. cbn. rewrite Hn. by destruct (handler_ w).
  - destruct (poll_backoff_ w) as [f|] eqn:Hb; [|done]. simplify_eq. split; [|cbn; congruence].
    constructor; cbn; [done|done|done|]. intros Hh. destruct (Hph Hh) as [|? ? ?|? ? ?]; [congruence..|]. simplify_eq.
    apply asks_configuration; cbn; [congruence|done|done].
Qed.


Lemma poll_step_ok ev w w' : valid_event ev → poll_ok w → step ev w = Some w' → poll_ok w'.
Proof.
  intros Hv Hok Hs. destruct ev; [by eapply configuration_ok|by eapply response_step| |].
  - destruct (timer_ok deadline_fires w w') as [? _]; auto.
  - destruct (timer_ok backoff_fires w w') as [? _]; auto.
Qed.

Lemma poll_run_ok evs w w' : Forall valid_event evs → poll_ok w → run evs w = Some w' → poll_ok w'.
Proof.
  intros Hv. revert w. induction Hv as [|ev evs Hev Hv IH]; intros w Hok Hr; cbn in Hr; [by simplify_eq|].
  apply bind_Some in Hr as (w1 & Hs & Hr). eapply IH; [|done]. by eapply poll_step_ok.
Qed.

Definition reachable (w : world) : Prop := ∃ evs, Forall valid_event evs ∧ run evs initiate_observe_poll = Some w.

Lemma poll_reachable_ok w : reachable w → poll_ok w.
Proof. intros (evs & Hv & Hr). eapply poll_run_ok; [done|exact initiate_ok|done]. Qed.
End lemmas.

(** ** The claims *)

(** What [persist_to.hxx] and [replicate_to.hxx] promise, of the answers of
    distinct nodes: the node that is active for the document has persisted the
    mutation, at least so many nodes have persisted it, at least so many
    replicas have received it *)
Section promises.
Context (seqno : Z) (l : list (observe_seqno_request * observe_seqno_response)).

Definition persisted_by (x : observe_seqno_request * observe_seqno_response) : Prop :=
  seqno ≤ or_last_persisted_sequence_number x.2.
Definition replicated_by (x : observe_seqno_request * observe_seqno_response) : Prop :=
  or_active x.2 = false ∧ seqno ≤ or_current_sequence_number x.2.
#[export] Instance persisted_by_dec x : Decision (persisted_by x).
Proof. unfold persisted_by. apply _. Defined.
#[export] Instance replicated_by_dec x : Decision (replicated_by x).
Proof. unfold replicated_by. apply _. Defined.




End promises.


(** A poll answers once: in every reachable state the handler was invoked
    at most once, and while it was not the deadline is armed and its firing
    invokes it with an ambiguous timeout. *)
Theorem legacy_durability_answers seqno uuid p r w :
  reachable seqno uuid p r w →
  (length (w_calls w) ≤ 1)%nat ∧
  (w_calls w = [] → ∃ w', step seqno uuid p r deadline_fires w = Some w' ∧ w_calls w' = [Some (errc_common Common.ambiguous_timeout)]).
Proof.
  intros Hr. apply poll_reachable_ok in Hr as [_ Hd Hc _]. split; [destruct (handler_ w); lia|]. intros Hn. rewrite Hn in Hc.
  destruct (handler_ w) eqn:Hh; [|done]. cbn. rewrite Hd. eexists. split; [done|]. cbn. by rewrite Hn, Hh.
Qed.

(** With [persist_to::active] and no replication requirement the poll
    succeeds at the first response, whatever it says: that the active node has
    not persisted the mutation, that it has not even received it, or that the
    request failed. *)
Theorem persist_to_active_not_awaited seqno uuid config ec body :
  node_locator config = locator_vbucket →
  ∃ w, run seqno uuid persist_active replicate_none [configuration_arrives None config; response_arrives 0 ec body] initiate_observe_poll = Some w ∧
    w_calls w = [None].
Proof.
  intros Hl. cbn. unfold on_configuration, validate_replicas. rewrite decide_False by (by intros []). cbn.
  assert (Hm : ∀ response, meets_condition persist_active replicate_none (examine seqno response reset) = true).
  { intros response. unfold examine, meets_condition. by destruct (is_replicated _ _), (is_persisted _ _), (or_active _). }
  eexists. split; [done|]. unfold handle_response, maybe_finish. cbn. by rewrite Hm.
Qed.

(** The strictest level asks for as many nodes as the one before. *)
Lemma persist_to_four_is_three config r s :
  meets_condition persist_four r s = meets_condition persist_three r s ∧
  validate_replicas config persist_four r = validate_replicas config persist_three r.
Proof. split; [done|]. unfold validate_replicas. by destruct r. Qed.

(** Without any requirement no request is sent, and only the deadline ends the
    poll. *)
Lemma nothing_to_observe seqno uuid config w :
  node_locator config = locator_vbucket →
  run seqno uuid persist_none replicate_none [configuration_arrives None config] initiate_observe_poll = Some w →
  ∀ ev w', step seqno uuid persist_none replicate_none ev w = Some w' → ev = deadline_fires.
Proof.
  intros Hl Hr ev w' Hs. cbn in Hr. unfold on_configuration, validate_replicas in Hr.
  rewrite decide_False in Hr by (by intros []). cbn in Hr. simplify_eq. by destruct ev.
Qed.

(** The member of the body with this name is never read. *)
Lemma last_received_is_last_persisted active body :
  or_last_received_sequence_number (observe_seqno_make_response active None body) = Some (ob_last_persisted body).
Proof. done. Qed.

(** A response is examined without a look at its error or at [failed_over]: a
    failed one has the sequence number 0. *)
Lemma failed_response_examined active ec body :
  is_replicated 0 (observe_seqno_make_response active (Some ec) body) = true ∧
  is_persisted 0 (observe_seqno_make_response active (Some ec) body) = true.
Proof. done. Qed.

(** A requirement that the bucket cannot meet is refused before anything is sent. *)
Lemma durability_impossible seqno uuid p r config ec :
  (validate_replicas config p r).1 = Some ec →
  ∃ w, run seqno uuid p r [configuration_arrives None config] initiate_observe_poll = Some w ∧
    w_calls w = [Some ec] ∧ w_outstanding w = [].
Proof.
  intros Hv. cbn. unfold on_configuration. destruct (validate_replicas config p r) as [e n]. cbn in Hv. subst e.
  by eexists.
Qed.

(** ** Examples *)

Definition two_replicas : bucket_configuration := BucketConfiguration locator_vbucket (Some 2).
Definition at_seqno (persisted current : Z) : observe_body := ObserveBody 5 77 persisted current None None.

(** One replica must have the mutation 10 and two nodes must have persisted it. *)
Definition example_round : list event :=
  [configuration_arrives None two_replicas; response_arrives 1 None (at_seqno 9 10); response_arrives 0 None (at_seqno 10 10)].


Lemma legacy_durability_answers_witness :
  ∃ w, run 10 77 persist_two replicate_one example_round initiate_observe_poll = Some w ∧ (length (w_calls w) ≤ 1)%nat ∧
    (w_calls w = [] → ∃ w', step 10 77 persist_two replicate_one deadline_fires w = Some w' ∧
       w_calls w' = [Some (errc_common Common.ambiguous_timeout)]).
Proof.
  eexists. split; [reflexivity|]. apply legacy_durability_answers. exists example_round. split; [|reflexivity].
  constructor; [intros k [= <-]; by vm_compute|by repeat constructor].
Defined.

(** The active node has persisted up to 3 when 10 is asked for. *)
Lemma persist_to_active_not_awaited_witness :
  ∃ w, run 10 77 persist_active replicate_none [configuration_arrives None two_replicas; response_arrives 0 None (at_seqno 3 10)]
    initiate_observe_poll = Some w ∧ w_calls w = [None].
Proof. apply persist_to_active_not_awaited. reflexivity. Defined.
