(* ===== verification/Attempt.v ===== *)
(** * Transaction attempts: [core/transactions/attempt_context_impl.cxx],
      [transaction_context.cxx], [transactions.cxx]

    Commit and rollback of an attempt, the errors that decide between retry,
    rollback and failure, and the loop over attempts.  What the code asks of
    its surroundings (the clock, the testing hooks, the servers, the query
    service) is answered by an [environment] that is indexed by a count of the
    questions asked.  An action of the [txn] monad maps an environment and an
    attempt to an outcome, whose errors are the exceptions in flight, and to
    the attempt it leaves behind.  The operations of an attempt
    are executed one after the other; the sleeps between retries are left out.
    The unstaging of documents is the interface [Unstaging]. *)

From S2P Require Import Prelude ByteOrder Protocol McbpParser ClientRequest ClientResponse Commands Topology Transactions.

(** ** Exceptions *)

Inductive exn :=
  | client_error_thrown (e : client_error)
  | operation_failed_thrown (f : operation_failure)
  | op_exception (c : external_exception)
  | retry_operation
  | retry_operation_retries_exhausted
  | retry_operation_timeout
  | query_attempt_expired | query_attempt_not_found | query_cas_mismatch
  | document_not_found_thrown | document_exists_thrown
  | runtime_error            (** any other [std::exception] *)
  | unknown_exception.       (** not a [std::exception] *)

(** ** The surroundings of an attempt *)

Inductive stage :=
  | STAGE_ROLLBACK | STAGE_BEFORE_COMMIT | STAGE_ROLLBACK_DOC | STAGE_DELETE_INSERTED
  | STAGE_REMOVE_DOC | STAGE_COMMIT_DOC | STAGE_ATR_COMMIT | STAGE_ATR_COMMIT_AMBIGUITY_RESOLUTION
  | STAGE_ATR_ABORT | STAGE_ATR_ROLLBACK_COMPLETE | STAGE_ATR_PENDING | STAGE_ATR_COMPLETE
  | STAGE_QUERY_COMMIT | STAGE_QUERY_ROLLBACK
  | STAGE_GET | STAGE_INSERT | STAGE_REPLACE | STAGE_REMOVE | STAGE_CREATE_STAGED_INSERT
  | STAGE_REMOVE_STAGED_INSERT.

Inductive hook :=
  | before_atr_pending | after_atr_pending | before_atr_commit | after_atr_commit
  | before_atr_commit_ambiguity_resolution | before_atr_complete | after_atr_complete
  | before_atr_aborted | after_atr_aborted | before_atr_rolled_back | after_atr_rolled_back
  | before_doc_committed | after_doc_committed_before_saving_cas | after_doc_committed
  | before_doc_removed | after_doc_removed_pre_retry
  | before_rollback_delete_inserted | after_rollback_delete_inserted
  | before_doc_rolled_back | after_rollback_replace_or_remove
  | before_doc_get | after_get_complete
  | before_staged_insert | after_staged_insert_complete
  | before_staged_replace | after_staged_replace_complete
  | before_staged_remove | after_staged_remove_complete
  | before_remove_staged_insert | after_remove_staged_insert
  | before_get_doc_in_exists_during_staged_insert | before_check_atr_entry_for_blocking_doc.

Record environment := Environment {
  overall_expired : nat → bool;                  (** [overall()->has_expired_client_side()] *)
  hook_expired : nat → stage → bool;             (** [hooks_.has_expired_client_side] *)
  hook_error : nat → hook → option error_class;
  reply : nat → request → response;
  query_reply : nat → stage → option exn;        (** with what [wrap_query] calls back *)
  now : nat → Z;                                 (** the steady clock, in nanoseconds *)
  remaining : nat → Z;                           (** [overall()->remaining()], in nanoseconds *)
  config_timeout : Z;
  config_level : Z;
  transaction_id : bytes;
  metadata_collection : option (bytes * bytes * bytes);   (** bucket, scope and collection *)
  uid : nat → bytes;                             (** [uid_generator::next] *)
  open_bucket : nat → bool * option error_code;  (** whether the bucket was open, and the error *)
  bucket_capabilities : nat → error_code + Capability.configuration_capabilities;
}.

(** ** Operations in flight: [waitable_op_list.hxx] *)

Record op_list := OpList { op_count : Z; op_allow : bool; op_in_flight : Z }.
Definition new_op_list : op_list := OpList 0 true 0.

(** [change_count]: [None] where it throws [async_operation_conflict]. *)
Definition change_count (val : Z) (l : op_list) : option op_list :=
  if op_allow l then Some (OpList (op_count l + val) true (if 0 <? val then op_in_flight l + val else op_in_flight l))
  else None.
Definition increment_ops := change_count 1.
Definition decrement_ops := change_count (-1).
Definition decrement_in_flight (l : op_list) : op_list := OpList (op_count l) (op_allow l) (op_in_flight l - 1).

(** ** An attempt

    [at_log] and [at_calls] are no members of the class: the requests sent and
    the responses to them, and the calls of the callbacks of operations ([None]
    without an exception), both latest first. *)
Record attempt := Attempt {
  at_id : bytes;
  at_state : attempt_state;
  at_atr_id : option document_id;
  at_overtime : bool;                            (** [expiry_overtime_mode_] *)
  at_done : bool;                                (** [is_done_] *)
  at_errors : list operation_failure;
  at_is_query : bool;                            (** [op_list_.get_mode().is_query()] *)
  at_staged : staged_mutation_queue;
  at_log : list (request * response);
  at_tick : nat;
  at_ops : op_list;                              (** [op_list_], without its mode *)
  at_calls : list (option exn);
}.

Definition set_state (s : attempt_state) (a : attempt) : attempt :=
  Attempt (at_id a) s (at_atr_id a) (at_overtime a) (at_done a) (at_errors a) (at_is_query a) (at_staged a) (at_log a) (at_tick a) (at_ops a) (at_calls a).
Definition set_overtime (a : attempt) : attempt :=
  Attempt (at_id a) (at_state a) (at_atr_id a) true (at_done a) (at_errors a) (at_is_query a) (at_staged a) (at_log a) (at_tick a) (at_ops a) (at_calls a).
Definition set_done (a : attempt) : attempt :=
  Attempt (at_id a) (at_state a) (at_atr_id a) (at_overtime a) true (at_errors a) (at_is_query a) (at_staged a) (at_log a) (at_tick a) (at_ops a) (at_calls a).
Definition set_atr_id (id : document_id) (a : attempt) : attempt :=
  Attempt (at_id a) (at_state a) (Some id) (at_overtime a) (at_done a) (at_errors a) (at_is_query a) (at_staged a) (at_log a) (at_tick a) (at_ops a) (at_calls a).
Definition set_staged (q : staged_mutation_queue) (a : attempt) : attempt :=
  Attempt (at_id a) (at_state a) (at_atr_id a) (at_overtime a) (at_done a) (at_errors a) (at_is_query a) q (at_log a) (at_tick a) (at_ops a) (at_calls a).
Definition set_log (l : list (request * response)) (a : attempt) : attempt :=
  Attempt (at_id a) (at_state a) (at_atr_id a) (at_overtime a) (at_done a) (at_errors a) (at_is_query a) (at_staged a) l (at_tick a) (at_ops a) (at_calls a).
Definition next_tick (a : attempt) : attempt :=
  Attempt (at_id a) (at_state a) (at_atr_id a) (at_overtime a) (at_done a) (at_errors a) (at_is_query a) (at_staged a) (at_log a) (S (at_tick a)) (at_ops a) (at_calls a).

Definition set_ops (l : op_list) (a : attempt) : attempt :=
  Attempt (at_id a) (at_state a) (at_atr_id a) (at_overtime a) (at_done a) (at_errors a) (at_is_query a) (at_staged a) (at_log a) (at_tick a) l (at_calls a).
(** [errors_.push_back] *)
Definition push_error (f : operation_failure) (a : attempt) : attempt :=
  Attempt (at_id a) (at_state a) (at_atr_id a) (at_overtime a) (at_done a) (at_errors a ++ [f]) (at_is_query a) (at_staged a) (at_log a) (at_tick a) (at_ops a) (at_calls a).
Definition push_call (e : option exn) (a : attempt) : attempt :=
  Attempt (at_id a) (at_state a) (at_atr_id a) (at_overtime a) (at_done a) (at_errors a) (at_is_query a) (at_staged a) (at_log a) (at_tick a) (at_ops a) (e :: at_calls a).

(** ** The monad *)

Definition txn (A : Type) : Type := environment → attempt → outcome exn A * attempt.

Global Instance txn_ret : MRet txn := λ A x env a, (Ok x, a).
Global Instance txn_bind : MBind txn := λ A B f m env a,
  match m env a with
  | (Ok x, a) => f x env a
  | (Err e, a) => (Err e, a)
  | (Fault, a) => (Fault, a)
  | (Diverge, a) => (Diverge, a)
  end.

Definition throw {A} (e : exn) : txn A := λ env a, (Err e, a).
Definition fault {A} : txn A := λ env a, (Fault, a).
Definition diverge {A} : txn A := λ env a, (Diverge, a).
Definition gets {A} (f : attempt → A) : txn A := λ env a, (Ok (f a), a).
Definition asks {A} (f : environment → A) : txn A := λ env a, (Ok (f env), a).
Definition modify (f : attempt → attempt) : txn unit := λ env a, (Ok tt, f a).
(** A question to the environment *)
Definition question {A} (f : environment → nat → A) : txn A := λ env a, (Ok (f env (at_tick a)), next_tick a).

(** [try { m } catch (...)]: the handler selects the exceptions it takes. *)
Definition catch {A} (m : txn A) (handler : exn → option (txn A)) : txn A := λ env a,
  match m env a with
  | (Err e, a') => match handler e with Some h => h env a' | None => (Err e, a') end
  | r => r
  end.

Definition catch_client_error {A} (m : txn A) (handler : client_error → txn A) : txn A :=
  catch m (λ e, match e with client_error_thrown e => Some (handler e) | _ => None end).

Definition throw_client {A} (ec : error_class) : txn A := throw (client_error_thrown (client_error_of_class ec)).
Definition throw_failed {A} (f : operation_failure) : txn A := throw (operation_failed_thrown f).

(** A [client_error] of the class, when there is one *)
Definition throw_if (ec : option error_class) : txn unit :=
  match ec with Some ec => throw_client ec | None => mret tt end.

(** ** Questions *)

Definition has_expired_client_side (s : stage) : txn bool :=
  question (λ env n, overall_expired env n || hook_expired env n s).

Definition wait_for_hook (h : hook) : txn (option error_class) :=
  question (λ env n, hook_error env n h).

(** [cluster_ref().execute], with the response awaited *)
Definition execute (req : request) : txn response := λ env a,
  let resp := reply env (at_tick a) req in
  (Ok resp, set_log ((req, resp) :: at_log a) (next_tick a)).

Definition wrap_operation_future (r : result) (ignore_subdoc_errors : bool) : txn result :=
  match validate_operation_result r ignore_subdoc_errors with
  | Ok r => mret r
  | Err e => throw (client_error_thrown e)
  | Fault => fault
  | Diverge => diverge
  end.

Definition check_expiry_pre_commit (s : stage) : txn bool :=
  expired ← has_expired_client_side s;
  if (expired : bool) then _ ← modify set_overtime; mret true else mret false.

Definition error_if_expired_and_not_in_overtime (s : stage) : txn (option error_class) :=
  overtime ← gets at_overtime;
  if (overtime : bool) then mret None
  else
    expired ← has_expired_client_side s;
    mret (if (expired : bool) then Some FAIL_EXPIRY else None).

Definition check_expiry_during_commit_or_rollback (s : stage) : txn unit :=
  overtime ← gets at_overtime;
  if negb (overtime : bool) then
    expired ← has_expired_client_side s;
    if (expired : bool) then modify set_overtime else mret tt
  else mret tt.

(** [wait_and_block_ops]: no other thread counts down. *)
Definition wait_and_block_ops : txn unit :=
  l ← gets at_ops;
  if op_count l =? 0 then modify (set_ops (OpList (op_count l) false (op_in_flight l))) else diverge.

(** [existing_error]: throws the merged errors when there are any. *)
Definition existing_error (prev_op_failed : bool) : txn unit :=
  errors ← gets at_errors;
  if bool_decide (errors = []) then mret tt
  else
    match merge_errors (E:=exn) errors (if prev_op_failed then Some PREVIOUS_OPERATION_FAILED else None) with
    | Ok f => throw_failed f
    | _ => fault
    end.

(** [atr_id_.value()] throws [std::bad_optional_access]. *)
Definition atr_id_value : txn document_id :=
  id ← gets at_atr_id;
  match id with Some id => mret id | None => throw runtime_error end.

(** ** Retries: [internal/utils.hxx] *)

(** [retry_op]: no bound on the retries but the width of [std::size_t], which
    the counter never exceeds.  The body returns [inr s'] where the source
    throws [retry_operation], [s'] being the locals it captures by reference. *)
Fixpoint retry_op {S A} (fuel : nat) (body : S → txn (A + S)) (s : S) : txn A :=
  match fuel with
  | O => diverge
  | S fuel =>
      r ← body s;
      match r with inl x => mret x | inr s => retry_op fuel body s end
  end.

(** [retry_operation] as a value, for bodies without captured locals *)
Definition catch_retry {A} (m : txn A) : txn (A + unit) :=
  catch (x ← m; mret (inl x)) (λ e, match e with retry_operation => Some (mret (inr tt)) | _ => None end).

Definition DEFAULT_RETRY_OP_MAX_RETRIES : nat := 100.

(** The loop of [retry_op_exponential_backoff]: [n] attempts are left. *)
Fixpoint retry_loop {A} (n : nat) (func : txn A) : txn A :=
  match n with
  | O => throw retry_operation_retries_exhausted
  | S n =>
      r ← catch_retry func;
      match r with inl x => mret x | inr _ => retry_loop n func end
  end.

Definition retry_op_exp {A} (func : txn A) : txn A := retry_loop (S DEFAULT_RETRY_OP_MAX_RETRIES) func.

Section attempt.
Context `{TransactionJson}.

(** [ATR_FIELD_ATTEMPTS + "." + id() + "."] *)
Definition atr_prefix (a : attempt) : bytes :=
  ATR_FIELD_ATTEMPTS ++ [ascii_dot] ++ at_id a ++ [ascii_dot].
(** and without the last dot *)
Definition atr_entry_path (a : attempt) : bytes := ATR_FIELD_ATTEMPTS ++ [ascii_dot] ++ at_id a.

(** ** Setting the record to pending *)

Definition store_durability_level_to_string (level : Z) : bytes :=
  if decide (level = 0) then ascii "n"
  else if decide (level = 1) then ascii "m"
  else if decide (level = 2) then ascii "pa"
  else if decide (level = 3) then ascii "pm"
  else ascii "m".

(** The bounded remaining time: [long] has 64 bits. *)
Definition remaining_bounded_msecs (remaining timeout : Z) : Z :=
  Z.quot (Z.max (Z.min remaining timeout) 0) 1000000.

Definition atr_pending_specs (prefix tid : bytes) (msecs level : Z) : list subdoc_command :=
  [subdoc_insert (prefix ++ ATR_FIELD_TRANSACTION_ID) (print_string tid) true true false false;
   subdoc_insert (prefix ++ ATR_FIELD_STATUS) (print_string (attempt_state_name AttemptState.PENDING)) true true false false;
   subdoc_insert (prefix ++ ATR_FIELD_START_TIMESTAMP) macro_cas true true true false;
   subdoc_insert (prefix ++ ATR_FIELD_EXPIRES_AFTER_MSECS) (print_number msecs) true true false false;
   subdoc_insert (prefix ++ ATR_FIELD_DURABILITY_LEVEL) (print_string (store_durability_level_to_string level)) true true false false;
   subdoc_replace [] [0] false false false].

(** What [error_handler] does with an error class: calls back, or retries. *)
Definition atr_pending_error (ec : error_class) : txn (option operation_failure + unit) :=
  let err := operation_failed ec in
  overtime ← gets at_overtime;
  if (overtime : bool) then mret (inl (Some (expired (no_rollback err))))
  else
    match ec with
    | FAIL_EXPIRY => _ ← modify set_overtime; mret (inl (Some (expired err)))
    | FAIL_ATR_FULL => mret (inl (Some err))
    | FAIL_PATH_ALREADY_EXISTS => mret (inl None)
    | FAIL_AMBIGUOUS => mret (inr tt)
    | FAIL_TRANSIENT => mret (inl (Some (retry err)))
    | FAIL_HARD => mret (inl (Some (no_rollback err)))
    | _ => mret (inl (Some err))
    end.

(** The request, its response and the second hook *)
Definition set_atr_pending_request : txn (option operation_failure + unit) :=
  prefix ← gets atr_prefix;
  ec ← wait_for_hook before_atr_pending;
  match ec with
  | Some ec => atr_pending_error ec
  | None =>
      remaining_ns ← question remaining;
      timeout ← asks config_timeout;
      level ← asks config_level;
      tid ← asks transaction_id;
      id ← atr_id_value;
      let specs := atr_pending_specs prefix tid (remaining_bounded_msecs remaining_ns timeout) level in
      resp ← execute (mutate_in (wrap_durable_request level
        (with_store_semantics store_upsert (with_specs specs (new_mutate_in id)))));
      match error_class_from_response resp with
      | Ok (Some ec) => atr_pending_error ec
      | Ok None =>
          ec ← wait_for_hook after_atr_pending;
          match ec with
          | Some ec => atr_pending_error ec
          | None => _ ← modify (set_state AttemptState.PENDING); mret (inl None)
          end
      | Err _ => throw runtime_error
      | Fault => fault
      | Diverge => diverge
      end
  end.

(** [set_atr_pending_locked]: with what it calls back, [None] inside for
    success; it does not call back at all when mutations are staged. *)
Definition set_atr_pending_locked (fuel : nat) : txn (option (option operation_failure)) :=
  retry_op fuel (λ _ : unit,
    staged ← gets at_staged;
    if negb (Queue.empty staged) then mret (inl None)
    else
      id ← gets at_atr_id;
      if negb (has (id : option document_id)) then mret (inl (Some (Some (operation_failed FAIL_OTHER))))
      else
        ec ← error_if_expired_and_not_in_overtime STAGE_ATR_PENDING;
        match ec with
        | Some ec => mret (inl (Some (Some (expired (operation_failed ec)))))
        | None =>
            r ← set_atr_pending_request;
            mret (match r with inl x => inl (Some x) | inr tt => inr tt end)
        end) tt.

(** [select_atr_if_needed_unlocked]: [id] is the document, [atr_id] the
    identifier computed from it. *)
Definition select_atr_if_needed_unlocked (fuel : nat) (atr_id : document_id) :
    txn (option (option operation_failure)) :=
  current ← gets at_atr_id;
  if has (current : option document_id) then mret (Some None)
  else
    _ ← modify (set_atr_id atr_id);
    _ ← modify (set_state AttemptState.NOT_STARTED);
    set_atr_pending_locked fuel.

(** ** Committing the record *)

Definition atr_commit_specs (prefix : bytes) : list subdoc_command :=
  [subdoc_upsert (prefix ++ ATR_FIELD_STATUS) (print_string (attempt_state_name AttemptState.COMMITTED)) true false false false;
   subdoc_upsert (prefix ++ ATR_FIELD_START_COMMIT) macro_cas true false true false;
   subdoc_insert (prefix ++ ATR_FIELD_PREVENT_COLLLISION) (print_number 0) true false false false].

(** The request of [atr_commit] with the staged mutations appended *)
Definition atr_commit_request (id : document_id) (prefix : bytes) (level : Z)
    (staged : staged_mutation_queue) : mutate_in_request :=
  wrap_durable_request level (with_specs (atr_commit_specs prefix ++ extract_to prefix staged) (new_mutate_in id)).

(** The [try] block of [atr_commit] *)
Definition atr_commit_try : txn unit :=
  prefix ← gets atr_prefix;
  id ← atr_id_value;
  level ← asks config_level;
  ec ← error_if_expired_and_not_in_overtime STAGE_ATR_COMMIT;
  _ ← throw_if ec;
  ec ← wait_for_hook before_atr_commit;
  _ ← throw_if ec;
  staged ← gets at_staged;
  resp ← execute (mutate_in (atr_commit_request id prefix level staged));
  _ ← wrap_operation_future (create_from_subdoc_response resp) false;
  ec ← wait_for_hook after_atr_commit;
  _ ← throw_if ec;
  modify (set_state AttemptState.COMMITTED).

Definition atr_status_specs (prefix : bytes) : list subdoc_command :=
  [subdoc_get (prefix ++ ATR_FIELD_STATUS) true false].

(** The [try] block of [atr_commit_ambiguity_resolution] from its hook on;
    [values[0]] of an empty vector is undefined. *)
Definition atr_read_status : txn unit :=
  ec ← wait_for_hook before_atr_commit_ambiguity_resolution;
  _ ← throw_if ec;
  prefix ← gets atr_prefix;
  id ← atr_id_value;
  resp ← execute (lookup_in id (atr_status_specs prefix) false);
  res ← wrap_operation_future (create_from_subdoc_response resp) true;
  match res_values (res : result) with
  | [] => fault
  | v :: _ =>
      match read_string (sr_value v) with
      | None => throw runtime_error
      | Some atr_status_raw =>
          match attempt_state_value atr_status_raw with
          | AttemptState.COMMITTED => mret tt
          | AttemptState.ABORTED => throw_failed (retry (operation_failed FAIL_OTHER))
          | _ => throw_failed (no_rollback (cause ILLEGAL_STATE_EXCEPTION (operation_failed FAIL_OTHER)))
          end
      end
  end.

Definition atr_commit_ambiguity_resolution_try : txn unit :=
  ec ← error_if_expired_and_not_in_overtime STAGE_ATR_COMMIT_AMBIGUITY_RESOLUTION;
  _ ← throw_if ec;
  atr_read_status.

(** Its handler *)
Definition resolution_handler (e : client_error) : txn unit :=
  let ec := ce_ec e in
  match ec with
  | FAIL_EXPIRY | FAIL_HARD => throw_failed (ambiguous (no_rollback (operation_failed ec)))
  | FAIL_TRANSIENT | FAIL_OTHER => throw retry_operation
  | FAIL_PATH_NOT_FOUND =>
      throw_failed (ambiguous (no_rollback (cause ACTIVE_TRANSACTION_RECORD_ENTRY_NOT_FOUND (operation_failed ec))))
  | FAIL_DOC_NOT_FOUND =>
      throw_failed (ambiguous (no_rollback (cause ACTIVE_TRANSACTION_RECORD_NOT_FOUND (operation_failed ec))))
  | _ => throw_failed (ambiguous (no_rollback (operation_failed ec)))
  end.

Definition atr_commit_ambiguity_resolution : txn unit :=
  catch_client_error atr_commit_ambiguity_resolution_try resolution_handler.

(** The handler of [atr_commit]; [inr] is a retry with the new mode. *)
Definition atr_commit_handler (fuel : nat) (ambiguity_resolution_mode : bool) (e : client_error) :
    txn (unit + bool) :=
  let ec := ce_ec e in
  let or_ambiguous out := if ambiguity_resolution_mode then ambiguous out else out in
  match ec with
  | FAIL_EXPIRY =>
      _ ← modify set_overtime;
      let out := no_rollback (operation_failed ec) in
      throw_failed (if ambiguity_resolution_mode then ambiguous out else expired out)
  | FAIL_AMBIGUOUS => mret (inr true)
  | FAIL_TRANSIENT =>
      if ambiguity_resolution_mode then mret (inr ambiguity_resolution_mode)
      else throw_failed (retry (operation_failed ec))
  | FAIL_PATH_ALREADY_EXISTS =>
      _ ← retry_op fuel (λ _ : unit, catch_retry atr_commit_ambiguity_resolution) tt;
      mret (inl tt)
  | FAIL_HARD => throw_failed (or_ambiguous (no_rollback (operation_failed ec)))
  | FAIL_DOC_NOT_FOUND =>
      throw_failed (or_ambiguous (no_rollback (cause ACTIVE_TRANSACTION_RECORD_NOT_FOUND (operation_failed ec))))
  | FAIL_PATH_NOT_FOUND =>
      throw_failed (or_ambiguous (no_rollback (cause ACTIVE_TRANSACTION_RECORD_ENTRY_NOT_FOUND (operation_failed ec))))
  | FAIL_ATR_FULL =>
      throw_failed (or_ambiguous (no_rollback (cause ACTIVE_TRANSACTION_RECORD_FULL (operation_failed ec))))
  | _ =>
      let out := operation_failed ec in
      throw_failed (if ambiguity_resolution_mode then ambiguous (no_rollback out) else out)
  end.

Definition atr_commit (fuel : nat) (ambiguity_resolution_mode : bool) : txn unit :=
  retry_op fuel (λ ambiguity_resolution_mode,
    catch_client_error (x ← atr_commit_try; mret (inl x)) (atr_commit_handler fuel ambiguity_resolution_mode))
  ambiguity_resolution_mode.

(** ** Completing, aborting and rolling back the record *)

Definition atr_remove_request (id : document_id) (path : bytes) (level : Z) : mutate_in_request :=
  wrap_durable_request level (with_specs [subdoc_remove path true] (new_mutate_in id)).

Definition atr_complete : txn unit :=
  catch_client_error
    (ec ← wait_for_hook before_atr_complete;
     _ ← throw_if ec;
     ec ← error_if_expired_and_not_in_overtime STAGE_ATR_COMPLETE;
     _ ← throw_if ec;
     path ← gets atr_entry_path;
     id ← atr_id_value;
     level ← asks config_level;
     resp ← execute (mutate_in (atr_remove_request id path level));
     _ ← wrap_operation_future (create_from_subdoc_response resp) true;
     ec ← wait_for_hook after_atr_complete;
     _ ← throw_if ec;
     modify (set_state AttemptState.COMPLETED))
    (λ e, match ce_ec e with
          | FAIL_HARD => throw_failed (failed_post_commit (no_rollback (operation_failed (ce_ec e))))
          | _ => mret tt
          end).

Definition atr_abort_specs (prefix : bytes) : list subdoc_command :=
  [subdoc_upsert (prefix ++ ATR_FIELD_STATUS) (print_string (attempt_state_name AttemptState.ABORTED)) true true false false;
   subdoc_upsert (prefix ++ ATR_FIELD_TIMESTAMP_ROLLBACK_START) macro_cas true true true false].

Definition atr_abort_request (id : document_id) (prefix : bytes) (level : Z)
    (staged : staged_mutation_queue) : mutate_in_request :=
  wrap_durable_request level (with_specs (atr_abort_specs prefix ++ extract_to prefix staged) (new_mutate_in id)).

Definition atr_abort : txn unit :=
  catch_client_error
    (ec ← error_if_expired_and_not_in_overtime STAGE_ATR_ABORT;
     _ ← throw_if ec;
     ec ← wait_for_hook before_atr_aborted;
     _ ← throw_if ec;
     prefix ← gets atr_prefix;
     id ← atr_id_value;
     staged ← gets at_staged;
     level ← asks config_level;
     resp ← execute (mutate_in (atr_abort_request id prefix level staged));
     _ ← wrap_operation_future (create_from_subdoc_response resp) true;
     _ ← modify (set_state AttemptState.ABORTED);
     ec ← wait_for_hook after_atr_aborted;
     throw_if ec)
    (λ e,
      let ec := ce_ec e in
      overtime ← gets at_overtime;
      if (overtime : bool) then throw_failed (expired (no_rollback (operation_failed FAIL_EXPIRY)))
      else
        match ec with
        | FAIL_EXPIRY => _ ← modify set_overtime; throw retry_operation
        | FAIL_PATH_NOT_FOUND =>
            throw_failed (cause ACTIVE_TRANSACTION_RECORD_ENTRY_NOT_FOUND (no_rollback (operation_failed ec)))
        | FAIL_DOC_NOT_FOUND =>
            throw_failed (cause ACTIVE_TRANSACTION_RECORD_NOT_FOUND (no_rollback (operation_failed ec)))
        | FAIL_ATR_FULL =>
            throw_failed (cause ACTIVE_TRANSACTION_RECORD_FULL (no_rollback (operation_failed ec)))
        | FAIL_HARD => throw_failed (no_rollback (operation_failed ec))
        | _ => throw retry_operation
        end).

Definition atr_rollback_complete : txn unit :=
  catch_client_error
    (ec ← error_if_expired_and_not_in_overtime STAGE_ATR_ROLLBACK_COMPLETE;
     _ ← throw_if ec;
     ec ← wait_for_hook before_atr_rolled_back;
     _ ← throw_if ec;
     path ← gets atr_entry_path;
     id ← atr_id_value;
     level ← asks config_level;
     resp ← execute (mutate_in (atr_remove_request id path level));
     _ ← wrap_operation_future (create_from_subdoc_response resp) true;
     _ ← modify (set_state AttemptState.ROLLED_BACK);
     ec ← wait_for_hook after_atr_rolled_back;
     _ ← throw_if ec;
     modify set_done)
    (λ e,
      let ec := ce_ec e in
      overtime ← gets at_overtime;
      if (overtime : bool) then throw_failed (expired (no_rollback (operation_failed FAIL_EXPIRY)))
      else
        match ec with
        | FAIL_DOC_NOT_FOUND | FAIL_PATH_NOT_FOUND => modify set_done
        | FAIL_ATR_FULL => throw retry_operation
        | FAIL_HARD => throw_failed (no_rollback (operation_failed ec))
        | FAIL_EXPIRY => throw_failed (expired (no_rollback (operation_failed ec)))
        | _ => throw retry_operation
        end).
End attempt.

(** ** Unstaging

    [staged_mutations_->commit] and [->rollback]: implemented in
    [Unstaging.v]; the laws are what the rest of an attempt relies on. *)
Class Unstaging := {
  commit_staged : txn unit;
  rollback_staged : txn unit;
}.

Section protocol.
Context `{TransactionJson, Unstaging}.

(** ** Commit *)

(** [commit_with_query], [rollback_with_query] *)
Definition commit_with_query : txn unit :=
  err ← question (λ env n, query_reply env n STAGE_QUERY_COMMIT);
  _ ← modify set_done;
  match err with
  | None => modify (set_state AttemptState.COMPLETED)
  | Some (operation_failed_thrown f) => throw_failed f
  | Some query_attempt_expired => throw_failed (no_rollback (ambiguous (operation_failed FAIL_EXPIRY)))
  | Some document_not_found_thrown => throw_failed (no_rollback (operation_failed FAIL_DOC_NOT_FOUND))
  | Some document_exists_thrown => throw_failed (no_rollback (operation_failed FAIL_DOC_ALREADY_EXISTS))
  | Some query_cas_mismatch => throw_failed (no_rollback (operation_failed FAIL_CAS_MISMATCH))
  | Some unknown_exception => throw unknown_exception
  | Some _ => throw_failed (no_rollback (operation_failed FAIL_OTHER))
  end.

Definition rollback_with_query : txn unit :=
  err ← question (λ env n, query_reply env n STAGE_QUERY_ROLLBACK);
  _ ← modify set_done;
  match err with
  | None | Some query_attempt_not_found => modify (set_state AttemptState.ROLLED_BACK)
  | Some (operation_failed_thrown f) => throw_failed f
  | Some unknown_exception => throw unknown_exception
  | Some _ => throw_failed (no_rollback (operation_failed FAIL_OTHER))
  end.

(** [atr_id_ && !atr_id_->key().empty()] *)
Definition has_atr (a : attempt) : bool :=
  match at_atr_id a with Some id => negb (bool_decide (id_key id = [])) | None => false end.

(** [commit()] *)
Definition commit (fuel : nat) : txn unit :=
  _ ← wait_and_block_ops;
  _ ← existing_error false;
  is_query ← gets at_is_query;
  if (is_query : bool) then commit_with_query
  else
    expired_now ← check_expiry_pre_commit STAGE_BEFORE_COMMIT;
    if (expired_now : bool) then throw_failed (expired (operation_failed FAIL_EXPIRY))
    else
      atr ← gets has_atr;
      is_done ← gets at_done;
      if atr && negb is_done then
        _ ← retry_op_exp (atr_commit fuel false);
        _ ← commit_staged;
        _ ← atr_complete;
        modify set_done
      else if negb is_done then modify set_done
      else throw_failed (no_rollback (operation_failed FAIL_OTHER)).

(** [commit(VoidCallback)]: with what it calls back.  It runs on a thread of
    its own, whose process an exception of another kind terminates. *)
Definition commit_callback (fuel : nat) : txn (option exn) :=
  catch (_ ← commit fuel; mret None)
    (λ e, match e with
          | operation_failed_thrown f => Some (mret (Some (operation_failed_thrown f)))
          | unknown_exception => Some fault
          | _ => Some (mret (Some (operation_failed_thrown (operation_failed FAIL_OTHER))))
          end).

(** ** Rollback *)

(** [rollback()]; its handler of [client_error] swallows all but [FAIL_HARD]. *)
Definition rollback : txn unit :=
  _ ← wait_and_block_ops;
  is_query ← gets at_is_query;
  if (is_query : bool) then rollback_with_query
  else
    _ ← check_expiry_during_commit_or_rollback STAGE_ROLLBACK;
    atr ← gets has_atr;
    state ← gets at_state;
    if negb atr || bool_decide (state = AttemptState.NOT_STARTED) then modify set_done
    else
      is_done ← gets at_done;
      if (is_done : bool) then throw_failed (no_rollback (operation_failed FAIL_OTHER))
      else
        catch_client_error
          (_ ← retry_op_exp atr_abort;
           _ ← rollback_staged;
           retry_op_exp atr_rollback_complete)
          (λ e, match ce_ec e with
                | FAIL_HARD => throw_failed (no_rollback (operation_failed (ce_ec e)))
                | _ => mret tt
                end).

(** ** The transaction around its attempts: [transaction_context.cxx] *)

(** [transactions_cleanup::add_attempt]: whether the attempt is queued for
    cleaning, which is configured to be done. *)
Definition add_to_cleanup (a : attempt) : bool :=
  match at_state a with
  | AttemptState.NOT_STARTED | AttemptState.COMPLETED | AttemptState.ROLLED_BACK => false
  | _ => true
  end.

(** [transaction_result]: only [unstaging_complete] depends on the attempt. *)
Definition get_transaction_result (a : attempt) : bool := bool_decide (at_state a = AttemptState.COMPLETED).

(** The arguments of [txn_complete_callback]; both empty is a retry. *)
Record completion := Completion {
  co_err : option transaction_exception;
  co_result : option bool;
}.

(** [try { rollback() } catch (...)]: whether it threw what the handler takes. *)
Definition try_rollback (takes_unknown : bool) : txn bool :=
  catch (_ ← rollback; mret true)
    (λ e, match e with
          | unknown_exception => if takes_unknown then Some (mret false) else None
          | _ => Some (mret false)
          end).

(** The cause of an [op_exception]; the others here are derived from it. *)
Definition op_exception_cause (err : exn) : option external_exception :=
  match err with
  | op_exception c => Some c
  | document_not_found_thrown => Some DOCUMENT_NOT_FOUND_EXCEPTION
  | document_exists_thrown => Some DOCUMENT_EXISTS_EXCEPTION
  | query_attempt_expired | query_attempt_not_found | query_cas_mismatch => Some COUCHBASE_EXCEPTION
  | _ => None
  end.

(** [op_exception] is converted first. *)
Definition convert_op_exception (err : exn) : exn :=
  match op_exception_cause err with
  | Some c => operation_failed_thrown (cause c (operation_failed FAIL_OTHER))
  | None => err
  end.

(** The handler of [transaction_operation_failed] in [handle_error] *)
Definition handle_operation_failed (er : operation_failure) : txn completion :=
  let finish :=
    if retry_ er then mret (Completion None None)
    else
      res ← gets get_transaction_result;
      mret (Completion (get_final_exception er)
        (match get_final_exception er with None => Some res | Some _ => None end)) in
  if rollback_ er then
    rolled_back ← try_rollback false;
    if negb (rolled_back : bool) then mret (Completion (get_final_exception er) None)
    else if retry_ er then
      expired_now ← question overall_expired;
      if (expired_now : bool) then
        mret (Completion (get_final_exception (expired (no_rollback (operation_failed FAIL_EXPIRY)))) None)
      else finish
    else finish
  else finish.

Definition handle_error (err : exn) : txn completion :=
  match convert_op_exception err with
  | operation_failed_thrown er => handle_operation_failed er
  | _ =>
      _ ← try_rollback true;
      mret (Completion (get_final_exception (operation_failed FAIL_OTHER)) None)
  end.

(** The error of a commit is handled on the thread of the commit. *)
Definition on_thread {A} (m : txn A) : txn A :=
  catch m (λ e, match e with unknown_exception => Some fault | _ => None end).

Definition finalize (fuel : nat) : txn completion :=
  early ← catch
    (_ ← existing_error false;
     is_done ← gets at_done;
     if (is_done : bool) then
       res ← gets get_transaction_result; mret (Some (Completion None (Some res)))
     else mret None)
    (λ e, Some (c ← handle_error e; mret (Some c)));
  match early with
  | Some c => mret c
  | None =>
      err ← commit_callback fuel;
      match err with
      | Some e => on_thread (handle_error e)
      | None => res ← gets get_transaction_result; mret (Completion None (Some res))
      end
  end.

(** ** The loop over attempts: [transactions.cxx] *)

(** [exp_delay::operator()]: the time of the next attempt is not modelled,
    only the bounds on time and number of retries.  [None] for [end_time]
    before the first call. *)
Record exp_delay := ExpDelay { ed_retries : Z; ed_end_time : option Z }.

Definition exp_delay_max_retries : Z := 100.

Definition exp_delay_call (timeout : Z) (d : exp_delay) : txn exp_delay :=
  t ← question now;
  if decide (exp_delay_max_retries ≤ ed_retries d) then throw retry_operation_retries_exhausted
  else
    match ed_end_time d with
    | None => t ← question now; mret (ExpDelay (ed_retries d) (Some (t + timeout)))
    | Some e =>
        if decide (e < t) then throw retry_operation_timeout
        else mret (ExpDelay (u32 (ed_retries d + 1)) (Some e))
    end.

(** A new [attempt_context_impl]: only the log and the count go on. *)
Definition fresh_attempt (id : bytes) (a : attempt) : attempt :=
  Attempt id AttemptState.NOT_STARTED None false false [] false [] (at_log a) (at_tick a) new_op_list [].

(** What ends [run]: a result, a [transaction_exception], or another
    exception in flight. *)
Inductive run_result :=
  | run_returns (unstaging_complete : bool)
  | run_throws (e : transaction_exception)
  | run_escapes (e : exn).

(** The loop of [wrap_run]: [n] attempts are left.  [logic i] is the user's
    code of attempt [i], [uid i] its identifier. *)
Fixpoint wrap_run (fuel n : nat) (uid : nat → bytes) (logic : nat → txn unit) (i : nat) (d : exp_delay) :
    txn run_result :=
  match n with
  | O => res ← gets get_transaction_result; mret (run_returns res)
  | S n =>
      timeout ← asks config_timeout;
      r ← catch (d ← exp_delay_call (2 * timeout) d; mret (inl d)) (λ e, Some (mret (inr e)));
      match r with
      | inr e => mret (run_escapes e)
      | inl d =>
          _ ← modify (fresh_attempt (uid i));
          thrown ← catch (_ ← logic i; mret None) (λ e, Some (mret (Some e)));
          c ← catch (c ← match thrown with Some e => handle_error e | None => finalize fuel end; mret (inl c))
                (λ e, Some (mret (inr e)));
          match c with
          | inr e => mret (run_escapes e)
          | inl (Completion _ (Some res)) => mret (run_returns res)
          | inl (Completion (Some e) None) => mret (run_throws e)
          | inl (Completion None None) => wrap_run fuel n uid logic (S i) d
          end
      end
  end.

Definition max_attempts : nat := Z.to_nat 1000.

(** [run]: what a blocking call returns or throws *)
Definition run (fuel : nat) (uid : nat → bytes) (logic : nat → txn unit) : txn run_result :=
  wrap_run fuel max_attempts uid logic 0 (ExpDelay 0 None).

(** [run] with a callback, on a thread of its own: what it calls back with.
    An exception that leaves the function of a thread terminates the process. *)
Definition run_async (fuel : nat) (uid : nat → bytes) (logic : nat → txn unit) :
    txn (option transaction_exception * option bool) :=
  r ← run fuel uid logic;
  match r with
  | run_returns res => mret (None, Some res)
  | run_throws e => mret (Some e, None)
  | run_escapes _ => fault
  end.
End protocol.

(** An environment without hooks and queries, for the witnesses *)
Definition plain_environment (expired : nat → bool) (answer : nat → request → response) : environment :=
  Environment expired (λ _ _, false) (λ _ _, None) answer (λ _ _, None) (λ _, 0) (λ _, 1000000) 15000000000 1 [116]
    None (λ _, [117]) (λ _, (true, None))
    (λ _, inr (Capability.ConfigurationCapabilities [Capability.subdoc_revive_document] [] None)).
Definition calm_environment : (nat → request → response) → environment := plain_environment (λ _, false).

Definition response_ok : response := Response None None 7 false [].
Definition response_error (ec : error_code) : response := Response (Some ec) None 0 false [].

(** An attempt with staged mutations whose record is pending *)
Definition pending_attempt (staged : staged_mutation_queue) : attempt :=
  Attempt [97] AttemptState.PENDING (Some (document_id_of_key [98] [114])) false false [] false staged [] 0 new_op_list [].
