(* ===== verification/AttemptProofs.v ===== *)
(** * Transaction attempts: a program logic and the protocol's lemmas

    [wp m env Q a]: from the attempt [a] the action [m] ends with an outcome
    and an attempt that satisfy [Q].  The lemmas about the operations on the
    active transaction record describe the requests they add to the log. *)

From S2P Require Import Prelude ByteOrder Protocol McbpParser ClientRequest ClientResponse Commands Transactions Attempt.

(** ** Weakest preconditions *)

Definition wp {A} (m : txn A) (env : environment) (Q : outcome exn A → attempt → Prop) (a : attempt) : Prop :=
  Q (m env a).1 (m env a).2.

(** The postcondition of [m] in [m ≫= f] *)
Definition bind_post {A B} (f : A → txn B) (env : environment) (Q : outcome exn B → attempt → Prop) :
    outcome exn A → attempt → Prop := λ r a,
  match r with
  | Ok x => wp (f x) env Q a
  | Err e => Q (Err e) a
  | Fault => Q Fault a
  | Diverge => Q Diverge a
  end.

Definition catch_post {A} (h : exn → option (txn A)) (env : environment) (Q : outcome exn A → attempt → Prop) :
    outcome exn A → attempt → Prop := λ r a,
  match r with
  | Err e => match h e with Some m => wp m env Q a | None => Q (Err e) a end
  | r => Q r a
  end.

Section wp.
Context (env : environment).

Lemma wp_mono {A} (m : txn A) (Q Q' : outcome exn A → attempt → Prop) a :
  wp m env Q a → (∀ r a', Q r a' → Q' r a') → wp m env Q' a.
Proof. unfold wp. auto. Qed.

Lemma wp_conj {A} (m : txn A) (Q Q' : outcome exn A → attempt → Prop) a :
  wp m env Q a → wp m env Q' a → wp m env (λ r a, Q r a ∧ Q' r a) a.
Proof. unfold wp. auto. Qed.

Lemma wp_ret {A} (x : A) Q a : Q (Ok x) a → wp (mret x) env Q a.
Proof. done. Qed.
Lemma wp_throw {A} e (Q : outcome exn A → attempt → Prop) a : Q (Err e) a → wp (throw e) env Q a.
Proof. done. Qed.
Lemma wp_fault {A} (Q : outcome exn A → attempt → Prop) a : Q Fault a → wp fault env Q a.
Proof. done. Qed.
Lemma wp_diverge {A} (Q : outcome exn A → attempt → Prop) a : Q Diverge a → wp diverge env Q a.
Proof. done. Qed.
Lemma wp_gets {A} (f : attempt → A) Q a : Q (Ok (f a)) a → wp (gets f) env Q a.
Proof. done. Qed.
Lemma wp_asks {A} (f : environment → A) Q a : Q (Ok (f env)) a → wp (asks f) env Q a.
Proof. done. Qed.
Lemma wp_modify f Q a : Q (Ok tt) (f a) → wp (modify f) env Q a.
Proof. done. Qed.
Lemma wp_question {A} (f : environment → nat → A) Q a :
  Q (Ok (f env (at_tick a))) (next_tick a) → wp (question f) env Q a.
Proof. done. Qed.
Lemma wp_execute req (Q : outcome exn response → attempt → Prop) a :
  Q (Ok (reply env (at_tick a) req)) (set_log ((req, reply env (at_tick a) req) :: at_log a) (next_tick a)) →
  wp (execute req) env Q a.
Proof. done. Qed.

Lemma wp_bind {A B} (m : txn A) (f : A → txn B) Q a :
  wp m env (bind_post f env Q) a → wp (m ≫= f) env Q a.
Proof.
  unfold wp, bind_post, mbind, txn_bind, mbind.
  destruct (m env a) as [[x|e| |] a']; done.
Qed.

Lemma wp_catch {A} (m : txn A) h Q a : wp m env (catch_post h env Q) a → wp (catch m h) env Q a.
Proof.
  unfold wp, catch_post, catch. destruct (m env a) as [[x|e| |] a']; cbn [fst snd]; try done.
  by destruct (h e).
Qed.

Lemma wp_throw_if ec (Q : outcome exn unit → attempt → Prop) a :
  match ec with
  | Some ec => Q (Err (client_error_thrown (client_error_of_class ec))) a
  | None => Q (Ok tt) a
  end → wp (throw_if ec) env Q a.
Proof. by destruct ec. Qed.

Lemma wp_wrap_operation_future res ignore (Q : outcome exn result → attempt → Prop) a :
  (∀ res', validate_operation_result res ignore = Ok res' → Q (Ok res') a) →
  (∀ e, validate_operation_result res ignore = Err e → Q (Err (client_error_thrown e)) a) →
  wp (wrap_operation_future res ignore) env Q a.
Proof.
  intros H1 H2. unfold wrap_operation_future.
  destruct (validate_total res ignore) as [[r' Hr]|[e He]].
  - rewrite Hr. by apply wp_ret, H1.
  - rewrite He. by apply wp_throw, H2.
Qed.

(** The hooks of the tests are not installed. *)
Definition no_hooks : Prop :=
  (∀ n h, hook_error env n h = None) ∧ ∀ n s, hook_expired env n s = false.

Lemma wp_wait_for_hook h (Q : outcome exn (option error_class) → attempt → Prop) a :
  no_hooks → Q (Ok None) (next_tick a) → wp (wait_for_hook h) env Q a.
Proof. intros [Hh _] HQ. apply wp_question. by rewrite Hh. Qed.

Lemma wp_error_if_expired s (Q : outcome exn (option error_class) → attempt → Prop) a :
  (at_overtime a = true → Q (Ok None) a) →
  (at_overtime a = false →
     Q (Ok (if overall_expired env (at_tick a) || hook_expired env (at_tick a) s then Some FAIL_EXPIRY else None))
       (next_tick a)) →
  wp (error_if_expired_and_not_in_overtime s) env Q a.
Proof.
  intros H1 H2. unfold error_if_expired_and_not_in_overtime.
  apply wp_bind, wp_gets. cbn. destruct (at_overtime a); [by apply H1|].
  apply wp_bind, wp_question. cbn. apply wp_ret. by apply H2.
Qed.

Lemma wp_check_expiry_during s (Q : outcome exn unit → attempt → Prop) a :
  (at_overtime a = true → Q (Ok tt) a) →
  (at_overtime a = false →
     Q (Ok tt) (if overall_expired env (at_tick a) || hook_expired env (at_tick a) s
                then set_overtime (next_tick a) else next_tick a)) →
  wp (check_expiry_during_commit_or_rollback s) env Q a.
Proof.
  intros H1 H2. unfold check_expiry_during_commit_or_rollback.
  apply wp_bind, wp_gets. cbn. destruct (at_overtime a); cbn; [by apply wp_ret, H1|].
  apply wp_bind, wp_question. cbn. specialize (H2 eq_refl). by case_match.
Qed.

Lemma wp_atr_id_value (Q : outcome exn document_id → attempt → Prop) a :
  (∀ id, at_atr_id a = Some id → Q (Ok id) a) →
  (at_atr_id a = None → Q (Err runtime_error) a) →
  wp atr_id_value env Q a.
Proof.
  intros H1 H2. unfold atr_id_value. apply wp_bind, wp_gets. cbn.
  destruct (at_atr_id a); [apply wp_ret|apply wp_throw]; auto.
Qed.

Lemma wp_wait_and_block (Q : outcome exn unit → attempt → Prop) a :
  (op_count (at_ops a) = 0 → Q (Ok tt) (set_ops (OpList 0 false (op_in_flight (at_ops a))) a)) →
  (op_count (at_ops a) ≠ 0 → Q Diverge a) →
  wp wait_and_block_ops env Q a.
Proof.
  intros H1 H2. unfold wait_and_block_ops. apply wp_bind, wp_gets. cbn.
  destruct (Z.eqb_spec (op_count (at_ops a)) 0) as [He|He]; [|by apply wp_diverge, H2].
  apply wp_modify. rewrite He. by apply H1.
Qed.

(** A bounded or fuelled loop keeps an invariant of the attempt. *)
Lemma wp_retry_op {S A} (body : S → txn (A + S)) (I : S → attempt → Prop)
    (Q : outcome exn A → attempt → Prop) fuel s a :
  (∀ s a, I s a → wp (body s) env (λ r a',
     match r with
     | Ok (inl x) => Q (Ok x) a'
     | Ok (inr s') => I s' a'
     | Err e => Q (Err e) a'
     | Fault => Q Fault a'
     | Diverge => Q Diverge a'
     end) a) →
  (∀ s a, I s a → Q Diverge a) →
  I s a → wp (retry_op fuel body s) env Q a.
Proof.
  intros Hb Hd. revert s a. induction fuel as [|fuel IH]; intros s a HI; cbn [retry_op].
  - apply wp_diverge. by eapply Hd.
  - apply wp_bind. eapply wp_mono; [by apply Hb|].
    intros [[x|s']|e| |] a'; cbn [bind_post]; try done. apply IH.
Qed.

Lemma wp_catch_retry {A} (m : txn A) (Q : outcome exn (A + unit) → attempt → Prop) a :
  wp m env (λ r a',
    match r with
    | Ok x => Q (Ok (inl x)) a'
    | Err retry_operation => Q (Ok (inr tt)) a'
    | Err e => Q (Err e) a'
    | Fault => Q Fault a'
    | Diverge => Q Diverge a'
    end) a → wp (catch_retry m) env Q a.
Proof.
  intros Hm. unfold catch_retry. apply wp_catch, wp_bind. eapply wp_mono; [exact Hm|].
  intros [x|[]| |] a'; cbn; try done.
Qed.

Lemma wp_retry_loop {A} (m : txn A) (I : attempt → Prop) (Q : outcome exn A → attempt → Prop) n a :
  (∀ a, I a → wp m env (λ r a',
     match r with Err retry_operation => I a' | r => Q r a' end) a) →
  (∀ a, I a → Q (Err retry_operation_retries_exhausted) a) →
  I a → wp (retry_loop n m) env Q a.
Proof.
  intros Hb Hd. revert a. induction n as [|n IH]; intros a HI; cbn [retry_loop].
  - apply wp_throw. by apply Hd.
  - apply wp_bind, wp_catch_retry. eapply wp_mono; [by apply Hb|].
    intros [x|[]| |] a'; cbn; try done. by apply IH.
Qed.
End wp.

(** ** The log *)

Section log.
Context `{TransactionJson}.

(** The request writes a state of the attempt into its record. *)
Definition writes_status (prefix : bytes) (s : attempt_state) (e : request * response) : Prop :=
  match e.1 with
  | mutate_in r => ∃ c, c ∈ mi_specs r ∧ sc_path c = prefix ++ ATR_FIELD_STATUS ∧
                        sc_value c = print_string (attempt_state_name s)
  | _ => False
  end.

(** How the server answered a write of [atr_commit] *)
Definition accepted (e : request * response) : Prop :=
  ∃ r, validate_operation_result (create_from_subdoc_response e.2) false = Ok r.
Definition failed_with (ec : error_class) (e : request * response) : Prop :=
  ∃ err, validate_operation_result (create_from_subdoc_response e.2) false = Err err ∧ ce_ec err = ec.

(** The state of the attempt was looked up: what was read ([None]: nothing
    that is a JSON string) *)
Definition reads_status (prefix : bytes) (s : option attempt_state) (e : request * response) : Prop :=
  (∃ id, e.1 = lookup_in id (atr_status_specs prefix) false) ∧
  ∃ v, head (resp_fields e.2) = Some v ∧ attempt_state_value <$> read_string v.1 = s.

Definition touches_status (prefix : bytes) (e : request * response) : Prop := ∃ s, writes_status prefix s e.

(** The action only adds entries that satisfy [P] to the log. *)
Definition adds {A} (env : environment) (id : bytes) (P : request * response → Prop) (m : txn A) : Prop :=
  ∀ a, at_id a = id →
    wp m env (λ _ a', at_id a' = id ∧ ∃ l, at_log a' = l ++ at_log a ∧ Forall P l) a.

Section adds.
Context (env : environment) (id : bytes) (P : request * response → Prop).
Abbreviation adds := (adds env id P).

Lemma adds_pure {A} (m : txn A) : (∀ env a, (m env a).2 = a) → adds m.
Proof. intros Hm a Ha. unfold wp. rewrite Hm. split; [done|]. exists []. by split. Qed.

Lemma adds_ret {A} (x : A) : adds (mret x).
Proof. by apply adds_pure. Qed.
Lemma adds_throw {A} e : adds (throw (A:=A) e).
Proof. by apply adds_pure. Qed.
Lemma adds_fault {A} : adds (fault (A:=A)).
Proof. by apply adds_pure. Qed.
Lemma adds_diverge {A} : adds (diverge (A:=A)).
Proof. by apply adds_pure. Qed.
Lemma adds_gets {A} (f : attempt → A) : adds (gets f).
Proof. by apply adds_pure. Qed.
Lemma adds_asks {A} (f : environment → A) : adds (asks f).
Proof. by apply adds_pure. Qed.

Lemma adds_modify f : (∀ a, at_id (f a) = at_id a ∧ at_log (f a) = at_log a) → adds (modify f).
Proof. intros Hf a Ha. destruct (Hf a) as [H1 H2]. split; cbn; [congruence|]. exists []. by rewrite H2. Qed.

Lemma adds_question {A} (f : environment → nat → A) : adds (question f).
Proof. intros a Ha. split; [done|]. exists []. by split. Qed.

Lemma adds_execute req : (∀ resp, P (req, resp)) → adds (execute req).
Proof. intros HP a Ha. split; [done|]. exists [(req, reply env (at_tick a) req)]. split; [done|]. by constructor. Qed.

Lemma adds_compose a a' a'' :
  (∃ l, at_log a' = l ++ at_log a ∧ Forall P l) → (∃ l, at_log a'' = l ++ at_log a' ∧ Forall P l) →
  ∃ l, at_log a'' = l ++ at_log a ∧ Forall P l.
Proof.
  intros (l & Hl & HP) (l' & Hl' & HP'). exists (l' ++ l). split; [by rewrite Hl', Hl, app_assoc|].
  by apply Forall_app.
Qed.

Lemma adds_bind {A B} (m : txn A) (f : A → txn B) : adds m → (∀ x, adds (f x)) → adds (m ≫= f).
Proof.
  intros Hm Hf a Ha. apply wp_bind. eapply wp_mono; [by apply Hm|].
  intros [x|e| |] a' [Ha' Hl]; cbn [bind_post]; try done.
  eapply wp_mono; [by apply Hf|]. intros r a'' [Ha'' Hl']. split; [done|].
  by eapply adds_compose.
Qed.

Lemma adds_gets_bind {A B} (f : attempt → A) (g : A → txn B) :
  (∀ a, at_id a = id → adds (g (f a))) → adds (gets f ≫= g).
Proof. intros Hg a Ha. apply wp_bind, wp_gets. by apply Hg. Qed.

Lemma adds_catch {A} (m : txn A) h : adds m → (∀ e m', h e = Some m' → adds m') → adds (catch m h).
Proof.
  intros Hm Hh a Ha. apply wp_catch. eapply wp_mono; [by apply Hm|].
  intros [x|e| |] a' [Ha' Hl]; cbn [catch_post]; try done.
  destruct (h e) as [m'|] eqn:He; [|done].
  eapply wp_mono; [by eapply Hh|]. intros r a'' [Ha'' Hl']. split; [done|].
  by eapply adds_compose.
Qed.

Lemma adds_catch_client {A} (m : txn A) h : adds m → (∀ e, adds (h e)) → adds (catch_client_error m h).
Proof. intros Hm Hh. apply adds_catch; [done|]. by intros [] m' [= <-]. Qed.

Lemma adds_retry_op {S A} (body : S → txn (A + S)) fuel s : (∀ s, adds (body s)) → adds (retry_op fuel body s).
Proof.
  intros Hb. revert s. induction fuel as [|fuel IH]; intros s; cbn [retry_op]; [apply adds_diverge|].
  apply adds_bind; [done|]. intros [x|s']; [apply adds_ret|apply IH].
Qed.

Lemma adds_catch_retry {A} (m : txn A) : adds m → adds (catch_retry m).
Proof.
  intros Hm. apply adds_catch; [apply adds_bind; [done|intros; apply adds_ret]|].
  intros [] m' [= <-]. apply adds_ret.
Qed.

Lemma adds_retry_loop {A} (m : txn A) n : adds m → adds (retry_loop n m).
Proof.
  intros Hm. induction n as [|n IH]; cbn [retry_loop]; [apply adds_throw|].
  apply adds_bind; [by apply adds_catch_retry|]. intros [x|[]]; [apply adds_ret|done].
Qed.

Lemma adds_throw_if ec : adds (throw_if ec).
Proof. destruct ec; [apply adds_throw|apply adds_ret]. Qed.

Lemma adds_wrap res ignore : adds (wrap_operation_future res ignore).
Proof.
  unfold wrap_operation_future. case_match;
    auto using adds_ret, adds_throw, adds_fault, adds_diverge.
Qed.
End adds.
End log.

Create HintDb adds discriminated.
#[export] Hint Resolve adds_ret adds_throw adds_fault adds_diverge adds_gets adds_asks adds_question
  adds_throw_if adds_wrap adds_catch_retry adds_retry_loop adds_retry_op : adds.
#[export] Hint Extern 1 (adds _ _ _ (modify _)) => apply adds_modify; intros ?; split; reflexivity : adds.

(** Walks through an action; what is left are the requests and the actions
    the hints do not know. *)
Ltac adds_walk :=
  repeat (match goal with
  | |- adds _ _ _ (mbind _ (gets atr_prefix)) => apply adds_gets_bind; intros ? <-
  | |- adds _ _ _ (mbind _ (gets atr_entry_path)) => apply adds_gets_bind; intros ? <-
  | |- adds _ _ _ (mbind _ _) => apply adds_bind; [|intros ?]
  | |- adds _ _ _ (catch_client_error _ _) => apply adds_catch_client; [|intros ?]
  | |- adds _ _ _ (throw_failed _) => apply adds_throw
  | |- adds _ _ _ (throw_client _) => apply adds_throw
  | |- adds _ _ _ (match ?x with _ => _ end) => destruct x
  | |- adds _ _ _ (if ?x then _ else _) => destruct x
  end || solve [auto with adds nocore] || (progress cbn beta iota)).

(** ** The interface of unstaging *)

(** A request that does not concern the active transaction record *)
Definition record_free (e : request * response) : Prop :=
  match e.1 with
  | mutate_in r => ∀ c s, c ∈ mi_specs r → sc_path c ≠ ATR_FIELD_ATTEMPTS ++ s
  | lookup_in _ _ _ | lookup_in_any_replica _ _ _ => False
  | _ => True
  end.

(** Unstaging leaves the record and the members of the attempt other than
    the overtime flag and the CAS of mutations alone; its errors never ask for
    a rollback, and those of a commit are reported as such. *)
Class UnstagingLaws `{Unstaging} : Prop := {
  commit_staged_adds env id : adds env id record_free commit_staged;
  rollback_staged_adds env id : adds env id record_free rollback_staged;
  commit_staged_ends env a :
    wp commit_staged env (λ r a', at_state a' = at_state a ∧ at_atr_id a' = at_atr_id a ∧
      match r with
      | Err e => ∃ f, e = operation_failed_thrown f ∧ rollback_ f = false ∧ retry_ f = false ∧
                       to_raise_ f = FAILED_POST_COMMIT
      | _ => True
      end) a;
  rollback_staged_ends env a :
    wp rollback_staged env (λ r a', at_state a' = at_state a ∧ at_atr_id a' = at_atr_id a ∧
      match r with
      | Err e => ∃ f, e = operation_failed_thrown f ∧ rollback_ f = false
      | _ => True
      end) a;
}.

Section requests.
Context `{TransactionJsonLaws}.

Lemma print_string_inj s s' : print_string s = print_string s' → s = s'.
Proof. intros Hs. apply (f_equal read_string) in Hs. rewrite !read_print_string in Hs. congruence. Qed.

Lemma attempt_state_name_inj s s' : attempt_state_name s = attempt_state_name s' → s = s'.
Proof. intros Hs. rewrite <-(attempt_state_roundtrip s), Hs. by destruct s'. Qed.

Lemma record_free_status id e s : record_free e → ¬ writes_status (ATR_FIELD_ATTEMPTS ++ id) s e.
Proof.
  unfold record_free, writes_status. destruct (e.1); [|by intros ? []..]. intros Hf (c & Hc & Hp & _).
  apply (Hf c (id ++ ATR_FIELD_STATUS) Hc). by rewrite Hp, <-app_assoc.
Qed.

Lemma record_free_reads prefix s e : record_free e → ¬ reads_status prefix s e.
Proof. unfold record_free, reads_status. by destruct (e.1); intros ? [[? ?] _]. Qed.

(** The other fields of the entry are not its status. *)
Lemma extract_to_path prefix staged c :
  c ∈ extract_to prefix staged → sc_path c ≠ prefix ++ ATR_FIELD_STATUS.
Proof.
  unfold extract_to. rewrite !elem_of_cons. intros [->|[->|[->|Hc]]]; [| | |by apply not_elem_of_nil in Hc];
    cbn; intros Hp; apply app_inv_head in Hp; vm_compute in Hp; done.
Qed.

Lemma app_longer_ne {A} (l r : list A) : r ≠ [] → l ≠ l ++ r.
Proof. intros Hr Hl. apply Hr. rewrite <-(app_nil_r l) in Hl at 1. by apply app_inv_head in Hl. Qed.

Lemma remove_request_free a id level resp s :
  ¬ writes_status (atr_prefix a) s (mutate_in (atr_remove_request id (atr_entry_path a) level), resp).
Proof.
  unfold writes_status. cbn [fst]. intros (c & Hc & Hp & _). apply list_elem_of_singleton in Hc as ->.
  cbn [subdoc_remove sc_path] in Hp. unfold atr_prefix, atr_entry_path in Hp.
  rewrite !(app_assoc _ _ [ascii_dot]), <-(app_assoc _ [ascii_dot] ATR_FIELD_STATUS) in Hp.
  by apply app_longer_ne in Hp.
Qed.

Lemma commit_request_writes id prefix level staged resp s :
  writes_status prefix s (mutate_in (atr_commit_request id prefix level staged), resp) ↔ s = AttemptState.COMMITTED.
Proof.
  unfold writes_status. cbn [fst].
  change (mi_specs _) with (atr_commit_specs prefix ++ extract_to prefix staged). split.
  - intros (c & Hc & Hp & Hv). rewrite elem_of_app in Hc. destruct Hc as [Hc|Hc].
    + unfold atr_commit_specs in Hc. rewrite !elem_of_cons in Hc.
      destruct Hc as [->|[->|[->|Hc]]]; [| | |by apply not_elem_of_nil in Hc].
      * cbn [sc_value subdoc_upsert] in Hv. apply print_string_inj, attempt_state_name_inj in Hv. done.
      * cbn [sc_path subdoc_upsert subdoc_insert] in Hp. apply app_inv_head in Hp. vm_compute in Hp. done.
      * cbn [sc_path subdoc_upsert subdoc_insert] in Hp. apply app_inv_head in Hp. vm_compute in Hp. done.
    + by apply extract_to_path in Hc.
  - intros ->. eexists. split_and!; [apply elem_of_app; left; by left|done..].
Qed.

Lemma abort_request_writes id prefix level staged resp s :
  writes_status prefix s (mutate_in (atr_abort_request id prefix level staged), resp) ↔ s = AttemptState.ABORTED.
Proof.
  unfold writes_status. cbn [fst].
  change (mi_specs _) with (atr_abort_specs prefix ++ extract_to prefix staged). split.
  - intros (c & Hc & Hp & Hv). rewrite elem_of_app in Hc. destruct Hc as [Hc|Hc].
    + unfold atr_abort_specs in Hc. rewrite !elem_of_cons in Hc.
      destruct Hc as [->|[->|Hc]]; [| |by apply not_elem_of_nil in Hc].
      * cbn [sc_value subdoc_upsert] in Hv. apply print_string_inj, attempt_state_name_inj in Hv. done.
      * cbn [sc_path subdoc_upsert subdoc_insert] in Hp. apply app_inv_head in Hp. vm_compute in Hp. done.
    + by apply extract_to_path in Hc.
  - intros ->. eexists. split_and!; [apply elem_of_app; left; by left|done..].
Qed.
End requests.

(** ** What the operations on the record add to the log *)

Section record.
Context `{TransactionJsonLaws} (env : environment).

Lemma adds_atr_id_value id P : adds env id P atr_id_value.
Proof. unfold atr_id_value. adds_walk. Qed.

Lemma adds_error_if_expired id P s : adds env id P (error_if_expired_and_not_in_overtime s).
Proof. unfold error_if_expired_and_not_in_overtime, has_expired_client_side. adds_walk. Qed.

Lemma adds_wait_for_hook id P h : adds env id P (wait_for_hook h).
Proof. apply adds_question. Qed.

Lemma adds_existing_error id P b : adds env id P (existing_error b).
Proof. unfold existing_error. adds_walk. Qed.

Lemma adds_wait_and_block id P : adds env id P wait_and_block_ops.
Proof. unfold wait_and_block_ops. adds_walk. Qed.

Lemma adds_check_pre id P s : adds env id P (check_expiry_pre_commit s).
Proof. unfold check_expiry_pre_commit, has_expired_client_side. adds_walk. Qed.

Lemma adds_check_during id P s : adds env id P (check_expiry_during_commit_or_rollback s).
Proof. unfold check_expiry_during_commit_or_rollback, has_expired_client_side. adds_walk. Qed.
End record.
#[export] Hint Resolve adds_atr_id_value adds_error_if_expired adds_wait_for_hook adds_existing_error
  adds_check_pre adds_check_during adds_wait_and_block : adds.

(** The path of an attempt's entry and its prefix, by its identifier *)
Definition entry_path (id : bytes) : bytes := ATR_FIELD_ATTEMPTS ++ [ascii_dot] ++ id.
Definition entry_prefix (id : bytes) : bytes := ATR_FIELD_ATTEMPTS ++ [ascii_dot] ++ id ++ [ascii_dot].

Section record_requests.
Context `{TransactionJsonLaws, Unstaging, !UnstagingLaws} (env : environment).

Lemma atr_complete_adds id :
  adds env id (λ e, ¬ touches_status (entry_prefix id) e) atr_complete.
Proof.
  unfold atr_complete. adds_walk. apply adds_execute. intros resp [s Hs].
  by eapply (remove_request_free a).
Qed.

Lemma atr_abort_adds id :
  adds env id (λ e, ¬ writes_status (entry_prefix id) AttemptState.COMMITTED e ∧
                    ∀ s, ¬ reads_status (entry_prefix id) s e) atr_abort.
Proof.
  unfold atr_abort. adds_walk. apply adds_execute. intros resp. split.
  - intros Hs. by apply abort_request_writes in Hs.
  - by intros s [[? ?] _].
Qed.

Lemma atr_rollback_complete_adds id :
  adds env id (λ e, ¬ writes_status (entry_prefix id) AttemptState.COMMITTED e ∧
                    ∀ s, ¬ reads_status (entry_prefix id) s e) atr_rollback_complete.
Proof.
  unfold atr_rollback_complete. adds_walk. apply adds_execute. intros resp. split.
  - by apply (remove_request_free a).
  - by intros s [[? ?] _].
Qed.

Lemma adds_mono id (P Q : request * response → Prop) {A} (m : txn A) :
  (∀ e, P e → Q e) → adds env id P m → adds env id Q m.
Proof.
  intros HPQ Hm a Ha. eapply wp_mono; [by apply Hm|]. intros r a' (Ha' & l & Hl & HP).
  split; [done|]. exists l. split; [done|]. by eapply Forall_impl.
Qed.

Lemma record_free_rolls id e :
  record_free e → ¬ writes_status (entry_prefix id) AttemptState.COMMITTED e ∧
                  ∀ s, ¬ reads_status (entry_prefix id) s e.
Proof.
  intros Hf. split; [unfold entry_prefix; by apply record_free_status|intros s; by apply record_free_reads].
Qed.

(** Rolling back never writes the commit of the record and never looks its
    state up. *)
Lemma rollback_adds id :
  adds env id (λ e, ¬ writes_status (entry_prefix id) AttemptState.COMMITTED e ∧
                    ∀ s, ¬ reads_status (entry_prefix id) s e) rollback.
Proof.
  unfold rollback, rollback_with_query, retry_op_exp. adds_walk;
    try (apply adds_retry_loop; first [apply atr_abort_adds|apply atr_rollback_complete_adds]).
  eapply adds_mono; [apply record_free_rolls|apply rollback_staged_adds].
Qed.

Lemma handle_error_adds id e :
  adds env id (λ e, ¬ writes_status (entry_prefix id) AttemptState.COMMITTED e ∧
                    ∀ s, ¬ reads_status (entry_prefix id) s e) (handle_error e).
Proof.
  assert (Ht : ∀ b, adds env id (λ e, ¬ writes_status (entry_prefix id) AttemptState.COMMITTED e ∧
                    ∀ s, ¬ reads_status (entry_prefix id) s e) (try_rollback b)).
  { intros b. apply adds_catch; [apply adds_bind; [apply rollback_adds|intros; apply adds_ret]|].
    intros [] m; repeat case_match; intros [= <-]; apply adds_ret. }
  unfold handle_error, handle_operation_failed. adds_walk; try apply Ht.
Qed.
End record_requests.

(** ** Committing the record *)

Section commit_record.
Context `{TransactionJsonLaws} (env : environment) (Hhooks : no_hooks env).
Context (aid : bytes) (L : list (request * response)).
Abbreviation prefix := (entry_prefix aid).

Definition commit_entry (e : request * response) : Prop :=
  (∃ id level staged, e.1 = mutate_in (atr_commit_request id prefix level staged)) ∨
  (∃ id, e.1 = lookup_in id (atr_status_specs prefix) false).

Definition commit_write (e : request * response) : Prop := writes_status prefix AttemptState.COMMITTED e.

Definition no_ambiguity (l : list (request * response)) : Prop :=
  ∀ e, e ∈ l → commit_write e → ¬ failed_with FAIL_AMBIGUOUS e.

(** Some entry of the log read this state. *)
Definition has_read (s : option attempt_state) (l : list (request * response)) : Prop :=
  ∃ e, e ∈ l ∧ reads_status prefix s e.

(** Since [L] only commits and lookups were sent, and the attempt has an
    active transaction record. *)
Definition commit_phase (l : list (request * response)) (a : attempt) : Prop :=
  at_id a = aid ∧ at_atr_id a ≠ None ∧ at_log a = l ++ L ∧ Forall commit_entry l.

Definition refused (l : list (request * response)) : Prop := ∀ e, e ∈ l → commit_write e → ¬ accepted e.

(** How a commit of the record ends, in the terms of the requests sent *)
Definition commit_outcome {A} (l : list (request * response)) (r : outcome exn A) : Prop :=
  match r with
  | Ok _ => (∃ e, e ∈ l ∧ commit_write e ∧ accepted e) ∨ has_read (Some AttemptState.COMMITTED) l
  | Err ex => refused l ∧
      ((∃ f, ex = operation_failed_thrown f ∧
          (rollback_ f = true →
             no_ambiguity l ∨ has_read (Some AttemptState.ABORTED) l ∨ has_read None l)) ∨
       (ex = runtime_error ∧ has_read None l))
  | Fault | Diverge => True
  end.

Definition commit_post {A} (r : outcome exn A) (a : attempt) : Prop :=
  ∃ l, commit_phase l a ∧ commit_outcome l r.

Lemma accepted_or_failed e : accepted e ∨ ∃ err, validate_operation_result (create_from_subdoc_response e.2) false = Err err.
Proof. destruct (validate_total (create_from_subdoc_response e.2) false) as [?|?]; [by left|by right]. Qed.

Lemma failed_not_accepted e err :
  validate_operation_result (create_from_subdoc_response e.2) false = Err err → ¬ accepted e.
Proof. intros He [r Hr]. congruence. Qed.

(** One try: it expires before anything is sent, or the write is answered. *)
Lemma atr_commit_try_wp l a :
  commit_phase l a →
  wp atr_commit_try env (λ r a',
    (r = Err (client_error_thrown (client_error_of_class FAIL_EXPIRY)) ∧ commit_phase l a') ∨
    ∃ e, commit_phase (e :: l) a' ∧ commit_write e ∧
      ((r = Ok tt ∧ accepted e) ∨
       ∃ err, r = Err (client_error_thrown err) ∧
         validate_operation_result (create_from_subdoc_response e.2) false = Err err)) a.
Proof.
  intros (Hid & Hatr & Hlog & Hl). unfold atr_commit_try.
  apply wp_bind, wp_gets. cbn [bind_post]. apply wp_bind, wp_atr_id_value; [|done].
  intros id Hsome. cbn [bind_post]. apply wp_bind, wp_asks. cbn [bind_post].
  assert (Hrest : ∀ a', at_id a' = aid → at_atr_id a' ≠ None → at_log a' = l ++ L →
    wp (ec ← wait_for_hook before_atr_commit; _ ← throw_if ec; staged ← gets at_staged;
        resp ← execute (mutate_in (atr_commit_request id (atr_prefix a) (config_level env) staged));
        _ ← wrap_operation_future (create_from_subdoc_response resp) false;
        ec ← wait_for_hook after_atr_commit; _ ← throw_if ec;
        modify (set_state AttemptState.COMMITTED)) env (λ r a',
    (r = Err (client_error_thrown (client_error_of_class FAIL_EXPIRY)) ∧ commit_phase l a') ∨
    ∃ e, commit_phase (e :: l) a' ∧ commit_write e ∧
      ((r = Ok tt ∧ accepted e) ∨
       ∃ err, r = Err (client_error_thrown err) ∧
         validate_operation_result (create_from_subdoc_response e.2) false = Err err)) a').
  { intros a' Hid' Hatr' Hlog'.
    apply wp_bind, wp_wait_for_hook; [done|]. cbn [bind_post]. apply wp_bind, wp_throw_if. cbn [bind_post].
    apply wp_bind, wp_gets. cbn [bind_post]. apply wp_bind, wp_execute. cbn [bind_post].
    match goal with |- context [(?q, ?p) :: _] => set (e := (q, p)) end.
    assert (Hphase : ∀ a'', at_id a'' = aid → at_atr_id a'' ≠ None → at_log a'' = e :: l ++ L →
      commit_phase (e :: l) a'').
    { intros a'' ???. split_and!; [done..|]. constructor; [|done]. left. unfold e, prefix, entry_prefix.
      rewrite <-Hid. by repeat eexists. }
    assert (Hw : commit_write e).
    { unfold commit_write, e, prefix, entry_prefix. rewrite <-Hid. by apply commit_request_writes. }
    apply wp_bind, wp_wrap_operation_future; intros res Hres; cbn [bind_post].
    - apply wp_bind, wp_wait_for_hook; [done|]. cbn [bind_post]. apply wp_bind, wp_throw_if. cbn [bind_post].
      apply wp_modify. right. exists e. split; [apply Hphase; cbn; by rewrite ?Hlog'|]. split; [done|].
      left. split; [done|]. by exists res.
    - right. exists e. split; [apply Hphase; cbn; by rewrite ?Hlog'|]. split; [done|]. right. by exists res. }
  apply wp_bind, wp_error_if_expired; intros Hov; cbn [bind_post]; apply wp_bind, wp_throw_if.
  - cbn [bind_post]. by apply Hrest.
  - case_match eqn:Hexp; simplify_eq; cbn [bind_post].
    + left. by destruct (_ || _); simplify_eq.
    + by apply Hrest.
Qed.

(** What the lookup of the ambiguity resolution may do: nothing it throws
    but the retry of an attempt that was aborted asks for a rollback. *)
Definition resolution_outcome (l : list (request * response)) (r : outcome exn unit) : Prop :=
  match r with
  | Ok _ => has_read (Some AttemptState.COMMITTED) l
  | Err retry_operation => True
  | Err (operation_failed_thrown f) => rollback_ f = true → has_read (Some AttemptState.ABORTED) l
  | Err runtime_error => has_read None l
  | Err _ => False
  | Fault | Diverge => True
  end.

Lemma has_read_intro id resp v rest l s :
  resp_fields resp = v :: rest → attempt_state_value <$> read_string v.1 = s →
  has_read s ((lookup_in id (atr_status_specs prefix) false, resp) :: l).
Proof.
  intros Hf Hs. eexists. split; [by left|]. split; [by eexists|]. exists v. cbn. by rewrite Hf.
Qed.

Lemma atr_read_status_wp l a' :
  commit_phase l a' →
  wp atr_read_status env
    (λ r a'', ∃ e, commit_phase (e :: l) a'' ∧ ¬ commit_write e ∧
       match r with Err (client_error_thrown _) => True | r => resolution_outcome (e :: l) r end) a'.
Proof.
  intros (Hid & Hatr & Hlog & Hl). unfold atr_read_status.
  apply wp_bind, wp_wait_for_hook; [done|]. cbn [bind_post]. apply wp_bind, wp_throw_if. cbn [bind_post].
  apply wp_bind, wp_gets. cbn [bind_post]. apply wp_bind, wp_atr_id_value; [|done].
  intros id Hsome. cbn [bind_post]. apply wp_bind, wp_execute. cbn [bind_post].
  change (atr_prefix (next_tick a')) with (entry_prefix (at_id a')). rewrite Hid.
  set (resp := reply _ _ _). clearbody resp. set (e := (lookup_in id _ _, resp)).
  match goal with |- wp _ _ ?Q ?x => set (a'' := x); set (post := Q) end.
  assert (Hp : commit_phase (e :: l) a'').
  { split_and!; [done..|cbn; by rewrite Hlog|]. constructor; [|done]. right. by exists id. }
  clearbody a''. assert (Hw : ¬ commit_write e) by by intros [].
  apply wp_bind, wp_wrap_operation_future; intros res Hres; cbn [bind_post]; [|by exists e].
  assert (Hvals : res_values res = map (λ f, SubdocResult f.1 f.2) (resp_fields resp)).
  { unfold validate_operation_result in Hres. repeat case_match; by simplify_eq. }
  rewrite Hvals. destruct (resp_fields resp) as [|v rest] eqn:Hf; cbn [map]; [by apply wp_fault; exists e|].
  assert (Hread : ∀ s, attempt_state_value <$> read_string v.1 = s → has_read s (e :: l)).
  { intros s Hs. by eapply has_read_intro. }
  cbn [sr_value]. destruct (read_string v.1) as [raw|] eqn:Hraw; cbn [fmap option_fmap option_map] in Hread.
  - destruct (attempt_state_value raw) eqn:Hst; first [apply wp_ret | apply wp_throw];
      exists e; split_and!; try done; try (intros _); by apply Hread.
  - apply wp_throw. exists e. split_and!; [done..|]. by apply Hread.
Qed.

Lemma resolution_wp l a :
  commit_phase l a →
  wp atr_commit_ambiguity_resolution env
    (λ r a', ∃ l', commit_phase (l' ++ l) a' ∧ (∀ e, e ∈ l' → ¬ commit_write e) ∧
       resolution_outcome (l' ++ l) r) a.
Proof.
  intros Hp. unfold atr_commit_ambiguity_resolution. apply wp_catch. unfold atr_commit_ambiguity_resolution_try.
  assert (Hrest : ∀ a', commit_phase l a' →
    wp atr_read_status env
    (catch_post (λ e, match e with client_error_thrown e => Some (resolution_handler e) | _ => None end) env
      (λ r a', ∃ l', commit_phase (l' ++ l) a' ∧ (∀ e, e ∈ l' → ¬ commit_write e) ∧
       resolution_outcome (l' ++ l) r)) a').
  { intros a' Hp'. eapply wp_mono; [by apply atr_read_status_wp|].
    assert (Hex : ∀ e (r : outcome exn unit) a'', commit_phase (e :: l) a'' → ¬ commit_write e → resolution_outcome (e :: l) r →
      ∃ l', commit_phase (l' ++ l) a'' ∧ (∀ e, e ∈ l' → ¬ commit_write e) ∧ resolution_outcome (l' ++ l) r).
    { intros e r a'' ???. exists [e]. split_and!; [done| |done]. by intros e' ->%list_elem_of_singleton. }
    intros r a'' (e & He & Hw & Hr).
    destruct r as [|[]| |]; cbn [catch_post]; try by eapply Hex.
    unfold resolution_handler. destruct (ce_ec _); apply wp_throw; by eapply Hex. }
  apply wp_bind, wp_error_if_expired; intros Hov; cbn [bind_post]; apply wp_bind, wp_throw_if.
  - cbn [bind_post]. by apply Hrest.
  - case_match eqn:Hexp; cbn [bind_post]; [|by apply Hrest].
    cbn [catch_post]. destruct (_ || _); simplify_eq. apply wp_throw. exists [].
    split_and!; [done|intros e He; by apply not_elem_of_nil in He|done].
Qed.

(** Between two tries *)
Definition retry_invariant (ambiguity_resolution_mode : bool) (a : attempt) : Prop :=
  ∃ l, commit_phase l a ∧ refused l ∧ (ambiguity_resolution_mode = false → no_ambiguity l).

Lemma refused_app l l' : refused l → (∀ e, e ∈ l' → ¬ commit_write e) → refused (l' ++ l).
Proof. intros Hl Hl' e [He|He]%elem_of_app Hw; [by destruct (Hl' e)|by apply Hl]. Qed.

Lemma no_ambiguity_app l l' : no_ambiguity l → (∀ e, e ∈ l' → ¬ commit_write e) → no_ambiguity (l' ++ l).
Proof. intros Hl Hl' e [He|He]%elem_of_app Hw; [by destruct (Hl' e)|by apply Hl]. Qed.

Lemma refused_cons l e err :
  refused l → validate_operation_result (create_from_subdoc_response e.2) false = Err err → refused (e :: l).
Proof. intros Hl He e' [->|He']%elem_of_cons Hw; [by eapply failed_not_accepted|by apply Hl]. Qed.

Lemma no_ambiguity_cons l e err :
  no_ambiguity l → validate_operation_result (create_from_subdoc_response e.2) false = Err err →
  ce_ec err ≠ FAIL_AMBIGUOUS → no_ambiguity (e :: l).
Proof.
  intros Hl He Hc e' [->|He']%elem_of_cons Hw; [|by apply Hl].
  intros (err' & He' & Hc'). congruence.
Qed.

(** A failure of the handler is an outcome of the commit. *)
Lemma failure_outcome {A} amb l f a :
  commit_phase l a → refused l → (amb = false → no_ambiguity l) →
  (amb = true → rollback_ f = false) →
  commit_post (A:=A) (Err (operation_failed_thrown f)) a.
Proof.
  intros Hp Hr Hn Hf. exists l. split; [done|]. split; [done|]. left. exists f. split; [done|].
  intros Hroll. destruct amb; [|by left; apply Hn]. by rewrite Hf in Hroll.
Qed.

Lemma resolution_loop_wp fuel l a :
  commit_phase l a → refused l →
  wp (retry_op fuel (λ _ : unit, catch_retry atr_commit_ambiguity_resolution) tt) env
    (λ r a', ∃ l', commit_phase (l' ++ l) a' ∧ (∀ e, e ∈ l' → ¬ commit_write e) ∧
       resolution_outcome (l' ++ l) r ∧ r ≠ Err retry_operation) a.
Proof.
  intros Hp Hr.
  apply (wp_retry_op env _ (λ _ a', ∃ l', commit_phase (l' ++ l) a' ∧ ∀ e, e ∈ l' → ¬ commit_write e)).
  - intros [] a1 (l1 & Hp1 & Hl1). apply wp_catch_retry. eapply wp_mono; [by apply resolution_wp|].
    intros r a2 (l2 & Hp2 & Hl2 & Hout). rewrite app_assoc in Hp2, Hout.
    assert (Hl : ∀ e, e ∈ l2 ++ l1 → ¬ commit_write e).
    { intros e [He|He]%elem_of_app; [by apply Hl2|by apply Hl1]. }
    destruct r as [[]|[]| |]; try done; exists (l2 ++ l1); by split_and!.
  - intros [] a1 (l1 & Hp1 & Hl1). exists l1. by split_and!.
  - exists []. split; [done|]. intros e He. by apply not_elem_of_nil in He.
Qed.

(** The handler after an error of the server *)
Lemma atr_commit_handler_wp fuel amb e l a err :
  commit_phase (e :: l) a → refused l → (amb = false → no_ambiguity l) →
  validate_operation_result (create_from_subdoc_response e.2) false = Err err →
  wp (atr_commit_handler fuel amb err) env (λ r a',
    match r with
    | Ok (inl x) => commit_post (Ok x) a'
    | Ok (inr amb') => retry_invariant amb' a'
    | Err ex => commit_post (A:=unit) (Err ex) a'
    | Fault => commit_post (A:=unit) Fault a'
    | Diverge => commit_post (A:=unit) Diverge a'
    end) a.
Proof.
  intros Hp Hr Hn Hv. destruct (validate_error_range _ _ _ Hv) as (H1 & H2 & H3).
  assert (Hr' : refused (e :: l)) by by eapply refused_cons.
  assert (Hn' : ce_ec err ≠ FAIL_AMBIGUOUS → amb = false → no_ambiguity (e :: l)).
  { intros ??. eapply no_ambiguity_cons; [by apply Hn|done..]. }
  assert (Hfail : ∀ f, ce_ec err ≠ FAIL_AMBIGUOUS → (amb = true → rollback_ f = false) →
    commit_post (A:=unit) (Err (operation_failed_thrown f)) a).
  { intros f ??. by eapply (failure_outcome amb (e :: l)); [..|apply Hn'|]. }
  unfold atr_commit_handler. destruct (ce_ec err) eqn:Hec; try done;
    try (apply wp_throw, Hfail; [done|]; by destruct amb).
  - destruct amb; [|by apply wp_throw, Hfail]. apply wp_ret. by exists (e :: l).
  - apply wp_ret. by exists (e :: l).
  - apply wp_bind. eapply wp_mono; [by apply (resolution_loop_wp fuel (e :: l))|].
    intros r a' (l' & Hp' & Hl' & Hout & Hne).
    assert (Href : refused (l' ++ e :: l)) by by apply refused_app.
    destruct r as [[]|ex| |]; cbn [bind_post].
    + apply wp_ret. exists (l' ++ e :: l). split; [done|]. by right.
    + exists (l' ++ e :: l). split; [done|]. split; [done|]. destruct ex; try done.
      * left. eexists. split; [done|]. intros Hroll. right. left. by apply Hout.
      * right. done.
    + by exists (l' ++ e :: l).
    + by exists (l' ++ e :: l).
Qed.

Lemma atr_commit_wp fuel a :
  commit_phase [] a → wp (atr_commit fuel false) env commit_post a.
Proof.
  intros Hp. unfold atr_commit.
  apply (wp_retry_op env _ retry_invariant).
  - intros amb a1 (l & Hp1 & Hr & Hn). apply wp_catch, wp_bind. eapply wp_mono; [by apply atr_commit_try_wp|].
    intros r a2 [[-> Hp2]|(e & Hp2 & Hw & [[-> Hacc]|(err & -> & Hv)])]; cbn [bind_post catch_post].
    + unfold atr_commit_handler. cbn [ce_ec client_error_of_class]. apply wp_bind, wp_modify. cbn [bind_post].
      apply wp_throw. eapply (failure_outcome amb l); [done|done|done|]. by intros ->.
    + apply wp_ret. cbn [catch_post]. exists (e :: l). split; [done|]. left. exists e. split; [by left|done].
    + by eapply atr_commit_handler_wp.
  - intros amb a1 (l & Hp1 & _). by exists l.
  - exists []. split; [done|]. split; [|intros _]; intros e He; by apply not_elem_of_nil in He.
Qed.
End commit_record.

(** ** The commit of an attempt, and what follows its failure *)

Section commit_attempt.
Context `{TransactionJsonLaws, Unstaging, !UnstagingLaws} (env : environment) (Hhooks : no_hooks env).
Context (aid : bytes) (L : list (request * response)).
Abbreviation prefix := (entry_prefix aid).

Definition abort_write (e : request * response) : Prop := writes_status prefix AttemptState.ABORTED e.
Definition no_abort (l : list (request * response)) : Prop := ∀ e, e ∈ l → ¬ abort_write e.

(** An error after the commit point: the user is told of a success. *)
Definition post_commit (ex : exn) : Prop :=
  ∃ f, ex = operation_failed_thrown f ∧ rollback_ f = false ∧ retry_ f = false ∧ to_raise_ f = FAILED_POST_COMMIT.

Definition commit_result (l : list (request * response)) (r : outcome exn unit) : Prop :=
  match r with
  | Err ex => post_commit ex ∨ ex = unknown_exception ∨ commit_outcome aid (A:=unit) l (Err ex)
  | _ => True
  end.

Lemma commit_entries_no_abort l : Forall (commit_entry aid) l → no_abort l.
Proof.
  intros Hl e He Hw. rewrite Forall_forall in Hl. destruct e as [q p].
  destruct (Hl _ He) as [(id & level & staged & Heq)|[id Heq]]; cbn in Heq; subst q; [|done].
  by apply commit_request_writes in Hw.
Qed.

(** Nothing was sent. *)
Lemma outcome_nil f : commit_outcome aid (A:=unit) [] (Err (operation_failed_thrown f)).
Proof.
  split; [intros e He; by apply not_elem_of_nil in He|]. left. exists f. split; [done|].
  intros _. left. intros e He. by apply not_elem_of_nil in He.
Qed.

Lemma atr_complete_ends a :
  at_atr_id a ≠ None → wp atr_complete env (λ r _, r = Ok tt) a.
Proof.
  intros Hatr. unfold atr_complete. apply wp_catch.
  assert (Hrest : ∀ a', at_atr_id a' ≠ None →
    wp (path ← gets atr_entry_path; id ← atr_id_value; level ← asks config_level;
        resp ← execute (mutate_in (atr_remove_request id path level));
        _ ← wrap_operation_future (create_from_subdoc_response resp) true;
        ec ← wait_for_hook after_atr_complete; _ ← throw_if ec; modify (set_state AttemptState.COMPLETED)) env
    (λ r _, match r with Ok tt => True | Err (client_error_thrown e) => ce_ec e ≠ FAIL_HARD | _ => False end) a').
  { intros a' Ha'. apply wp_bind, wp_gets. cbn [bind_post]. apply wp_bind, wp_atr_id_value; [|done].
    intros id _. cbn [bind_post]. apply wp_bind, wp_asks. cbn [bind_post]. apply wp_bind, wp_execute. cbn [bind_post].
    apply wp_bind, wp_wrap_operation_future; intros res Hres; cbn [bind_post].
    - apply wp_bind, wp_wait_for_hook; [done|]. cbn [bind_post]. by apply wp_bind, wp_throw_if.
    - by apply validate_error_range in Hres as (? & _). }
  assert (Hcatch : ∀ (r : outcome exn unit) a',
    match r with Ok tt => True | Err (client_error_thrown e) => ce_ec e ≠ FAIL_HARD | _ => False end →
    catch_post (λ e, match e with
      | client_error_thrown e => Some (match ce_ec e with
          | FAIL_HARD => throw_failed (failed_post_commit (no_rollback (operation_failed (ce_ec e))))
          | _ => mret tt end)
      | _ => None end) env (λ r _, r = Ok tt) r a').
  { intros [[]|[]| |] a' Hr; try done. cbn [catch_post]. by destruct (ce_ec e). }
  apply wp_bind, wp_wait_for_hook; [done|]. cbn [bind_post]. apply wp_bind, wp_throw_if. cbn [bind_post].
  apply wp_bind, wp_error_if_expired; intros Hov; cbn [bind_post]; apply wp_bind, wp_throw_if.
  - cbn [bind_post]. eapply wp_mono; [by apply Hrest|]. intros r a'. apply Hcatch.
  - destruct (_ || _); cbn [bind_post]; [by apply Hcatch|].
    eapply wp_mono; [by apply Hrest|]. intros r a'. apply Hcatch.
Qed.

(** The requests after the commit point neither abort nor commit the record. *)
Lemma unstage_no_status l (P : request * response → Prop) :
  Forall P l → (∀ e, P e → ¬ touches_status prefix e) → ∀ e s, e ∈ l → ¬ writes_status prefix s e.
Proof. intros Hl HP e s He Hs. rewrite Forall_forall in Hl. eapply HP; [by apply Hl|]. by exists s. Qed.

Lemma commit_staged_then_complete l a :
  commit_phase aid L l a →
  wp (_ ← commit_staged; _ ← atr_complete; modify set_done) env
    (λ r a', at_id a' = aid ∧ (∃ l', at_log a' = (l' ++ l) ++ L ∧ no_abort l') ∧
       match r with Err ex => post_commit ex | _ => True end) a.
Proof.
  intros (Hid & Hatr & Hlog & Hl). apply wp_bind.
  eapply wp_mono; [apply wp_conj; [by apply commit_staged_adds|by apply commit_staged_ends]|].
  intros r a1 [[Hid1 (l1 & Hlog1 & Hl1)] (Hst1 & Hatr1 & Hr1)].
  assert (Hfree : ∀ e s, e ∈ l1 → ¬ writes_status prefix s e).
  { eapply unstage_no_status; [done|]. intros e Hf [s Hs]. by eapply record_free_status. }
  assert (Hlog' : at_log a1 = (l1 ++ l) ++ L) by (rewrite Hlog1, Hlog; by rewrite app_assoc).
  assert (Hna : no_abort l1) by (intros e He; by apply Hfree).
  destruct r as [[]|ex| |]; cbn [bind_post]; [|by eauto 10..].
  - apply wp_bind. eapply wp_mono; [apply wp_conj; [by apply atr_complete_adds|apply atr_complete_ends; congruence]|].
    intros r a2 [[Hid2 (l2 & Hlog2 & Hl2)] ->]. cbn [bind_post]. apply wp_modify. split; [done|]. split; [|done].
    exists (l2 ++ l1). split; [cbn; by rewrite Hlog2, Hlog', !app_assoc|].
    intros e [He|He]%elem_of_app; [|by apply Hna].
    eapply unstage_no_status; [exact Hl2|done|done].
Qed.

Lemma commit_wp fuel a :
  at_id a = aid → at_log a = L →
  wp (commit fuel) env (λ r a', at_id a' = aid ∧
    ∃ l, at_log a' = l ++ L ∧ no_abort l ∧ commit_result l r) a.
Proof.
  intros Hid Hlog.
  assert (Hnil : ∀ (r : outcome exn unit) a', at_id a' = aid → at_log a' = L → commit_result [] r →
    at_id a' = aid ∧ ∃ l, at_log a' = l ++ L ∧ no_abort l ∧ commit_result l r).
  { intros r a' ???. split; [done|]. exists []. split_and!; [done| |done]. intros e He. by apply not_elem_of_nil in He. }
  unfold commit. apply wp_bind, wp_wait_and_block; intros _; cbn [bind_post];
    [|by apply Hnil].
  revert Hid Hlog. set (a0 := set_ops _ a). intros Hid Hlog.
  change (at_id a0 = aid) in Hid. change (at_log a0 = L) in Hlog. clearbody a0. clear a. rename a0 into a.
  assert (Hthrow : ∀ f a', at_id a' = aid → at_log a' = L →
    wp (throw_failed (A:=unit) f) env (λ r a', at_id a' = aid ∧
      ∃ l, at_log a' = l ++ L ∧ no_abort l ∧ commit_result l r) a').
  { intros f a' ??. apply wp_throw, Hnil; [done..|]. right. right. apply outcome_nil. }
  apply wp_bind. unfold existing_error at 1. apply wp_bind, wp_gets. cbn [bind_post].
  destruct (bool_decide _); [apply wp_ret; cbn [bind_post]|].
  2: { destruct (merge_errors _ _); cbn [bind_post];
         first [apply wp_throw|apply wp_fault]; cbn [bind_post]; apply Hnil; try done. right. right. apply outcome_nil. }
  apply wp_bind, wp_gets. cbn [bind_post]. destruct (at_is_query a).
  { unfold commit_with_query. apply wp_bind, wp_question. cbn [bind_post]. apply wp_bind, wp_modify. cbn [bind_post].
    destruct (query_reply _ _ _) as [[]|]; try by apply Hthrow.
    - apply wp_throw, Hnil; [done..|]. right. by left.
    - by apply wp_modify, Hnil. }
  apply wp_bind. unfold check_expiry_pre_commit. apply wp_bind, wp_question. cbn [bind_post].
  destruct (_ || _); [apply wp_bind, wp_modify, wp_ret; cbn [bind_post]; by apply Hthrow|].
  apply wp_ret. cbn [bind_post]. apply wp_bind, wp_gets. cbn [bind_post]. apply wp_bind, wp_gets. cbn [bind_post].
  destruct (has_atr _) eqn:Hatr; cbn [andb]; [|by destruct (negb _); [apply wp_modify, Hnil|apply Hthrow]].
  destruct (negb _); [|by apply Hthrow].
  assert (Hp : commit_phase aid L [] (next_tick a)).
  { split_and!; try done. unfold has_atr in Hatr. by destruct (at_atr_id _). }
  apply wp_bind. unfold retry_op_exp, DEFAULT_RETRY_OP_MAX_RETRIES. cbn [retry_loop]. apply wp_bind, wp_catch_retry.
  eapply wp_mono; [by apply atr_commit_wp|]. intros r a1 (l & Hp1 & Hout).
  assert (Hna : no_abort l) by (by apply commit_entries_no_abort, Hp1).
  destruct r as [[]|ex| |]; cbn [bind_post].
  - apply wp_ret. cbn [bind_post]. eapply wp_mono; [by apply commit_staged_then_complete|].
    intros r a2 (Hid2 & (l' & Hlog2 & Hna') & Hr). split; [done|]. exists (l' ++ l). split; [done|]. split.
    + intros e [He|He]%elem_of_app; [by apply Hna'|by apply Hna].
    + destruct r; try done. by left.
  - assert (Hne : ex ≠ retry_operation) by (destruct Hout as [_ [(f & -> & _)|[-> _]]]; done).
    destruct Hp1 as (Hid1 & _ & Hlog1 & _).
    assert (commit_result l (Err ex)) by (right; by right). destruct ex; try done; cbn [bind_post]; eauto 10.
  - destruct Hp1 as (Hid1 & _ & Hlog1 & _). eauto 10.
  - destruct Hp1 as (Hid1 & _ & Hlog1 & _). eauto 10.
Qed.
End commit_attempt.
