(* ===== verification/Unstaging.v ===== *)
(** * Unstaging of documents: [staged_mutation_queue::commit] and [::rollback]
      of [core/transactions/staged_mutation.cxx]

    The loop over the queue starts one task per mutation, at most
    [MAX_PARALLELISM] of which are in flight; the tasks run on the event loop
    and are interleaved in any order.  A task is what is pending for a
    mutation: a posted function, an answer, or the timer of a retry.  Each
    move of the loop or of a task is a step; a schedule chooses among them.
    The definitions below are the functions between these points.  Timers are
    never cancelled by the program. *)

From S2P Require Import Prelude ByteOrder Protocol McbpParser ClientRequest ClientResponse Commands Transactions Attempt AttemptProofs.

(** ** Delays: [async_constant_delay], [async_exp_delay]

    A delay counts its retries.  The function that is called after the delay
    captures a copy of the delay, made before the call counts; the retry goes
    on with that copy.  [None]: the retries are exhausted. *)
Definition async_constant_delay_call (retries : Z) : option Z :=
  if decide (Z.of_nat DEFAULT_RETRY_OP_MAX_RETRIES ≤ retries) then None else Some (retries + 1).
(** The exponential one counts twice. *)
Definition async_exp_delay_call (retries : Z) : option Z :=
  if decide (Z.of_nat DEFAULT_RETRY_OP_MAX_RETRIES ≤ retries) then None else Some (retries + 1 + 1).

(** What goes from one try to the next: the delay, and the two modes of
    [commit_doc], which the others do not use. *)
Record modes := Modes {
  delay_retries : Z;
  ambiguity_resolution_mode : bool;
  cas_zero_mode : bool;
}.

(** How a function of a task ends: with a request (whose response is turned
    into a result by [create_from_subdoc_response] if [subdoc]), with the
    callback, or with a timer for a retry. *)
Inductive progress :=
  | sends (r : request) (subdoc : bool) (m : modes)
  | finishes (e : option exn)
  | retries_with (m : modes).

(** [delay([..., delay, ...] { retry })]: the retry has the copy. *)
Definition delay_then_retry (call : Z → option Z) (m : modes) : progress :=
  match call (delay_retries m) with
  | None => finishes (Some retry_operation_retries_exhausted)
  | Some _ => retries_with m
  end.

Definition finishes_failed (f : operation_failure) : progress := finishes (Some (operation_failed_thrown f)).

(** ** [commit_doc] *)

Definition handle_commit_doc_error (e : client_error) (m : modes) : txn progress :=
  let ec := ce_ec e in
  overtime ← gets at_overtime;
  if (overtime : bool) then mret (finishes_failed (failed_post_commit (no_rollback (operation_failed FAIL_EXPIRY))))
  else
    let failed := finishes_failed (failed_post_commit (no_rollback (operation_failed ec))) in
    let retry_in amb cz := delay_then_retry async_constant_delay_call (Modes (delay_retries m) amb cz) in
    mret (match ec with
          | FAIL_AMBIGUOUS => retry_in true (cas_zero_mode m)
          | FAIL_CAS_MISMATCH =>
              if ambiguity_resolution_mode m then failed
              else retry_in (ambiguity_resolution_mode m) true
          | FAIL_DOC_ALREADY_EXISTS =>
              if ambiguity_resolution_mode m then failed else retry_in true true
          | _ => failed
          end).

(** The commands that move the staged content into the document *)
Definition replace_body_specs (item : staged_mutation) : list subdoc_command :=
  [SubdocCommand (enum_code SubdocOpcode.replace_body_with_xattr)
     (if is_staged_binary item then STAGED_BINARY_DATA else STAGED_DATA) []
     (build_mutate_in_path_flags true false false (is_staged_binary item));
   SubdocCommand (enum_code SubdocOpcode.remove) TRANSACTION_INTERFACE_PREFIX_ONLY []
     (build_mutate_in_path_flags true false false false)].

(** The four requests of [commit_doc], and whether the result is made of the
    fields of the response *)
Definition commit_doc_request (item : staged_mutation) (level : Z) (cas_zero : bool) : request * bool :=
  let id := sm_id item in
  if bool_decide (sm_type item = INSERT) && negb cas_zero then
    match sm_staged_content item with
    | Some content => (insert id content (sm_staged_flags item) level, false)
    | None =>
        (mutate_in (wrap_durable_request level (with_flags (sm_staged_flags item)
          (with_revive_document (with_access_deleted (with_cas (sm_cas item)
            (with_specs (replace_body_specs item) (new_mutate_in id))))))), false)
    end
  else
    match sm_staged_content item with
    | Some content =>
        (mutate_in (wrap_durable_request level (with_flags (sm_staged_flags item)
          (with_cas (if cas_zero then 0 else sm_cas item) (with_store_semantics store_replace
            (with_specs [subdoc_remove TRANSACTION_INTERFACE_PREFIX_ONLY true; subdoc_replace [] content false false false]
              (new_mutate_in id)))))), true)
    | None =>
        let req := with_specs (replace_body_specs item) (new_mutate_in id) in
        let req := if cas_zero then req else with_cas (sm_cas item) req in
        (mutate_in (wrap_durable_request level (with_flags (sm_staged_flags item) req)), false)
    end.

(** The function that [commit_doc] posts *)
Definition commit_doc (item : staged_mutation) (m : modes) : txn progress :=
  _ ← check_expiry_during_commit_or_rollback STAGE_COMMIT_DOC;
  ec ← wait_for_hook before_doc_committed;
  match ec with
  | Some ec => handle_commit_doc_error (client_error_of_class ec) m
  | None =>
      level ← asks config_level;
      let '(req, subdoc) := commit_doc_request item level (cas_zero_mode m) in
      mret (sends req subdoc m)
  end.

(** [item.cas(...)] on the mutation in the queue *)
Definition save_cas (i : nat) (cas : Z) (a : attempt) : attempt :=
  set_staged (alter (set_cas cas) i (at_staged a)) a.

(** [validate_commit_doc_result] and the handler behind it *)
Definition validate_commit_doc_result (i : nat) (res : result) (m : modes) : txn progress :=
  match validate_operation_result res true with
  | Err e => handle_commit_doc_error e m
  | Ok res =>
      ec ← wait_for_hook after_doc_committed_before_saving_cas;
      match ec with
      | Some ec => handle_commit_doc_error (client_error_of_class ec) m
      | None =>
          _ ← modify (save_cas i (res_cas res));
          ec ← wait_for_hook after_doc_committed;
          match ec with
          | Some ec => handle_commit_doc_error (client_error_of_class ec) m
          | None => mret (finishes None)
          end
      end
  | Fault => fault
  | Diverge => diverge
  end.

(** ** [remove_doc] *)

Definition handle_remove_doc_error (e : client_error) (m : modes) : txn progress :=
  let ec := ce_ec e in
  let failed := finishes_failed (failed_post_commit (no_rollback (operation_failed ec))) in
  overtime ← gets at_overtime;
  if (overtime : bool) then mret failed
  else mret (match ec with
             | FAIL_AMBIGUOUS => delay_then_retry async_constant_delay_call m
             | _ => failed
             end).

Definition remove_doc (item : staged_mutation) (m : modes) : txn progress :=
  _ ← check_expiry_during_commit_or_rollback STAGE_REMOVE_DOC;
  ec ← wait_for_hook before_doc_removed;
  match ec with
  | Some ec => handle_remove_doc_error (client_error_of_class ec) m
  | None => level ← asks config_level; mret (sends (remove (sm_id item) 0 level) false m)
  end.

(** The validation of the other results: a hook, then the handler *)
Definition validate_result (h : hook) (handle : client_error → modes → txn progress) (res : result) (m : modes) :
    txn progress :=
  match validate_operation_result res true with
  | Err e => handle e m
  | Ok _ =>
      ec ← wait_for_hook h;
      match ec with
      | Some ec => handle (client_error_of_class ec) m
      | None => mret (finishes None)
      end
  | Fault => fault
  | Diverge => diverge
  end.

Definition validate_remove_doc_result := validate_result after_doc_removed_pre_retry handle_remove_doc_error.

(** ** [rollback_insert] *)

Definition handle_rollback_insert_error (e : client_error) (m : modes) : txn progress :=
  overtime ← gets at_overtime;
  if (overtime : bool) then mret (finishes_failed (expired (no_rollback (operation_failed FAIL_EXPIRY))))
  else
    match ce_ec e with
    | FAIL_HARD | FAIL_CAS_MISMATCH => mret (finishes_failed (no_rollback (operation_failed (ce_ec e))))
    | FAIL_EXPIRY => _ ← modify set_overtime; mret (delay_then_retry async_exp_delay_call m)
    | FAIL_DOC_NOT_FOUND | FAIL_PATH_NOT_FOUND => mret (finishes None)
    | _ => mret (delay_then_retry async_exp_delay_call m)
    end.

Definition rollback_specs : list subdoc_command := [subdoc_remove TRANSACTION_INTERFACE_PREFIX_ONLY true].

Definition rollback_insert (item : staged_mutation) (m : modes) : txn progress :=
  ec ← error_if_expired_and_not_in_overtime STAGE_DELETE_INSERTED;
  match ec with
  | Some ec => handle_rollback_insert_error (client_error_of_class ec) m
  | None =>
      ec ← wait_for_hook before_rollback_delete_inserted;
      match ec with
      | Some ec => handle_rollback_insert_error (client_error_of_class ec) m
      | None =>
          level ← asks config_level;
          mret (sends (mutate_in (wrap_durable_request level (with_cas (sm_cas item)
            (with_access_deleted (with_specs rollback_specs (new_mutate_in (sm_id item))))))) true m)
      end
  end.

Definition validate_rollback_insert_result := validate_result after_rollback_delete_inserted handle_rollback_insert_error.

(** ** [rollback_remove_or_replace] *)

Definition handle_rollback_remove_or_replace_error (e : client_error) (m : modes) : txn progress :=
  overtime ← gets at_overtime;
  if (overtime : bool) then mret (finishes_failed (no_rollback (operation_failed FAIL_EXPIRY)))
  else
    match ce_ec e with
    | FAIL_HARD | FAIL_DOC_NOT_FOUND | FAIL_CAS_MISMATCH =>
        mret (finishes_failed (no_rollback (operation_failed (ce_ec e))))
    | FAIL_EXPIRY => _ ← modify set_overtime; mret (delay_then_retry async_exp_delay_call m)
    | FAIL_PATH_NOT_FOUND => mret (finishes None)
    | _ => mret (delay_then_retry async_exp_delay_call m)
    end.

Definition rollback_remove_or_replace (item : staged_mutation) (m : modes) : txn progress :=
  ec ← error_if_expired_and_not_in_overtime STAGE_ROLLBACK_DOC;
  match ec with
  | Some ec => handle_rollback_remove_or_replace_error (client_error_of_class ec) m
  | None =>
      ec ← wait_for_hook before_doc_rolled_back;
      match ec with
      | Some ec => handle_rollback_remove_or_replace_error (client_error_of_class ec) m
      | None =>
          level ← asks config_level;
          mret (sends (mutate_in (wrap_durable_request level (with_flags (sm_current_user_flags item)
            (with_cas (sm_cas item) (with_specs rollback_specs (new_mutate_in (sm_id item))))))) true m)
      end
  end.

Definition validate_rollback_remove_or_replace_result :=
  validate_result after_rollback_replace_or_remove handle_rollback_remove_or_replace_error.

(** ** The tasks *)

(** [commit] or [rollback] *)
Inductive direction := committing | rolling_back.

(** The [switch] of the loops *)
Definition start_item (d : direction) (item : staged_mutation) (m : modes) : txn progress :=
  match d, sm_type item with
  | committing, REMOVE => remove_doc item m
  | committing, _ => commit_doc item m
  | rolling_back, INSERT => rollback_insert item m
  | rolling_back, _ => rollback_remove_or_replace item m
  end.

Definition answer_item (d : direction) (i : nat) (item : staged_mutation) (res : result) (m : modes) : txn progress :=
  match d, sm_type item with
  | committing, REMOVE => validate_remove_doc_result res m
  | committing, _ => validate_commit_doc_result i res m
  | rolling_back, INSERT => validate_rollback_insert_result res m
  | rolling_back, _ => validate_rollback_remove_or_replace_result res m
  end.

Inductive task :=
  | posted (m : modes)
  | awaiting (res : result) (m : modes)
  | delayed (m : modes)
  | finished (e : option exn).

(** A request is sent: its response will arrive. *)
Definition task_after (p : progress) : txn task :=
  match p with
  | sends req subdoc m =>
      resp ← execute req;
      mret (awaiting (if subdoc then create_from_subdoc_response resp else create_from_mutation_response resp) m)
  | finishes e => mret (finished e)
  | retries_with m => mret (delayed m)
  end.

Definition is_finished (t : task) : bool := match t with finished _ => true | _ => false end.

(** A task moves: its function runs, its answer arrives, or its timer fires
    and the function is posted again. *)
Definition task_step (d : direction) (i : nat) (item : staged_mutation) (t : task) : txn task :=
  match t with
  | posted m => p ← start_item d item m; task_after p
  | awaiting res m => p ← answer_item d i item res m; task_after p
  | delayed m => mret (posted m)
  | finished e => mret (finished e)
  end.

(** ** The loop: [unstaging_state] *)

Definition MAX_PARALLELISM : Z := 1000.

(** The tasks started so far, in the order of the queue; [joining]: the loop
    has ended, [true] if it was aborted, and the futures are waited for. *)
Record unstaging := MkUnstaging {
  un_tasks : list task;
  in_flight_count_ : Z;
  abort_ : bool;
  un_joining : option bool;
}.

Definition initial_modes : modes := Modes 0 false false.

(** [wait_until_unstage_possible], when its condition holds *)
Definition unstage_possible (u : unstaging) : bool := (in_flight_count_ u <? MAX_PARALLELISM) || abort_ u.

(** The loop goes on: it ends, breaks, or starts the next task. *)
Definition main_step (n : nat) (u : unstaging) : unstaging :=
  if decide (length (un_tasks u) = n) then MkUnstaging (un_tasks u) (in_flight_count_ u) (abort_ u) (Some false)
  else if abort_ u then MkUnstaging (un_tasks u) (in_flight_count_ u) (abort_ u) (Some true)
  else MkUnstaging (un_tasks u ++ [posted initial_modes]) (in_flight_count_ u + 1) (abort_ u) None.

(** The wait times out. *)
Definition main_timeout (u : unstaging) : unstaging :=
  MkUnstaging (un_tasks u) (in_flight_count_ u) true (Some true).

(** [notify_unstage_complete], [notify_unstage_error] when a task finishes *)
Definition notify (t : task) (u : unstaging) : unstaging :=
  match t with
  | finished None => MkUnstaging (un_tasks u) (in_flight_count_ u - 1) (abort_ u) (un_joining u)
  | finished (Some _) => MkUnstaging (un_tasks u) (in_flight_count_ u - 1) true (un_joining u)
  | _ => u
  end.

Definition set_task (i : nat) (t : task) (u : unstaging) : unstaging :=
  MkUnstaging (<[i := t]> (un_tasks u)) (in_flight_count_ u) (abort_ u) (un_joining u).

Inductive move := main_moves | main_times_out | task_moves (i : nat).

Definition enabled (n : nat) (u : unstaging) (mv : move) : bool :=
  match mv with
  | main_moves => negb (has (un_joining u)) && ((length (un_tasks u) =? n)%nat || unstage_possible u)
  | main_times_out => negb (has (un_joining u)) && negb (length (un_tasks u) =? n)%nat && negb (unstage_possible u)
  | task_moves i => match un_tasks u !! i with Some t => negb (is_finished t) | None => false end
  end.

Definition unstage_step (d : direction) (n : nat) (mv : move) (u : unstaging) : txn unstaging :=
  match mv with
  | main_moves => mret (main_step n u)
  | main_times_out => mret (main_timeout u)
  | task_moves i =>
      staged ← gets at_staged;
      match un_tasks u !! i, (staged : staged_mutation_queue) !! i with
      | Some t, Some item => t' ← task_step d i item t; mret (notify t' (set_task i t' u))
      | _, _ => fault
      end
  end.

(** The move of the schedule if it is enabled, and else one that is. *)
Definition next_move (n : nat) (u : unstaging) (mv : move) : move :=
  if enabled n u mv then mv
  else if enabled n u main_moves then main_moves
  else match list_find (λ t, is_finished t = false) (un_tasks u) with
       | Some (i, _) => task_moves i
       | None => main_times_out
       end.

Definition all_finished (u : unstaging) : bool := forallb is_finished (un_tasks u).

Definition is_failed (t : task) : bool := match t with finished (Some _) => true | _ => false end.

Definition first_error (ts : list task) : option exn :=
  match list_find (λ t, is_failed t = true) ts with
  | Some (_, finished e) => e
  | _ => None
  end.

(** The end of [commit] and [rollback]: the first exception of the futures,
    the abort, or success. *)
Definition unstage_result (d : direction) (u : unstaging) (aborted : bool) : txn unit :=
  match first_error (un_tasks u) with
  | Some e => throw e
  | None =>
      if aborted then
        throw_failed (match d with
                      | committing => failed_post_commit (no_rollback (operation_failed FAIL_OTHER))
                      | rolling_back => no_rollback (operation_failed FAIL_OTHER)
                      end)
      else mret tt
  end.

Fixpoint unstage_loop (fuel : nat) (d : direction) (n : nat) (schedule : nat → move) (k : nat) (u : unstaging) :
    txn unit :=
  match un_joining u with
  | Some aborted =>
      if all_finished u then unstage_result d u aborted
      else
        match fuel with
        | O => diverge
        | S fuel => u ← unstage_step d n (next_move n u (schedule k)) u; unstage_loop fuel d n schedule (S k) u
        end
  | None =>
      match fuel with
      | O => diverge
      | S fuel => u ← unstage_step d n (next_move n u (schedule k)) u; unstage_loop fuel d n schedule (S k) u
      end
  end.

Definition unstage (fuel : nat) (d : direction) (schedule : nat → move) : txn unit :=
  staged ← gets at_staged;
  unstage_loop fuel d (length (staged : staged_mutation_queue)) schedule 0 (MkUnstaging [] 0 false None).
(** The interface of attempts, for any schedules *)
Definition unstaging_of (fuel : nat) (commits rolls : nat → move) : Unstaging := {|
  commit_staged := unstage fuel committing commits;
  rollback_staged := unstage fuel rolling_back rolls;
|}.
