(* ===== verification/UnstagingProofs.v ===== *)
(** * Unstaging of documents: theorems

    The tasks keep the laws of [UnstagingLaws] under every schedule, the loop
    respects its bound, a commit that returns has had every write accepted and
    forces no document without a conflict, and unstaging ends once the
    transaction has expired. *)

From S2P Require Import Prelude ByteOrder Protocol McbpParser ClientRequest ClientResponse Commands Transactions Attempt AttemptProofs Unstaging.

(** ** What a move of a task keeps *)

Section laws.
Context (env : environment).

(** The members that unstaging does not touch *)
Record frame (a a' : attempt) : Prop := {
  frame_id : at_id a' = at_id a;
  frame_state : at_state a' = at_state a;
  frame_atr : at_atr_id a' = at_atr_id a;
  frame_ids : map sm_id (at_staged a') = map sm_id (at_staged a);
  frame_types : map sm_type (at_staged a') = map sm_type (at_staged a);
  frame_overtime : at_overtime a = true → at_overtime a' = true;
  frame_tick : (at_tick a ≤ at_tick a')%nat;
  frame_log : ∃ l, at_log a' = l ++ at_log a ∧ Forall record_free l;
}.

Lemma same_log a a' : at_log a' = at_log a → ∃ l, at_log a' = l ++ at_log a ∧ Forall record_free l.
Proof. intros ->. exists []. by split. Qed.

Global Instance frame_preorder : PreOrder frame.
Proof.
  split; [intros a; split; try done; by apply same_log|].
  intros a b c [] []. split; try congruence; [auto|lia|]. by eapply adds_compose.
Qed.

(** The errors of a direction *)
Definition lawful (d : direction) (e : exn) : Prop :=
  ∃ f, e = operation_failed_thrown f ∧ rollback_ f = false ∧
    match d with committing => retry_ f = false ∧ to_raise_ f = FAILED_POST_COMMIT | rolling_back => True end.

Definition lawful_progress (d : direction) (p : progress) : Prop :=
  match p with
  | sends req _ m => delay_retries m = 0 ∧ ∀ resp, record_free (req, resp)
  | retries_with m => delay_retries m = 0
  | finishes (Some e) => lawful d e
  | finishes None => True
  end.

(** The function ends normally, sends nothing itself, keeps the frame and
    progresses lawfully. *)
Definition moves (d : direction) (m : txn progress) : Prop :=
  ∀ a, wp m env (λ r a', (frame a a' ∧ at_log a' = at_log a) ∧ ∃ p, r = Ok p ∧ lawful_progress d p) a.

Lemma moves_ret d p : lawful_progress d p → moves d (mret p).
Proof. intros Hp a. apply wp_ret. split; [done|]. by exists p. Qed.

Lemma moves_after d m a a' :
  frame a a' → at_log a' = at_log a → moves d m →
  wp m env (λ r a'', (frame a a'' ∧ at_log a'' = at_log a) ∧ ∃ p, r = Ok p ∧ lawful_progress d p) a'.
Proof.
  intros Hf Hl Hm. eapply wp_mono; [apply Hm|]. intros r a'' [[Hfr Hlog] Hr].
  split; [|done]. split; [by etrans|congruence].
Qed.

Lemma moves_modify d f m :
  (∀ a, frame a (f a) ∧ at_log (f a) = at_log a) → moves d m → moves d (_ ← modify f; m).
Proof. intros Hf Hm a. apply wp_bind, wp_modify. cbn [bind_post]. by apply moves_after; [apply Hf..|]. Qed.

Lemma moves_gets {A} d (f : attempt → A) g : (∀ x, moves d (g x)) → moves d (x ← gets f; g x).
Proof. intros Hg a. apply wp_bind, wp_gets. apply Hg. Qed.
Lemma moves_asks {A} d (f : environment → A) g : (∀ x, moves d (g x)) → moves d (x ← asks f; g x).
Proof. intros Hg a. apply wp_bind, wp_asks. apply Hg. Qed.

Lemma frame_next_tick a : frame a (next_tick a).
Proof. split; try done; [cbn; lia|by apply same_log]. Qed.
Lemma frame_set_overtime a : frame a (set_overtime a) ∧ at_log (set_overtime a) = at_log a.
Proof. split; [|done]. split; try done. by apply same_log. Qed.

Lemma moves_hook d h g : (∀ x, moves d (g x)) → moves d (x ← wait_for_hook h; g x).
Proof.
  intros Hg a. apply wp_bind, wp_question. cbn [bind_post].
  by apply moves_after; [apply frame_next_tick|..].
Qed.

Lemma moves_check_during d s m : moves d m → moves d (_ ← check_expiry_during_commit_or_rollback s; m).
Proof.
  intros Hm a. apply wp_bind, wp_check_expiry_during; intros Hov; cbn [bind_post]; [apply Hm|].
  apply moves_after; [|by case_match|done]. case_match; [|apply frame_next_tick].
  etrans; [apply frame_next_tick|apply frame_set_overtime].
Qed.

Lemma moves_if_expired d s g : (∀ x, moves d (g x)) → moves d (x ← error_if_expired_and_not_in_overtime s; g x).
Proof.
  intros Hg a. apply wp_bind, wp_error_if_expired; intros Hov; cbn [bind_post]; [apply Hg|].
  by apply moves_after; [apply frame_next_tick|..].
Qed.

Lemma alter_map {A} (f : staged_mutation → A) g i (l : list staged_mutation) :
  (∀ x, f (g x) = f x) → map f (alter g i l) = map f l.
Proof. intros Hg. revert i. induction l as [|x l IH]; intros [|i]; cbn; rewrite ?Hg, ?IH; done. Qed.

Lemma frame_save_cas i cas a : frame a (save_cas i cas a) ∧ at_log (save_cas i cas a) = at_log a.
Proof. split; [|done]. split; try done; [cbn; by rewrite alter_map..|by apply same_log]. Qed.

Lemma lawful_commit f : lawful committing (operation_failed_thrown (failed_post_commit (no_rollback (operation_failed f)))).
Proof. eexists. split; [done|]. by split. Qed.
Lemma lawful_roll f : lawful rolling_back (operation_failed_thrown (no_rollback (operation_failed f))).
Proof. eexists. split; [done|]. by split. Qed.
Lemma lawful_roll_expired f : lawful rolling_back (operation_failed_thrown (expired (no_rollback (operation_failed f)))).
Proof. eexists. split; [done|]. by split. Qed.

Lemma delay_lawful d call m :
  delay_retries m = 0 → call 0 ≠ None → lawful_progress d (delay_then_retry call m).
Proof. intros Hm Hc. unfold delay_then_retry. rewrite Hm. by destruct (call 0). Qed.
End laws.

(** ** The requests *)

Lemma rollback_specs_free c s : c ∈ rollback_specs → sc_path c ≠ ATR_FIELD_ATTEMPTS ++ s.
Proof. intros ->%list_elem_of_singleton. by vm_compute. Qed.

Lemma commit_request_free item level cz resp : record_free ((commit_doc_request item level cz).1, resp).
Proof.
  unfold commit_doc_request, record_free. cbn [fst].
  assert (Hb : ∀ c s, c ∈ replace_body_specs item → sc_path c ≠ ATR_FIELD_ATTEMPTS ++ s).
  { intros c s. unfold replace_body_specs. rewrite !elem_of_cons.
    intros [->|[->|Hc]]; [destruct (is_staged_binary item)| |by apply not_elem_of_nil in Hc]; by vm_compute. }
  destruct (_ && _); destruct (sm_staged_content item) as [content|]; cbn; try done.
  - intros c s. rewrite !elem_of_cons. intros [->|[->|Hc]]; [| |by apply not_elem_of_nil in Hc]; by vm_compute.
  - destruct cz; cbn; apply Hb.
Qed.

Create HintDb moves discriminated.
#[export] Hint Resolve lawful_commit lawful_roll lawful_roll_expired delay_lawful frame_save_cas frame_set_overtime : moves.

Ltac moves_walk :=
  repeat (match goal with
  | |- moves _ _ (mret _) => apply moves_ret
  | |- moves _ _ (mbind _ (gets _)) => apply moves_gets; intros ?
  | |- moves _ _ (mbind _ (asks _)) => apply moves_asks; intros ?
  | |- moves _ _ (mbind _ (wait_for_hook _)) => apply moves_hook; intros ?
  | |- moves _ _ (mbind _ (modify _)) => apply moves_modify; [intros ?; auto with moves|]
  | |- moves _ _ (mbind _ (check_expiry_during_commit_or_rollback _)) => apply moves_check_during
  | |- moves _ _ (mbind _ (error_if_expired_and_not_in_overtime _)) => apply moves_if_expired; intros ?
  | |- moves _ _ (match commit_doc_request ?i ?l ?c with _ => _ end) =>
      let Hf := fresh in pose proof (commit_request_free i l c) as Hf; destruct (commit_doc_request i l c)
  | |- moves _ _ (match ?x with _ => _ end) => destruct x
  | |- moves _ _ (if ?x then _ else _) => destruct x
  | |- lawful_progress _ (match ?x with _ => _ end) => destruct x
  | |- lawful_progress _ (finishes None) => exact I
  | |- lawful_progress _ (finishes_failed _) => unfold finishes_failed; cbn [lawful_progress]
  | |- lawful_progress _ (delay_then_retry _ _) => apply delay_lawful; [done|by vm_compute]
  | |- lawful_progress _ (sends _ _ _) => split; [done|]
  | |- ∀ resp, record_free _ => first [done | intros ? ? ?; by apply rollback_specs_free]
  end || solve [auto with moves nocore]).

Section tasks.
Context (env : environment).

Lemma handle_commit_doc_error_moves e m : delay_retries m = 0 → moves env committing (handle_commit_doc_error e m).
Proof. intros Hm. unfold handle_commit_doc_error. moves_walk. Qed.
Lemma handle_remove_doc_error_moves e m : delay_retries m = 0 → moves env committing (handle_remove_doc_error e m).
Proof. intros Hm. unfold handle_remove_doc_error. moves_walk. Qed.
Lemma handle_rollback_insert_error_moves e m :
  delay_retries m = 0 → moves env rolling_back (handle_rollback_insert_error e m).
Proof. intros Hm. unfold handle_rollback_insert_error. moves_walk. Qed.
Lemma handle_rollback_remove_or_replace_error_moves e m :
  delay_retries m = 0 → moves env rolling_back (handle_rollback_remove_or_replace_error e m).
Proof. intros Hm. unfold handle_rollback_remove_or_replace_error. moves_walk. Qed.

Hint Resolve handle_commit_doc_error_moves handle_remove_doc_error_moves
  handle_rollback_insert_error_moves handle_rollback_remove_or_replace_error_moves : moves.

Lemma validate_result_moves d h handle res m :
  (∀ e, moves env d (handle e m)) → moves env d (validate_result h handle res m).
Proof.
  intros Hh. unfold validate_result. destruct (validate_total res true) as [[? ->]|[? ->]]; [|apply Hh].
  moves_walk; apply Hh.
Qed.

Lemma start_item_moves d item m : delay_retries m = 0 → moves env d (start_item d item m).
Proof.
  intros Hm. unfold start_item, remove_doc, commit_doc, rollback_insert, rollback_remove_or_replace.
  destruct d, (sm_type item); moves_walk.
Qed.

Lemma answer_item_moves d i item res m : delay_retries m = 0 → moves env d (answer_item d i item res m).
Proof.
  intros Hm.
  assert (Hc : moves env committing (validate_commit_doc_result i res m)).
  { unfold validate_commit_doc_result. destruct (validate_total res true) as [[? ->]|[? ->]]; moves_walk. }
  unfold answer_item. destruct d, (sm_type item); try done; apply validate_result_moves; auto with moves.
Qed.

(** ** The invariant of the loop *)

Definition lawful_task (d : direction) (t : task) : Prop :=
  match t with
  | posted m | awaiting _ m | delayed m => delay_retries m = 0
  | finished (Some e) => lawful d e
  | finished None => True
  end.

Lemma task_step_wp d i item t a :
  lawful_task d t →
  wp (task_step d i item t) env (λ r a', frame a a' ∧ ∃ t', r = Ok t' ∧ lawful_task d t') a.
Proof.
  assert (Hafter : ∀ m, moves env d m →
    wp (p ← m; task_after p) env (λ r a', frame a a' ∧ ∃ t', r = Ok t' ∧ lawful_task d t') a).
  { intros m Hm. apply wp_bind. eapply wp_mono; [apply Hm|]. intros r a' [[Hf _] (p & -> & Hp)]. cbn [bind_post].
    unfold task_after. destruct p as [req b m'|e|m'].
    - destruct Hp as [Hp Hreq]. apply wp_bind, wp_execute. cbn [bind_post]. apply wp_ret. split; [|by eexists].
      etrans; [exact Hf|]. split; try done; [cbn; lia|]. eexists [_]. split; [done|]. by repeat constructor.
    - apply wp_ret. split; [done|]. by eexists.
    - apply wp_ret. split; [done|]. by eexists. }
  intros Ht. destruct t as [m|res m|m|e]; cbn [task_step].
  - by apply Hafter, start_item_moves.
  - by apply Hafter, answer_item_moves.
  - apply wp_ret. split; [done|]. by eexists.
  - apply wp_ret. split; [done|]. by eexists.
Qed.

(** The tasks not finished are in flight, within the bound. *)
Definition unfinished (ts : list task) : list task := filter (λ t, is_finished t = false) ts.

Record loop_ok (d : direction) (n : nat) (u : unstaging) : Prop := {
  loop_lawful : Forall (lawful_task d) (un_tasks u);
  loop_started : (length (un_tasks u) ≤ n)%nat;
  loop_in_flight : in_flight_count_ u = zsize (unfinished (un_tasks u));
  loop_bound : in_flight_count_ u ≤ MAX_PARALLELISM;
  loop_joined : un_joining u = Some false → length (un_tasks u) = n;
}.

Lemma unfinished_insert i t t' ts :
  ts !! i = Some t → is_finished t = false →
  zsize (unfinished (<[i := t']> ts)) = zsize (unfinished ts) - (if is_finished t' then 1 else 0).
Proof.
  intros Hi Ht. rewrite <-(take_drop_middle ts i t Hi) at 2. rewrite insert_take_drop by by eapply lookup_lt_Some.
  unfold unfinished. rewrite !filter_app, !filter_cons. rewrite (decide_True (P := is_finished t = false)) by done.
  destruct (is_finished t') eqn:Ht'; [rewrite decide_False by done|rewrite decide_True by done];
    rewrite !zsize_app, ?zsize_cons; lia.
Qed.

Lemma unfinished_pos i t ts : ts !! i = Some t → is_finished t = false → 0 < zsize (unfinished ts).
Proof.
  intros Hi Ht. assert (Hin : t ∈ unfinished ts).
  { apply list_elem_of_filter. split; [done|]. by eapply list_elem_of_lookup_2. }
  destruct (unfinished ts); [by apply not_elem_of_nil in Hin|]. rewrite zsize_cons. pose proof (zsize_nonneg l). lia.
Qed.

Lemma main_step_ok d n u : loop_ok d n u → enabled n u main_moves = true → loop_ok d n (main_step n u).
Proof.
  intros [H1 H2 H3 H4 H5] [Hj Hen]%andb_true_iff. unfold main_step.
  case_decide; [by split|]. destruct (abort_ u) eqn:Ha; [by split|].
  unfold unstage_possible in Hen. rewrite Ha in Hen.
  split; cbn [un_tasks in_flight_count_ un_joining]; [|rewrite length_app; cbn; lia|..|done].
  - apply Forall_app. split; [done|]. by repeat constructor.
  - unfold unfinished. rewrite filter_app, zsize_app, H3. done.
  - apply orb_true_iff in Hen as [He|He]; [by apply Nat.eqb_eq in He|]. rewrite orb_false_r in He. lia.
Qed.

Lemma notify_ok d n i t t' u :
  loop_ok d n u → un_tasks u !! i = Some t → is_finished t = false → lawful_task d t' →
  loop_ok d n (notify t' (set_task i t' u)).
Proof.
  intros [H1 H2 H3 H4 H5] Hi Ht Hlaw.
  pose proof (unfinished_insert i t t' (un_tasks u) Hi Ht) as Hins.
  assert (Hf : Forall (lawful_task d) (<[i:=t']> (un_tasks u))) by by apply Forall_insert.
  assert (Hpos := unfinished_pos i t (un_tasks u) Hi Ht).
  destruct t' as [| | |[e|]]; unfold notify, set_task;
    (split; cbn [un_tasks in_flight_count_ abort_ un_joining is_finished] in *; rewrite ?length_insert; [done|lia|lia|lia|done]).
Qed.

Lemma next_move_enabled d n u mv :
  loop_ok d n u → un_joining u = None ∨ all_finished u = false → enabled n u (next_move n u mv) = true.
Proof.
  intros Hok Hgo. unfold next_move. destruct (enabled n u mv) eqn:Hmv; [done|].
  destruct (enabled n u main_moves) eqn:Hmain; [done|].
  destruct (list_find _ _) as [[i t]|] eqn:Hf.
  - apply list_find_Some in Hf as (Hi & Ht & _). cbn. by rewrite Hi, Ht.
  - apply list_find_None in Hf.
    assert (Hall : all_finished u = true).
    { unfold all_finished. apply forallb_forall. intros t Ht%list_elem_of_In. rewrite Forall_forall in Hf.
      specialize (Hf t Ht). by destruct (is_finished t). }
    destruct Hgo as [Hj|Hj]; [|congruence]. exfalso.
    assert (Hz : unfinished (un_tasks u) = []).
    { destruct (unfinished (un_tasks u)) as [|t l] eqn:Hu; [done|]. rewrite Forall_forall in Hf.
      assert (Ht : t ∈ unfinished (un_tasks u)) by (rewrite Hu; by left).
      apply list_elem_of_filter in Ht as [Ht Hin]. by destruct (Hf t Hin). }
    destruct Hok. cbn in Hmain. rewrite Hj in Hmain. cbn in Hmain. apply orb_false_iff in Hmain as [_ Hp].
    unfold unstage_possible in Hp. rewrite loop_in_flight0, Hz in Hp. done.
Qed.

Lemma main_timeout_ok d n u : loop_ok d n u → loop_ok d n (main_timeout u).
Proof. intros []. by split. Qed.

Lemma unstage_step_wp d n mv u a :
  loop_ok d n u → length (at_staged a) = n → enabled n u mv = true →
  wp (unstage_step d n mv u) env (λ r a', frame a a' ∧ ∃ u', r = Ok u' ∧ loop_ok d n u') a.
Proof.
  intros Hok Hn Hen. destruct mv as [| |i]; cbn [unstage_step].
  - apply wp_ret. split; [done|]. eexists. split; [done|]. by apply main_step_ok.
  - apply wp_ret. split; [done|]. eexists. split; [done|]. by apply main_timeout_ok.
  - cbn in Hen. destruct (un_tasks u !! i) as [t|] eqn:Hi; [|done]. apply negb_true_iff in Hen.
    apply wp_bind, wp_gets. cbn [bind_post].
    assert (Hlt : (i < length (at_staged a))%nat).
    { destruct Hok. apply lookup_lt_Some in Hi. lia. }
    apply lookup_lt_is_Some in Hlt as [item Hitem]. rewrite Hitem. apply wp_bind.
    eapply wp_mono.
    { apply task_step_wp. destruct Hok. rewrite Forall_forall in loop_lawful0. apply loop_lawful0.
      by eapply list_elem_of_lookup_2. }
    intros r a' [Hf (t' & -> & Ht')]. cbn [bind_post]. apply wp_ret. split; [done|]. eexists. split; [done|].
    by eapply notify_ok.
Qed.

Lemma unstage_result_wp d n u b a :
  loop_ok d n u → wp (unstage_result d u b) env (λ r a', a' = a ∧ match r with Ok _ => first_error (un_tasks u) = None ∧ b = false | Err e => lawful d e | _ => False end) a.
Proof.
  intros [Hlaw _ _ _ _]. unfold unstage_result. destruct (first_error _) as [e|] eqn:He.
  - apply wp_throw. split; [done|]. unfold first_error in He.
    destruct (list_find _ _) as [[i t]|] eqn:Hf; [|done].
    apply list_find_Some in Hf as (Hi & _). rewrite Forall_forall in Hlaw.
    specialize (Hlaw t (list_elem_of_lookup_2 _ _ _ Hi)). destruct t as [| | |e']; try done. by subst e'.
  - destruct b; [|by apply wp_ret]. destruct d; apply wp_throw; (split; [done|]); eauto with moves.
Qed.

Lemma frame_length a a' : frame a a' → length (at_staged a') = length (at_staged a).
Proof. intros [_ _ _ Hids _ _ _ _]. apply (f_equal length) in Hids. by rewrite !length_map in Hids. Qed.

(** Induction over the loop: [I] is kept by the enabled moves. *)
Lemma unstage_loop_wp d n (I : unstaging → attempt → Prop) (Q : outcome exn unit → attempt → Prop) fuel schedule k u a :
  (∀ mv u a, I u a → loop_ok d n u → length (at_staged a) = n → enabled n u mv = true →
     wp (unstage_step d n mv u) env (λ r a', ∀ u', r = Ok u' → I u' a') a) →
  (∀ u a, I u a → Q Diverge a) →
  (∀ u a b, I u a → loop_ok d n u → length (at_staged a) = n → un_joining u = Some b → all_finished u = true →
     wp (unstage_result d u b) env Q a) →
  I u a → loop_ok d n u → length (at_staged a) = n →
  wp (unstage_loop fuel d n schedule k u) env Q a.
Proof.
  intros Hstep Hdiv Hres. revert k u a. induction fuel as [|fuel IH]; intros k u a HI Hok Hn;
    cbn [unstage_loop]; destruct (un_joining u) as [b|] eqn:Hj;
    try (destruct (all_finished u) eqn:Hall; [by eapply Hres|]);
    try (apply wp_diverge; by eapply Hdiv).
  all: assert (Hen : enabled n u (next_move n u (schedule k)) = true) by (eapply next_move_enabled; eauto);
    apply wp_bind; eapply wp_mono; [apply wp_conj; [by eapply Hstep|by eapply unstage_step_wp]|];
    intros r a' [HI' [Hf (u' & -> & Hok')]]; cbn [bind_post]; apply IH; [by apply HI'|done|];
    by rewrite (frame_length _ _ Hf).
Qed.

Lemma initial_ok d n : loop_ok d n (MkUnstaging [] 0 false None).
Proof. split; try done; cbn; lia. Qed.

Lemma unstage_ends fuel d schedule a :
  wp (unstage fuel d schedule) env (λ r a', frame a a' ∧
    match r with Ok _ | Diverge => True | Err e => lawful d e | Fault => False end) a.
Proof.
  unfold unstage. apply wp_bind, wp_gets. cbn [bind_post].
  apply (unstage_loop_wp d _ (λ _ a', frame a a')); [..|done|apply initial_ok|done].
  - intros mv u a1 Hf Hok Hn Hen. eapply wp_mono; [by eapply unstage_step_wp|].
    intros r a2 [Hf' (u' & -> & _)] ? _. by etrans.
  - done.
  - intros u a1 b Hf Hok Hn Hj Hall. eapply wp_mono; [by eapply unstage_result_wp|].
    intros r a2 [-> Hr]. split; [done|]. by destruct r.
Qed.
End tasks.

(** The laws of the interface hold under every schedule. *)
#[export] Instance unstaging_laws fuel commits rolls :
  @UnstagingLaws (unstaging_of fuel commits rolls).
Proof.
  assert (Hends : ∀ env d s a, wp (unstage fuel d s) env (λ r a', frame a a' ∧
    match r with Ok _ | Diverge => True | Err e => lawful d e | Fault => False end) a)
    by (intros; apply unstage_ends).
  split; cbn [commit_staged rollback_staged].
  1, 2: intros env id a Ha; eapply wp_mono; [apply Hends|]; intros r a' [[] _]; split; [congruence|done].
  all: intros env a; eapply wp_mono; [apply Hends|]; intros r a' [[] Hr]; split_and!; [done|done|];
    destruct r as [|e| |]; try done; destruct Hr as (f & -> & Hf & Hd); exists f; by destruct Hd.
Qed.

(** ** The bound of the loop *)

Section bound.
Context (env : environment) (d : direction) (n : nat).

(** The states of the loop under any schedule, from any attempt *)
Inductive loop_reachable : unstaging → attempt → Prop :=
  | loop_starts a : length (at_staged a) = n → loop_reachable (MkUnstaging [] 0 false None) a
  | loop_moves u a mv u' a' :
      loop_reachable u a → enabled n u mv = true → unstage_step d n mv u env a = (Ok u', a') →
      loop_reachable u' a'.

Lemma reachable_ok u a : loop_reachable u a → loop_ok d n u ∧ length (at_staged a) = n.
Proof.
  induction 1 as [a Hn|u a mv u' a' _ [IH Hn] Hen Hstep]; [by split; [apply initial_ok|]|].
  pose proof (unstage_step_wp env d n mv u a IH Hn Hen) as Hwp. unfold wp in Hwp. rewrite Hstep in Hwp.
  destruct Hwp as [Hf (u'' & [= <-] & Hok)]. split; [done|]. apply frame_length in Hf. cbn in Hf. congruence.
Qed.

(** C32: Whatever the interleaving, the loop counts exactly the tasks that are
    not finished and never has more than a thousand of them; it never starts
    more tasks than there are mutations, never gets stuck, and a step never
    reads outside of the queue. *)
Theorem unstaging_bounded u a :
  loop_reachable u a →
  in_flight_count_ u = zsize (unfinished (un_tasks u)) ∧ in_flight_count_ u ≤ MAX_PARALLELISM ∧
  (length (un_tasks u) ≤ n)%nat ∧
  (un_joining u = None ∨ all_finished u = false → ∃ mv, enabled n u mv = true) ∧
  (∀ mv, enabled n u mv = true → ∃ u' a', unstage_step d n mv u env a = (Ok u', a')).
Proof.
  intros [Hok Hn]%reachable_ok. split_and!; try apply Hok.
  - intros Hgo. exists (next_move n u main_moves). by eapply next_move_enabled.
  - intros mv Hen. pose proof (unstage_step_wp env d n mv u a Hok Hn Hen) as Hwp. unfold wp in Hwp.
    destruct (unstage_step d n mv u env a) as [r a']. cbn [fst snd] in Hwp. destruct Hwp as [_ (u' & -> & _)].
    by exists u', a'.
Qed.
End bound.

(** ** What a commit writes *)

Definition request_document (r : request) : document_id :=
  match r with
  | mutate_in r => mi_id r
  | lookup_in id _ _ | lookup_in_any_replica id _ _ | insert id _ _ _ | remove id _ _ => id
  end.

Definition concerns (id : document_id) (e : request * response) : Prop := request_document e.1 = id.

(** The server reported a conflict on the document. *)
Definition conflicting (ec : option error_code) : Prop :=
  ec ≫= error_class_of_code = Some FAIL_CAS_MISMATCH ∨ ec ≫= error_class_of_code = Some FAIL_DOC_ALREADY_EXISTS.
Definition had_conflict (id : document_id) (l : list (request * response)) : Prop :=
  ∃ e, e ∈ l ∧ concerns id e ∧ conflicting (resp_ec e.2).
(** and it accepted a request for it. *)
Definition had_success (id : document_id) (l : list (request * response)) : Prop :=
  ∃ e, e ∈ l ∧ concerns id e ∧ resp_ec e.2 = None.

(** The requests that may commit a mutation after [before]: they rewrite the
    document in the version that was staged or, after a conflict on it, in any
    version; they insert it, which fails when it exists; or they remove it in
    any version. *)
Inductive write_of (item : staged_mutation) (before : list (request * response)) : request → Prop :=
  | write_version m :
      sm_type item ≠ REMOVE → mi_id m = sm_id item → mi_cas m = sm_cas item → write_of item before (mutate_in m)
  | write_forced m :
      sm_type item ≠ REMOVE → mi_id m = sm_id item → mi_cas m = 0 → had_conflict (sm_id item) before →
      write_of item before (mutate_in m)
  | write_insertion content flags level :
      sm_type item = INSERT → sm_staged_content item = Some content → write_of item before (insert (sm_id item) content flags level)
  | write_removal level : sm_type item = REMOVE → write_of item before (remove (sm_id item) 0 level).

(** Every request, the latest first, commits one of the mutations. *)
Fixpoint licensed (items : staged_mutation_queue) (l : list (request * response)) : Prop :=
  match l with
  | [] => True
  | e :: l => (∃ item, item ∈ items ∧ write_of item l e.1) ∧ licensed items l
  end.

Section commit_writes.
Context (env : environment) (Hhooks : no_hooks env).

Lemma commit_request_licensed item level z l :
  sm_type item ≠ REMOVE → (z = true → had_conflict (sm_id item) l) →
  write_of item l (commit_doc_request item level z).1 ∧ request_document (commit_doc_request item level z).1 = sm_id item.
Proof using.
  intros Ht Hz. unfold commit_doc_request.
  destruct (bool_decide (sm_type item = INSERT) && negb z) eqn:Hi; [apply andb_true_iff in Hi as [Hi%bool_decide_eq_true ?%negb_true_iff]|];
    destruct (sm_staged_content item) eqn:Hc; cbn [fst]; (split; [|by destruct z]).
  - by apply write_insertion.
  - by apply write_version.
  - destruct z; [apply write_forced; auto|by apply write_version].
  - destruct z; [apply write_forced; auto|by apply write_version].
Qed.

Lemma start_commit_wp item m a :
  wp (start_item committing item m) env (λ r a', at_log a' = at_log a ∧ at_staged a' = at_staged a ∧
    ∃ req b, r = Ok (sends req b m) ∧ request_document req = sm_id item ∧
      ∀ l, (cas_zero_mode m = true → had_conflict (sm_id item) l) → write_of item l req) a.
Proof.
  set (Post := λ (r : outcome exn progress) a', _).
  assert (Hc : sm_type item ≠ REMOVE → wp (commit_doc item m) env Post a).
  { intros Ht. unfold commit_doc. apply wp_bind, wp_check_expiry_during; intros Hov; cbn [bind_post];
      (apply wp_bind, wp_wait_for_hook; [done|]; cbn [bind_post]; apply wp_bind, wp_asks; cbn [bind_post]).
    all: pose proof (λ l, commit_request_licensed item (config_level env) (cas_zero_mode m) l Ht) as Hw.
    all: destruct (commit_doc_request _ _ _) as [req b]; apply wp_ret; (split; [try case_match; done|]);
      (split; [try case_match; done|]); exists req, b; (split; [done|]); cbn [fst] in Hw.
    all: split; [|intros l Hl; by apply Hw]; destruct (Hw [(lookup_in (sm_id item) [] true, response_error (errc_common Common.cas_mismatch))]) as [_ Hd]; [|done].
    all: intros _; eexists; split; [by left|]; split; [done|by left]. }
  unfold start_item. destruct (sm_type item) eqn:Ht; try (by apply Hc). unfold remove_doc.
  apply wp_bind, wp_check_expiry_during; intros Hov; cbn [bind_post];
    (apply wp_bind, wp_wait_for_hook; [done|]; cbn [bind_post]; apply wp_bind, wp_asks; cbn [bind_post]; apply wp_ret).
  all: (split; [try case_match; done|]); (split; [try case_match; done|]); eexists _, _; (split; [done|]);
    (split; [done|]); intros l _; by apply write_removal.
Qed.

(** The class of an error by the code of the result *)
Lemma validate_class res e :
  validate_operation_result res true = Err e →
  ce_ec e = FAIL_CAS_MISMATCH ∨ ce_ec e = FAIL_DOC_ALREADY_EXISTS → conflicting (res_ec res).
Proof.
  unfold validate_operation_result, is_success, conflicting. intros He.
  destruct (res_ec res) as [ec|] eqn:Hec; cbn [has negb] in He.
  - simplify_eq He. intros <-. unfold client_error_of_result, error_class_from_result. cbn [ce_ec].
    rewrite Hec. cbn [has orb mbind option_bind]. destruct (error_class_of_code ec) as [c|]; [|by intros []].
    intros [->| ->]; [by left|by right].
  - destruct (_ && bool_decide _); [|by rewrite andb_false_r in He].
    simplify_eq He. intros <-. by intros [].
Qed.

Lemma handle_commit_doc_error_wp e m a :
  wp (handle_commit_doc_error e m) env (λ r a', a' = a ∧
    ((∃ ex, r = Ok (finishes (Some ex))) ∨
     ∃ m', r = Ok (retries_with m') ∧
       (cas_zero_mode m' = true → cas_zero_mode m = true ∨ ce_ec e = FAIL_CAS_MISMATCH ∨ ce_ec e = FAIL_DOC_ALREADY_EXISTS))) a.
Proof.
  unfold handle_commit_doc_error. apply wp_bind, wp_gets. cbn [bind_post].
  destruct (at_overtime a); apply wp_ret; (split; [done|]); [left; by eexists|].
  unfold delay_then_retry, finishes_failed. destruct (ce_ec e) eqn:Hec, (ambiguity_resolution_mode m);
    cbn [delay_retries]; repeat case_match; simplify_eq;
    first [left; by eexists | right; eexists; split; [done|]; cbn; auto].
Qed.

Lemma answer_commit_wp i item res m a :
  at_staged a !! i = Some item →
  wp (answer_item committing i item res m) env (λ r a', at_log a' = at_log a ∧
    (at_staged a' = at_staged a ∨ ∃ cas, at_staged a' = alter (set_cas cas) i (at_staged a) ∧ r = Ok (finishes None)) ∧
    ((r = Ok (finishes None) ∧ res_ec res = None) ∨ (∃ ex, r = Ok (finishes (Some ex))) ∨
     ∃ m', r = Ok (retries_with m') ∧ (cas_zero_mode m' = true → cas_zero_mode m = true ∨ conflicting (res_ec res)))) a.
Proof.
  intros Hitem.
  assert (Hok : ∀ res', validate_operation_result res true = Ok res' → res_ec res = None).
  { unfold validate_operation_result, is_success. by destruct (res_ec res). }
  assert (Hc : wp (validate_commit_doc_result i res m) env (λ r a', at_log a' = at_log a ∧
    (at_staged a' = at_staged a ∨ ∃ cas, at_staged a' = alter (set_cas cas) i (at_staged a) ∧ r = Ok (finishes None)) ∧
    ((r = Ok (finishes None) ∧ res_ec res = None) ∨ (∃ ex, r = Ok (finishes (Some ex))) ∨
     ∃ m', r = Ok (retries_with m') ∧ (cas_zero_mode m' = true → cas_zero_mode m = true ∨ conflicting (res_ec res)))) a).
  { unfold validate_commit_doc_result. destruct (validate_total res true) as [[res' Hr]|[e He]]; [rewrite Hr|rewrite He].
    - apply wp_bind, wp_wait_for_hook; [done|]. cbn [bind_post]. apply wp_bind, wp_modify. cbn [bind_post].
      apply wp_bind, wp_wait_for_hook; [done|]. cbn [bind_post]. apply wp_ret. split; [done|]. split; [right; by eexists|].
      left. split; [done|]. by eapply Hok.
    - eapply wp_mono; [apply handle_commit_doc_error_wp|]. intros r a' [-> Hr].
      split; [done|]. split; [by left|]. right. destruct Hr as [Hr|(m' & -> & Hm)]; [by left|]. right.
      exists m'. split; [done|]. intros Hz. destruct (Hm Hz); [by left|right]. by eapply validate_class. }
  unfold answer_item. destruct (sm_type item); try exact Hc.
  unfold validate_remove_doc_result, validate_result.
  destruct (validate_total res true) as [[res' Hr]|[e He]]; [rewrite Hr|rewrite He].
  - apply wp_bind, wp_wait_for_hook; [done|]. cbn [bind_post]. apply wp_ret. split; [done|]. split; [by left|].
    left. split; [done|]. by eapply Hok.
  - unfold handle_remove_doc_error. apply wp_bind, wp_gets. cbn [bind_post].
    destruct (at_overtime a); apply wp_ret; (split; [done|]; split; [by left|]); [right; left; by eexists|].
    right. unfold delay_then_retry, finishes_failed. destruct (ce_ec e); repeat case_match;
      first [left; by eexists | right; exists m; split; [done|]; by left].
Qed.

(** What is known of a task by the requests sent for its document *)
Definition task_fact (id : document_id) (l : list (request * response)) (t : task) : Prop :=
  match t with
  | posted m | delayed m => cas_zero_mode m = true → had_conflict id l
  | awaiting res m => (cas_zero_mode m = true → had_conflict id l) ∧
      ∃ e, e ∈ l ∧ concerns id e ∧ resp_ec e.2 = res_ec res
  | finished None => had_success id l
  | finished (Some _) => True
  end.

Lemma task_fact_cons id l e t : task_fact id l t → task_fact id (e :: l) t.
Proof.
  assert (Hc : had_conflict id l → had_conflict id (e :: l)).
  { intros (x & Hx & ?). exists x. split; [by right|done]. }
  destruct t as [m|res m|m|[ex|]]; cbn [task_fact]; auto.
  - intros [H1 (x & Hx & ?)]. split; [auto|]. exists x. split; [by right|done].
  - intros (x & Hx & ?). exists x. split; [by right|done].
Qed.

(** One move of a task *)
Lemma task_step_commit items i item t a l :
  at_staged a !! i = Some item → item ∈ items → is_finished t = false → task_fact (sm_id item) l t →
  wp (task_step committing i item t) env (λ r a', ∃ l', at_log a' = l' ++ at_log a ∧
    (at_staged a' = at_staged a ∨ ∃ cas, at_staged a' = alter (set_cas cas) i (at_staged a) ∧ r = Ok (finished None)) ∧
    (licensed items l → licensed items (l' ++ l)) ∧ (length l' ≤ 1)%nat ∧
    ∃ t', r = Ok t' ∧ task_fact (sm_id item) (l' ++ l) t') a.
Proof.
  intros Hi Hin Ht Hfact. destruct t as [m|res m|m|e]; cbn [task_step task_fact] in *; [..|done].
  - apply wp_bind. eapply wp_mono; [by apply start_commit_wp|].
    intros r a' (Hlog & Hst & req & b & -> & Hdoc & Hwrite). cbn [bind_post task_after].
    apply wp_bind, wp_execute. cbn [bind_post]. apply wp_ret.
    set (resp := reply _ _ _). clearbody resp. exists [(req, resp)].
    split; [cbn; by rewrite Hlog|]. split; [by left|]. split; [|split; [done|]].
    + intros Hl. split; [|done]. exists item. split; [done|]. by apply Hwrite.
    + eexists. split; [done|]. apply (task_fact_cons (sm_id item) l) with (t := posted m) (e := (req, resp)) in Hfact.
      split; [done|]. exists (req, resp). split; [by left|]. split; [done|]. by destruct b.
  - destruct Hfact as [Hz (x & Hx & Hcx & Hec)].
    apply wp_bind. eapply wp_mono; [by apply answer_commit_wp|].
    intros r a' (Hlog & Hst & Hr).
    assert (Hp : ∃ p, r = Ok p ∧ ∀ a'', wp (task_after p) env (λ r a3, a3 = a'' ∧ ∃ t', r = Ok t' ∧
        task_fact (sm_id item) l t' ∧ (p = finishes None → t' = finished None)) a'').
    { destruct Hr as [[-> Hn]|[(ex & ->)|(m' & -> & Hm)]]; (eexists; split; [done|]); intros a''; apply wp_ret;
        (split; [done|]); (eexists; split; [done|]); (split; [|done]); cbn [task_fact]; try done.
      - exists x. split_and!; [done..|congruence].
      - intros Hz'. destruct (Hm Hz'); [by apply Hz|]. exists x. split_and!; [done..|by rewrite Hec]. }
    destruct Hp as (p & -> & Hp). cbn [bind_post]. eapply wp_mono; [apply Hp|].
    intros r' a'' (-> & t' & -> & Hf & Hpt). exists []. split; [done|]. split.
    + destruct Hst as [Hst|(cas & Hst & [= ->])]; [by left|right]. exists cas. split; [done|]. by rewrite Hpt.
    + split; [done|]. split; [cbn; lia|]. by exists t'.
  - apply wp_ret. exists []. split; [done|]. split; [by left|]. split; [done|]. split; [cbn; lia|].
    by exists (posted m).
Qed.

(** The mutations that are not finished are those of the queue; the CAS of the
    others may have been saved. *)
Definition writes_inv (items : staged_mutation_queue) (L : list (request * response)) (u : unstaging) (a : attempt) : Prop :=
  ∃ l, at_log a = l ++ L ∧ map sm_id (at_staged a) = map sm_id items ∧ licensed items l ∧
    ∀ i item, at_staged a !! i = Some item →
      match un_tasks u !! i with
      | None => items !! i = Some item
      | Some t => task_fact (sm_id item) l t ∧ (is_finished t = false → items !! i = Some item)
      end.

Lemma notify_tasks t u : un_tasks (notify t u) = un_tasks u.
Proof. by destruct t as [| | |[]]. Qed.

Lemma task_fact_app id l l' t : task_fact id l t → task_fact id (l' ++ l) t.
Proof. intros Ht. induction l' as [|e l' IH]; [done|]. by apply task_fact_cons. Qed.

Lemma unstage_step_writes items L n mv u a :
  writes_inv items L u a → loop_ok committing n u → length (at_staged a) = n → enabled n u mv = true →
  wp (unstage_step committing n mv u) env (λ r a', ∀ u', r = Ok u' → writes_inv items L u' a') a.
Proof.
  intros (l & Hlog & Hids & Hlic & Hitems) Hok Hn Hen. destruct mv as [| |i]; cbn [unstage_step].
  - apply wp_ret. intros u' [= <-]. exists l. split_and!; [done..|]. intros j item Hj. specialize (Hitems j item Hj).
    unfold main_step. case_decide; [done|]. destruct (abort_ u); [done|]. cbn [un_tasks].
    destruct (un_tasks u !! j) as [t|] eqn:Ht; [by rewrite lookup_app_l, Ht by by eapply lookup_lt_Some|].
    destruct ((un_tasks u ++ [posted initial_modes]) !! j) as [t|] eqn:Ht'; [|done].
    apply lookup_app_Some in Ht' as [?|[_ Ht']]; [congruence|]. apply list_lookup_singleton_Some in Ht' as [_ <-].
    by split.
  - apply wp_ret. intros u' [= <-]. exists l. by split_and!.
  - cbn in Hen. destruct (un_tasks u !! i) as [t|] eqn:Ht; [|done]. apply negb_true_iff in Hen.
    apply wp_bind, wp_gets. cbn [bind_post].
    assert (Hlt : (i < length (at_staged a))%nat) by (destruct Hok; apply lookup_lt_Some in Ht; lia).
    apply lookup_lt_is_Some in Hlt as [item Hitem]. rewrite Hitem.
    specialize (Hitems i item Hitem) as Hi. rewrite Ht in Hi. destruct Hi as [Hfact Hsame].
    apply wp_bind. eapply wp_mono; [apply (task_step_commit items i item t a l); [done|by eapply list_elem_of_lookup_2, Hsame|done..]|].
    intros r a' (l' & Hlog' & Hst & Hf & _ & t' & -> & Hfact'). cbn [bind_post]. apply wp_ret. intros u' [= <-].
    exists (l' ++ l). split; [by rewrite Hlog', Hlog, app_assoc|].
    assert (Hst' : ∃ g, (∀ x, sm_id (g x) = sm_id x) ∧ (is_finished t' = false → ∀ x, g x = x) ∧
                    at_staged a' = alter g i (at_staged a)).
    { destruct Hst as [->|(cas & -> & [= ->])].
      - exists id. split_and!; [done..|]. symmetry. by apply list_alter_id.
      - by exists (set_cas cas). }
    destruct Hst' as (g & Hg & Hg' & ->). split; [by rewrite alter_map|]. split; [auto|].
    rewrite notify_tasks. cbn [set_task un_tasks]. intros j item' Hj.
    destruct (decide (i = j)) as [<-|Hne].
    + rewrite list_lookup_alter_eq, Hitem in Hj. injection Hj as <-.
      rewrite list_lookup_insert_eq by by eapply lookup_lt_Some. rewrite Hg. split; [done|].
      intros Ht'. rewrite Hg' by done. by apply Hsame.
    + rewrite list_lookup_alter_ne in Hj by done. rewrite list_lookup_insert_ne by done.
      specialize (Hitems j item' Hj). destruct (un_tasks u !! j); [|done].
      destruct Hitems. split; [by apply task_fact_app|done].
Qed.

Lemma first_error_none ts :
  first_error ts = None → Forall (λ t, is_finished t = true) ts → Forall (λ t, t = finished None) ts.
Proof.
  unfold first_error. intros Hf Hall. destruct (list_find _ _) as [[i t]|] eqn:He.
  - apply list_find_Some in He as (_ & Ht & _). by destruct t as [| | |[]].
  - apply list_find_None in He. rewrite Forall_forall in *. intros t Ht. specialize (Hall t Ht). specialize (He t Ht).
    by destruct t as [| | |[]].
Qed.

Lemma unstage_commit_writes fuel schedule a :
  wp (unstage fuel committing schedule) env (λ r a', ∃ l, at_log a' = l ++ at_log a ∧ licensed (at_staged a) l ∧
    (r = Ok tt → ∀ item, item ∈ at_staged a → had_success (sm_id item) l)) a.
Proof.
  unfold unstage. apply wp_bind, wp_gets. cbn [bind_post]. set (items := at_staged a). set (L := at_log a).
  apply (unstage_loop_wp env committing _ (writes_inv items L)); [..|apply initial_ok|done].
  - intros mv u a1 Hinv Hok Hn Hen. by apply unstage_step_writes.
  - intros u a1 (l & Hlog & _ & Hlic & _). by exists l.
  - intros u a1 b (l & Hlog & Hids & Hlic & Hitems) Hok Hn Hj Hall.
    eapply wp_mono; [by eapply unstage_result_wp|]. intros r a2 [-> Hr]. exists l. split; [done|]. split; [done|].
    intros -> item Hitem. destruct Hr as [Hfe ->]. apply list_elem_of_lookup_1 in Hitem as [i Hi].
    assert (Hall' : Forall (λ t, is_finished t = true) (un_tasks u)).
    { apply Forall_forall. intros t Ht. unfold all_finished in Hall. rewrite forallb_forall in Hall.
      by apply Hall, list_elem_of_In. }
    assert (Hid : map sm_id items !! i = Some (sm_id item)) by (by rewrite list_lookup_fmap, Hi).
    rewrite <-Hids, list_lookup_fmap in Hid. destruct (at_staged a1 !! i) as [item'|] eqn:Hi'; [|done].
    cbn in Hid. injection Hid as <-.
    assert (Ht : un_tasks u !! i = Some (finished None)).
    { destruct (lookup_lt_is_Some_2 (un_tasks u) i) as [t Ht].
      - rewrite (loop_joined _ _ _ Hok Hj), <-Hn. by eapply lookup_lt_Some.
      - rewrite Ht. pose proof (first_error_none _ Hfe Hall') as Hn'. rewrite Forall_forall in Hn'.
        by rewrite (Hn' t (list_elem_of_lookup_2 _ _ _ Ht)). }
    specialize (Hitems i item' Hi'). rewrite Ht in Hitems. by destruct Hitems.
  - exists []. by split_and!.
Qed.
End commit_writes.

(** ** Termination *)

Section termination.
Context (env : environment).

(** A handler ends the task or delays a retry, and in overtime it ends it. *)
Definition ends_or_retries (m : txn progress) : Prop :=
  ∀ a, wp m env (λ r a', (at_overtime a = true → at_overtime a' = true) ∧
    ∀ p, r = Ok p → (∃ e, p = finishes e) ∨ (at_overtime a = false ∧ ∃ m', p = retries_with m')) a.

Lemma delay_ends call m : (∃ e, delay_then_retry call m = finishes e) ∨ ∃ m', delay_then_retry call m = retries_with m'.
Proof. unfold delay_then_retry. case_match; eauto. Qed.

Lemma ends_overtime (m m' : txn progress) :
  (∀ a, at_overtime a = true → wp m env (λ r a', a' = a ∧ ∃ e, r = Ok (finishes e)) a) →
  (∀ a, at_overtime a = false →
     wp m' env (λ r a', ∃ p, r = Ok p ∧ ((∃ e, p = finishes e) ∨ ∃ m', p = retries_with m')) a) →
  ends_or_retries (overtime ← gets at_overtime; if (overtime : bool) then m else m').
Proof.
  intros H1 H2 a. apply wp_bind, wp_gets. cbn [bind_post]. destruct (at_overtime a) eqn:Ho.
  - eapply wp_mono; [by apply H1|]. intros r a' [-> (e & ->)]. split; [done|]. intros p [= <-]. left. by eexists.
  - eapply wp_mono; [by apply H2|]. intros r a' (p & -> & Hp). split; [done|]. intros ? [= <-]. naive_solver.
Qed.

Ltac ends_tac :=
  apply ends_overtime; intros a Ho; [apply wp_ret; by eauto|];
  repeat match goal with
  | |- wp (match ?x with _ => _ end) _ _ _ => destruct x
  | |- wp (mbind _ (modify _)) _ _ _ => apply wp_bind, wp_modify; cbn [bind_post]
  | |- wp (mret _) _ _ _ => apply wp_ret; eexists; split; [done|]
  | |- context [delay_then_retry ?c ?m] => destruct (delay_ends c m) as [[? ->]|[? ->]]; eauto
  | |- context [if ?x then _ else _] => destruct x
  | |- context [match ?x with _ => _ end] => destruct x
  end; eauto.

Lemma handle_commit_ends e m : ends_or_retries (handle_commit_doc_error e m).
Proof. unfold handle_commit_doc_error, finishes_failed. ends_tac. Qed.
Lemma handle_remove_ends e m : ends_or_retries (handle_remove_doc_error e m).
Proof. unfold handle_remove_doc_error, finishes_failed. ends_tac. Qed.
Lemma handle_insert_ends e m : ends_or_retries (handle_rollback_insert_error e m).
Proof. unfold handle_rollback_insert_error, finishes_failed. ends_tac. Qed.
Lemma handle_replace_ends e m : ends_or_retries (handle_rollback_remove_or_replace_error e m).
Proof. unfold handle_rollback_remove_or_replace_error, finishes_failed. ends_tac. Qed.

Lemma ends_after_hook h (g : option error_class → txn progress) :
  (∀ x, ends_or_retries (g x)) → ends_or_retries (x ← wait_for_hook h; g x).
Proof. intros Hg a. apply wp_bind, wp_question. cbn [bind_post]. exact (Hg _ (next_tick a)). Qed.

Lemma ends_modify f m :
  (∀ a, at_overtime (f a) = at_overtime a) → ends_or_retries m → ends_or_retries (_ ← modify f; m).
Proof. intros Hf Hm a. apply wp_bind, wp_modify. cbn [bind_post]. rewrite <-(Hf a). apply Hm. Qed.

Lemma ends_ret e : ends_or_retries (mret (finishes e)).
Proof. intros a. apply wp_ret. split; [done|]. intros p [= <-]. left. by eexists. Qed.

Lemma validate_result_ends h handle res m :
  (∀ e, ends_or_retries (handle e m)) → ends_or_retries (validate_result h handle res m).
Proof.
  intros Hh. unfold validate_result. destruct (validate_total res true) as [[? ->]|[? ->]]; [|done].
  apply ends_after_hook. intros [ec|]; [done|apply ends_ret].
Qed.

Lemma answer_item_ends d i item res m : ends_or_retries (answer_item d i item res m).
Proof.
  assert (Hc : ends_or_retries (validate_commit_doc_result i res m)).
  { unfold validate_commit_doc_result. destruct (validate_total res true) as [[? ->]|[? ->]]; [|apply handle_commit_ends].
    apply ends_after_hook. intros [ec|]; [apply handle_commit_ends|]. apply ends_modify; [done|].
    apply ends_after_hook. intros [ec|]; [apply handle_commit_ends|apply ends_ret]. }
  unfold answer_item. destruct d, (sm_type item); try exact Hc;
    apply validate_result_ends; intros e; auto using handle_remove_ends, handle_insert_ends, handle_replace_ends.
Qed.

(** Once the transaction has expired, a posted function enters overtime. *)
Definition expired_from (k : nat) : Prop := ∀ k', (k ≤ k')%nat → overall_expired env k' = true.

Definition enters_overtime (a : attempt) (m : txn progress) : Prop :=
  wp m env (λ r a', ∀ p, r = Ok p → at_overtime a' = true ∧ (at_overtime a = true → ∀ m', p ≠ retries_with m')) a.

Lemma overtime_handler m a :
  ends_or_retries m → at_overtime a = true →
  wp m env (λ r a', ∀ p, r = Ok p → at_overtime a' = true ∧ ∀ m', p ≠ retries_with m') a.
Proof.
  intros Hm Ho. eapply wp_mono; [apply Hm|]. intros r a' [H1 H2] p Hp. split; [by apply H1|].
  intros m' ->. by destruct (H2 _ Hp) as [[e [=]]|[? _]]; congruence.
Qed.

(** From the hook on, in overtime *)
Lemma hook_in_overtime h (handle : client_error → txn progress) (send : Z → txn progress) a :
  at_overtime a = true → (∀ e, ends_or_retries (handle e)) → (∀ l, ∃ req b m, send l = mret (sends req b m)) →
  wp (ec ← wait_for_hook h;
      match ec with
      | Some ec => handle (client_error_of_class ec)
      | None => level ← asks config_level; send level
      end) env (λ r a', ∀ p, r = Ok p → at_overtime a' = true ∧ ∀ m', p ≠ retries_with m') a.
Proof.
  intros Ho Hh Hs. apply wp_bind, wp_question. cbn [bind_post]. destruct (hook_error _ _ _) as [ec|].
  - by apply overtime_handler.
  - apply wp_bind, wp_asks. cbn [bind_post]. destruct (Hs (config_level env)) as (req & b & m & ->). apply wp_ret.
    by intros p [= <-].
Qed.

Lemma check_during_expired s (m : txn progress) (Q : outcome exn progress → attempt → Prop) a :
  expired_from (at_tick a) → (∀ a', at_overtime a' = true → wp m env Q a') →
  wp (_ ← check_expiry_during_commit_or_rollback s; m) env Q a.
Proof.
  intros Hexp Hm. apply wp_bind, wp_check_expiry_during; intros Ho; cbn [bind_post]; [by apply Hm|].
  rewrite (Hexp (at_tick a)) by lia. by apply Hm.
Qed.

Lemma if_expired_expired s (handle : client_error → txn progress) (m : txn progress) a :
  expired_from (at_tick a) → (∀ e, ends_or_retries (handle e)) →
  (∀ a, at_overtime a = false → wp (handle (client_error_of_class FAIL_EXPIRY)) env (λ r a', ∀ p, r = Ok p → at_overtime a' = true) a) →
  (∀ a', at_overtime a' = true → wp m env (λ r a', ∀ p, r = Ok p → at_overtime a' = true ∧ ∀ m', p ≠ retries_with m') a') →
  enters_overtime a
    (ec ← error_if_expired_and_not_in_overtime s;
     match ec with Some ec => handle (client_error_of_class ec) | None => m end).
Proof.
  intros Hexp Hh Hset Hm. unfold enters_overtime. apply wp_bind, wp_error_if_expired; intros Ho; cbn [bind_post].
  - eapply wp_mono; [by apply Hm|]. intros r a' Hr p Hp. destruct (Hr p Hp). by split.
  - rewrite (Hexp (at_tick a)) by lia. cbn [orb]. eapply wp_mono; [by apply Hset|].
    intros r a' Hr p Hp. split; [by apply Hr with p|]. by rewrite Ho.
Qed.

Lemma start_item_enters d item m a : expired_from (at_tick a) → enters_overtime a (start_item d item m).
Proof.
  intros Hexp.
  assert (Hw : ∀ m0 : txn progress, wp m0 env (λ r a', ∀ p, r = Ok p → at_overtime a' = true ∧ ∀ m', p ≠ retries_with m') a →
    enters_overtime a m0).
  { intros m0 H0. eapply wp_mono; [exact H0|]. intros r a' Hr p Hp. destruct (Hr p Hp). by split. }
  assert (Hc : enters_overtime a (commit_doc item m)).
  { apply Hw. apply check_during_expired; [done|]. intros a' Ho.
    apply (hook_in_overtime _ (λ e, handle_commit_doc_error e m)
      (λ level, let '(req, subdoc) := commit_doc_request item level (cas_zero_mode m) in mret (sends req subdoc m)));
      [done|intros; apply handle_commit_ends|]. intros l. destruct (commit_doc_request _ _ _). eauto. }
  assert (Hr : enters_overtime a (rollback_remove_or_replace item m)).
  { apply (if_expired_expired _ (λ e, handle_rollback_remove_or_replace_error e m));
      [done|intros; apply handle_replace_ends| |].
    - intros a' Ho. unfold handle_rollback_remove_or_replace_error. apply wp_bind, wp_gets. cbn [bind_post]. rewrite Ho.
      cbn [ce_ec client_error_of_class]. by apply wp_bind, wp_modify.
    - intros a' Ho. apply (hook_in_overtime _ (λ e, handle_rollback_remove_or_replace_error e m)
        (λ level, mret (sends _ true m))); [done|intros; apply handle_replace_ends|]. eauto. }
  destruct d, (sm_type item) eqn:Hty; unfold start_item; rewrite Hty; try done.
  - apply Hw. apply check_during_expired; [done|]. intros a' Ho.
    apply (hook_in_overtime _ (λ e, handle_remove_doc_error e m) (λ level, mret (sends _ false m)));
      [done|intros; apply handle_remove_ends|]. eauto.
  - apply (if_expired_expired _ (λ e, handle_rollback_insert_error e m)); [done|intros; apply handle_insert_ends| |].
    + intros a' Ho. unfold handle_rollback_insert_error. apply wp_bind, wp_gets. cbn [bind_post]. rewrite Ho.
      cbn [ce_ec client_error_of_class]. by apply wp_bind, wp_modify.
    + intros a' Ho. apply (hook_in_overtime _ (λ e, handle_rollback_insert_error e m)
        (λ level, mret (sends _ true m))); [done|intros; apply handle_insert_ends|]. eauto.
Qed.

(** How many moves a task has left *)
Definition weight (overtime : bool) (t : task) : nat :=
  match t with
  | posted _ => if overtime then 2 else 4
  | awaiting _ _ => if overtime then 1 else 6
  | delayed _ => if overtime then 3 else 5
  | finished _ => 0
  end.

Fixpoint total_weight (overtime : bool) (ts : list task) : nat :=
  match ts with [] => 0 | t :: ts => weight overtime t + total_weight overtime ts end.

Definition measure (n : nat) (u : unstaging) (overtime : bool) : nat :=
  total_weight overtime (un_tasks u) + 8 * (n - length (un_tasks u)) + (if has (un_joining u) then 0 else 1).

Lemma weight_overtime t o : (weight true t ≤ weight o t)%nat.
Proof. destruct t, o; cbn; lia. Qed.

Lemma total_weight_overtime ts o o' : (o = true → o' = true) → (total_weight o' ts ≤ total_weight o ts)%nat.
Proof.
  intros Ho. induction ts as [|t ts IH]; [done|]. cbn. destruct o, o'; try done; try (specialize (Ho eq_refl); done).
  pose proof (weight_overtime t false). lia.
Qed.

Lemma total_weight_app o ts ts' : total_weight o (ts ++ ts') = (total_weight o ts + total_weight o ts')%nat.
Proof. induction ts as [|t ts IH]; [done|]. cbn. rewrite IH. lia. Qed.

Lemma total_weight_insert o i t t' ts :
  ts !! i = Some t → (total_weight o (<[i := t']> ts) + weight o t = total_weight o ts + weight o t')%nat.
Proof.
  intros Hi. rewrite <-(take_drop_middle ts i t Hi) at 2. rewrite insert_take_drop by by eapply lookup_lt_Some.
  rewrite !total_weight_app. cbn. lia.
Qed.

(** A move of a task uses up some of its weight. *)
Lemma task_step_weight d i item t a :
  expired_from (at_tick a) → is_finished t = false →
  wp (task_step d i item t) env (λ r a', ∀ t', r = Ok t' →
    (weight (at_overtime a') t' < weight (at_overtime a) t)%nat) a.
Proof.
  intros Hexp Ht. destruct t as [m|res m|m|e]; cbn [task_step]; [| | |done].
  - apply wp_bind. eapply wp_mono; [by apply start_item_enters|]. intros r a' Hr.
    destruct r as [p|e| |]; cbn [bind_post]; [|by intros ? [=]..].
    destruct (Hr p eq_refl) as [Ho' Hre]. destruct p as [req b m'|e|m']; cbn [task_after].
    + apply wp_bind, wp_execute. cbn [bind_post]. apply wp_ret. intros t' [= <-].
      cbn [at_overtime set_log next_tick]. rewrite Ho'. cbn. by destruct (at_overtime a); lia.
    + apply wp_ret. intros t' [= <-]. cbn. destruct (at_overtime a); lia.
    + apply wp_ret. intros t' [= <-]. rewrite Ho'. destruct (at_overtime a) eqn:Ho; [by destruct (Hre eq_refl m')|].
      cbn. lia.
  - apply wp_bind. eapply wp_mono; [apply answer_item_ends|]. intros r a' [Ho Hr].
    destruct r as [p|e| |]; cbn [bind_post]; [|by intros ? [=]..].
    destruct (Hr p eq_refl) as [[e ->]|[Hf [m' ->]]]; cbn [task_after]; apply wp_ret; intros t' [= <-]; cbn.
    + destruct (at_overtime a); lia.
    + rewrite Hf. destruct (at_overtime a'); lia.
  - apply wp_ret. intros t' [= <-]. cbn. destruct (at_overtime a); lia.
Qed.

Lemma expired_later k k' : expired_from k → (k ≤ k')%nat → expired_from k'.
Proof. intros Hk Hle j Hj. apply Hk. lia. Qed.

Lemma notify_measure n t u o : measure n (notify t u) o = measure n u o.
Proof. by destruct t as [| | |[]]. Qed.

Lemma unstage_step_measure d n mv u a :
  expired_from (at_tick a) → loop_ok d n u → length (at_staged a) = n → enabled n u mv = true →
  wp (unstage_step d n mv u) env (λ r a', ∀ u', r = Ok u' →
    (measure n u' (at_overtime a') < measure n u (at_overtime a))%nat) a.
Proof.
  intros Hexp Hok Hn Hen. destruct mv as [| |i]; cbn [unstage_step].
  - apply wp_ret. intros u' [= <-]. cbn in Hen. apply andb_true_iff in Hen as [Hj _].
    unfold main_step, measure. destruct (un_joining u); [done|].
    case_decide; [cbn [un_tasks un_joining has]; lia|]. destruct (abort_ u); [cbn [un_tasks un_joining has]; lia|].
    cbn [un_tasks un_joining has]. rewrite total_weight_app, length_app. cbn [total_weight length].
    assert (weight (at_overtime a) (posted initial_modes) ≤ 4)%nat by (cbn; destruct (at_overtime a); lia).
    pose proof (loop_started _ _ _ Hok). lia.
  - apply wp_ret. intros u' [= <-]. cbn in Hen. apply andb_true_iff in Hen as [[Hj _]%andb_true_iff _].
    unfold main_timeout, measure. cbn [un_tasks un_joining]. destruct (un_joining u); [done|]. cbn [has]. lia.
  - cbn in Hen. destruct (un_tasks u !! i) as [t|] eqn:Ht; [|done]. apply negb_true_iff in Hen.
    apply wp_bind, wp_gets. cbn [bind_post].
    destruct (at_staged a !! i) as [item|]; [|by apply wp_fault].
    apply wp_bind. eapply wp_mono.
    { apply wp_conj; [by apply task_step_weight|]. apply (task_step_wp env d).
      pose proof (loop_lawful _ _ _ Hok) as Hl. rewrite Forall_forall in Hl. by eapply Hl, list_elem_of_lookup_2. }
    intros r a' [Hw [Hf (t' & -> & _)]]. cbn [bind_post]. apply wp_ret. intros u' [= <-].
    rewrite notify_measure. unfold measure, set_task. cbn [un_tasks un_joining]. rewrite length_insert.
    specialize (Hw t' eq_refl). pose proof (frame_overtime _ _ Hf) as Ho.
    pose proof (total_weight_insert (at_overtime a') i t t' (un_tasks u) Ht) as Hins.
    pose proof (total_weight_overtime (<[i:=t]> (un_tasks u)) (at_overtime a) (at_overtime a') Ho) as Hle.
    rewrite list_insert_id in Hle by done.
    assert (Hsum : (total_weight (at_overtime a') (<[i:=t']> (un_tasks u)) + weight (at_overtime a) t
                    ≤ total_weight (at_overtime a) (un_tasks u) + weight (at_overtime a') t')%nat).
    { clear -Ht Ho. rewrite <-(take_drop_middle (un_tasks u) i t Ht) at 2.
      rewrite insert_take_drop by by eapply lookup_lt_Some. rewrite !total_weight_app. cbn [total_weight].
      pose proof (total_weight_overtime (take i (un_tasks u)) _ _ Ho).
      pose proof (total_weight_overtime (drop (S i) (un_tasks u)) _ _ Ho). lia. }
    lia.
Qed.

Lemma unstage_loop_terminates d n fuel schedule k u a :
  expired_from (at_tick a) → loop_ok d n u → length (at_staged a) = n →
  (measure n u (at_overtime a) ≤ fuel)%nat →
  wp (unstage_loop fuel d n schedule k u) env (λ r _, r ≠ Diverge) a.
Proof.
  revert k u a. induction fuel as [|fuel IH]; intros k u a Hexp Hok Hn Hm; cbn [unstage_loop].
  all: assert (Hres : ∀ b, wp (unstage_result d u b) env (λ r _, r ≠ Diverge) a)
    by (intros b; eapply wp_mono; [by apply (unstage_result_wp env d n)|]; by intros [] ? [_ Hr]).
  all: destruct (un_joining u) as [b|] eqn:Hj; try (destruct (all_finished u) eqn:Hall; [done|]).
  - exfalso. unfold measure in Hm. assert (Hz : total_weight (at_overtime a) (un_tasks u) = 0%nat) by lia.
    assert (Hf : ∃ t, t ∈ un_tasks u ∧ is_finished t = false).
    { unfold all_finished in Hall. apply not_true_iff_false in Hall. rewrite forallb_forall in Hall.
      destruct (list_find (λ t, is_finished t = false) (un_tasks u)) as [[i t]|] eqn:Hfi.
      - apply list_find_Some in Hfi as (Hi & ? & _). exists t. split; [by eapply list_elem_of_lookup_2|done].
      - destruct Hall. intros t Ht%list_elem_of_In. apply list_find_None in Hfi. rewrite Forall_forall in Hfi.
        specialize (Hfi t Ht). by destruct (is_finished t). }
    destruct Hf as (t & Ht & Htf). apply list_elem_of_lookup_1 in Ht as [i Hi].
    rewrite <-(take_drop_middle _ _ _ Hi), total_weight_app in Hz. cbn [total_weight] in Hz.
    assert (weight (at_overtime a) t ≠ 0)%nat by (destruct t, (at_overtime a); done). lia.
  - exfalso. unfold measure in Hm. rewrite Hj in Hm. cbn [has] in Hm. lia.
  - assert (Hen : enabled n u (next_move n u (schedule k)) = true) by (eapply next_move_enabled; eauto).
    apply wp_bind. eapply wp_mono; [apply wp_conj; [by eapply unstage_step_measure|by eapply unstage_step_wp]|].
    intros r a' [Hw [Hf (u' & -> & Hok')]]. cbn [bind_post]. specialize (Hw u' eq_refl).
    apply IH; [by eapply expired_later, frame_tick|done|by rewrite (frame_length _ _ Hf)|lia].
  - assert (Hen : enabled n u (next_move n u (schedule k)) = true) by (eapply next_move_enabled; eauto).
    apply wp_bind. eapply wp_mono; [apply wp_conj; [by eapply unstage_step_measure|by eapply unstage_step_wp]|].
    intros r a' [Hw [Hf (u' & -> & Hok')]]. cbn [bind_post]. specialize (Hw u' eq_refl).
    apply IH; [by eapply expired_later, frame_tick|done|by rewrite (frame_length _ _ Hf)|lia].
Qed.
End termination.

(** ** The claims *)

(** C10: Whatever the interleaving of the tasks, every request of a commit is
    for a mutation of the queue.  A document that was inserted or replaced is
    rewritten in the version that was staged, by its CAS, and in another one
    only after the server has reported a conflict on it; a staged insertion may
    instead be sent as an insertion, and a removal is sent without a CAS.  When
    the commit returns normally, the server has accepted a request for every
    mutation. *)
Theorem unstage_commit_safe env fuel schedule a r a' :
  no_hooks env → unstage fuel committing schedule env a = (r, a') →
  ∃ l, at_log a' = l ++ at_log a ∧
    (∀ l2 req resp l1, l = l2 ++ (req, resp) :: l1 → ∃ item, item ∈ at_staged a ∧ write_of item l1 req) ∧
    (r = Ok tt → ∀ item, item ∈ at_staged a → had_success (sm_id item) l).
Proof.
  intros Hh Hr. pose proof (unstage_commit_writes env Hh fuel schedule a) as Hwp.
  unfold wp in Hwp. rewrite Hr in Hwp. destruct Hwp as (l & Hl & Hlic & Hok). exists l. split_and!; [done| |done].
  intros l2 req resp l1 ->. clear -Hlic. induction l2 as [|e l2 IH]; [by destruct Hlic|]. apply IH. by destruct Hlic.
Qed.

(** C24: Once the transaction has expired, committing and rolling back the
    queue end within eight moves per mutation and one, under every schedule and
    whatever the servers answer, with success or a failure that asks for no
    rollback. *)
Theorem unstage_terminates env fuel d schedule a :
  (∀ k, (at_tick a ≤ k)%nat → overall_expired env k = true) →
  (8 * length (at_staged a) + 1 ≤ fuel)%nat →
  ∃ a', unstage fuel d schedule env a = (Ok tt, a') ∨
        ∃ f, unstage fuel d schedule env a = (Err (operation_failed_thrown f), a') ∧ rollback_ f = false.
Proof.
  intros Hexp Hfuel.
  assert (Hd : wp (unstage fuel d schedule) env (λ r _, r ≠ Diverge) a).
  { unfold unstage. apply wp_bind, wp_gets. cbn [bind_post].
    apply unstage_loop_terminates; [done|apply initial_ok|done|]. unfold measure. cbn. lia. }
  pose proof (unstage_ends env fuel d schedule a) as He. unfold wp in Hd, He.
  destruct (unstage fuel d schedule env a) as [[[]|e| |] a']; cbn [fst snd] in Hd, He; [| |by destruct He|done].
  - exists a'. by left.
  - exists a'. right. destruct He as [_ (f & -> & Hf & _)]. by exists f.
Qed.

(** Two staged mutations; the first write of the replacement conflicts. *)
Definition example_staged : staged_mutation_queue :=
  [StagedMutation INSERT (document_id_of_key [98] [107]) 1 None 0 0 None;
   StagedMutation REPLACE (document_id_of_key [98] [108]) 2 None 0 0 None].

Definition conflict_once (k : nat) (r : request) : response :=
  match r with
  | mutate_in r => if decide (mi_cas r = 2) then response_error (errc_common Common.cas_mismatch) else response_ok
  | _ => response_ok
  end.

(** The loop first, then the tasks in turn *)
Definition round_robin (k : nat) : move := if decide (k < 3)%nat then main_moves else task_moves (Nat.modulo k 2).

Lemma unstage_commit_safe_witness :
  let run := unstage 30 committing round_robin (calm_environment conflict_once) (pending_attempt example_staged) in
  run.1 = Ok tt ∧ length (at_log run.2) = 3%nat ∧ ∃ l, at_log run.2 = l ++ [] ∧
    (∀ l2 req resp l1, l = l2 ++ (req, resp) :: l1 → ∃ item, item ∈ example_staged ∧ write_of item l1 req) ∧
    (run.1 = Ok tt → ∀ item, item ∈ example_staged → had_success (sm_id item) l).
Proof.
  set (run := unstage 30 committing round_robin (calm_environment conflict_once) (pending_attempt example_staged)).
  split; [by vm_compute|]. split; [by vm_compute|].
  by apply (unstage_commit_safe (calm_environment conflict_once) 30 round_robin (pending_attempt example_staged) run.1 run.2);
    [|apply surjective_pairing].
Defined.

Lemma unstage_terminates_witness :
  let env := plain_environment (λ _, true) (λ _ _, response_error (errc_common Common.ambiguous_timeout)) in
  let run := unstage 17 rolling_back round_robin env (pending_attempt example_staged) in
  (∃ a', run = (Ok tt, a') ∨ ∃ f, run = (Err (operation_failed_thrown f), a') ∧ rollback_ f = false) ∧ run.1 ≠ Ok tt.
Proof.
  intros env run. split; [|by vm_compute].
  apply (unstage_terminates env 17 rolling_back round_robin (pending_attempt example_staged)).
  - intros k _. reflexivity.
  - cbn. lia.
Defined.

Lemma unstaging_bounded_witness :
  let env := calm_environment (λ _ _, response_ok) in
  let u := MkUnstaging [posted initial_modes] 1 false None in
  loop_reachable env committing 2 u (pending_attempt example_staged) ∧
  in_flight_count_ u = zsize (unfinished (un_tasks u)).
Proof.
  intros env u.
  assert (Hr : loop_reachable env committing 2 u (pending_attempt example_staged)).
  { by apply (loop_moves env committing 2 (MkUnstaging [] 0 false None) (pending_attempt example_staged) main_moves); [apply loop_starts|..]. }
  split; [done|]. by destruct (unstaging_bounded env committing 2 u _ Hr) as (H & _).
Defined.
