(* ===== verification/AttemptTheorems.v ===== *)
(** * Transaction attempts: theorems

    When an attempt is committed, when it is rolled back and when it is tried
    again; termination of the commit; and the ends of [run]. *)

From S2P Require Import Prelude ByteOrder Protocol McbpParser ClientRequest ClientResponse Commands Transactions Attempt AttemptProofs Unstaging UnstagingProofs.

(** ** The commit point *)

Section commit_point.
Context `{TransactionJsonLaws, Unstaging, !UnstagingLaws} (env : environment) (Hhooks : no_hooks env).

(** What [finalize] adds to the log, and what it reports *)
Definition finalize_outcome (aid : bytes) (l : list (request * response)) (r : outcome exn completion) : Prop :=
  ((∃ e, e ∈ l ∧ commit_write aid e ∧ accepted e) →
     no_abort aid l ∧ match r with Ok c => co_err c = None ∧ co_result c ≠ None | _ => True end) ∧
  (¬ no_abort aid l →
     refused aid l ∧
     (no_ambiguity aid l ∨ has_read aid (Some AttemptState.ABORTED) l ∨ has_read aid None l)).

(** Nothing was committed, and the failure is handled. *)
Lemma handle_outcome aid l l' (r : outcome exn completion) ex :
  commit_outcome aid (A:=unit) l (Err ex) →
  Forall (λ e, ¬ writes_status (entry_prefix aid) AttemptState.COMMITTED e ∧
               ∀ s, ¬ reads_status (entry_prefix aid) s e) l' →
  (match ex with
   | operation_failed_thrown f => rollback_ f = false → l' = []
   | _ => True
   end) →
  no_abort aid l → finalize_outcome aid (l' ++ l) r.
Proof.
  intros [Href Hout] Hl' Hnil Hna. rewrite Forall_forall in Hl'.
  assert (Hcw : ∀ e, e ∈ l' → ¬ commit_write aid e) by (intros e He; by apply (Hl' e He)).
  split.
  - intros (e & He & Hw & Hacc). exfalso. by apply (refused_app aid l l' Href Hcw e).
  - intros Hab. split; [by apply refused_app|].
    assert (Hread : ∀ s, has_read aid s l → has_read aid s (l' ++ l)).
    { intros s (e & He & Hs). exists e. split; [apply elem_of_app; by right|done]. }
    destruct Hout as [(f & -> & Hf)|[-> Hr]]; [|right; right; by apply Hread].
    destruct (rollback_ f) eqn:Hroll.
    + destruct (Hf eq_refl) as [Hn|[Hr|Hr]]; [left; by apply no_ambiguity_app|right; left|right; right]; by apply Hread.
    + exfalso. apply Hab. by rewrite Hnil.
Qed.

Lemma handle_error_wp aid L l ex a :
  at_id a = aid → at_log a = l ++ L → no_abort aid l →
  post_commit ex ∨ commit_outcome aid (A:=unit) l (Err ex) →
  wp (handle_error ex) env (λ r a', at_id a' = aid ∧
    ∃ l', at_log a' = l' ++ L ∧ finalize_outcome aid l' r) a.
Proof.
  intros Hid Hlog Hna [(f & -> & Hroll & Hretry & Hraise)|Hout].
  - unfold handle_error. cbn [convert_op_exception op_exception_cause]. unfold handle_operation_failed. rewrite Hroll, Hretry.
    apply wp_bind, wp_gets. cbn [bind_post]. apply wp_ret. split; [done|]. exists l. split; [done|]. split.
    + intros _. split; [done|]. unfold get_final_exception. by rewrite Hraise.
    + intros Hab. by destruct Hab.
  - assert (Hkeep : ∀ f, ex = operation_failed_thrown f → rollback_ f = false →
      wp (handle_error ex) env (λ r a', at_id a' = aid ∧ ∃ l', at_log a' = l' ++ L ∧ finalize_outcome aid l' r) a).
    { intros f -> Hroll. unfold handle_error. cbn [convert_op_exception op_exception_cause]. unfold handle_operation_failed. rewrite Hroll.
      destruct (retry_ f); [|apply wp_bind, wp_gets; cbn [bind_post]];
        (apply wp_ret; split; [done|]; exists l; split; [done|]; by apply (handle_outcome aid l [] _ _ Hout)). }
    assert (Hroll : (match ex with operation_failed_thrown f => rollback_ f = true | _ => True end) →
      wp (handle_error ex) env (λ r a', at_id a' = aid ∧ ∃ l', at_log a' = l' ++ L ∧ finalize_outcome aid l' r) a).
    { intros Hroll. eapply wp_mono; [by apply (handle_error_adds env aid ex)|].
      intros r a' (Hid' & l' & Hlog' & Hl'). split; [done|]. exists (l' ++ l).
      split; [by rewrite Hlog', Hlog, app_assoc|]. eapply handle_outcome; [done..| |done].
      destruct ex; try done. intros. congruence. }
    destruct ex as [|f| | | | | | | | | | |]; try by apply Hroll.
    destruct (rollback_ f) eqn:Hf; [by apply Hroll|by eapply Hkeep].
Qed.

Lemma finalize_wp fuel a :
  wp (finalize fuel) env (λ r a', at_id a' = at_id a ∧
    ∃ l, at_log a' = l ++ at_log a ∧ finalize_outcome (at_id a) l r) a.
Proof.
  set (aid := at_id a). set (L := at_log a).
  assert (Hna : no_abort aid []) by (intros e He; by apply not_elem_of_nil in He).
  assert (Hquiet : ∀ (r : outcome exn completion) l, no_abort aid l →
    (∀ c, r = Ok c → co_err c = None ∧ co_result c ≠ None) → finalize_outcome aid l r).
  { intros r l Hl Hc. split; [|by intros []]. intros _. split; [done|]. destruct r; [by apply Hc|done..]. }
  unfold finalize. apply wp_bind, wp_catch, wp_bind. unfold existing_error. apply wp_bind, wp_gets. cbn [bind_post].
  destruct (bool_decide _); [apply wp_ret; cbn [bind_post]|].
  2: { destruct (merge_errors _ _); cbn [bind_post]; first [apply wp_throw|apply wp_fault]; cbn [bind_post catch_post];
         try (split; [done|]; exists []; split; [done|]; by apply Hquiet).
       apply wp_bind. eapply wp_mono; [apply (handle_error_wp aid L []); [done..|]; right; apply outcome_nil|].
       by intros [c|e| |] a' Hc; cbn [bind_post]; [apply wp_ret; cbn [bind_post]; apply wp_ret|..]. }
  apply wp_bind, wp_gets. cbn [bind_post]. destruct (at_done a).
  { apply wp_bind, wp_gets. cbn [bind_post]. apply wp_ret. cbn [catch_post bind_post]. apply wp_ret.
    split; [done|]. exists []. split; [done|]. apply Hquiet; [done|]. by intros c [= <-]. }
  apply wp_ret. cbn [catch_post bind_post]. apply wp_bind. unfold commit_callback. apply wp_catch, wp_bind.
  eapply wp_mono; [by apply (commit_wp env Hhooks aid L)|].
  intros r a1 (Hid1 & l & Hlog1 & Hl & Hr).
  assert (Hend : ∀ r : outcome exn completion, (∀ c, r = Ok c → co_err c = None ∧ co_result c ≠ None) →
    at_id a1 = aid ∧ ∃ l, at_log a1 = l ++ L ∧ finalize_outcome aid l r).
  { intros r' Hr'. split; [done|]. exists l. split; [done|]. by apply Hquiet. }
  destruct r as [[]|ex| |]; cbn [bind_post].
  - apply wp_ret. cbn [bind_post catch_post]. apply wp_bind, wp_gets. cbn [bind_post]. apply wp_ret.
    apply Hend. by intros c [= <-].
  - assert (Hh : ∀ ex', post_commit ex' ∨ commit_outcome aid (A:=unit) l (Err ex') →
      wp (on_thread (handle_error ex')) env
        (λ r a', at_id a' = aid ∧ ∃ l, at_log a' = l ++ L ∧ finalize_outcome aid l r) a1).
    { intros ex' Hex'. apply wp_catch. eapply wp_mono; [by apply (handle_error_wp aid L l)|].
      intros [c|[]| |] a2 Hc; cbn [catch_post]; try done. }
    cbn [catch_post]. destruct Hr as [Hr|[->|Hr]].
    + destruct Hr as (f & -> & Hf). cbn. apply (Hh (operation_failed_thrown f)). left. by exists f.
    + apply wp_fault. cbn [bind_post]. by apply Hend.
    + destruct Hr as [Href [(f & -> & Hf)|[-> Hread]]]; cbn [catch_post]; apply wp_ret; cbn [bind_post]; apply Hh.
      * right. split; [done|]. left. by exists f.
      * right. split; [done|]. left. eexists. split; [done|]. intros _. right. by right.
  - cbn [catch_post bind_post]. by apply Hend.
  - cbn [catch_post bind_post]. by apply Hend.
Qed.
End commit_point.

(** C3: In one call of [finalize] (commit, and what follows when it fails),
    once the server has accepted the write of COMMITTED into the attempt's
    record, no request aborts the record and the transaction is not reported
    as failed or retried.  A request that aborts the record is only sent when
    every write of COMMITTED was refused, and either none of the refusals was
    ambiguous or a lookup showed the record aborted (or without a state). *)
Theorem commit_point_is_final `{TransactionJsonLaws, Unstaging, !UnstagingLaws} env fuel a r a' :
  no_hooks env → finalize fuel env a = (r, a') →
  ∃ l, at_log a' = l ++ at_log a ∧
    ((∃ e, e ∈ l ∧ commit_write (at_id a) e ∧ accepted e) →
       no_abort (at_id a) l ∧ ∀ c, r = Ok c → co_err c = None ∧ co_result c ≠ None) ∧
    ((∃ e, e ∈ l ∧ abort_write (at_id a) e) →
       refused (at_id a) l ∧
       (no_ambiguity (at_id a) l ∨ has_read (at_id a) (Some AttemptState.ABORTED) l ∨ has_read (at_id a) None l)).
Proof.
  intros Hhooks Hr. pose proof (finalize_wp env Hhooks fuel a) as Hwp. unfold wp in Hwp. rewrite Hr in Hwp.
  destruct Hwp as (_ & l & Hl & Hc & Ha). exists l. split; [done|]. split.
  - intros He. destruct (Hc He) as [Hna Hrep]. split; [done|]. by intros c ->.
  - intros (e & He & Hw). apply Ha. intros Hna. by apply (Hna e He).
Qed.

(** ** Termination of the commit of the record *)

(** An action of a loop: it keeps to the mode, and time goes on. *)
Definition quiet {A} (env : environment) (m : txn A) : Prop := ∀ a,
  wp m env (λ r a', r ≠ Diverge ∧ at_overtime a' = at_overtime a ∧ (at_tick a ≤ at_tick a')%nat) a.

Section quiet.
Context (env : environment).

Lemma quiet_pure {A} (m : txn A) : (∀ a, (m env a).2 = a ∧ (m env a).1 ≠ Diverge) → quiet env m.
Proof. intros Hm a. destruct (Hm a) as [H1 H2]. unfold wp. by rewrite H1. Qed.

Lemma quiet_ret {A} (x : A) : quiet env (mret x).
Proof. by apply quiet_pure. Qed.
Lemma quiet_throw {A} e : quiet env (throw (A:=A) e).
Proof. by apply quiet_pure. Qed.
Lemma quiet_fault {A} : quiet env (fault (A:=A)).
Proof. by apply quiet_pure. Qed.
Lemma quiet_gets {A} (f : attempt → A) : quiet env (gets f).
Proof. by apply quiet_pure. Qed.
Lemma quiet_asks {A} (f : environment → A) : quiet env (asks f).
Proof. by apply quiet_pure. Qed.
Lemma quiet_question {A} (f : environment → nat → A) : quiet env (question f).
Proof. intros a. split_and!; [done..|]. cbn. lia. Qed.
Lemma quiet_hook h : quiet env (wait_for_hook h).
Proof. apply quiet_question. Qed.
Lemma quiet_execute req : quiet env (execute req).
Proof. intros a. split_and!; [done..|]. cbn. lia. Qed.
Lemma quiet_state s : quiet env (modify (set_state s)).
Proof. intros a. by split_and!. Qed.
Lemma quiet_throw_if ec : quiet env (throw_if ec).
Proof. destruct ec; [apply quiet_throw|apply quiet_ret]. Qed.
Lemma quiet_atr_id : quiet env atr_id_value.
Proof. apply quiet_pure. intros a. unfold atr_id_value, mbind, txn_bind, gets. by destruct (at_atr_id a). Qed.
Lemma quiet_wrap res ignore : quiet env (wrap_operation_future res ignore).
Proof.
  unfold wrap_operation_future. destruct (validate_total res ignore) as [[r ->]|[e ->]]; [apply quiet_ret|apply quiet_throw].
Qed.

Lemma quiet_bind {A B} (m : txn A) (f : A → txn B) : quiet env m → (∀ x, quiet env (f x)) → quiet env (m ≫= f).
Proof.
  intros Hm Hf a. apply wp_bind. eapply wp_mono; [apply Hm|].
  intros [x|e| |] a' (Hd & Ho & Ht); cbn [bind_post]; try done.
  eapply wp_mono; [apply Hf|]. intros r a'' (? & ? & ?). split_and!; [done|congruence|lia].
Qed.
End quiet.

Create HintDb quiet discriminated.
#[export] Hint Resolve quiet_ret quiet_throw quiet_fault quiet_gets quiet_asks quiet_question quiet_hook quiet_execute
  quiet_state quiet_throw_if quiet_atr_id quiet_wrap : quiet.
Ltac quiet_walk :=
  repeat (match goal with
  | |- quiet _ (mbind _ _) => apply quiet_bind; [|intros ?]
  | |- quiet _ (throw_failed _) => apply quiet_throw
  | |- quiet _ (match ?x with _ => _ end) => destruct x
  end || solve [auto with quiet nocore]).

(** A loop whose body does not retry once the time [k] is reached *)
Lemma retry_op_terminates {S A} env (body : S → txn (A + S)) t k fuel s a :
  (∀ s a, at_overtime a = false → (t ≤ at_tick a)%nat → wp (body s) env (λ r a', r ≠ Diverge ∧
     ∀ s', r = Ok (inr s') → at_overtime a' = false ∧ (at_tick a < at_tick a')%nat ∧ (at_tick a < k)%nat) a) →
  at_overtime a = false → (t ≤ at_tick a)%nat → (k - at_tick a < fuel)%nat →
  wp (retry_op fuel body s) env (λ r _, r ≠ Diverge) a.
Proof.
  intros Hb. revert s a. induction fuel as [|fuel IH]; intros s a Ho Ht Hf; [lia|]. cbn [retry_op].
  apply wp_bind. eapply wp_mono; [by apply Hb|]. intros [[x|s']|e| |] a' [Hd Hr]; cbn [bind_post]; try done.
  destruct (Hr s' eq_refl) as (? & ? & ?). apply IH; [done|lia..].
Qed.

Section termination.
Context `{TransactionJson} (env : environment) (k : nat) (Hexp : expired_from env k).

(** After a check for expiry, the rest runs only before [k]. *)
Lemma checked_wp {A} s (m : txn A) (Q : outcome exn A → attempt → Prop) a :
  at_overtime a = false → quiet env m →
  (∀ a', (at_tick a < at_tick a')%nat → Q (Err (client_error_thrown (client_error_of_class FAIL_EXPIRY))) a') →
  (∀ r a', r ≠ Diverge → at_overtime a' = false → (at_tick a < at_tick a')%nat → (at_tick a < k)%nat → Q r a') →
  wp (ec ← error_if_expired_and_not_in_overtime s; _ ← throw_if ec; m) env Q a.
Proof.
  intros Ho Hm Hexpired Hrun. apply wp_bind, wp_error_if_expired; intros Ho'; cbn [bind_post]; [congruence|].
  apply wp_bind, wp_throw_if. destruct (_ || _) eqn:He; cbn [bind_post]; [apply Hexpired; cbn; lia|].
  eapply wp_mono; [apply Hm|]. intros r a' (Hd & Ho'' & Ht). cbn in *. apply Hrun; [done|congruence|lia|].
  apply orb_false_iff in He as [He _]. destruct (decide (at_tick a < k)%nat) as [|Hk]; [done|].
  rewrite Hexp in He; [done|lia].
Qed.

Lemma resolution_terminates fuel a :
  at_overtime a = false → (k - at_tick a < fuel)%nat →
  wp (retry_op fuel (λ _ : unit, catch_retry atr_commit_ambiguity_resolution) tt) env (λ r _, r ≠ Diverge) a.
Proof.
  intros Ho Hf. apply (retry_op_terminates env _ 0 k); [|done|lia|done].
  clear a Ho Hf. intros [] a Ho _. apply wp_catch_retry, wp_catch.
  apply checked_wp; [done| | |].
  - unfold atr_read_status. quiet_walk.
  - intros a'' Ht. by cbn.
  - intros [x|ex| |] a'' Hd Ho' Ht Hk; try done; cbn [catch_post].
    destruct ex; try done; cbn [catch_post]. unfold resolution_handler.
    destruct (ce_ec e); apply wp_throw; try done; (split; [done|]; intros [] _; done).
Qed.

Lemma atr_commit_ends fuel mode a :
  at_overtime a = false → (k - at_tick a < fuel)%nat → wp (atr_commit fuel mode) env (λ r _, r ≠ Diverge) a.
Proof.
  intros Ho Hf. apply (retry_op_terminates env _ (at_tick a) k); [|done|lia|done].
  intros mode' a' Ho' Ht'. apply wp_catch, wp_bind.
  unfold atr_commit_try. apply wp_bind, wp_gets. cbn [bind_post]. apply wp_bind, wp_atr_id_value; [|done].
  intros id _. cbn [bind_post]. apply wp_bind, wp_asks. cbn [bind_post]. apply checked_wp; [done| | |].
  - quiet_walk.
  - intros a2 _. cbn [bind_post catch_post atr_commit_handler ce_ec client_error_of_class].
    apply wp_bind, wp_modify. cbn [bind_post]. by apply wp_throw.
  - intros [[]|ex| |] a2 Hd Ho2 Ht2 Hk; try done; cbn [bind_post catch_post].
    destruct ex; try done; cbn [bind_post catch_post]. unfold atr_commit_handler.
    destruct (ce_ec e); try (apply wp_throw; done); try (destruct mode'; [|by apply wp_throw]);
      try (apply wp_ret; split; [done|]; intros mode2 [= <-]; by split_and!).
    + apply wp_bind. eapply wp_mono; [apply resolution_terminates; [done|lia]|].
      by intros [[]|?| |] a3 Hd3; cbn [bind_post].
    + apply wp_bind, wp_modify. cbn [bind_post]. by apply wp_throw.
Qed.
End termination.

(** With a deadline that passes, committing the record of an attempt that
    is not in overtime ends, whatever the servers and the hooks answer: enough
    fuel is one more than the number of questions before the deadline. *)
Theorem atr_commit_terminates `{TransactionJson} env fuel mode k a :
  (∀ k', (k ≤ k')%nat → overall_expired env k' = true) →
  at_overtime a = false → (k - at_tick a < fuel)%nat →
  (atr_commit fuel mode env a).1 ≠ Diverge.
Proof. intros Hexp Ho Hf. exact (atr_commit_ends env k Hexp fuel mode a Ho Hf). Qed.

(** ** The record whose creation is ambiguous *)

Section pending.
Context `{TransactionJson} (env : environment) (Hhooks : no_hooks env).

(** The last answer says that the path exists. *)
Definition last_exists (a : attempt) : Prop :=
  ∃ e l, at_log a = e :: l ∧ error_class_from_response e.2 = Ok (Some FAIL_PATH_ALREADY_EXISTS).

(** What a creation that is reported as a success leaves behind *)
Definition pending_post (r : outcome exn (option operation_failure + unit)) (a : attempt) : Prop :=
  at_is_query a = false ∧ at_overtime a = false ∧
  match r with
  | Ok (inl None) => at_state a = AttemptState.PENDING ∨ (at_state a = AttemptState.NOT_STARTED ∧ last_exists a)
  | Ok (inr _) => at_state a = AttemptState.NOT_STARTED ∧ at_staged a = []
  | _ => True
  end.

Lemma set_atr_pending_request_wp a :
  at_state a = AttemptState.NOT_STARTED → at_is_query a = false → at_overtime a = false → at_staged a = [] →
  wp set_atr_pending_request env (λ r a', (∃ x, r = Ok (inl (Some x))) ∨ (∃ e, r = Err e) ∨ r = Fault ∨ r = Diverge ∨ pending_post r a') a.
Proof.
  intros Hs Hq Ho Hst. unfold set_atr_pending_request. apply wp_bind, wp_gets. cbn [bind_post].
  apply wp_bind, wp_wait_for_hook; [done|]. cbn [bind_post]. apply wp_bind, wp_question. cbn [bind_post].
  do 3 (apply wp_bind, wp_asks; cbn [bind_post]). apply wp_bind, wp_atr_id_value; [|intros _; cbn [bind_post]; eauto]. intros id _. cbn [bind_post].
  apply wp_bind, wp_execute. cbn [bind_post]. set (resp := reply _ _ _).
  destruct (error_class_from_response resp) as [[ec|]|e| |] eqn:Hec;
    [|apply wp_bind, wp_wait_for_hook; [done|]; cbn [bind_post]; apply wp_bind, wp_modify; cbn [bind_post];
      apply wp_ret; repeat right; split_and!; [done..|by left]|apply wp_throw; eauto|apply wp_fault; eauto|apply wp_diverge; eauto].
  unfold atr_pending_error. apply wp_bind, wp_gets. cbn [bind_post]. rewrite Ho at 1. cbn.
  destruct ec; try (apply wp_ret; eauto); try (apply wp_bind, wp_modify; cbn [bind_post]; apply wp_ret; eauto);
    repeat right; split_and!; try done.
  right. split; [done|]. eexists _, _. split; [done|]. exact Hec.
Qed.

Lemma select_atr_wp fuel atr_id a :
  at_atr_id a = None → at_is_query a = false → at_overtime a = false → at_staged a = [] →
  wp (select_atr_if_needed_unlocked fuel atr_id) env (λ r a', r = Ok (Some None) →
    at_is_query a' = false ∧ at_overtime a' = false ∧
    (at_state a' = AttemptState.PENDING ∨ (at_state a' = AttemptState.NOT_STARTED ∧ last_exists a'))) a.
Proof.
  intros Hid Hq Ho Hst. unfold select_atr_if_needed_unlocked. apply wp_bind, wp_gets. cbn [bind_post]. rewrite Hid.
  cbn [has]. apply wp_bind, wp_modify. cbn [bind_post]. apply wp_bind, wp_modify. cbn [bind_post].
  apply (wp_retry_op env _ (λ _ a, at_state a = AttemptState.NOT_STARTED ∧ at_is_query a = false ∧ at_overtime a = false ∧ at_staged a = []));
    [|done|done].
  clear a Hid Hq Ho Hst. intros [] a (Hs & Hq & Ho & Hst). apply wp_bind, wp_gets. cbn [bind_post]. rewrite Hst.
  cbn [Queue.empty negb]. apply wp_bind, wp_gets. cbn [bind_post]. destruct (at_atr_id a); cbn [has negb]; [|by apply wp_ret].
  apply wp_bind, wp_error_if_expired; intros _; cbn [bind_post];
    [|destruct (_ || _); [by apply wp_ret|]];
    apply wp_bind; (eapply wp_mono; [by apply set_atr_pending_request_wp|]);
    intros r a' [[x ->]|[[e ->]|[->|[->|(Hq' & Ho' & Hp)]]]]; cbn [bind_post]; try done;
    destruct r as [[[x|]|[]]|e| |]; try done; cbn [bind_post]; apply wp_ret; try done; by destruct Hp.
Qed.

(** A rollback in the initial state sends nothing, and the cleanup is not
    told of the attempt. *)
Lemma rollback_not_started `{Unstaging} a :
  op_count (at_ops a) = 0 → at_is_query a = false → at_state a = AttemptState.NOT_STARTED →
  wp rollback env (λ r a', r = Ok tt ∧ at_log a' = at_log a ∧ add_to_cleanup a' = false) a.
Proof.
  intros Hc Hq Hs. unfold rollback. apply wp_bind, wp_wait_and_block; intros Hc'; [|by destruct Hc'].
  cbn [bind_post]. apply wp_bind, wp_gets. cbn [bind_post set_ops at_is_query]. rewrite Hq.
  apply wp_bind, wp_check_expiry_during; intros _; cbn [bind_post];
    [|destruct (_ || _)]; do 2 (apply wp_bind, wp_gets; cbn [bind_post]);
    cbn [at_state set_overtime next_tick set_ops]; rewrite Hs, bool_decide_true, orb_true_r by done;
    apply wp_modify; (split; [done|]); split; try done; unfold add_to_cleanup; cbn; by rewrite Hs.
Qed.
End pending.

(** When the creation of the record of an attempt succeeds, the attempt is
    PENDING, or the last answer was that the entry exists already (as it is
    after an ambiguous first try).  In this case the attempt is still
    NOT_STARTED: a rollback, when no operation is in flight, sends nothing and the attempt is not queued for
    cleaning, although the record holds it as pending. *)
Theorem created_record_forgotten `{TransactionJson, Unstaging} env fuel atr_id a a' :
  no_hooks env → at_atr_id a = None → at_is_query a = false → at_overtime a = false → at_staged a = [] →
  select_atr_if_needed_unlocked fuel atr_id env a = (Ok (Some None), a') →
  at_state a' = AttemptState.PENDING ∨
  (at_state a' = AttemptState.NOT_STARTED ∧ last_exists a' ∧
   ∀ ops, op_count ops = 0 →
   ∃ a'', rollback env (set_ops ops a') = (Ok tt, a'') ∧ at_log a'' = at_log a' ∧ add_to_cleanup a'' = false).
Proof.
  intros Hh Hid Hq Ho Hst Hr. pose proof (select_atr_wp env Hh fuel atr_id a Hid Hq Ho Hst) as Hwp.
  unfold wp in Hwp. rewrite Hr in Hwp. destruct (Hwp eq_refl) as (Hq' & _ & [Hp|[Hs Hl]]); [by left|right].
  split_and!; [done..|]. intros ops Hops. pose proof (rollback_not_started env (set_ops ops a') Hops Hq' Hs) as Hroll.
  unfold wp in Hroll. destruct (rollback env (set_ops ops a')) as [r a'']. destruct Hroll as (Hok & Hlog & Hcl). cbn in *. exists a''. by rewrite Hok.
Qed.

(** ** The loop over attempts *)

Section run.
Context `{TransactionJson, Unstaging} (env : environment) (fuel : nat) (uid : nat → bytes) (logic : nat → txn unit).

Lemma bind_ext_wp {A B} (m : txn A) (f g : A → txn B) (P : A → Prop) a :
  wp m env (λ r _, ∀ x, r = Ok x → P x) a →
  (∀ x a', P x → f x env a' = g x env a') → (m ≫= f) env a = (m ≫= g) env a.
Proof.
  unfold wp, mbind, txn_bind. destruct (m env a) as [[x|e| |] a']; cbn; try done. intros HP Hf. by apply Hf, HP.
Qed.

Lemma bind_ext {A B} (m : txn A) (f g : A → txn B) a :
  (∀ x a', True → f x env a' = g x env a') → (m ≫= f) env a = (m ≫= g) env a.
Proof. by apply bind_ext_wp. Qed.

(** The delay after [j] calls *)
Definition delay_calls (j : nat) (d : exp_delay) : Prop :=
  match j with
  | O => d = ExpDelay 0 None
  | S j => ed_retries d = Z.of_nat j ∧ ed_end_time d ≠ None ∧ (j ≤ 100)%nat
  end.

Lemma exp_delay_call_wp timeout j d a :
  delay_calls j d →
  wp (exp_delay_call timeout d) env (λ r _,
    match r with
    | Ok d' => delay_calls (S j) d' ∧ (j ≤ 100)%nat
    | Err e => e = retry_operation_retries_exhausted ∨ e = retry_operation_timeout
    | _ => False
    end) a.
Proof.
  intros Hd. unfold exp_delay_call. apply wp_bind, wp_question. cbn [bind_post].
  case_decide as Hmax; [apply wp_throw; by left|]. destruct j as [|j]; cbn [delay_calls] in Hd.
  - subst d. cbn [ed_end_time]. apply wp_bind, wp_question. cbn [bind_post]. apply wp_ret. split; [|lia]. split_and!; [done..|lia].
  - destruct Hd as (Hr & He & Hj). destruct (ed_end_time d) as [e|]; [|done].
    case_decide; [apply wp_throw; by right|]. apply wp_ret. unfold exp_delay_max_retries in Hmax.
    split; [|lia]. cbn [delay_calls ed_retries ed_end_time]. split_and!; [|done|lia].
    rewrite Hr. rewrite Prelude.wrap_small by (unfold in_width; lia). lia.
Qed.

(** The number of attempts is bounded by the delay, not by the argument. *)
Lemma wrap_run_bound n n' i j d a :
  delay_calls j d → (102 ≤ n + j)%nat → (102 ≤ n' + j)%nat →
  wrap_run fuel n uid logic i d env a = wrap_run fuel n' uid logic i d env a.
Proof.
  revert n' i j d a. induction n as [|n IH]; intros n' i j d a Hd Hn Hn';
    [destruct j; [lia|destruct Hd as (_ & _ & ?); lia]|].
  destruct n' as [|n']; [destruct j; [lia|destruct Hd as (_ & _ & ?); lia]|]. cbn [wrap_run].
  apply bind_ext. intros timeout a0 _. apply bind_ext_wp with (P := λ r, ∀ d', r = inl d' → delay_calls (S j) d' ∧ (j ≤ 100)%nat).
  { apply wp_catch, wp_bind. eapply wp_mono; [by apply exp_delay_call_wp|].
    intros [d'|e| |] a1 Hd'; cbn [bind_post catch_post]; try done; apply wp_ret; intros x [= <-]; [|done].
    by intros d2 [= <-]. }
  intros [d'|e] a1 Hd'; [|done]. destruct (Hd' d' eq_refl) as [Hd2 Hj]. do 3 (apply bind_ext; intros ? ? _).
  case_match; [|done]. case_match. case_match; [done|]. case_match; [done|]. apply (IH n' (S i) (S j)); [done|lia..].
Qed.
End run.

(** A transaction is tried at most 101 times: the loop of [run] does not
    depend on its bound of a thousand attempts, since from 102 on every bound
    gives the same result. *)
Theorem run_attempts_bounded `{TransactionJson, Unstaging} env fuel n uid logic a :
  (102 ≤ n)%nat → wrap_run fuel n uid logic 0 (ExpDelay 0 None) env a = run fuel uid logic env a.
Proof. intros Hn. apply (wrap_run_bound _ _ _ _ _ _ _ 0); [done|lia|unfold max_attempts; lia]. Qed.

(** *** A transaction that is always retried *)

Section retries.
Context `{TransactionJson, Unstaging} (env : environment) (fuel : nat) (uid : nat → bytes) (f : operation_failure).
Context (Hretry : retry_ f = true) (Hexpired : ∀ k, overall_expired env k = false)
  (Hhook : ∀ k s, hook_expired env k s = false) (Hnow : ∀ k k', now env k' ≤ now env k + 2 * config_timeout env).

Lemma fresh_retries id a :
  wp (handle_error (operation_failed_thrown f)) env
    (λ r a', r = Ok (Completion None None) ∧ at_id a' = id) (fresh_attempt id a).
Proof.
  unfold handle_error. cbn [convert_op_exception op_exception_cause]. unfold handle_operation_failed. rewrite Hretry.
  destruct (rollback_ f); [|by apply wp_ret]. apply wp_bind, wp_catch, wp_bind.
  unfold rollback. apply wp_bind, wp_wait_and_block; intros Hc; [|by destruct Hc]. cbn [bind_post].
  apply wp_bind, wp_gets. cbn [bind_post fresh_attempt at_is_query set_ops].
  apply wp_bind, wp_check_expiry_during; intros Ho; cbn [bind_post]; [by cbn in Ho|].
  rewrite Hexpired, Hhook. cbn [orb]. do 2 (apply wp_bind, wp_gets; cbn [bind_post]).
  cbn [has_atr next_tick fresh_attempt set_ops at_atr_id negb orb]. apply wp_modify. cbn [bind_post].
  apply wp_ret. cbn [catch_post bind_post negb]. apply wp_bind, wp_question. cbn [bind_post]. rewrite Hexpired.
  by apply wp_ret.
Qed.

Lemma retried_run i n d a :
  delay_calls i d → (∀ e k, ed_end_time d = Some e → now env k ≤ e) → (i ≤ 101)%nat → (102 ≤ n + i)%nat →
  (0 < i → at_id a = uid (i - 1))%nat →
  wp (wrap_run fuel n uid (λ _, throw_failed f) i d) env
    (λ r a', r = Ok (run_escapes retry_operation_retries_exhausted) ∧ at_id a' = uid 100%nat) a.
Proof.
  revert i d a. induction n as [|n IH]; intros i d a Hd He Hi Hn Hid; [lia|]. cbn [wrap_run].
  apply wp_bind, wp_asks. cbn [bind_post]. apply wp_bind, wp_catch, wp_bind. unfold exp_delay_call.
  apply wp_bind, wp_question. cbn [bind_post]. unfold exp_delay_max_retries.
  assert (Hnext : ∀ d' a', delay_calls (S i) d' → (i ≤ 100)%nat → (∀ e k, ed_end_time d' = Some e → now env k ≤ e) →
    wp (_ ← modify (fresh_attempt (uid i));
        thrown ← catch (_ ← throw_failed (A:=unit) f; mret None) (λ e, Some (mret (Some e)));
        c ← catch (c ← match thrown with Some e => handle_error e | None => finalize fuel end; mret (inl c))
              (λ e, Some (mret (inr e)));
        match c with
        | inr e => mret (run_escapes e)
        | inl (Completion _ (Some res)) => mret (run_returns res)
        | inl (Completion (Some e) None) => mret (run_throws e)
        | inl (Completion None None) => wrap_run fuel n uid (λ _, throw_failed f) (S i) d'
        end) env (λ r a', r = Ok (run_escapes retry_operation_retries_exhausted) ∧ at_id a' = uid 100%nat) a').
  { intros d' a' Hd' Hi' He'. apply wp_bind, wp_modify. cbn [bind_post].
    apply wp_bind, wp_catch, wp_bind, wp_throw. cbn [bind_post catch_post]. apply wp_ret. cbn [bind_post].
    apply wp_bind, wp_catch, wp_bind. eapply wp_mono; [apply fresh_retries|]. intros r a2 [-> Hid2].
    cbn [bind_post]. apply wp_ret. cbn [catch_post bind_post]. apply IH; [done..|lia|lia|].
    intros _. rewrite Hid2. f_equal. lia. }
  destruct i as [|i]; cbn [delay_calls] in Hd.
  - subst d. cbn [ed_retries ed_end_time]. rewrite decide_False by lia. apply wp_bind, wp_question. cbn [bind_post].
    apply wp_ret. cbn [bind_post]. apply wp_ret. cbn [catch_post bind_post]. apply Hnext; [by split_and!; [..|lia]|lia|].
    intros e k [= <-]. apply Hnow.
  - destruct Hd as (Hr & Hsome & Hle). destruct (ed_end_time d) as [e|] eqn:Hend; [|done].
    rewrite Hr. case_decide.
    + apply wp_throw. cbn [bind_post catch_post]. apply wp_ret. cbn [bind_post]. apply wp_ret. split; [done|].
      cbn [next_tick at_id]. rewrite Hid by lia. f_equal. lia.
    + rewrite decide_False by (pose proof (He e (at_tick a) eq_refl); lia).
      apply wp_ret. cbn [bind_post]. apply wp_ret. cbn [catch_post bind_post]. apply Hnext; [|lia|].
      * cbn [delay_calls ed_retries ed_end_time]. rewrite Prelude.wrap_small by (unfold in_width; lia).
        split_and!; [lia|done|lia].
      * cbn [ed_end_time]. intros e' k [= <-]. by apply He.
Qed.
End retries.

(** A transaction that can never succeed, because every attempt asks for a
    retry in time, does not end with a result or a [transaction_exception]:
    [retry_operation_retries_exhausted] leaves [run] after attempt 100, and
    the asynchronous [run], which only catches [transaction_exception] on its
    thread, terminates the process. *)
Theorem run_retries_terminate_process `{TransactionJson, Unstaging} env fuel uid f a :
  retry_ f = true → (∀ k, overall_expired env k = false) → (∀ k s, hook_expired env k s = false) →
  (∀ k k', now env k' ≤ now env k + 2 * config_timeout env) →
  ∃ a', run fuel uid (λ _, throw_failed f) env a = (Ok (run_escapes retry_operation_retries_exhausted), a') ∧
        at_id a' = uid 100%nat ∧
        run_async fuel uid (λ _, throw_failed f) env a = (Fault, a').
Proof.
  intros Hretry Hexp Hhook Hnow.
  pose proof (retried_run env fuel uid f Hretry Hexp Hhook Hnow 0 max_attempts (ExpDelay 0 None) a) as Hwp.
  unfold wp in Hwp. unfold run_async, run, mbind, txn_bind.
  destruct (wrap_run _ _ _ _ _ _ env a) as [r a']. cbn [fst snd] in Hwp.
  destruct Hwp as [-> Hid]; [done|done|lia|unfold max_attempts; lia|lia|]. by exists a'.
Qed.

(** ** Witnesses *)

#[local] Existing Instance quoting.
#[local] Existing Instance quoting_laws.
#[local] Instance example_unstaging : Unstaging := unstaging_of 30 round_robin round_robin.

Lemma calm_no_hooks answer : no_hooks (calm_environment answer).
Proof. done. Qed.

Lemma commit_point_is_final_witness :
  let a := pending_attempt example_staged in
  let run := finalize 10 (calm_environment (λ _ _, response_ok)) a in
  run.1 = Ok (Completion None (Some true)) ∧
  (∃ e, e ∈ at_log run.2 ∧ commit_write (at_id a) e ∧ accepted e) ∧ no_abort (at_id a) (at_log run.2).
Proof.
  intros a run. split; [by vm_compute|].
  assert (Hc : ∃ e, e ∈ at_log run.2 ∧ commit_write (at_id a) e ∧ accepted e).
  { set (log := at_log run.2). vm_compute in log. eexists. split; [|split].
    - apply list_elem_of_lookup_2 with 3%nat. reflexivity.
    - eexists. split; [by left|]. by split.
    - eexists. reflexivity. }
  split; [done|].
  destruct (commit_point_is_final (calm_environment (λ _ _, response_ok)) 10 a run.1 run.2 (calm_no_hooks _)
    (surjective_pairing _)) as (l & Hl & Hcommitted & _).
  rewrite app_nil_r in Hl. rewrite Hl in *. by apply Hcommitted.
Defined.

(** The deadline passes at the fifth question; every answer is ambiguous. *)
Lemma atr_commit_terminates_witness :
  let env := plain_environment (λ k, 5 <=? k)%nat (λ _ _, response_error (errc_common Common.ambiguous_timeout)) in
  (atr_commit 6 false env (pending_attempt [])).1 ≠ Diverge.
Proof.
  intros env. apply (atr_commit_terminates env 6 false 5); [|done|cbn; lia].
  intros k Hk. by apply Nat.leb_le.
Defined.

(** The first answer is ambiguous, the second that the entry exists. *)
Lemma created_record_forgotten_witness :
  let env := calm_environment (λ k _, if (k <? 5)%nat then response_error (errc_common Common.ambiguous_timeout)
                                      else response_error (errc_key_value KeyValue.path_exists)) in
  let a := fresh_attempt [97] (pending_attempt []) in
  let run := select_atr_if_needed_unlocked 2 (document_id_of_key [98] [114]) env a in
  run.1 = Ok (Some None) ∧ at_state run.2 = AttemptState.NOT_STARTED ∧
  ∃ a', rollback env (set_ops new_op_list run.2) = (Ok tt, a') ∧ at_log a' = at_log run.2 ∧ add_to_cleanup a' = false.
Proof.
  intros env a run. split; [by vm_compute|].
  destruct (created_record_forgotten env 2 (document_id_of_key [98] [114]) a run.2) as [Hp|(Hs & _ & Hr)];
    [done..|by vm_compute|by vm_compute in Hp|split; [done|by apply Hr]].
Defined.

Lemma run_attempts_bounded_witness :
  let env := calm_environment (λ _ _, response_ok) in
  wrap_run 1 102 (λ _, [97]) (λ _, mret tt) 0 (ExpDelay 0 None) env (pending_attempt []) =
  run 1 (λ _, [97]) (λ _, mret tt) env (pending_attempt []).
Proof. intros env. by apply (run_attempts_bounded env 1 102). Defined.

Lemma run_retries_terminate_process_witness :
  let env := calm_environment (λ _ _, response_ok) in
  (run_async 1 (λ _, [97]) (λ _, throw_failed (retry (operation_failed FAIL_TRANSIENT))) env (pending_attempt [])).1 = Fault.
Proof.
  intros env.
  destruct (run_retries_terminate_process env 1 (λ _, [97]) (retry (operation_failed FAIL_TRANSIENT)) (pending_attempt []))
    as (a' & _ & _ & Hr); [done..|cbn; lia|]. by rewrite Hr.
Defined.
