(* ===== verification/TransactionOps.v ===== *)
(** * Operations of an attempt: [core/transactions/attempt_context_impl.cxx]

    Reading documents, and staging insertions, replacements and removals.  An
    operation calls its callback, which [at_calls] counts, and its action
    returns what the callback gets: [None] when it gets an exception.

    Requests are answered on the thread of an event loop.  An exception
    reaches a handler of the caller only before the first answer
    ([try_sync]); behind it no function catches it and it terminates the
    process, like everywhere in [Attempt.v].  What is retried without a bound
    has fuel. *)

From S2P Require Import Prelude ByteOrder Protocol McbpParser ClientRequest ClientResponse Commands Topology AtrIds Transactions TransactionLinks Attempt.

(** ** Exceptions and threads *)

(** A pure function that may throw a [std::exception] *)
Definition lift {A} (o : thrown A) : txn A :=
  match o with
  | Ok x => mret x
  | Err _ => throw runtime_error
  | Fault => fault
  | Diverge => diverge
  end.

(** [try] on the thread of the caller: the handler is not there any more once
    a request was answered. *)
Definition try_sync {A} (m : txn A) (handler : exn → option (txn A)) : txn A := λ env a,
  match m env a with
  | (Err e, a') =>
      if (length (at_log a') =? length (at_log a))%nat then
        match handler e with Some h => h env a' | None => (Err e, a') end
      else (Err e, a')
  | r => r
  end.

(** A handler that an event loop calls *)
Definition on_event_loop {A} (m : txn A) : txn A := catch m (λ _, Some fault).

(** The types derived from [std::exception] *)
Definition catches_std {A} (m : txn A) (e : exn) : option (txn A) :=
  match e with unknown_exception => None | _ => Some m end.

(** ** Completing an operation *)

Definition modify_ops (f : op_list → option op_list) : txn unit :=
  modify (λ a, match f (at_ops a) with Some l => set_ops l a | None => a end).

(** [op_completed_with_error], [op_completed_with_callback]: the callback
    throws nothing; [async_operation_conflict] is swallowed. *)
Definition op_completed_with_error {A} (e : exn) : txn (option A) :=
  _ ← match e with operation_failed_thrown f => modify (push_error f) | _ => mret tt end;
  _ ← modify_ops (λ l, Some (decrement_in_flight l));
  _ ← modify (push_call (Some e));
  _ ← modify_ops decrement_ops;
  mret None.

Definition op_completed_with_callback {A} (x : A) : txn (option A) :=
  _ ← modify_ops (λ l, Some (decrement_in_flight l));
  _ ← modify (push_call None);
  _ ← modify_ops decrement_ops;
  mret (Some x).

Definition fail_operation {A} (f : operation_failure) : txn (option A) :=
  op_completed_with_error (operation_failed_thrown f).

(** The failure of an operation that comes after the end of its attempt *)
Definition conflict_failure (s : attempt_state) : operation_failure :=
  cause (match s with
         | AttemptState.ABORTED | AttemptState.ROLLED_BACK => TRANSACTION_ALREADY_ABORTED
         | AttemptState.COMMITTED | AttemptState.COMPLETED => TRANSACTION_ALREADY_COMMITTED
         | _ => UNKNOWN
         end) (operation_failed FAIL_OTHER).

(** The handlers of [cache_error_async] behind that of [async_operation_conflict] *)
Definition cache_error_handler {A} (e : exn) : option (txn (option A)) :=
  match e with
  | operation_failed_thrown f =>
      Some (if bool_decide (cause_ f = PREVIOUS_OPERATION_FAILED) || bool_decide (cause_ f = FEATURE_NOT_AVAILABLE_EXCEPTION)
            then op_completed_with_error e else mret None)
  | unknown_exception => None
  | _ => Some (match op_exception_cause e with
               | Some _ => op_completed_with_error e
               | None => fail_operation (operation_failed FAIL_OTHER)
               end)
  end.

Definition cache_error_async {A} (func : txn (option A)) : txn (option A) :=
  l ← gets at_ops;
  match increment_ops l with
  | None =>
      s ← gets at_state;
      _ ← modify (push_call (Some (operation_failed_thrown (conflict_failure s))));
      mret None
  | Some l =>
      _ ← modify (set_ops l);
      before ← gets (λ a, length (at_log a));
      catch (try_sync (_ ← existing_error true; func) cache_error_handler)
        (λ e, Some (after ← gets (λ a, length (at_log a));
                    if (after =? before)%nat then throw e else fault))
  end.

(** It completes the operation, and the caller goes on. *)
Definition check_if_done : txn unit :=
  is_done ← gets at_done;
  if (is_done : bool) then
    _ ← fail_operation (A:=unit) (no_rollback (operation_failed FAIL_OTHER)); mret tt
  else mret tt.

(** [ensure_open_bucket]: the handler of a bucket that is opened now is called
    by an event loop. *)
Definition ensure_open_bucket {A} (bucket_name : bytes) (handler : option error_code → txn A) : txn A :=
  if decide (bucket_name = []) then handler (Some (errc_common Common.bucket_not_found))
  else
    r ← question open_bucket;
    let '(was_open, ec) := (r : bool * option error_code) in
    if was_open then handler ec else on_event_loop (handler ec).

(** What a future behind the callback returns: [calls] were made before. *)
Definition blocking {A} (op : txn (option A)) : txn A :=
  calls ← gets at_calls;
  r ← op;
  calls' ← gets at_calls;
  match last (take (length calls' - length calls) calls') with
  | None => diverge
  | Some (Some e) => throw e
  | Some None => match r with Some x => mret x | None => fault end
  end.

(** The operations of an attempt that executes queries, which are not modelled *)
Class QueryMode `{Json} := {
  get_with_query : document_id → bool → txn (option (option transaction_get_result));
  insert_raw_with_query : document_id → encoded_value → txn (option transaction_get_result);
  replace_raw_with_query : transaction_get_result → encoded_value → txn (option transaction_get_result);
  remove_with_query : transaction_get_result → txn (option unit);
}.

Section operations.
Context `{Json, !QueryMode}.

(** ** Reading a document *)

(** [external_exception_from_response]: the paths of the fields are those of
    the specs; [at] of a vector is checked. *)
Definition external_exception_from_response (specs : list subdoc_command) (resp : response) :
    thrown external_exception :=
  if decide (resp_ec resp = Some (errc_key_value KeyValue.document_irretrievable)) then Ok DOCUMENT_UNRETRIEVABLE_EXCEPTION
  else
    match resp_first_error_index resp with
    | None => Ok UNKNOWN
    | Some i =>
        match (if decide (0 ≤ i) then resp_fields resp !! Z.to_nat i else None) with
        | None => Err tt
        | Some (_, status) =>
            if bool_decide (status = enum_code Status.subdoc_value_cannot_insert) &&
               bool_decide (sc_path <$> specs !! Z.to_nat i = Some STAGED_BINARY_DATA)
            then Ok FEATURE_NOT_AVAILABLE_EXCEPTION else Ok UNKNOWN
        end
    end.

(** [error_class_from_response] for lookups *)
Definition lookup_error_class (resp : response) : option error_class :=
  (λ ec, default FAIL_OTHER (error_class_of_code ec)) <$> resp_ec resp.

(** The arguments of the callbacks of [get_doc] and [do_get] without the
    message *)
Record get_outcome := GetOutcome {
  go_ec : option error_class;
  go_cause : option external_exception;
  go_doc : option transaction_get_result;
}.
Definition get_failed (ec : error_class) : get_outcome := GetOutcome (Some ec) None None.
Definition get_nothing : get_outcome := GetOutcome None None None.
Definition get_document (doc : transaction_get_result) : get_outcome := GetOutcome None None (Some doc).

Definition execute_lookup (id : document_id) (req : request) : txn get_outcome :=
  resp ← execute req;
  match lookup_error_class resp with
  | Some ec =>
      c ← lift (external_exception_from_response get_doc_specs resp);
      doc ← match ec with
            | FAIL_PATH_NOT_FOUND => d ← lift (create_from_subdoc id resp); mret (Some d)
            | _ => mret None
            end;
      mret (GetOutcome (Some ec) (Some c) doc)
  | None => d ← lift (create_from_subdoc id resp); mret (get_document d)
  end.

Definition get_doc (id : document_id) (allow_replica : bool) : txn get_outcome :=
  if allow_replica then
    config ← question bucket_capabilities;
    match config with
    | inl _ => mret (get_failed FAIL_OTHER)
    | inr caps =>
        execute_lookup id (lookup_in_any_replica id get_doc_specs (Capability.supports_subdoc_access_deleted caps))
    end
  else execute_lookup id (lookup_in id get_doc_specs true).

(** [check_for_own_write], and the content it is used for *)
Definition check_for_own_write (id : document_id) (staged : staged_mutation_queue) : option staged_mutation :=
  match Queue.find_replace id staged with
  | Some (_, m) => Some m
  | None => snd <$> Queue.find_insert id staged
  end.
Definition own_write_content (id : document_id) (staged : staged_mutation_queue) : option transaction_get_result :=
  m ← check_for_own_write id staged;
  content ← sm_staged_content m;
  Some (TransactionGetResult (sm_id m) (EncodedValue content (sm_staged_flags m)) (sm_cas m) no_links None).

(** The four members that name a record; [value] throws when one is missing. *)
Definition links_atr_id (l : transaction_links) : thrown document_id :=
  bucket ← of_option (tl_atr_bucket_name l);
  scope ← of_option (tl_atr_scope_name l);
  collection ← of_option (tl_atr_collection_name l);
  key ← of_option (tl_atr_id l);
  Ok (document_id_in bucket scope collection key).

(** [active_transaction_record::get_atr] *)
Definition get_atr (id : document_id) : txn (error_code + option active_transaction_record) :=
  resp ← execute (lookup_in id get_atr_specs false);
  lift (get_atr_result id resp).

(** What a document shows of a transaction whose entry was found *)
Definition resolve_entry (doc : transaction_get_result) (aid : bytes) (entry : atr_entry) : txn get_outcome :=
  let l := tg_links doc in
  if decide (ae_attempt_id entry = aid) then mret (get_document (create_from doc (staged_content_json_or_binary l)))
  else
    err ← lift (check_forward_compat GETS_READING_ATR (ae_forward_compat entry));
    mret (match err with
          | Some f => GetOutcome (Some FAIL_OTHER) (Some (cause_ f)) None
          | None =>
              match ae_state entry with
              | AttemptState.COMPLETED | AttemptState.COMMITTED =>
                  if is_document_being_removed l then get_nothing
                  else get_document (create_from doc (staged_content_json_or_binary l))
              | _ => if is_document_being_inserted l then get_nothing else get_document (create_from doc (tg_content doc))
              end
          end).

(** The entry of the attempt that staged the document; the loop asks for its
    identifier when there is an entry to compare it with. *)
Definition staged_entry (l : transaction_links) (record : active_transaction_record) : thrown (option atr_entry) :=
  match ar_entries record, tl_staged_attempt_id l with
  | [], _ => Ok None
  | _ :: _, Some attempt_id => Ok (find_entry attempt_id record)
  | _ :: _, None => Err tt
  end.

(** What [do_get] does with a document: the result, or the attempt whose entry
    is missing, with which the document is read again.  [get_atr] catches what
    its callback throws, and calls it again with an error. *)
Definition resolve_document (doc : transaction_get_result) (resolving_missing_atr_entry : option bytes) :
    txn (get_outcome + option bytes) :=
  let l := tg_links doc in
  aid ← gets at_id;
  if negb (is_document_in_transaction l) then
    mret (inl (if tl_is_deleted l then get_nothing else get_document doc))
  else if decide (tl_staged_attempt_id l = Some aid) then
    mret (inl (if is_document_being_removed l then get_nothing
               else get_document (create_from doc (staged_content_json_or_binary l))))
  else if has resolving_missing_atr_entry && bool_decide (resolving_missing_atr_entry = tl_staged_attempt_id l) then
    mret (inl (if is_document_being_inserted l then get_nothing else get_document doc))
  else
    atr_id ← lift (links_atr_id l);
    atr ← get_atr atr_id;
    let again := mret (inr (tl_staged_attempt_id l)) in
    catch
      (match atr with
       | inr (Some record) =>
           entry ← lift (staged_entry l record);
           match entry with
           | Some entry => r ← resolve_entry doc aid entry; mret (inl r)
           | None => again
           end
       | _ => again
       end)
      (catches_std again).

(** [do_get]: nothing in its [try] block throws before a request is answered. *)
Fixpoint do_get (fuel : nat) (id : document_id) (allow_replica : bool) (resolving_missing_atr_entry : option bytes) :
    txn get_outcome :=
  match fuel with
  | O => diverge
  | S fuel =>
      expired_now ← check_expiry_pre_commit STAGE_GET;
      if (expired_now : bool) then mret (get_failed FAIL_EXPIRY)
      else
        staged ← gets at_staged;
        match own_write_content id staged with
        | Some doc => mret (get_document doc)
        | None =>
            if has (Queue.find_remove id staged) then mret (get_failed FAIL_DOC_NOT_FOUND)
            else
              ec ← wait_for_hook before_doc_get;
              match ec with
              | Some ec => mret (get_failed ec)
              | None =>
                  g ← get_doc id allow_replica;
                  match go_ec g, go_doc g with
                  | None, None => mret get_nothing
                  | Some ec, _ => mret (GetOutcome (Some ec) (go_cause g) None)
                  | None, Some doc =>
                      r ← resolve_document doc resolving_missing_atr_entry;
                      match r with
                      | inl g => mret g
                      | inr missing => do_get fuel id allow_replica missing
                      end
                  end
              end
        end
  end.

(** The hook behind a read that did not fail *)
Definition after_get (g : get_outcome) : txn (option error_class) :=
  match go_ec g with Some ec => mret (Some ec) | None => wait_for_hook after_get_complete end.

(** A document that was read: its requirements.  An exception ends the process;
    behind the record of another transaction [get_atr] would catch it and read
    the document once more, for a callback that was moved away. *)
Definition complete_get {A} (doc : transaction_get_result) (x : A) : txn (option A) :=
  err ← lift (check_forward_compat GETS (tl_forward_compat (tg_links doc)));
  match err with
  | Some f => fail_operation f
  | None => op_completed_with_callback x
  end.

(** [get(id, cb)]: without a document the class of an error that is not there
    is read. *)
Definition get (fuel : nat) (id : document_id) : txn (option transaction_get_result) :=
  is_query ← gets at_is_query;
  if (is_query : bool) then
    r ← get_with_query id false;
    match r with None => mret None | Some doc => mret doc end
  else
    cache_error_async
      (_ ← check_if_done;
       g ← do_get fuel id false None;
       ec ← after_get g;
       match ec with
       | Some FAIL_EXPIRY => fail_operation (expired (operation_failed FAIL_EXPIRY))
       | Some FAIL_DOC_NOT_FOUND =>
           fail_operation (cause DOCUMENT_NOT_FOUND_EXCEPTION (operation_failed FAIL_DOC_NOT_FOUND))
       | Some FAIL_TRANSIENT => fail_operation (retry (operation_failed FAIL_TRANSIENT))
       | Some FAIL_HARD => fail_operation (no_rollback (operation_failed FAIL_HARD))
       | Some _ => fail_operation (operation_failed_with FAIL_OTHER (go_cause g))
       | None => match go_doc g with Some doc => complete_get doc doc | None => fault end
       end).

(** [get_optional(id, cb)] *)
Definition get_optional (fuel : nat) (id : document_id) : txn (option (option transaction_get_result)) :=
  is_query ← gets at_is_query;
  if (is_query : bool) then get_with_query id true
  else
    cache_error_async (ensure_open_bucket (id_bucket id) (λ ec,
      if has ec then fail_operation (operation_failed FAIL_OTHER)
      else
        _ ← check_if_done;
        g ← do_get fuel id false None;
        ec ← after_get g;
        match ec with
        | Some FAIL_EXPIRY => fail_operation (expired (operation_failed_with FAIL_EXPIRY (go_cause g)))
        | Some FAIL_DOC_NOT_FOUND => op_completed_with_callback None
        | Some FAIL_TRANSIENT => fail_operation (retry (operation_failed_with FAIL_TRANSIENT (go_cause g)))
        | Some FAIL_HARD => fail_operation (no_rollback (operation_failed_with FAIL_HARD (go_cause g)))
        | Some _ => fail_operation (operation_failed_with FAIL_OTHER (go_cause g))
        | None =>
            match go_doc g with
            | Some doc => complete_get doc (Some doc)
            | None => op_completed_with_callback None
            end
        end)).

(** [get_replica_from_preferred_server_group(id, cb)] *)
Definition get_replica_from_preferred_server_group (fuel : nat) (id : document_id) :
    txn (option (option transaction_get_result)) :=
  cache_error_async
    (is_query ← gets at_is_query;
     if (is_query : bool) then
       fail_operation (operation_failed_with FAIL_OTHER (Some FEATURE_NOT_AVAILABLE_EXCEPTION))
     else
       _ ← check_if_done;
       g ← do_get fuel id true None;
       ec ← after_get g;
       match ec with
       | Some FAIL_EXPIRY => fail_operation (expired (operation_failed_with FAIL_EXPIRY (go_cause g)))
       | Some FAIL_DOC_NOT_FOUND => op_completed_with_callback None
       | Some FAIL_TRANSIENT => fail_operation (retry (operation_failed_with FAIL_TRANSIENT (go_cause g)))
       | Some FAIL_HARD => fail_operation (no_rollback (operation_failed_with FAIL_HARD (go_cause g)))
       | Some ec =>
           if bool_decide (ec = FAIL_OTHER) && bool_decide (go_cause g = Some DOCUMENT_UNRETRIEVABLE_EXCEPTION)
           then op_completed_with_error (op_exception DOCUMENT_UNRETRIEVABLE_EXCEPTION)
           else fail_operation (operation_failed_with FAIL_OTHER (go_cause g))
       | None =>
           match go_doc g with
           | Some doc => complete_get doc (Some doc)
           | None => fault
           end
       end).
End operations.

Section staging.
Context `{Json, !QueryMode}.

(** ** Documents in other transactions *)

Definition write_write_conflict : operation_failure := retry (operation_failed FAIL_WRITE_WRITE_CONFLICT).

(** [exp_delay(50ms, 500ms, 1s)] *)
Definition blocking_timeout : Z := 1000000000.

(** What an entry of another attempt means: [None] is to ask again. *)
Definition blocking_entry (e : atr_entry) : thrown (option (option operation_failure)) :=
  err ← check_forward_compat WRITE_WRITE_CONFLICT_READING_ATR (ae_forward_compat e);
  Ok (match err with
      | Some f => Some (Some f)
      | None =>
          match ae_state e with
          | AttemptState.COMPLETED | AttemptState.ROLLED_BACK => Some None
          | _ => None
          end
      end).

(** [get_atr] catches what its callback throws before it sends something, and
    calls it again with an error. *)
Fixpoint check_atr_entry_for_blocking_document (fuel : nat) (doc : transaction_get_result) (delay : exp_delay) :
    txn (option operation_failure) :=
  match fuel with
  | O => diverge
  | S fuel =>
      d ← catch (d ← exp_delay_call blocking_timeout delay; mret (Some d))
            (λ e, match e with retry_operation_timeout => Some (mret None) | _ => None end);
      match d with
      | None => mret (Some write_write_conflict)
      | Some delay =>
          ec ← wait_for_hook before_check_atr_entry_for_blocking_doc;
          match ec with
          | Some _ => mret (Some write_write_conflict)
          | None =>
              atr_id ← lift (links_atr_id (tg_links doc));
              atr ← get_atr atr_id;
              try_sync
                (match atr with
                 | inl _ => mret (Some write_write_conflict)
                 | inr None => mret None
                 | inr (Some record) =>
                     match tl_staged_attempt_id (tg_links doc) ≫= (λ attempt_id, find_entry attempt_id record) with
                     | None => mret None
                     | Some e =>
                         r ← lift (blocking_entry e);
                         match r with
                         | Some r => mret r
                         | None => check_atr_entry_for_blocking_document fuel doc delay
                         end
                     end
                 end)
                (catches_std (mret (Some write_write_conflict)))
          end
      end
  end.

(** The record of the other transaction is asked for. *)
Definition asks_for_record (tid : bytes) (doc : transaction_get_result) : bool :=
  let l := tg_links doc in
  has (tl_staged_attempt_id l) && negb (bool_decide (tl_staged_transaction_id l = Some tid)) &&
  has (tl_atr_id l) && has (tl_atr_bucket_name l).

Definition check_and_handle_blocking_transactions (fuel : nat) (doc : transaction_get_result)
    (stage : forward_compat_stage) : txn (option operation_failure) :=
  tid ← asks transaction_id;
  if asks_for_record tid doc then
    err ← lift (check_forward_compat stage (tl_forward_compat (tg_links doc)));
    match err with
    | Some f => mret (Some f)
    | None => check_atr_entry_for_blocking_document fuel doc (ExpDelay 0 None)
    end
  else mret None.

(** ** The record of the attempt *)

(** [atr_id_from_bucket_and_key]: the record lies in the default collection of
    the bucket or in the collection that is configured. *)
Definition atr_id_from_bucket_and_key (metadata : option (bytes * bytes * bytes)) (bucket key : bytes) : document_id :=
  match metadata with
  | Some (bucket, scope, collection) => document_id_in bucket scope collection key
  | None => document_id_in bucket default_name default_name key
  end.

(** [select_atr_if_needed_unlocked] with its callback: an exception that it or
    the callback throws before a request was answered is logged, and the
    operation never completes. *)
Definition with_atr {A} (fuel : nat) (id : document_id) (cb : option operation_failure → txn (option A)) : txn (option A) :=
  try_sync
    (current ← gets at_atr_id;
     metadata ← asks metadata_collection;
     r ← match current with
         | Some _ => mret (Some None)
         | None =>
             key ← match atr_id_for_key (id_key id) with
                   | Ok key => mret key
                   | Err _ => throw runtime_error
                   | Fault => fault
                   | Diverge => diverge
                   end;
             select_atr_if_needed_unlocked fuel (atr_id_from_bucket_and_key metadata (id_bucket id) key)
         end;
     match r with Some err => cb err | None => mret None end)
    (catches_std (mret None)).

(** ** Staging *)

(** ["${Mutation.value_crc32c}"] *)
Definition macro_value_crc32c : bytes :=
  [34; 36; 123; 77; 117; 116; 97; 116; 105; 111; 110; 46; 118; 97; 108; 117; 101; 95; 99; 114; 99; 51; 50; 99; 125; 34].

Definition txn_spec (txn : json) : subdoc_command :=
  subdoc_upsert TRANSACTION_INTERFACE_PREFIX_ONLY (jsonify txn) true true false false.
Definition content_spec (content : encoded_value) : subdoc_command :=
  let binary := has_common_flags (ev_flags content) binary_common_flags in
  subdoc_upsert (if binary then STAGED_BINARY_DATA else STAGED_DATA) (ev_data content) true false false binary.
Definition crc32_spec : subdoc_command :=
  subdoc_upsert (TRANSACTION_INTERFACE_PREFIX ++ ascii "op.crc32") macro_value_crc32c true true true false.

(** [create_document_metadata] of the attempt *)
Definition attempt_metadata (operation_type op_id : bytes) (metadata : option document_metadata) (flags : Z) : txn json :=
  tid ← asks transaction_id;
  aid ← gets at_id;
  atr ← gets at_atr_id;
  mret (create_document_metadata operation_type op_id metadata flags tid aid (default [] (id_key <$> atr)) atr).

(** The links of what was staged *)
Definition staged_links (id : document_id) (content : encoded_value) (tid aid op_id operation_type : bytes)
    (atr_key : bytes) (is_deleted : bool) : transaction_links :=
  let is_json := has_common_flags (ev_flags content) json_common_flags in
  let is_binary := has_common_flags (ev_flags content) binary_common_flags in
  TransactionLinks (Some atr_key) (Some (id_bucket id)) (Some (id_scope id)) (Some (id_collection id))
    (Some tid) (Some aid) (Some op_id)
    (if is_json then Some content else None) (if negb is_json && is_binary then Some content else None)
    None None None None (Some operation_type) None is_deleted.

(** A response of [mutate_in] and its error class *)
Definition response_class (resp : response) : txn (option error_class) := lift (error_class_from_response resp).

(** Adds the mutation to the queue, without its content when the server can
    take it from the document. *)
Definition supports_replace_body_with_xattr : txn (option bool) :=
  config ← question bucket_capabilities;
  mret (match config with
        | inl _ => None
        | inr caps => Some (Capability.has_bucket_capability caps Capability.subdoc_revive_document)
        end).
Definition stage (m : staged_mutation) : txn unit := modify (λ a, set_staged (Queue.add m (at_staged a)) a).

(** [atr_id_->key()]: an empty optional is not checked. *)
Definition atr_key_unchecked : txn bytes :=
  atr ← gets at_atr_id; match atr with Some id => mret (id_key id) | None => fault end.

Definition create_staged_replace_error {A} (ec : error_class) (c : external_exception) : txn (option A) :=
  let err := cause c (operation_failed ec) in
  match ec with
  | FAIL_DOC_NOT_FOUND | FAIL_DOC_ALREADY_EXISTS | FAIL_CAS_MISMATCH | FAIL_TRANSIENT | FAIL_AMBIGUOUS =>
      fail_operation (retry err)
  | FAIL_HARD => fail_operation (no_rollback err)
  | _ => fail_operation err
  end.

Definition staged_replace_request (id : document_id) (txn : json) (content : encoded_value) (level cas flags : Z) :
    mutate_in_request :=
  with_access_deleted (with_flags flags (with_cas cas (wrap_durable_request level
    (with_specs [txn_spec txn; content_spec content; crc32_spec] (new_mutate_in id))))).

Definition create_staged_replace (id : document_id) (content : encoded_value) (original_flags cas : Z) (op_id : bytes)
    (metadata : option document_metadata) : txn (option transaction_get_result) :=
  txn ← attempt_metadata (ascii "replace") op_id metadata (ev_flags content);
  level ← asks config_level;
  ec ← wait_for_hook before_staged_replace;
  match ec with
  | Some ec => create_staged_replace_error ec UNKNOWN
  | None =>
      let req := staged_replace_request id txn content level cas original_flags in
      resp ← execute (mutate_in req);
      ec ← response_class resp;
      match ec with
      | Some ec =>
          c ← lift (external_exception_from_response (mi_specs req) resp);
          create_staged_replace_error ec c
      | None =>
          ec ← wait_for_hook after_staged_replace_complete;
          match ec with
          | Some ec => create_staged_replace_error ec UNKNOWN
          | None =>
              atr_key ← atr_key_unchecked;
              tid ← asks transaction_id;
              aid ← gets at_id;
              let links := staged_links id content tid aid op_id (ascii "replace") atr_key false in
              let out := TransactionGetResult id content (resp_cas resp) links metadata in
              supports ← supports_replace_body_with_xattr;
              match supports with
              | None => create_staged_replace_error FAIL_OTHER UNKNOWN
              | Some supports =>
                  let staged := staged_content_json_or_binary links in
                  _ ← stage (StagedMutation REPLACE id (resp_cas resp)
                         (if supports : bool then None else Some (ev_data staged))
                         (ev_flags staged) original_flags metadata);
                  op_completed_with_callback out
              end
          end
      end
  end.

(** *** Insertions *)

(** The handler of errors behind the read of an existing document *)
Definition existing_document_error {A} (ec : error_class) : txn (option A) :=
  overtime ← gets at_overtime;
  if (overtime : bool) then fail_operation (expired (operation_failed FAIL_EXPIRY))
  else
    match ec with
    | FAIL_DOC_NOT_FOUND | FAIL_TRANSIENT => fail_operation (retry (operation_failed ec))
    | _ => fail_operation (operation_failed ec)
    end.

(** The arguments of [create_staged_insert] that do not change *)
Record insertion := Insertion {
  in_id : document_id;
  in_content : encoded_value;
  in_op_id : bytes;
}.

(** The document [doc] is there; [again] is [create_staged_insert] with a CAS.
    What is thrown behind a look into another record reaches [get_atr], which
    reports the conflict. *)
Definition insert_over_document (fuel : nat) (i : insertion) (delay : exp_delay)
    (again : Z → exp_delay → txn (option transaction_get_result)) (doc : transaction_get_result) :
    txn (option transaction_get_result) :=
  let l := tg_links doc in
  let retry_with_cas :=
    timeout ← asks config_timeout;
    delay ← exp_delay_call timeout delay;
    again (tg_cas doc) delay in
  aid ← gets at_id;
  err ← lift (check_forward_compat WRITE_WRITE_CONFLICT_INSERTING_GET (tl_forward_compat l));
  match err with
  | Some f => fail_operation f
  | None =>
      if negb (is_document_in_transaction l) && tl_is_deleted l then retry_with_cas
      else if negb (is_document_in_transaction l) then op_completed_with_error (op_exception DOCUMENT_EXISTS_EXCEPTION)
      else if decide (tl_staged_attempt_id l = Some aid) then
        if decide (tl_staged_operation_id l = Some (in_op_id i)) then
          _ ← stage (StagedMutation INSERT (tg_id doc) (tg_cas doc) (Some (ev_data (in_content i)))
                 (ev_flags (in_content i)) (ev_flags (tg_content doc)) (tg_metadata doc));
          op_completed_with_callback doc
        else fail_operation (cause CONCURRENT_OPERATIONS_DETECTED_ON_SAME_DOCUMENT (operation_failed FAIL_OTHER))
      else if has (tl_op l) && negb (is_document_being_inserted l) then
        op_completed_with_error (op_exception DOCUMENT_EXISTS_EXCEPTION)
      else
        err ← check_and_handle_blocking_transactions fuel doc WRITE_WRITE_CONFLICT_INSERTING;
        tid ← asks transaction_id;
        match err with
        | Some f => fail_operation f
        | None =>
            if asks_for_record tid doc then
              try_sync retry_with_cas (catches_std (fail_operation write_write_conflict))
            else retry_with_cas
        end
  end.

Definition create_staged_insert_error_handler (fuel : nat) (i : insertion) (cas : Z) (delay : exp_delay)
    (again : Z → exp_delay → txn (option transaction_get_result)) (ec : error_class) (c : external_exception) :
    txn (option transaction_get_result) :=
  overtime ← gets at_overtime;
  if (overtime : bool) then fail_operation (expired (operation_failed FAIL_EXPIRY))
  else
    match ec with
    | FAIL_EXPIRY => _ ← modify set_overtime; fail_operation (expired (operation_failed ec))
    | FAIL_TRANSIENT => fail_operation (retry (operation_failed ec))
    | FAIL_AMBIGUOUS =>
        timeout ← asks config_timeout;
        delay ← exp_delay_call timeout delay;
        again cas delay
    | FAIL_OTHER => fail_operation (cause c (operation_failed ec))
    | FAIL_HARD => fail_operation (no_rollback (operation_failed ec))
    | FAIL_DOC_ALREADY_EXISTS | FAIL_CAS_MISMATCH =>
        ec ← wait_for_hook before_get_doc_in_exists_during_staged_insert;
        match ec with
        | Some ec => existing_document_error ec
        | None =>
            g ← get_doc (in_id i) false;
            match go_ec g, go_doc g with
            | None, Some doc => insert_over_document fuel i delay again doc
            | None, None => fail_operation (retry (operation_failed FAIL_DOC_NOT_FOUND))
            | Some ec, _ => existing_document_error ec
            end
        end
    | _ => fail_operation (retry (operation_failed ec))
    end.

Definition staged_insert_request (i : insertion) (txn : json) (level cas : Z) : mutate_in_request :=
  wrap_durable_request level (with_store_semantics (if cas =? 0 then store_insert else store_replace)
    (with_cas cas (with_flags (ev_flags (in_content i)) (with_create_as_deleted (with_access_deleted
      (with_specs [txn_spec txn; content_spec (in_content i); crc32_spec] (new_mutate_in (in_id i)))))))).

Fixpoint create_staged_insert (fuel : nat) (i : insertion) (cas : Z) (delay : exp_delay) :
    txn (option transaction_get_result) :=
  match fuel with
  | O => diverge
  | S fuel =>
      let error_handler := create_staged_insert_error_handler fuel i cas delay (create_staged_insert fuel i) in
      ec ← error_if_expired_and_not_in_overtime STAGE_CREATE_STAGED_INSERT;
      match ec with
      | Some ec => error_handler ec UNKNOWN
      | None =>
          ec ← wait_for_hook before_staged_insert;
          match ec with
          | Some ec => error_handler ec UNKNOWN
          | None =>
              txn ← attempt_metadata (ascii "insert") (in_op_id i) None (ev_flags (in_content i));
              level ← asks config_level;
              let req := staged_insert_request i txn level cas in
              resp ← execute (mutate_in req);
              ec ← response_class resp;
              match ec with
              | Some ec => c ← lift (external_exception_from_response (mi_specs req) resp); error_handler ec c
              | None =>
                  ec ← wait_for_hook after_staged_insert_complete;
                  match ec with
                  | Some ec => c ← lift (external_exception_from_response (mi_specs req) resp); error_handler ec c
                  | None =>
                      supports ← supports_replace_body_with_xattr;
                      match supports with
                      | None => error_handler FAIL_OTHER UNKNOWN
                      | Some supports =>
                          atr_key ← atr_key_unchecked;
                          tid ← asks transaction_id;
                          aid ← gets at_id;
                          let links := staged_links (in_id i) (in_content i) tid aid (in_op_id i) (ascii "insert") atr_key true in
                          let staged := staged_content_json_or_binary links in
                          _ ← stage (StagedMutation INSERT (in_id i) (resp_cas resp)
                                 (if supports : bool then None else Some (ev_data staged))
                                 (ev_flags staged) (ev_flags staged) None);
                          op_completed_with_callback (TransactionGetResult (in_id i) (in_content i) (resp_cas resp) links None)
                      end
                  end
              end
          end
      end
  end.

Definition is_staged (t : staged_mutation_type) (existing : option staged_mutation) : bool :=
  bool_decide (sm_type <$> existing = Some t).

(** [insert(id, content, cb)] *)
Definition insert (fuel : nat) (id : document_id) (content : encoded_value) : txn (option transaction_get_result) :=
  is_query ← gets at_is_query;
  if (is_query : bool) then insert_raw_with_query id content
  else
    cache_error_async (ensure_open_bucket (id_bucket id) (λ ec,
      if has ec then fail_operation (operation_failed FAIL_OTHER)
      else
        try_sync
          (_ ← check_if_done;
           op_id ← question uid;
           staged ← gets at_staged;
           let existing_sm := snd <$> Queue.find_any id staged in
           if is_staged INSERT existing_sm || is_staged REPLACE existing_sm then
             op_completed_with_error (op_exception DOCUMENT_EXISTS_EXCEPTION)
           else
             expired_now ← check_expiry_pre_commit STAGE_INSERT;
             if (expired_now : bool) then fail_operation (expired (operation_failed FAIL_EXPIRY))
             else
               with_atr fuel id (λ err,
                 match err, existing_sm with
                 | Some f, _ => fail_operation f
                 | None, Some sm =>
                     create_staged_replace (sm_id sm) content (sm_current_user_flags sm) (sm_cas sm) op_id (sm_doc_metadata sm)
                 | None, None => create_staged_insert fuel (Insertion id content op_id) 0 (ExpDelay 0 None)
                 end))
          (catches_std (fail_operation (operation_failed FAIL_OTHER))))).

(** [replace(document, content, cb)]; nothing in its [try] block throws a
    [client_error]. *)
Definition replace (fuel : nat) (document : transaction_get_result) (content : encoded_value) :
    txn (option transaction_get_result) :=
  let id := tg_id document in
  is_query ← gets at_is_query;
  if (is_query : bool) then replace_raw_with_query document content
  else
    cache_error_async (ensure_open_bucket (id_bucket id) (λ ec,
      if has ec then fail_operation (operation_failed FAIL_OTHER)
      else
        op_id ← question uid;
        if bool_decide (id_key id = []) || bool_decide (id_bucket id = []) then
          fail_operation (cause DOCUMENT_NOT_FOUND_EXCEPTION (operation_failed FAIL_DOC_NOT_FOUND))
        else
          _ ← check_if_done;
          staged ← gets at_staged;
          let existing_sm := snd <$> Queue.find_any id staged in
          if is_staged REMOVE existing_sm then
            fail_operation (cause DOCUMENT_NOT_FOUND_EXCEPTION (operation_failed FAIL_DOC_NOT_FOUND))
          else
            expired_now ← check_expiry_pre_commit STAGE_REPLACE;
            if (expired_now : bool) then fail_operation (expired (operation_failed FAIL_EXPIRY))
            else
              err ← check_and_handle_blocking_transactions fuel document WRITE_WRITE_CONFLICT_REPLACING;
              match err with
              | Some f => fail_operation f
              | None =>
                  with_atr fuel id (λ err,
                    match err with
                    | Some f => fail_operation f
                    | None =>
                        if is_staged INSERT existing_sm then
                          create_staged_insert fuel (Insertion id content op_id) (tg_cas document) (ExpDelay 0 None)
                        else
                          create_staged_replace id content (ev_flags (tg_content document)) (tg_cas document) op_id
                            (tg_metadata document)
                    end)
              end)).

(** *** Removals *)

Definition remove_staged_insert_error {A} (ec : error_class) : txn (option A) :=
  match ec with
  | FAIL_HARD => fail_operation (no_rollback (operation_failed ec))
  | _ => fail_operation (retry (operation_failed ec))
  end.

Definition remove_staged_insert_request (id : document_id) (level : Z) : mutate_in_request :=
  with_access_deleted (wrap_durable_request level
    (with_specs [subdoc_remove TRANSACTION_INTERFACE_PREFIX_ONLY true] (new_mutate_in id))).

Definition remove_staged_insert (id : document_id) : txn (option unit) :=
  ec ← error_if_expired_and_not_in_overtime STAGE_REMOVE_STAGED_INSERT;
  if has ec then fail_operation (expired (no_rollback (operation_failed FAIL_EXPIRY)))
  else
    ec ← wait_for_hook before_remove_staged_insert;
    match ec with
    | Some ec => remove_staged_insert_error ec
    | None =>
        level ← asks config_level;
        resp ← execute (mutate_in (remove_staged_insert_request id level));
        ec ← response_class resp;
        match ec with
        | Some ec => remove_staged_insert_error ec
        | None =>
            ec ← wait_for_hook after_remove_staged_insert;
            match ec with
            | Some ec => remove_staged_insert_error ec
            | None =>
                _ ← modify (λ a, set_staged (Queue.remove_any id (at_staged a)) a);
                op_completed_with_callback tt
            end
        end
    end.

Definition remove_error {A} (ec : error_class) : txn (option A) :=
  match ec with
  | FAIL_EXPIRY => _ ← modify set_overtime; fail_operation (expired (operation_failed ec))
  | FAIL_DOC_NOT_FOUND | FAIL_DOC_ALREADY_EXISTS | FAIL_CAS_MISMATCH | FAIL_TRANSIENT | FAIL_AMBIGUOUS =>
      fail_operation (retry (operation_failed ec))
  | FAIL_HARD => fail_operation (no_rollback (operation_failed ec))
  | _ => fail_operation (operation_failed ec)
  end.

Definition staged_remove_request (document : transaction_get_result) (txn : json) (level : Z) : mutate_in_request :=
  let req := with_cas (tg_cas document) (wrap_durable_request level
    (with_specs [txn_spec txn; crc32_spec] (new_mutate_in (tg_id document)))) in
  if tl_is_deleted (tg_links document) then with_access_deleted req else req.

(** The handler of [remove] behind the selection of the record *)
Definition create_staged_remove (document : transaction_get_result) (op_id : bytes) : txn (option unit) :=
  ec ← wait_for_hook before_staged_remove;
  match ec with
  | Some ec => remove_error ec
  | None =>
      txn ← attempt_metadata (ascii "remove") op_id (tg_metadata document) 0;
      level ← asks config_level;
      resp ← execute (mutate_in (staged_remove_request document txn level));
      ec ← response_class resp;
      match ec with
      | Some ec => remove_error ec
      | None =>
          ec ← wait_for_hook after_staged_remove_complete;
          match ec with
          | Some ec => remove_error ec
          | None =>
              let flags := ev_flags (tg_content document) in
              _ ← stage (StagedMutation REMOVE (tg_id document) (resp_cas resp) None flags flags (tg_metadata document));
              op_completed_with_callback tt
          end
      end
  end.

(** [remove(document, cb)] *)
Definition remove (fuel : nat) (document : transaction_get_result) : txn (option unit) :=
  let id := tg_id document in
  is_query ← gets at_is_query;
  if (is_query : bool) then remove_with_query document
  else
    cache_error_async
      (_ ← check_if_done;
       ensure_open_bucket (id_bucket id) (λ ec,
         if has ec then fail_operation (operation_failed FAIL_OTHER)
         else
           staged ← gets at_staged;
           let existing_sm := snd <$> Queue.find_any id staged in
           expired_now ← check_expiry_pre_commit STAGE_REMOVE;
           if (expired_now : bool) then remove_error FAIL_EXPIRY
           else
             op_id ← question uid;
             if is_staged REMOVE existing_sm then
               fail_operation (cause DOCUMENT_NOT_FOUND_EXCEPTION (operation_failed FAIL_DOC_NOT_FOUND))
             else if is_staged INSERT existing_sm then remove_staged_insert id
             else
               err ← check_and_handle_blocking_transactions fuel document WRITE_WRITE_CONFLICT_REMOVING;
               match err with
               | Some f => fail_operation f
               | None =>
                   with_atr fuel id (λ err,
                     match err with
                     | Some f => fail_operation f
                     | None => create_staged_remove document op_id
                     end)
               end)).
End staging.
