(* ===== verification/TransactionOpsProofs.v ===== *)
(** * Operations of an attempt: program logic

    [framed P m]: the action [m] only adds entries that satisfy [P] to the log,
    leaves alone what an operation changes when it ends, and throws nothing
    but what the caller of an operation handles.  The second part is about
    how an operation ends. *)

From S2P Require Import Prelude ByteOrder Protocol McbpParser ClientRequest ClientResponse Commands Topology AtrIds Transactions TransactionLinks Attempt AttemptProofs TransactionOps.

(** ** Frames *)

Abbreviation log_entry := (request * response)%type.

(** What an operation does not change before it ends *)
Record same_operation (a a' : attempt) : Prop := {
  same_id : at_id a' = at_id a;
  same_staged : at_staged a' = at_staged a;
  same_ops : at_ops a' = at_ops a;
  same_calls : at_calls a' = at_calls a;
  same_errors : at_errors a' = at_errors a;
  same_done : at_done a' = at_done a;
  same_query : at_is_query a' = at_is_query a;
}.

Definition log_grows (P : log_entry → Prop) (a a' : attempt) : Prop :=
  ∃ l, at_log a' = l ++ at_log a ∧ Forall P l.

#[export] Instance same_operation_preorder : PreOrder same_operation.
Proof. split; [by intros a|]. intros a b c [] []. split; congruence. Qed.

#[export] Instance log_grows_preorder P : PreOrder (log_grows P).
Proof.
  split; [intros a; exists []; by split|]. intros a b c (l & Hl & HP) (l' & Hl' & HP').
  exists (l' ++ l). split; [by rewrite Hl', Hl, app_assoc|by apply Forall_app].
Qed.

Lemma log_grows_mono (P Q : log_entry → Prop) a a' : (∀ e, P e → Q e) → log_grows P a a' → log_grows Q a a'.
Proof. intros HPQ (l & Hl & HP). exists l. split; [done|]. by eapply Forall_impl. Qed.

Definition frame (P : log_entry → Prop) (a a' : attempt) : Prop :=
  same_operation a a' ∧ at_atr_id a' = at_atr_id a ∧ log_grows P a a'.

#[export] Instance frame_preorder P : PreOrder (frame P).
Proof.
  split; [by split|]. intros a b c (H1 & H2 & H3) (H4 & H5 & H6). split_and!; [by etrans|congruence|by etrans].
Qed.

(** Exceptions that [cache_error_async] makes failures of the operation *)
Definition ordinary (e : exn) : Prop :=
  match e with operation_failed_thrown _ | unknown_exception => False | _ => True end.

Definition framed {A} (env : environment) (P : log_entry → Prop) (m : txn A) : Prop :=
  ∀ a, wp m env (λ r a', frame P a a' ∧ ∀ e, r = Err e → ordinary e) a.

Section framed.
Context (env : environment) (P : log_entry → Prop).
Abbreviation framed := (framed env P).

Lemma framed_pure {A} (m : txn A) :
  (∀ env a, (m env a).2 = a) → (∀ env a e, (m env a).1 = Err e → ordinary e) → framed m.
Proof. intros Hm He a. unfold wp. rewrite Hm. split; [done|]. intros e. apply He. Qed.

Lemma framed_ret {A} (x : A) : framed (mret x).
Proof. by apply framed_pure. Qed.
Lemma framed_throw {A} e : ordinary e → framed (throw (A:=A) e).
Proof. intros He. apply framed_pure; [done|]. by intros _ _ e' [= <-]. Qed.
Lemma framed_fault {A} : framed (fault (A:=A)).
Proof. by apply framed_pure. Qed.
Lemma framed_diverge {A} : framed (diverge (A:=A)).
Proof. by apply framed_pure. Qed.
Lemma framed_gets {A} (f : attempt → A) : framed (gets f).
Proof. by apply framed_pure. Qed.
Lemma framed_asks {A} (f : environment → A) : framed (asks f).
Proof. by apply framed_pure. Qed.
Lemma framed_lift {A} (o : thrown A) : framed (lift o).
Proof. destruct o; [apply framed_ret|by apply framed_throw|apply framed_fault|apply framed_diverge]. Qed.

Lemma frame_ticks a : frame P a (next_tick a).
Proof. split_and!; [by split|done|]. exists []. by split. Qed.

Lemma framed_question {A} (f : environment → nat → A) : framed (question f).
Proof. intros a. split; [apply frame_ticks|done]. Qed.

Lemma framed_modify f :
  (∀ a, same_operation a (f a) ∧ at_atr_id (f a) = at_atr_id a ∧ at_log (f a) = at_log a) → framed (modify f).
Proof. intros Hf a. destruct (Hf a) as (Hs & Ha & Hl). split; [|done]. split_and!; [done..|]. exists []. by split. Qed.

Lemma framed_execute req : (∀ resp, P (req, resp)) → framed (execute req).
Proof.
  intros HP a. split; [|done]. split_and!; [by split|done|]. exists [(req, reply env (at_tick a) req)]. split; [done|]. by constructor.
Qed.

Lemma framed_bind {A B} (m : txn A) (f : A → txn B) : framed m → (∀ x, framed (f x)) → framed (m ≫= f).
Proof.
  intros Hm Hf a. apply wp_bind. eapply wp_mono; [by apply Hm|].
  intros [x|e| |] a' [Ha He]; cbn [bind_post]; try (split; [exact Ha|intros ? [= <-]; by apply He]).
  eapply wp_mono; [apply Hf|]. intros r a'' [Ha' He']. split; [by etrans|done].
Qed.

Lemma framed_catch {A} (m : txn A) h : framed m → (∀ e m', h e = Some m' → framed m') → framed (catch m h).
Proof.
  intros Hm Hh a. apply wp_catch. eapply wp_mono; [by apply Hm|].
  intros [x|e| |] a' [Ha He]; cbn [catch_post]; try done. destruct (h e) as [m'|] eqn:Hhe; [|done].
  eapply wp_mono; [by eapply Hh|]. intros r a'' [Ha' He']. split; [by etrans|done].
Qed.

Lemma framed_try_sync {A} (m : txn A) h : framed m → (∀ e m', h e = Some m' → framed m') → framed (try_sync m h).
Proof.
  intros Hm Hh a. pose proof (Hm a) as Hma. unfold wp, try_sync in *. destruct (m env a) as [[x|e| |] a']; try exact Hma.
  cbn [fst snd] in Hma. destruct (_ =? _)%nat; [|exact Hma]. destruct (h e) as [m'|] eqn:Hhe; [|exact Hma].
  destruct Hma as [Ha _]. destruct (Hh e m' Hhe a') as [Ha' He']. split; [by etrans|exact He'].
Qed.

Lemma framed_retry_op {S A} (body : S → txn (A + S)) fuel s : (∀ s, framed (body s)) → framed (retry_op fuel body s).
Proof.
  intros Hb. revert s. induction fuel as [|fuel IH]; intros s; cbn [retry_op]; [apply framed_diverge|].
  apply framed_bind; [done|]. intros [x|s']; [apply framed_ret|apply IH].
Qed.

Lemma framed_mono (Q : log_entry → Prop) {A} (m : txn A) : (∀ e, P e → Q e) → framed m → TransactionOpsProofs.framed env Q m.
Proof.
  intros HPQ Hm a. eapply wp_mono; [apply Hm|]. intros r a' [(Hs & Ha & Hl) He]. split; [|done].
  split_and!; [done..|]. by eapply log_grows_mono.
Qed.
End framed.

Create HintDb framed discriminated.
#[export] Hint Resolve framed_ret framed_fault framed_diverge framed_gets framed_asks framed_question
  framed_lift framed_retry_op : framed.
#[export] Hint Extern 1 (framed _ _ (throw _)) => apply framed_throw; exact I : framed.
#[export] Hint Extern 1 (framed _ _ (modify _)) => apply framed_modify; intros ?; split_and!; [split|..]; reflexivity : framed.

(** Walks through an action, as [adds_walk] does. *)
Ltac framed_walk :=
  repeat (match goal with
  | |- framed _ _ (mbind _ _) => apply framed_bind; [|intros ?]
  | |- framed _ _ (match ?x with _ => _ end) => destruct x
  | |- framed _ _ (if ?x then _ else _) => destruct x
  end || solve [auto with framed nocore] || (progress cbn beta iota)).

Section reads.
Context `{Json} (env : environment).

(** A lookup *)
Definition is_lookup (e : log_entry) : Prop :=
  match e.1 with lookup_in _ _ _ | lookup_in_any_replica _ _ _ => True | _ => False end.

Lemma framed_lookup id specs deleted : framed env is_lookup (execute (lookup_in id specs deleted)).
Proof. by apply framed_execute. Qed.
Lemma framed_lookup_replica id specs deleted : framed env is_lookup (execute (lookup_in_any_replica id specs deleted)).
Proof. by apply framed_execute. Qed.

Lemma framed_hook P h : framed env P (wait_for_hook h).
Proof. apply framed_question. Qed.
Lemma framed_check_pre P s : framed env P (check_expiry_pre_commit s).
Proof. unfold check_expiry_pre_commit, has_expired_client_side. framed_walk. Qed.
Lemma framed_error_if_expired P s : framed env P (error_if_expired_and_not_in_overtime s).
Proof. unfold error_if_expired_and_not_in_overtime, has_expired_client_side. framed_walk. Qed.
Lemma framed_delay P timeout d : framed env P (exp_delay_call timeout d).
Proof. unfold exp_delay_call. framed_walk. Qed.

Lemma framed_execute_lookup id req :
  is_lookup (req, response_ok) → framed env is_lookup (execute_lookup id req).
Proof.
  intros Hr. unfold execute_lookup. apply framed_bind; [apply framed_execute; intros ?; exact Hr|intros resp]. framed_walk.
Qed.

Lemma framed_get_doc id allow_replica : framed env is_lookup (get_doc id allow_replica).
Proof. unfold get_doc. framed_walk; by apply framed_execute_lookup. Qed.

Lemma framed_get_atr id : framed env is_lookup (get_atr id).
Proof. unfold get_atr. framed_walk. apply framed_lookup. Qed.
End reads.
#[export] Hint Resolve framed_hook framed_check_pre framed_error_if_expired framed_delay framed_get_doc framed_get_atr : framed.

Section reads2.
Context `{Json} (env : environment).

Lemma framed_resolve_document doc missing : framed env is_lookup (resolve_document doc missing).
Proof.
  unfold resolve_document, resolve_entry. framed_walk.
  apply framed_catch; [framed_walk|]. intros [] m' [= <-]; framed_walk.
Qed.

Lemma framed_do_get fuel id allow_replica missing : framed env is_lookup (do_get fuel id allow_replica missing).
Proof.
  revert missing. induction fuel as [|fuel IH]; intros missing; cbn [do_get]; [apply framed_diverge|].
  framed_walk. apply framed_resolve_document.
Qed.

Lemma framed_check_atr_entry fuel doc delay : framed env is_lookup (check_atr_entry_for_blocking_document fuel doc delay).
Proof.
  revert delay. induction fuel as [|fuel IH]; intros delay; cbn [check_atr_entry_for_blocking_document]; [apply framed_diverge|].
  apply framed_bind; [|intros d; framed_walk].
  - apply framed_catch; [framed_walk|]. intros [] m' [= <-]. framed_walk.
  - apply framed_try_sync; [framed_walk|]. intros [] m' [= <-]; framed_walk.
Qed.

Lemma framed_check_blocking fuel doc stage : framed env is_lookup (check_and_handle_blocking_transactions fuel doc stage).
Proof. unfold check_and_handle_blocking_transactions. framed_walk. apply framed_check_atr_entry. Qed.
End reads2.
#[export] Hint Resolve framed_resolve_document framed_do_get framed_check_atr_entry framed_check_blocking : framed.

(** ** Completion *)

Section completion.
Context (env : environment).

Lemma wp_lift {A} (o : thrown A) (Q : outcome exn A → attempt → Prop) a :
  (∀ x, o = Ok x → Q (Ok x) a) → Q (Err runtime_error) a → Q Fault a → Q Diverge a → wp (lift o) env Q a.
Proof. intros H1 H2 H3 H4. destruct o; [by apply H1|done..]. Qed.

(** What a call of the callback does *)
Definition completed (c : option exn) (a : attempt) : attempt :=
  let a := match c with Some (operation_failed_thrown f) => push_error f a | _ => a end in
  let a := push_call c (set_ops (decrement_in_flight (at_ops a)) a) in
  match decrement_ops (at_ops a) with Some l => set_ops l a | None => a end.

Lemma wp_completed_with_error {A} e (Q : outcome exn (option A) → attempt → Prop) a :
  Q (Ok None) (completed (Some e) a) → wp (op_completed_with_error e) env Q a.
Proof.
  intros HQ. unfold op_completed_with_error, modify_ops. destruct e; exact HQ.
Qed.

Lemma wp_completed_with_callback {A} (x : A) (Q : outcome exn (option A) → attempt → Prop) a :
  Q (Ok (Some x)) (completed None a) → wp (op_completed_with_callback x) env Q a.
Proof. intros HQ. exact HQ. Qed.

Lemma wp_fail_operation {A} f (Q : outcome exn (option A) → attempt → Prop) a :
  Q (Ok None) (completed (Some (operation_failed_thrown f)) a) → wp (fail_operation f) env Q a.
Proof. apply wp_completed_with_error. Qed.

Lemma wp_check_if_done (Q : outcome exn unit → attempt → Prop) a :
  (at_done a = false → Q (Ok tt) a) →
  (at_done a = true → Q (Ok tt) (completed (Some (operation_failed_thrown (no_rollback (operation_failed FAIL_OTHER)))) a)) →
  wp check_if_done env Q a.
Proof.
  intros H1 H2. unfold check_if_done. apply wp_bind, wp_gets. cbn [bind_post]. destruct (at_done a); [|by apply wp_ret, H1].
  apply wp_bind, wp_fail_operation. cbn [bind_post]. by apply wp_ret, H2.
Qed.

Lemma wp_try_sync {A} (m : txn A) h (Q : outcome exn A → attempt → Prop) a :
  wp m env (λ r a',
    match r with
    | Err e =>
        if (length (at_log a') =? length (at_log a))%nat then
          match h e with Some m' => wp m' env Q a' | None => Q (Err e) a' end
        else Q (Err e) a'
    | r => Q r a'
    end) a → wp (try_sync m h) env Q a.
Proof.
  unfold wp, try_sync. destruct (m env a) as [[x|e| |] a']; cbn [fst snd]; try done.
  destruct (_ =? _)%nat; [|done]. by destruct (h e).
Qed.

Lemma wp_on_event_loop {A} (m : txn A) (Q : outcome exn A → attempt → Prop) a :
  wp m env (λ r a', match r with Err _ => Q Fault a' | r => Q r a' end) a → wp (on_event_loop m) env Q a.
Proof.
  intros Hm. apply wp_catch. eapply wp_mono; [exact Hm|]. intros [x|e| |] a' HQ; cbn [catch_post]; done.
Qed.

Lemma wp_ensure_open_bucket {A} bucket (h : option error_code → txn A) (Q : outcome exn A → attempt → Prop) a :
  (∀ ec a', a' = a ∨ a' = next_tick a →
     wp (h ec) env Q a' ∧ wp (h ec) env (λ r a', match r with Err _ => Q Fault a' | r => Q r a' end) a') →
  wp (ensure_open_bucket bucket h) env Q a.
Proof.
  intros Hh. unfold ensure_open_bucket. case_decide; [apply Hh; by left|].
  apply wp_bind, wp_question. cbn [bind_post]. destruct (open_bucket env (at_tick a)) as [[] ec]; [|apply wp_on_event_loop];
    apply Hh; by right.
Qed.

Lemma wp_existing_error b (Q : outcome exn unit → attempt → Prop) a :
  (at_errors a = [] → Q (Ok tt) a) →
  (∀ f, at_errors a ≠ [] → (b = true → cause_ f = PREVIOUS_OPERATION_FAILED) → Q (Err (operation_failed_thrown f)) a) →
  wp (existing_error b) env Q a.
Proof.
  intros H1 H2. unfold existing_error. apply wp_bind, wp_gets. cbn [bind_post].
  case_bool_decide as He; [by apply wp_ret, H1|]. destruct (at_errors a) as [|f fs] eqn:Hf; [done|]. cbn [merge_errors].
  apply wp_throw, H2; [done|]. by intros ->.
Qed.

(** The handler of the caller ends the operation without a result. *)
Lemma cache_error_handler_none {A} e (h : txn (option A)) (Q : outcome exn (option A) → attempt → Prop) a :
  cache_error_handler e = Some h →
  Q (Ok None) a → (∀ e', Q (Ok None) (completed (Some e') a)) → wp h env Q a.
Proof.
  intros Hh H1 H2.
  assert (Hc : ∀ e', wp (op_completed_with_error (A:=A) e') env Q a) by (intros e'; apply wp_completed_with_error, H2).
  unfold cache_error_handler in Hh.
  destruct e; try discriminate Hh; injection Hh as <-; try exact (Hc _).
  destruct (_ || _); [exact (Hc _)|apply wp_ret, H1].
Qed.
End completion.

(** A result comes from the operation itself, which ran without an error that
    was cached before. *)
Lemma wp_cache_error_result {A} env (func : txn (option A)) (P : A → attempt → Prop) a :
  (∀ l, wp func env (λ r a', ∀ x, r = Ok (Some x) → P x a') (set_ops l a)) →
  wp (cache_error_async func) env (λ r a', ∀ x, r = Ok (Some x) → P x a') a.
Proof.
  intros Hf. unfold cache_error_async. apply wp_bind, wp_gets. cbn [bind_post]. destruct (increment_ops (at_ops a)) as [l|].
  2: { apply wp_bind, wp_gets. cbn [bind_post]. apply wp_bind, wp_modify. cbn [bind_post]. by apply wp_ret. }
  apply wp_bind, wp_modify. cbn [bind_post]. apply wp_bind, wp_gets. cbn [bind_post].
  apply wp_catch, wp_try_sync, wp_bind, wp_existing_error; cbn [bind_post].
  - intros _. eapply wp_mono; [apply Hf|].
    assert (Hend : ∀ e a', catch_post (λ _, Some (after ← gets (λ a, length (at_log a));
        if (after =? length (at_log (set_ops l a)))%nat then throw e else fault)) env
        (λ r a', ∀ x, r = Ok (Some x) → P x a') (Err e) a').
    { intros e a'. cbn [catch_post]. apply wp_bind, wp_gets. cbn [bind_post]. destruct (_ =? _)%nat; [by apply wp_throw|by apply wp_fault]. }
    intros [x|e| |] a' Hx; try (cbn [catch_post]; done). destruct (_ =? _)%nat; [|apply Hend].
    destruct (cache_error_handler e) as [h|] eqn:Hh; [|apply Hend].
    by apply (cache_error_handler_none env _ _ _ _ Hh).
  - intros f _ _. rewrite Nat.eqb_refl. cbn [cache_error_handler].
    destruct (_ || _); [by apply wp_completed_with_error|by apply wp_ret].
Qed.
