(* ===== verification/TransactionReads.v ===== *)
(** * Reads of an attempt: theorems

    Which version of a document [do_get] returns, told from the requests in
    the log and their answers; that it ends; and what [get] makes of it. *)

From S2P Require Import Prelude ByteOrder Protocol McbpParser ClientRequest ClientResponse Commands Topology AtrIds Transactions TransactionLinks Attempt AttemptProofs TransactionOps TransactionOpsProofs.

(** ** What the log shows *)

Section visible.
Context `{Json}.

(** The answer to a lookup of the document *)
Definition reads_document (id : document_id) (doc : transaction_get_result) (e : log_entry) : Prop :=
  ((∃ deleted, e.1 = lookup_in id get_doc_specs deleted) ∨ (∃ deleted, e.1 = lookup_in_any_replica id get_doc_specs deleted)) ∧
  resp_ec e.2 = None ∧ create_from_subdoc id e.2 = Ok doc.

(** The record that the document names was looked up, with this result. *)
Definition reads_record (doc : transaction_get_result) (result : error_code + option active_transaction_record)
    (e : log_entry) : Prop :=
  ∃ id, links_atr_id (tg_links doc) = Ok id ∧ e.1 = lookup_in id get_atr_specs false ∧ get_atr_result id e.2 = Ok result.

(** ... and has an entry of the attempt that staged the document. *)
Definition finds_entry (doc : transaction_get_result) (entry : atr_entry) (e : log_entry) : Prop :=
  ∃ record attempt_id, reads_record doc (inr (Some record)) e ∧
    tl_staged_attempt_id (tg_links doc) = Some attempt_id ∧ find_entry attempt_id record = Some entry.

(** A lookup that found no entry of the attempt that can be interpreted, or
    failed *)
Definition misses_entry (attempt_id : bytes) (e : log_entry) : Prop :=
  ∃ doc result, reads_record doc result e ∧ tl_staged_attempt_id (tg_links doc) = Some attempt_id ∧
    ∀ record entry, result = inr (Some record) → find_entry attempt_id record = Some entry →
      check_forward_compat GETS_READING_ATR (ae_forward_compat entry) = Err tt.

Definition is_committed (s : attempt_state) : bool :=
  bool_decide (s = AttemptState.COMMITTED) || bool_decide (s = AttemptState.COMPLETED).

(** What attempt [aid] may read, by what it has looked up, latest first *)
Inductive visible (aid : bytes) (id : document_id) : list log_entry → transaction_get_result → Prop :=
  | visible_plain e l doc :
      reads_document id doc e → is_document_in_transaction (tg_links doc) = false → tl_is_deleted (tg_links doc) = false →
      visible aid id (e :: l) doc
  | visible_own e l doc :
      reads_document id doc e → tl_staged_attempt_id (tg_links doc) = Some aid →
      is_document_being_removed (tg_links doc) = false →
      visible aid id (e :: l) (create_from doc (staged_content_json_or_binary (tg_links doc)))
  | visible_committed er e l doc entry :
      reads_document id doc e → finds_entry doc entry er → is_committed (ae_state entry) = true →
      is_document_being_removed (tg_links doc) = false →
      visible aid id (er :: e :: l) (create_from doc (staged_content_json_or_binary (tg_links doc)))
  | visible_uncommitted er e l doc entry :
      reads_document id doc e → finds_entry doc entry er → is_committed (ae_state entry) = false →
      is_document_being_inserted (tg_links doc) = false →
      visible aid id (er :: e :: l) (create_from doc (tg_content doc))
  | visible_lost e l doc attempt_id er :
      reads_document id doc e → tl_staged_attempt_id (tg_links doc) = Some attempt_id → attempt_id ≠ aid →
      is_document_being_inserted (tg_links doc) = false → er ∈ l → misses_entry attempt_id er →
      visible aid id (e :: l) doc.
End visible.

Section reads.
Context `{Json} (env : environment) (id : document_id).

(** [get_doc] adds one lookup, if any. *)
Lemma get_doc_wp allow_replica a :
  wp (get_doc id allow_replica) env (λ r a', same_operation a a' ∧
    match r with
    | Ok g =>
        match go_ec g, go_doc g with
        | None, Some doc => ∃ e, at_log a' = e :: at_log a ∧ reads_document id doc e
        | _, _ => True
        end
    | _ => True
    end) a.
Proof.
  assert (Hl : ∀ req a, ((∃ deleted, req = lookup_in id get_doc_specs deleted) ∨ (∃ deleted, req = lookup_in_any_replica id get_doc_specs deleted)) →
    wp (execute_lookup id req) env (λ r a', same_operation a a' ∧
      match r with
      | Ok g => match go_ec g, go_doc g with
                | None, Some doc => ∃ e, at_log a' = e :: at_log a ∧ reads_document id doc e
                | _, _ => True
                end
      | _ => True
      end) a).
  { clear a. intros req a Hreq. unfold execute_lookup. apply wp_bind, wp_execute. cbn [bind_post].
    set (resp := reply _ _ _). unfold lookup_error_class. destruct (resp_ec resp) eqn:Hec; cbn [fmap option_fmap option_map].
    - apply wp_bind, wp_lift; cbn [bind_post]; [|by split..]. intros c _.
      destruct (default _ _); apply wp_bind; try (apply wp_ret; cbn [bind_post]; apply wp_ret; by split).
      apply wp_bind, wp_lift; cbn [bind_post]; [|by split..]. intros d _. apply wp_ret. cbn [bind_post]. apply wp_ret. by split.
    - apply wp_bind, wp_lift; cbn [bind_post]; [|by split..]. intros d Hd. apply wp_ret. split; [by split|]. cbn.
      exists (req, resp). by split. }
  unfold get_doc. destruct allow_replica; [|apply Hl; eauto].
  apply wp_bind, wp_question. cbn [bind_post]. destruct (bucket_capabilities _ _) as [ec|caps]; [by apply wp_ret|].
  eapply wp_mono; [apply Hl; eauto|]. intros r a' [Hs Hr]. split; [|exact Hr]. destruct Hs. by split.
Qed.

(** What is known after a document was read: what may be returned, or an
    attempt without an entry *)
Definition resolved (aid : bytes) (L : list log_entry) (r : outcome exn (get_outcome + option bytes)) (a' : attempt) : Prop :=
  match r with
  | Ok (inl g) => ∀ d, go_doc g = Some d → ∃ l, at_log a' = l ++ L ∧ visible aid id l d
  | Ok (inr missing) => ∃ l, at_log a' = l ++ L ∧ ∀ m, missing = Some m → ∃ er, er ∈ l ∧ misses_entry m er
  | _ => True
  end.

Lemma entry_state_match {A} (s : attempt_state) (x y : A) :
  match s with AttemptState.COMPLETED | AttemptState.COMMITTED => x | _ => y end = if is_committed s then x else y.
Proof. by destruct s. Qed.

Lemma resolve_entry_wp doc entry er e l L a :
  at_log a = er :: e :: l ++ L → reads_document id doc e → finds_entry doc entry er →
  tl_staged_attempt_id (tg_links doc) ≠ Some (at_id a) →
  wp (resolve_entry doc (at_id a) entry) env (λ r a', same_operation a a' ∧
    match r with
    | Ok g => resolved (at_id a) L (Ok (inl g)) a'
    | Err _ => at_log a' = at_log a ∧ check_forward_compat GETS_READING_ATR (ae_forward_compat entry) = Err tt
    | _ => True
    end) a.
Proof.
  intros Hlog Hdoc Hentry Hother. unfold resolve_entry.
  assert (Hne : ae_attempt_id entry ≠ at_id a).
  { destruct Hentry as (record & m & _ & Hm & Hf). intros Heq. apply Hother. rewrite Hm. f_equal. rewrite <-Heq.
    unfold find_entry in Hf. destruct (list_find _ _) as [[i x]|] eqn:Hx; [|done]. injection Hf as <-.
    by apply list_find_Some in Hx as (_ & <- & _). }
  rewrite decide_False by done. apply wp_bind.
  destruct (check_forward_compat _ _) as [err|[]| |] eqn:Hfc; cbn [lift]; [apply wp_ret; cbn [bind_post]| |by split..].
  2: { apply wp_throw. by split. }
  apply wp_ret. split; [done|]. intros d Hd. exists (er :: e :: l). split; [done|].
  destruct err as [f|]; [done|]. rewrite entry_state_match in Hd. destruct (is_committed (ae_state entry)) eqn:Hc.
  - destruct (is_document_being_removed _) eqn:Hr; [done|]. injection Hd as <-. by eapply visible_committed.
  - destruct (is_document_being_inserted _) eqn:Hi; [done|]. injection Hd as <-. by eapply visible_uncommitted.
Qed.

(** What is made of a document that was read last *)
Lemma resolve_document_wp doc missing e l L a :
  at_log a = e :: l ++ L → reads_document id doc e →
  (∀ m, missing = Some m → ∃ er, er ∈ l ∧ misses_entry m er) →
  wp (resolve_document doc missing) env (λ r a', same_operation a a' ∧ resolved (at_id a) L r a') a.
Proof.
  intros Hlog Hdoc Hmiss. unfold resolve_document. apply wp_bind, wp_gets. cbn [bind_post].
  assert (Hdone : ∀ g, (∀ d, go_doc g = Some d → visible (at_id a) id (e :: l) d) →
    wp (mret (inl (B:=option bytes) g)) env (λ r a', same_operation a a' ∧ resolved (at_id a) L r a') a).
  { intros g Hg. apply wp_ret. split; [done|]. intros d Hd. exists (e :: l). split; [done|by apply Hg]. }
  destruct (is_document_in_transaction _) eqn:Htxn; cbn [negb];
    [|apply Hdone; intros d; destruct (tl_is_deleted _) eqn:Hdel; [done|]; intros [= <-]; by apply visible_plain].
  destruct (decide _) as [Hown|Hother].
  { apply Hdone. intros d. destruct (is_document_being_removed _) eqn:Hrem; [done|]. intros [= <-]. by apply visible_own. }
  destruct (_ && _) eqn:Hlost.
  { apply andb_true_iff in Hlost as [Hm Heq%bool_decide_eq_true]. destruct missing as [m|]; [|done].
    apply Hdone. intros d. destruct (is_document_being_inserted _) eqn:Hins; [done|]. intros [= <-].
    destruct (Hmiss m eq_refl) as (er & Her & Hmr). apply (visible_lost _ _ _ _ _ m er); try done. congruence. }
  clear Hdone Hlost Hmiss. apply wp_bind, wp_lift; cbn [bind_post]; [|by split..]. intros rid Hrid.
  unfold get_atr. apply wp_bind, wp_bind, wp_execute. cbn [bind_post]. set (er := (_, _)).
  apply wp_lift; cbn [bind_post]; [|by split..]. intros result Hres.
  assert (Hread : reads_record doc result er) by (by exists rid). clear Hres.
  assert (Hagain : ∀ a', at_log a' = er :: e :: l ++ L →
    (∀ record m entry, tl_staged_attempt_id (tg_links doc) = Some m → result = inr (Some record) →
       find_entry m record = Some entry → check_forward_compat GETS_READING_ATR (ae_forward_compat entry) = Err tt) →
    resolved (at_id a) L (Ok (inr (tl_staged_attempt_id (tg_links doc)))) a').
  { intros a' Hl Hn. exists (er :: e :: l). split; [done|]. intros m Hm. exists er. split; [apply elem_of_cons; by left|].
    exists doc, result. split_and!; [done..|]. intros record entry Hr. by apply (Hn record m). }
  set (a' := set_log _ _). assert (Hlog' : at_log a' = er :: e :: l ++ L) by (unfold a'; cbn; by rewrite Hlog).
  assert (Hsame : same_operation a a') by (unfold a'; split; reflexivity). clearbody a' er.
  apply wp_catch. destruct result as [ec|[record|]]; try (apply wp_ret; split; [done|]; by apply Hagain).
  assert (Hfind : ∀ m, tl_staged_attempt_id (tg_links doc) = Some m → staged_entry (tg_links doc) record = Ok (find_entry m record)).
  { intros m Hm. unfold staged_entry. rewrite Hm. unfold find_entry. by destruct (ar_entries record). }
  destruct (tl_staged_attempt_id (tg_links doc)) as [m|] eqn:Hm.
  2: { unfold staged_entry. rewrite Hm. destruct (ar_entries record); cbn [lift];
         (apply wp_bind; first [apply wp_throw|apply wp_ret]; cbn [bind_post catch_post catches_std]; apply wp_ret; split; [done|];
          apply Hagain; [done|]; by intros ? ? ? ?). }
  rewrite (Hfind m eq_refl). cbn [lift]. apply wp_bind, wp_ret. cbn [bind_post].
  destruct (find_entry m record) as [entry|] eqn:Hentry.
  - apply wp_bind. rewrite <-(same_id _ _ Hsame). eapply wp_mono; [apply (resolve_entry_wp doc entry er e l L a'); [done..| |]|].
    + exists record, m. eauto.
    + rewrite Hm, (same_id _ _ Hsame). done.
    + intros r a'' [Hs Hr]. destruct r as [g|ex| |]; cbn [bind_post]; [apply wp_ret; cbn [catch_post]; (split; [by etrans|done])| |
        cbn [catch_post]; (split; [by etrans|done])..].
      destruct Hr as [Hl Hfc]. assert (Ha : same_operation a a'') by by etrans. rewrite (same_id _ _ Hsame).
      assert (Hw : wp (mret (inr (Some m))) env (λ r a', same_operation a a' ∧ resolved (at_id a) L r a') a'').
      { apply wp_ret. split; [done|]. apply Hagain; [by rewrite Hl|]. intros record' m' entry' [= <-] [= <-] Hf.
        rewrite Hentry in Hf. by injection Hf as <-. }
      destruct ex; cbn [catch_post catches_std]; done.
  - apply wp_ret. split; [done|]. apply Hagain; [done|]. intros record' m' entry [= <-] [= <-] Hf. by rewrite Hentry in Hf.
Qed.

Lemma do_get_wp fuel allow_replica missing l L a :
  at_log a = l ++ L → (∀ m, missing = Some m → ∃ er, er ∈ l ∧ misses_entry m er) →
  wp (do_get fuel id allow_replica missing) env (λ r a',
    ∀ g d, r = Ok g → go_doc g = Some d →
    own_write_content id (at_staged a) = Some d ∨ ∃ l, at_log a' = l ++ L ∧ visible (at_id a) id l d) a.
Proof.
  revert missing l a. induction fuel as [|fuel IH]; intros missing l a Hlog Hmiss; cbn [do_get]; [by apply wp_diverge|].
  apply wp_bind. unfold check_expiry_pre_commit. apply wp_bind, wp_question. cbn [bind_post].
  destruct (_ || _).
  { apply wp_bind, wp_modify. cbn [bind_post]. apply wp_ret. cbn [bind_post]. apply wp_ret. by intros g d [= <-]. }
  apply wp_ret. cbn [bind_post]. apply wp_bind, wp_gets. cbn [bind_post next_tick at_staged].
  destruct (own_write_content id (at_staged a)) as [doc|] eqn:Hown; [apply wp_ret; intros g d [= <-] [= <-]; by left|].
  destruct (has _); [apply wp_ret; by intros g d [= <-]|].
  apply wp_bind, wp_question. cbn [bind_post]. destruct (hook_error _ _ _); [apply wp_ret; by intros g d [= <-]|].
  apply wp_bind. eapply wp_mono; [apply get_doc_wp|]. intros [g|ex| |] a1 [Hs Hg]; cbn [bind_post]; try done.
  destruct (go_ec g); [apply wp_ret; by intros ? d [= <-]|]. destruct (go_doc g) as [doc|]; [|apply wp_ret; by intros ? d [= <-]].
  destruct Hg as (e & Hlog1 & Hdoc). cbn in Hlog1. rewrite Hlog in Hlog1.
  apply wp_bind. eapply wp_mono; [by apply (resolve_document_wp doc missing e l L a1)|].
  assert (Hid : at_id a1 = at_id a) by apply (same_id _ _ Hs).
  intros [[g'|missing']|ex| |] a2 [Hs2 Hr]; cbn [bind_post]; try done.
  - apply wp_ret. intros ? d [= <-] Hd. right. rewrite Hid in Hr. by apply Hr.
  - destruct Hr as (l' & Hlog' & Hm'). eapply wp_mono; [by apply (IH missing' l' a2)|].
    intros r a3 Hr g' d' Hok Hd. rewrite (same_id _ _ Hs2), Hid, (same_staged _ _ Hs2), (same_staged _ _ Hs) in Hr.
    cbn [next_tick at_staged] in Hr. rewrite Hown in Hr. exact (Hr g' d' Hok Hd).
Qed.
End reads.

(** ** What the callers get *)

Section get_optional.
Context `{Json, !QueryMode} (env : environment) (id : document_id) (a0 : attempt).

(** A document that the attempt staged itself, or that it may see *)
Definition readable (L : list log_entry) (d : transaction_get_result) (a' : attempt) : Prop :=
  own_write_content id (at_staged a0) = Some d ∨ ∃ l, at_log a' = l ++ L ∧ visible (at_id a0) id l d.

Lemma readable_log L d a a' : at_log a' = at_log a → readable L d a → readable L d a'.
Proof. intros Hl [Ho|(l & Ha & Hv)]; [by left|]. right. exists l. by rewrite Hl. Qed.

Definition optional_result (L : list log_entry) (x : option transaction_get_result) (a' : attempt) : Prop :=
  ∀ d, x = Some d → readable L d a'.

Lemma wp_after_get g (Q : outcome exn (option error_class) → attempt → Prop) a :
  (∀ ec a', a' = a ∨ a' = next_tick a → (∀ c, go_ec g = Some c → ec = Some c) → Q (Ok ec) a') → wp (after_get g) env Q a.
Proof.
  intros HQ. unfold after_get. destruct (go_ec g) as [ec|]; [apply wp_ret, HQ; [by left|done]|].
  apply wp_question, HQ; [by right|done].
Qed.

Lemma complete_get_wp {A} doc (x : A) (P : A → attempt → Prop) a :
  (∀ a', at_log a' = at_log a → P x a') →
  wp (complete_get doc x) env (λ r a', ∀ y, r = Ok (Some y) → P y a') a.
Proof.
  intros HP. unfold complete_get. apply wp_bind, wp_lift; cbn [bind_post]; try (intros; discriminate).
  intros err _. destruct err as [f|]; [by apply wp_fail_operation|].
  apply wp_completed_with_callback. intros y [= <-]. apply HP. unfold completed. by destruct (decrement_ops _).
Qed.

Lemma failed_without_result {A} f (P : A → attempt → Prop) a :
  wp (fail_operation f) env (λ r a', ∀ y, r = Ok (Some y) → P y a') a.
Proof. by apply wp_fail_operation. Qed.
(** [get_optional] behind the checks *)
Lemma optional_read_wp fuel L a :
  at_log a = L → at_id a = at_id a0 → at_staged a = at_staged a0 →
  wp (g ← do_get fuel id false None;
      ec ← after_get g;
      match ec with
      | Some FAIL_EXPIRY => fail_operation (expired (operation_failed_with FAIL_EXPIRY (go_cause g)))
      | Some FAIL_DOC_NOT_FOUND => op_completed_with_callback None
      | Some FAIL_TRANSIENT => fail_operation (retry (operation_failed_with FAIL_TRANSIENT (go_cause g)))
      | Some FAIL_HARD => fail_operation (no_rollback (operation_failed_with FAIL_HARD (go_cause g)))
      | Some _ => fail_operation (operation_failed_with FAIL_OTHER (go_cause g))
      | None => match go_doc g with Some doc => complete_get doc (Some doc) | None => op_completed_with_callback None end
      end) env (λ r a', ∀ x, r = Ok (Some x) → optional_result L x a') a.
Proof.
  intros Hlog Hid Hst. apply wp_bind. eapply wp_mono; [by apply (do_get_wp env id fuel false None [] L a)|].
  assert (Hnone : ∀ a', wp (op_completed_with_callback None) env (λ r a', ∀ x, r = Ok (Some x) → optional_result L x a') a').
  { intros a'. apply wp_completed_with_callback. by intros x [= <-]. }
  intros [g|ex| |] a1 Hg; cbn [bind_post]; try (intros; discriminate).
  apply wp_bind, wp_after_get. intros ec a2 Ha2 _. cbn [bind_post].
  assert (Hl2 : at_log a2 = at_log a1) by (by destruct Ha2 as [->| ->]).
  destruct ec as [c|]; [destruct c; match goal with |- wp (fail_operation _) _ _ _ => apply failed_without_result | _ => apply Hnone end|].
  destruct (go_doc g) as [d|] eqn:Hd; [|apply Hnone].
  apply complete_get_wp. intros a3 Hl3 d' [= <-].
  specialize (Hg g d eq_refl Hd). rewrite Hst, Hid in Hg. apply (readable_log L d a1); [by rewrite Hl3|exact Hg].
Qed.
End get_optional.

(** C5: An attempt reads committed data: what [get_optional] returns is what
    the attempt staged itself, or a document that was looked up, in the
    version the other transaction makes visible -- the body without a staged
    change or when its record does not say that it was committed, the staged
    content when its record says that it was committed; never a staged
    insertion or removal of a transaction that is not decided, except that the
    body is read when the record or its entry could not be found. *)
Theorem read_committed `{Json, !QueryMode} fuel id env a d a' :
  at_is_query a = false →
  get_optional fuel id env a = (Ok (Some (Some d)), a') →
  own_write_content id (at_staged a) = Some d ∨ ∃ l, at_log a' = l ++ at_log a ∧ visible (at_id a) id l d.
Proof.
  intros Hq Hget.
  enough (Hwp : wp (get_optional fuel id) env (λ r a', ∀ x, r = Ok (Some x) → optional_result id a (at_log a) x a') a).
  { unfold wp in Hwp. rewrite Hget in Hwp. exact (Hwp _ eq_refl d eq_refl). }
  clear Hget a' d. unfold get_optional. apply wp_bind, wp_gets. cbn [bind_post]. rewrite Hq.
  apply wp_cache_error_result. intros l0. apply wp_ensure_open_bucket. intros ec a1 Ha1.
  assert (Hstart : at_log a1 = at_log a ∧ at_id a1 = at_id a ∧ at_staged a1 = at_staged a) by (destruct Ha1 as [->| ->]; done).
  clear Ha1 Hq. destruct Hstart as (Hlog & Hid & Hst).
  match goal with |- ?G ∧ _ => enough (Hm : G) end.
  { split; [exact Hm|]. eapply wp_mono; [exact Hm|]. by intros [x|e| |] a2 Hx. }
  destruct (has ec); [by apply failed_without_result|].
  apply wp_bind, wp_check_if_done; intros _; cbn [bind_post]; apply optional_read_wp; try done;
    unfold completed; by destruct (decrement_ops _).
Qed.

(** ** An example *)

#[local] Instance no_query_mode `{Json} : QueryMode := {|
  get_with_query _ _ := fault; insert_raw_with_query _ _ := fault; replace_raw_with_query _ _ := fault; remove_with_query _ := fault;
|}.

(** The document that attempt [97] inserted, and its record that is committed *)
Definition example_record : list (bytes * json) :=
  [([50], JObject [([97], JObject [(ATR_FIELD_STATUS, JString (attempt_state_name AttemptState.COMMITTED))])]);
   ([51], JObject [(ascii "HLC", JObject [(ascii "now", JString (ascii "1"))])])].
#[local] Instance example_reading : Json := table_json (example_table ++ example_record).

Definition example_answer (n : nat) (req : request) : response :=
  match req with
  | lookup_in id _ _ => if bool_decide (id_key id = [114]) then Response None None 7 false [([50], 0); ([51], 0)] else example_response
  | _ => response_ok
  end.
Definition example_attempt : attempt := fresh_attempt [120] (pending_attempt []).
Definition example_read := get_optional 5 (document_id_of_key [98] [107]) (calm_environment example_answer) example_attempt.

Lemma read_committed_witness :
  ∃ d l, example_read.1 = Ok (Some (Some d)) ∧ ev_data (tg_content d) = [10; 11] ∧
    at_log example_read.2 = l ++ [] ∧ visible [120] (document_id_of_key [98] [107]) l d.
Proof.
  assert (Hr : ∃ d, example_read.1 = Ok (Some (Some d)) ∧ ev_data (tg_content d) = [10; 11])
    by (eexists; split; vm_compute; reflexivity).
  destruct Hr as (d & Hr & Hd). exists d.
  destruct (read_committed 5 (document_id_of_key [98] [107]) (calm_environment example_answer) example_attempt d example_read.2)
    as [Hown|(l & Hl & Hv)].
  - reflexivity.
  - rewrite <-Hr. unfold example_read. apply surjective_pairing.
  - discriminate Hown.
  - exists l. by split_and!.
Defined.
