(* ===== verification/TransactionStaging.v ===== *)
(** * Staging: theorems

    How the insertions, replacements and removals of an attempt end: their
    callback, the queue of staged mutations and the errors kept; which
    requests they send, in which order; and what a failed operation means for
    the rest of the attempt. *)

From S2P Require Import Prelude ByteOrder Protocol McbpParser ClientRequest ClientResponse Commands Topology AtrIds Transactions TransactionLinks Attempt AttemptProofs TransactionOps TransactionOpsProofs TransactionReads.

(** ** How an operation ends *)

(** The callback was called with [c]. *)
Definition ops_ended (l : op_list) : op_list := default (decrement_in_flight l) (decrement_ops (decrement_in_flight l)).
Definition failures_of (c : option exn) : list operation_failure :=
  match c with Some (operation_failed_thrown f) => [f] | _ => [] end.

Record called (c : option exn) (a a' : attempt) : Prop := {
  called_once : at_calls a' = c :: at_calls a;
  called_ops : at_ops a' = ops_ended (at_ops a);
  called_errors : at_errors a' = at_errors a ++ failures_of c;
}.

Lemma completed_called c a : called c a (completed c a).
Proof.
  unfold completed. split; [by destruct (decrement_ops _); destruct c as [[]|]| |].
  - unfold ops_ended. destruct c as [[]|]; cbn; unfold decrement_ops, change_count, decrement_in_flight; cbn; destruct (op_allow _); reflexivity.
  - destruct (decrement_ops _); destruct c as [[]|]; cbn; by rewrite ?app_nil_r.
Qed.

Lemma completed_same c a :
  at_log (completed c a) = at_log a ∧ at_staged (completed c a) = at_staged a ∧ at_id (completed c a) = at_id a ∧
  at_done (completed c a) = at_done a ∧ at_is_query (completed c a) = at_is_query a ∧ at_atr_id (completed c a) = at_atr_id a.
Proof. unfold completed. by destruct (decrement_ops _); destruct c as [[]|]. Qed.

(** The parts of an attempt that outlive an operation; the record is chosen
    once, before anything is staged. *)
Record goes_on (a a' : attempt) : Prop := {
  on_id : at_id a' = at_id a;
  on_done : at_done a' = at_done a;
  on_query : at_is_query a' = at_is_query a;
  on_atr : ∀ id, at_atr_id a = Some id → at_atr_id a' = Some id;
  on_staged : at_atr_id a' = None → at_staged a' = at_staged a;
}.

#[export] Instance goes_on_preorder : PreOrder goes_on.
Proof.
  split; [by split|]. intros a b c [? ? ? H1 H2] [? ? ? H3 H4]. split; [congruence..|eauto|].
  intros Hc. rewrite H4 by done. apply H2. destruct (at_atr_id b) as [id|]; [|done]. by rewrite (H3 id) in Hc.
Qed.

Lemma frame_goes_on P a a' : frame P a a' → goes_on a a'.
Proof. intros ([] & Ha & _). split; try done. by rewrite Ha. Qed.

Lemma completed_goes_on c a : goes_on a (completed c a).
Proof. destruct (completed_same c a) as (_ & ? & ? & ? & ? & Ha). split; try done. by rewrite Ha. Qed.

Section ends.
Context {A : Type} (grows : Prop) (G R : list log_entry → Prop)
  (K : A → list log_entry → staged_mutation_queue → staged_mutation_queue → Prop).

(** An operation that started in [a]: it calls back once, with an exception and
    nothing staged or with a result and the effect [K]; or it throws and
    nothing has ended.  [l] is what it sent.  When it chose a record, then [R]
    or it failed. *)
Definition outcome_of (a : attempt) (l : list log_entry) (r : outcome exn (option A)) (a' : attempt) : Prop :=
  match r with
  | Ok x => ∃ c, called c a a' ∧ (at_atr_id a' = at_atr_id a ∨ R l ∨ at_errors a' ≠ []) ∧
      match x with
      | Some x => c = None ∧ K x l (at_staged a) (at_staged a')
      | None => c ≠ None ∧ at_staged a' = at_staged a
      end
  | Err e => same_operation a a' ∧ ordinary e ∧ (grows → l ≠ []) ∧ (at_atr_id a' = at_atr_id a ∨ R l ∨ l ≠ [])
  | _ => True
  end.

Definition ends (a : attempt) (r : outcome exn (option A)) (a' : attempt) : Prop :=
  goes_on a a' ∧ ∃ l, at_log a' = l ++ at_log a ∧ G l ∧ outcome_of a l r a'.

(** The operation goes on and has sent [l]. *)
Record sent (a : attempt) (l : list log_entry) (a' : attempt) : Prop := {
  st_same : same_operation a a';
  st_goes_on : goes_on a a';
  st_log : at_log a' = l ++ at_log a;
  st_good : G l;
}.
Record started (a : attempt) (l : list log_entry) (a' : attempt) : Prop := {
  st_sent : sent a l a';
  st_atr : at_atr_id a' = at_atr_id a ∨ R l;
}.

Lemma started_good a l a' : started a l a' → G l.
Proof. by intros [[] _]. Qed.
Lemma started_same a l a' : started a l a' → same_operation a a'.
Proof. by intros [[] _]. Qed.
Lemma started_goes_on a l a' : started a l a' → goes_on a a'.
Proof. by intros [[] _]. Qed.

Lemma started_next a l a' : started a l a' → started a l (next_tick a').
Proof. intros [[[] [] ? ?] ?]. split; [split; [by split|by split|done..]|done]. Qed.
Lemma started_overtime a l a' : started a l a' → started a l (set_overtime a').
Proof. intros [[[] [] ? ?] ?]. split; [split; [by split|by split|done..]|done]. Qed.
Lemma started_refl a : G [] → started a [] a.
Proof. intros HG. split; [by split|by left]. Qed.

Context (env : environment).

Lemma sent_error e a l a' :
  sent a l a' → at_atr_id a' = at_atr_id a ∨ R l ∨ failures_of (Some e) ≠ [] →
  wp (op_completed_with_error e) env (ends a) a'.
Proof.
  intros [Hs Hg Hl Hgood] Hatr. apply wp_completed_with_error. destruct (completed_same (Some e) a') as (Hlog & Hst & _ & _ & _ & Ha).
  split; [etrans; [exact Hg|apply completed_goes_on]|]. exists l. rewrite Hlog, Hl. split_and!; [done..|].
  exists (Some e). destruct (completed_called (Some e) a') as [H1 H2 H3]. split_and!.
  - split; [by rewrite H1, (same_calls _ _ Hs)|by rewrite H2, (same_ops _ _ Hs)|by rewrite H3, (same_errors _ _ Hs)].
  - rewrite Ha, H3. destruct Hatr as [?|[?|Hf]]; [by left|by right; left|right; right]. by intros [_ ?]%app_eq_nil.
  - done.
  - by rewrite Hst, (same_staged _ _ Hs).
Qed.

Lemma sent_throw e a l a' :
  sent a l a' → ordinary e → (grows → l ≠ []) → at_atr_id a' = at_atr_id a ∨ R l ∨ l ≠ [] → ends a (Err e) a'.
Proof. intros [Hs Hg Hl Hgood] He Hl' Ha. split; [done|]. by exists l. Qed.
Lemma sent_other r a l a' : sent a l a' → r = Fault ∨ r = Diverge → ends a r a'.
Proof. intros [Hs Hg Hl Hgood] [-> | ->]; (split; [done|by exists l]). Qed.

Lemma end_error e a l a' : started a l a' → wp (op_completed_with_error e) env (ends a) a'.
Proof. intros [Hs Ha]. eapply sent_error; [done|tauto]. Qed.
Lemma end_fail f a l a' : started a l a' → wp (fail_operation f) env (ends a) a'.
Proof. apply end_error. Qed.
(** A handler that makes an exception the failure of the operation *)
Lemma try_sync_ends m f a a' :
  wp m env (ends a) a' → wp (try_sync m (catches_std (fail_operation f))) env (ends a) a'.
Proof.
  intros Hm. apply wp_try_sync. eapply wp_mono; [exact Hm|]. intros [x|e| |] a1 He; try exact He. cbn beta iota.
  destruct (_ =? _)%nat; [|exact He]. destruct He as (Hg & l & Hl & Hgood & Hs & Ho & _).
  destruct e; try done; (eapply sent_error; [by split|by right; right]).
Qed.

Lemma end_throw e a l a' : started a l a' → ordinary e → (grows → l ≠ []) → ends a (Err e) a'.
Proof. intros [Hs Ha] He Hl. eapply sent_throw; [done..|tauto]. Qed.
Lemma end_other r a l a' : started a l a' → r = Fault ∨ r = Diverge → ends a r a'.
Proof. intros [Hs _]. by eapply sent_other. Qed.

Lemma end_fault a l a' : started a l a' → wp fault env (ends a) a'.
Proof. intros Hs. apply wp_fault. eapply end_other; eauto. Qed.
Lemma end_diverge a l a' : started a l a' → wp diverge env (ends a) a'.
Proof. intros Hs. apply wp_diverge. eapply end_other; eauto. Qed.

(** The result, with the mutation staged *)
Lemma end_staged (x : A) f a l a' :
  started a l a' → (at_atr_id a' = None → f (at_staged a) = at_staged a) → K x l (at_staged a) (f (at_staged a)) →
  wp (_ ← modify (λ a, set_staged (f (at_staged a)) a); op_completed_with_callback x) env (ends a) a'.
Proof.
  intros [[Hs Hg Hl Hgood] Hatr] Hf HK. apply wp_bind, wp_modify. cbn [bind_post]. apply wp_completed_with_callback.
  set (a2 := set_staged _ a'). destruct (completed_same None a2) as (Hlog & Hst & _ & _ & _ & Ha).
  assert (H2 : goes_on a a2).
  { destruct Hg; split; try done. intros Hn. cbn. rewrite (same_staged _ _ Hs). by apply Hf. }
  split; [etrans; [exact H2|apply completed_goes_on]|]. exists l. rewrite Hlog. split_and!; [done..|].
  exists None. destruct (completed_called None a2) as [H3 H4 H5]. split; [|split; [rewrite Ha; tauto|]].
  - split; [by rewrite H3; cbn; rewrite (same_calls _ _ Hs)|by rewrite H4; cbn; rewrite (same_ops _ _ Hs)|by rewrite H5; cbn; rewrite (same_errors _ _ Hs)].
  - split; [done|]. rewrite Hst. cbn. by rewrite (same_staged _ _ Hs).
Qed.

(** Steps before the end *)
Lemma step_hook {B} h (f : option error_class → txn B) Q a l a' :
  no_hooks env → started a l a' → (∀ a', started a l a' → wp (f None) env Q a') → wp (wait_for_hook h ≫= f) env Q a'.
Proof. intros Hh Hs Hf. apply wp_bind, wp_wait_for_hook; [done|]. by apply Hf, started_next. Qed.

Lemma step_if_expired {B} s (f : option error_class → txn B) Q a l a' :
  started a l a' → (∀ ec a', started a l a' → ec = None ∨ ec = Some FAIL_EXPIRY → wp (f ec) env Q a') →
  wp (error_if_expired_and_not_in_overtime s ≫= f) env Q a'.
Proof.
  intros Hs Hf. apply wp_bind, wp_error_if_expired; intros _; (apply Hf; [done || by apply started_next|]); [by left|].
  destruct (_ || _); [by right|by left].
Qed.

Lemma step_question {B C} (g : environment → nat → B) (f : B → txn C) Q a l a' :
  started a l a' → (∀ x a', started a l a' → wp (f x) env Q a') → wp (question g ≫= f) env Q a'.
Proof. intros Hs Hf. apply wp_bind, wp_question. by apply Hf, started_next. Qed.

Lemma step_execute {B} req (f : response → txn B) Q a l a' :
  started a l a' → (∀ resp, G ((req, resp) :: l)) → (∀ e, R l → R (e :: l)) →
  (∀ resp a', started a ((req, resp) :: l) a' → wp (f resp) env Q a') → wp (execute req ≫= f) env Q a'.
Proof.
  intros [[[] [] Hl Hgood] Hatr] HG HR Hf. apply wp_bind, wp_execute. apply Hf.
  split; [split; [by split|by split| |apply HG]; cbn; by rewrite Hl|]. destruct Hatr; [by left|right; by apply HR].
Qed.

Lemma step_lift {B} (o : thrown B) (f : B → txn (option A)) a l a' :
  started a l a' → (grows → l ≠ []) → (∀ x, o = Ok x → wp (f x) env (ends a) a') → wp (lift o ≫= f) env (ends a) a'.
Proof.
  intros Hs Hl Hf. apply wp_bind, wp_lift; cbn [bind_post]; [exact Hf|by eapply end_throw|eapply end_other; eauto..].
Qed.

Lemma step_exp_delay timeout d (f : exp_delay → txn (option A)) a l a' :
  started a l a' → (grows → l ≠ []) → (∀ d a', started a l a' → wp (f d) env (ends a) a') →
  wp (exp_delay_call timeout d ≫= f) env (ends a) a'.
Proof.
  intros Hs Hl Hf. apply wp_bind. unfold exp_delay_call. apply wp_bind, wp_question. cbn [bind_post].
  assert (Hs' := started_next _ _ _ Hs). destruct (decide _); [by eapply end_throw|].
  destruct (ed_end_time d).
  - destruct (decide _); [by eapply end_throw|]. apply wp_ret. by apply Hf.
  - apply wp_bind, wp_question. cbn [bind_post]. apply wp_ret. by apply Hf, started_next.
Qed.
End ends.

(** ** Staging a document *)

(** A mutation that writes or removes the transactional metadata of a
    document *)
Definition stages_document (id : document_id) (req : mutate_in_request) : Prop :=
  document_name (mi_id req) = document_name id ∧ TRANSACTION_INTERFACE_PREFIX_ONLY ∈ sc_path <$> mi_specs req.

Definition doc_entry (id : document_id) (e : log_entry) : Prop :=
  is_lookup e ∨ ∃ req, e.1 = mutate_in req ∧ stages_document id req.

(** The latest request staged the mutation, and the server accepted it. *)
Definition written (m : staged_mutation) (l : list log_entry) : Prop :=
  ∃ req resp l', l = (mutate_in req, resp) :: l' ∧ stages_document (sm_id m) req ∧
    error_class_from_response resp = Ok None ∧ sm_cas m = resp_cas resp.

(** The latest request read the document as attempt [aid] had staged it. *)
Definition found `{Json} (aid : bytes) (m : staged_mutation) (l : list log_entry) : Prop :=
  ∃ e doc l', l = e :: l' ∧ reads_document (sm_id m) doc e ∧
    tl_staged_attempt_id (tg_links doc) = Some aid ∧ sm_cas m = tg_cas doc.

Section tails.
Context `{Json} (env : environment) (Hhooks : no_hooks env) (id : document_id) (a0 : attempt) (Hrecord : at_atr_id a0 ≠ None).

(** The effects of the three ways to stage *)
Definition staged_as (t : staged_mutation_type) (d : transaction_get_result) (l : list log_entry)
    (q q' : staged_mutation_queue) : Prop :=
  ∃ m, q' = Queue.add m q ∧ document_name (sm_id m) = document_name id ∧ sm_type m = t ∧ tg_cas d = sm_cas m ∧
    (written m l ∨ (t = INSERT ∧ found (at_id a0) m l)).
Definition staged_removal (_ : unit) (l : list log_entry) (q q' : staged_mutation_queue) : Prop :=
  ∃ m, q' = Queue.add m q ∧ document_name (sm_id m) = document_name id ∧ sm_type m = REMOVE ∧ written m l.
(** The staged insertion was removed from the server and the queue. *)
Definition unstaged (_ : unit) (l : list log_entry) (q q' : staged_mutation_queue) : Prop :=
  q' = Queue.remove_any id q ∧ ∃ req resp l', l = (mutate_in req, resp) :: l' ∧ stages_document id req ∧
    error_class_from_response resp = Ok None.

Abbreviation good := (Forall (doc_entry id)).
Abbreviation never := (λ _ : list log_entry, False).
Abbreviation ends_tail := (λ K, ends True good never K a0).

Lemma record_chosen (q : staged_mutation_queue) a l : started good never a0 l a → at_atr_id a = None → q = at_staged a0.
Proof.
  intros Hs Hn. destruct (at_atr_id a0) as [rid|] eqn:Ha; [|done]. by rewrite (on_atr _ _ (started_goes_on _ _ _ _ _ Hs) rid) in Hn.
Qed.

Lemma good_write req resp l : stages_document id req → good l → good ((mutate_in req, resp) :: l).
Proof. intros Hr Hl. constructor; [right; by exists req|done]. Qed.

Lemma staged_replace_stages txn content level cas flags :
  stages_document id (staged_replace_request id txn content level cas flags).
Proof. split; [by destruct (level =? 0) eqn:?|]. apply elem_of_cons. by left. Qed.

Lemma create_staged_replace_ends content flags cas op_id metadata a l :
  started good never a0 l a →
  wp (create_staged_replace id content flags cas op_id metadata) env (ends_tail (staged_as REPLACE)) a.
Proof.
  intros Hs. assert (Herr : ∀ ec c a l, started good never a0 l a → wp (create_staged_replace_error ec c) env (ends_tail (staged_as REPLACE)) a).
  { intros ec c ? ? ?. unfold create_staged_replace_error. destruct ec; by eapply end_fail. }
  unfold create_staged_replace, attempt_metadata. apply wp_bind, wp_bind, wp_asks. cbn [bind_post].
  do 2 (apply wp_bind, wp_gets; cbn [bind_post]). apply wp_ret. cbn [bind_post]. apply wp_bind, wp_asks. cbn [bind_post].
  eapply step_hook; [done..|]. clear Hs. intros ? Hs. eapply step_execute; [done|intros; by apply good_write, (started_good _ _ _ _ _ Hs); apply staged_replace_stages|done|].
  clear Hs. intros resp ? Hs. unfold response_class. eapply step_lift; [done..|]. intros ec Hec. destruct ec as [ec|].
  { eapply step_lift; [done..|]. intros c _. by eapply Herr. }
  eapply step_hook; [done..|]. clear Hs. intros ? Hs. unfold atr_key_unchecked.
  apply wp_bind, wp_bind, wp_gets. cbn [bind_post]. case_match; [|apply wp_fault; eapply end_other; eauto].
  apply wp_ret. cbn [bind_post]. apply wp_bind, wp_asks. cbn [bind_post]. apply wp_bind, wp_gets. cbn [bind_post].
  unfold supports_replace_body_with_xattr. apply wp_bind. eapply step_question; [done|]. clear Hs. intros config ? Hs.
  apply wp_ret. cbn [bind_post]. destruct config as [e|caps]; [by eapply Herr|]. unfold stage.
  eapply end_staged; [done|by eapply record_chosen|]. eexists. split_and!; [reflexivity..|]. left. eexists _, _, _. split_and!; [reflexivity| |done|reflexivity].
  apply staged_replace_stages.
Qed.

(** *** Insertions *)

Lemma staged_insert_stages i txn level cas : in_id i = id → stages_document id (staged_insert_request i txn level cas).
Proof. intros Hi. split; [cbn; by rewrite Hi|]. apply elem_of_cons. by left. Qed.

Lemma create_from_subdoc_id resp d : create_from_subdoc id resp = Ok d → tg_id d = id.
Proof.
  unfold create_from_subdoc. intros Hd.
  repeat (apply bind_Ok in Hd as (? & _ & Hd); repeat case_match). by injection Hd as <-.
Qed.

Lemma existing_document_error_ends {A} (K : A → _) ec a l :
  started good never a0 l a → wp (existing_document_error ec) env (ends_tail K) a.
Proof.
  intros Hs. unfold existing_document_error. apply wp_bind, wp_gets. cbn [bind_post].
  case_match; [by eapply end_fail|]. destruct ec; by eapply end_fail.
Qed.

Section insertion.
Context (i : insertion) (Hi : in_id i = id) (again : Z → exp_delay → txn (option transaction_get_result))
  (Hagain : ∀ cas delay a l, started good never a0 l a → wp (again cas delay) env (ends_tail (staged_as INSERT)) a).

(** The lookups of other records before the insertion goes on *)
Lemma step_framed {A B} (m : txn A) (f : A → txn (option B)) (K : B → _) a l :
  framed env is_lookup m → started good never a0 l a → l ≠ [] →
  (∀ x a' l', started good never a0 l' a' → l' ≠ [] → wp (f x) env (ends_tail K) a') →
  wp (m ≫= f) env (ends_tail K) a.
Proof.
  intros Hm [[Hs Hg Hl Hgood] Hat] Hne Hf. apply wp_bind. eapply wp_mono; [apply Hm|]. intros r a' [Hfr He].
  destruct (Hfr) as (Hs' & Ha' & l' & Hl' & Hlook).
  assert (Hst : started good never a0 (l' ++ l) a').
  { split; [split; [by etrans|etrans; [done|by eapply frame_goes_on]|by rewrite Hl', Hl, app_assoc|]|by rewrite Ha'].
    apply Forall_app. split; [|done]. eapply Forall_impl; [exact Hlook|]. intros e Hle. by left. }
  assert (l' ++ l ≠ []) by (destruct l'; [done|discriminate]).
  destruct r as [x|e| |]; cbn [bind_post]; [by eapply Hf|by eapply end_throw; eauto|eapply end_other; eauto..].
Qed.

Lemma insert_over_document_ends fuel delay doc e a l :
  reads_document id doc e → started good never a0 (e :: l) a →
  wp (insert_over_document fuel i delay again doc) env (ends_tail (staged_as INSERT)) a.
Proof.
  intros Hdoc Hs. assert (Hretry : ∀ a l, started good never a0 l a → l ≠ [] →
    wp (timeout ← asks config_timeout; delay ← exp_delay_call timeout delay; again (tg_cas doc) delay) env (ends_tail (staged_as INSERT)) a).
  { intros ? ? Hs' Hl. apply wp_bind, wp_asks. cbn [bind_post]. eapply step_exp_delay; [done..|]. intros d ? ?. by eapply Hagain. }
  unfold insert_over_document. apply wp_bind, wp_gets. cbn [bind_post]. eapply step_lift; [done..|]. intros err _.
  destruct err as [f|]; [by eapply end_fail|]. destruct (_ && _); [by eapply Hretry|].
  destruct (negb _); [by eapply end_error|]. destruct (decide _) as [Hown|].
  - destruct (decide _); [|by eapply end_fail]. eapply end_staged; [done|by eapply record_chosen|]. eexists. split_and!; [reflexivity| |done|done|].
    + destruct Hdoc as (_ & _ & Hd). cbn. by rewrite (create_from_subdoc_id _ _ Hd).
    + right. split; [done|]. exists e, doc, l. split_and!; [done| |by rewrite (same_id _ _ (started_same _ _ _ _ _ Hs)) in Hown|done].
      cbn. destruct Hdoc as (? & ? & Hd). by rewrite (create_from_subdoc_id _ _ Hd).
  - destruct (_ && _); [by eapply end_error|]. eapply step_framed; [apply framed_check_blocking|done|done|].
    intros err a' l' Hs' Hl'. apply wp_bind, wp_asks. cbn [bind_post]. destruct err as [f|]; [by eapply end_fail|].
    destruct (asks_for_record _ _); [apply try_sync_ends|]; by eapply Hretry.
Qed.

Lemma insert_error_handler_ends fuel cas delay ec c a l :
  started good never a0 l a → (l ≠ [] ∨ ec = FAIL_EXPIRY) →
  wp (create_staged_insert_error_handler fuel i cas delay again ec c) env (ends_tail (staged_as INSERT)) a.
Proof.
  intros Hs Hl. unfold create_staged_insert_error_handler. apply wp_bind, wp_gets. cbn [bind_post].
  case_match; [by eapply end_fail|].
  destruct (decide (ec = FAIL_EXPIRY)) as [->|Hne].
  { apply wp_bind, wp_modify. cbn [bind_post]. eapply end_fail. by apply started_overtime. }
  destruct Hl as [Hl|Hl]; [|done].
  assert (Hread : wp (ec ← wait_for_hook before_get_doc_in_exists_during_staged_insert;
      match ec with
      | Some ec => existing_document_error ec
      | None =>
          g ← get_doc (in_id i) false;
          match go_ec g, go_doc g with
          | None, Some doc => insert_over_document fuel i delay again doc
          | None, None => fail_operation (retry (operation_failed FAIL_DOC_NOT_FOUND))
          | Some ec, _ => existing_document_error ec
          end
      end) env (ends_tail (staged_as INSERT)) a).
  { eapply step_hook; [done..|]. clear Hs. intros a' Hs. rewrite Hi. apply wp_bind.
    eapply wp_mono; [exact (wp_conj _ _ _ _ _ (get_doc_wp env id false a') (framed_get_doc env id false a'))|].
    intros r a'' [[_ Hr] [Hfr He]]. destruct Hfr as (Hsame & Hatr & l' & Hl' & Hlook).
    assert (Hst : started good never a0 (l' ++ l) a'').
    { destruct Hs as [[Hs Hg Hlog Hgood] Hat]. split; [|by rewrite Hatr].
      split; [by etrans| |by rewrite Hl', Hlog, app_assoc|apply Forall_app; split; [|done]; eapply Forall_impl; [exact Hlook|]; intros e Hle; by left].
      etrans; [exact Hg|]. apply (frame_goes_on is_lookup). split_and!; [done..|]. by exists l'. }
    assert (l' ++ l ≠ []) by (destruct l'; [done|discriminate]).
    destruct r as [g|e| |]; cbn [bind_post]; [|by eapply end_throw; eauto|eapply end_other; eauto..].
    destruct (go_ec g); [by eapply existing_document_error_ends|]. destruct (go_doc g) as [doc|]; [|by eapply end_fail].
    destruct Hr as (e & Hlog & Hdoc). rewrite Hl' in Hlog. assert (l' = [e]) as ->.
    { change (e :: at_log a') with ([e] ++ at_log a') in Hlog. by apply app_inv_tail in Hlog. }
    by eapply insert_over_document_ends. }
  destruct ec; try (by destruct Hne); try exact Hread; try match goal with |- wp (fail_operation _) _ _ _ => by eapply end_fail end.
  apply wp_bind, wp_asks. cbn [bind_post]. eapply step_exp_delay; [done..|]. intros d a' Hs'. by eapply Hagain.
Qed.
End insertion.

Lemma create_staged_insert_ends fuel i cas delay a l :
  in_id i = id → started good never a0 l a →
  wp (create_staged_insert fuel i cas delay) env (ends_tail (staged_as INSERT)) a.
Proof.
  intros Hi. revert cas delay a l. induction fuel as [|fuel IH]; intros cas delay a l Hs; cbn [create_staged_insert];
    [by eapply end_diverge|].
  assert (Herr : ∀ ec c a l, started good never a0 l a → (l ≠ [] ∨ ec = FAIL_EXPIRY) →
    wp (create_staged_insert_error_handler fuel i cas delay (create_staged_insert fuel i) ec c) env (ends_tail (staged_as INSERT)) a)
    by (intros; by eapply insert_error_handler_ends).
  eapply step_if_expired; [done|]. clear Hs. intros ec a' Hs [->| ->]; [|apply (Herr _ _ _ _ Hs); by right].
  eapply step_hook; [done..|]. clear Hs. intros ? Hs. unfold attempt_metadata.
  apply wp_bind, wp_bind, wp_asks. cbn [bind_post]. do 2 (apply wp_bind, wp_gets; cbn [bind_post]). apply wp_ret. cbn [bind_post].
  apply wp_bind, wp_asks. cbn [bind_post].
  eapply step_execute; [done|intros; apply good_write; [by apply staged_insert_stages|exact (started_good _ _ _ _ _ Hs)]|done|].
  clear Hs. intros resp ? Hs. unfold response_class. eapply step_lift; [done..|]. intros ec Hec. destruct ec as [ec|].
  { eapply step_lift; [done..|]. intros c _. apply (Herr _ _ _ _ Hs). by left. }
  eapply step_hook; [done..|]. clear Hs. intros ? Hs. unfold supports_replace_body_with_xattr.
  apply wp_bind. eapply step_question; [done|]. clear Hs. intros config ? Hs. apply wp_ret. cbn [bind_post].
  destruct config as [e|caps]; [apply (Herr _ _ _ _ Hs); by left|]. unfold atr_key_unchecked.
  apply wp_bind, wp_bind, wp_gets. cbn [bind_post]. case_match; [|apply wp_fault; eapply end_other; eauto].
  apply wp_ret. cbn [bind_post]. apply wp_bind, wp_asks. cbn [bind_post]. apply wp_bind, wp_gets. cbn [bind_post]. unfold stage.
  eapply end_staged; [done|by eapply record_chosen|]. eexists. split_and!; [reflexivity|cbn; by rewrite Hi|done..|]. left. eexists _, _, _. split_and!; [reflexivity| |done|done].
  cbn [sm_id]. rewrite Hi. by apply staged_insert_stages.
Qed.

(** *** Removals *)

Lemma remove_staged_insert_ends a l :
  started good never a0 l a → wp (remove_staged_insert id) env (ends_tail unstaged) a.
Proof.
  intros Hs. assert (Herr : ∀ ec a l, started good never a0 l a → wp (remove_staged_insert_error ec) env (ends_tail unstaged) a).
  { intros ec ? ? ?. unfold remove_staged_insert_error. destruct ec; by eapply end_fail. }
  assert (Hreq : ∀ level, stages_document id (remove_staged_insert_request id level)).
  { intros level. split; [done|]. apply elem_of_cons. by left. }
  unfold remove_staged_insert. eapply step_if_expired; [done|]. clear Hs. intros ec ? Hs [->| ->]; cbn [has]; [|by eapply end_fail].
  eapply step_hook; [done..|]. clear Hs. intros ? Hs. apply wp_bind, wp_asks. cbn [bind_post].
  eapply step_execute; [done|intros; apply good_write; [apply Hreq|exact (started_good _ _ _ _ _ Hs)]|done|].
  clear Hs. intros resp ? Hs. unfold response_class. eapply step_lift; [done..|]. intros ec Hec. destruct ec as [ec|]; [by eapply Herr|].
  eapply step_hook; [done..|]. clear Hs. intros ? Hs. eapply end_staged; [done|by eapply record_chosen|]. split; [done|].
  eexists _, _, _. split_and!; [reflexivity|apply Hreq|done].
Qed.

Lemma remove_error_ends {A} (K : A → _) ec a l : started good never a0 l a → wp (remove_error ec) env (ends_tail K) a.
Proof.
  intros Hs. unfold remove_error.
  destruct ec; match goal with
    | |- wp (fail_operation _) _ _ _ => by eapply end_fail
    | |- _ => apply wp_bind, wp_modify; cbn [bind_post]; eapply end_fail; by apply started_overtime
    end.
Qed.

Lemma create_staged_remove_ends document op_id a l :
  tg_id document = id → started good never a0 l a →
  wp (create_staged_remove document op_id) env (ends_tail staged_removal) a.
Proof.
  intros Hid Hs. unfold create_staged_remove. eapply step_hook; [done..|]. clear Hs. intros ? Hs. unfold attempt_metadata.
  apply wp_bind, wp_bind, wp_asks. cbn [bind_post]. do 2 (apply wp_bind, wp_gets; cbn [bind_post]). apply wp_ret. cbn [bind_post].
  apply wp_bind, wp_asks. cbn [bind_post].
  assert (Hreq : ∀ txn level, stages_document id (staged_remove_request document txn level)).
  { intros txn level. unfold staged_remove_request. split; [destruct (tl_is_deleted _); cbn; by rewrite Hid|].
    destruct (tl_is_deleted _); apply elem_of_cons; by left. }
  eapply step_execute; [done|intros; apply good_write; [apply Hreq|exact (started_good _ _ _ _ _ Hs)]|done|].
  clear Hs. intros resp ? Hs. unfold response_class. eapply step_lift; [done..|]. intros ec Hec.
  destruct ec as [ec|]; [by eapply remove_error_ends|].
  eapply step_hook; [done..|]. clear Hs. intros ? Hs. unfold stage. eapply end_staged; [done|by eapply record_chosen|]. eexists. split_and!; [reflexivity|cbn; by rewrite Hid|done|].
  eexists _, _, _. split_and!; [reflexivity| |done|done]. cbn. rewrite Hid. apply Hreq.
Qed.
End tails.

(** ** The record of the attempt *)

Section record.
Context `{Json} (env : environment) (Hhooks : no_hooks env).

(** The request that makes the record of attempt [aid] pending, and its success *)
Definition pending_entry (aid : bytes) (e : log_entry) : Prop :=
  ∃ req msecs level, e.1 = mutate_in req ∧ mi_specs req =
    atr_pending_specs (ATR_FIELD_ATTEMPTS ++ [ascii_dot] ++ aid ++ [ascii_dot]) (transaction_id env) msecs level.
Definition creates_record (aid : bytes) (e : log_entry) : Prop :=
  pending_entry aid e ∧
  (error_class_from_response e.2 = Ok None ∨ error_class_from_response e.2 = Ok (Some FAIL_PATH_ALREADY_EXISTS)).

Lemma set_atr_pending_request_creates a :
  wp set_atr_pending_request env (λ r a', same_operation a a' ∧ at_atr_id a' = at_atr_id a ∧
    ∃ l, at_log a' = l ++ at_log a ∧ Forall (pending_entry (at_id a)) l ∧
    match r with
    | Ok (inl None) => Exists (creates_record (at_id a)) l
    | Err e => ordinary e ∧ (at_atr_id a ≠ None → l ≠ [])
    | _ => True
    end) a.
Proof.
  set (Q := λ (r : outcome exn (option operation_failure + unit)) (a' : attempt), _).
  assert (Herr : ∀ ec a' l, same_operation a a' → at_atr_id a' = at_atr_id a → at_log a' = l ++ at_log a →
    Forall (pending_entry (at_id a)) l → (ec = FAIL_PATH_ALREADY_EXISTS → Exists (creates_record (at_id a)) l) →
    wp (atr_pending_error ec) env Q a').
  { intros ec a' l Hs Ha Hl Hp He. unfold atr_pending_error. apply wp_bind, wp_gets. cbn [bind_post].
    assert (Hx : ∀ x, (x = None → ec = FAIL_PATH_ALREADY_EXISTS) → Q (Ok (inl x)) a').
    { intros x Hx. split; [done|]. split; [done|]. exists l. split_and!; [done..|]. destruct x; [done|]. by apply He, Hx. }
    assert (Hr : Q (Ok (inr tt)) a') by (split; [done|]; split; [done|]; by exists l).
    case_match; [by apply wp_ret, Hx|]. destruct ec; try (by apply wp_ret, Hx); try exact Hr.
    apply wp_bind, wp_modify. cbn [bind_post]. apply wp_ret. split; [destruct Hs; by split|]. split; [done|]. by exists l. }
  unfold set_atr_pending_request. apply wp_bind, wp_gets. cbn [bind_post].
  apply wp_bind, wp_wait_for_hook; [done|]. cbn [bind_post]. apply wp_bind, wp_question. cbn [bind_post].
  do 3 (apply wp_bind, wp_asks; cbn [bind_post]). apply wp_bind, wp_atr_id_value; cbn [bind_post next_tick at_atr_id].
  2: { intros Hn. split; [by split|]. split; [done|]. exists []. split_and!; [done..|]. intros Hn'. by destruct Hn'. }
  intros rid Hrid. apply wp_bind, wp_execute. cbn [bind_post]. set (resp := reply _ _ _). set (req := mutate_in _).
  assert (Hp : pending_entry (at_id a) (req, resp)) by (eexists _, _, _; split; reflexivity).
  set (a1 := set_log _ _). assert (Hs : same_operation a a1) by by split.
  assert (Hl : at_log a1 = [(req, resp)] ++ at_log a) by done. assert (Ha : at_atr_id a1 = at_atr_id a) by done. clearbody a1.
  destruct (error_class_from_response resp) as [[ec|]|e| |] eqn:Hec.
  - apply (Herr _ _ _ Hs Ha Hl); [by repeat constructor|]. intros ->. apply Exists_cons_hd. split; [done|by right].
  - apply wp_bind, wp_wait_for_hook; [done|]. cbn [bind_post]. apply wp_bind, wp_modify. cbn [bind_post]. apply wp_ret.
    split; [destruct Hs; by split|]. split; [done|]. eexists. split; [exact Hl|]. split; [by repeat constructor|].
    apply Exists_cons_hd. split; [done|by left].
  - apply wp_throw. split; [done|]. split; [done|]. eexists. split; [exact Hl|]. by split; [repeat constructor|].
  - apply wp_fault. split; [done|]. split; [done|]. eexists. split; [exact Hl|]. by split; [repeat constructor|].
  - apply wp_diverge. split; [done|]. split; [done|]. eexists. split; [exact Hl|]. by split; [repeat constructor|].
Qed.

(** Choosing the record: success means that a request created it. *)
Definition selected (rid : document_id) (a : attempt) (r : outcome exn (option (option operation_failure))) (a' : attempt) : Prop :=
  same_operation a a' ∧ at_atr_id a' = Some rid ∧
  ∃ l, at_log a' = l ++ at_log a ∧ Forall (pending_entry (at_id a)) l ∧
  match r with
  | Ok None => False
  | Ok (Some None) => Exists (creates_record (at_id a)) l
  | Err e => ordinary e ∧ l ≠ []
  | _ => True
  end.

Lemma select_atr_creates fuel rid a :
  at_atr_id a = None → at_staged a = [] →
  wp (select_atr_if_needed_unlocked fuel rid) env (selected rid a) a.
Proof.
  intros Ha Hst. unfold select_atr_if_needed_unlocked. apply wp_bind, wp_gets. cbn [bind_post]. rewrite Ha. cbn [has].
  do 2 (apply wp_bind, wp_modify; cbn [bind_post]). unfold set_atr_pending_locked.
  set (I := λ (_ : unit) a', same_operation a a' ∧ at_atr_id a' = Some rid ∧
    ∃ l, at_log a' = l ++ at_log a ∧ Forall (pending_entry (at_id a)) l).
  apply (wp_retry_op env _ I).
  3: { split; [by split|]. split; [done|]. exists []. by split. }
  2: { intros _ a' (Hs & Hr & l & Hl & Hp). split; [done|]. split; [done|]. by exists l. }
  intros [] a' (Hs & Hr & l & Hl & Hp). apply wp_bind, wp_gets. cbn [bind_post].
  rewrite (same_staged _ _ Hs), Hst. cbn [Queue.empty negb]. apply wp_bind, wp_gets. cbn [bind_post]. rewrite Hr. cbn [has negb].
  apply wp_bind. match goal with |- wp _ _ ?post _ => set (Q := post) end.
  assert (Hgo : ∀ a1, I tt a1 → at_log a1 = l ++ at_log a → Q (Ok None) a1).
  { intros a1 (Hs1 & Hr1 & _) Hl1. subst Q. cbn [bind_post].
    apply wp_bind. eapply wp_mono; [apply set_atr_pending_request_creates|].
    intros r a2 (Hs2 & Hr2 & l2 & Hl2 & Hp2 & Hout). rewrite (same_id _ _ Hs1) in *. rewrite Hl1, app_assoc in Hl2. rewrite Hr1 in *.
    assert (Hs12 : same_operation a a2) by by etrans. assert (Forall (pending_entry (at_id a)) (l2 ++ l)) by by apply Forall_app.
    destruct r as [[[f|]|[]]|e| |]; cbn [bind_post]; try apply wp_ret; (split; [done|]); (split; [done|]); exists (l2 ++ l); split_and!; try done.
    - apply Exists_app. by left.
    - by destruct Hout.
    - destruct Hout as [_ Hne]. assert (l2 ≠ []) by by apply Hne. by destruct l2. }
  apply wp_error_if_expired; intros _; [apply Hgo; [split_and!; eauto|exact Hl]|].
  assert (Hn : I tt (next_tick a')) by (split; [destruct Hs; by split|split; [done|by exists l]]).
  destruct (_ || _); [|by apply Hgo]. subst Q. cbn [bind_post].
  apply wp_ret. destruct Hn as (Hs' & Hr' & _). split; [done|]. split; [done|]. by exists l.
Qed.
End record.

(** ** The whole operation *)

Lemma started_mono (G G' R : list log_entry → Prop) a l a' : (∀ l, G l → G' l) → started G R a l a' → started G' R a l a'.
Proof. intros HG [[? ? ? ?] ?]. split; [split|]; auto. Qed.

Section operation.
Context `{Json} (env : environment) (Hhooks : no_hooks env) (id : document_id) (a0 : attempt).
Context (U : list log_entry → Prop) (HU : ∀ l l', U l → U (l' ++ l)).

(** What comes before the document is written: lookups, and the creation of the
    record *)
Definition preparation (e : log_entry) : Prop := is_lookup e ∨ pending_entry env (at_id a0) e.

(** The requests of an operation that started in [a0]: the document is written
    after the record was created, and when [U] holds of the requests before. *)
Definition op_log (l : list log_entry) : Prop :=
  ∃ l2 l1, l = l2 ++ l1 ∧ Forall preparation l1 ∧ Forall (doc_entry id) l2 ∧
    (l2 ≠ [] → (at_atr_id a0 = None → Exists (creates_record env (at_id a0)) l1) ∧ U l1).

Abbreviation recorded := (Exists (creates_record env (at_id a0))).
Abbreviation prepared := (started (Forall preparation) recorded a0).
Abbreviation ends_op := (λ K, ends False op_log recorded K a0).

Lemma preparation_op_log l : Forall preparation l → op_log l.
Proof. intros Hl. exists [], l. split_and!; [done|done|constructor|done]. Qed.

Lemma prepared_op l a : prepared l a → started op_log recorded a0 l a.
Proof. by apply started_mono, preparation_op_log. Qed.

Lemma op_log_nil : op_log [].
Proof. by apply preparation_op_log. Qed.

(** From the end of the operation's last part to its end *)
Lemma ends_of_tail {A} id' (K K' : A → _) l a r a' :
  document_name id' = document_name id → prepared l a →
  (at_atr_id a0 = None → Exists (creates_record env (at_id a0)) l) → U l →
  (∀ x l' q', K x l' (at_staged a0) q' → K' x (l' ++ l) (at_staged a0) q') →
  ends True (Forall (doc_entry id')) (λ _, False) K a r a' →
  ends_op K' r a' ∧ ∀ e, r = Err e → (length (at_log a) < length (at_log a'))%nat.
Proof.
  intros Hid [[Hs Hg Hl Hp] Hat] Hready Hul HK (Hg' & l' & Hl' & Hdoc & Ho).
  assert (Hgood : op_log (l' ++ l)).
  { exists l', l. split_and!; [done..| |done]. eapply Forall_impl; [exact Hdoc|].
    intros e [He|(req & He & Hr & Hin)]; [by left|right]. exists req. split; [done|]. split; [by rewrite Hr|done]. }
  assert (Hlog : at_log a' = (l' ++ l) ++ at_log a0) by by rewrite Hl', Hl, app_assoc.
  split.
  - split; [by etrans|]. exists (l' ++ l). split_and!; [done..|]. destruct r as [x|e| |]; cbn in *; 
      [|destruct Ho as (? & ? & Hne & _); split_and!; [by etrans|done|done|]|done..].
    2: { right; right. destruct l'; [by destruct Hne|done]. }
    destruct Ho as (c & [H1 H2 H3] & Hatr & Hx). exists c. split; [|split].
    + split; [by rewrite H1, (same_calls _ _ Hs)|by rewrite H2, (same_ops _ _ Hs)|by rewrite H3, (same_errors _ _ Hs)].
    + destruct Hatr as [->|[[]|Hatr]]; [|by right; right]. destruct Hat as [->|Hr]; [by left|right; left]. apply Exists_app. by right.
    + rewrite (same_staged _ _ Hs) in Hx. destruct x; [|done]. destruct Hx as [-> Hx]. split; [done|by apply HK].
  - intros e ->. cbn in Ho. destruct Ho as (_ & _ & Hne & _). rewrite Hl', length_app. destruct l'; [by destruct Hne|cbn; lia].
Qed.

(** The selection of the record *)
Lemma with_atr_ends {A} fuel (cb : option operation_failure → txn (option A)) K l a :
  bytes_ok (id_key id) → prepared l a → at_atr_id a = at_atr_id a0 → (at_atr_id a0 = None → at_staged a0 = []) → U l →
  (∀ f, cb (Some f) = fail_operation f) →
  (∀ l a, prepared l a → at_atr_id a ≠ None → (at_atr_id a0 = None → Exists (creates_record env (at_id a0)) l) → U l →
     wp (cb None) env (λ r a', ends_op K r a' ∧ ∀ e, r = Err e → (length (at_log a) < length (at_log a'))%nat) a) →
  wp (with_atr fuel id cb) env (ends_op K) a.
Proof.
  intros Hkey Hp Hatr Hst Hul Hfail Hgo. unfold with_atr. apply wp_try_sync.
  set (Q := λ r a', ends_op K r a' ∧ ∀ e, r = Err e → (length (at_log a) < length (at_log a'))%nat).
  eapply (wp_mono _ _ Q); [|intros [x|e| |] a' [He Hlen]; [exact He| |exact He..]].
  2: { specialize (Hlen e eq_refl). by destruct (Nat.eqb_spec (length (at_log a')) (length (at_log a))) as [Heq|]; [lia|]. }
  apply wp_bind, wp_gets. cbn [bind_post]. apply wp_bind, wp_asks. cbn [bind_post]. rewrite Hatr.
  destruct (at_atr_id a0) as [rid|] eqn:Ha0.
  { apply wp_bind, wp_ret. cbn [bind_post]. apply (Hgo l); [done|by rewrite Hatr|done..]. }
  destruct (atr_id_for_key_total _ Hkey) as [key ->]. apply wp_bind, wp_bind, wp_ret. cbn [bind_post].
  assert (Hsta : at_staged a = []) by (rewrite (same_staged _ _ (started_same _ _ _ _ _ Hp)); auto).
  eapply wp_mono; [by apply select_atr_creates|]. intros r a1 (Hs1 & Hr1 & l1 & Hl1 & Hp1 & Hout).
  rewrite (same_id _ _ (started_same _ _ _ _ _ Hp)) in *.
  assert (Hp' : sent (Forall preparation) a0 (l1 ++ l) a1).
  { destruct Hp as [[Hs Hg Hl Hprep] _]. split; [by etrans| |by rewrite Hl1, Hl, app_assoc|].
    - destruct Hs1. etrans; [exact Hg|]. split; try done. by rewrite Hatr.
    - apply Forall_app. split; [|done]. eapply Forall_impl; [exact Hp1|]. intros e He. by right. }
  assert (Hop : sent op_log a0 (l1 ++ l) a1) by (destruct Hp'; split; try done; by apply preparation_op_log).
  destruct r as [[[f|]|]|e| |]; cbn [bind_post].
  - rewrite Hfail. apply (wp_conj _ _ _ (λ r a', ∀ e, r = Err e → _)); [|by apply wp_fail_operation].
    eapply sent_error; [exact Hop|by right; right].
  - assert (Hrec : recorded (l1 ++ l)) by (apply Exists_app; by left).
    eapply wp_mono; [apply (Hgo (l1 ++ l) a1); [by split; [|right]|by rewrite Hr1|done|by apply HU]|].
    intros r a2 [He Hlen]. split; [exact He|]. intros e ->. specialize (Hlen e eq_refl). rewrite Hl1, length_app in Hlen. lia.
  - done.
  - destruct Hout as [Ho Hne]. assert (l1 ++ l ≠ []) by (by destruct l1). split; [by eapply sent_throw; eauto|]. intros e' _. rewrite Hl1, length_app. by destruct l1; [|cbn; lia].
  - split; [|done]. eapply sent_other; [exact Hop|by left].
  - split; [|done]. eapply sent_other; [exact Hop|by right].
Qed.
End operation.

Lemma ops_ended_increment l l' : increment_ops l = Some l' → ops_ended l' = l.
Proof.
  unfold increment_ops, change_count, ops_ended, decrement_ops, decrement_in_flight. destruct l as [c [] f]; [|done].
  intros [= <-]. cbn. f_equal; lia.
Qed.

Section cached.
Context `{Json} (env : environment) {A : Type} (G R : list log_entry → Prop) (HG : G []) (HR : ¬ R [])
  (K : A → list log_entry → staged_mutation_queue → staged_mutation_queue → Prop).

(** How an operation ends for its caller: no operation is left in flight, the
    callback was called once, and a failure is kept; no exception is thrown. *)
Definition operation_ends (a : attempt) (r : outcome exn (option A)) (a' : attempt) : Prop :=
  goes_on a a' ∧ ∃ l, at_log a' = l ++ at_log a ∧ G l ∧
  match r with
  | Ok x => at_ops a' = at_ops a ∧ (at_atr_id a' = at_atr_id a ∨ R l ∨ at_errors a' ≠ []) ∧ ∃ c, at_calls a' = c :: at_calls a ∧
      match x with
      | Some x => c = None ∧ at_errors a' = at_errors a ∧ K x l (at_staged a) (at_staged a')
      | None => c ≠ None ∧ at_staged a' = at_staged a ∧
          (at_errors a' = at_errors a ++ failures_of c ∨ op_allow (at_ops a) = false)
      end
  | Err _ => False
  | _ => True
  end.

Lemma ends_operation l a r a' :
  increment_ops (at_ops a) = Some l → (∀ e, r ≠ Err e) → ends False G R K (set_ops l a) r a' → operation_ends a r a'.
Proof.
  intros Hl Hr (Hg & l' & Hl' & Hgood & Ho). split; [destruct Hg; by split|]. exists l'. split_and!; [done..|].
  destruct r as [x|e| |]; [|by destruct (Hr e)|done..]. destruct Ho as (c & [H1 H2 H3] & Hatr & Hx). cbn in *.
  split; [by rewrite H2, (ops_ended_increment _ _ Hl)|]. split; [done|]. exists c. split; [done|]. destruct x.
  - destruct Hx as [-> Hx]. split; [done|]. split; [by rewrite H3, app_nil_r|done].
  - destruct Hx as [Hc Hx]. by split_and!; [| |left].
Qed.

Lemma cache_error_handler_ends e (h : txn (option A)) a a' :
  ordinary e → cache_error_handler e = Some h → same_operation a a' → started G R a [] a' → wp h env (λ r a', ends False G R K a r a' ∧ ∀ e, r ≠ Err e) a'.
Proof.
  intros He Hh Hs Hst.
  assert (Hc : ∀ e', wp (op_completed_with_error (A:=A) e') env (λ r a', ends False G R K a r a' ∧ ∀ e, r ≠ Err e) a').
  { intros e'. apply (wp_conj _ _ _ (λ r _, ∀ e, r ≠ Err e)); [by eapply end_error|by apply wp_completed_with_error]. }
  destruct e; try done; injection Hh as <-; exact (Hc _).
Qed.

Lemma cache_error_ends func a :
  (∀ l, wp func env (ends False G R K (set_ops l a)) (set_ops l a)) →
  wp (cache_error_async func) env (operation_ends a) a.
Proof.
  intros Hf. unfold cache_error_async. apply wp_bind, wp_gets. cbn [bind_post]. destruct (increment_ops (at_ops a)) as [l|] eqn:Hl.
  2: { apply wp_bind, wp_gets. cbn [bind_post]. apply wp_bind, wp_modify. cbn [bind_post]. apply wp_ret.
       split; [by split|]. exists []. split_and!; [done..|by left|]. eexists. split; [reflexivity|]. split_and!; [done..|right].
       unfold increment_ops, change_count in Hl. by destruct (op_allow (at_ops a)). }
  apply wp_bind, wp_modify. cbn [bind_post]. apply wp_bind, wp_gets. cbn [bind_post].
  set (a1 := set_ops l a). apply wp_catch, wp_try_sync, wp_bind, wp_existing_error; cbn [bind_post].
  - intros _. eapply wp_mono; [apply Hf|]. intros [x|e| |] a2 He; cbn [catch_post]; try (by apply (ends_operation l)).
    destruct He as (Hg & l2 & Hl2 & Hgood & Hsame & Hord & _ & Hatr). change (at_log a2 = l2 ++ at_log a1) in Hl2.
    destruct (Nat.eqb_spec (length (at_log a2)) (length (at_log a1))) as [Heq|Hne].
    + assert (l2 = []) as -> by (apply length_zero_iff_nil; rewrite Hl2, length_app in Heq; lia).
      destruct (cache_error_handler e) as [h|] eqn:Hh; [|by destruct e].
      eapply wp_mono; [eapply (cache_error_handler_ends e h a1 a2); [done..|]|].
      { split; [done|]. left. by destruct Hatr as [?|[?|?]]. }
      intros [x|e'| |] a3 [He He']; cbn [catch_post]; try (by apply (ends_operation l)). by destruct (He' e').
    + cbn [catch_post]. apply wp_bind, wp_gets. cbn [bind_post].
      destruct (Nat.eqb_spec (length (at_log a2)) (length (at_log a1))) as [|_]; [done|]. apply wp_fault.
      split; [destruct Hg; by split|]. by exists l2.
  - intros f Hne Hc. rewrite Nat.eqb_refl. cbn [cache_error_handler]. rewrite Hc by done. cbn [orb bool_decide].
    rewrite bool_decide_true by done. cbn [orb]. apply (wp_mono _ _ (λ r a', ends False G R K a1 r a' ∧ ∀ e, r ≠ Err e)).
    + apply (wp_conj _ _ _ (λ r _, ∀ e, r ≠ Err e)); [|by apply wp_completed_with_error]. eapply end_error. by apply started_refl.
    + intros [x|e| |] a2 [He He']; cbn [catch_post]; try (by apply (ends_operation l)). by destruct (He' e).
Qed.

(** No operation starts after one that failed. *)
Lemma cache_error_refused func a :
  at_errors a ≠ [] →
  wp (cache_error_async (A:=A) func) env (λ r a', r = Ok None ∧ at_log a' = at_log a ∧ at_staged a' = at_staged a ∧
    at_errors a' ≠ [] ∧ ∃ f, at_calls a' = Some (operation_failed_thrown f) :: at_calls a ∧
      (op_allow (at_ops a) = true → cause_ f = PREVIOUS_OPERATION_FAILED)) a.
Proof.
  intros He. unfold cache_error_async. apply wp_bind, wp_gets. cbn [bind_post]. destruct (increment_ops (at_ops a)) as [l|] eqn:Hl.
  2: { apply wp_bind, wp_gets. cbn [bind_post]. apply wp_bind, wp_modify. cbn [bind_post]. apply wp_ret. split_and!; [done..|].
       eexists. split; [reflexivity|]. unfold increment_ops, change_count in Hl. by destruct (op_allow (at_ops a)). }
  apply wp_bind, wp_modify. cbn [bind_post]. apply wp_bind, wp_gets. cbn [bind_post].
  apply wp_catch, wp_try_sync, wp_bind, wp_existing_error; cbn [bind_post]; [done|].
  intros f _ Hc. rewrite Nat.eqb_refl. cbn [cache_error_handler]. rewrite Hc by done.
  rewrite bool_decide_true by done. cbn [orb]. apply wp_completed_with_error. cbn [catch_post].
  set (a1 := set_ops l a). destruct (completed_same (Some (operation_failed_thrown f)) a1) as (Hlog & Hst & _).
  destruct (completed_called (Some (operation_failed_thrown f)) a1) as [H1 H2 H3]. rewrite Hlog, Hst, H1, H3.
  split_and!; [done..| |].
  - cbn. by destruct (at_errors a).
  - exists f. split; [done|]. intros _. by apply Hc.
Qed.
End cached.

(** ** Documents in other transactions *)

Section blocking.
Context `{Json} (env : environment).

(** The record was read and does not hold the other attempt any more, or holds
    it as completed or rolled back. *)
Definition clears (doc : transaction_get_result) (e : log_entry) : Prop :=
  ∃ record, reads_record doc (inr record) e ∧
    match record ≫= (λ record, tl_staged_attempt_id (tg_links doc) ≫= λ attempt_id, find_entry attempt_id record) with
    | None => True
    | Some entry => ae_state entry = AttemptState.COMPLETED ∨ ae_state entry = AttemptState.ROLLED_BACK
    end.

Lemma blocking_entry_clears entry : blocking_entry entry = Ok (Some None) →
  ae_state entry = AttemptState.COMPLETED ∨ ae_state entry = AttemptState.ROLLED_BACK.
Proof.
  unfold blocking_entry. intros (err & _ & Hr)%bind_Ok. destruct err; [done|]. destruct (ae_state entry); try done; [by left|by right].
Qed.

Definition passes (doc : transaction_get_result) (a : attempt) (r : outcome exn (option operation_failure)) (a' : attempt) : Prop :=
  ∃ l, at_log a' = l ++ at_log a ∧ (r = Ok None → Exists (clears doc) l).

Lemma passes_caught m doc a a' :
  wp m env (passes doc a) a' → wp (try_sync m (catches_std (mret (Some write_write_conflict)))) env (passes doc a) a'.
Proof.
  intros Hm. apply wp_try_sync. eapply wp_mono; [exact Hm|]. intros [x|e| |] a1 He; try exact He. cbn beta iota.
  destruct (_ =? _)%nat; [|exact He]. destruct He as (l & Hl & _).
  destruct e; try apply wp_ret; by exists l.
Qed.

Lemma check_atr_entry_passes fuel doc delay a :
  wp (check_atr_entry_for_blocking_document fuel doc delay) env (passes doc a) a.
Proof.
  revert delay a. induction fuel as [|fuel IH]; intros delay a; cbn [check_atr_entry_for_blocking_document]; [by (apply wp_diverge; exists nil)|].
  assert (Hconst : ∀ r a', at_log a' = at_log a → r ≠ Ok None → passes doc a r a') by (intros; exists []; by split).
  apply wp_bind. eapply wp_mono.
  { apply (framed_catch env (λ _, False)); [|intros [] m' [= <-]; apply framed_ret]. apply framed_bind; [apply framed_delay|intros d; apply framed_ret]. }
  intros r a1 [(_ & _ & l & Hl & Hn) _]. assert (Hl1 : at_log a1 = at_log a) by (destruct l; [done|by inversion Hn]). clear l Hl Hn.
  destruct r as [[d|]|e| |]; cbn [bind_post]; try (by apply Hconst).
  apply wp_bind, wp_question. cbn [bind_post]. destruct (hook_error _ _ _); [by apply wp_ret, Hconst|].
  apply wp_bind, wp_lift; cbn [bind_post]; try (by apply Hconst). intros rid Hrid. unfold get_atr.
  apply wp_bind, wp_bind, wp_execute. cbn [bind_post]. set (er := (_, _)). set (a2 := set_log _ _).
  assert (Hl2 : at_log a2 = [er] ++ at_log a) by (by unfold a2; cbn; rewrite Hl1). clearbody a2.
  assert (Hother : ∀ r, r ≠ Ok None → passes doc a r a2) by (intros r Hr; exists [er]; by split).
  apply wp_lift; cbn [bind_post]; try (by apply Hother). intros result Hres.
  assert (Hread : reads_record doc result er) by (by exists rid).
  assert (Hclear : ∀ record, result = inr record →
    match record ≫= (λ record, tl_staged_attempt_id (tg_links doc) ≫= λ attempt_id, find_entry attempt_id record) with
    | None => True | Some entry => ae_state entry = AttemptState.COMPLETED ∨ ae_state entry = AttemptState.ROLLED_BACK end →
    passes doc a (Ok None) a2).
  { intros record -> Hc. exists [er]. split; [done|]. intros _. apply Exists_cons_hd. by exists record. }
  apply passes_caught.
  destruct result as [ec|[record|]]; [by apply wp_ret, Hother| |by apply wp_ret, (Hclear None)].
  specialize (Hclear (Some record) eq_refl).
  destruct (tl_staged_attempt_id (tg_links doc)) as [m|]; cbn [mbind option_bind] in *; [|by apply wp_ret, Hclear].
  destruct (find_entry m record) as [entry|]; [|by apply wp_ret, Hclear].
  apply wp_bind, wp_lift; cbn [bind_post]; try (by apply Hother). intros x Hx. destruct x as [[f|]|]; [by apply wp_ret, Hother| |].
  - apply wp_ret, Hclear. by apply blocking_entry_clears.
  - eapply wp_mono; [apply IH|]. intros r a3 (l & Hl & Hc). exists (l ++ [er]). split; [by rewrite Hl, Hl2, app_assoc|].
    intros Hr. apply Exists_app. left. by apply Hc.
Qed.

Lemma check_blocking_passes fuel doc stage a :
  wp (check_and_handle_blocking_transactions fuel doc stage) env
    (λ r a', ∃ l, at_log a' = l ++ at_log a ∧ (r = Ok None → asks_for_record (transaction_id env) doc = true → Exists (clears doc) l)) a.
Proof.
  unfold check_and_handle_blocking_transactions. apply wp_bind, wp_asks. cbn [bind_post].
  assert (Hnil : ∀ (r : outcome exn (option operation_failure)) a', at_log a' = at_log a →
    (r = Ok None → asks_for_record (transaction_id env) doc = true → False) →
    ∃ l, at_log a' = l ++ at_log a ∧ (r = Ok None → asks_for_record (transaction_id env) doc = true → Exists (clears doc) l)).
  { intros r a' Hl Hr. exists []. split; [done|]. intros H1 H2. by destruct (Hr H1 H2). }
  destruct (asks_for_record (transaction_id env) doc); [|by apply wp_ret, Hnil].
  apply wp_bind, wp_lift; cbn [bind_post]; try (intros; by apply Hnil). intros [f|] _; [by apply wp_ret, Hnil|].
  eapply wp_mono; [apply check_atr_entry_passes|]. intros r a' (l & Hl & Hc). exists l. by split; [|intros; apply Hc].
Qed.
End blocking.

(** ** Insertions, replacements and removals *)

Section writes.
Context `{Json} (env : environment) (Hhooks : no_hooks env) (id : document_id) (Hkey : bytes_ok (id_key id)) (a0 : attempt)
  (Hstaged : at_atr_id a0 = None → at_staged a0 = []) (Hdone : at_done a0 = false).
Context (U : list log_entry → Prop) (HU : ∀ l l', U l → U (l' ++ l)).

(** The operation has begun and not chosen a record. *)
Record begun (l : list log_entry) (a : attempt) : Prop := {
  bg_started : started (Forall (preparation env a0)) (Exists (creates_record env (at_id a0))) a0 l a;
  bg_atr : at_atr_id a = at_atr_id a0;
}.
Abbreviation recorded := (Exists (creates_record env (at_id a0))).
Abbreviation ends_op := (λ K, ends False (op_log env id a0 U) recorded K a0).

Lemma begun_refl : begun [] a0.
Proof. split; [by apply started_refl|done]. Qed.
Lemma begun_next l a : begun l a → begun l (next_tick a).
Proof. intros [Hs Ha]. split; [by apply started_next|done]. Qed.
Lemma begun_overtime l a : begun l a → begun l (set_overtime a).
Proof. intros [Hs Ha]. split; [by apply started_overtime|done]. Qed.
Lemma begun_staged l a : begun l a → at_staged a = at_staged a0.
Proof. intros [Hs _]. apply (same_staged _ _ (started_same _ _ _ _ _ Hs)). Qed.
Lemma begun_op l a : begun l a → started (op_log env id a0 U) recorded a0 l a.
Proof. intros [Hs _]. by apply prepared_op. Qed.

Lemma begun_fail {A} f (K : A → _) l a : begun l a → wp (fail_operation f) env (ends_op K) a.
Proof. intros Hb. by eapply end_fail, begun_op. Qed.
Lemma begun_error {A} e (K : A → _) l a : begun l a → wp (op_completed_with_error e) env (ends_op K) a.
Proof. intros Hb. by eapply end_error, begun_op. Qed.

Lemma step_done {A} (f : unit → txn (option A)) (K : A → _) l a :
  begun l a → wp (f tt) env (ends_op K) a → wp (check_if_done ≫= f) env (ends_op K) a.
Proof.
  intros [Hs _] Hf. apply wp_bind, wp_check_if_done; [done|]. intros Hd.
  by rewrite (on_done _ _ (started_goes_on _ _ _ _ _ Hs)), Hdone in Hd.
Qed.

Lemma step_expiry {A} s (f : bool → txn (option A)) (K : A → _) l a :
  begun l a → (∀ b a, begun l a → wp (f b) env (ends_op K) a) → wp (check_expiry_pre_commit s ≫= f) env (ends_op K) a.
Proof.
  intros Hb Hf. unfold check_expiry_pre_commit. apply wp_bind, wp_bind, wp_question. cbn [bind_post].
  destruct (_ || _); [apply wp_bind, wp_modify; cbn [bind_post]; apply wp_ret; apply Hf; by apply begun_overtime, begun_next|].
  apply wp_ret. by apply Hf, begun_next.
Qed.

Lemma step_ask {A B} (g : environment → nat → B) (f : B → txn (option A)) (K : A → _) l a :
  begun l a → (∀ x a, begun l a → wp (f x) env (ends_op K) a) → wp (question g ≫= f) env (ends_op K) a.
Proof. intros Hb Hf. apply wp_bind, wp_question. by apply Hf, begun_next. Qed.

Lemma open_bucket_ends {A} bucket (h : option error_code → txn (option A)) K l a :
  begun l a → (∀ ec a, begun l a → wp (h ec) env (ends_op K) a) → wp (ensure_open_bucket bucket h) env (ends_op K) a.
Proof.
  intros Hb Hh. apply wp_ensure_open_bucket. intros ec a1 Ha1.
  assert (Hb1 : begun l a1) by (destruct Ha1 as [->| ->]; [done|by apply begun_next]).
  specialize (Hh ec a1 Hb1). split; [exact Hh|]. eapply wp_mono; [exact Hh|].
  intros [x|e| |] a2 He; try exact He. destruct He as (Hg & l2 & Hl & Hgood & _). split; [done|by exists l2].
Qed.

(** The check for other transactions, behind which [U] holds *)
Lemma step_blocking {A} fuel doc stage (f : option operation_failure → txn (option A)) (K : A → _) l a :
  begun l a → (∀ l, (asks_for_record (transaction_id env) doc = true → Exists (clears doc) l) → U l) →
  (∀ f0 l a, begun l a → wp (f (Some f0)) env (ends_op K) a) →
  (∀ l a, begun l a → U l → wp (f None) env (ends_op K) a) →
  wp (check_and_handle_blocking_transactions fuel doc stage ≫= f) env (ends_op K) a.
Proof.
  intros [Hs Ha] Hul Hfail Hf. apply wp_bind.
  eapply wp_mono; [exact (wp_conj _ _ _ _ _ (check_blocking_passes env fuel doc stage a) (framed_check_blocking env fuel doc stage a))|].
  intros r a1 [(l1 & Hl1 & Hp) [(Hs1 & Ha1 & l1' & Hl1' & Hlook) He]].
  assert (l1' = l1) as -> by (rewrite Hl1 in Hl1'; by apply app_inv_tail in Hl1').
  assert (Hb : begun (l1 ++ l) a1).
  { destruct Hs as [[Hs Hg Hl Hprep] _]. split; [split; [split|left; by rewrite Ha1]|by rewrite Ha1].
    - by etrans.
    - etrans; [exact Hg|]. apply (frame_goes_on is_lookup). split_and!; [done..|by exists l1].
    - by rewrite Hl1, Hl, app_assoc.
    - apply Forall_app. split; [|done]. eapply Forall_impl; [exact Hlook|]. intros e Hle. by left. }
  destruct r as [[f0|]|e| |]; cbn [bind_post]; [by eapply Hfail|apply (Hf _ _ Hb), Hul| |eapply end_other; [by apply begun_op|by left]|eapply end_other; [by apply begun_op|by right]].
  - intros Hblock. apply Exists_app. left. by apply Hp.
  - eapply end_throw; [by apply begun_op|by apply He|done].
Qed.

Lemma begun_with_atr {A} fuel (cb : option operation_failure → txn (option A)) K l a :
  begun l a → U l → (∀ f, cb (Some f) = fail_operation f) →
  (∀ l a, started (Forall (preparation env a0)) recorded a0 l a → at_atr_id a ≠ None → (at_atr_id a0 = None → Exists (creates_record env (at_id a0)) l) → U l →
     wp (cb None) env (λ r a', ends_op K r a' ∧ ∀ e, r = Err e → (length (at_log a) < length (at_log a'))%nat) a) →
  wp (with_atr fuel id cb) env (ends_op K) a.
Proof. intros [Hs Ha] Hul Hfail Hgo. by eapply with_atr_ends. Qed.

(** The last part of an operation on the document [id'], which the queue holds
    under the same name *)
Lemma tail_ends {A} (m : txn (option A)) id' (K K' : A → _) l a :
  document_name id' = document_name id →
  started (Forall (preparation env a0)) recorded a0 l a → (at_atr_id a0 = None → Exists (creates_record env (at_id a0)) l) → U l →
  (∀ x l' q', K x l' (at_staged a0) q' → K' x (l' ++ l) (at_staged a0) q') →
  wp m env (ends True (Forall (doc_entry id')) (λ _, False) K a) a →
  wp m env (λ r a', ends_op K' r a' ∧ ∀ e, r = Err e → (length (at_log a) < length (at_log a'))%nat) a.
Proof. intros Hid Hs Hready Hul HK Hm. eapply wp_mono; [exact Hm|]. intros r a' He. by eapply ends_of_tail. Qed.
End writes.

Lemma written_app m l l' : written m l → written m (l ++ l').
Proof. intros (req & resp & l1 & -> & H1 & H2 & H3). by exists req, resp, (l1 ++ l'). Qed.

Lemma staged_as_app `{Json} id id' a a0 t d l l' q q' :
  at_id a = at_id a0 → document_name id' = document_name id →
  staged_as id' a t d l q q' → staged_as id a0 t d (l ++ l') q q'.
Proof.
  intros Ha Hid (m & Hq & Hm & Ht & Hd & Hw). exists m. rewrite Hm. split_and!; [done..|].
  destruct Hw as [Hw|[Hins (e & doc & l1 & -> & Hf)]]; [left; by apply written_app|right].
  split; [done|]. exists e, doc, (l1 ++ l'). by rewrite <-Ha.
Qed.

Lemma find_any_name id q n m : Queue.find_any id q = Some (n, m) → document_name (sm_id m) = document_name id.
Proof. intros (_ & Hm & _)%list_find_Some. by apply document_ids_equal_spec. Qed.

(** The type of the mutation that is staged for a document *)
Definition staged_type (id : document_id) (q : staged_mutation_queue) : option staged_mutation_type :=
  sm_type ∘ snd <$> Queue.find_any id q.
Definition insert_type (id : document_id) (q : staged_mutation_queue) : staged_mutation_type :=
  if decide (staged_type id q = Some REMOVE) then REPLACE else INSERT.
Definition replace_type (id : document_id) (q : staged_mutation_queue) : staged_mutation_type :=
  if decide (staged_type id q = Some INSERT) then INSERT else REPLACE.

Lemma is_staged_type t id q : is_staged t (snd <$> Queue.find_any id q) = bool_decide (staged_type id q = Some t).
Proof. unfold is_staged, staged_type. by destruct (Queue.find_any id q) as [[]|]. Qed.

Section operations.
Context `{Json, !QueryMode} (env : environment) (Hhooks : no_hooks env) (fuel : nat).

(** What the theorems require of an attempt: with mutations in the queue it has
    a record. *)
Record active (a : attempt) : Prop := {
  active_query : at_is_query a = false;
  active_done : at_done a = false;
  active_atr : at_atr_id a = None → at_staged a = [];
}.

Lemma cached_ends {A} (func : txn (option A)) (G R : attempt → list log_entry → Prop)
    (K : attempt → A → list log_entry → staged_mutation_queue → staged_mutation_queue → Prop) a :
  active a → G a [] → ¬ R a [] → (∀ l, G (set_ops l a) = G a) → (∀ l, R (set_ops l a) = R a) → (∀ l, K (set_ops l a) = K a) →
  (∀ a0, active a0 → wp func env (ends False (G a0) (R a0) (K a0) a0) a0) →
  wp (cache_error_async func) env (operation_ends (G a) (R a) (K a) a) a.
Proof.
  intros [] Hnil Hnone HG HR HK Hf. apply cache_error_ends; [done..|]. intros l. rewrite <-(HG l), <-(HR l), <-(HK l). by apply Hf.
Qed.

Lemma insert_ends id content a :
  bytes_ok (id_key id) → active a →
  wp (insert fuel id content) env (operation_ends (op_log env id a (λ _, True)) (Exists (creates_record env (at_id a)))
    (λ d l q q', staged_as id a (insert_type id q) d l q q') a) a.
Proof.
  intros Hkey Ha. unfold insert. apply wp_bind, wp_gets. cbn [bind_post]. rewrite (active_query _ Ha).
  apply (cached_ends _ (λ a, op_log env id a (λ _, True)) (λ a, Exists (creates_record env (at_id a))) (λ a d l q q', staged_as id a (insert_type id q) d l q q')); [done|apply op_log_nil|by intros ?%Exists_nil|done..|].
  clear a Ha. intros a0 [_ Hd Hs]. apply (open_bucket_ends env id a0 _ _ _ _ [] a0); [apply begun_refl|]. intros ec a Hb.
  destruct (has ec); [by eapply begun_fail|]. apply try_sync_ends.
  eapply step_done; [done..|]. eapply step_ask; [done|]. clear Hb. intros op_id a1 Hb.
  apply wp_bind, wp_gets. cbn [bind_post]. rewrite (begun_staged _ _ _ _ Hb), !is_staged_type.
  destruct (_ || _) eqn:Hex; [by eapply begun_error|]. apply orb_false_iff in Hex as [Hni%bool_decide_eq_false Hnr%bool_decide_eq_false].
  eapply step_expiry; [done|]. clear a1 Hb. intros b a1 Hb. destruct b; [by eapply begun_fail|].
  eapply begun_with_atr; [done..| |]; [intros f; by destruct (Queue.find_any id (at_staged a0)) as [[]|]|]. intros l2 a2 Hp Hrec Hready Hul.
  assert (Hid : at_id a2 = at_id a0) by apply (same_id _ _ (started_same _ _ _ _ _ Hp)).
  unfold staged_type in Hni, Hnr. destruct (Queue.find_any id (at_staged a0)) as [[n sm]|] eqn:Hf; cbn [fmap option_fmap option_map snd compose] in *.
  - assert (Hname : document_name (sm_id sm) = document_name id) by by eapply find_any_name.
    eapply (tail_ends _ _ _ _ _ (sm_id sm)); [done..| |eapply create_staged_replace_ends; [done..|by apply started_refl]].
    intros d l' q' Hst. eapply staged_as_app; [done..|]. unfold insert_type, staged_type. rewrite Hf. cbn.
    destruct (decide _) as [_|Hn]; [exact Hst|]. destruct (sm_type sm); congruence.
  - eapply (tail_ends _ _ _ _ _ id); [done..| |eapply create_staged_insert_ends; [done..|by apply started_refl]].
    intros d l' q' Hst. eapply staged_as_app; [done..|]. unfold insert_type, staged_type. rewrite Hf. by rewrite decide_False.
Qed.

(** The document was not blocked by another transaction, or its record was
    read. *)
Definition unblocked (doc : transaction_get_result) (l : list log_entry) : Prop :=
  asks_for_record (transaction_id env) doc = true → Exists (clears doc) l.

Lemma unblocked_app doc l l' : unblocked doc l → unblocked doc (l' ++ l).
Proof. intros Hl Hb. apply Exists_app. right. by apply Hl. Qed.

Lemma replace_ends document content a :
  bytes_ok (id_key (tg_id document)) → active a →
  wp (replace fuel document content) env (operation_ends (op_log env (tg_id document) a (unblocked document)) (Exists (creates_record env (at_id a)))
    (λ d l q q', staged_as (tg_id document) a (replace_type (tg_id document) q) d l q q') a) a.
Proof.
  set (id := tg_id document). intros Hkey Ha. unfold replace. apply wp_bind, wp_gets. cbn [bind_post]. rewrite (active_query _ Ha).
  apply (cached_ends _ (λ a, op_log env id a (unblocked document)) (λ a, Exists (creates_record env (at_id a))) (λ a d l q q', staged_as id a (replace_type id q) d l q q'));
    [done|apply op_log_nil|by intros ?%Exists_nil|done..|].
  clear a Ha. intros a0 [_ Hd Hs]. apply (open_bucket_ends env id a0 _ _ _ _ [] a0); [apply begun_refl|]. intros ec a Hb.
  destruct (has ec); [by eapply begun_fail|]. eapply step_ask; [done|]. clear a Hb. intros op_id a Hb.
  destruct (_ || _); [by eapply begun_fail|]. eapply step_done; [done..|].
  apply wp_bind, wp_gets. cbn [bind_post]. fold id. rewrite (begun_staged _ _ _ _ Hb), !is_staged_type.
  destruct (bool_decide (_ = Some REMOVE)) eqn:Hnr; [by eapply begun_fail|]. apply bool_decide_eq_false in Hnr.
  eapply step_expiry; [done|]. clear a Hb. intros b a Hb. destruct b; [by eapply begun_fail|].
  eapply step_blocking; [done|done|intros f l1 a1 Hb1; by eapply begun_fail|]. clear a Hb. intros l1 a Hb Hul.
  eapply begun_with_atr; [done|done|done|apply unblocked_app|done..|]. clear a Hb Hul. intros l2 a2 Hp Hrec Hready Hul.
  assert (Hid : at_id a2 = at_id a0) by apply (same_id _ _ (started_same _ _ _ _ _ Hp)).
  destruct (bool_decide _) eqn:Hi; [apply bool_decide_eq_true in Hi|apply bool_decide_eq_false in Hi].
  - eapply (tail_ends _ _ _ _ _ id); [done..| |eapply create_staged_insert_ends; [done..|by apply started_refl]].
    intros d l' q' Hst. eapply staged_as_app; [done..|]. unfold replace_type. by rewrite decide_True.
  - eapply (tail_ends _ _ _ _ _ id); [done..| |eapply create_staged_replace_ends; [done..|by apply started_refl]].
    intros d l' q' Hst. eapply staged_as_app; [done..|]. unfold replace_type. by rewrite decide_False.
Qed.

Definition remove_effect (id : document_id) (x : unit) (l : list log_entry) (q q' : staged_mutation_queue) : Prop :=
  if decide (staged_type id q = Some INSERT) then unstaged id x l q q' else staged_removal id x l q q'.

(** Its own insertion is removed without looking for other transactions. *)
Definition remove_unblocked (document : transaction_get_result) (a : attempt) (l : list log_entry) : Prop :=
  staged_type (tg_id document) (at_staged a) ≠ Some INSERT → unblocked document l.

Lemma remove_ends document a :
  bytes_ok (id_key (tg_id document)) → active a →
  wp (remove fuel document) env (operation_ends (op_log env (tg_id document) a (remove_unblocked document a)) (Exists (creates_record env (at_id a)))
    (remove_effect (tg_id document)) a) a.
Proof.
  set (id := tg_id document). intros Hkey Ha. unfold remove. apply wp_bind, wp_gets. cbn [bind_post]. rewrite (active_query _ Ha).
  apply (cached_ends _ (λ a, op_log env id a (remove_unblocked document a)) (λ a, Exists (creates_record env (at_id a))) (λ _, remove_effect id));
    [done|apply op_log_nil|by intros ?%Exists_nil|done..|].
  clear a Ha. intros a0 [_ Hd Hs]. eapply step_done; [done|apply begun_refl|].
  apply (open_bucket_ends env id a0 _ _ _ _ [] a0); [apply begun_refl|]. intros ec a Hb.
  destruct (has ec); [by eapply begun_fail|].
  apply wp_bind, wp_gets. cbn [bind_post]. fold id. rewrite (begun_staged _ _ _ _ Hb), !is_staged_type.
  eapply step_expiry; [done|]. clear a Hb. intros b a Hb. destruct b.
  { unfold remove_error. apply wp_bind, wp_modify. cbn [bind_post]. eapply begun_fail. by apply begun_overtime. }
  eapply step_ask; [done|]. clear a Hb. intros op_id a Hb.
  destruct (bool_decide (_ = Some REMOVE)) eqn:Hnr; [by eapply begun_fail|]. apply bool_decide_eq_false in Hnr.
  destruct (bool_decide _) eqn:Hi; [apply bool_decide_eq_true in Hi|apply bool_decide_eq_false in Hi].
  - eapply wp_mono; [eapply (tail_ends env id a0 (remove_unblocked document a0) _ id (unstaged id) (remove_effect id) [] a);
      [done|apply (bg_started _ _ _ _ Hb)| | | |eapply remove_staged_insert_ends; [done| |by apply started_refl]]|by intros r a1 [He _]].
    + intros Hn. rewrite (Hs Hn) in Hi. by unfold staged_type in Hi.
    + by intros Hn.
    + intros x l' q' Hx. unfold remove_effect. rewrite decide_True by done. by rewrite app_nil_r.
    + rewrite (bg_atr _ _ _ _ Hb). intros Hn. rewrite (Hs Hn) in Hi. by unfold staged_type in Hi.
  - eapply step_blocking; [done|intros l Hl _; exact Hl|intros f l1 a1 Hb1; by eapply begun_fail|]. clear a Hb. intros l1 a Hb Hul.
    eapply begun_with_atr; [done|done|done|intros ? ? Hu Hn; by apply unblocked_app, Hu|done..|]. clear a Hb Hul. intros l2 a2 Hp Hrec Hready Hul.
    eapply (tail_ends _ _ _ _ _ id); [done..| |eapply create_staged_remove_ends; [done..|by apply started_refl]].
    intros x l' q' (m & Hq & Hm & Ht & Hw). unfold remove_effect. rewrite decide_False by done.
    exists m. split_and!; [done..|by apply written_app].
Qed.
End operations.

(** ** Reads *)

Section reads.
Context `{Json, !QueryMode} (env : environment) (fuel : nat) (id : document_id).

Abbreviation never := (λ _ : list log_entry, False).
Abbreviation reads_of := (Forall is_lookup).
Abbreviation ends_read := (λ a0, ends False reads_of never (λ _ _ q q', q' = q) a0).

Lemma step_read {A B} (m : txn A) (f : A → txn (option B)) a0 l a :
  framed env is_lookup m → started reads_of never a0 l a →
  (∀ x a' l', started reads_of never a0 l' a' → wp (f x) env (ends_read a0) a') →
  wp (m ≫= f) env (ends_read a0) a.
Proof.
  intros Hm [[Hs Hg Hl Hgood] Hat] Hf. apply wp_bind. eapply wp_mono; [apply Hm|]. intros r a' [Hfr He].
  destruct (Hfr) as (Hs' & Ha' & l' & Hl' & Hlook).
  assert (Hst : started reads_of never a0 (l' ++ l) a').
  { split; [split; [by etrans|etrans; [done|by eapply frame_goes_on]|by rewrite Hl', Hl, app_assoc|by apply Forall_app]|by rewrite Ha']. }
  destruct r as [x|e| |]; cbn [bind_post]; [by eapply Hf|by eapply end_throw; eauto|eapply end_other; eauto..].
Qed.

Lemma end_read {A} (x : A) a0 l a : started reads_of never a0 l a → wp (op_completed_with_callback x) env (ends_read a0) a.
Proof.
  intros Hs. pose proof (end_staged False reads_of never (λ (_ : A) _ q q', q' = q) env x (λ q, q) a0 l a Hs (λ _, eq_refl) eq_refl) as He.
  replace a with (set_staged (at_staged a) a) by by destruct a. exact He.
Qed.

Lemma framed_after_get g : framed env is_lookup (after_get g).
Proof. unfold after_get. destruct (go_ec g); [apply framed_ret|apply framed_hook]. Qed.

Lemma complete_get_ends {A} doc (x : A) a0 l a : started reads_of never a0 l a → wp (complete_get doc x) env (ends_read a0) a.
Proof.
  intros Hs. unfold complete_get. eapply step_read; [apply framed_lift|done|]. intros [f|] a' l' Hs'; [by eapply end_fail|by eapply end_read].
Qed.

Lemma get_ends a : active a → wp (get fuel id) env (operation_ends reads_of never (λ _ _ q q', q' = q) a) a.
Proof.
  intros Ha. unfold get. apply wp_bind, wp_gets. cbn [bind_post]. rewrite (active_query _ Ha).
  apply (cached_ends env _ (λ _, reads_of) (λ _, never) (λ _ _ _ q q', q' = q)); try done; try tauto. clear a Ha. intros a0 [_ Hd _].
  apply wp_bind, wp_check_if_done; [intros _|by rewrite Hd]. cbn [bind_post].
  eapply step_read; [apply framed_do_get|by apply started_refl|]. intros g a l Hs.
  eapply step_read; [apply framed_after_get|done|]. clear a l Hs. intros ec a l Hs.
  destruct ec as [c|]; [destruct c; by eapply end_fail|]. destruct (go_doc g); [by eapply complete_get_ends|].
  apply wp_fault. eapply end_other; eauto.
Qed.

Lemma get_optional_ends a : active a → wp (get_optional fuel id) env (operation_ends reads_of never (λ _ _ q q', q' = q) a) a.
Proof.
  intros Ha. unfold get_optional. apply wp_bind, wp_gets. cbn [bind_post]. rewrite (active_query _ Ha).
  apply (cached_ends env _ (λ _, reads_of) (λ _, never) (λ _ _ _ q q', q' = q)); try done; try tauto. clear a Ha. intros a0 [_ Hd _].
  apply wp_ensure_open_bucket. intros ec a Ha.
  assert (Hs : started reads_of never a0 [] a) by (destruct Ha as [->| ->]; [|apply started_next]; by apply started_refl). clear Ha.
  match goal with |- ?X ∧ _ => enough (Hm : X) end.
  { split; [exact Hm|]. eapply wp_mono; [exact Hm|]. intros [x|e| |] a2 He; try exact He. destruct He as (Hg & l2 & Hl & Hgood & _). split; [done|by exists l2]. }
  destruct (has ec); [by eapply end_fail|].
  apply wp_bind, wp_check_if_done; [intros _|by rewrite (on_done _ _ (started_goes_on _ _ _ _ _ Hs)), Hd]. cbn [bind_post].
  eapply step_read; [apply framed_do_get|done|]. clear a Hs. intros g a l Hs.
  eapply step_read; [apply framed_after_get|done|]. clear a l Hs. intros c a l Hs.
  destruct c as [c|]; [destruct c; match goal with |- wp (fail_operation _) _ _ _ => by eapply end_fail | _ => by eapply end_read end|].
  destruct (go_doc g); [by eapply complete_get_ends|by eapply end_read].
Qed.
End reads.
