(* ===== verification/TransactionTheorems.v ===== *)
(** * Operations of an attempt: the claims

    What the user of an attempt relies on: an operation stages one mutation or
    none, respects other transactions, writes a document only after the record
    of the attempt, and an operation that failed ends the attempt. *)

From S2P Require Import Prelude ByteOrder Protocol McbpParser ClientRequest ClientResponse Commands Topology AtrIds Transactions TransactionLinks Attempt AttemptProofs TransactionOps TransactionOpsProofs TransactionReads TransactionStaging.

(** ** Operations *)

Inductive operation :=
  | op_get (id : document_id)
  | op_get_optional (id : document_id)
  | op_insert (id : document_id) (content : encoded_value)
  | op_replace (document : transaction_get_result) (content : encoded_value)
  | op_remove (document : transaction_get_result).

(** The keys of documents are bytes. *)
Definition operation_ok (o : operation) : Prop :=
  match o with
  | op_get _ | op_get_optional _ => True
  | op_insert id _ => bytes_ok (id_key id)
  | op_replace document _ | op_remove document => bytes_ok (id_key (tg_id document))
  end.

Section perform.
Context `{Json, !QueryMode} (fuel : nat).

Definition perform (o : operation) : txn (option (option transaction_get_result)) :=
  match o with
  | op_get id => r ← get fuel id; mret (Some <$> r)
  | op_get_optional id => get_optional fuel id
  | op_insert id content => r ← insert fuel id content; mret (Some <$> r)
  | op_replace document content => r ← replace fuel document content; mret (Some <$> r)
  | op_remove document => r ← remove fuel document; mret ((λ _, None) <$> r)
  end.

(** What a user does with an attempt: the next operation may depend on
    everything before. *)
Fixpoint performs (n : nat) (choose : attempt → operation) : txn unit :=
  match n with
  | O => mret tt
  | S n => a ← gets id; _ ← perform (choose a); performs n choose
  end.
End perform.

Section effects.
Context `{Json} (env : environment).

(** The effect of an operation that succeeded with the result [d] on the queue,
    [l] being its requests *)
Definition effect (o : operation) (a : attempt) (d : option transaction_get_result) (l : list log_entry)
    (q q' : staged_mutation_queue) : Prop :=
  match o with
  | op_get _ | op_get_optional _ => q' = q
  | op_insert id _ => ∃ d', d = Some d' ∧ staged_as id a (insert_type id q) d' l q q'
  | op_replace document _ => ∃ d', d = Some d' ∧ staged_as (tg_id document) a (replace_type (tg_id document) q) d' l q q'
  | op_remove document => d = None ∧ remove_effect (tg_id document) tt l q q'
  end.

(** Its requests *)
Definition operation_log (o : operation) (a : attempt) (l : list log_entry) : Prop :=
  match o with
  | op_get _ | op_get_optional _ => Forall is_lookup l
  | op_insert id _ => op_log env id a (λ _, True) l
  | op_replace document _ => op_log env (tg_id document) a (unblocked env document) l
  | op_remove document => op_log env (tg_id document) a (remove_unblocked env document a) l
  end.

Lemma operation_ends_map {A B} (f : A → B) (G R : list log_entry → Prop) (K : A → _) (K' : B → _) (m : txn (option A)) a :
  (∀ x l q q', K x l q q' → K' (f x) l q q') →
  wp m env (operation_ends G R K a) a → wp (r ← m; mret (f <$> r)) env (operation_ends G R K' a) a.
Proof.
  intros HK Hm. apply wp_bind. eapply wp_mono; [exact Hm|]. intros [x|e| |] a' He; cbn [bind_post]; [apply wp_ret|exact He..].
  destruct He as (Hg & l & Hl & HG & Ho & Hatr & c & Hc & Hx). split; [done|]. exists l. split_and!; [done..|].
  exists c. split; [done|]. destruct x; cbn [fmap option_fmap option_map]; [|done]. destruct Hx as (-> & He & Hk). split_and!; [done..|by apply HK].
Qed.

Lemma operation_ends_mono {A} (G R R' : list log_entry → Prop) (K K' : A → _) a r a' :
  (∀ l, R l → R' l) → (∀ x l q q', K x l q q' → K' x l q q') →
  operation_ends G R K a r a' → operation_ends G R' K' a r a'.
Proof.
  intros HR HK (Hg & l & Hl & HG & Ho). split; [done|]. exists l. split_and!; [done..|]. destruct r; [|done..].
  destruct Ho as (Hops & Hatr & c & Hc & Hx). split; [done|]. split; [destruct Hatr as [?|[?|?]]; eauto|].
  exists c. split; [done|]. case_match; [|done]. destruct Hx as (-> & He & Hk). auto.
Qed.

Lemma perform_ends `{!QueryMode} fuel o a :
  no_hooks env → operation_ok o → active a →
  wp (perform fuel o) env (operation_ends (operation_log o a) (Exists (creates_record env (at_id a))) (effect o a) a) a.
Proof.
  intros Hh Hok Ha. destruct o; cbn [perform effect operation_log operation_ok] in *.
  - eapply wp_mono; [apply (operation_ends_map _ (Forall is_lookup) (λ _, False) (λ _ _ q q', q' = q) (λ _ _ q q', q' = q)); [done|by apply get_ends]|].
    intros r a' He. eapply operation_ends_mono; [| |exact He]; done.
  - eapply wp_mono; [by apply get_optional_ends|]. intros r a' He. eapply operation_ends_mono; [| |exact He]; done.
  - eapply operation_ends_map; [|by apply insert_ends]. intros d l q q' Hd. by exists d.
  - eapply operation_ends_map; [|by apply replace_ends]. intros d l q q' Hd. by exists d.
  - eapply operation_ends_map; [|by apply remove_ends]. by intros [].
Qed.
End effects.

(** ** Other transactions *)

Lemma pending_not_staging `{Json} env aid id req resp : pending_entry env aid (mutate_in req, resp) → ¬ stages_document id req.
Proof.
  intros (req' & msecs & level & [= <-] & Hs) [_ Hin]. rewrite Hs in Hin. unfold atr_pending_specs in Hin.
  repeat (apply elem_of_cons in Hin as [Hin|Hin]; [discriminate Hin|]). by apply not_elem_of_nil in Hin.
Qed.

(** In the requests of an operation, what comes before a write of a document
    includes all the preparation. *)
Lemma op_log_write `{Json} env id a U l l2 req resp l1 id' :
  op_log env id a U l → l = l2 ++ (mutate_in req, resp) :: l1 → stages_document id' req →
  ∃ k l0, l1 = k ++ l0 ∧ Forall (preparation env a) l0 ∧
    (at_atr_id a = None → Exists (creates_record env (at_id a)) l0) ∧ U l0.
Proof.
  intros (m2 & m1 & -> & Hp & Hd & Hu) Heq Hs.
  assert (Hn : (mutate_in req, resp) ∉ m1).
  { intros Hin. eapply Forall_forall in Hin; [|exact Hp]. destruct Hin as [Hin|Hin]; [done|]. by eapply pending_not_staging. }
  apply app_eq_app in Heq as (k & [[Hm Hk]|[Hm Hk]]).
  - destruct k as [|e k]; cbn in Hk.
    + destruct Hn. rewrite <-Hk. apply elem_of_cons. by left.
    + injection Hk as <- ->. exists k, m1. split; [done|]. split; [done|]. apply Hu. rewrite Hm. by destruct l2.
  - destruct Hn. rewrite Hk. apply elem_of_app. right. apply elem_of_cons. by left.
Qed.

(** C6: A replacement of a document that shows a write of another transaction
    and names its record, or a removal of one that is not the attempt's own
    staged insertion, sends the mutation only after it has read the record of
    that transaction without finding its attempt there, or finding it completed
    or rolled back.  (A document that does not name the record is overwritten:
    [asks_for_record].) *)
Theorem conflicts_respected `{Json, !QueryMode} fuel o doc env a r a' :
  no_hooks env → operation_ok o → active a →
  (∃ content, o = op_replace doc content) ∨ (o = op_remove doc ∧ staged_type (tg_id doc) (at_staged a) ≠ Some INSERT) →
  asks_for_record (transaction_id env) doc = true →
  perform fuel o env a = (r, a') →
  ∃ l, at_log a' = l ++ at_log a ∧
    ∀ l2 req resp l1, l = l2 ++ (mutate_in req, resp) :: l1 → stages_document (tg_id doc) req → Exists (clears doc) l1.
Proof.
  intros Hh Hok Ha Ho Hb Hr. pose proof (perform_ends env fuel o a Hh Hok Ha) as Hwp. unfold wp in Hwp. rewrite Hr in Hwp.
  destruct Hwp as (_ & l & Hl & Hg & _). exists l. split; [done|]. intros l2 req resp l1 Heq Hs.
  assert (Hu : op_log env (tg_id doc) a (unblocked env doc) l).
  { destruct Ho as [[content ->]|[-> Hi]]; [exact Hg|]. destruct Hg as (m2 & m1 & -> & Hp & Hd & Hu). exists m2, m1.
    split_and!; [done..|]. intros Hne. destruct (Hu Hne) as [Hr' Hu']. split; [done|by apply Hu']. }
  destruct (op_log_write _ _ _ _ _ _ _ _ _ _ Hu Heq Hs) as (k & l0 & -> & _ & _ & Hub).
  apply Exists_app. right. by apply Hub.
Qed.

Lemma perform_refused `{Json, !QueryMode} fuel env o a :
  at_is_query a = false → at_errors a ≠ [] →
  wp (perform fuel o) env (λ r a', r = Ok None ∧ at_log a' = at_log a ∧ at_staged a' = at_staged a ∧ at_errors a' ≠ [] ∧
    ∃ f, at_calls a' = Some (operation_failed_thrown f) :: at_calls a ∧
      (op_allow (at_ops a) = true → cause_ f = PREVIOUS_OPERATION_FAILED)) a.
Proof.
  intros Hq He. set (Q := λ r a', _).
  assert (Hmap : ∀ A (f : A → option transaction_get_result) (m : txn (option A)),
    wp m env (λ r a', r = Ok None ∧ at_log a' = at_log a ∧ at_staged a' = at_staged a ∧ at_errors a' ≠ [] ∧
      ∃ f, at_calls a' = Some (operation_failed_thrown f) :: at_calls a ∧
        (op_allow (at_ops a) = true → cause_ f = PREVIOUS_OPERATION_FAILED)) a →
    wp (r ← m; mret (f <$> r)) env Q a).
  { intros A f m Hm. apply wp_bind. eapply wp_mono; [exact Hm|]. intros r a' (-> & Hx). cbn [bind_post]. by apply wp_ret. }
  destruct o; cbn [perform]; [apply Hmap| |apply Hmap..];
    [unfold get|unfold get_optional|unfold insert|unfold replace|unfold remove]; apply wp_bind, wp_gets; cbn [bind_post]; rewrite Hq;
    by apply cache_error_refused.
Qed.

(** ** The record comes first *)

Section sequences.
Context `{Json, !QueryMode} (env : environment) (Hhooks : no_hooks env) (fuel : nat) (aid : bytes).

(** Every write of a document comes after the record of the attempt was
    created. *)
Definition record_first (l : list log_entry) : Prop :=
  ∀ l2 req resp l1 id, l = l2 ++ (mutate_in req, resp) :: l1 → stages_document id req → Exists (creates_record env aid) l1.

(** An attempt in use, which has sent [l] *)
Record in_use (a0 : attempt) (l : list log_entry) (a : attempt) : Prop := {
  use_active : active a;
  use_id : at_id a = aid;
  use_log : at_log a = l ++ at_log a0;
  use_first : record_first l;
  use_record : at_atr_id a = None ∨ at_errors a ≠ [] ∨ Exists (creates_record env aid) l;
}.

Lemma record_first_app l' l :
  record_first l → (∀ l2 req resp l1 id, l' = l2 ++ (mutate_in req, resp) :: l1 → stages_document id req →
    Exists (creates_record env aid) (l1 ++ l)) → record_first (l' ++ l).
Proof.
  intros Hl Hl' l2 req resp l1 id Heq Hs. apply app_eq_app in Heq as (k & [[Hm Hk]|[Hm Hk]]).
  - destruct k as [|e k]; cbn in Hk.
    + rewrite app_nil_r in Hm. subst l2. by apply (Hl [] req resp l1 id).
    + injection Hk as <- ->. by eapply Hl'.
  - by eapply Hl.
Qed.

(** Without a record or with an error nothing is written, or the record is
    created first. *)
Lemma operation_log_first o a l :
  at_id a = aid → operation_log env o a l → ∀ l2 req resp l1 id, l = l2 ++ (mutate_in req, resp) :: l1 → stages_document id req →
  at_atr_id a = None → Exists (creates_record env aid) l1.
Proof.
  intros <- Hg l2 req resp l1 id Heq Hs Hn.
  assert (Hop : ∀ id' U, op_log env id' a U l → Exists (creates_record env (at_id a)) l1).
  { intros id' U Hu. destruct (op_log_write _ _ _ _ _ _ _ _ _ _ Hu Heq Hs) as (k & l0 & -> & _ & Hr & _).
    apply Exists_app. right. by apply Hr. }
  assert (Hread : ¬ Forall is_lookup l).
  { rewrite Heq. intros [_ [Hl _]%Forall_cons]%Forall_app. exact Hl. }
  destruct o; first [by destruct Hread|by eapply Hop].
Qed.

Lemma in_use_operation o a0 l a :
  operation_ok o → in_use a0 l a →
  wp (perform fuel o) env (λ r a', ∃ l, at_log a' = l ++ at_log a0 ∧ record_first l ∧ ∀ x, r = Ok x → in_use a0 l a') a.
Proof.
  intros Hok [Ha Hid Hlog Hfirst Hrec].
  assert (Hact : ∀ a', goes_on a a' → active a').
  { intros a' [Hi Hd Hq Hatr Hst]. destruct Ha as [Hq0 Hd0 Hs0]. split; [congruence..|]. intros Hn. rewrite Hst by done. apply Hs0.
    destruct (at_atr_id a) as [rid|]; [|done]. by rewrite (Hatr rid) in Hn. }
  destruct (decide (at_errors a = [])) as [He|He].
  - eapply wp_mono; [by apply perform_ends|]. intros r a' (Hg & l' & Hl' & Hgood & Ho).
    exists (l' ++ l). split; [by rewrite Hl', Hlog, app_assoc|]. rewrite Hid in Ho.
    assert (Hf : record_first (l' ++ l)).
    { apply record_first_app; [done|]. intros l2 req resp l1 id Heq Hs. apply Exists_app.
      destruct (at_atr_id a) as [rid|] eqn:Hn; [right; by destruct Hrec as [?|[?|?]]|left]. by eapply operation_log_first. }
    split; [done|]. intros x ->. destruct Ho as (_ & Hatr & _). split; [by apply Hact|by rewrite (on_id _ _ Hg)|by rewrite Hl', Hlog, app_assoc|done|].
    destruct Hatr as [Hsame|[Hr|Hr]]; [|right; right; apply Exists_app; by left|by right; left].
    rewrite Hsame. destruct Hrec as [?|[?|?]]; [by left|done|right; right]. apply Exists_app. by right.
  - eapply wp_mono; [exact (wp_conj _ _ _ _ _ (perform_ends env fuel o a Hhooks Hok Ha) (perform_refused fuel env o a (active_query _ Ha) He))|].
    intros r a' [(Hg & _) (-> & Hl' & _ & He' & _)]. exists l. rewrite Hl', Hlog. split; [done|]. split; [done|]. intros _ _.
    split; [by apply Hact|by rewrite (on_id _ _ Hg)|by rewrite Hl', Hlog|done|by right; left].
Qed.

Lemma performs_record_first n choose a0 l a :
  (∀ a, operation_ok (choose a)) → in_use a0 l a →
  wp (performs fuel n choose) env (λ _ a', ∃ l, at_log a' = l ++ at_log a0 ∧ record_first l) a.
Proof.
  intros Hok. revert l a. induction n as [|n IH]; intros l a Hu; cbn [performs].
  { apply wp_ret. exists l. by destruct Hu. }
  apply wp_bind, wp_gets. cbn [bind_post]. apply wp_bind. eapply wp_mono; [by apply (in_use_operation (choose a) a0 l)|].
  intros r a' (l' & Hl' & Hf & Hnext). destruct r as [x|e| |]; cbn [bind_post]; [|by exists l'..]. by eapply IH, Hnext.
Qed.
End sequences.

(** C12: Whatever operations the user of a new attempt performs one after
    another, in whatever order and with whatever results, every request that
    writes transactional metadata into a document comes after a request that
    entered the attempt into its record and that the server accepted (or
    reported to have accepted before). *)
Theorem staged_after_record `{Json, !QueryMode} fuel n choose env a a' r :
  no_hooks env → (∀ a, operation_ok (choose a)) → active a → at_atr_id a = None →
  performs fuel n choose env a = (r, a') →
  ∃ l, at_log a' = l ++ at_log a ∧
    ∀ l2 req resp l1 id, l = l2 ++ (mutate_in req, resp) :: l1 → stages_document id req →
      Exists (creates_record env (at_id a)) l1.
Proof.
  intros Hh Hok Ha Hn Hr.
  assert (Hu : in_use env (at_id a) a [] a).
  { split; [done..| |by left]. intros l2 req resp l1 id Heq. by destruct l2. }
  pose proof (performs_record_first env Hh fuel (at_id a) n choose a [] a Hok Hu) as Hwp. unfold wp in Hwp. by rewrite Hr in Hwp.
Qed.

(** ** Failures *)

Lemma goes_on_active a a' : active a → goes_on a a' → active a'.
Proof.
  intros [Hq0 Hd0 Hs0] [Hi Hd Hq Hatr Hst]. split; [congruence..|]. intros Hn. rewrite Hst by done. apply Hs0.
  destruct (at_atr_id a) as [rid|]; [|done]. by rewrite (Hatr rid) in Hn.
Qed.

(** The callbacks of operations that are refused *)
Definition refused (c : option exn) : Prop :=
  ∃ f, c = Some (operation_failed_thrown f) ∧ cause_ f = PREVIOUS_OPERATION_FAILED.

(** What a sequence of operations leaves of an attempt that failed *)
Lemma performs_refused `{Json, !QueryMode} fuel n choose env a :
  no_hooks env → (∀ a, operation_ok (choose a)) → active a → op_allow (at_ops a) = true → at_errors a ≠ [] →
  ∃ a' l, performs fuel n choose env a = (Ok tt, a') ∧ active a' ∧ at_errors a' ≠ [] ∧ at_ops a' = at_ops a ∧
    at_log a' = at_log a ∧ at_staged a' = at_staged a ∧ at_calls a' = l ++ at_calls a ∧ length l = n ∧ Forall refused l.
Proof.
  intros Hh Hok. revert a. induction n as [|n IH]; intros a Ha Hallow He; [by exists a, []|].
  pose proof (wp_conj _ _ _ _ _ (perform_ends env fuel (choose a) a Hh (Hok a) Ha) (perform_refused fuel env (choose a) a (active_query _ Ha) He)) as Hp.
  assert (Hstep : performs fuel (S n) choose env a =
    match perform fuel (choose a) env a with
    | (Ok _, a1) => performs fuel n choose env a1
    | (Err e, a1) => (Err e, a1) | (Fault, a1) => (Fault, a1) | (Diverge, a1) => (Diverge, a1)
    end).
  { cbn [performs]. unfold mbind, txn_bind, gets, asks. cbn. destruct (perform fuel (choose a) env a) as [[x|e| |] a1]; done. }
  rewrite Hstep. unfold wp in Hp. destruct (perform fuel (choose a) env a) as [r a1].
  destruct Hp as [(Hg & l1 & _ & _ & Ho) (Hr & Hl1 & Hs1 & He1 & f & Hc1 & Hcause)]. cbn [fst snd] in *. subst r.
  destruct Ho as (Hops & _). destruct (IH a1) as (a' & l & E & Ha' & He' & Ho' & Hl' & Hs' & Hc' & Hn & Hf); [by eapply goes_on_active|by rewrite Hops|done|].
  exists a', (l ++ [Some (operation_failed_thrown f)]). rewrite E, Ho', Hl', Hs', Hc', Hc1, <-app_assoc. split_and!; try done.
  - rewrite length_app. cbn. lia.
  - apply Forall_app. split; [done|]. constructor; [|constructor]. exists f. auto.
Qed.

(** C11: An operation whose callback gets [operation_failed] ends the attempt:
    however many operations follow it, one after another, each gets
    PREVIOUS_OPERATION_FAILED, and together they send nothing and stage
    nothing; then the commit throws the failure without a request, so nothing
    of the attempt becomes visible. *)
Theorem failed_operation_prevents_commit `{Json, !QueryMode, Unstaging} fuel o n choose env a a' f :
  no_hooks env → operation_ok o → (∀ a, operation_ok (choose a)) → active a →
  op_allow (at_ops a) = true → op_count (at_ops a) = 0 →
  perform fuel o env a = (Ok None, a') → at_calls a' = Some (operation_failed_thrown f) :: at_calls a →
  ∃ a1 l, performs fuel n choose env a' = (Ok tt, a1) ∧ at_log a1 = at_log a' ∧ at_staged a1 = at_staged a' ∧
    at_calls a1 = l ++ at_calls a' ∧ length l = n ∧ Forall refused l ∧
    ∃ f' a2, commit fuel env a1 = (Err (operation_failed_thrown f'), a2) ∧ at_log a2 = at_log a'.
Proof.
  intros Hh Hok Hoks Ha Hallow Hcount Hr Hcalls. pose proof (perform_ends env fuel o a Hh Hok Ha) as Hwp. unfold wp in Hwp. rewrite Hr in Hwp.
  destruct Hwp as (Hg & l0 & _ & _ & Hops & _ & c & Hc & Hne & Hst & He). cbn [fst snd] in *.
  rewrite Hcalls in Hc. injection Hc as <-. destruct He as [He|He]; [|congruence].
  assert (Herr : at_errors a' ≠ []) by (rewrite He; by intros [_ ?]%app_eq_nil).
  destruct (performs_refused fuel n choose env a') as (a1 & l & E & Ha1 & He1 & Ho1 & Hl1 & Hs1 & Hc1 & Hn & Hf);
    [done|done|by eapply goes_on_active|by rewrite Hops|done|].
  exists a1, l. split_and!; [done..|]. rewrite <-Hl1.
  enough (Hcommit : wp (commit fuel) env (λ r a'', ∃ f', r = Err (operation_failed_thrown f') ∧ at_log a'' = at_log a1) a1).
  { unfold wp in Hcommit. destruct (commit fuel env a1) as [r'' a'']. destruct Hcommit as (f' & Hr' & Hl'). cbn in Hr', Hl'. exists f', a''. by rewrite Hr'. }
  unfold commit. apply wp_bind, wp_wait_and_block; intros Hc'; [|rewrite Ho1, Hops in Hc'; by destruct Hc']. cbn [bind_post].
  apply wp_bind, wp_existing_error; [done|]. intros f' _ _. cbn [bind_post]. by exists f'.
Qed.

(** ** Examples *)

#[local] Existing Instance no_query_mode.
#[local] Existing Instance example_reading.
#[local] Instance example_unstaging : Unstaging := {| commit_staged := mret tt; rollback_staged := mret tt |}.

Definition example_new : attempt := fresh_attempt [120] (pending_attempt []).
Definition example_key (k : Z) : document_id := document_id_of_key [98] [k].
Definition example_content : encoded_value := EncodedValue [1; 2] json_common_flags.
Lemma example_active : active example_new.
Proof. by split. Qed.
Lemma example_hooks answer : no_hooks (calm_environment answer).
Proof. done. Qed.
Lemma example_key_ok k : 0 ≤ k < 256 → bytes_ok (id_key (example_key k)).
Proof. intros Hk. constructor; [unfold in_width; lia|constructor]. Qed.

Definition example_insert := perform 300 (op_insert (example_key 107) example_content) (calm_environment (λ _ _, response_ok)) example_new.

(** A document that attempt [97] of transaction [117] wrote, whose record is
    gone *)
Definition example_blocked : transaction_get_result :=
  TransactionGetResult (example_key 107) example_content 5
    (TransactionLinks (Some [114]) (Some [98]) (Some [115]) (Some [99]) (Some [117]) (Some [97]) (Some [111])
       (Some example_content) None None None None None (Some (ascii "replace")) None false) None.
Definition example_gone (n : nat) (req : request) : response :=
  match req with
  | lookup_in _ _ _ => response_error (errc_key_value KeyValue.document_not_found)
  | _ => response_ok
  end.
Definition example_replace := perform 300 (op_replace example_blocked example_content) (calm_environment example_gone) example_new.

Lemma conflicts_respected_witness :
  length (at_staged example_replace.2) = 1%nat ∧ ∃ l, at_log example_replace.2 = l ++ [] ∧
    ∀ l2 req resp l1, l = l2 ++ (mutate_in req, resp) :: l1 → stages_document (example_key 107) req → Exists (clears example_blocked) l1.
Proof.
  split; [by vm_compute|].
  apply (conflicts_respected 300 (op_replace example_blocked example_content) example_blocked (calm_environment example_gone) example_new
    example_replace.1 example_replace.2 (example_hooks _)).
  - apply example_key_ok. lia.
  - apply example_active.
  - left. by exists example_content.
  - reflexivity.
  - unfold example_replace. apply surjective_pairing.
Defined.

(** Two insertions *)
Definition example_choose (a : attempt) : operation :=
  op_insert (if decide (at_staged a = []) then example_key 107 else example_key 108) example_content.
Definition example_two := performs 300 2 example_choose (calm_environment (λ _ _, response_ok)) example_new.

Lemma staged_after_record_witness :
  length (at_staged example_two.2) = 2%nat ∧ ∃ l, at_log example_two.2 = l ++ [] ∧
    ∀ l2 req resp l1 id, l = l2 ++ (mutate_in req, resp) :: l1 → stages_document id req →
      Exists (creates_record (calm_environment (λ _ _, response_ok)) [120]) l1.
Proof.
  split; [by vm_compute|].
  apply (staged_after_record 300 2 example_choose (calm_environment (λ _ _, response_ok)) example_new example_two.2 example_two.1 (example_hooks _)).
  - intros a. cbn. case_decide; apply example_key_ok; lia.
  - apply example_active.
  - reflexivity.
  - unfold example_two. apply surjective_pairing.
Defined.

(** A record that cannot be written *)
Definition example_full : environment := calm_environment (λ _ _, response_error (errc_key_value KeyValue.value_too_large)).
Definition example_failed := perform 300 (op_insert (example_key 107) example_content) example_full example_new.
Definition example_failure : operation_failure :=
  match at_calls example_failed.2 with Some (operation_failed_thrown f) :: _ => f | _ => operation_failed FAIL_OTHER end.

Lemma failed_operation_prevents_commit_witness :
  ∃ a1 l, performs 300 3 (λ _, op_get (example_key 108)) example_full example_failed.2 = (Ok tt, a1) ∧
    at_log a1 = at_log example_failed.2 ∧ at_staged a1 = at_staged example_failed.2 ∧
    at_calls a1 = l ++ at_calls example_failed.2 ∧ length l = 3%nat ∧ Forall refused l ∧
    ∃ f' a2, commit 300 example_full a1 = (Err (operation_failed_thrown f'), a2) ∧ at_log a2 = at_log example_failed.2.
Proof.
  apply (failed_operation_prevents_commit 300 (op_insert (example_key 107) example_content) 3 (λ _, op_get (example_key 108)) example_full
    example_new example_failed.2 example_failure (example_hooks _)).
  - apply example_key_ok. lia.
  - intros _. exact I.
  - apply example_active.
  - reflexivity.
  - reflexivity.
  - vm_compute. reflexivity.
  - vm_compute. reflexivity.
Defined.
