(* ===== verification/TransactionTermination.v ===== *)
(** * Operations of an attempt: termination

    Every operation ends when the transaction expires: its loops end with the
    time of the transaction, or with the number of retries of [exp_delay]. *)

From S2P Require Import Prelude ByteOrder Protocol McbpParser ClientRequest ClientResponse Commands Topology AtrIds Transactions TransactionLinks Attempt AttemptProofs TransactionOps TransactionOpsProofs TransactionReads TransactionStaging TransactionTheorems.

(** ** Pure functions *)

Definition settled {E A} (o : outcome E A) : Prop := o ≠ Diverge.

Section settled.
Context {E : Type}.

Lemma settled_Ok {A} (x : A) : settled (Ok (E:=E) x).
Proof. done. Qed.
Lemma settled_Err {A} (e : E) : settled (Err (A:=A) e).
Proof. done. Qed.
Lemma settled_Fault {A} : settled (Fault (E:=E) (A:=A)).
Proof. done. Qed.
Lemma settled_bind {A B} (m : outcome E A) (f : A → outcome E B) : settled m → (∀ x, settled (f x)) → settled (m ≫= f).
Proof. intros Hm Hf. destruct m; cbn; [apply Hf|done..]. Qed.
Lemma settled_fmap {A B} (f : A → B) (m : outcome E A) : settled m → settled (f <$> m).
Proof. by destruct m. Qed.
End settled.

Create HintDb settled discriminated.
#[export] Hint Resolve settled_Ok settled_Err settled_Fault settled_fmap : settled.

Ltac settled_walk :=
  repeat (match goal with
  | |- settled (mbind _ _) => apply settled_bind; [|intros ?]
  | |- settled (match ?x with _ => _ end) => destruct x
  | |- settled (if ?x then _ else _) => destruct x
  end || solve [eauto with settled nocore]).

Section parsing.
Context `{Json}.

Lemma settled_of_option {A} (o : option A) : settled (of_option o).
Proof. by destruct o. Qed.
Lemma settled_get_string j : settled (get_string j).
Proof. by destruct j. Qed.
Lemma settled_get_array j : settled (get_array j).
Proof. by destruct j. Qed.
Lemma settled_get_object j : settled (get_object j).
Proof. by destruct j. Qed.
Hint Resolve settled_of_option settled_get_string settled_get_array settled_get_object : settled.

Lemma settled_find_member key j : settled (find_member key j).
Proof. unfold find_member. settled_walk. Qed.
Hint Resolve settled_find_member : settled.
Lemma settled_at_member key j : settled (at_member key j).
Proof. unfold at_member. settled_walk. Qed.
Lemma settled_optional_member {A} (f : json → thrown A) key j : (∀ v, settled (f v)) → settled (optional_member f key j).
Proof. intros Hf. unfold optional_member. settled_walk. Qed.
Hint Resolve settled_at_member settled_optional_member : settled.
Lemma settled_optional_string key j : settled (optional_string key j).
Proof. unfold optional_string. auto with settled. Qed.
Lemma settled_deserialize v : settled (deserialize v).
Proof. apply settled_of_option. Qed.
Lemma settled_get_uint32 v : settled (get_uint32 v).
Proof. apply settled_of_option. Qed.
Lemma settled_get_int32 v : settled (get_int32 v).
Proof. apply settled_of_option. Qed.
Lemma settled_get_unsigned j : settled (get_unsigned j).
Proof. unfold get_unsigned. settled_walk. Qed.
Hint Resolve settled_optional_string settled_deserialize settled_get_uint32 settled_get_int32 settled_get_unsigned : settled.
Lemma settled_deserialize_string v : settled (deserialize_string v).
Proof. unfold deserialize_string. settled_walk. Qed.
Hint Resolve settled_deserialize_string : settled.

Lemma settled_found_field resp i : settled (found_field resp i).
Proof. unfold found_field. settled_walk. Qed.
Hint Resolve settled_found_field : settled.
Lemma settled_read_field {A} resp i (f : bytes → thrown A) : (∀ v, settled (f v)) → settled (read_field resp i f).
Proof. intros Hf. unfold read_field. settled_walk. Qed.
Lemma settled_three_members {A B C} (f : json → thrown A) (g : json → thrown B) (h : json → thrown C) v :
  (∀ j, settled (f j)) → (∀ j, settled (g j)) → (∀ j, settled (h j)) → settled (three_members f g h v).
Proof. intros Hf Hg Hh. unfold three_members. settled_walk. Qed.
Hint Resolve settled_read_field settled_three_members : settled.
Lemma settled_read_id v : settled (read_id v).
Proof. unfold read_id. auto with settled. Qed.
Lemma settled_read_restore v : settled (read_restore v).
Proof. unfold read_restore. auto with settled. Qed.
Lemma settled_read_atr v : settled (read_atr v).
Proof. unfold read_atr. settled_walk. Qed.
Lemma settled_read_document v : settled (read_document v).
Proof. unfold read_document. settled_walk. Qed.
Lemma settled_read_aux v : settled (read_aux v).
Proof. unfold read_aux. settled_walk. Qed.
Hint Resolve settled_read_id settled_read_restore settled_read_atr settled_read_document settled_read_aux : settled.

Lemma settled_create_from_subdoc id resp : settled (create_from_subdoc id resp).
Proof. unfold create_from_subdoc. settled_walk. Qed.

Lemma settled_stoull base s : settled (stoull base s).
Proof. unfold stoull. destruct (match skip_spaces s with [] => _ | _ => _ end) as [negative s']. settled_walk. Qed.
Hint Resolve settled_stoull : settled.

Lemma settled_create_stage s : settled (create_forward_compat_stage s).
Proof. unfold create_forward_compat_stage. settled_walk. Qed.
Lemma settled_requirement item : settled (requirement_of_json item).
Proof. unfold requirement_of_json, behavior_of_json. settled_walk. Qed.
Hint Resolve settled_create_stage settled_requirement : settled.
Lemma settled_stage_requirements stage items : settled (stage_requirements stage items).
Proof. induction items; cbn [stage_requirements]; settled_walk. Qed.
Hint Resolve settled_stage_requirements : settled.
Lemma settled_object_requirements members : settled (object_requirements members).
Proof. induction members as [|[] ?]; cbn [object_requirements]; settled_walk. Qed.
Hint Resolve settled_object_requirements : settled.
Lemma settled_check_forward_compat stage j : settled (check_forward_compat stage j).
Proof. unfold check_forward_compat. settled_walk. Qed.

Lemma settled_parse_mutation_cas s : settled (parse_mutation_cas s).
Proof. unfold parse_mutation_cas. settled_walk. Qed.
Hint Resolve settled_parse_mutation_cas : settled.
Lemma settled_doc_record o : settled (doc_record_create_from o).
Proof. unfold doc_record_create_from. settled_walk. Qed.
Hint Resolve settled_doc_record : settled.
Lemma settled_doc_records items : settled (doc_records items).
Proof. induction items; cbn [doc_records]; settled_walk. Qed.
Hint Resolve settled_doc_records : settled.
Lemma settled_process_ids entry key : settled (process_document_ids entry key).
Proof. unfold process_document_ids. settled_walk. Qed.
Hint Resolve settled_process_ids : settled.
Lemma settled_mutation_cas_member key val : settled (mutation_cas_member key val).
Proof. unfold mutation_cas_member. settled_walk. Qed.
Hint Resolve settled_mutation_cas_member : settled.
Lemma settled_atr_entries id now attempts : settled (atr_entries id now attempts).
Proof. induction attempts as [|[] ?]; cbn [atr_entries]; unfold atr_entry_of_json; settled_walk. Qed.
Hint Resolve settled_atr_entries : settled.
Lemma settled_now_ns v : settled (now_ns_from_vbucket v).
Proof. unfold now_ns_from_vbucket. settled_walk. Qed.
Hint Resolve settled_now_ns : settled.
Lemma settled_map_to_atr id resp : settled (map_to_atr id resp).
Proof. unfold map_to_atr. settled_walk. Qed.
Lemma settled_get_atr_result id resp : settled (get_atr_result id resp).
Proof.
  unfold get_atr_result. pose proof (settled_map_to_atr id resp) as Hm. settled_walk. by destruct Hm.
Qed.

Lemma settled_links_atr_id l : settled (links_atr_id l).
Proof. unfold links_atr_id. settled_walk. Qed.
Lemma settled_staged_entry l r : settled (staged_entry l r).
Proof. unfold staged_entry. settled_walk. Qed.
Lemma settled_blocking_entry e : settled (blocking_entry e).
Proof. unfold blocking_entry. pose proof settled_check_forward_compat. settled_walk. Qed.
Lemma settled_external_exception specs resp : settled (external_exception_from_response specs resp).
Proof. unfold external_exception_from_response. settled_walk. Qed.
Lemma settled_error_class resp : settled (error_class_from_response resp).
Proof. unfold error_class_from_response, error_class_from_response_extras. settled_walk. Qed.
End parsing.
#[export] Hint Resolve settled_create_from_subdoc settled_check_forward_compat settled_get_atr_result settled_links_atr_id
  settled_staged_entry settled_blocking_entry settled_external_exception settled_error_class : settled.

(** ** Actions *)

Definition ends_later {A} (a : attempt) (r : outcome exn A) (a' : attempt) : Prop :=
  settled r ∧ (at_tick a ≤ at_tick a')%nat.

Definition total {A} (env : environment) (m : txn A) : Prop := ∀ a, wp m env (ends_later a) a.

Section total.
Context (env : environment).
Abbreviation total := (total env).

Lemma total_pure {A} (m : txn A) : (∀ env a, (m env a).2 = a) → (∀ env a, settled (m env a).1) → total m.
Proof. intros Ha Hm a. split; [apply Hm|by rewrite Ha]. Qed.
Lemma total_ret {A} (x : A) : total (mret x).
Proof. by apply total_pure. Qed.
Lemma total_throw {A} e : total (throw (A:=A) e).
Proof. by apply total_pure. Qed.
Lemma total_fault {A} : total (fault (A:=A)).
Proof. by apply total_pure. Qed.
Lemma total_gets {A} (f : attempt → A) : total (gets f).
Proof. by apply total_pure. Qed.
Lemma total_asks {A} (f : environment → A) : total (asks f).
Proof. by apply total_pure. Qed.
Lemma total_question {A} (f : environment → nat → A) : total (question f).
Proof. intros a. split; [done|cbn; lia]. Qed.
Lemma total_execute req : total (execute req).
Proof. intros a. split; [done|cbn; lia]. Qed.
Lemma total_modify f : (∀ a, at_tick (f a) = at_tick a) → total (modify f).
Proof. intros Hf a. split; [done|]. cbn. by rewrite Hf. Qed.
Lemma total_lift {A} (o : thrown A) : settled o → total (lift o).
Proof. intros Ho. destruct o; [apply total_ret|apply total_throw|apply total_fault|by destruct Ho]. Qed.

(** From an attempt on *)
Lemma later_bind {A B} (m : txn A) (f : A → txn B) a :
  wp m env (ends_later a) a → (∀ x a', (at_tick a ≤ at_tick a')%nat → wp (f x) env (ends_later a') a') →
  wp (m ≫= f) env (ends_later a) a.
Proof.
  intros Hm Hf. apply wp_bind. eapply wp_mono; [exact Hm|]. intros [x|e| |] a' [Hr Ha]; cbn [bind_post]; [|done..].
  eapply wp_mono; [by apply Hf|]. intros r a'' [Hr' Ha']. split; [done|lia].
Qed.

Lemma total_bind {A B} (m : txn A) (f : A → txn B) : total m → (∀ x, total (f x)) → total (m ≫= f).
Proof. intros Hm Hf a. apply later_bind; [apply Hm|]. intros x a' _. apply Hf. Qed.

Lemma total_catch {A} (m : txn A) h : total m → (∀ e m', h e = Some m' → total m') → total (catch m h).
Proof.
  intros Hm Hh a. apply wp_catch. eapply wp_mono; [apply Hm|]. intros [x|e| |] a' [Hr Ha]; cbn [catch_post]; try done.
  destruct (h e) as [m'|] eqn:He; [|done]. eapply wp_mono; [by eapply Hh|]. intros r a'' [Hr' Ha']. split; [done|lia].
Qed.

Lemma later_try_sync {A} (m : txn A) h a :
  wp m env (ends_later a) a → (∀ e m', h e = Some m' → total m') → wp (try_sync m h) env (ends_later a) a.
Proof.
  intros Hm Hh. apply wp_try_sync. eapply wp_mono; [apply Hm|]. intros [x|e| |] a' [Hr Ha]; try done.
  destruct (_ =? _)%nat; [|done]. destruct (h e) as [m'|] eqn:He; [|done].
  eapply wp_mono; [by eapply Hh|]. intros r a'' [Hr' Ha']. split; [done|lia].
Qed.

Lemma total_try_sync {A} (m : txn A) h : total m → (∀ e m', h e = Some m' → total m') → total (try_sync m h).
Proof.
  intros Hm Hh a. by apply later_try_sync.
Qed.
End total.

Create HintDb total discriminated.
#[export] Hint Resolve total_ret total_throw total_fault total_gets total_asks total_question total_execute total_lift : total.
#[export] Hint Extern 1 (total _ (modify _)) => apply total_modify; intros ?; try (case_match; reflexivity); reflexivity : total.

Ltac total_walk :=
  repeat (match goal with
  | Hm : total _ ?m |- total _ ?m => exact Hm
  | |- total _ (mbind _ _) => apply total_bind; [|intros ?]
  | |- total _ (match ?x with _ => _ end) => destruct x
  | |- total _ (if ?x then _ else _) => destruct x
  end || solve [eauto with total settled nocore] || (progress cbn beta iota zeta)).

Section operations.
Context `{Json, !QueryMode} (env : environment).
Abbreviation total := (total env).

Lemma total_completed_error {A} e : total (op_completed_with_error (A:=A) e).
Proof.
  unfold op_completed_with_error, modify_ops. destruct e; total_walk; apply total_modify; intros a; by case_match.
Qed.
Lemma total_completed {A} (x : A) : total (op_completed_with_callback x).
Proof. unfold op_completed_with_callback, modify_ops. total_walk; apply total_modify; intros a; by case_match. Qed.
Lemma total_fail {A} f : total (fail_operation (A:=A) f).
Proof. apply total_completed_error. Qed.
Hint Resolve total_completed_error total_completed total_fail : total.

Lemma total_hook h : total (wait_for_hook h).
Proof. apply total_question. Qed.
Lemma total_expired s : total (has_expired_client_side s).
Proof. apply total_question. Qed.
Hint Resolve total_hook total_expired : total.
Lemma total_check_pre s : total (check_expiry_pre_commit s).
Proof. unfold check_expiry_pre_commit. total_walk. Qed.
Lemma total_if_expired s : total (error_if_expired_and_not_in_overtime s).
Proof. unfold error_if_expired_and_not_in_overtime. total_walk. Qed.
Lemma total_exp_delay timeout d : total (exp_delay_call timeout d).
Proof. unfold exp_delay_call. total_walk. Qed.
Lemma total_check_done : total check_if_done.
Proof. unfold check_if_done. total_walk. Qed.
Hint Resolve total_check_pre total_if_expired total_exp_delay total_check_done : total.

Lemma total_get_doc id allow_replica : total (get_doc id allow_replica).
Proof. unfold get_doc, execute_lookup. total_walk. Qed.
Lemma total_get_atr id : total (get_atr id).
Proof. unfold get_atr. total_walk. Qed.
Hint Resolve total_get_doc total_get_atr : total.
Lemma total_resolve doc missing : total (resolve_document doc missing).
Proof.
  unfold resolve_document, resolve_entry. cbn zeta. total_walk. apply total_catch; [total_walk|]. intros [] m' [= <-]; total_walk.
Qed.
Lemma total_after_get g : total (after_get g).
Proof. unfold after_get. total_walk. Qed.
Lemma total_complete_get {A} doc (x : A) : total (complete_get doc x).
Proof. unfold complete_get. total_walk. Qed.
Hint Resolve total_resolve total_after_get total_complete_get : total.
End operations.
#[export] Hint Resolve total_completed_error total_completed total_fail total_hook total_expired total_check_pre total_if_expired
  total_exp_delay total_check_done total_get_doc total_get_atr total_resolve total_after_get total_complete_get : total.

(** ** Loops *)

Section loops.
Context `{Json, !QueryMode} (env : environment) (N : nat) (Hexpires : ∀ n : nat, (N ≤ n)%nat → overall_expired env n = true).
Abbreviation total := (total env).

Lemma expires_or s a : overall_expired env (at_tick a) || hook_expired env (at_tick a) s = false → (at_tick a < N)%nat.
Proof. intros [He _]%orb_false_iff. destruct (decide (N ≤ at_tick a)%nat) as [Hn|]; [|lia]. by rewrite Hexpires in He. Qed.

Lemma later_do_get fuel id allow_replica missing a :
  (N - at_tick a < fuel)%nat → wp (do_get fuel id allow_replica missing) env (ends_later a) a.
Proof.
  revert missing a. induction fuel as [|fuel IH]; intros missing a Hf; [lia|]. cbn [do_get].
  unfold check_expiry_pre_commit, has_expired_client_side. apply wp_bind, wp_bind, wp_question. cbn [bind_post].
  destruct (_ || _) eqn:He; [apply wp_bind, wp_modify; cbn [bind_post]; apply wp_ret; apply wp_ret; split; [done|cbn; lia]|].
  apply expires_or in He. apply wp_ret. cbn [bind_post].
  enough (Hw : ∀ a1, at_tick a1 = S (at_tick a) → wp (staged ← gets at_staged;
      match own_write_content id staged with
      | Some doc => mret (get_document doc)
      | None =>
          if has (Queue.find_remove id staged) then mret (get_failed FAIL_DOC_NOT_FOUND)
          else
            ec ← wait_for_hook before_doc_get;
            match ec with
            | Some ec => mret (get_failed ec)
            | None =>
                g ← get_doc id allow_replica;
                match go_ec g, go_doc g with
                | None, None => mret get_nothing
                | Some ec, _ => mret (GetOutcome (Some ec) (go_cause g) None)
                | None, Some doc =>
                    r ← resolve_document doc missing;
                    match r with inl g => mret g | inr missing => do_get fuel id allow_replica missing end
                end
            end
      end) env (ends_later a1) a1).
  { eapply wp_mono; [by apply Hw|]. intros r a' [Hr Ha]. split; [done|]. cbn in Ha. lia. }
  intros a1 Ha1. apply later_bind; [apply total_gets|]. intros staged a2 H2.
  destruct (own_write_content _ _); [by apply total_ret|]. destruct (has _); [by apply total_ret|].
  apply later_bind; [apply total_hook|]. intros [ec|] a3 H3; [by apply total_ret|].
  apply later_bind; [apply total_get_doc|]. intros g a4 H4. destruct (go_ec g); [by apply total_ret|].
  destruct (go_doc g); [|by apply total_ret]. apply later_bind; [apply total_resolve|].
  intros [g'|missing'] a5 H5; [by apply total_ret|]. apply IH. lia.
Qed.

Lemma total_do_get fuel id allow_replica missing : (N < fuel)%nat → total (do_get fuel id allow_replica missing).
Proof. intros Hf a. apply later_do_get. lia. Qed.

(** The retries that [exp_delay] leaves *)
Definition retries_left (d : exp_delay) : nat :=
  Z.to_nat (exp_delay_max_retries - ed_retries d) + match ed_end_time d with None => 1 | Some _ => 0 end.

Definition delay_ok (d : exp_delay) : Prop := 0 ≤ ed_retries d.

Lemma exp_delay_later timeout d a :
  delay_ok d →
  wp (exp_delay_call timeout d) env (λ r a', ends_later a r a' ∧
    ∀ d', r = Ok d' → delay_ok d' ∧ (retries_left d' < retries_left d)%nat) a.
Proof.
  intros Hd. unfold delay_ok in *. unfold exp_delay_call. apply wp_bind, wp_question. cbn [bind_post].
  destruct (decide _) as [Hm|Hm]; [split; [split; [done|cbn; lia]|done]|]. unfold exp_delay_max_retries in *.
  destruct (ed_end_time d) as [e|] eqn:He.
  - destruct (decide _); [split; [split; [done|cbn; lia]|done]|]. apply wp_ret. split; [split; [done|cbn; lia]|].
    intros d' [= <-]. unfold retries_left, exp_delay_max_retries. cbn. rewrite He, wrap_small by (unfold in_width; lia). lia.
  - apply wp_bind, wp_question. cbn [bind_post]. apply wp_ret. split; [split; [done|cbn; lia]|].
    intros d' [= <-]. unfold retries_left, exp_delay_max_retries. cbn. rewrite He. lia.
Qed.

Lemma check_atr_entry_later fuel doc delay a :
  delay_ok delay → (retries_left delay < fuel)%nat → wp (check_atr_entry_for_blocking_document fuel doc delay) env (ends_later a) a.
Proof.
  revert delay a. induction fuel as [|fuel IH]; intros delay a Hd Hf; [lia|]. cbn [check_atr_entry_for_blocking_document].
  apply wp_bind, wp_catch, wp_bind. eapply wp_mono; [by apply exp_delay_later|]. intros r a1 [[Hr Ha] Hnext].
  destruct r as [d|e| |]; cbn [bind_post]; [|destruct e; cbn [catch_post]; by try (apply wp_ret; apply wp_ret)|by cbn|by cbn].
  destruct (Hnext d eq_refl) as [Hd' Hl]. apply wp_ret. cbn [catch_post bind_post].
  match goal with |- wp ?m _ _ _ => enough (Hw : wp m env (ends_later a1) a1) end.
  { eapply wp_mono; [exact Hw|]. intros r a2 [H1 H2]. split; [done|lia]. }
  apply later_bind; [apply total_hook|]. intros [ec|] a2 _; [by apply total_ret|].
  apply later_bind; [apply total_lift; auto with settled|]. intros rid a3 _.
  apply later_bind; [apply total_get_atr|]. intros result a4 _.
  apply later_try_sync; [|intros [] m' [= <-]; apply total_ret].
  destruct result as [ec|[record|]]; [by apply total_ret| |by apply total_ret].
  destruct (_ ≫= _); [|by apply total_ret]. apply later_bind; [apply total_lift; auto with settled|].
  intros [x|] a5 _; [by apply total_ret|]. apply IH; [done|lia].
Qed.

Lemma total_check_blocking fuel doc stage :
  (101 < fuel)%nat → total (check_and_handle_blocking_transactions fuel doc stage).
Proof.
  intros Hf. unfold check_and_handle_blocking_transactions. total_walk.
  intros a. apply check_atr_entry_later; [done|]. exact Hf.
Qed.

Lemma total_atr_id_value : total atr_id_value.
Proof. unfold atr_id_value. total_walk. Qed.

Lemma later_retry {S A} (body : S → txn (A + S)) fuel s a :
  (∀ s a, wp (body s) env (λ r a', ends_later a r a' ∧ ∀ s', r = Ok (inr s') → (at_tick a < N ∧ at_tick a < at_tick a')%nat) a) →
  (N - at_tick a < fuel)%nat → wp (retry_op fuel body s) env (ends_later a) a.
Proof.
  intros Hb. revert s a. induction fuel as [|fuel IH]; intros s a Hf; [lia|]. cbn [retry_op].
  apply wp_bind. eapply wp_mono; [apply Hb|]. intros [[x|s']|e| |] a' [Hl Hs]; cbn [bind_post]; [apply wp_ret; by destruct Hl| |by destruct Hl..].
  destruct (Hs s' eq_refl). eapply wp_mono; [apply IH; lia|]. intros r a'' [Hr Ha]. destruct Hl. split; [done|lia].
Qed.

Lemma atr_pending_error_later ec a :
  wp (atr_pending_error ec) env (λ r a', ends_later a r a' ∧ (at_overtime a = true → ∀ s, r ≠ Ok (inr s))) a.
Proof.
  unfold atr_pending_error. apply wp_bind, wp_gets. cbn [bind_post]. destruct (at_overtime a); [by apply wp_ret|].
  destruct ec; first [by apply wp_ret|apply wp_bind, wp_modify; cbn [bind_post]; by apply wp_ret].
Qed.

Lemma atr_pending_request_later a :
  wp set_atr_pending_request env (λ r a', ends_later a r a' ∧ (at_overtime a = true → ∀ s, r ≠ Ok (inr s))) a.
Proof.
  assert (Herr : ∀ ec a1, at_overtime a1 = at_overtime a → (at_tick a ≤ at_tick a1)%nat →
    wp (atr_pending_error ec) env (λ r a', ends_later a r a' ∧ (at_overtime a = true → ∀ s, r ≠ Ok (inr s))) a1).
  { intros ec a1 <- Ht. eapply wp_mono; [apply atr_pending_error_later|]. intros r a2 [[H1 H2] H3]. split; [split; [done|lia]|done]. }
  unfold set_atr_pending_request. apply wp_bind, wp_gets. cbn [bind_post]. apply wp_bind, wp_question. cbn [bind_post].
  destruct (hook_error _ _ _); [apply Herr; cbn; [done|lia]|].
  apply wp_bind, wp_question. cbn [bind_post]. do 3 (apply wp_bind, wp_asks; cbn [bind_post]).
  apply wp_bind, wp_atr_id_value; cbn [bind_post]; [intros rid _|intros _; split; [split; [done|cbn; lia]|done]].
  apply wp_bind, wp_execute. cbn [bind_post]. set (resp := reply _ _ _). pose proof (settled_error_class resp) as Hs.
  destruct (error_class_from_response resp) as [[ec|]|e| |]; [apply Herr; cbn; [done|lia]| | | |by destruct Hs].
  - apply wp_bind, wp_question. cbn [bind_post]. destruct (hook_error _ _ _); [apply Herr; cbn; [done|lia]|].
    apply wp_bind, wp_modify. cbn [bind_post]. apply wp_ret. split; [split; [done|cbn; lia]|done].
  - apply wp_throw. split; [split; [done|cbn; lia]|done].
  - apply wp_fault. split; [split; [done|cbn; lia]|done].
Qed.

Lemma total_select fuel rid : (N < fuel)%nat → total (select_atr_if_needed_unlocked fuel rid).
Proof.
  intros Hf. unfold select_atr_if_needed_unlocked. apply total_bind; [apply total_gets|intros current].
  destruct (has current); [apply total_ret|]. apply total_bind; [by apply total_modify|intros _].
  apply total_bind; [by apply total_modify|intros _]. intros a. unfold set_atr_pending_locked.
  apply later_retry; [|lia]. clear a. intros [] a. apply wp_bind, wp_gets. cbn [bind_post].
  destruct (negb _); [by apply wp_ret|]. apply wp_bind, wp_gets. cbn [bind_post]. destruct (negb _); [by apply wp_ret|].
  assert (Hreq : ∀ a1, (at_tick a ≤ at_tick a1)%nat → at_overtime a1 = true ∨ (at_tick a < N ∧ at_tick a < at_tick a1)%nat →
    wp (r ← set_atr_pending_request; mret (match r with inl x => inl (Some x) | inr tt => inr tt end)) env
      (λ r a', ends_later a r a' ∧ ∀ s', r = Ok (inr s') → (at_tick a < N ∧ at_tick a < at_tick a')%nat) a1).
  { intros a1 Ht Hn. apply wp_bind. eapply wp_mono; [apply atr_pending_request_later|]. intros r a2 [[H1 H2] H3].
    destruct r as [[x|[]]|e| |]; cbn [bind_post]; try apply wp_ret; (split; [split; [done|lia]|]); try done.
    intros _ _. destruct Hn as [Ho|Hn]; [by destruct (H3 Ho tt)|lia]. }
  apply wp_bind, wp_error_if_expired; intros Ho; cbn [bind_post]; [apply Hreq; [done|by left]|].
  destruct (_ || _) eqn:He; [apply wp_ret; split; [split; [done|cbn; lia]|done]|].
  apply expires_or in He. apply Hreq; [cbn; lia|right; cbn; lia].
Qed.

Lemma total_with_atr {A} fuel id (cb : option operation_failure → txn (option A)) :
  (N < fuel)%nat → bytes_ok (id_key id) → (∀ err, total (cb err)) → total (with_atr fuel id cb).
Proof.
  intros Hf Hk Hcb. unfold with_atr. apply total_try_sync; [|intros [] m' [= <-]; apply total_ret].
  apply total_bind; [apply total_gets|intros current]. apply total_bind; [apply total_asks|intros metadata].
  apply total_bind; [|intros [err|]; [apply Hcb|apply total_ret]]. destruct current; [apply total_ret|].
  destruct (atr_id_for_key_total _ Hk) as [key ->]. apply total_bind; [apply total_ret|intros ?]. by apply total_select.
Qed.

Lemma total_metadata t op_id metadata flags : total (attempt_metadata t op_id metadata flags).
Proof. unfold attempt_metadata. total_walk. Qed.
Lemma total_response_class resp : total (response_class resp).
Proof. unfold response_class. total_walk. Qed.
Lemma total_supports : total supports_replace_body_with_xattr.
Proof. unfold supports_replace_body_with_xattr. total_walk. Qed.
Lemma total_atr_key : total atr_key_unchecked.
Proof. unfold atr_key_unchecked. total_walk. Qed.
Lemma total_stage m : total (stage m).
Proof. by apply total_modify. Qed.
Hint Resolve total_metadata total_response_class total_supports total_atr_key total_stage : total.

Lemma total_replace_error {A} ec c : total (create_staged_replace_error (A:=A) ec c).
Proof. unfold create_staged_replace_error. total_walk. Qed.
Lemma total_existing_error {A} ec : total (existing_document_error (A:=A) ec).
Proof. unfold existing_document_error. total_walk. Qed.
Lemma total_remove_insert_error {A} ec : total (remove_staged_insert_error (A:=A) ec).
Proof. unfold remove_staged_insert_error. total_walk. Qed.
Lemma total_remove_error {A} ec : total (remove_error (A:=A) ec).
Proof. unfold remove_error. total_walk. Qed.
Hint Resolve total_replace_error total_existing_error total_remove_insert_error total_remove_error : total.

Lemma total_create_staged_replace id content flags cas op_id metadata :
  total (create_staged_replace id content flags cas op_id metadata).
Proof. unfold create_staged_replace. total_walk. Qed.
Lemma total_remove_staged_insert id : total (remove_staged_insert id).
Proof. unfold remove_staged_insert. total_walk. Qed.
Lemma total_create_staged_remove document op_id : total (create_staged_remove document op_id).
Proof. unfold create_staged_remove. total_walk. Qed.

(** A retry of the insertion comes after [exp_delay]. *)
Lemma exp_delay_then {A} timeout d (f : exp_delay → txn A) :
  delay_ok d → (∀ d', delay_ok d' → (retries_left d' < retries_left d)%nat → total (f d')) →
  total (d ← exp_delay_call timeout d; f d).
Proof.
  intros Hd Hf a. apply wp_bind. eapply wp_mono; [by apply exp_delay_later|]. intros [d'|e| |] a1 [[Hr Ha] Hn]; cbn [bind_post]; try done.
  destruct (Hn d' eq_refl) as [Hd' Hl]. eapply wp_mono; [by apply Hf|]. intros r a2 [H1 H2]. split; [done|lia].
Qed.

Section insertion.
Context (fuel : nat) (Hfuel : (101 < fuel)%nat) (i : insertion) (delay : exp_delay) (Hdelay : delay_ok delay)
  (again : Z → exp_delay → txn (option transaction_get_result))
  (Hagain : ∀ cas d, delay_ok d → (retries_left d < retries_left delay)%nat → total (again cas d)).

Lemma total_insert_over doc : total (insert_over_document fuel i delay again doc).
Proof.
  assert (Hretry : total (timeout ← asks config_timeout; d ← exp_delay_call timeout delay; again (tg_cas doc) d)).
  { apply total_bind; [apply total_asks|intros timeout]. apply exp_delay_then; [done|]. intros d. apply Hagain. }
  pose proof (total_check_blocking fuel doc WRITE_WRITE_CONFLICT_INSERTING Hfuel) as Hblock.
  unfold insert_over_document. cbn zeta. total_walk.
  apply total_try_sync; [done|]. intros [] m' [= <-]; total_walk.
Qed.
Hint Resolve total_insert_over : total.

Lemma total_insert_error_handler cas ec c : total (create_staged_insert_error_handler fuel i cas delay again ec c).
Proof.
  assert (Hretry : total (timeout ← asks config_timeout; d ← exp_delay_call timeout delay; again cas d)).
  { apply total_bind; [apply total_asks|intros timeout]. apply exp_delay_then; [done|]. intros d. apply Hagain. }
  unfold create_staged_insert_error_handler. cbn zeta. total_walk.
Qed.
End insertion.

Lemma total_create_staged_insert fuel i cas delay :
  delay_ok delay → (retries_left delay + 102 < fuel)%nat → total (create_staged_insert fuel i cas delay).
Proof.
  revert cas delay. induction fuel as [|fuel IH]; intros cas delay Hd Hf; [lia|]. cbn [create_staged_insert].
  assert (Herr : ∀ ec c, total (create_staged_insert_error_handler fuel i cas delay (create_staged_insert fuel i) ec c)).
  { intros ec c. apply total_insert_error_handler; [lia|done|]. intros cas' d Hd' Hl. apply IH; [done|lia]. }
  clear IH. total_walk.
Qed.

Lemma total_open_bucket {A} bucket (h : option error_code → txn A) : (∀ ec, total (h ec)) → total (ensure_open_bucket bucket h).
Proof.
  intros Hh. unfold ensure_open_bucket. destruct (decide _); [apply Hh|]. apply total_bind; [apply total_question|intros [[] ec]]; [apply Hh|].
  apply total_catch; [apply Hh|]. intros e m' [= <-]. apply total_fault.
Qed.

Lemma total_existing b : total (existing_error b).
Proof.
  intros a. apply wp_existing_error; intros; by split.
Qed.

Lemma total_cached {A} (func : txn (option A)) : total func → total (cache_error_async func).
Proof.
  intros Hf. unfold cache_error_async. apply total_bind; [apply total_gets|intros l]. destruct (increment_ops l); [|total_walk].
  apply total_bind; [by apply total_modify|intros _]. apply total_bind; [apply total_gets|intros before].
  apply total_catch; [|intros e m' [= <-]; total_walk]. apply total_try_sync; [apply total_bind; [apply total_existing|done]|].
  intros e m' He. unfold cache_error_handler in He. destruct e; try discriminate He; injection He as <-; total_walk.
Qed.

Section end_to_end.
Context (fuel : nat) (Hfuel : (N + 204 < fuel)%nat).

Lemma total_insertion i cas : total (create_staged_insert fuel i cas (ExpDelay 0 None)).
Proof. apply total_create_staged_insert; [done|]. change (retries_left (ExpDelay 0 None)) with 101%nat. lia. Qed.
Hint Resolve total_insertion total_create_staged_replace total_remove_staged_insert total_create_staged_remove : total.


Lemma with_atr_walk {A} id (cb : option operation_failure → txn (option A)) :
  bytes_ok (id_key id) → (∀ err, total (cb err)) → total (with_atr fuel id cb).
Proof. intros Hk Hcb. apply total_with_atr; [lia|done..]. Qed.

Lemma total_reads id allow_replica missing : total (do_get fuel id allow_replica missing).
Proof. apply total_do_get. lia. Qed.
Lemma total_blocking doc stage : total (check_and_handle_blocking_transactions fuel doc stage).
Proof. apply total_check_blocking. lia. Qed.
Hint Resolve total_reads total_blocking : total.
Hint Extern 2 (total (with_atr _ _ _)) => apply with_atr_walk; [assumption|intros ?; total_walk] : total.

Lemma perform_later o a :
  operation_ok o → at_is_query a = false → wp (perform fuel o) env (ends_later a) a.
Proof.
  intros Hok Hq.
  assert (Hmap : ∀ A (f : A → option transaction_get_result) (m : txn (option A)),
    wp m env (ends_later a) a → wp (r ← m; mret (f <$> r)) env (ends_later a) a).
  { intros A f m Hm. apply later_bind; [done|]. intros r a' _. apply total_ret. }
  destruct o; cbn [perform operation_ok] in *; [apply Hmap| |apply Hmap..];
    [unfold get|unfold get_optional|unfold insert|unfold replace|unfold remove]; apply wp_bind, wp_gets; cbn [bind_post]; rewrite Hq;
    apply total_cached.
  - total_walk.
  - apply total_open_bucket. intros ec. total_walk.
  - apply total_open_bucket. intros ec. destruct (has ec); [apply total_fail|].
    apply total_try_sync; [|intros [] m' [= <-]; apply total_fail]. total_walk.
  - apply total_open_bucket. intros ec. total_walk.
  - apply total_bind; [apply total_check_done|intros _]. apply total_open_bucket. intros ec. total_walk.
Qed.
End end_to_end.
End loops.

(** ** The claim *)

(** C22: Every operation of an attempt ends: with a transaction that expires at
    some time, fuel for that time and for the retries of the two delays is
    enough for every loop, whatever the servers answer and however often a
    record or a document changes. *)
Theorem operations_terminate `{Json, !QueryMode} fuel N o env a :
  (∀ n : nat, (N ≤ n)%nat → overall_expired env n = true) → (N + 204 < fuel)%nat →
  operation_ok o → at_is_query a = false → (perform fuel o env a).1 ≠ Diverge.
Proof. intros Hn Hf Hok Hq. exact (proj1 (perform_later env N Hn fuel Hf o a Hok Hq)). Qed.


(** ** An example *)

#[local] Existing Instance no_query_mode.
#[local] Existing Instance example_reading.


(** Every answer is ambiguous, and the transaction expires. *)
Definition example_ambiguous : environment :=
  plain_environment (λ n, 20 <=? n)%nat (λ _ _, response_error (errc_common Common.ambiguous_timeout)).

Lemma operations_terminate_witness :
  (perform 300 (op_insert (example_key 107) example_content) example_ambiguous example_new).1 ≠ Diverge.
Proof.
  apply (operations_terminate 300 20).
  - intros n Hn. apply Nat.leb_le. exact Hn.
  - lia.
  - apply example_key_ok. lia.
  - reflexivity.
Defined.
