(* ===== verification/TransactionCleanup.v ===== *)
(** * Cleaning of attempts: [core/transactions/atr_cleanup_entry.cxx],
    [transactions_cleanup.cxx]

    Threads finish the attempts that their clients left: they look at the
    entries of records, commit or roll back the documents that an entry names
    and remove the entry.  Several clients share the records by a document
    that lists them.

    The actions are those of [Attempt.v], of which a thread uses the log and
    the count of questions.  The attempt they run on stands for the
    [transactions_cleanup_attempt] that a test may ask for: its [at_state] is
    the state that is reported. *)

From stdpp Require Import sorting.
From S2P Require Import Prelude ByteOrder Protocol McbpParser ClientRequest ClientResponse Commands Topology AtrIds Transactions TransactionLinks Attempt TransactionOps.

Module CleanupHook.

Inductive cleanup_hook :=
  | before_commit_doc | before_remove_doc | before_remove_doc_staged_for_removal | before_remove_links
  | before_atr_remove | on_cleanup_docs_completed | on_cleanup_completed
  | client_record_before_create | client_record_before_get | client_record_before_update
  | client_record_before_remove_client.
End CleanupHook.
Import CleanupHook.

(** [transaction_keyspace] *)
Record transaction_keyspace := TransactionKeyspace { ks_bucket : bytes; ks_scope : bytes; ks_collection : bytes }.

#[export] Instance transaction_keyspace_eq_dec : EqDecision transaction_keyspace.
Proof. solve_decision. Defined.

(** What a thread asks of its surroundings besides an [environment]: the hooks
    of the tests, whether the threads are to stop, and the configuration *)
Class Cleanup := {
  cleanup_hook_error : nat → cleanup_hook → option error_class;
  is_running : nat → bool;
  cleanup_window : Z;                            (** in milliseconds *)
  cleanup_client_attempts : bool;
  cleanup_lost_attempts : bool;
}.

Section cleanup.
Context `{Json, Cleanup}.

Definition throw_on_hook (h : cleanup_hook) : txn unit :=
  ec ← question (λ _ n, cleanup_hook_error n h); throw_if ec.

Definition still_running : txn bool := question (λ _ n, is_running n).

Definition store_string_to_durability_level (input : bytes) : Z :=
  if decide (input = ascii "m") then 1
  else if decide (input = ascii "pa") then 2
  else if decide (input = ascii "pm") then 3
  else if decide (input = ascii "n") then 0
  else 1.

(** ** One entry *)

Record atr_cleanup_entry := AtrCleanupEntry {
  cl_atr_id : document_id;
  cl_attempt_id : bytes;
  cl_min_start_time : Z;                         (** the steady clock, in nanoseconds *)
  cl_check_if_expired : bool;
  cl_entry : option atr_entry;                   (** [None] is to look it up *)
}.

Definition safety_margin_ms : Z := 1500.

(** *** Documents *)

(** The body of the document is not that on which the mutation was staged. *)
Definition crc_differs (doc : transaction_get_result) : bool :=
  match tg_metadata doc with
  | Some m =>
      negb (has (dm_crc32 m)) || negb (has (tl_crc32_of_staging (tg_links doc))) ||
      negb (bool_decide (tl_crc32_of_staging (tg_links doc) = dm_crc32 m))
  | None => false
  end.

(** Nothing of the attempt is left in the document. *)
Definition skips_document (attempt_id : bytes) (require_crc_to_match : bool) (doc : transaction_get_result) : bool :=
  negb (is_document_in_transaction (tg_links doc)) || negb (has_staged_write (tg_links doc)) ||
  negb (bool_decide (tl_staged_attempt_id (tg_links doc) = Some attempt_id)) ||
  (require_crc_to_match && crc_differs doc).

(** One document of [do_per_doc] *)
Definition per_doc (attempt_id : bytes) (require_crc_to_match : bool)
    (call : transaction_get_result → bool → txn unit) (dr : document_id) : txn unit :=
  catch_client_error
    (res ← execute (lookup_in dr get_doc_specs true);
     if has (resp_ec res) || bool_decide (resp_fields res = []) then mret tt
     else
       doc ← lift (create_from_subdoc dr res);
       if skips_document attempt_id require_crc_to_match doc then mret tt else call doc (resp_deleted res))
    (λ e, match ce_ec e with FAIL_DOC_NOT_FOUND => mret tt | _ => throw (client_error_thrown e) end).

Fixpoint do_per_doc (attempt_id : bytes) (require_crc_to_match : bool)
    (call : transaction_get_result → bool → txn unit) (docs : list document_id) : txn unit :=
  match docs with
  | [] => mret tt
  | dr :: docs =>
      _ ← per_doc attempt_id require_crc_to_match call dr;
      do_per_doc attempt_id require_crc_to_match call docs
  end.

(** A request whose answer is awaited; errors of single specs are ignored. *)
Definition perform_request (req : request) (subdoc : bool) : txn result :=
  resp ← execute req;
  wrap_operation_future (if subdoc then create_from_subdoc_response resp else create_from_mutation_response resp) true.

Definition commit_staged_request (doc : transaction_get_result) (level : Z) : request * bool :=
  let content := staged_content_json_or_binary (tg_links doc) in
  if tl_is_deleted (tg_links doc) then (Transactions.insert (tg_id doc) (ev_data content) (ev_flags content) level, false)
  else
    (mutate_in (wrap_durable_request level (with_flags (ev_flags content) (with_store_semantics store_replace
       (with_cas (tg_cas doc) (with_specs
          [subdoc_remove TRANSACTION_INTERFACE_PREFIX_ONLY true; subdoc_replace [] (ev_data content) false false false]
          (new_mutate_in (tg_id doc))))))), true).

(** The request that removes the metadata from a document *)
Definition remove_links_request (doc : transaction_get_result) (level : Z) : request :=
  mutate_in (wrap_durable_request level (with_access_deleted (with_flags (ev_flags (tg_content doc)) (with_cas (tg_cas doc)
    (with_specs [subdoc_remove TRANSACTION_INTERFACE_PREFIX_ONLY true] (new_mutate_in (tg_id doc))))))).

(** The functions that [commit_docs], [remove_docs],
    [remove_docs_staged_for_removal] and [remove_txn_links] pass to
    [do_per_doc] *)
Definition commit_staged (level : Z) (doc : transaction_get_result) (is_deleted : bool) : txn unit :=
  if has_staged_content (tg_links doc) then
    _ ← throw_on_hook before_commit_doc;
    let '(req, subdoc) := commit_staged_request doc level in
    _ ← perform_request req subdoc; mret tt
  else mret tt.

Definition remove_inserted (level : Z) (doc : transaction_get_result) (is_deleted : bool) : txn unit :=
  _ ← throw_on_hook before_remove_doc;
  _ ← (if is_deleted then perform_request (remove_links_request doc level) true
       else perform_request (Transactions.remove (tg_id doc) (tg_cas doc) level) false);
  mret tt.

Definition remove_staged_for_removal (level : Z) (doc : transaction_get_result) (is_deleted : bool) : txn unit :=
  if is_document_being_removed (tg_links doc) then
    _ ← throw_on_hook before_remove_doc_staged_for_removal;
    _ ← perform_request (Transactions.remove (tg_id doc) (tg_cas doc) level) false; mret tt
  else mret tt.

Definition remove_links (level : Z) (doc : transaction_get_result) (is_deleted : bool) : txn unit :=
  _ ← throw_on_hook before_remove_links;
  _ ← perform_request (remove_links_request doc level) true; mret tt.

Definition with_docs (docs : option (list document_id)) (f : list document_id → txn unit) : txn unit :=
  match docs with Some docs => f docs | None => mret tt end.

Definition commit_docs (attempt_id : bytes) (docs : option (list document_id)) (dl : Z) : txn unit :=
  with_docs docs (do_per_doc attempt_id true (commit_staged dl)).
Definition remove_docs (attempt_id : bytes) (docs : option (list document_id)) (dl : Z) : txn unit :=
  with_docs docs (do_per_doc attempt_id true (remove_inserted dl)).
Definition remove_docs_staged_for_removal (attempt_id : bytes) (docs : option (list document_id)) (dl : Z) : txn unit :=
  with_docs docs (do_per_doc attempt_id true (remove_staged_for_removal dl)).
Definition remove_txn_links (attempt_id : bytes) (docs : option (list document_id)) (dl : Z) : txn unit :=
  with_docs docs (do_per_doc attempt_id false (remove_links dl)).

Definition cleanup_docs (attempt_id : bytes) (e : atr_entry) (dl : Z) : txn unit :=
  match ae_state e with
  | AttemptState.COMMITTED =>
      _ ← commit_docs attempt_id (ae_inserted_ids e) dl;
      _ ← commit_docs attempt_id (ae_replaced_ids e) dl;
      remove_docs_staged_for_removal attempt_id (ae_removed_ids e) dl
  | AttemptState.ABORTED =>
      _ ← remove_docs attempt_id (ae_inserted_ids e) dl;
      _ ← remove_txn_links attempt_id (ae_replaced_ids e) dl;
      remove_txn_links attempt_id (ae_removed_ids e) dl
  | _ => mret tt
  end.

(** *** The entry *)

(** The path of an entry in its record *)
Definition attempt_path (attempt_id : bytes) : bytes := ATR_FIELD_ATTEMPTS ++ [ascii_dot] ++ attempt_id.
Definition collision_path (attempt_id : bytes) : bytes :=
  attempt_path attempt_id ++ [ascii_dot] ++ ATR_FIELD_PREVENT_COLLLISION.

Definition remove_entry_request (atr_id : document_id) (e : atr_entry) (dl : Z) : mutate_in_request :=
  wrap_durable_request dl (with_specs
    ((if decide (ae_state e = AttemptState.PENDING)
      then [subdoc_insert (collision_path (ae_attempt_id e)) (jsonify (JObject [])) true false false false] else []) ++
     [subdoc_remove (attempt_path (ae_attempt_id e)) true]) (new_mutate_in atr_id)).

Definition cleanup_entry (atr_id : document_id) (e : atr_entry) (dl : Z) : txn unit :=
  catch_client_error
    (_ ← throw_on_hook before_atr_remove;
     _ ← perform_request (mutate_in (remove_entry_request atr_id e dl)) true; mret tt)
    (λ err, match ce_ec err with FAIL_PATH_NOT_FOUND => mret tt | _ => throw (client_error_thrown err) end).

Definition check_atr_and_cleanup (c : atr_cleanup_entry) (reports : bool) (e : atr_entry) : txn unit :=
  level ← asks config_level;
  let durability_level :=
    match ae_durability_level e with Some raw => store_string_to_durability_level raw | None => level end in
  expired ← if cl_check_if_expired c then lift (has_expired e safety_margin_ms) else mret true;
  if negb (expired : bool) then mret tt
  else
    _ ← if reports then modify (set_state (ae_state e)) else mret tt;
    err ← lift (check_forward_compat CLEANUP_ENTRY (ae_forward_compat e));
    match err with
    | Some f => throw_failed f
    | None =>
        _ ← cleanup_docs (cl_attempt_id c) e durability_level;
        _ ← throw_on_hook on_cleanup_docs_completed;
        _ ← cleanup_entry (cl_atr_id c) e durability_level;
        throw_on_hook on_cleanup_completed
    end.

(** [active_transaction_record::get_atr] that waits for the record *)
Definition get_atr_or_throw (atr_id : document_id) : txn (option active_transaction_record) :=
  r ← get_atr atr_id;
  match r with inl _ => throw runtime_error | inr atr => mret atr end.

(** [atr_cleanup_entry::clean] *)
Definition clean (c : atr_cleanup_entry) (reports : bool) : txn unit :=
  match cl_entry c with
  | Some e => check_atr_and_cleanup c reports e
  | None =>
      atr ← get_atr_or_throw (cl_atr_id c);
      match atr ≫= find_entry (cl_attempt_id c) with
      | Some e => check_atr_and_cleanup c reports e
      | None => mret tt
      end
  end.

(** ** One record *)

Record transactions_cleanup_attempt := CleanupAttempt {
  ca_atr_id : document_id;
  ca_attempt_id : bytes;
  ca_success : bool;
  ca_state : attempt_state;
}.

Record atr_cleanup_stats := CleanupStats { st_exists : bool; st_num_entries : Z }.

(** An entry of the record; [testing] is a call with a vector for results. *)
Definition handle_entry (atr_id : document_id) (testing : bool) (e : atr_entry) : txn transactions_cleanup_attempt :=
  _ ← modify (set_state AttemptState.NOT_STARTED);
  success ← catch
    (_ ← clean (AtrCleanupEntry atr_id (ae_attempt_id e) 0 (negb testing) (Some e)) testing; mret true)
    (catches_std (mret false));
  state ← gets at_state;
  mret (CleanupAttempt atr_id (ae_attempt_id e) success state).

Fixpoint handle_entries (atr_id : document_id) (testing : bool) (entries : list atr_entry) :
    txn (list transactions_cleanup_attempt) :=
  match entries with
  | [] => mret []
  | e :: entries =>
      r ← handle_entry atr_id testing e; rs ← handle_entries atr_id testing entries; mret (r :: rs)
  end.

(** The statistics, and the results where there is a vector for them *)
Definition handle_atr_cleanup (atr_id : document_id) (testing : bool) :
    txn (atr_cleanup_stats * list transactions_cleanup_attempt) :=
  atr ← get_atr_or_throw atr_id;
  match atr with
  | Some record =>
      results ← handle_entries atr_id testing (ar_entries record);
      mret (CleanupStats true (zsize (ar_entries record)), if testing then results else [])
  | None => mret (CleanupStats false 0, [])
  end.

(** ** The queue of attempts of this client: [atr_cleanup_queue]

    [std::priority_queue] pops an entry with the least time; which one of
    several is not specified. *)

Definition ready (now : Z) (c : atr_cleanup_entry) : bool := cl_min_start_time c <? now.

Fixpoint pop_top (queue : list atr_cleanup_entry) : option (atr_cleanup_entry * list atr_cleanup_entry) :=
  match queue with
  | [] => None
  | c :: queue =>
      match pop_top queue with
      | None => Some (c, [])
      | Some (top, rest) =>
          if cl_min_start_time top <? cl_min_start_time c then Some (top, c :: rest) else Some (c, queue)
      end
  end.

Definition pop_ready (queue : list atr_cleanup_entry) : txn (option (atr_cleanup_entry * list atr_cleanup_entry)) :=
  match pop_top queue with
  | None => mret None
  | Some (top, rest) =>
      t ← question now;
      mret (if ready t top then Some (top, rest) else None)
  end.

(** [push(ctx)]: the entry of an attempt *)
Definition push_attempt (a : attempt) (queue : list atr_cleanup_entry) : txn (list atr_cleanup_entry) :=
  t ← question now;
  mret (AtrCleanupEntry (default (document_id_in [] [] [] []) (at_atr_id a)) (at_id a) t false None :: queue).

(** [add_attempt] *)
Definition add_attempt (a : attempt) (queue : list atr_cleanup_entry) : txn (list atr_cleanup_entry) :=
  match at_state a with
  | AttemptState.NOT_STARTED | AttemptState.COMPLETED | AttemptState.ROLLED_BACK => mret queue
  | _ => if cleanup_client_attempts then push_attempt a queue else mret queue
  end.

(** The inner loop of [attempts_loop]: it ends with what is left, or stops
    the outer loop ([inr]).  What is thrown is logged; an entry is left to
    the threads that clean lost attempts. *)
Fixpoint clean_ready (fuel : nat) (queue : list atr_cleanup_entry) :
    txn (list atr_cleanup_entry + list atr_cleanup_entry) :=
  match fuel with
  | O => diverge
  | S fuel =>
      r ← pop_ready queue;
      match r with
      | None => mret (inl queue)
      | Some (top, rest) =>
          running ← still_running;
          if negb (running : bool) then mret (inr rest)
          else
            _ ← catch (clean top false) (λ _, Some (mret tt));
            clean_ready fuel rest
      end
  end.

(** [attempts_loop]: [arrivals n] are added before round [n]; there are at
    most [rounds]. *)
Fixpoint attempts_loop (rounds n : nat) (arrivals : nat → list atr_cleanup_entry) (queue : list atr_cleanup_entry) :
    txn (list atr_cleanup_entry) :=
  match rounds with
  | O => mret queue
  | S rounds =>
      running ← still_running;
      if negb (running : bool) then mret queue
      else
        let queue := arrivals n ++ queue in
        r ← clean_ready (S (length queue)) queue;
        match r with inl queue => attempts_loop rounds (S n) arrivals queue | inr queue => mret queue end
  end.

(** ** The record of the clients *)

Definition CLIENT_RECORD_DOC_ID : bytes := ascii "_txn:client-record".
Definition client_record_id (k : transaction_keyspace) : document_id :=
  document_id_in (ks_bucket k) (ks_scope k) (ks_collection k) CLIENT_RECORD_DOC_ID.

(** [parse_mutation_cas] of this file; [std::stoull] reads the prefix 0x. *)
Definition parse_heartbeat (cas : bytes) : thrown Z :=
  if decide (cas = []) then Ok 0 else val ← stoull 16 cas; Ok (byte_swap64 val / 1000000).

(** [static_cast<std::int64_t>] *)
Definition to_int64 (z : Z) : Z := if z <? 2 ^ 63 then z else z - 2 ^ 64.

Definition client_expired (now_ms heartbeat_ms expires_ms : Z) : bool :=
  (to_int64 expires_ms <=? to_int64 now_ms - to_int64 heartbeat_ms) && (heartbeat_ms <? now_ms).

(** What [get_active_clients] collects from the record *)
Record client_scan := ClientScan {
  sc_override_enabled : bool;
  sc_override_expires : Z;
  sc_active : list bytes;
  sc_expired : list bytes;
}.
Definition empty_scan : client_scan := ClientScan false 0 [] [].

Fixpoint scan_override (members : json_object) (s : client_scan) : thrown client_scan :=
  match members with
  | [] => Ok s
  | (key, param) :: members =>
      s ← if decide (key = ascii "enabled") then
            b ← match param with JBool b => Ok b | _ => Err tt end;
            Ok (ClientScan b (sc_override_expires s) (sc_active s) (sc_expired s))
          else if decide (key = ascii "expires") then
            e ← get_uint64 param;
            Ok (ClientScan (sc_override_enabled s) e (sc_active s) (sc_expired s))
          else Ok s;
      scan_override members s
  end.

Definition scan_client (now_ms : Z) (uuid other : bytes) (cl : json) (s : client_scan) : thrown client_scan :=
  heartbeat ← at_member (ascii "heartbeat_ms") cl; heartbeat ← get_string heartbeat;
  heartbeat_ms ← parse_heartbeat heartbeat;
  expires ← at_member (ascii "expires_ms") cl; expires_ms ← get_uint64 expires;
  Ok (if client_expired now_ms heartbeat_ms expires_ms && negb (bool_decide (other = uuid))
      then ClientScan (sc_override_enabled s) (sc_override_expires s) (sc_active s) (sc_expired s ++ [other])
      else ClientScan (sc_override_enabled s) (sc_override_expires s) (sc_active s ++ [other]) (sc_expired s)).

Fixpoint scan_clients (now_ms : Z) (uuid : bytes) (members : json_object) (s : client_scan) : thrown client_scan :=
  match members with
  | [] => Ok s
  | (other, cl) :: members => s ← scan_client now_ms uuid other cl s; scan_clients now_ms uuid members s
  end.

Fixpoint scan_records (now_ms : Z) (uuid : bytes) (members : json_object) (s : client_scan) : thrown client_scan :=
  match members with
  | [] => Ok s
  | (key, value) :: members =>
      s ← if decide (key = ascii "override") then o ← get_object value; scan_override o s
          else if decide (key = ascii "clients") then o ← get_object value; scan_clients now_ms uuid o s
          else Ok s;
      scan_records now_ms uuid members s
  end.

(** [std::sort] of strings *)
Definition bytes_le (s t : bytes) : Prop := bytes_ltb t s = false.
#[export] Instance bytes_le_dec : RelDecision bytes_le := λ s t, decide (bytes_ltb t s = false).
Definition sort_uids (uids : list bytes) : list bytes := merge_sort bytes_le uids.

(** [std::distance(begin, std::find(...))] *)
Definition index_of (uuid : bytes) (uids : list bytes) : nat :=
  default (length uids) (fst <$> list_find (λ u, u = uuid) uids).

Record client_record_details := ClientDetails {
  cd_client_uuid : bytes;
  cd_num_active_clients : Z;
  cd_index_of_this_client : Z;
  cd_num_existing_clients : Z;
  cd_num_expired_clients : Z;
  cd_expired_client_ids : list bytes;
  cd_override_enabled : bool;
  cd_override_active : bool;
  cd_override_expires : Z;
  cd_cas_now_nanos : Z;
}.

(** The clients among which the records are divided: this one is added. *)
Definition active_clients (uuid : bytes) (s : client_scan) : list bytes :=
  sort_uids (if decide (uuid ∈ sc_active s) then sc_active s else sc_active s ++ [uuid]).

Definition client_details (uuid : bytes) (now_ms : Z) (s : client_scan) : client_record_details :=
  let active := active_clients uuid s in
  let num_active := u32 (zsize active) in
  let num_expired := u32 (zsize (sc_expired s)) in
  let cas_now_nanos := u64 (now_ms * 1000000) in
  ClientDetails uuid num_active (u32 (Z.of_nat (index_of uuid active))) (u32 (num_expired + num_active)) num_expired
    (sc_expired s) (sc_override_enabled s) (sc_override_enabled s && (cas_now_nanos <? sc_override_expires s))
    (sc_override_expires s) cas_now_nanos.

Definition set_cas_now (cas : Z) (d : client_record_details) : client_record_details :=
  ClientDetails (cd_client_uuid d) (cd_num_active_clients d) (cd_index_of_this_client d) (cd_num_existing_clients d)
    (cd_num_expired_clients d) (cd_expired_client_ids d) (cd_override_enabled d) (cd_override_active d)
    (cd_override_expires d) cas.

Definition client_path (uuid : bytes) : bytes := ascii "records.clients." ++ uuid.

Definition SAFETY_MARGIN_EXPIRY_MS : Z := 2000.
Definition max_removed_clients : nat := 12.

Definition client_update_request (k : transaction_keyspace) (level : Z) (d : client_record_details) : mutate_in_request :=
  let uuid := cd_client_uuid d in
  wrap_durable_request level (with_specs
    ([subdoc_upsert (client_path uuid ++ ascii ".heartbeat_ms") macro_cas true true true false;
      subdoc_upsert (client_path uuid ++ ascii ".expires_ms")
        (jsonify (JNumber (Z.quot cleanup_window 2 + SAFETY_MARGIN_EXPIRY_MS))) true true false false;
      subdoc_upsert (client_path uuid ++ ascii ".num_atrs") (jsonify (JNumber (zsize ATR_IDS))) true true false false] ++
     map (λ u, subdoc_remove (client_path u) true) (take max_removed_clients (cd_expired_client_ids d)))
    (new_mutate_in (client_record_id k))).

Definition create_client_record (k : transaction_keyspace) : txn unit :=
  catch_client_error
    (level ← asks config_level;
     _ ← throw_on_hook client_record_before_create;
     _ ← perform_request (mutate_in (wrap_durable_request level (with_specs
           [subdoc_insert (ascii "records.clients") (jsonify (JObject [])) true true false false;
            subdoc_replace [] [0] false false false]
           (with_store_semantics store_insert (new_mutate_in (client_record_id k)))))) true;
     mret tt)
    (λ e, match ce_ec e with FAIL_DOC_ALREADY_EXISTS => mret tt | _ => throw (client_error_thrown e) end).

Definition client_record_specs : list subdoc_command :=
  [subdoc_get (ascii "records") true false; subdoc_get (ascii "$vbucket") true false].

(** [values[i].content_as()] *)
Definition content_at (i : nat) (values : list subdoc_result) : thrown json :=
  match values !! i with Some v => deserialize (sr_value v) | None => Fault end.

(** What the answer to [client_record_specs] says *)
Definition read_client_record (uuid : bytes) (values : list subdoc_result) : thrown client_record_details :=
  hlc ← content_at 1 values;
  now_ns ← now_ns_from_vbucket hlc;
  let now_ms := now_ns / 1000000 in
  s ← match values !! 0%nat with
      | None => Fault
      | Some v =>
          if sr_status v =? sd_success then
            records ← deserialize (sr_value v); o ← get_object records; scan_records now_ms uuid o empty_scan
          else Ok empty_scan
      end;
  Ok (client_details uuid now_ms s).

Fixpoint get_active_clients (fuel : nat) (k : transaction_keyspace) (uuid : bytes) : txn client_record_details :=
  match fuel with
  | O => diverge
  | S fuel =>
      catch_client_error
        (_ ← throw_on_hook client_record_before_get;
         res ← perform_request (lookup_in (client_record_id k) client_record_specs false) true;
         details ← lift (read_client_record uuid (res_values res));
         if cd_override_active details then mret details
         else
           _ ← throw_on_hook client_record_before_update;
           level ← asks config_level;
           res ← perform_request (mutate_in (client_update_request k level details)) true;
           mret (set_cas_now (res_cas res) details))
        (λ e, match ce_ec e with
              | FAIL_DOC_NOT_FOUND => _ ← create_client_record k; get_active_clients fuel k uuid
              | _ => throw (client_error_thrown e)
              end)
  end.

(** ** The threads that clean lost attempts *)

(** What is left of the time for the records, per record, in microseconds *)
Definition atr_budget (step left elapsed : Z) : Z :=
  Z.quot (cleanup_window * 1000 - elapsed) (Z.max 1 (Z.quot left (Z.max 1 step))).

Definition micros (t : Z) : Z := Z.quot t 1000.

(** [interruptable_wait]: whether to go on *)
Definition wait_for_budget (atr_left : Z) : txn bool :=
  if (0 <? atr_left) && (atr_left <? 1000000000) then still_running else mret true.

(** The loop over the records from position [it] on, every [step]-th one;
    whether the thread goes on *)
Fixpoint visit_records (fuel : nat) (k : transaction_keyspace) (start : Z) (step it : Z) : txn bool :=
  match fuel with
  | O => diverge
  | S fuel =>
      if zsize ATR_IDS <=? it then mret true
      else
        t ← question now;
        let budget := atr_budget step (zsize ATR_IDS - it) (micros (t - start)) in
        running ← still_running;
        if negb (running : bool) then mret false
        else
          atr_id ← lift (at_ ATR_IDS it);
          _ ← catch
            (_ ← handle_atr_cleanup (document_id_in (ks_bucket k) (ks_scope k) (ks_collection k) (ascii atr_id)) false;
             mret tt)
            (catches_std (mret tt));
          atr_end ← question now;
          goes_on ← wait_for_budget (budget - micros (atr_end - t));
          if (goes_on : bool) then visit_records fuel k start step (it + step) else mret false
  end.

Definition clean_collection_once (fuel : nat) (k : transaction_keyspace) (uuid : bytes) : txn bool :=
  details ← get_active_clients fuel k uuid;
  start ← question now;
  visit_records (S (length ATR_IDS)) k start (cd_num_active_clients details) (cd_index_of_this_client details).

(** [clean_collection]: at most [rounds] rounds *)
Fixpoint clean_collection (rounds fuel : nat) (collections : list transaction_keyspace) (k : transaction_keyspace)
    (uuid : bytes) : txn unit :=
  match rounds with
  | O => mret tt
  | S rounds =>
      running ← still_running;
      if negb (running : bool) then mret tt
      else if negb (bool_decide (k ∈ collections)) then mret tt
      else
        goes_on ← catch (clean_collection_once fuel k uuid) (catches_std (mret true));
        if (goes_on : bool) then clean_collection rounds fuel collections k uuid else mret tt
  end.

(** ** The collections to clean, and the end *)

Definition keyspace_valid (k : transaction_keyspace) : bool :=
  negb (bool_decide (ks_bucket k = [])) && negb (bool_decide (ks_scope k = [])) && negb (bool_decide (ks_collection k = [])).

(** The collections, each with a thread of its own *)
Definition add_collection (k : transaction_keyspace) (collections : list transaction_keyspace) : list transaction_keyspace :=
  if keyspace_valid k && cleanup_lost_attempts && negb (bool_decide (k ∈ collections)) then collections ++ [k]
  else collections.

Definition start (metadata_collection : option transaction_keyspace) (configured : list transaction_keyspace) :
    list transaction_keyspace :=
  foldl (λ l k, add_collection k l) [] (option_list metadata_collection ++ configured).

(** [retry_op_exponential_backoff_timeout]; the clock is asked after each
    failure. *)
Fixpoint retry_until {A} (fuel : nat) (end_time : Z) (func : txn A) : txn A :=
  match fuel with
  | O => diverge
  | S fuel =>
      r ← catch_retry func;
      match r with
      | inl x => mret x
      | inr _ => t ← question now; if end_time <? t then throw retry_operation_timeout else retry_until fuel end_time func
      end
  end.
Definition retry_op_exponential_backoff_timeout {A} (fuel : nat) (timeout : Z) (func : txn A) : txn A :=
  t ← question now; retry_until fuel (t + timeout) func.

Definition remove_client_once (k : transaction_keyspace) (uuid : bytes) : txn unit :=
  catch_client_error
    (_ ← throw_on_hook client_record_before_remove_client;
     level ← asks config_level;
     _ ← perform_request (mutate_in (wrap_durable_request level (with_specs [subdoc_remove (client_path uuid) true]
           (new_mutate_in (client_record_id k))))) true;
     mret tt)
    (λ e, match ce_ec e with FAIL_DOC_NOT_FOUND | FAIL_PATH_NOT_FOUND => mret tt | _ => throw retry_operation end).

Definition remove_client_timeout : Z := 500000000.

Fixpoint remove_client_record_from_all_buckets (fuel : nat) (collections : list transaction_keyspace) (uuid : bytes) :
    txn unit :=
  match collections with
  | [] => mret tt
  | k :: collections =>
      _ ← catch (retry_op_exponential_backoff_timeout fuel remove_client_timeout (remove_client_once k uuid))
            (catches_std (mret tt));
      remove_client_record_from_all_buckets fuel collections uuid
  end.
End cleanup.
