(* ===== verification/TransactionCleanupTheorems.v ===== *)
(** * Cleaning of attempts: theorems

    Which requests the cleaning of a record sends, what has happened to the
    documents before an entry is removed, and how the clients divide the
    records. *)

From stdpp Require Import sorting.
From S2P Require Import Prelude ByteOrder Protocol McbpParser ClientRequest ClientResponse Commands Topology AtrIds Transactions TransactionLinks Attempt AttemptProofs TransactionOps TransactionOpsProofs TransactionReads TransactionTermination TransactionCleanup.
Import CleanupHook.

(** ** Requests and what is known before them *)

Definition is_mutation (req : request) : bool :=
  match req with mutate_in _ | Transactions.insert _ _ _ _ | Transactions.remove _ _ _ => true | _ => false end.

(** The log of a cleaning: a mutation satisfies [E], or [P] with the lookup
    directly before it. *)
Inductive cleaned (P : request → log_entry → Prop) (E : request → Prop) : list log_entry → Prop :=
  | cleaned_nil : cleaned P E []
  | cleaned_look e l : is_mutation e.1 = false → cleaned P E l → cleaned P E (e :: l)
  | cleaned_write req resp look l :
      P req look → is_mutation look.1 = false → cleaned P E l → cleaned P E ((req, resp) :: look :: l)
  | cleaned_entry req resp l : E req → cleaned P E l → cleaned P E ((req, resp) :: l).

Lemma cleaned_app P E l l' : cleaned P E l → cleaned P E l' → cleaned P E (l ++ l').
Proof. intros Hl Hl'. induction Hl; cbn; [done|by constructor|by constructor|by constructor]. Qed.

Lemma cleaned_mono (P P' : request → log_entry → Prop) (E E' : request → Prop) l :
  (∀ req look, P req look → P' req look) → (∀ req, E req → E' req) → cleaned P E l → cleaned P' E' l.
Proof. intros HP HE Hl. induction Hl; [constructor 1|by constructor|constructor 3; auto|constructor 4; auto]. Qed.

Lemma cleaned_at P E l l2 req resp l1 :
  cleaned P E l → l = l2 ++ (req, resp) :: l1 → is_mutation req = true → E req ∨ ∃ look l0, l1 = look :: l0 ∧ P req look.
Proof.
  intros Hl. revert l2. induction Hl as [|e l He Hl IH|req' resp' look l HP Hlook Hl IH|req' resp' l HE Hl IH]; intros l2 Heq Hm.
  - by destruct l2.
  - destruct l2 as [|x l2]; injection Heq as -> Heq; [cbn in He; congruence|by eapply IH].
  - destruct l2 as [|x [|y l2]]; cbn in Heq; simplify_eq; [right; by exists look, l|cbn in Hlook; congruence|by eapply IH].
  - destruct l2 as [|x l2]; cbn in Heq; simplify_eq; [by left|by eapply IH].
Qed.

Section cleaning.
Context `{Json, Cleanup} (env : environment) (Hhooks : ∀ n h, cleanup_hook_error n h = None).

(** The answer to a lookup of a document that shows a write of the attempt *)
Definition shows_staged (attempt_id : bytes) (d : document_id) (doc : transaction_get_result) (look : log_entry) : Prop :=
  look.1 = lookup_in d get_doc_specs true ∧ resp_ec look.2 = None ∧ create_from_subdoc d look.2 = Ok doc ∧
  is_document_in_transaction (tg_links doc) = true ∧ tl_staged_attempt_id (tg_links doc) = Some attempt_id.

(** What is to be done for a document that the entry names *)
Inductive duty := commits | removes | uncreates | unlinks.

(** The duties of an entry: none unless it is decided *)
Definition duties (e : atr_entry) : list (document_id * duty) :=
  let all du ids := map (λ d, (d, du)) (default [] ids) in
  match ae_state e with
  | AttemptState.COMMITTED => all commits (ae_inserted_ids e) ++ all commits (ae_replaced_ids e) ++ all removes (ae_removed_ids e)
  | AttemptState.ABORTED => all uncreates (ae_inserted_ids e) ++ all unlinks (ae_replaced_ids e) ++ all unlinks (ae_removed_ids e)
  | _ => []
  end.

(** Whether the body must be the one that the mutation was staged on, and when
    there is nothing to do *)
Definition duty_crc (du : duty) : bool := match du with unlinks => false | _ => true end.
Definition duty_idle (du : duty) (l : transaction_links) : bool :=
  match du with
  | commits => negb (has_staged_content l)
  | removes => negb (is_document_being_removed l)
  | uncreates | unlinks => false
  end.

(** A change of the document in the version that was looked up: the request
    names it and carries its CAS. *)
Definition changes_version (doc : transaction_get_result) (specs : list subdoc_command) (level : Z) (req : request) : Prop :=
  ∃ m, req = mutate_in m ∧ mi_id m = tg_id doc ∧ mi_cas m = tg_cas doc ∧ mi_specs m = specs ∧ mi_durability_level m = level.

(** The requests that do a duty.  The content of a document that is deleted is
    inserted, which has no CAS: it fails when the document exists by then. *)
Inductive does : duty → Z → transaction_get_result → request → Prop :=
  | does_revive level doc :
      tl_is_deleted (tg_links doc) = true →
      let content := staged_content_json_or_binary (tg_links doc) in
      does commits level doc (Transactions.insert (tg_id doc) (ev_data content) (ev_flags content) level)
  | does_replace level doc req :
      tl_is_deleted (tg_links doc) = false →
      changes_version doc
        [subdoc_remove (ascii "txn") true;
         subdoc_replace [] (ev_data (staged_content_json_or_binary (tg_links doc))) false false false] level req →
      does commits level doc req
  | does_remove level doc : does removes level doc (Transactions.remove (tg_id doc) (tg_cas doc) level)
  | does_uncreate level doc :
      tl_is_deleted (tg_links doc) = false → does uncreates level doc (Transactions.remove (tg_id doc) (tg_cas doc) level)
  | does_uncreate_deleted level doc req :
      tl_is_deleted (tg_links doc) = true → changes_version doc [subdoc_remove (ascii "txn") true] level req →
      does uncreates level doc req
  | does_unlink level doc req :
      changes_version doc [subdoc_remove (ascii "txn") true] level req → does unlinks level doc req.

(** The request is the duty for a document that the lookup shows. *)
Definition finishes (attempt_id : bytes) (level : Z) (todo : list (document_id * duty)) (req : request) (look : log_entry) : Prop :=
  ∃ d du doc, (d, du) ∈ todo ∧ shows_staged attempt_id d doc look ∧
    (duty_crc du = true → crc_differs doc = false) ∧ duty_idle du (tg_links doc) = false ∧ does du level doc req.

(** The server did what was asked, or the document is not there. *)
Definition accepted (resp : response) : Prop :=
  resp_ec resp = None ∨ resp_ec resp = Some (errc_key_value KeyValue.document_not_found).

(** Nothing is done for the document: its lookup failed or found nothing, or
    it shows nothing that is left to do. *)
Definition unseen (look : log_entry) : Prop := has (resp_ec look.2) || bool_decide (resp_fields look.2 = []) = true.
Definition idle (attempt_id : bytes) (d : document_id) (du : duty) (look : log_entry) : Prop :=
  unseen look ∨
  ∃ doc, create_from_subdoc d look.2 = Ok doc ∧
    (skips_document attempt_id (duty_crc du) doc = true ∨ duty_idle du (tg_links doc) = true).

(** The document was looked up, and then it was left alone or its duty was
    done. *)
Definition done_for (attempt_id : bytes) (level : Z) (l : list log_entry) (t : document_id * duty) : Prop :=
  ∃ l2 look l1, look.1 = lookup_in t.1 get_doc_specs true ∧
    (l = l2 ++ look :: l1 ∧ idle attempt_id t.1 t.2 look ∨
     ∃ req resp, l = l2 ++ (req, resp) :: look :: l1 ∧ finishes attempt_id level [t] req look ∧ accepted resp).

Lemma done_app attempt_id level t l2 l l1 : done_for attempt_id level l t → done_for attempt_id level (l2 ++ l ++ l1) t.
Proof.
  intros (k2 & look & k1 & Hlook & Hd). exists (l2 ++ k2), look, (k1 ++ l1). split; [done|].
  destruct Hd as [[-> Hi]|(req & resp & -> & Hf & Ha)]; [left|right; exists req, resp]; rewrite <-!app_assoc; by split_and!.
Qed.

(** ** One document *)

Lemma wp_throw_on_hook h (Q : outcome exn unit → attempt → Prop) a : Q (Ok tt) (next_tick a) → wp (throw_on_hook h) env Q a.
Proof. intros HQ. apply wp_bind, wp_question. cbn [bind_post]. by rewrite Hhooks. Qed.

Lemma validate_accepted res ignore e resp :
  res_ec res = resp_ec resp → validate_operation_result res ignore = Err e → ce_ec e = FAIL_DOC_NOT_FOUND → accepted resp.
Proof.
  intros Hec Hv Hc. unfold validate_operation_result, is_success in Hv. unfold accepted. rewrite <-Hec.
  destruct (res_ec res) as [ec|] eqn:Hr; [right|by left].
  cbn [has negb] in Hv. injection Hv as <-. cbn [ce_ec client_error_of_result] in Hc. unfold error_class_from_result in Hc.
  rewrite Hr in Hc. cbn [has orb mbind option_bind] in Hc. unfold error_class_of_code in Hc. repeat case_decide; congruence.
Qed.

Lemma wp_perform_request req subdoc (Q : outcome exn result → attempt → Prop) a :
  let resp := reply env (at_tick a) req in
  (∀ r, (∀ x, r = Ok x → accepted resp) → (∀ e, r = Err (client_error_thrown e) → ce_ec e = FAIL_DOC_NOT_FOUND → accepted resp) →
     Q r (set_log ((req, resp) :: at_log a) (next_tick a))) → wp (perform_request req subdoc) env Q a.
Proof.
  intros resp HQ. apply wp_bind, wp_execute. cbn [bind_post]. fold resp. set (res := if subdoc then _ else _).
  assert (Hec : res_ec res = resp_ec resp) by (unfold res; by destruct subdoc).
  apply wp_wrap_operation_future; [intros res' Hv|intros e Hv]; apply HQ; try done.
  - intros _ _. unfold validate_operation_result, is_success in Hv. left. rewrite <-Hec. by destruct (res_ec res).
  - intros e' [= <-] Hc. by eapply validate_accepted.
Qed.

(** What a function that [do_per_doc] calls does behind a lookup *)
Definition call_post (W : request → Prop) (I : Prop) (look : log_entry) (L : list log_entry) (r : outcome exn unit) (a' : attempt) : Prop :=
  (at_log a' = look :: L ∧ r = Ok tt ∧ I) ∨
  ∃ req resp, at_log a' = (req, resp) :: look :: L ∧ W req ∧
    (r = Ok tt → accepted resp) ∧ (∀ e, r = Err (client_error_thrown e) → ce_ec e = FAIL_DOC_NOT_FOUND → accepted resp).

Lemma request_call (W : request → Prop) I req subdoc h look L a :
  at_log a = look :: L → W req →
  wp (_ ← throw_on_hook h; _ ← perform_request req subdoc; mret tt) env (call_post W I look L) a.
Proof.
  intros Hl HW. apply wp_bind, wp_throw_on_hook. cbn [bind_post]. apply wp_bind, wp_perform_request.
  set (resp := reply _ _ _). intros r Hok Herr.
  assert (Hpost : ∀ r', (r' = Ok tt → ∃ x, r = Ok x) → (∀ e, r' = Err (client_error_thrown e) → r = Err (client_error_thrown e)) →
    call_post W I look L r' (set_log ((req, resp) :: at_log a) (next_tick (next_tick a)))).
  { intros r' H1 H2. right. exists req, resp. split_and!; [by cbn; rewrite Hl|done|intros Hr; destruct (H1 Hr); eauto|].
    intros e Hr. eapply Herr, H2, Hr. }
  destruct r as [x|e| |]; cbn [bind_post]; [apply wp_ret|..]; apply Hpost; try done; [by exists x|congruence].
Qed.

(** What an action leaves in the log *)
Definition leaves {A} (attempt_id : bytes) (level : Z) (all todo : list (document_id * duty)) (m : txn A) : Prop :=
  ∀ a, wp m env (λ r a', ∃ l, at_log a' = l ++ at_log a ∧
    cleaned (finishes attempt_id level all) (λ _, False) l ∧ ((∃ x, r = Ok x) → Forall (done_for attempt_id level l) todo)) a.

Definition does_duty (level : Z) (du : duty) (call : transaction_get_result → bool → txn unit) : Prop :=
  ∀ doc look L a, tl_is_deleted (tg_links doc) = resp_deleted look.2 → at_log a = look :: L →
    wp (call doc (resp_deleted look.2)) env
      (call_post (λ req, duty_idle du (tg_links doc) = false ∧ does du level doc req) (duty_idle du (tg_links doc) = true) look L) a.

Lemma per_doc_leaves attempt_id level du call d all :
  (d, du) ∈ all → does_duty level du call → leaves attempt_id level all [(d, du)] (per_doc attempt_id (duty_crc du) call d).
Proof.
  intros Hd Hcall a. apply wp_catch, wp_bind, wp_execute. cbn [bind_post]. set (resp := reply _ _ _). set (a1 := set_log _ _).
  set (look := (lookup_in d get_doc_specs true, resp)).
  assert (Hl1 : at_log a1 = look :: at_log a) by done. clearbody a1.
  set (Post := λ (r : outcome exn unit) a', ∃ l, at_log a' = l ++ at_log a ∧
    cleaned (finishes attempt_id level all) (λ _, False) l ∧ ((∃ x, r = Ok x) → Forall (done_for attempt_id level l) [(d, du)])).
  assert (Hnone : ∀ (r : outcome exn unit), (r = Ok tt → idle attempt_id d du look) → Post r a1).
  { intros r Hi. exists [look]. split; [done|]. split; [constructor; [done|constructor]|]. intros [[] Hr]. constructor; [|done].
    exists [], look, []. split; [done|]. left. split; [done|by apply Hi]. }
  destruct (has (resp_ec resp) || _) eqn:Hempty; [apply wp_ret, Hnone; intros _; by left|].
  apply wp_bind. apply orb_false_iff in Hempty as [Hec _].
  destruct (create_from_subdoc d resp) as [doc|[]| |] eqn:Hdoc; cbn [lift];
    [apply wp_ret; cbn [bind_post]|by apply wp_throw, Hnone|by apply wp_fault, Hnone|by apply wp_diverge, Hnone].
  assert (Hidle : skips_document attempt_id (duty_crc du) doc = true ∨ duty_idle du (tg_links doc) = true → idle attempt_id d du look)
    by (intros Hi; right; by exists doc).
  destruct (skips_document attempt_id (duty_crc du) doc) eqn:Hs; [apply wp_ret, Hnone; intros _; apply Hidle; by left|].
  unfold skips_document in Hs. apply orb_false_iff in Hs as [Hs Hcrc]. apply orb_false_iff in Hs as [Hs Hid].
  apply orb_false_iff in Hs as [Ht _]. apply negb_false_iff in Ht, Hid. apply bool_decide_eq_true in Hid.
  eapply wp_mono.
  { apply (Hcall doc look (at_log a) a1); [|done].
    unfold create_from_subdoc in Hdoc. repeat (apply bind_Ok in Hdoc as (? & _ & Hdoc); repeat case_match). by injection Hdoc as <-. }
  intros r a2 [(Hl & -> & Hi)|(req & resp2 & Hl & [Hni Hreq] & Hok & Herr)].
  { exists [look]. split; [done|]. split; [constructor; [done|constructor]|]. intros _. constructor; [|done].
    exists [], look, []. split; [done|]. left. split; [done|]. apply Hidle. by right. }
  assert (Hfin : ∀ ts, (d, du) ∈ ts → finishes attempt_id level ts req look).
  { intros ts Hin. exists d, du, doc. split_and!; try done; [split_and!; try done; cbn; by destruct (resp_ec resp)|].
    intros Hc. by rewrite Hc in Hcrc. }
  assert (Hpost : ∀ r : outcome exn unit, (r = Ok tt → accepted resp2) → Post r a2).
  { intros r' Hr. exists [(req, resp2); look]. split; [done|]. split; [constructor; [by apply Hfin|done|constructor]|].
    intros [[] Ho]. constructor; [|done]. exists [], look, []. split; [done|]. right. exists req, resp2.
    split_and!; [done|apply Hfin; by apply list_elem_of_singleton|by apply Hr]. }
  destruct r as [[]|e| |]; cbn [catch_post]; try (apply Hpost; done || (intros _; by apply Hok)).
  destruct e; try (by apply Hpost). destruct (ce_ec e) eqn:He; try (by apply wp_throw, Hpost).
  apply wp_ret, Hpost. intros _. by apply (Herr e).
Qed.

Lemma leaves_ret {A} attempt_id level all (x : A) : leaves attempt_id level all [] (mret x).
Proof. intros a. exists []. split_and!; [done|constructor|done]. Qed.

Lemma leaves_bind {A B} attempt_id level all todo todo' (m : txn A) (f : A → txn B) :
  leaves attempt_id level all todo m → (∀ x, leaves attempt_id level all todo' (f x)) →
  leaves attempt_id level all (todo ++ todo') (m ≫= f).
Proof.
  intros Hm Hf a. apply wp_bind. eapply wp_mono; [apply Hm|]. intros r a1 (l & Hl & Hc & Hd).
  destruct r as [x|e| |]; cbn [bind_post]; try (exists l; split_and!; [done|done|by intros [? ?]]).
  eapply wp_mono; [apply Hf|]. intros r a2 (l' & Hl' & Hc' & Hd'). exists (l' ++ l).
  split; [by rewrite Hl', Hl, app_assoc|]. split; [by apply cleaned_app|]. intros Hr. apply Forall_app. split.
  - eapply Forall_impl; [apply Hd; eauto|]. intros t Ht. rewrite <-(app_nil_r l). by apply done_app.
  - eapply Forall_impl; [by apply Hd'|]. intros t Ht. by apply (done_app _ _ _ []).
Qed.

Lemma do_per_doc_leaves attempt_id level du call docs all :
  Forall (λ d, (d, du) ∈ all) docs → does_duty level du call →
  leaves attempt_id level all (map (λ d, (d, du)) docs) (do_per_doc attempt_id (duty_crc du) call docs).
Proof.
  intros Hdocs Hcall. induction Hdocs as [|d docs Hd Hdocs IH]; cbn [do_per_doc map]; [apply leaves_ret|].
  by apply (leaves_bind _ _ _ [(d, du)]); [apply per_doc_leaves|intros _].
Qed.

(** The requests of the code *)
Lemma remove_links_changes doc level : changes_version doc [subdoc_remove (ascii "txn") true] level (remove_links_request doc level).
Proof. by eexists. Qed.

Lemma commit_request_does doc level : does commits level doc (commit_staged_request doc level).1.
Proof.
  unfold commit_staged_request. destruct (tl_is_deleted (tg_links doc)) eqn:Hd; cbn [fst]; [by apply does_revive|].
  apply does_replace; [done|]. by eexists.
Qed.

(** The four functions do their duty. *)
Lemma commit_staged_duty level : does_duty level commits (commit_staged level).
Proof.
  intros doc look L a Hdel Hl. unfold commit_staged. cbn [duty_idle].
  destruct (has_staged_content _); cbn [negb]; [|apply wp_ret; by left]. pose proof (commit_request_does doc level) as Hreq.
  destruct (commit_staged_request doc level) as [req subdoc]. by apply request_call.
Qed.

Lemma remove_inserted_duty level : does_duty level uncreates (remove_inserted level).
Proof.
  intros doc look L a Hdel Hl. unfold remove_inserted. cbn [duty_idle].
  destruct (resp_deleted look.2); apply request_call; try done; (split; [done|]);
    [by apply does_uncreate_deleted, remove_links_changes|by apply does_uncreate].
Qed.

Lemma remove_staged_duty level : does_duty level removes (remove_staged_for_removal level).
Proof.
  intros doc look L a Hdel Hl. unfold remove_staged_for_removal. cbn [duty_idle].
  destruct (is_document_being_removed _); cbn [negb]; [|apply wp_ret; by left]. apply request_call; [done|].
  split; [done|apply does_remove].
Qed.

Lemma remove_links_duty level : does_duty level unlinks (remove_links level).
Proof.
  intros doc look L a Hdel Hl. apply request_call; [done|]. split; [done|apply does_unlink, remove_links_changes].
Qed.

Lemma with_docs_leaves attempt_id level du call (ids : option (list document_id)) all :
  (∀ d, (d, du) ∈ map (λ d, (d, du)) (default [] ids) → (d, du) ∈ all) → does_duty level du call →
  leaves attempt_id level all (map (λ d, (d, du)) (default [] ids)) (with_docs ids (do_per_doc attempt_id (duty_crc du) call)).
Proof.
  intros Hin Hcall. destruct ids as [ids|]; cbn [with_docs default]; [|apply leaves_ret].
  apply do_per_doc_leaves; [|done]. apply Forall_forall. intros d Hd. apply Hin. by apply list_elem_of_fmap_2 with (f := λ d, (d, du)).
Qed.

Lemma cleanup_docs_leaves attempt_id level e : leaves attempt_id level (duties e) (duties e) (cleanup_docs attempt_id e level).
Proof.
  unfold cleanup_docs, duties. destruct (ae_state e); try apply leaves_ret.
  - apply (leaves_bind _ _ _ (map _ _) (map _ _ ++ map _ _)); [|intros _; apply (leaves_bind _ _ _ (map _ _) (map _ _)); [|intros _]].
    + apply (with_docs_leaves _ _ uncreates); [set_solver|apply remove_inserted_duty].
    + apply (with_docs_leaves _ _ unlinks); [set_solver|apply remove_links_duty].
    + apply (with_docs_leaves _ _ unlinks); [set_solver|apply remove_links_duty].
  - apply (leaves_bind _ _ _ (map _ _) (map _ _ ++ map _ _)); [|intros _; apply (leaves_bind _ _ _ (map _ _) (map _ _)); [|intros _]].
    + apply (with_docs_leaves _ _ commits); [set_solver|apply commit_staged_duty].
    + apply (with_docs_leaves _ _ commits); [set_solver|apply commit_staged_duty].
    + apply (with_docs_leaves _ _ removes); [set_solver|apply remove_staged_duty].
Qed.

(** ** Entries and records *)

Definition entry_level (e : atr_entry) : Z :=
  match ae_durability_level e with Some raw => store_string_to_durability_level raw | None => config_level env end.

(** The log of the cleaning of an entry: with its removal on top, or not *)
Definition cleans_entry (atr_id : document_id) (attempt_id : bytes) (e : atr_entry) (l : list log_entry) : Prop :=
  cleaned (finishes attempt_id (entry_level e) (duties e)) (λ _, False) l ∨
  ∃ resp l1, l = (mutate_in (remove_entry_request atr_id e (entry_level e)), resp) :: l1 ∧
    cleaned (finishes attempt_id (entry_level e) (duties e)) (λ _, False) l1 ∧
    Forall (done_for attempt_id (entry_level e) l1) (duties e).

Lemma finish_entry_cleans c e a :
  wp (_ ← cleanup_docs (cl_attempt_id c) e (entry_level e);
      _ ← throw_on_hook on_cleanup_docs_completed;
      _ ← cleanup_entry (cl_atr_id c) e (entry_level e);
      throw_on_hook on_cleanup_completed) env
    (λ r a', ∃ l, at_log a' = l ++ at_log a ∧ cleans_entry (cl_atr_id c) (cl_attempt_id c) e l) a.
Proof.
  set (Post := λ (r : outcome exn unit) a', ∃ l, _).
  apply wp_bind. eapply wp_mono; [apply (cleanup_docs_leaves (cl_attempt_id c) (entry_level e) e)|].
  intros r a3 (l & Hl & Hc & Hd).
  assert (Hdocs : ∀ (r : outcome exn unit) a4, at_log a4 = at_log a3 → Post r a4).
  { intros r' a4 Ha4. exists l. split; [by rewrite Ha4|by left]. }
  destruct r as [[]|ex| |]; cbn [bind_post]; try (by apply Hdocs).
  apply wp_bind, wp_throw_on_hook. cbn [bind_post]. apply wp_bind. unfold cleanup_entry.
  apply wp_catch, wp_bind, wp_throw_on_hook. cbn [bind_post]. apply wp_bind, wp_perform_request. cbn [at_log next_tick].
  set (resp := reply _ _ _). set (a4 := set_log _ _). intros r _ _.
  assert (Hend : ∀ (r : outcome exn unit) a5, at_log a5 = at_log a4 → Post r a5).
  { intros r' a5 Ha5. eexists. rewrite Ha5. unfold a4. cbn [at_log set_log]. rewrite Hl, app_comm_cons. split; [reflexivity|].
    right. exists resp, l. split_and!; [done|done|]. apply Hd. by exists tt. }
  clearbody a4. destruct r as [x|ex| |]; cbn [bind_post catch_post]; [apply wp_ret; cbn [catch_post bind_post]| |by apply Hend..].
  - apply wp_throw_on_hook. by apply Hend.
  - cbn [catch_post]. destruct ex as [err| | | | | | | | | | | |]; try (by apply Hend).
    destruct (ce_ec err); try (apply wp_throw; cbn [bind_post]; by apply Hend).
    apply wp_ret. cbn [bind_post]. apply wp_throw_on_hook. by apply Hend.
Qed.

(** An entry is left alone, or it is due and cleaned. *)
Definition due (c : atr_cleanup_entry) (e : atr_entry) : Prop :=
  cl_check_if_expired c = true → has_expired e safety_margin_ms = Ok true.

Lemma check_atr_cleans c reports e a :
  wp (check_atr_and_cleanup c reports e) env
    (λ r a', at_log a' = at_log a ∨ due c e ∧ ∃ l, at_log a' = l ++ at_log a ∧ cleans_entry (cl_atr_id c) (cl_attempt_id c) e l) a.
Proof.
  unfold check_atr_and_cleanup. apply wp_bind, wp_asks. cbn [bind_post]. fold (entry_level e). apply wp_bind.
  match goal with |- wp _ _ (bind_post ?k _ ?Q) _ => assert (Hgo : due c e → wp (k true) env Q a) end.
  { intros Hdue. cbn [negb]. apply wp_bind.
    match goal with |- wp _ _ (bind_post ?k _ ?Q) _ => assert (Hrest : ∀ a1, at_log a1 = at_log a → wp (k tt) env Q a1) end.
    { intros a1 Hl1. apply wp_bind, wp_lift; cbn [bind_post]; try (by left). intros [f|] _; [by apply wp_throw; left|].
      eapply wp_mono; [apply finish_entry_cleans|]. intros r a2 (l & Hl & Hc). right. split; [done|]. exists l. by rewrite <-Hl1. }
    destruct reports; [apply wp_modify|apply wp_ret]; cbn [bind_post]; by apply Hrest. }
  destruct (cl_check_if_expired c) eqn:Hcheck; [|apply wp_ret; cbn [bind_post]; apply Hgo; unfold due; by rewrite Hcheck].
  destruct (has_expired e safety_margin_ms) as [[]|[]| |] eqn:He; cbn [lift];
    [apply wp_ret; cbn [bind_post]; apply Hgo; intros _; exact He|apply wp_ret; cbn [bind_post negb]; apply wp_ret; by left|apply wp_throw|apply wp_fault|apply wp_diverge];
    by left.
Qed.

(** The record that a cleaning read *)
Definition record_read (atr_id : document_id) (record : active_transaction_record) (look : log_entry) : Prop :=
  look.1 = lookup_in atr_id get_atr_specs false ∧ get_atr_result atr_id look.2 = Ok (inr (Some record)).

Lemma wp_get_atr_or_throw atr_id (Q : outcome exn (option active_transaction_record) → attempt → Prop) a :
  (∀ r look a', at_log a' = look :: at_log a → look.1 = lookup_in atr_id get_atr_specs false →
     (∀ record, r = Ok (Some record) → record_read atr_id record look) → Q r a') →
  wp (get_atr_or_throw atr_id) env Q a.
Proof.
  intros HQ. apply wp_bind. unfold get_atr. apply wp_bind, wp_execute. cbn [bind_post]. set (resp := reply _ _ _). set (a1 := set_log _ _).
  assert (Hany : ∀ r : outcome exn (option active_transaction_record),
    (∀ record, r = Ok (Some record) → get_atr_result atr_id resp = Ok (inr (Some record))) → Q r a1).
  { intros r Hr. eapply HQ; [reflexivity|done|]. intros record Hrec. split; [done|by apply Hr]. }
  apply wp_lift; cbn [bind_post]; [intros [ec|atr] Hres; [apply wp_throw|apply wp_ret]|..]; apply Hany; try done.
  by intros record [= ->].
Qed.

(** Every mutation in the log belongs to an entry that [A] admits: it is what
    is to be done for a document that was just looked up, or the removal of the
    entry behind all that is to be done for its documents. *)
Definition accounted (A : atr_entry → bytes → Prop) (atr_id : document_id) (l : list log_entry) : Prop :=
  ∀ l2 req resp l1, l = l2 ++ (req, resp) :: l1 → is_mutation req = true →
    ∃ e attempt_id, A e attempt_id ∧
      (req = mutate_in (remove_entry_request atr_id e (entry_level e)) ∧ Forall (done_for attempt_id (entry_level e) l1) (duties e) ∨
       ∃ look l0, l1 = look :: l0 ∧ finishes attempt_id (entry_level e) (duties e) req look).

Lemma split_at {B} (l l' : list B) l2 x l1 :
  l ++ l' = l2 ++ x :: l1 → (∃ m, l1 = m ++ l' ∧ l = l2 ++ x :: m) ∨ ∃ m, l2 = l ++ m ∧ l' = m ++ x :: l1.
Proof.
  revert l. induction l2 as [|y l2 IH]; intros [|z l] Heq; cbn in Heq.
  - right. by exists [].
  - injection Heq as -> <-. left. by exists l.
  - right. by exists (y :: l2).
  - injection Heq as -> Heq. destruct (IH l Heq) as [(m & -> & ->)|(m & -> & ->)]; [left|right]; by exists m.
Qed.

Lemma accounted_app A atr_id l l' : accounted A atr_id l → accounted A atr_id l' → accounted A atr_id (l ++ l').
Proof.
  intros Hl Hl' l2 req resp l1 Heq Hm. apply split_at in Heq as [(m & -> & Heq)|(m & -> & Heq)]; [|by eapply Hl'].
  destruct (Hl _ _ _ _ Heq Hm) as (e & i & HA & Hcase). exists e, i. split; [done|].
  destruct Hcase as [[Hr Hd]|(look & l0 & -> & Hf)]; [left|right; by exists look, (l0 ++ l')]. split; [done|].
  eapply Forall_impl; [exact Hd|]. intros t. apply (done_app _ _ _ []).
Qed.

Lemma accounted_look A atr_id look : is_mutation look.1 = false → accounted A atr_id [look].
Proof.
  intros Hlook [|x l2] req resp l1 Heq Hm; [|by destruct l2]. injection Heq as -> <-. cbn [fst] in Hlook. congruence.
Qed.

Lemma accounted_mono (A A' : atr_entry → bytes → Prop) atr_id l :
  (∀ e i, A e i → A' e i) → accounted A atr_id l → accounted A' atr_id l.
Proof. intros HA Hl l2 req resp l1 Heq Hm. destruct (Hl _ _ _ _ Heq Hm) as (e & i & H1 & H2). exists e, i. auto. Qed.

Lemma cleans_accounted atr_id attempt_id e l :
  cleans_entry atr_id attempt_id e l → accounted (λ e' i, e' = e ∧ i = attempt_id) atr_id l.
Proof.
  intros Hc. assert (Hdocs : ∀ l, cleaned (finishes attempt_id (entry_level e) (duties e)) (λ _, False) l →
    accounted (λ e' i, e' = e ∧ i = attempt_id) atr_id l).
  { intros l' Hl' l2 req resp l1 Heq Hm. destruct (cleaned_at _ _ _ _ _ _ _ Hl' Heq Hm) as [[]|(look & l0 & -> & Hf)].
    exists e, attempt_id. split; [done|]. right. by exists look, l0. }
  destruct Hc as [Hl|(resp & l1 & -> & Hl & Hd)]; [by apply Hdocs|].
  intros l2 req resp' l1' Heq Hm. destruct l2 as [|x l2]; cbn in Heq; simplify_eq; [|by eapply Hdocs].
  exists e, attempt_id. split; [done|]. by left.
Qed.

(** The entry that [clean] is about: its own, or the one it looks up *)
Definition entry_to_clean (c : atr_cleanup_entry) (l : list log_entry) (e : atr_entry) : Prop :=
  cl_entry c = Some e ∨
  cl_entry c = None ∧ ∃ record look, last l = Some look ∧ record_read (cl_atr_id c) record look ∧
    find_entry (cl_attempt_id c) record = Some e.

Lemma check_atr_accounted c reports e (A : atr_entry → bytes → Prop) a :
  (due c e → A e (cl_attempt_id c)) →
  wp (check_atr_and_cleanup c reports e) env
    (λ r a', ∃ l, at_log a' = l ++ at_log a ∧ accounted A (cl_atr_id c) l) a.
Proof.
  intros HA. eapply wp_mono; [apply check_atr_cleans|]. intros r a' [Hl|(Hdue & l & Hl & Hc)].
  - exists []. split; [done|]. by intros [] ? ? ? [=].
  - exists l. split; [done|]. eapply accounted_mono; [|by apply cleans_accounted]. intros ? ? [-> ->]. by apply HA.
Qed.

Lemma clean_accounted c reports a :
  wp (clean c reports) env (λ r a', ∃ l, at_log a' = l ++ at_log a ∧
    accounted (λ e i, i = cl_attempt_id c ∧ due c e ∧ entry_to_clean c l e) (cl_atr_id c) l) a.
Proof.
  unfold clean. destruct (cl_entry c) as [e|] eqn:Hc.
  { eapply wp_mono; [apply (check_atr_accounted c reports e (λ e i, i = cl_attempt_id c ∧ due c e ∧ cl_entry c = Some e)); auto|].
    intros r a' (l & Hl & Ha). exists l. split; [done|]. eapply accounted_mono; [|exact Ha]. intros e' i (H1 & H2 & H3). split_and!; [done..|by left]. }
  apply wp_bind, wp_get_atr_or_throw. intros r look a1 Hl1 Hget Hrec.
  assert (Hlook : is_mutation look.1 = false) by (by rewrite Hget).
  assert (Hdone : ∃ l, at_log a1 = l ++ at_log a ∧
    accounted (λ e i, i = cl_attempt_id c ∧ due c e ∧ entry_to_clean c l e) (cl_atr_id c) l).
  { exists [look]. split; [done|]. by apply accounted_look. }
  destruct r as [atr|e| |]; cbn [bind_post]; try exact Hdone.
  destruct (atr ≫= find_entry (cl_attempt_id c)) as [e|] eqn:Hf; [|apply wp_ret; exact Hdone].
  destruct atr as [record|]; [|done]. cbn in Hf.
  eapply wp_mono; [apply (check_atr_accounted c reports e (λ e' i, i = cl_attempt_id c ∧ due c e' ∧ e' = e)); auto|].
  intros r a' (l & Hl & Ha). exists (l ++ [look]). split; [by rewrite Hl, Hl1, <-app_assoc|].
  apply accounted_app; [|by apply accounted_look]. eapply accounted_mono; [|exact Ha]. intros e' i (-> & Hd & ->).
  split_and!; [done..|]. right. split; [done|]. exists record, look. split_and!; [by rewrite last_snoc|by apply Hrec|done].
Qed.

Lemma handle_entries_accounted atr_id testing entries a :
  wp (handle_entries atr_id testing entries) env (λ r a', ∃ l, at_log a' = l ++ at_log a ∧
    accounted (λ e i, e ∈ entries ∧ i = ae_attempt_id e ∧ (testing = false → has_expired e safety_margin_ms = Ok true)) atr_id l) a.
Proof.
  revert a. induction entries as [|e entries IH]; intros a; cbn [handle_entries].
  { apply wp_ret. exists []. split; [done|]. by intros [] ? ? ? [=]. }
  set (A := λ e' i, e' ∈ e :: entries ∧ _). set (A' := λ e' i, e' ∈ entries ∧ _) in IH.
  assert (Hrest : ∀ a', wp (handle_entries atr_id testing entries) env (λ r a'', ∃ l, at_log a'' = l ++ at_log a' ∧ accounted A atr_id l) a').
  { intros a'. eapply wp_mono; [apply IH|]. intros r a'' (l & Hl & Ha). exists l. split; [done|].
    eapply accounted_mono; [|exact Ha]. intros e' i (H1 & H2 & H3). split_and!; [by apply list_elem_of_further|done..]. }
  clear IH A'. set (c := AtrCleanupEntry atr_id (ae_attempt_id e) 0 (negb testing) (Some e)).
  assert (Hone : wp (handle_entry atr_id testing e) env (λ r a', ∃ l, at_log a' = l ++ at_log a ∧ accounted A atr_id l) a).
  { unfold handle_entry. fold c. apply wp_bind, wp_modify. cbn [bind_post]. apply wp_bind, wp_catch, wp_bind. cbn [clean].
    eapply wp_mono; [apply (check_atr_accounted c testing e A)|].
    { intros Hdue. split_and!; [by apply list_elem_of_here|done|]. intros ->. by apply Hdue. }
    intros r a1 (l & Hl & Ha). assert (Hp : ∃ l, at_log a1 = l ++ at_log a ∧ accounted A atr_id l) by (by exists l).
    destruct r as [[]|ex| |]; cbn [bind_post catch_post]; [apply wp_ret; cbn [catch_post bind_post]; by apply wp_bind, wp_gets| |done..].
    destruct ex; cbn [catches_std]; first [exact Hp|apply wp_ret; cbn [bind_post]; by apply wp_bind, wp_gets]. }
  apply wp_bind. eapply wp_mono; [exact Hone|]. intros r a1 (l & Hl & Ha).
  destruct r as [x|ex| |]; cbn [bind_post]; try (by exists l). apply wp_bind. eapply wp_mono; [apply Hrest|].
  intros r a2 (l' & Hl' & Ha'). assert (Hp : ∃ l, at_log a2 = l ++ at_log a ∧ accounted A atr_id l).
  { exists (l' ++ l). split; [by rewrite Hl', Hl, app_assoc|by apply accounted_app]. }
  destruct r; cbn [bind_post]; exact Hp.
Qed.

(** The cleaning of a record: the lookup, and what belongs to its entries *)
Lemma wp_handle_atr_cleanup atr_id testing a :
  wp (handle_atr_cleanup atr_id testing) env (λ r a', ∃ l look, at_log a' = l ++ look :: at_log a ∧
    look.1 = lookup_in atr_id get_atr_specs false ∧
    accounted (λ e i, ∃ record, record_read atr_id record look ∧ e ∈ ar_entries record ∧ i = ae_attempt_id e ∧
      (testing = false → has_expired e safety_margin_ms = Ok true)) atr_id l) a.
Proof.
  apply wp_bind, wp_get_atr_or_throw. intros r look a1 Hl1 Hget Hrec.
  assert (Hdone : ∀ A, ∃ l look', at_log a1 = l ++ look' :: at_log a ∧ look'.1 = lookup_in atr_id get_atr_specs false ∧ accounted (A look') atr_id l).
  { intros A. exists [], look. split_and!; [done..|]. by intros [] ? ? ? [=]. }
  destruct r as [[record|]|e| |]; cbn [bind_post]; [|apply wp_ret|..]; try apply (Hdone (λ look' e i, _)).
  apply wp_bind. eapply wp_mono; [apply handle_entries_accounted|]. intros r a2 (l & Hl & Ha).
  assert (Hp : ∃ l look', at_log a2 = l ++ look' :: at_log a ∧ look'.1 = lookup_in atr_id get_atr_specs false ∧
    accounted (λ e i, ∃ record, record_read atr_id record look' ∧ e ∈ ar_entries record ∧ i = ae_attempt_id e ∧
      (testing = false → has_expired e safety_margin_ms = Ok true)) atr_id l).
  { exists l, look. split_and!; [by rewrite Hl, Hl1|done|]. eapply accounted_mono; [|exact Ha].
    intros e i (H1 & H2 & H3). exists record. split_and!; auto. }
  destruct r as [x|e| |]; cbn [bind_post]; [by apply wp_ret|exact Hp..].
Qed.
End cleaning.

(** C7: The cleaning of an attempt follows its record.  Every mutation that is
    sent is about an entry that is due and that is the given one, or the one of
    this attempt in the record that was just read.  It is what remains to be
    done for a document that the entry names, sent directly behind a lookup that
    shows a staged write of this very attempt in it, and carries the CAS of that
    lookup (or is an insertion, when the lookup shows a deleted document); or it
    is the removal of the entry, which comes only after each document of the
    entry was looked up and then had nothing left, or the server accepted what
    was sent for it, or the lookup failed. *)
Theorem cleanup_follows_record `{Json, Cleanup} env c reports a r a' :
  (∀ n h, cleanup_hook_error n h = None) →
  clean c reports env a = (r, a') →
  ∃ l, at_log a' = l ++ at_log a ∧
  ∀ l2 req resp l1, l = l2 ++ (req, resp) :: l1 → is_mutation req = true →
  ∃ e, due c e ∧ entry_to_clean c l e ∧ let level := entry_level env e in
    (req = mutate_in (remove_entry_request (cl_atr_id c) e level) ∧
       Forall (done_for (cl_attempt_id c) level l1) (duties e) ∨
     ∃ look l0, l1 = look :: l0 ∧ finishes (cl_attempt_id c) level (duties e) req look).
Proof.
  intros Hh Hr. pose proof (clean_accounted env Hh c reports a) as (l & Hl & Ha). rewrite Hr in Hl. exists l. split; [done|].
  intros l2 req resp l1 Heq Hm. destruct (Ha _ _ _ _ Heq Hm) as (e & i & (-> & Hd & He) & Hcase). exists e. split_and!; done.
Qed.

(** C15: The threads that clean lost attempts touch nothing of an attempt that
    may still be running: they look a record up, and every mutation that
    follows belongs to an entry of the record as it was read whose time, with
    the margin, has passed. *)
Theorem lost_attempts_have_expired `{Json, Cleanup} env atr_id a r a' :
  (∀ n h, cleanup_hook_error n h = None) →
  handle_atr_cleanup atr_id false env a = (r, a') →
  ∃ l look, at_log a' = l ++ look :: at_log a ∧ is_mutation look.1 = false ∧
  ∀ l2 req resp l1, l = l2 ++ (req, resp) :: l1 → is_mutation req = true →
  ∃ record e, record_read atr_id record look ∧ e ∈ ar_entries record ∧ has_expired e safety_margin_ms = Ok true ∧
    let level := entry_level env e in
    (req = mutate_in (remove_entry_request atr_id e level) ∧ Forall (done_for (ae_attempt_id e) level l1) (duties e) ∨
     ∃ look l0, l1 = look :: l0 ∧ finishes (ae_attempt_id e) level (duties e) req look).
Proof.
  intros Hh Hr. pose proof (wp_handle_atr_cleanup env Hh atr_id false a) as (l & look & Hl & Hget & Ha).
  rewrite Hr in Hl. exists l, look. split_and!; [done|by rewrite Hget|].
  intros l2 req resp l1 Heq Hm. destruct (Ha _ _ _ _ Heq Hm) as (e & i & (record & Hrec & He & -> & Hx) & Hcase).
  exists record, e. split_and!; auto.
Qed.

(** ** The division of the records *)

Lemma bytes_ltb_irrefl s : bytes_ltb s s = false.
Proof. induction s as [|x s IH]; cbn; [done|]. rewrite IH, Z.ltb_irrefl. by destruct (x =? x). Qed.

Lemma bytes_ltb_cons x s y t : bytes_ltb (x :: s) (y :: t) = true ↔ x < y ∨ x = y ∧ bytes_ltb s t = true.
Proof. cbn. rewrite orb_true_iff, andb_true_iff, Z.ltb_lt, Z.eqb_eq. done. Qed.

Lemma bytes_ltb_trans s t u : bytes_ltb s t = true → bytes_ltb t u = true → bytes_ltb s u = true.
Proof.
  revert t u. induction s as [|x s IH]; intros [|y t] [|z u]; try done.
  rewrite !bytes_ltb_cons. intros [?|[-> ?]] [?|[-> ?]]; [left; lia|left; lia|left; lia|right; eauto].
Qed.

Lemma bytes_ltb_total s t : s = t ∨ bytes_ltb s t = true ∨ bytes_ltb t s = true.
Proof.
  revert t. induction s as [|x s IH]; intros [|y t]; [auto..|]. rewrite !bytes_ltb_cons.
  destruct (Z.lt_trichotomy x y) as [?|[->|?]]; [auto| |auto]. destruct (IH t) as [->|[?|?]]; auto.
Qed.

#[export] Instance bytes_le_antisymm : AntiSymm eq bytes_le.
Proof. intros s t Hs Ht. unfold bytes_le in *. destruct (bytes_ltb_total s t) as [?|[?|?]]; congruence. Qed.

#[export] Instance bytes_le_trans : Transitive bytes_le.
Proof.
  intros s t u Hs Ht. unfold bytes_le in *. destruct (bytes_ltb u s) eqn:Hu; [|done].
  destruct (bytes_ltb_total s t) as [->|[Hst|?]]; [congruence| |congruence].
  by rewrite (bytes_ltb_trans _ _ _ Hu Hst) in Ht.
Qed.

#[export] Instance bytes_le_total : Total bytes_le.
Proof.
  intros s t. unfold bytes_le. destruct (bytes_ltb t s) eqn:Hts; [right|by left]. destruct (bytes_ltb s t) eqn:Hst; [|done].
  pose proof (bytes_ltb_trans _ _ _ Hst Hts). by rewrite bytes_ltb_irrefl in *.
Qed.

Lemma sort_uids_perm uids uids' : uids ≡ₚ uids' → sort_uids uids = sort_uids uids'.
Proof.
  intros Hp. apply (StronglySorted_unique bytes_le); try apply (StronglySorted_merge_sort bytes_le).
  unfold sort_uids. by rewrite !(merge_sort_Permutation bytes_le).
Qed.

Lemma index_of_lookup u uids : u ∈ uids → uids !! index_of u uids = Some u.
Proof.
  intros Hu. unfold index_of. destruct (list_find _ uids) as [[i x]|] eqn:Hf; cbn.
  - apply list_find_Some in Hf as (Hi & -> & _). done.
  - eapply list_find_None, Forall_forall in Hf; [|exact Hu]. done.
Qed.

(** The positions at which a round of the client starts and steps *)
Definition visits (d : client_record_details) (pos : Z) : Prop :=
  ∃ n : nat, pos = cd_index_of_this_client d + Z.of_nat n * cd_num_active_clients d.

Lemma details_of_active actives u now s :
  u ∈ actives → zsize actives < 2 ^ 32 → sc_active s ≡ₚ actives →
  let sorted := sort_uids actives in
  cd_num_active_clients (client_details u now s) = zsize sorted ∧
  cd_index_of_this_client (client_details u now s) = Z.of_nat (index_of u sorted).
Proof.
  intros Hu Hn Hp sorted.
  assert (Ha : active_clients u s = sorted).
  { unfold active_clients. rewrite decide_True by (by rewrite Hp). by apply sort_uids_perm. }
  assert (Hlen : zsize sorted = zsize actives) by (unfold zsize, sorted, sort_uids; by rewrite (merge_sort_Permutation bytes_le)).
  assert (Hi : sorted !! index_of u sorted = Some u).
  { apply index_of_lookup. unfold sorted, sort_uids. by rewrite (merge_sort_Permutation bytes_le). }
  apply lookup_lt_Some in Hi. cbn. rewrite Ha. unfold zsize, u32 in *. rewrite !Z.mod_small by lia. done.
Qed.

(** C16: The clients that see each other divide the records: whatever order
    each reads the active clients in, every position is visited by one of them
    and by no other. *)
Theorem records_divided actives (now : bytes → Z) (scans : bytes → client_scan) pos :
  NoDup actives → actives ≠ [] → zsize actives < 2 ^ 32 → (∀ u, u ∈ actives → sc_active (scans u) ≡ₚ actives) → 0 ≤ pos →
  ∃ u, u ∈ actives ∧ visits (client_details u (now u) (scans u)) pos ∧
    ∀ u', u' ∈ actives → visits (client_details u' (now u') (scans u')) pos → u' = u.
Proof.
  intros Hnd Hne Hn Hs Hpos. set (sorted := sort_uids actives).
  assert (Hperm : sorted ≡ₚ actives) by apply (merge_sort_Permutation bytes_le).
  assert (Hnz : 0 < zsize sorted).
  { unfold zsize. rewrite Hperm. destruct actives; [done|cbn; lia]. }
  assert (Hvisits : ∀ u, u ∈ actives → visits (client_details u (now u) (scans u)) pos ↔ sorted !! Z.to_nat (pos mod zsize sorted) = Some u).
  { intros u Hu. destruct (details_of_active actives u (now u) (scans u) Hu Hn (Hs u Hu)) as [Hnum Hidx].
    fold sorted in Hnum, Hidx. unfold visits. rewrite Hnum, Hidx.
    assert (Hi : sorted !! index_of u sorted = Some u) by (apply index_of_lookup; by rewrite Hperm).
    pose proof (lookup_lt_Some _ _ _ Hi) as Hlt. split.
    - intros [n ->]. rewrite Z.mod_add, Z.mod_small by (unfold zsize in *; lia). by rewrite Nat2Z.id.
    - intros Hp. assert (Heq : index_of u sorted = Z.to_nat (pos mod zsize sorted)).
      { eapply NoDup_lookup; [|exact Hi|exact Hp]. by rewrite Hperm. }
      exists (Z.to_nat (pos / zsize sorted)). rewrite Heq, !Z2Nat.id by (apply Z.div_pos || apply Z.mod_pos_bound; lia).
      pose proof (Z.div_mod pos (zsize sorted)). lia. }
  destruct (lookup_lt_is_Some_2 sorted (Z.to_nat (pos mod zsize sorted))) as [u Hu].
  { pose proof (Z.mod_pos_bound pos (zsize sorted) Hnz). unfold zsize in *. lia. }
  assert (Hin : u ∈ actives) by (rewrite <-Hperm; by eapply list_elem_of_lookup_2).
  exists u. split_and!; [done|by apply Hvisits|]. intros u' Hin' Hv. apply Hvisits in Hv; congruence.
Qed.

(** ** A round *)

Section round.
Context `{Json, Cleanup} (env : environment).

Lemma total_throw_on_hook h : total env (throw_on_hook h).
Proof. unfold throw_on_hook, throw_if. total_walk. Qed.
Lemma total_running : total env still_running.
Proof. apply total_question. Qed.
Lemma total_wrap r ignore : total env (wrap_operation_future r ignore).
Proof. unfold wrap_operation_future, validate_operation_result. repeat case_match; simplify_eq; total_walk. Qed.
Hint Resolve total_throw_on_hook total_running total_wrap : total.

Lemma total_perform req subdoc : total env (perform_request req subdoc).
Proof. unfold perform_request. total_walk. Qed.
Hint Resolve total_perform : total.

Lemma total_catch_client {A} (m : txn A) h : total env m → (∀ e, total env (h e)) → total env (catch_client_error m h).
Proof. intros Hm Hh. apply total_catch; [done|]. intros e m' Hm'. destruct e; simplify_eq; apply Hh. Qed.

Lemma total_catch_std {A} (m m' : txn A) : total env m → total env m' → total env (catch m (catches_std m')).
Proof. intros Hm Hm'. apply total_catch; [done|]. intros e h Hh. destruct e; by simplify_eq/=. Qed.

Lemma total_per_doc attempt_id crc call docs :
  (∀ doc deleted, total env (call doc deleted)) → total env (do_per_doc attempt_id crc call docs).
Proof.
  intros Hcall. induction docs as [|d docs IH]; cbn [do_per_doc]; [apply total_ret|]. apply total_bind; [|by intros _].
  apply total_catch_client; [total_walk; apply Hcall|]. intros e. total_walk.
Qed.

Lemma total_with_docs docs f : (∀ docs, total env (f docs)) → total env (with_docs docs f).
Proof. intros Hf. destruct docs; [apply Hf|apply total_ret]. Qed.

Lemma total_cleanup_docs attempt_id e dl : total env (cleanup_docs attempt_id e dl).
Proof.
  unfold cleanup_docs, commit_docs, remove_docs, remove_docs_staged_for_removal, remove_txn_links.
  destruct (ae_state e); total_walk; apply total_with_docs; intros docs; apply total_per_doc; intros doc deleted;
    unfold commit_staged, remove_inserted, remove_staged_for_removal, remove_links; total_walk.
Qed.
Hint Resolve total_cleanup_docs : total.

Lemma settled_has_expired e margin : settled (has_expired e margin).
Proof. unfold has_expired. settled_walk. Qed.
Hint Resolve settled_has_expired : settled.

Lemma total_cleanup_entry atr_id e dl : total env (cleanup_entry atr_id e dl).
Proof. apply total_catch_client; [total_walk|]. intros err. total_walk. Qed.
Hint Resolve total_cleanup_entry : total.

Lemma total_check_atr c reports e : total env (check_atr_and_cleanup c reports e).
Proof. unfold check_atr_and_cleanup, throw_failed. total_walk. Qed.

Lemma total_get_atr_or_throw atr_id : total env (get_atr_or_throw atr_id).
Proof. unfold get_atr_or_throw, get_atr. total_walk. Qed.

Lemma total_handle_entries atr_id testing entries : total env (handle_entries atr_id testing entries).
Proof.
  induction entries as [|e entries IH]; cbn [handle_entries]; [apply total_ret|]. apply total_bind; [|intros r; total_walk].
  unfold handle_entry. apply total_bind; [total_walk|]. intros _. apply total_bind; [|intros success; total_walk].
  apply total_catch_std; [|apply total_ret]. apply total_bind; [apply total_check_atr|intros _; apply total_ret].
Qed.

Lemma total_handle_atr atr_id testing : total env (handle_atr_cleanup atr_id testing).
Proof. pose proof (total_get_atr_or_throw atr_id). pose proof (total_handle_entries atr_id testing). unfold handle_atr_cleanup. total_walk. Qed.

(** The lookup of the record at a position *)
Definition looks_up (k : transaction_keyspace) (pos : Z) (look : log_entry) : Prop :=
  ∃ atr_id, ATR_IDS !! Z.to_nat pos = Some atr_id ∧
    look.1 = lookup_in (document_id_in (ks_bucket k) (ks_scope k) (ks_collection k) (ascii atr_id)) get_atr_specs false.

(** What a round from position [it] on does *)
Definition covers (k : transaction_keyspace) (step it : Z) (a : attempt) (r : outcome exn bool) (a' : attempt) : Prop :=
  settled r ∧ ∃ l, at_log a' = l ++ at_log a ∧
    (r = Ok true → ∀ n : nat, it + Z.of_nat n * step < zsize ATR_IDS → Exists (looks_up k (it + Z.of_nat n * step)) l).

Lemma wp_round_record (Hhooks : ∀ n h, cleanup_hook_error n h = None) k pos atr_id a :
  ATR_IDS !! Z.to_nat pos = Some atr_id →
  wp (catch (_ ← handle_atr_cleanup (document_id_in (ks_bucket k) (ks_scope k) (ks_collection k) (ascii atr_id)) false; mret tt)
        (catches_std (mret tt))) env
    (λ r a', settled r ∧ ∃ l, at_log a' = l ++ at_log a ∧ Exists (looks_up k pos) l) a.
Proof.
  intros Hat. set (id := document_id_in _ _ _ _). set (m := catch _ _).
  assert (Ht : total env m).
  { apply total_catch_std; [|apply total_ret]. apply total_bind; [apply total_handle_atr|intros _; apply total_ret]. }
  assert (Hl : wp m env (λ r a', ∃ l, at_log a' = l ++ at_log a ∧ Exists (looks_up k pos) l) a).
  { apply wp_catch, wp_bind. eapply wp_mono; [apply (wp_handle_atr_cleanup env Hhooks)|].
    intros r a1 (l & look & Hl & Hget & _).
    assert (Hp : ∃ l, at_log a1 = l ++ at_log a ∧ Exists (looks_up k pos) l).
    { exists (l ++ [look]). split; [by rewrite <-app_assoc|]. apply Exists_app. right. apply Exists_cons. left. by exists atr_id. }
    destruct r as [x|e| |]; cbn [bind_post catch_post]; [by apply wp_ret| |done..].
    destruct e; cbn [catches_std]; try exact Hp; by apply wp_ret. }
  specialize (Ht a). unfold wp in *. by destruct Ht.
Qed.

Lemma wp_wait_for_budget left (Q : outcome exn bool → attempt → Prop) a :
  (∀ b a', at_log a' = at_log a → Q (Ok b) a') → wp (wait_for_budget left) env Q a.
Proof. intros HQ. unfold wait_for_budget. destruct (_ && _); [apply wp_question|apply wp_ret]; by apply HQ. Qed.

Lemma covers_end k step it a a' : zsize ATR_IDS ≤ it → 1 ≤ step → at_log a' = at_log a → covers k step it a (Ok true) a'.
Proof. intros Hit Hstep Hl. split; [done|]. exists []. split; [done|]. intros _ n Hn. nia. Qed.

Lemma covers_stop k step it a a' r l :
  settled r → r ≠ Ok true → at_log a' = l ++ at_log a → covers k step it a r a'.
Proof. intros Hr Hne Hl. split; [done|]. by exists l. Qed.

Lemma covers_step k step it a a1 a' l r :
  at_log a1 = l ++ at_log a → Exists (looks_up k it) l → covers k step (it + step) a1 r a' → covers k step it a r a'.
Proof.
  intros Hl Hx [Hr (l' & Hl' & Hc)]. split; [done|]. exists (l' ++ l). split; [by rewrite Hl', Hl, app_assoc|].
  intros Hok [|n] Hn; apply Exists_app; [right|left].
  - by rewrite Z.add_0_r.
  - replace (it + Z.of_nat (S n) * step) with (it + step + Z.of_nat n * step) in * by lia. by apply Hc.
Qed.

Lemma visit_records_covers (Hhooks : ∀ n h, cleanup_hook_error n h = None) k start step fuel it a :
  1 ≤ step → 0 ≤ it → zsize ATR_IDS - it < Z.of_nat fuel → (0 < fuel)%nat →
  wp (visit_records fuel k start step it) env (covers k step it a) a.
Proof.
  intros Hstep. revert it a. induction fuel as [|fuel IH]; intros it a Hit Hfuel Hpos; [lia|]. cbn [visit_records].
  destruct (Z.leb_spec (zsize ATR_IDS) it) as [Hend|Hin]; [by apply wp_ret, covers_end|].
  apply wp_bind, wp_question. cbn [bind_post]. apply wp_bind, wp_question. cbn [bind_post].
  destruct (is_running _); cbn [negb]; [|by apply wp_ret, (covers_stop _ _ _ _ _ _ [])].
  destruct (lookup_lt_is_Some_2 ATR_IDS (Z.to_nat it)) as [atr_id Hat]; [unfold zsize in *; lia|].
  unfold at_. rewrite decide_True, Hat by done. cbn [lift]. apply wp_bind, wp_ret. cbn [bind_post].
  apply wp_bind. eapply wp_mono; [by apply wp_round_record|]. intros r a1 (Hr & l & Hl & Hx).
  destruct r as [x|e| |]; cbn [bind_post]; [|by apply (covers_stop _ _ _ _ _ _ l)..].
  apply wp_bind, wp_question. cbn [bind_post]. apply wp_bind, wp_wait_for_budget. intros b a2 Hl2. cbn [bind_post].
  assert (Hl2' : at_log a2 = l ++ at_log a) by (by rewrite Hl2).
  destruct b; [|by apply wp_ret, (covers_stop _ _ _ _ _ _ l)].
  eapply wp_mono; [apply IH; lia|]. intros r a3 Hc. by eapply covers_step.
Qed.
End round.

(** ** Exceptions *)

(** Only types derived from [std::exception] are thrown. *)
Definition raises_std {A} (m : txn A) : Prop := ∀ env a, (m env a).1 ≠ Err unknown_exception.

Section raises.
Context `{Json, Cleanup}.

Lemma raises_ret {A} (x : A) : raises_std (mret x).
Proof. done. Qed.
Lemma raises_throw {A} e : e ≠ unknown_exception → raises_std (throw (A:=A) e).
Proof. intros He env a [= ?]. done. Qed.
Lemma raises_fault {A} : raises_std (fault (A:=A)).
Proof. done. Qed.
Lemma raises_gets {A} (f : attempt → A) : raises_std (gets f).
Proof. done. Qed.
Lemma raises_asks {A} (f : environment → A) : raises_std (asks f).
Proof. done. Qed.
Lemma raises_question {A} (f : environment → nat → A) : raises_std (question f).
Proof. done. Qed.
Lemma raises_execute req : raises_std (execute req).
Proof. done. Qed.
Lemma raises_modify f : raises_std (modify f).
Proof. done. Qed.
Lemma raises_lift {A} (o : thrown A) : raises_std (lift o).
Proof. by destruct o. Qed.
Lemma raises_bind {A B} (m : txn A) (f : A → txn B) : raises_std m → (∀ x, raises_std (f x)) → raises_std (m ≫= f).
Proof.
  intros Hm Hf env a. unfold mbind, txn_bind. specialize (Hm env a). destruct (m env a) as [[x|e| |] a']; cbn in *; [apply Hf|congruence|done..].
Qed.
Lemma raises_catch {A} (m : txn A) h :
  raises_std m → (∀ e m', h e = Some m' → raises_std m') → raises_std (catch m h).
Proof.
  intros Hm Hh env a. unfold catch. specialize (Hm env a). destruct (m env a) as [[x|e| |] a']; cbn in *; [done| |done..].
  destruct (h e) as [m'|] eqn:He; [by eapply Hh|exact Hm].
Qed.
Lemma raises_catch_client {A} (m : txn A) h : raises_std m → (∀ e, raises_std (h e)) → raises_std (catch_client_error m h).
Proof. intros Hm Hh. apply raises_catch; [done|]. intros e m' Hm'. destruct e; simplify_eq; apply Hh. Qed.
Lemma raises_wrap r ignore : raises_std (wrap_operation_future r ignore).
Proof. intros env a. unfold wrap_operation_future. by destruct (validate_operation_result r ignore). Qed.
Lemma raises_throw_if ec : raises_std (throw_if ec).
Proof. by destruct ec. Qed.
End raises.

Create HintDb raises discriminated.
#[export] Hint Resolve raises_ret raises_fault raises_gets raises_asks raises_question raises_execute raises_modify raises_lift
  raises_wrap raises_throw_if : raises.
#[export] Hint Extern 1 (raises_std (throw _)) => (by apply raises_throw) : raises.

Ltac raises_walk :=
  repeat (match goal with
  | |- raises_std (mbind _ _) => apply raises_bind; [|intros ?]
  | |- raises_std (catch_client_error _ _) => apply raises_catch_client; [|intros ?]
  | |- raises_std (match ?x with _ => _ end) => destruct x
  | |- raises_std (if ?x then _ else _) => destruct x
  end || solve [eauto with raises nocore] || (progress cbn beta iota zeta)).

Section raises_cleanup.
Context `{Json, Cleanup}.

Lemma raises_request req subdoc : raises_std (perform_request req subdoc).
Proof. unfold perform_request. raises_walk. Qed.
Lemma raises_hook h : raises_std (throw_on_hook h).
Proof. unfold throw_on_hook. raises_walk. Qed.
Hint Resolve raises_request raises_hook : raises.

Lemma raises_per_doc attempt_id crc call docs :
  (∀ doc deleted, raises_std (call doc deleted)) → raises_std (do_per_doc attempt_id crc call docs).
Proof.
  intros Hcall. induction docs as [|d docs IH]; cbn [do_per_doc]; [apply raises_ret|]. apply raises_bind; [|done].
  unfold per_doc. raises_walk.
Qed.

Lemma raises_cleanup_docs attempt_id e dl : raises_std (cleanup_docs attempt_id e dl).
Proof.
  unfold cleanup_docs, commit_docs, remove_docs, remove_docs_staged_for_removal, remove_txn_links, with_docs.
  raises_walk; apply raises_per_doc; intros doc deleted;
    unfold commit_staged, remove_inserted, remove_staged_for_removal, remove_links; raises_walk.
Qed.
Lemma raises_cleanup_entry atr_id e dl : raises_std (cleanup_entry atr_id e dl).
Proof. unfold cleanup_entry. raises_walk. Qed.
Hint Resolve raises_cleanup_docs raises_cleanup_entry : raises.

Lemma raises_clean c reports : raises_std (clean c reports).
Proof. unfold clean, check_atr_and_cleanup, get_atr_or_throw, get_atr, throw_failed. raises_walk. Qed.

Lemma raises_entries atr_id testing entries : raises_std (handle_entries atr_id testing entries).
Proof.
  pose proof raises_clean as Hclean. induction entries as [|e entries IH]; cbn [handle_entries]; [apply raises_ret|].
  apply raises_bind; [|intros r; raises_walk]. unfold handle_entry. apply raises_bind; [apply raises_modify|intros _].
  apply raises_bind; [|intros success; raises_walk].
  apply raises_catch; [apply raises_bind; [apply Hclean|intros _; apply raises_ret]|].
  intros [] m' [= <-]; apply raises_ret.
Qed.

Lemma raises_atr atr_id testing : raises_std (handle_atr_cleanup atr_id testing).
Proof. pose proof raises_entries. unfold handle_atr_cleanup, get_atr_or_throw, get_atr. raises_walk. Qed.

(** Behind the handler of a record nothing is thrown any more. *)
Lemma record_throws_nothing atr_id env a e :
  (catch (_ ← handle_atr_cleanup atr_id false; mret tt) (catches_std (mret tt)) env a).1 ≠ Err e.
Proof.
  assert (Hr : raises_std (_ ← handle_atr_cleanup atr_id false; mret tt))
    by (apply raises_bind; [apply raises_atr|intros _; apply raises_ret]).
  specialize (Hr env a). unfold catch. destruct ((_ ← handle_atr_cleanup atr_id false; mret tt) env a) as [[x|e'| |] a']; cbn in *; try done.
  by destruct e'.
Qed.

(** What a round may end with *)
Lemma visit_records_ends env k start step fuel it a :
  0 ≤ it → 1 ≤ step →
  let r := (visit_records fuel k start step it env a).1 in
  (∀ e, r ≠ Err e) ∧ ((∀ n, is_running n = true) → r = Ok true ∨ r = Fault ∨ r = Diverge).
Proof.
  intros Hit Hstep r. enough (Hwp : wp (visit_records fuel k start step it) env (λ r _, (∀ e, r ≠ Err e) ∧
    ((∀ n, is_running n = true) → r = Ok true ∨ r = Fault ∨ r = Diverge)) a) by exact Hwp.
  clear r. revert it a Hit. induction fuel as [|fuel IH]; intros it a Hit; cbn [visit_records]; [by apply wp_diverge; split; auto|].
  destruct (Z.leb_spec (zsize ATR_IDS) it) as [Hend|Hin]; [apply wp_ret; auto|].
  apply wp_bind, wp_question. cbn [bind_post]. apply wp_bind, wp_question. cbn [bind_post].
  destruct (is_running _) eqn:Hrun; cbn [negb]; [|apply wp_ret; split; [done|intros Hall; by rewrite Hall in Hrun]].
  destruct (lookup_lt_is_Some_2 ATR_IDS (Z.to_nat it)) as [atr_id Hat]; [unfold zsize in *; lia|].
  unfold at_. rewrite decide_True, Hat by done. cbn [lift]. apply wp_bind, wp_ret. cbn [bind_post]. apply wp_bind.
  match goal with |- wp ?m _ _ ?a1 => unfold wp; pose proof (record_throws_nothing (document_id_in (ks_bucket k) (ks_scope k) (ks_collection k) (ascii atr_id)) env a1) as Hno;
    destruct (m env a1) as [[x|e| |] a2] end; cbn [fst snd] in *; [|by destruct (Hno e)|cbn; auto..].
  cbn [bind_post]. apply wp_bind, wp_question. cbn [bind_post]. apply wp_bind. unfold wait_for_budget.
  match goal with |- wp (if ?c then _ else _) _ _ _ => destruct c end; [apply wp_question|apply wp_ret]; cbn [bind_post];
    [|apply IH; lia].
  match goal with |- wp (if ?b then _ else _) _ _ _ => destruct b eqn:Hrun' end; [apply IH; lia|]. apply wp_ret. split; [done|]. intros Hall. by rewrite Hall in Hrun'.
Qed.
End raises_cleanup.

(** C27: A round over the records ends, and nothing that is thrown escapes from
    it.  When it goes through, it has looked up the record at every position
    that falls to the client; and it does go through, whatever the lookups and
    the cleaning of entries run into, unless the threads are stopped or an
    answer ends the process (a field that is missing, a requirement the client
    does not know). *)
Theorem round_covers `{Json, Cleanup} env k start d a r a' :
  (∀ n h, cleanup_hook_error n h = None) → 1 ≤ cd_num_active_clients d → 0 ≤ cd_index_of_this_client d →
  visit_records (S (length ATR_IDS)) k start (cd_num_active_clients d) (cd_index_of_this_client d) env a = (r, a') →
  r ≠ Diverge ∧ (∀ e, r ≠ Err e) ∧
  (r = Ok true → ∃ l, at_log a' = l ++ at_log a ∧
    ∀ pos, visits d pos → pos < zsize ATR_IDS → Exists (looks_up k pos) l) ∧
  ((∀ n, is_running n = true) → r = Ok true ∨ r = Fault).
Proof.
  intros Hh Hnum Hidx Hr.
  pose proof (visit_records_covers env Hh k start _ (S (length ATR_IDS)) _ a Hnum Hidx) as Hwp. unfold wp in Hwp. rewrite Hr in Hwp.
  destruct Hwp as [Hs (l & Hl & Hc)]; [unfold zsize; lia|lia|].
  pose proof (visit_records_ends env k start (cd_num_active_clients d) (S (length ATR_IDS)) (cd_index_of_this_client d) a Hidx Hnum) as [He Hg].
  rewrite Hr in He, Hg. cbn [fst] in He, Hg. split_and!; [exact Hs|exact He| |].
  - intros Hok. exists l. split; [done|]. intros pos [n ->] Hlt. by apply Hc.
  - intros Hall. destruct (Hg Hall) as [?|[?|?]]; [by left|by right|by destruct Hs].
Qed.

(** ** The queue *)

(** What is popped has the least time; the others stay. *)
Lemma pop_top_least queue :
  match pop_top queue with
  | Some (top, rest) => queue ≡ₚ top :: rest ∧ Forall (λ c, cl_min_start_time top ≤ cl_min_start_time c) rest
  | None => queue = []
  end.
Proof.
  induction queue as [|c queue IH]; cbn; [done|]. destruct (pop_top queue) as [[top rest]|]; [|by subst; split; [|constructor]].
  destruct IH as [Hp Hle]. destruct (Z.ltb_spec (cl_min_start_time top) (cl_min_start_time c)) as [Hlt|Hge].
  - split; [rewrite Hp; constructor|constructor; [lia|done]].
  - split; [done|]. rewrite Hp. constructor; [done|]. eapply Forall_impl; [exact Hle|]. cbn. lia.
Qed.

(** The level of an entry is the one of the attempt that wrote it. *)
Lemma durability_level_read level :
  0 ≤ level ≤ 3 → store_string_to_durability_level (store_durability_level_to_string level) = level.
Proof.
  intros Hl. assert (level = 0 ∨ level = 1 ∨ level = 2 ∨ level = 3) as [->|[->|[->| ->]]] by lia; reflexivity.
Qed.

(** ** Examples *)

(** A document that attempt [97] inserted, with the body it was staged on, and
    the record of the attempt, which is committed and out of time *)
#[local] Instance example_cleaning : Json :=
  table_json (<[4%nat := ([4], JString [3])]> example_table ++
    [([50], JObject [([97], JObject [(ATR_FIELD_STATUS, JString (attempt_state_name AttemptState.COMMITTED));
                                     (ATR_FIELD_DOCS_INSERTED, documents_json INSERT [example_mutation])])]);
     ([51], JObject [(ascii "HLC", JObject [(ascii "now", JString (ascii "100"))])])]).
#[local] Instance example_threads : Cleanup :=
  {| cleanup_hook_error _ _ := None; is_running _ := true; cleanup_window := 60000;
     cleanup_client_attempts := true; cleanup_lost_attempts := true |}.

Definition example_cleaned : attempt := fresh_attempt [120] (pending_attempt []).
Definition example_server : environment := calm_environment example_answer.
Definition example_own : atr_cleanup_entry := AtrCleanupEntry (document_id_of_key [98] [114]) [97] 0 false None.
Definition example_clean := clean example_own false example_server example_cleaned.
Definition example_lost := handle_atr_cleanup (document_id_of_key [98] [114]) false example_server example_cleaned.

(** The lookup of the record, that of the document, its commit, and the removal
    of the entry *)
Lemma cleanup_follows_record_witness :
  map (λ e, is_mutation e.1) (at_log example_clean.2) = [true; true; false; false] ∧
  ∃ l, at_log example_clean.2 = l ++ [] ∧ ∀ l2 req resp l1, l = l2 ++ (req, resp) :: l1 → is_mutation req = true →
    ∃ e, due example_own e ∧ entry_to_clean example_own l e ∧ let level := entry_level example_server e in
      (req = mutate_in (remove_entry_request (cl_atr_id example_own) e level) ∧ Forall (done_for [97] level l1) (duties e) ∨
       ∃ look l0, l1 = look :: l0 ∧ finishes [97] level (duties e) req look).
Proof.
  split; [by vm_compute|].
  apply (cleanup_follows_record example_server example_own false example_cleaned example_clean.1 example_clean.2); [done|].
  unfold example_clean. apply surjective_pairing.
Defined.

Lemma lost_attempts_have_expired_witness :
  map (λ e, is_mutation e.1) (at_log example_lost.2) = [true; true; false; false] ∧
  ∃ l look, at_log example_lost.2 = l ++ look :: [] ∧ is_mutation look.1 = false ∧
  ∀ l2 req resp l1, l = l2 ++ (req, resp) :: l1 → is_mutation req = true →
  ∃ record e, record_read (document_id_of_key [98] [114]) record look ∧ e ∈ ar_entries record ∧
    has_expired e safety_margin_ms = Ok true ∧ let level := entry_level example_server e in
    (req = mutate_in (remove_entry_request (document_id_of_key [98] [114]) e level) ∧
       Forall (done_for (ae_attempt_id e) level l1) (duties e) ∨
     ∃ look l0, l1 = look :: l0 ∧ finishes (ae_attempt_id e) level (duties e) req look).
Proof.
  split; [by vm_compute|].
  apply (lost_attempts_have_expired example_server (document_id_of_key [98] [114]) example_cleaned example_lost.1 example_lost.2); [done|].
  unfold example_lost. apply surjective_pairing.
Defined.

(** Three clients, which read each other in different orders *)
Definition example_scan (u : bytes) : client_scan :=
  ClientScan false 0 (if decide (u = [50]) then [[52]; [50]; [51]] else [[51]; [52]; [50]]) [].
Lemma records_divided_witness :
  ∃ u, u ∈ [[50]; [51]; [52]] ∧ visits (client_details u 0 (example_scan u)) 1000 ∧
    ∀ u', u' ∈ [[50]; [51]; [52]] → visits (client_details u' 0 (example_scan u')) 1000 → u' = u.
Proof.
  apply (records_divided [[50]; [51]; [52]] (λ _, 0) example_scan 1000); [..|lia].
  - by vm_compute; repeat constructor; set_solver.
  - done.
  - by vm_compute.
  - intros u Hu. unfold example_scan; cbn [sc_active]. case_decide; by apply (bool_decide_unpack _); vm_compute.
Defined.

Definition example_keyspace : transaction_keyspace := TransactionKeyspace [98] [115] [99].
Definition example_details : client_record_details := client_details [50] 0 (example_scan [50]).
Definition example_round := visit_records (S (length ATR_IDS)) example_keyspace 0 3 0
  (calm_environment (λ _ _, response_error (errc_key_value KeyValue.document_not_found))) example_cleaned.
Lemma round_covers_witness :
  example_round.1 = Ok true ∧ ∃ l, at_log example_round.2 = l ++ [] ∧
    ∀ pos, visits example_details pos → pos < zsize ATR_IDS → Exists (looks_up example_keyspace pos) l.
Proof.
  destruct (round_covers (calm_environment (λ _ _, response_error (errc_key_value KeyValue.document_not_found))) example_keyspace 0
    example_details example_cleaned example_round.1 example_round.2) as (_ & _ & Hl & _).
  - done.
  - by vm_compute.
  - by vm_compute.
  - unfold example_round. apply surjective_pairing.
  - assert (Hok : example_round.1 = Ok true) by (vm_compute; reflexivity). split; [exact Hok|]. by apply Hl.
Defined.
