(* ===== verification/RangeScanData.v ===== *)
(** * Range scans: options and data

    [core/range_scan_options.hxx], the snapshots of
    [core/range_scan_orchestrator.cxx], and the requests and responses of
    [core/crud_component.cxx]: what a scan of a vbucket asks for, and how the
    items in the answers are read. *)

From S2P Require Import Prelude ByteOrder Protocol BufferWriter Leb128 McbpParser Base64 Topology TransactionLinks.

(** ** Options *)

Record scan_term := ScanTerm { st_term : bytes; st_exclusive : bool }.
Record range_scan := RangeScan { rs_from : option scan_term; rs_to : option scan_term }.
Record sampling_scan := SamplingScan { ss_limit : Z; ss_seed : option Z }.

(** [std::variant<std::monostate, range_scan, prefix_scan, sampling_scan>] *)
Inductive scan_type :=
  | no_scan
  | a_range_scan (r : range_scan)
  | a_prefix_scan (prefix : bytes)
  | a_sampling_scan (s : sampling_scan).

Definition max_suffix : bytes := [0xf4; 0x8f; 0xfb; 0xfb].

(** [prefix_scan::to_range_scan] *)
Definition to_range_scan (prefix : bytes) : range_scan :=
  RangeScan (Some (ScanTerm prefix false)) (Some (ScanTerm (prefix ++ max_suffix) false)).

Record range_snapshot_requirements := SnapshotRequirements {
  sr_vbucket_uuid : Z;
  sr_sequence_number : Z;
  sr_sequence_number_exists : bool;
}.

(** The tokens of [mutation_state]; the names of their buckets are not read. *)
Record state_token := StateToken { tok_uuid : Z; tok_sequence_number : Z; tok_partition : Z }.

Definition require_token (m : gmap Z range_snapshot_requirements) (t : state_token) : gmap Z range_snapshot_requirements :=
  match m !! tok_partition t with
  | Some r =>
      if sr_sequence_number r <? tok_sequence_number t
      then <[tok_partition t := SnapshotRequirements (tok_uuid t) (tok_sequence_number t) false]> m else m
  | None => <[tok_partition t := SnapshotRequirements (tok_uuid t) (tok_sequence_number t) false]> m
  end.

Definition mutation_state_to_snapshot_requirements (state : option (list state_token)) : gmap Z range_snapshot_requirements :=
  match state with None => ∅ | Some tokens => foldl require_token ∅ tokens end.

Record range_scan_create_options := CreateOptions {
  co_scope_name : bytes;
  co_collection_name : bytes;
  co_scan_type : scan_type;
  co_timeout : Z;                                (** in milliseconds *)
  co_collection_id : Z;
  co_snapshot_requirements : option range_snapshot_requirements;
  co_ids_only : bool;
}.

Record range_scan_continue_options := ContinueOptions {
  no_batch_item_limit : Z;
  no_batch_byte_limit : Z;
  no_batch_time_limit : Z;                       (** in milliseconds *)
  no_timeout : Z;
}.

(** ** Requests *)

(** [fmt::format("{:x}", n)] *)
Fixpoint hexadecimal_digits (fuel : nat) (n : Z) (acc : bytes) : bytes :=
  match fuel with
  | O => acc
  | S fuel =>
      let acc := hex_digit (n mod 16) :: acc in
      if decide (n < 16) then acc else hexadecimal_digits fuel (n / 16) acc
  end.
Definition hexadecimal (n : Z) : bytes := hexadecimal_digits 16 n [].

Definition key_value_scan_timeout : Z := 75000.

Section requests.
Context `{Json}.

(** [base64::encode] throws nothing that is caught here. *)
Definition term_member (exclusive inclusive : bytes) (t : scan_term) : outcome error_code (bytes * json) :=
  match Base64.encode (st_term t) false with
  | Ok text => Ok (if st_exclusive t then exclusive else inclusive, JString text)
  | Err _ | Fault => Fault
  | Diverge => Diverge
  end.

Definition range_member (r : range_scan) : outcome error_code (bytes * json) :=
  let from := default (ScanTerm [] false) (rs_from r) in
  let to := default (ScanTerm max_suffix false) (rs_to r) in
  from ← term_member (ascii "excl_start") (ascii "start") from;
  to ← term_member (ascii "excl_end") (ascii "end") to;
  Ok (ascii "range", JObject (json_members [from; to])).

(** [random]: the seed that is drawn when there is none *)
Definition scan_member (random : Z) (t : scan_type) : outcome error_code (bytes * json) :=
  match t with
  | a_range_scan r => range_member r
  | a_prefix_scan prefix => range_member (to_range_scan prefix)
  | a_sampling_scan s =>
      if decide (ss_limit s <= 0) then Err (errc_common Common.invalid_argument)
      else Ok (ascii "sampling", JObject (json_members
             [(ascii "samples", JNumber (ss_limit s)); (ascii "seed", JNumber (default random (ss_seed s)))]))
  | no_scan => Err (errc_common Common.invalid_argument)
  end.

Definition snapshot_member (timeout : Z) (s : range_snapshot_requirements) : bytes * json :=
  (ascii "snapshot_requirements", JObject (json_members
     ([(ascii "vb_uuid", JString (decimal (sr_vbucket_uuid s))); (ascii "seqno", JNumber (sr_sequence_number s));
       (ascii "timeout_ms", JNumber (if decide (timeout = 0) then key_value_scan_timeout else timeout))] ++
      (if sr_sequence_number_exists s then [(ascii "seqno_exists", JBool true)] else [])))).

Definition serialize_range_scan_create_options (random : Z) (o : range_scan_create_options) : outcome error_code bytes :=
  scan ← scan_member random (co_scan_type o);
  Ok (jsonify (JObject (json_members
        ((if co_ids_only o then [(ascii "key_only", JBool true)] else []) ++
         (if decide (co_collection_id o ≠ 0) then [(ascii "collection", JString (hexadecimal (co_collection_id o)))] else []) ++
         [scan] ++
         option_list (snapshot_member (co_timeout o) <$> co_snapshot_requirements o))))).
End requests.

(** The extras of [range_scan_continue]; [gsl::narrow_cast] truncates. *)
Definition continue_extras (scan_uuid : bytes) (o : range_scan_continue_options) : outcome error_code bytes :=
  if decide (zsize scan_uuid ≠ 16) then Err (errc_common Common.invalid_argument)
  else
    r ← (_ ← BufferWriter.write scan_uuid;
         _ ← write_uint32 (no_batch_item_limit o);
         _ ← write_uint32 (u32 (no_batch_time_limit o));
         write_uint32 (no_batch_byte_limit o)) (make_buffer_writer (zsize scan_uuid + 4 * 3));
    Ok (store_ r.2).

(** ** Items *)

Record range_scan_item_body := ItemBody {
  ib_flags : Z;
  ib_expiry : Z;
  ib_cas : Z;
  ib_sequence_number : Z;
  ib_datatype : Z;
  ib_value : bytes;
}.
Record range_scan_item := Item { it_key : bytes; it_body : option range_scan_item_body }.

(** What [parse_range_scan_data] hands to the callback for items, and what it
    returns.  [cancelled n]: whether the request is cancelled after [n] items *)
Definition parsed : Type := list range_scan_item * option error_code.

Section parsing.
Context {E : Type} (cancelled : nat → bool).

(** A number and what follows it; the span is null when it is cut off. *)
Definition read_length (data : bytes) : outcome E (Z * bytes) :=
  '(length, remaining) ← decode_unsigned_leb128_no_throw 64 data; Ok (length, default [] remaining).

Definition protocol_error : option error_code := Some (errc_network Network.protocol_error).

Fixpoint parse_range_scan_keys (fuel : nat) (data : bytes) (n : nat) : outcome E parsed :=
  match fuel with
  | O => Diverge
  | S fuel =>
      if decide (data = []) then Ok ([], None)
      else if cancelled n then Ok ([], None)
      else
        '(key_length, remaining) ← read_length data;
        if decide (zsize remaining < key_length) then Ok ([], protocol_error)
        else
          let item := Item (take (Z.to_nat key_length) remaining) None in
          if decide (zsize remaining = key_length) then Ok ([item], None)
          else
            '(items, ec) ← parse_range_scan_keys fuel (drop (Z.to_nat key_length) remaining) (S n);
            Ok (item :: items, ec)
  end.

Definition header_offset : Z := 25.

(** A length and that many bytes *)
Definition read_sized (data : bytes) : outcome E (option (bytes * bytes)) :=
  '(length, remaining) ← read_length data;
  Ok (if decide (zsize remaining < length) then None
      else Some (take (Z.to_nat length) remaining, drop (Z.to_nat length) remaining)).
End parsing.

Section documents.
Context {E : Type} `{Snappy} (cancelled : nat → bool).

Definition inflate_item (body : range_scan_item_body) : range_scan_item_body :=
  if has_flag (ib_datatype body) datatype_snappy then
    match snappy_uncompress (ib_value body) with
    | Some uncompressed =>
        ItemBody (ib_flags body) (ib_expiry body) (ib_cas body) (ib_sequence_number body)
          (clear_flag (ib_datatype body) datatype_snappy) uncompressed
    | None => body
    end
  else body.

(** One document: the item and the rest, or [None] for a protocol error *)
Definition parse_scan_document (data : bytes) : outcome E (option (range_scan_item * bytes)) :=
  if decide (zsize data < header_offset) then Ok None
  else
    flags ← big_endian.read_uint32 data 0;
    expiry ← big_endian.read_uint32 data 4;
    sequence_number ← big_endian.read_uint64 data 8;
    cas ← big_endian.read_uint64 data 16;
    datatype ← at_ data 24;
    key ← read_sized (drop (Z.to_nat header_offset) data);
    match key with
    | None => Ok None
    | Some (key, data) =>
        value ← read_sized data;
        match value with
        | None => Ok None
        | Some (value, data) =>
            Ok (Some (Item key (Some (inflate_item (ItemBody flags expiry cas sequence_number datatype value))), data))
        end
    end.

Fixpoint parse_range_scan_documents (fuel : nat) (data : bytes) (n : nat) : outcome E parsed :=
  match fuel with
  | O => Diverge
  | S fuel =>
      if decide (data = []) then Ok ([], None)
      else if cancelled n then Ok ([], None)
      else
        r ← parse_scan_document data;
        match r with
        | None => Ok ([], protocol_error)
        | Some (item, data) =>
            if decide (data = []) then Ok ([item], None)
            else
              '(items, ec) ← parse_range_scan_documents fuel data (S n);
              Ok (item :: items, ec)
        end
  end.

Definition parse_range_scan_data (payload : bytes) (keys_only : bool) : outcome E parsed :=
  if keys_only then parse_range_scan_keys cancelled (S (length payload)) payload 0
  else parse_range_scan_documents (S (length payload)) payload 0.

(** ** Responses *)

Record range_scan_continue_result := ContinueResult { cr_more : bool; cr_complete : bool; cr_ids_only : bool }.

(** The invocations of the callbacks of [range_scan_continue] *)
Inductive continue_call :=
  | call_item (i : range_scan_item)
  | call_done (r : option range_scan_continue_result) (ec : option error_code).

(** The handler; [cancels]: what [internal_cancel] of the request returns *)
Definition continue_handler (cancels : bool) (extras value : bytes) (status : Z) (error : option error_code) :
    outcome E (list continue_call) :=
  match error with
  | Some ec => Ok [call_done None (Some ec)]
  | None =>
      if decide (zsize extras ≠ 4) then Ok (if cancels then [call_done None protocol_error] else [])
      else
        keys ← big_endian.read_uint32 extras 0;
        let ids_only := bool_decide (keys = 0) in
        '(items, ec) ← parse_range_scan_data value ids_only;
        Ok (map call_item items ++
            match ec with
            | Some ec => if cancels then [call_done None (Some ec)] else []
            | None =>
                let res := ContinueResult (status =? Status.key_value_status_code_code Status.range_scan_more)
                                          (status =? Status.key_value_status_code_code Status.range_scan_complete) ids_only in
                if (cr_more res || cr_complete res) && cancels then [call_done (Some res) None] else []
            end)
  end.
End documents.

(** ** What the server writes *)

Definition length_prefix (n : Z) : bytes := leb_groups (Z.to_nat (leb_max_size 64)) n.
Definition sized (s : bytes) : bytes := length_prefix (zsize s) ++ s.

Definition item_bytes (i : range_scan_item) : bytes :=
  match it_body i with
  | None => sized (it_key i)
  | Some b =>
      be_bytes 4 (ib_flags b) ++ be_bytes 4 (ib_expiry b) ++ be_bytes 8 (ib_sequence_number b) ++ be_bytes 8 (ib_cas b) ++
      [ib_datatype b] ++ sized (it_key i) ++ sized (ib_value b)
  end.

(** What the client makes of it *)
Definition item_read `{Snappy} (i : range_scan_item) : range_scan_item := Item (it_key i) (inflate_item <$> it_body i).

Definition item_ok (keys_only : bool) (i : range_scan_item) : Prop :=
  is_u64 (zsize (it_key i)) ∧
  match it_body i with
  | None => keys_only = true
  | Some b => keys_only = false ∧ is_u32 (ib_flags b) ∧ is_u32 (ib_expiry b) ∧ is_u64 (ib_sequence_number b) ∧
      is_u64 (ib_cas b) ∧ is_u8 (ib_datatype b) ∧ is_u64 (zsize (ib_value b))
  end.

Section roundtrip.
Context {E : Type}.

Lemma read_length_prefix n rest : is_u64 n → read_length (E:=E) (length_prefix n ++ rest) = Ok (n, rest).
Proof.
  intros Hn. unfold read_length, length_prefix. rewrite decode_groups; [done|by right|by vm_compute; lia| |done].
  change (Z.of_nat (Z.to_nat (leb_max_size 64))) with 10. unfold in_width in Hn. lia.
Qed.

Lemma length_prefix_pos n : 0 ≤ n → length_prefix n ≠ [].
Proof. intros Hn. apply leb_groups_pos; [done|by vm_compute; lia]. Qed.

Lemma take_sized (s rest : bytes) : take (Z.to_nat (zsize s)) (s ++ rest) = s.
Proof. unfold zsize. by rewrite Nat2Z.id, take_app_length. Qed.
Lemma drop_sized (s rest : bytes) : drop (Z.to_nat (zsize s)) (s ++ rest) = rest.
Proof. unfold zsize. by rewrite Nat2Z.id, drop_app_length. Qed.

Lemma read_sized_back s rest : is_u64 (zsize s) → read_sized (E:=E) (sized s ++ rest) = Ok (Some (s, rest)).
Proof.
  intros Hs. unfold read_sized, sized. rewrite <-app_assoc, read_length_prefix by done. cbn [mbind outcome_bind].
  rewrite decide_False by (unfold zsize; rewrite length_app; lia). by rewrite take_sized, drop_sized.
Qed.
Lemma read_uint32_field l1 v l2 off :
  off = zsize l1 → is_u32 v → big_endian.read_uint32 (E:=E) (l1 ++ be_bytes 4 v ++ l2) off = Ok v.
Proof. intros -> Hv. rewrite read_uint32_app by (done || apply be_bytes_ok). by rewrite be_value_be_bytes_small. Qed.

Lemma read_uint64_field l1 v l2 off :
  off = zsize l1 → is_u64 v → big_endian.read_uint64 (E:=E) (l1 ++ be_bytes 8 v ++ l2) off = Ok v.
Proof. intros -> Hv. rewrite read_uint64_app by (done || apply be_bytes_ok). by rewrite be_value_be_bytes_small. Qed.

Context `{Snappy}.

Lemma parse_document_back i rest :
  item_ok false i → parse_scan_document (E:=E) (item_bytes i ++ rest) = Ok (Some (item_read i, rest)).
Proof.
  destruct i as [key [[flags expiry cas seqno datatype value]|]]; intros [Hk Hb]; cbn in Hk, Hb; [|done].
  destruct Hb as (_ & Hf & He & Hs & Hc & Hd & Hv). unfold parse_scan_document, item_bytes; cbn [it_body it_key ib_flags ib_expiry ib_sequence_number ib_cas ib_datatype ib_value].
  set (tail := sized key ++ sized value ++ rest).
  set (data := be_bytes 4 flags ++ be_bytes 4 expiry ++ be_bytes 8 seqno ++ be_bytes 8 cas ++ datatype :: tail).
  replace (_ ++ rest) with data by (unfold data, tail; by rewrite <-!app_assoc).
  assert (H1 : big_endian.read_uint32 (E:=E) data 0 = Ok flags) by (by apply (read_uint32_field [])).
  assert (H2 : big_endian.read_uint32 (E:=E) data 4 = Ok expiry) by (by apply (read_uint32_field (be_bytes 4 flags))).
  assert (H3 : big_endian.read_uint64 (E:=E) data 8 = Ok seqno) by (by apply (read_uint64_field (be_bytes 4 flags ++ be_bytes 4 expiry))).
  assert (H4 : big_endian.read_uint64 (E:=E) data 16 = Ok cas)
    by (by apply (read_uint64_field (be_bytes 4 flags ++ be_bytes 4 expiry ++ be_bytes 8 seqno))).
  assert (H5 : at_ (E:=E) data 24 = Ok datatype) by done.
  rewrite decide_False by (unfold data, zsize, header_offset; rewrite !length_app, !length_be_bytes; cbn [length]; lia).
  rewrite H1, H2, H3, H4, H5. cbn [mbind outcome_bind]. change (drop (Z.to_nat header_offset) data) with tail.
  unfold tail. rewrite read_sized_back by done. cbn [mbind outcome_bind]. rewrite read_sized_back by done. done.
Qed.

Lemma item_bytes_pos i : item_bytes i ≠ [].
Proof.
  unfold item_bytes, sized. destruct (it_body i); [by destruct (be_bytes 4 _) eqn:Hb; [apply (f_equal length) in Hb; rewrite length_be_bytes in Hb|]|].
  intros [Hp _]%app_nil. by apply length_prefix_pos in Hp; [|unfold zsize; lia].
Qed.

Lemma concat_items_nil items : concat (map item_bytes items) = [] → items = [].
Proof. destruct items as [|i items]; [done|]. cbn. intros [Hi _]%app_nil. by apply item_bytes_pos in Hi. Qed.

(** A request that is cancelled after [k] items *)
Definition cancelled_after (k : nat) (n : nat) : bool := bool_decide (k ≤ n)%nat.

Lemma parse_documents_back k items fuel n :
  Forall (item_ok false) items → (length items < fuel)%nat →
  parse_range_scan_documents (E:=E) (cancelled_after k) fuel (concat (map item_bytes items)) n = Ok (map item_read (take (k - n) items), None).
Proof.
  revert fuel n. induction items as [|i items IH]; intros [|fuel] n Hok Hf; cbn in Hf; try lia; cbn [map concat parse_range_scan_documents].
  { by rewrite decide_True, take_nil by done. }
  apply Forall_cons in Hok as [Hi Hok]. rewrite decide_False by (intros [Hp _]%app_nil; by apply item_bytes_pos in Hp).
  unfold cancelled_after at 1. case_bool_decide as Hk.
  { by replace (k - n)%nat with 0%nat by lia. }
  rewrite parse_document_back by done. cbn [mbind outcome_bind]. replace (k - n)%nat with (S (k - S n)) by lia. cbn [take map].
  case_decide as Hnil; [apply concat_items_nil in Hnil as ->; by rewrite take_nil|]. rewrite IH by (done || lia). done.
Qed.

Lemma parse_keys_back k items fuel n :
  Forall (item_ok true) items → (length items < fuel)%nat →
  parse_range_scan_keys (E:=E) (cancelled_after k) fuel (concat (map item_bytes items)) n = Ok (map item_read (take (k - n) items), None).
Proof.
  revert fuel n. induction items as [|i items IH]; intros [|fuel] n Hok Hf; cbn in Hf; try lia; cbn [map concat parse_range_scan_keys].
  { by rewrite decide_True, take_nil by done. }
  apply Forall_cons in Hok as [Hi Hok]. rewrite decide_False by (intros [Hp _]%app_nil; by apply item_bytes_pos in Hp).
  unfold cancelled_after at 1. case_bool_decide as Hk.
  { by replace (k - n)%nat with 0%nat by lia. }
  replace (k - n)%nat with (S (k - S n)) by lia. cbn [take map].
  destruct i as [key [body|]], Hi as [Hkey Hb]; cbn in Hkey, Hb; [by destruct Hb|]. unfold item_bytes at 1; cbn [it_body it_key].
  unfold sized. rewrite <-app_assoc, read_length_prefix by done. cbn [mbind outcome_bind].
  rewrite decide_False by (unfold zsize; rewrite length_app; lia). rewrite take_sized, drop_sized.
  case_decide as Hend.
  - assert (concat (map item_bytes items) = []) as ->%concat_items_nil.
    { apply nil_length_inv. unfold zsize in Hend. rewrite length_app in Hend. lia. }
    by rewrite take_nil.
  - rewrite IH by (done || lia). done.
Qed.

Lemma length_concat_items items : (length items ≤ length (concat (map item_bytes items)))%nat.
Proof.
  induction items as [|i items IH]; cbn; [done|]. rewrite length_app.
  destruct (item_bytes i) eqn:Hi; [by apply item_bytes_pos in Hi|cbn; lia].
Qed.
End roundtrip.

(** C29: The items of a payload are read back as the server wrote them, in
    order and up to the one after which the request is cancelled: keys, or
    documents with their metadata, whose values are inflated. *)
Theorem scan_payload_roundtrip `{Snappy} {E} keys_only k items :
  Forall (item_ok keys_only) items →
  parse_range_scan_data (E:=E) (cancelled_after k) (concat (map item_bytes items)) keys_only =
    Ok (map item_read (take k items), None).
Proof.
  intros Hok. unfold parse_range_scan_data. pose proof (length_concat_items items) as Hl.
  destruct keys_only; [rewrite parse_keys_back|rewrite parse_documents_back]; try done; try lia; by rewrite Nat.sub_0_r.
Qed.

(** ** Termination *)

Lemma decode_length_shorter {E} data v rest :
  decode_unsigned_leb128_no_throw (E:=E) 64 data = Ok (v, Some rest) → (length rest < length data)%nat.
Proof.
  assert (Hloop : ∀ (buf : bytes) shift rv v rest, decode_loop (E:=E) 64 shift rv buf = Ok (Some (v, rest)) → (length rest < length buf)%nat).
  { intros buf. induction buf as [|b buf IH]; intros shift rv v' rest' Hd; cbn in Hd; [done|].
    repeat case_decide; simplify_eq; [cbn; lia|]. apply IH in Hd. cbn. lia. }
  intros Hd. unfold decode_unsigned_leb128_no_throw in Hd. destruct data as [|b data]; [done|].
  change (at_ (E:=E) (b :: data) 0) with (Ok (E:=E) b) in Hd. cbn [mbind outcome_bind] in Hd. change (drop 1 (b :: data)) with data in Hd.
  case_decide; [|simplify_eq; cbn; lia].
  destruct (decode_loop (E:=E) 64 7 (Z.land b 127) data) as [[[v' rest']|]| | |] eqn:Hl; cbn in Hd; simplify_eq. apply Hloop in Hl. cbn. lia.
Qed.

Lemma at_settled {E A} (l : list A) i : at_ (E:=E) l i ≠ Diverge.
Proof. unfold at_. repeat case_match; done. Qed.

Lemma read_length_settled {E} data : read_length (E:=E) data ≠ Diverge.
Proof.
  apply bind_not_diverge; [|by intros []]. apply bind_not_diverge; [apply at_settled|]. intros b _. case_decide; [|done].
  apply bind_not_diverge; [by destruct (decode_loop_total (E:=E) 64 7 (Z.land b 127) (drop 1 data))|]. by intros [[]|].
Qed.

Lemma read_length_shorter {E} data v rest : data ≠ [] → read_length (E:=E) data = Ok (v, rest) → (length rest < length data)%nat.
Proof.
  intros Hne Hr. unfold read_length in Hr.
  destruct (decode_unsigned_leb128_no_throw 64 data) as [[v' [rest'|]]| | |] eqn:Hd; cbn in Hr; simplify_eq.
  - by eapply decode_length_shorter.
  - destruct data; cbn; [done|lia].
Qed.

Lemma read_sized_settled {E} data : read_sized (E:=E) data ≠ Diverge.
Proof. unfold read_sized. pose proof (read_length_settled (E:=E) data). by destruct (read_length data) as [[]| | |]. Qed.

Lemma read_sized_shorter {E} data s rest : read_sized (E:=E) data = Ok (Some (s, rest)) → (length rest ≤ length data)%nat.
Proof.
  intros Hr. unfold read_sized in Hr. destruct (read_length data) as [[v rest']| | |] eqn:Hl; cbn in Hr; [|done..].
  case_decide; simplify_eq. rewrite length_drop. destruct (decide (data = [])) as [->|Hne]; [|apply read_length_shorter in Hl; [lia|done]]. by vm_compute in Hl.
Qed.

Lemma parse_document_settled `{Snappy} {E} data : parse_scan_document (E:=E) data ≠ Diverge.
Proof.
  unfold parse_scan_document, big_endian.read_uint32, big_endian.read_uint64. case_decide; [done|].
  do 4 (apply bind_not_diverge; [repeat (apply bind_not_diverge; [apply at_settled|intros ? _]); done|intros ? _]).
  apply bind_not_diverge; [apply at_settled|intros ? _]. apply bind_not_diverge; [apply read_sized_settled|]. intros [[]|] _; [|done].
  apply bind_not_diverge; [apply read_sized_settled|]. by intros [[]|] _.
Qed.

Lemma parse_document_shorter `{Snappy} {E} data i rest :
  parse_scan_document (E:=E) data = Ok (Some (i, rest)) → (length rest < length data)%nat.
Proof.
  unfold parse_scan_document. case_decide as Hsize; [done|]. intros Hp.
  do 5 (apply bind_Ok in Hp as (? & _ & Hp)). apply bind_Ok in Hp as ([[key data1]|] & Hk & Hp); [|done].
  apply bind_Ok in Hp as ([[value data2]|] & Hv & Hp); [|done]. simplify_eq.
  apply read_sized_shorter in Hk, Hv. rewrite length_drop in Hk. unfold header_offset, zsize in *. lia.
Qed.

(** Reading a payload ends, whatever the bytes are. *)
Theorem scan_payload_parsed `{Snappy} {E} cancelled payload keys_only :
  parse_range_scan_data (E:=E) cancelled payload keys_only ≠ Diverge.
Proof.
  assert (Hkeys : ∀ fuel data n, (length data < fuel)%nat → parse_range_scan_keys (E:=E) cancelled fuel data n ≠ Diverge).
  { intros fuel. induction fuel as [|fuel IH]; intros data n Hf; [lia|]. cbn [parse_range_scan_keys].
    case_decide as Hne; [done|]. destruct (cancelled n); [done|]. apply bind_not_diverge; [apply read_length_settled|].
    intros [len rest] Hr. apply read_length_shorter in Hr; [|done]. repeat (case_decide; [done|]).
    apply bind_not_diverge; [apply IH; rewrite length_drop; lia|]. by intros []. }
  assert (Hdocs : ∀ fuel data n, (length data < fuel)%nat → parse_range_scan_documents (E:=E) cancelled fuel data n ≠ Diverge).
  { intros fuel. induction fuel as [|fuel IH]; intros data n Hf; [lia|]. cbn [parse_range_scan_documents].
    case_decide as Hne; [done|]. destruct (cancelled n); [done|]. apply bind_not_diverge; [apply parse_document_settled|].
    intros [[i rest]|] Hr; [|done]. apply parse_document_shorter in Hr. case_decide; [done|].
    apply bind_not_diverge; [apply IH; lia|]. by intros []. }
  unfold parse_range_scan_data. destruct keys_only; [apply Hkeys|apply Hdocs]; lia.
Qed.

(** A document that is cut off behind its header ends the process: the span
    that is left is empty, and its first byte is read.  A key whose length is
    cut off is an item with an empty key. *)
Example truncated_document_faults :
  @parse_range_scan_data unit {| snappy_uncompress _ := None; snappy_compress s := s |} (λ _, false) (replicate 25 0) false = Fault.
Proof. by vm_compute. Qed.
Example truncated_length_accepted :
  @parse_range_scan_data unit {| snappy_uncompress _ := None; snappy_compress s := s |} (λ _, false) [1; 97; 128] true =
    Ok ([Item [97] None; Item [] None], None).
Proof. by vm_compute. Qed.

(** ** Snapshots *)

Lemma require_token_at m t p :
  require_token m t !! p =
    if decide (p = tok_partition t) then
      match m !! p with
      | Some r => if sr_sequence_number r <? tok_sequence_number t
                  then Some (SnapshotRequirements (tok_uuid t) (tok_sequence_number t) false) else Some r
      | None => Some (SnapshotRequirements (tok_uuid t) (tok_sequence_number t) false)
      end
    else m !! p.
Proof.
  unfold require_token. case_decide as Hp; subst.
  - destruct (m !! tok_partition t) as [r|] eqn:Hm; [case_match; [by rewrite lookup_insert_eq|done]|by rewrite lookup_insert_eq].
  - destruct (m !! tok_partition t) as [r|]; [case_match; [by rewrite lookup_insert_ne|done]|by rewrite lookup_insert_ne].
Qed.

(** The requirement comes from a token of the partition, and none is newer. *)
Definition newest (tokens : list state_token) (p : Z) (r : option range_snapshot_requirements) : Prop :=
  match r with
  | None => ∀ t, t ∈ tokens → tok_partition t ≠ p
  | Some r => (∃ t, t ∈ tokens ∧ tok_partition t = p ∧ r = SnapshotRequirements (tok_uuid t) (tok_sequence_number t) false) ∧
      ∀ t, t ∈ tokens → tok_partition t = p → tok_sequence_number t ≤ sr_sequence_number r
  end.

(** A scan that is to be consistent with mutations waits, in each
    partition, for the newest of them, and in the others for nothing. *)
Theorem snapshot_requirements_newest tokens p :
  newest tokens p (mutation_state_to_snapshot_requirements (Some tokens) !! p).
Proof.
  cbn. induction tokens as [|t tokens IH] using rev_ind; [cbn; rewrite lookup_empty; intros ?; set_solver|].
  rewrite foldl_snoc, require_token_at.
  assert (Hin : ∀ t', t' ∈ tokens ++ [t] ↔ t' ∈ tokens ∨ t' = t) by set_solver.
  case_decide as Hp; [subst p|].
  - destruct (foldl require_token ∅ tokens !! tok_partition t) as [r|]; cbn in IH |- *.
    2:{ split; [exists t; by rewrite Hin; auto|]. intros t' [Ht'| ->]%Hin Hp; [by apply IH in Ht'|cbn; lia]. }
    destruct IH as [(t' & Ht' & Hp' & ->) Hle]. cbn [sr_sequence_number] in *. destruct (Z.ltb_spec (tok_sequence_number t') (tok_sequence_number t)).
    + split; [exists t; by rewrite Hin; auto|]. cbn. intros t0 [?| ->]%Hin Hp0; [|lia]. etrans; [by apply Hle|lia].
    + split; [exists t'; rewrite Hin; auto|]. cbn. intros t0 [?| ->]%Hin Hp0; [by apply Hle|lia].
  - destruct (foldl require_token ∅ tokens !! p) as [r|]; cbn in IH |- *.
    + destruct IH as [(t' & Ht' & Hp' & Hr) Hle]. split; [exists t'; rewrite Hin; auto|]. intros t0 [?| ->]%Hin Hp0; [by apply Hle|done].
    + intros t0 [?| ->]%Hin Hp0; [by eapply IH|done].
Qed.

Lemma scan_payload_roundtrip_witness :
  let i := Item [97] (Some (ItemBody 1 2 3 4 0 [98; 99])) in
  @parse_range_scan_data unit {| snappy_uncompress _ := None; snappy_compress s := s |} (cancelled_after 1)
    (concat (map item_bytes [i; i])) false = Ok ([i], None).
Proof.
  intros i. apply (@scan_payload_roundtrip {| snappy_uncompress _ := None; snappy_compress s := s |} unit false 1 [i; i]).
  by repeat constructor.
Defined.
