(* ===== verification/RangeScan.v ===== *)
(** * Range scans: streams and their orchestrator

    [core/range_scan_orchestrator.cxx], [core/range_scan_load_balancer.cxx]: a
    scan of a collection reads each of its partitions by a stream.  The
    orchestrator keeps a number of streams running, chosen so that the nodes
    are equally busy, and hands their items to the caller through a channel.

    The state is a [world]; what happens to it (a task of the event loop, an
    answer of the agent, a call) is an [event].  The channel of asio is an
    interface with its documented behaviour, and so is the order in which
    [std::shuffle] leaves the nodes. *)

From S2P Require Import Prelude Protocol TransactionLinks RangeScanData.

(** [scan_stream_end_signal], or an item *)
Inductive message :=
  | item_message (i : range_scan_item)
  | end_signal (vbucket_id : Z) (error : option error_code).

(** [asio::experimental::concurrent_channel]; receivers have identities.
    [deliver]: the next completion of a receive, [None] with an error of asio *)
Class Channel := {
  channel : Type;
  new_channel : channel;
  async_send : message → channel → channel;
  async_receive : nat → channel → channel;
  channel_cancel : channel → channel;
  channel_close : channel → channel;
  deliver : channel → option (nat * option message * channel);
}.

(** It is first in, first out while it is open; whatever is closed or
    cancelled delivers nothing that was not sent. *)
Class ChannelLaws `{Channel} := {
  is_open : channel → Prop;
  contents : channel → list message;
  waiting : channel → list nat;
  new_is_open : is_open new_channel;
  new_contents : contents new_channel = [];
  new_waiting : waiting new_channel = [];
  send_open m c : is_open c → is_open (async_send m c) ∧ contents (async_send m c) = contents c ++ [m] ∧ waiting (async_send m c) = waiting c;
  receive_open h c : is_open c → is_open (async_receive h c) ∧ waiting (async_receive h c) = waiting c ++ [h];
  deliver_open c : is_open c →
    match deliver c with
    | Some (h, Some m, c') => is_open c' ∧ waiting c = h :: waiting c'
    | Some (_, None, _) => False
    | None => contents c = [] ∨ waiting c = []
    end;
  send_contents m c : sublist (contents (async_send m c)) (contents c ++ [m]);
  receive_contents h c : contents (async_receive h c) = contents c;
  cancel_contents c : sublist (contents (channel_cancel c)) (contents c);
  close_contents c : sublist (contents (channel_close c)) (contents c);
  deliver_contents c h r c' : deliver c = Some (h, r, c') →
    match r with Some m => contents c = m :: contents c' | None => sublist (contents c') (contents c) end;
}.

(** The order of the nodes at the [n]-th selection *)
Class Shuffle := { shuffle : nat → list Z → list Z }.
Class ShuffleLaws `{Shuffle} := shuffle_perm : ∀ n l, shuffle n l ≡ₚ l.

(** ** The load balancer *)

Record range_scan_node_state := NodeState { ns_active_stream_count : Z; ns_pending_vbuckets : list Z }.
Abbreviation range_scan_load_balancer := (gmap Z range_scan_node_state).

(** The active nodes of the partitions *)
Definition active_nodes {E} (vbucket_map : list (list Z)) : outcome E (list Z) :=
  foldr (λ l ids, id ← at_ l 0; ids ← ids; Ok (id :: ids)) (Ok []) vbucket_map.

Definition push_pending (v : Z) (n : option range_scan_node_state) : option range_scan_node_state :=
  match n with
  | Some n => Some (NodeState (ns_active_stream_count n) (ns_pending_vbuckets n ++ [v]))
  | None => Some (NodeState 0 [v])
  end.

(** The constructor, from the active node of each partition *)
Fixpoint balance (v : Z) (nodes : list Z) (b : range_scan_load_balancer) : range_scan_load_balancer :=
  match nodes with [] => b | node :: nodes => balance (v + 1) nodes (partial_alter (push_pending (u16 v)) node b) end.

Definition fetch_vbucket_id (n : range_scan_node_state) : option (Z * range_scan_node_state) :=
  match ns_pending_vbuckets n with
  | [] => None
  | v :: pending => Some (v, NodeState (u16 (ns_active_stream_count n + 1)) pending)
  end.

Definition node_ended (n : range_scan_node_state) : range_scan_node_state :=
  NodeState (u16 (ns_active_stream_count n - 1)) (ns_pending_vbuckets n).
Definition node_enqueue (v : Z) (n : range_scan_node_state) : range_scan_node_state :=
  NodeState (ns_active_stream_count n) (ns_pending_vbuckets n ++ [v]).

(** The node with the fewest streams among those that have something to do *)
Fixpoint select_node (b : range_scan_load_balancer) (order : list Z) (min_stream_count : Z) (selected : option Z) : option Z :=
  match order with
  | [] => selected
  | node :: order =>
      match b !! node with
      | Some n =>
          if (ns_active_stream_count n <? min_stream_count) && (0 <? zsize (ns_pending_vbuckets n))
          then select_node b order (ns_active_stream_count n) (Some node)
          else select_node b order min_stream_count selected
      | None => select_node b order min_stream_count selected
      end
  end.

Definition select_vbucket (b : range_scan_load_balancer) (order : list Z) : option (Z * range_scan_load_balancer) :=
  node ← select_node b order 65535 None;
  n ← b !! node;
  '(v, n) ← fetch_vbucket_id n;
  Some (v, <[node := n]> b).

(** ** Streams *)

Inductive stream_state :=
  | created                                      (** [std::monostate] *)
  | failed (ec : error_code) (fatal : bool)
  | running (uuid : bytes)
  | completed.

Record range_scan_stream := Stream {
  str_node_id : Z;
  str_create_options : range_scan_create_options;
  str_state : stream_state;
  str_last_seen_key : bytes;
  str_should_cancel : bool;
  str_first_attempt_timestamp : option Z;        (** the steady clock, in nanoseconds *)
}.

Definition set_stream_state (st : stream_state) (s : range_scan_stream) : range_scan_stream :=
  Stream (str_node_id s) (str_create_options s) st (str_last_seen_key s) (str_should_cancel s) (str_first_attempt_timestamp s).
Definition set_options (o : range_scan_create_options) (s : range_scan_stream) : range_scan_stream :=
  Stream (str_node_id s) o (str_state s) (str_last_seen_key s) (str_should_cancel s) (str_first_attempt_timestamp s).
Definition set_last_seen_key (key : bytes) (s : range_scan_stream) : range_scan_stream :=
  Stream (str_node_id s) (str_create_options s) (str_state s) key (str_should_cancel s) (str_first_attempt_timestamp s).
Definition should_cancel (s : range_scan_stream) : range_scan_stream :=
  Stream (str_node_id s) (str_create_options s) (str_state s) (str_last_seen_key s) true (str_first_attempt_timestamp s).
Definition set_first_attempt (t : Z) (s : range_scan_stream) : range_scan_stream :=
  Stream (str_node_id s) (str_create_options s) (str_state s) (str_last_seen_key s) (str_should_cancel s) (Some t).

Definition is_running (s : range_scan_stream) : bool := match str_state s with running _ => true | _ => false end.
Definition is_failed (s : range_scan_stream) : bool := match str_state s with failed _ _ => true | _ => false end.
Definition is_completed (s : range_scan_stream) : bool := match str_state s with completed => true | _ => false end.
Definition stream_uuid (s : range_scan_stream) : bytes := match str_state s with running uuid => uuid | _ => [] end.
Definition is_sampling_scan (s : range_scan_stream) : bool :=
  match co_scan_type (str_create_options s) with a_sampling_scan _ => true | _ => false end.

(** The scan goes on behind the last key that was seen. *)
Definition resume_from (s : range_scan_stream) : range_scan_create_options :=
  let o := str_create_options s in
  match co_scan_type o with
  | a_range_scan r =>
      if decide (str_last_seen_key s ≠ [])
      then CreateOptions (co_scope_name o) (co_collection_name o) (a_range_scan (RangeScan (Some (ScanTerm (str_last_seen_key s) false)) (rs_to r)))
             (co_timeout o) (co_collection_id o) (co_snapshot_requirements o) (co_ids_only o)
      else o
  | _ => o
  end.

(** What an error in the middle of a scan means *)
Definition fail_is_fatal (sampling : bool) (ec : error_code) : bool :=
  if decide (ec = errc_key_value KeyValue.document_not_found ∨ ec = errc_common Common.authentication_failure ∨
             ec = errc_common Common.collection_not_found ∨ ec = errc_common Common.request_canceled)
  then negb sampling else true.

(** ** The orchestrator *)

(** Tasks that are posted, and calls of the agent that are not answered *)
Inductive task :=
  | run_start (v : Z) | creating (v : Z) | run_continue (v : Z) | continuing (v : Z)
  | run_cancel (v : Z) (uuid : bytes)
  | run_next (h : nat).

Global Instance task_eq_dec : EqDecision task.
Proof. solve_decision. Defined.

Inductive agent_call :=
  | range_scan_create (v : Z) (o : range_scan_create_options)
  | range_scan_continue (uuid : bytes) (v : Z)
  | range_scan_cancel (uuid : bytes) (v : Z).

(** What a handler of [next] gets *)
Inductive next_result :=
  | got_item (i : range_scan_item)
  | got_error (ec : error_code)
  | got_channel_error.

(** [w_all] are the streams, also those that [w_streams] (the map [streams_])
    lost; [w_sent] and [w_calls] are what was sent to the channel and the
    invocations of the handlers of [next], oldest first; [w_stuck] are the
    streams that no callback continues because the agent refused a call. *)
Record world `{Channel} := World {
  w_balancer : range_scan_load_balancer;
  w_all : gmap Z range_scan_stream;
  w_streams : gset Z;
  w_active_stream_count : Z;
  w_item_limit : Z;
  w_cancelled : bool;
  w_items : channel;
  w_tasks : list task;
  w_selections : nat;
  w_requests : list agent_call;
  w_sent : list message;
  w_calls : list (nat * next_result);
  w_stuck : gset Z;
  w_fault : bool;
}.
Arguments World {_}.

Section world.
Context `{Channel, Shuffle}.

Definition set_balancer (b : range_scan_load_balancer) (w : world) : world :=
  World b (w_all w) (w_streams w) (w_active_stream_count w) (w_item_limit w) (w_cancelled w) (w_items w) (w_tasks w) (w_selections w)
    (w_requests w) (w_sent w) (w_calls w) (w_stuck w) (w_fault w).
Definition upd_stream (v : Z) (f : range_scan_stream → range_scan_stream) (w : world) : world :=
  World (w_balancer w) (alter f v (w_all w)) (w_streams w) (w_active_stream_count w) (w_item_limit w) (w_cancelled w) (w_items w) (w_tasks w)
    (w_selections w) (w_requests w) (w_sent w) (w_calls w) (w_stuck w) (w_fault w).
Definition erase_stream (v : Z) (w : world) : world :=
  World (w_balancer w) (w_all w) (w_streams w ∖ {[v]}) (w_active_stream_count w) (w_item_limit w) (w_cancelled w) (w_items w) (w_tasks w)
    (w_selections w) (w_requests w) (w_sent w) (w_calls w) (w_stuck w) (w_fault w).
Definition set_active (n : Z) (w : world) : world :=
  World (w_balancer w) (w_all w) (w_streams w) n (w_item_limit w) (w_cancelled w) (w_items w) (w_tasks w) (w_selections w)
    (w_requests w) (w_sent w) (w_calls w) (w_stuck w) (w_fault w).
Definition set_limit (n : Z) (w : world) : world :=
  World (w_balancer w) (w_all w) (w_streams w) (w_active_stream_count w) n (w_cancelled w) (w_items w) (w_tasks w) (w_selections w)
    (w_requests w) (w_sent w) (w_calls w) (w_stuck w) (w_fault w).
Definition set_items (c : channel) (w : world) : world :=
  World (w_balancer w) (w_all w) (w_streams w) (w_active_stream_count w) (w_item_limit w) (w_cancelled w) c (w_tasks w) (w_selections w)
    (w_requests w) (w_sent w) (w_calls w) (w_stuck w) (w_fault w).
Definition set_tasks (l : list task) (w : world) : world :=
  World (w_balancer w) (w_all w) (w_streams w) (w_active_stream_count w) (w_item_limit w) (w_cancelled w) (w_items w) l (w_selections w)
    (w_requests w) (w_sent w) (w_calls w) (w_stuck w) (w_fault w).
Definition post (t : task) (w : world) : world := set_tasks (w_tasks w ++ [t]) w.
Definition request (r : agent_call) (w : world) : world :=
  World (w_balancer w) (w_all w) (w_streams w) (w_active_stream_count w) (w_item_limit w) (w_cancelled w) (w_items w) (w_tasks w) (w_selections w)
    (w_requests w ++ [r]) (w_sent w) (w_calls w) (w_stuck w) (w_fault w).
Definition call (h : nat) (r : next_result) (w : world) : world :=
  World (w_balancer w) (w_all w) (w_streams w) (w_active_stream_count w) (w_item_limit w) (w_cancelled w) (w_items w) (w_tasks w) (w_selections w)
    (w_requests w) (w_sent w) (w_calls w ++ [(h, r)]) (w_stuck w) (w_fault w).
Definition stick (v : Z) (w : world) : world :=
  World (w_balancer w) (w_all w) (w_streams w) (w_active_stream_count w) (w_item_limit w) (w_cancelled w) (w_items w) (w_tasks w) (w_selections w)
    (w_requests w) (w_sent w) (w_calls w) ({[v]} ∪ w_stuck w) (w_fault w).
(** An exception that nothing catches *)
Definition set_fault (w : world) : world :=
  World (w_balancer w) (w_all w) (w_streams w) (w_active_stream_count w) (w_item_limit w) (w_cancelled w) (w_items w) (w_tasks w) (w_selections w)
    (w_requests w) (w_sent w) (w_calls w) (w_stuck w) true.
Definition next_selection (w : world) : world :=
  World (w_balancer w) (w_all w) (w_streams w) (w_active_stream_count w) (w_item_limit w) (w_cancelled w) (w_items w) (w_tasks w) (S (w_selections w))
    (w_requests w) (w_sent w) (w_calls w) (w_stuck w) (w_fault w).
Definition send (m : message) (w : world) : world :=
  World (w_balancer w) (w_all w) (w_streams w) (w_active_stream_count w) (w_item_limit w) (w_cancelled w) (async_send m (w_items w)) (w_tasks w)
    (w_selections w) (w_requests w) (w_sent w ++ [m]) (w_calls w) (w_stuck w) (w_fault w).

(** [cancel] of the orchestrator: the flag, and that of each stream *)
Definition cancel (w : world) : world :=
  World (w_balancer w) (map_imap (λ v s, Some (if decide (v ∈ w_streams w) then should_cancel s else s)) (w_all w)) (w_streams w)
    (w_active_stream_count w) (w_item_limit w) true (w_items w) (w_tasks w) (w_selections w) (w_requests w) (w_sent w) (w_calls w) (w_stuck w) (w_fault w).

(** [notify_stream_ended] and [enqueue_vbucket] of the load balancer *)
Definition upd_node (node : Z) (f : range_scan_node_state → range_scan_node_state) (w : world) : world :=
  match w_balancer w !! node with
  | Some n => set_balancer (<[node := f n]> (w_balancer w)) w
  | None => set_fault w
  end.

(** One round of the loop of [start_streams], [None] if there is nothing left *)
Definition start_stream (w : world) : option world :=
  let order := shuffle (w_selections w) (elements (dom (w_balancer w))) in
  match select_vbucket (w_balancer w) order with
  | None => None
  | Some (v, b) =>
      let w := next_selection (set_balancer b w) in
      Some (if decide (v ∈ w_streams w) then post (run_start v) (set_active (u16 (w_active_stream_count w + 1)) w) else set_fault w)
  end.

Fixpoint start_loop (count : nat) (w : world) : world :=
  match count with
  | O => w
  | S count => match start_stream w with Some w => start_loop count w | None => w end
  end.

Definition start_streams (stream_count : Z) (w : world) : world :=
  if w_cancelled w then w else start_loop (Z.to_nat stream_count) w.

Definition leave_node (v node : Z) (w : world) : world :=
  let w := upd_node node node_ended w in set_active (u16 (w_active_stream_count w - 1)) w.

Definition stream_completed (v node : Z) (w : world) : world :=
  start_streams 1 (send (end_signal v None) (leave_node v node w)).

Definition stream_failed (v node : Z) (ec : error_code) (fatal : bool) (w : world) : world :=
  if fatal then cancel (send (end_signal v (Some ec)) (leave_node v node w)) else stream_completed v node w.

Definition stream_start_failed_awaiting_retry (v node : Z) (w : world) : world :=
  let w := upd_node node (node_enqueue v) (leave_node v node w) in
  if decide (w_active_stream_count w = 0) then start_streams 1 w else w.

(** *** The functions of a stream *)

(** The state is set before the manager is told. *)
Definition end_stream (v : Z) (s : range_scan_stream) (ec : error_code) (fatal : bool) (w : world) : world :=
  stream_failed v (str_node_id s) ec fatal (upd_stream v (set_stream_state (failed ec fatal)) w).

Definition with_stream (v : Z) (f : range_scan_stream → world → world) (w : world) : world :=
  match w_all w !! v with Some s => f s w | None => w end.

(** [start]; [accepted]: whether the agent took the call *)
Definition stream_start (v t : Z) (accepted : bool) : world → world := with_stream v (λ s w,
  let create w :=
    let o := resume_from s in
    let w := request (range_scan_create v o) (upd_stream v (set_options o) w) in
    if accepted then post (creating v) w else stick v w in
  match str_first_attempt_timestamp s with
  | Some first =>
      if co_timeout (str_create_options s) * 1000000 <? t - first
      then end_stream v s (errc_common Common.unambiguous_timeout) (negb (is_sampling_scan s)) w
      else create w
  | None => create (upd_stream v (set_first_attempt t) w)
  end).

Definition stream_cancel (v : Z) (s : range_scan_stream) (w : world) : world :=
  if decide (stream_uuid s = []) then stick v w else post (run_cancel v (stream_uuid s)) (stick v w).

Definition resume (v : Z) : world → world := with_stream v (λ s w,
  if negb (is_running s) then stick v w
  else if str_should_cancel s then stream_cancel v s w
  else post (run_continue v) w).

(** The callback of [range_scan_create] *)
Definition stream_created (v : Z) (answer : error_code + bytes) : world → world := with_stream v (λ s w,
  match answer with
  | inl ec =>
      if decide (ec = errc_key_value KeyValue.document_not_found) then end_stream v s ec false w
      else if decide (ec = errc_common Common.temporary_failure) then
        stream_start_failed_awaiting_retry v (str_node_id s) (upd_stream v (set_stream_state created) w)
      else end_stream v s ec true w
  | inr uuid => resume v (upd_stream v (set_stream_state (running uuid)) w)
  end).

Definition fail (v : Z) (ec : error_code) : world → world := with_stream v (λ s w,
  if is_failed s then w else end_stream v s ec (fail_is_fatal (is_sampling_scan s) ec) w).

Definition complete (v : Z) : world → world := with_stream v (λ s w,
  if is_failed s || is_completed s then w
  else upd_stream v (set_stream_state completed) (stream_completed v (str_node_id s) w)).

(** The posted part of [resume]; the agent refuses identifiers of another
    length. *)
Definition stream_continue (v : Z) (accepted : bool) : world → world := with_stream v (λ s w,
  let w := request (range_scan_continue (stream_uuid s) v) w in
  if accepted && bool_decide (zsize (stream_uuid s) = 16) then post (continuing v) w else stick v w).

Definition received_item (v : Z) (i : range_scan_item) : world → world := with_stream v (λ s w,
  if str_should_cancel s then w else send (item_message i) (upd_stream v (set_last_seen_key (it_key i)) w)).

(** The callback of [range_scan_continue] *)
Definition stream_continued (v : Z) (res : range_scan_continue_result) (ec : option error_code) (w : world) : world :=
  match ec with
  | Some ec => fail v ec w
  | None => if cr_complete res then complete v w else if cr_more res then resume v w else stick v w
  end.

(** *** The calls of the user *)

Definition scan_completed : next_result := got_error (errc_key_value KeyValue.range_scan_completed).

Definition next_item (h : nat) (w : world) : world :=
  if bool_decide (w_streams w = ∅) || w_cancelled w
  then call h scan_completed (set_items (channel_close (channel_cancel (w_items w))) w)
  else set_items (async_receive h (w_items w)) w.

Definition next (h : nat) (w : world) : world :=
  if decide (w_item_limit w = 0) then cancel (call h scan_completed w)
  else next_item h (set_limit (w_item_limit w - 1) w).

(** The handler that is passed to [async_receive] *)
Definition received (h : nat) (m : option message) (w : world) : world :=
  match m with
  | None => call h got_channel_error w
  | Some (item_message i) => call h (got_item i) w
  | Some (end_signal v (Some ec)) => call h (got_error ec) w
  | Some (end_signal v None) => post (run_next h) (erase_stream v w)
  end.

(** ** Events *)

Inductive event :=
  | ev_start (v t : Z) (accepted : bool)
  | ev_created (v : Z) (answer : error_code + bytes)
  | ev_continue (v : Z) (accepted : bool)
  | ev_item (v : Z) (i : range_scan_item)
  | ev_continued (v : Z) (res : range_scan_continue_result) (ec : option error_code)
  | ev_cancel_sent (v : Z) (uuid : bytes)
  | ev_run_next (h : nat)
  | ev_deliver
  | ev_next (h : nat)
  | ev_cancel.

(** Runs [f] behind a task, if it is there. *)
Definition take_task (t : task) (f : world → world) (w : world) : option world :=
  '(i, _) ← list_find (λ t', t' = t) (w_tasks w); Some (f (set_tasks (delete i (w_tasks w)) w)).

Definition step (e : event) (w : world) : option world :=
  match e with
  | ev_start v t accepted => take_task (run_start v) (stream_start v t accepted) w
  | ev_created v answer => take_task (creating v) (stream_created v answer) w
  | ev_continue v accepted => take_task (run_continue v) (stream_continue v accepted) w
  | ev_item v i => if decide (continuing v ∈ w_tasks w) then Some (received_item v i w) else None
  | ev_continued v res ec => take_task (continuing v) (stream_continued v res ec) w
  | ev_cancel_sent v uuid => take_task (run_cancel v uuid) (request (range_scan_cancel uuid v)) w
  | ev_run_next h => take_task (run_next h) (next_item h) w
  | ev_deliver => '(h, m, c) ← deliver (w_items w); Some (received h m (set_items c w))
  | ev_next h => Some (next h w)
  | ev_cancel => Some (cancel w)
  end.

Fixpoint run (l : list event) (w : world) : option world :=
  match l with [] => Some w | e :: l => w ← step e w; run l w end.

(** ** The scan *)

Record scan_settings := ScanSettings {
  sc_active_nodes : list Z;
  sc_scope_name : bytes;
  sc_collection_name : bytes;
  sc_scan_type : scan_type;
  sc_ids_only : bool;
  sc_consistent_with : option (list state_token);
  sc_concurrency : Z;
  sc_timeout : Z;
}.

(** The members after the constructor *)
Definition item_limit_of (t : scan_type) : Z := match t with a_sampling_scan s => ss_limit s | _ => 2 ^ 64 - 1 end.

Definition create_options (c : scan_settings) (collection_id v : Z) : range_scan_create_options :=
  CreateOptions (sc_scope_name c) (sc_collection_name c) (sc_scan_type c) (sc_timeout c) collection_id
    (mutation_state_to_snapshot_requirements (sc_consistent_with c) !! v) (sc_ids_only c).

Definition new_stream (c : scan_settings) (collection_id v node : Z) : range_scan_stream :=
  Stream node (create_options c collection_id v) created [] false None.

Definition new_streams (c : scan_settings) (collection_id : Z) : gmap Z range_scan_stream :=
  list_to_map (imap (λ v node, (Z.of_nat v, new_stream c collection_id (Z.of_nat v) node))
    (take (Z.to_nat (u16 (zsize (sc_active_nodes c)))) (sc_active_nodes c))).

(** Behind the answer to [get_collection_id] *)
Definition begin_scan (c : scan_settings) (collection_id : Z) : world :=
  let streams := new_streams c collection_id in
  start_streams (sc_concurrency c)
    (World (balance 0 (sc_active_nodes c) ∅) streams (dom streams) 0 (item_limit_of (sc_scan_type c)) false new_channel [] 0 [] [] [] ∅ false).

(** [scan]: the callback gets an error or the world of the scan. *)
Definition scan (c : scan_settings) (collection_id : error_code + Z) : error_code + world :=
  if decide (item_limit_of (sc_scan_type c) = 0 ∨ sc_concurrency c = 0) then inl (errc_common Common.invalid_argument)
  else match collection_id with inl ec => inl ec | inr cid => inr (begin_scan c cid) end.

(** What can happen to a scan *)
Definition reachable (c : scan_settings) (cid : Z) (w : world) : Prop :=
  item_limit_of (sc_scan_type c) ≠ 0 ∧ sc_concurrency c ≠ 0 ∧ ∃ l, run l (begin_scan c cid) = Some w.
End world.
