(* ===== verification/RangeScanProofs.v ===== *)
(** * Range scans: the partitions are accounted for

    Every partition of a scan waits for its node, is being read, or has ended;
    how each event keeps the account, and what the channel says of it. *)

From S2P Require Import Prelude Protocol TransactionLinks RangeScanData RangeScan.

(** ** Sets of partitions *)

Lemma size_remove (v : Z) (A : gset Z) : v ∈ A → size A = S (size (A ∖ {[v]})).
Proof.
  intros Hv. replace A with ({[v]} ∪ A ∖ {[v]}) at 1 by (apply set_eq; intros x; destruct (decide (x = v)); set_solver).
  rewrite size_union by set_solver. by rewrite size_singleton.
Qed.
Lemma size_insert (v : Z) (A : gset Z) : v ∉ A → size ({[v]} ∪ A) = S (size A).
Proof. intros Hv. rewrite size_union by set_solver. by rewrite size_singleton. Qed.

(** ** Selection *)

(** The node with something to do and the fewest streams *)
Lemma select_node_least b order min selected :
  (select_node b order min selected = selected ∧
     ∀ id n, id ∈ order → b !! id = Some n → ns_pending_vbuckets n ≠ [] → min ≤ ns_active_stream_count n) ∨
  ∃ id n, select_node b order min selected = Some id ∧ id ∈ order ∧ b !! id = Some n ∧ ns_pending_vbuckets n ≠ [] ∧
    ns_active_stream_count n < min ∧
    ∀ id' n', id' ∈ order → b !! id' = Some n' → ns_pending_vbuckets n' ≠ [] → ns_active_stream_count n ≤ ns_active_stream_count n'.
Proof.
  revert min selected. induction order as [|node order IH]; intros min selected; cbn; [left; split; [done|]; intros ? ? []%not_elem_of_nil|].
  assert (Hskip : (∀ n, b !! node = Some n → ns_pending_vbuckets n ≠ [] → min ≤ ns_active_stream_count n) →
    select_node b order min selected = selected ∧
      (∀ id n, id ∈ node :: order → b !! id = Some n → ns_pending_vbuckets n ≠ [] → min ≤ ns_active_stream_count n) ∨
    ∃ id n, select_node b order min selected = Some id ∧ id ∈ node :: order ∧ b !! id = Some n ∧ ns_pending_vbuckets n ≠ [] ∧
      ns_active_stream_count n < min ∧
      ∀ id' n', id' ∈ node :: order → b !! id' = Some n' → ns_pending_vbuckets n' ≠ [] → ns_active_stream_count n ≤ ns_active_stream_count n').
  { intros Hnode. destruct (IH min selected) as [[-> Hmin]|(id & n & -> & Hin & Hb & Hp & Hlt & Hle)]; [left|right].
    - split; [done|]. intros id n [->|Hid]%elem_of_cons; [apply Hnode|by apply Hmin].
    - exists id, n. split_and!; try done; [by right|]. intros id' n' [->|Hid]%elem_of_cons Hb' Hp'; [|by eapply Hle].
      specialize (Hnode n' Hb' Hp'). lia. }
  destruct (b !! node) as [n|] eqn:Hn; [|by apply Hskip]. destruct (Z.ltb_spec (ns_active_stream_count n) min) as [Hlt|Hge]; cbn [andb].
  2:{ apply Hskip. intros n' [= <-] _. lia. }
  destruct (ns_pending_vbuckets n) as [|v pending] eqn:Hp; cbn [andb].
  { apply Hskip. intros n' [= <-] Hne. by rewrite Hp in Hne. }
  right. destruct (IH (ns_active_stream_count n) (Some node)) as [[-> Hmin]|(id & n' & -> & Hin & Hb & Hp' & Hlt' & Hle)].
  - exists node, n. split_and!; [done|by left|done|by rewrite Hp|done|]. intros id' n'' [->|Hid]%elem_of_cons Hb'' Hp''; [simplify_eq; lia|by eapply Hmin].
  - exists id, n'. split_and!; [done|by right|done|done|lia|]. intros id'' n'' [->|Hid]%elem_of_cons Hb'' Hp''; [simplify_eq; lia|by eapply Hle].
Qed.

Section account.
Context `{Channel, !ChannelLaws, Shuffle, !ShuffleLaws} (c : scan_settings) (cid : Z).
Context (Hsize : zsize (sc_active_nodes c) < 65536) (Hconc : 0 < sc_concurrency c < 65536).

Definition node_of (v : Z) : option Z := if decide (0 ≤ v) then sc_active_nodes c !! Z.to_nat v else None.
Definition on (id : Z) (X : gset Z) : gset Z := filter (λ v, node_of v = Some id) X.

Lemma on_remove id v X : on id (X ∖ {[v]}) = on id X ∖ {[v]}.
Proof. unfold on. set_solver. Qed.
Lemma on_insert id v X : node_of v = Some id → on id ({[v]} ∪ X) = {[v]} ∪ on id X.
Proof. unfold on. intros Hv. apply set_eq. intros x. rewrite elem_of_union, !elem_of_filter, elem_of_union, elem_of_singleton. naive_solver. Qed.
Lemma on_insert_ne id v X : node_of v ≠ Some id → on id ({[v]} ∪ X) = on id X.
Proof. unfold on. intros Hv. apply set_eq. intros x. rewrite !elem_of_filter, elem_of_union, elem_of_singleton. naive_solver. Qed.
Lemma on_remove_ne id v X : node_of v ≠ Some id → on id (X ∖ {[v]}) = on id X.
Proof. unfold on. intros Hv. apply set_eq. intros x. rewrite !elem_of_filter, elem_of_difference, elem_of_singleton. naive_solver. Qed.

(** Nothing was read of the stream. *)
Definition fresh (s : range_scan_stream) : Prop := str_state s = created ∧ str_last_seen_key s = [].

(** [A] are the partitions that are read, [P] those that wait, [D] those that
    have ended. *)
Record streams_ok (m : gmap Z range_scan_stream) (A P D : gset Z) : Prop := {
  so_fits : ∀ v, match m !! v with
    | Some s => node_of v = Some (str_node_id s) ∧ str_create_options s = create_options c cid v
    | None => node_of v = None
    end;
  so_known : ∀ v, v ∈ A ∪ P ∪ D → is_Some (node_of v);
  so_pending : ∀ v s, m !! v = Some s → v ∈ P → fresh s;
  so_active : ∀ v s, m !! v = Some s → v ∈ A → fresh s ∨ is_running s = true;
  so_ended : ∀ v s, m !! v = Some s → v ∈ D → is_failed s = true ∨ is_completed s = true;
}.

Record balance_ok (b : range_scan_load_balancer) (A P : gset Z) : Prop := {
  ba_node : ∀ id n, b !! id = Some n → ns_active_stream_count n = Z.of_nat (size (on id A)) ∧
    NoDup (ns_pending_vbuckets n) ∧ ∀ v, v ∈ ns_pending_vbuckets n ↔ v ∈ on id P;
  ba_dom : ∀ v id, node_of v = Some id → is_Some (b !! id);
}.

(** The partition for which a task or a call of the agent is under way *)
Definition live_of (t : task) : option Z :=
  match t with run_start v | creating v | run_continue v | continuing v => Some v | _ => None end.
Definition live (tasks : list task) : list Z := omap live_of tasks.

(** [hand]: the partition whose event is being handled *)
Record tasks_ok (tasks : list task) (hand : list Z) (A stuck : gset Z) (m : gmap Z range_scan_stream) : Prop := {
  ta_nodup : NoDup (hand ++ live tasks);
  ta_active : ∀ v, v ∈ hand ++ live tasks → v ∈ A;
  ta_live : ∀ v, v ∈ A → v ∈ hand ++ live tasks ∨ v ∈ stuck;
  ta_created : ∀ v s, run_start v ∈ tasks ∨ creating v ∈ tasks → m !! v = Some s → fresh s;
  ta_running : ∀ v s, run_continue v ∈ tasks ∨ continuing v ∈ tasks → m !! v = Some s → is_running s = true;
}.

Definition core (w : world) (A P D : gset Z) (hand : list Z) : Prop :=
  streams_ok (w_all w) A P D ∧ balance_ok (w_balancer w) A P ∧ tasks_ok (w_tasks w) hand A (w_stuck w) (w_all w) ∧
  w_active_stream_count w = Z.of_nat (size A) ∧ Z.of_nat (size A) ≤ sc_concurrency c ∧ A ## P ∧ A ∪ P ⊆ w_streams w ∧ w_fault w = false.

Lemma on_size id A : (size (on id A) ≤ size A)%nat.
Proof. apply subseteq_size. unfold on. set_solver. Qed.

Lemma u16_small z : 0 ≤ z < 65536 → u16 z = z.
Proof. intros Hz. apply wrap_small. unfold in_width. lia. Qed.

(** *** Parts *)

Lemma balance_remove b A P v id n :
  balance_ok b A P → v ∈ A → node_of v = Some id → b !! id = Some n → Z.of_nat (size A) < 65536 →
  balance_ok (<[id := node_ended n]> b) (A ∖ {[v]}) P.
Proof.
  intros [Hnode Hdom] Hv Hid Hn HA. split.
  - intros id' n'. destruct (decide (id' = id)) as [->|Hne].
    + rewrite lookup_insert_eq. intros [= <-]. destruct (Hnode id n Hn) as (Ha & Hnd & Hp). split_and!; [|done|done].
      pose proof (on_size id A). cbn. rewrite Ha, on_remove, (size_remove v (on id A)) by (unfold on; set_solver).
      rewrite (size_remove v (on id A)) in * by (unfold on; set_solver). rewrite u16_small; lia.
    + rewrite lookup_insert_ne by done. intros Hn'. destruct (Hnode id' n' Hn') as (Ha & Hnd & Hp). split_and!; [|done|done].
      rewrite on_remove_ne by congruence. done.
  - intros v' id' Hv'. destruct (decide (id' = id)) as [->|]; [by rewrite lookup_insert_eq|rewrite lookup_insert_ne by done; by eapply Hdom].
Qed.

Lemma balance_enqueue b A P v id n :
  balance_ok b A P → v ∉ P → node_of v = Some id → b !! id = Some n →
  balance_ok (<[id := node_enqueue v n]> b) A ({[v]} ∪ P).
Proof.
  intros [Hnode Hdom] Hv Hid Hn. split.
  - intros id' n'. destruct (decide (id' = id)) as [->|Hne].
    + rewrite lookup_insert_eq. intros [= <-]. destruct (Hnode id n Hn) as (Ha & Hnd & Hp). cbn. split_and!; [done| |].
      * apply NoDup_app. split_and!; [done| |apply NoDup_singleton]. intros x Hx ->%list_elem_of_singleton. apply Hp in Hx. unfold on in Hx. set_solver.
      * intros x. rewrite elem_of_app, Hp, list_elem_of_singleton, on_insert by done. set_solver.
    + rewrite lookup_insert_ne by done. intros Hn'. destruct (Hnode id' n' Hn') as (Ha & Hnd & Hp). split_and!; [done|done|].
      intros x. rewrite Hp, on_insert_ne by congruence. done.
  - intros v' id' Hv'. destruct (decide (id' = id)) as [->|]; [by rewrite lookup_insert_eq|rewrite lookup_insert_ne by done; by eapply Hdom].
Qed.

Lemma balance_fetch b A P v id n n' :
  balance_ok b A P → b !! id = Some n → fetch_vbucket_id n = Some (v, n') → v ∉ A → Z.of_nat (size A) < 65535 →
  balance_ok (<[id := n']> b) ({[v]} ∪ A) (P ∖ {[v]}) ∧ v ∈ P ∧ node_of v = Some id.
Proof.
  intros [Hnode Hdom] Hn Hf HvA HA. unfold fetch_vbucket_id in Hf. destruct (ns_pending_vbuckets n) as [|v' pending] eqn:Hpend; [done|].
  injection Hf as -> <-. destruct (Hnode id n Hn) as (Ha & Hnd & Hp). rewrite Hpend in Hnd, Hp. apply NoDup_cons in Hnd as [Hvp Hnd].
  assert (HvP : v ∈ on id P) by (apply Hp; by left). assert (Hid : node_of v = Some id) by (unfold on in HvP; set_solver).
  assert (HP : v ∈ P) by (unfold on in HvP; set_solver). split; [|done]. split.
  - intros id' n'. destruct (decide (id' = id)) as [->|Hne].
    + rewrite lookup_insert_eq. intros [= <-]. cbn. rewrite on_insert, size_insert by (done || (unfold on; set_solver)). split_and!; [|done|].
      * pose proof (on_size id A). rewrite Ha, u16_small; lia.
      * intros x. rewrite on_remove, elem_of_difference, <-Hp, elem_of_cons, elem_of_singleton. naive_solver.
    + rewrite lookup_insert_ne by done. intros Hn'. destruct (Hnode id' n' Hn') as (Ha' & Hnd' & Hp').
      rewrite on_insert_ne, on_remove_ne by congruence. done.
  - intros v' id' Hv'. destruct (decide (id' = id)) as [->|]; [by rewrite lookup_insert_eq|rewrite lookup_insert_ne by done; by eapply Hdom].
Qed.

(** *** Changes of the account *)

Lemma core_known w A P D hand v : core w A P D hand → v ∈ A ∪ P ∪ D → ∃ s, w_all w !! v = Some s ∧ node_of v = Some (str_node_id s).
Proof.
  intros [[Hfit Hkn _ _ _] _] Hv. specialize (Hfit v). destruct (w_all w !! v) as [s|]; [by exists s; split; [|apply Hfit]|].
  apply Hkn in Hv as [? ?]. congruence.
Qed.

Lemma leave_upd v v' id f w : leave_node v id (upd_stream v' f w) = upd_stream v' f (leave_node v id w).
Proof. unfold leave_node, upd_node. cbn. by destruct (w_balancer w !! id). Qed.

Lemma core_leave w A P D v id : node_of v = Some id → core w A P D [v] → core (leave_node v id w) (A ∖ {[v]}) P D [].
Proof.
  intros Hid ([Hfit Hkn Hpe Hac Hen] & Hb & [Hnd Hta Htl Htc Htr] & Hcount & Hle & Hdis & Hst & Hf).
  assert (HvA : v ∈ A) by (apply Hta; by left). destruct (ba_dom _ _ _ Hb v id Hid) as [n Hn].
  unfold leave_node, upd_node. rewrite Hn. rewrite (size_remove v A) in Hcount, Hle by done. cbn in Hnd. apply NoDup_cons in Hnd as [Hvl Hnd].
  split_and!; cbn.
  - split; try done; [set_solver|]. intros x s Hs Hx. apply (Hac x s Hs). set_solver.
  - apply (balance_remove _ A P v id n); try done. rewrite (size_remove v A) by done. lia.
  - split; cbn; try done.
    + intros x Hx. assert (x ≠ v) by congruence. apply elem_of_difference. split; [apply Hta; by right|set_solver].
    + intros x Hx. apply elem_of_difference in Hx as [Hx Hxv]. specialize (Htl x Hx). cbn in Htl. rewrite elem_of_cons in Htl. set_solver.
  - rewrite Hcount, u16_small; lia.
  - lia.
  - set_solver.
  - set_solver.
  - done.
Qed.

Lemma core_join w A P D hand v s :
  core w A P D hand → w_all w !! v = Some s → v ∉ A ∪ P → is_failed s = true ∨ is_completed s = true → core w A P ({[v]} ∪ D) hand.
Proof.
  intros ([Hfit Hkn Hpe Hac Hen] & Hb & Hrest) Hs Hv He. split; [|done]. split; try done.
  - intros x Hx. destruct (decide (x = v)) as [->|]; [|apply Hkn; set_solver]. specialize (Hfit v). rewrite Hs in Hfit. destruct Hfit as [-> _]. by eexists.
  - intros x s' Hs' Hx. destruct (decide (x = v)) as [->|]; [by simplify_eq|]. apply (Hen x s' Hs'). set_solver.
Qed.

(** A stream outside of the account *)
Lemma core_upd_out w A P D hand v f :
  core w A P D hand → v ∉ A ∪ P ∪ D → (∀ s, str_node_id (f s) = str_node_id s ∧ str_create_options (f s) = str_create_options s) →
  core (upd_stream v f w) A P D hand.
Proof.
  intros ([Hfit Hkn Hpe Hac Hen] & Hb & [Hnd Hta Htl Htc Htr] & Hrest) Hv Hf.
  assert (Hne : ∀ x s, alter f v (w_all w) !! x = Some s → x ≠ v → w_all w !! x = Some s) by (intros x s Hs Hne; by rewrite lookup_alter_ne in Hs).
  split_and!; [split|done|split|apply Hrest..]; cbn; try done.
  - intros x. destruct (decide (x = v)) as [->|]; [|rewrite lookup_alter_ne by done; apply Hfit]. rewrite lookup_alter_eq. specialize (Hfit v).
    destruct (w_all w !! v) as [s|]; cbn; [|done]. destruct (Hf s) as [-> ->]. done.
  - intros x s Hs Hx. apply (Hpe x s); [apply Hne; [done|set_solver]|done].
  - intros x s Hs Hx. apply (Hac x s); [apply Hne; [done|set_solver]|done].
  - intros x s Hs Hx. apply (Hen x s); [apply Hne; [done|set_solver]|done].
  - intros x s Hx Hs. assert (x ∈ A) by (apply Hta, elem_of_app; right; apply list_elem_of_omap; destruct Hx as [Hx|Hx]; by eexists).
    apply (Htc x s Hx), Hne; [done|set_solver].
  - intros x s Hx Hs. assert (x ∈ A) by (apply Hta, elem_of_app; right; apply list_elem_of_omap; destruct Hx as [Hx|Hx]; by eexists).
    apply (Htr x s Hx), Hne; [done|set_solver].
Qed.

(** The stream that is handled stays in use. *)
Lemma core_upd_hand w A P D v f s :
  core w A P D [v] → w_all w !! v = Some s → str_node_id (f s) = str_node_id s → str_create_options (f s) = str_create_options s →
  fresh (f s) ∨ is_running (f s) = true → v ∉ P → v ∉ D →
  core (upd_stream v f w) A P D [v].
Proof.
  intros ([Hfit Hkn Hpe Hac Hen] & Hb & [Hnd Hta Htl Htc Htr] & Hrest) Hs Hf1 Hf2 Hok HvP HvD.
  assert (Hne : ∀ x s, alter f v (w_all w) !! x = Some s → x ≠ v → w_all w !! x = Some s) by (intros x s' Hs' Hne; by rewrite lookup_alter_ne in Hs').
  cbn in Hnd. apply NoDup_cons in Hnd as [Hvl Hnd].
  assert (Hlive : ∀ x t, t ∈ w_tasks w → live_of t = Some x → x ≠ v).
  { intros x t Ht Hx ->. apply Hvl, list_elem_of_omap. by exists t. }
  split_and!; [split|done|split|apply Hrest..]; cbn; try done.
  - intros x. destruct (decide (x = v)) as [->|]; [|rewrite lookup_alter_ne by done; apply Hfit]. rewrite lookup_alter_eq. specialize (Hfit v).
    rewrite Hs in Hfit |- *. cbn. by rewrite Hf1, Hf2.
  - intros x s' Hs' Hx. apply (Hpe x s'); [apply Hne; [done|set_solver]|done].
  - intros x s' Hs' Hx. destruct (decide (x = v)) as [->|]; [|apply (Hac x s'); [by apply Hne|done]].
    rewrite lookup_alter_eq, Hs in Hs'. cbn in Hs'. by simplify_eq.
  - intros x s' Hs' Hx. apply (Hen x s'); [apply Hne; [done|set_solver]|done].
  - by constructor.
  - intros x s' Hx Hs'. apply (Htc x s' Hx), Hne; [done|]. destruct Hx as [Hx|Hx]; by eapply Hlive.
  - intros x s' Hx Hs'. apply (Htr x s' Hx), Hne; [done|]. destruct Hx as [Hx|Hx]; by eapply Hlive.
Qed.

Lemma core_upd_running w A P D v f s :
  core w A P D [] → continuing v ∈ w_tasks w → w_all w !! v = Some s → str_node_id (f s) = str_node_id s →
  str_create_options (f s) = str_create_options s → str_state (f s) = str_state s → core (upd_stream v f w) A P D [].
Proof.
  intros ([Hfit Hkn Hpe Hac Hen] & Hb & [Hnd Hta Htl Htc Htr] & Hcount & Hle & Hdis & Hrest) Hv Hs Hf1 Hf2 Hok.
  assert (Hrun : is_running s = true) by (eapply Htr; [by right|done]).
  assert (HvA : v ∈ A) by (apply Hta, list_elem_of_omap; by exists (continuing v)).
  assert (Halt : ∀ x s', alter f v (w_all w) !! x = Some s' → x = v ∧ s' = f s ∨ x ≠ v ∧ w_all w !! x = Some s').
  { intros x s' Hs'. destruct (decide (x = v)) as [->|]; [left|right; by rewrite lookup_alter_ne in Hs'].
    rewrite lookup_alter_eq, Hs in Hs'. cbn in Hs'. by simplify_eq. }
  assert (Hrun' : is_running (f s) = true) by (unfold is_running in *; by rewrite Hok).
  split_and!; [split|done|split|done..|by apply Hrest|by apply Hrest]; cbn; try done.
  - intros x. destruct (decide (x = v)) as [->|]; [|rewrite lookup_alter_ne by done; apply Hfit]. rewrite lookup_alter_eq. specialize (Hfit v).
    rewrite Hs in Hfit |- *. cbn. by rewrite Hf1, Hf2.
  - intros x s' [[-> ->]|[Hne Hs']]%Halt Hx; [set_solver|by eapply Hpe].
  - intros x s' [[-> ->]|[Hne Hs']]%Halt Hx; [by right|by eapply Hac].
  - intros x s' [[-> ->]|[Hne Hs']]%Halt Hx; [|by eapply Hen]. exfalso. destruct (Hen v s Hs Hx) as [He|He]; unfold is_failed, is_completed, is_running in *; by destruct (str_state s).
  - intros x s' Hx [[-> ->]|[Hne Hs']]%Halt; [|by eapply Htc]. destruct (Htc v s Hx Hs) as [Hcr _]. unfold is_running in Hrun. by rewrite Hcr in Hrun.
  - intros x s' Hx [[-> ->]|[Hne Hs']]%Halt; [done|by eapply Htr].
Qed.

Lemma core_enqueue w A P D hand v id s :
  core w A P D hand → node_of v = Some id → v ∉ A ∪ P ∪ D → w_all w !! v = Some s → fresh s → v ∈ w_streams w →
  core (upd_node id (node_enqueue v) w) A ({[v]} ∪ P) D hand.
Proof.
  intros ([Hfit Hkn Hpe Hac Hen] & Hb & Ht & Hcount & Hle & Hdis & Hst & Hf) Hid Hv Hs Hfresh Hvs.
  destruct (ba_dom _ _ _ Hb v id Hid) as [n Hn]. unfold upd_node. rewrite Hn.
  split_and!; cbn; [split| |done..| | |done].
  - done.
  - intros x Hx. destruct (decide (x = v)) as [->|]; [by eexists|apply Hkn; set_solver].
  - intros x s' Hs' Hx. destruct (decide (x = v)) as [->|]; [by simplify_eq|]. apply (Hpe x s' Hs'). set_solver.
  - done.
  - done.
  - apply balance_enqueue; [done|set_solver|done..].
  - set_solver.
  - set_solver.
Qed.

Lemma live_app l l' : live (l ++ l') = live l ++ live l'.
Proof. apply omap_app. Qed.

(** What starting streams leaves alone *)
Definition same_rest (w w' : world) : Prop :=
  w_all w' = w_all w ∧ w_streams w' = w_streams w ∧ w_item_limit w' = w_item_limit w ∧ w_cancelled w' = w_cancelled w ∧
  w_items w' = w_items w ∧ w_requests w' = w_requests w ∧ w_sent w' = w_sent w ∧ w_calls w' = w_calls w ∧ w_stuck w' = w_stuck w.

Lemma select_vbucket_spec w A P D hand :
  core w A P D hand → Z.of_nat (size A) < 65535 →
  match select_vbucket (w_balancer w) (shuffle (w_selections w) (elements (dom (w_balancer w)))) with
  | Some (v, b) => v ∈ P ∧ balance_ok b ({[v]} ∪ A) (P ∖ {[v]})
  | None => P = ∅
  end.
Proof.
  intros (Hs & Hb & _ & _ & _ & Hdis & _) HA. set (order := shuffle _ _).
  assert (Hin : ∀ id, id ∈ order ↔ is_Some (w_balancer w !! id)).
  { intros id. unfold order. by rewrite shuffle_perm, elem_of_elements, elem_of_dom. }
  unfold select_vbucket. destruct (select_node_least (w_balancer w) order 65535 None) as [[-> Hmin]|(id & n & -> & Hid & Hn & Hp & Hlt & _)]; cbn.
  - apply set_eq. intros v. split; [|set_solver]. intros Hv. destruct (so_known _ _ _ _ Hs v) as [id Hid]; [set_solver|].
    destruct (ba_dom _ _ _ Hb v id Hid) as [n Hn]. destruct (ba_node _ _ _ Hb id n Hn) as (Ha & _ & Hp).
    assert (Hvp : v ∈ ns_pending_vbuckets n) by (apply Hp; unfold on; set_solver).
    pose proof (on_size id A). specialize (Hmin id n (proj2 (Hin id) (mk_is_Some _ _ Hn)) Hn). destruct (ns_pending_vbuckets n); [set_solver|].
    specialize (Hmin ltac:(done)). lia.
  - rewrite Hn. cbn. destruct (fetch_vbucket_id n) as [[v n']|] eqn:Hf; cbn.
    + assert (HvP : v ∈ P).
      { unfold fetch_vbucket_id in Hf. destruct (ns_pending_vbuckets n) as [|v' p] eqn:Hpe; [done|]. injection Hf as -> _.
        destruct (ba_node _ _ _ Hb id n Hn) as (_ & _ & Hv). rewrite Hpe in Hv. specialize (Hv v). unfold on in Hv. set_solver. }
      split; [done|]. eapply balance_fetch; try done. set_solver.
    + unfold fetch_vbucket_id in Hf. by destruct (ns_pending_vbuckets n).
Qed.

Lemma core_start w A P D hand :
  core w A P D hand → Z.of_nat (size A) < sc_concurrency c →
  match start_stream w with
  | Some w' => ∃ v, v ∈ P ∧ core w' ({[v]} ∪ A) (P ∖ {[v]}) D hand ∧ same_rest w w'
  | None => P = ∅
  end.
Proof.
  intros Hcore HA. pose proof (select_vbucket_spec w A P D hand Hcore ltac:(lia)) as Hsel. unfold start_stream.
  destruct (select_vbucket _ _) as [[v b]|]; [|done]. destruct Hsel as [HvP Hb].
  destruct Hcore as ([Hfit Hkn Hpe Hac Hen] & _ & [Hnd Hta Htl Htc Htr] & Hcount & Hle & Hdis & Hst & Hf).
  assert (HvA : v ∉ A) by set_solver. exists v. split; [done|]. rewrite decide_True by (cbn; set_solver).
  split; [|repeat split]. split_and!; cbn; [split|done|split| | | | |done]; try done.
  - intros x Hx. destruct (decide (x = v)) as [->|]; apply Hkn; set_solver.
  - intros x s Hs Hx. apply (Hpe x s Hs). set_solver.
  - intros x s Hs Hx. destruct (decide (x = v)) as [->|]; [left; by apply (Hpe v s Hs)|]. apply (Hac x s Hs). set_solver.
  - rewrite live_app, app_assoc. apply NoDup_app. split_and!; [done| |apply NoDup_singleton].
    intros x Hx ->%list_elem_of_singleton. by apply HvA, Hta.
  - intros x. rewrite live_app, app_assoc, elem_of_app. cbn. rewrite list_elem_of_singleton. intros [Hx| ->]; [|set_solver]. apply Hta in Hx. set_solver.
  - intros x Hx. rewrite live_app, app_assoc, elem_of_app. cbn. rewrite list_elem_of_singleton. destruct (decide (x = v)) as [->|]; [auto|].
    destruct (Htl x) as [?|?]; [set_solver|auto|auto].
  - intros x s Hx Hs. rewrite !elem_of_app, !list_elem_of_singleton in Hx.
    destruct Hx as [[Hx|[= ->]]|[Hx|[=]]]; [apply (Htc x s); auto|by apply (Hpe v s Hs)|apply (Htc x s); auto].
  - intros x s Hx Hs. rewrite !elem_of_app, !list_elem_of_singleton in Hx.
    destruct Hx as [[Hx|[=]]|[Hx|[=]]]; apply (Htr x s); auto.
  - rewrite size_insert by done. rewrite Hcount, u16_small; lia.
  - rewrite size_insert by done. lia.
  - set_solver.
  - set_solver.
Qed.

Lemma core_start_loop n w A P D hand :
  core w A P D hand → Z.of_nat (size A) + Z.of_nat n ≤ sc_concurrency c →
  ∃ A' P', core (start_loop n w) A' P' D hand ∧ A ∪ P = A' ∪ P' ∧ A ⊆ A' ∧ same_rest w (start_loop n w) ∧ ((0 < n)%nat → A' = ∅ → P' = ∅).
Proof.
  revert w A P. induction n as [|n IH]; intros w A P Hcore Hn; cbn [start_loop]; [exists A, P; split_and!; [done..|repeat split|lia]|].
  pose proof (core_start w A P D hand Hcore ltac:(lia)) as Hs. destruct (start_stream w) as [w'|] eqn:Hstart.
  2:{ exists A, P. split_and!; [done..|repeat split|done]. }
  destruct Hs as (v & Hv & Hcore' & Hsame). destruct (IH w' ({[v]} ∪ A) (P ∖ {[v]}) Hcore') as (A' & P' & Hc' & Hu & Hsub & Hsr & _).
  { destruct Hcore as (_ & _ & _ & _ & _ & Hdis & _). rewrite size_insert by set_solver. lia. }
  exists A', P'. split_and!; [done| |set_solver| |].
  - rewrite <-Hu. apply set_eq. intros x. destruct (decide (x = v)); set_solver.
  - unfold same_rest in *. intuition congruence.
  - intros _ ->. set_solver.
Qed.

Lemma core_start_one w A P D hand :
  core w A P D hand → Z.of_nat (size A) < sc_concurrency c →
  ∃ A' P', core (start_streams 1 w) A' P' D hand ∧ A ∪ P = A' ∪ P' ∧ same_rest w (start_streams 1 w) ∧
    (w_cancelled w = false → A' = ∅ → P' = ∅).
Proof.
  intros Hcore HA. unfold start_streams. destruct (w_cancelled w) eqn:Hc; [exists A, P; split_and!; [done..|repeat split|done]|].
  destruct (core_start_loop (Z.to_nat 1) w A P D hand Hcore) as (A' & P' & Hc' & Hu & _ & Hsr & Hp); [lia|].
  exists A', P'. split_and!; try done. intros _. apply Hp. lia.
Qed.

(** *** Tasks *)

Lemma core_post w A P D v t s :
  core w A P D [v] → live_of t = Some v → w_all w !! v = Some s →
  (if decide (t = run_start v ∨ t = creating v) then fresh s else is_running s = true) → core (post t w) A P D [].
Proof.
  intros (Hs & Hb & [Hnd Hta Htl Htc Htr] & Hrest) Ht Hv Hok. split_and!; [done|done|split|apply Hrest..]; cbn.
  - rewrite live_app. cbn. rewrite Ht. cbn in Hnd |- *. by rewrite Permutation_app_comm.
  - intros x. rewrite live_app. cbn. rewrite Ht. rewrite elem_of_app, list_elem_of_singleton. intros Hx. apply Hta. cbn. rewrite elem_of_cons. tauto.
  - intros x Hx. rewrite live_app. cbn. rewrite Ht. rewrite elem_of_app, list_elem_of_singleton. specialize (Htl x Hx). cbn in Htl. rewrite elem_of_cons in Htl. tauto.
  - intros x s' Hx Hs'. rewrite !elem_of_app, !list_elem_of_singleton in Hx. 
    assert (Hx' : (run_start x ∈ w_tasks w ∨ creating x ∈ w_tasks w) ∨ t = run_start x ∨ t = creating x) by naive_solver.
    destruct Hx' as [Hx'|Hx']; [by eapply Htc|]. assert (x = v) as -> by (destruct Hx'; subst t; by injection Ht). simplify_eq.
    by rewrite decide_True in Hok.
  - intros x s' Hx Hs'. rewrite !elem_of_app, !list_elem_of_singleton in Hx.
    assert (Hx' : (run_continue x ∈ w_tasks w ∨ continuing x ∈ w_tasks w) ∨ t = run_continue x ∨ t = continuing x) by naive_solver.
    destruct Hx' as [Hx'|Hx']; [by eapply Htr|]. assert (x = v) as -> by (destruct Hx'; subst t; by injection Ht). simplify_eq.
    rewrite decide_False in Hok; [done|]. destruct Hx'; subst t; naive_solver.
Qed.

Lemma core_stick w A P D v : core w A P D [v] → core (stick v w) A P D [].
Proof.
  intros (Hs & Hb & [Hnd Hta Htl Htc Htr] & Hrest). split_and!; [done|done|split|apply Hrest..]; cbn in *; try done.
  - by apply NoDup_cons in Hnd as [_ Hnd].
  - intros x Hx. apply Hta. by right.
  - intros x Hx. specialize (Htl x Hx). rewrite elem_of_cons in Htl. set_solver.
Qed.

Lemma live_perm l l' : l ≡ₚ l' → live l ≡ₚ live l'.
Proof. intros Hl. unfold live. by rewrite Hl. Qed.

Lemma list_find_delete (t : task) l i t' : list_find (λ x, x = t) l = Some (i, t') → t' = t ∧ l ≡ₚ t :: delete i l ∧ t ∈ l.
Proof.
  intros Hf. apply list_find_Some in Hf as (Hi & -> & _). split_and!; [done|by apply delete_Permutation|by eapply list_elem_of_lookup_2].
Qed.

(** Taking a task: the account, and what is known of its stream *)
Lemma core_take t f w A P D w' :
  core w A P D [] → take_task t f w = Some w' →
  ∃ w0, w' = f w0 ∧ core w0 A P D (option_list (live_of t)) ∧ same_rest w w0 ∧
    ∀ v s, live_of t = Some v → w_all w0 !! v = Some s →
      if decide (t = run_start v ∨ t = creating v) then fresh s else is_running s = true.
Proof.
  intros (Hs & Hb & [Hnd Hta Htl Htc Htr] & Hrest) Ht. unfold take_task in Ht. destruct (list_find _ _) as [[i t']|] eqn:Hf; [|done].
  cbn in Ht. injection Ht as <-. apply list_find_delete in Hf as (-> & Hperm & Hin). exists (set_tasks (delete i (w_tasks w)) w).
  split; [done|]. assert (Hlive : live (w_tasks w) ≡ₚ option_list (live_of t) ++ live (delete i (w_tasks w))).
  { rewrite (live_perm _ _ Hperm). cbn. by destruct (live_of t). }
  assert (Hsub : ∀ x, x ∈ delete i (w_tasks w) → x ∈ w_tasks w) by (intros x Hx; rewrite Hperm; by right).
  cbn in Hnd, Hta, Htl. split_and!; [|repeat split|].
  - split_and!; [done|done|split|apply Hrest..]; cbn.
    + by rewrite <-Hlive.
    + intros x. rewrite <-Hlive. apply Hta.
    + intros x Hx. rewrite <-Hlive. by apply Htl.
    + intros x s Hx. apply Htc. naive_solver.
    + intros x s Hx. apply Htr. naive_solver.
  - intros v s Hv Hsv. cbn in Hsv. case_decide as Hd; [apply (Htc v s); [by destruct Hd; subst t; auto|done]|].
    apply (Htr v s); [|done]. destruct t; cbn in Hv; simplify_eq; naive_solver.
Qed.

Lemma core_cancel w A P D hand : core w A P D hand → core (cancel w) A P D hand.
Proof.
  intros ([Hfit Hkn Hpe Hac Hen] & Hb & [Hnd Hta Htl Htc Htr] & Hrest).
  assert (Hl : ∀ v s', w_all (cancel w) !! v = Some s' → ∃ s, w_all w !! v = Some s ∧ str_node_id s' = str_node_id s ∧
    str_create_options s' = str_create_options s ∧ str_state s' = str_state s ∧ str_last_seen_key s' = str_last_seen_key s).
  { intros v s' Hs'. cbn in Hs'. rewrite map_lookup_imap in Hs'. destruct (w_all w !! v) as [s|] eqn:Hs; [|done].
    cbn in Hs'. injection Hs' as <-. exists s. by case_decide. }
  split_and!; [split|done|split|apply Hrest..]; try done.
  - intros v. specialize (Hfit v). cbn. rewrite map_lookup_imap. destruct (w_all w !! v); cbn; [|done]. by case_decide.
  - intros v s' (s & Hs & _ & _ & H1' & H2')%Hl Hv. unfold fresh. rewrite H1', H2'. by apply (Hpe v s).
  - intros v s' (s & Hs & _ & _ & H1' & H2')%Hl Hv. unfold fresh, is_running. rewrite H1', H2'. by apply (Hac v s).
  - intros v s' (s & Hs & _ & _ & H1' & H2')%Hl Hv. unfold is_failed, is_completed. rewrite H1'. by apply (Hen v s).
  - intros v s' Hv (s & Hs & _ & _ & H1' & H2')%Hl. unfold fresh. rewrite H1', H2'. by apply (Htc v s).
  - intros v s' Hv (s & Hs & _ & _ & H1' & H2')%Hl. unfold is_running. rewrite H1'. by apply (Htr v s).
Qed.

(** ** The channel *)

Definition ended_of (m : message) : option Z := match m with end_signal v _ => Some v | _ => None end.
Definition item_of (m : message) : option range_scan_item := match m with item_message i => Some i | _ => None end.
Definition got_of (call : nat * next_result) : option range_scan_item := match call.2 with got_item i => Some i | _ => None end.

(** What the handlers got of what was sent; [S] are the partitions whose end
    was sent.  The scan is not cancelled where it speaks of [delivered]. *)
Definition fifo (w : world) (S : gset Z) : Prop :=
  NoDup (omap ended_of (w_sent w)) ∧ (∀ v, v ∈ omap ended_of (w_sent w) ↔ v ∈ S) ∧
  (∀ m, m ∈ contents (w_items w) → m ∈ w_sent w) ∧
  ((∀ v, is_Some (node_of v) → v ∈ S) → w_sent w = [] ∨ ∃ l v e, w_sent w = l ++ [end_signal v e]) ∧
  (w_cancelled w = false → (∀ v ec, end_signal v (Some ec) ∉ w_sent w) ∧ ∃ delivered, w_sent w = delivered ++ contents (w_items w) ∧
     omap item_of delivered = omap got_of (w_calls w) ∧
     (∀ v, v ∈ w_streams w ↔ is_Some (node_of v) ∧ v ∉ omap ended_of delivered) ∧ (w_streams w ≠ ∅ → is_open (w_items w))).

Lemma fifo_same w w' S : same_rest w w' → fifo w S → fifo w' S.
Proof. intros (_ & Hst & _ & Hc & Hi & _ & Hs & Hca & _). unfold fifo. by rewrite Hst, Hc, Hi, Hs, Hca. Qed.

Lemma sent_contents w S m m' : fifo w S → m' ∈ contents (async_send m (w_items w)) → m' ∈ w_sent w ++ [m].
Proof.
  intros (_ & _ & Hc & _) Hm. eapply sublist_subseteq in Hm; [|apply send_contents]. apply elem_of_app in Hm as [Hm|Hm]; apply elem_of_app; [left; by apply Hc|by right].
Qed.

(** A partition that has not ended keeps the channel open. *)
Lemma fifo_open w S v : fifo w S → w_cancelled w = false → is_Some (node_of v) → v ∉ S → w_streams w ≠ ∅ ∧ is_open (w_items w).
Proof.
  intros (_ & Hs & _ & _ & Hu) Hc Hv HvS. destruct (Hu Hc) as (_ & delivered & Hsent & _ & Hst & Hopen).
  assert (Hin : v ∈ w_streams w).
  { apply Hst. split; [done|]. intros Hd. apply HvS, Hs. rewrite Hsent, omap_app. apply elem_of_app. by left. }
  assert (Hne : w_streams w ≠ ∅) by set_solver. auto.
Qed.

Lemma fifo_send w S S' m v :
  fifo w S → v ∉ S → is_Some (node_of v) →
  (m = end_signal v None ∧ S' = {[v]} ∪ S ∨ (∃ i, m = item_message i) ∧ S' = S) → fifo (send m w) S'.
Proof.
  intros Hf HvS Hv Hm. pose proof Hf as (Hnd & Hs & Hc & Hl & Hu). unfold fifo; cbn.
  assert (Hended : omap ended_of (w_sent w ++ [m]) = omap ended_of (w_sent w) ++ option_list (ended_of m)) by (rewrite omap_app; cbn; by destruct (ended_of m)).
  rewrite Hended. split_and!.
  - destruct Hm as [[-> _]|[[i ->] _]]; cbn; [|by rewrite app_nil_r]. apply NoDup_app. split_and!; [done| |apply NoDup_singleton].
    intros x Hx ->%list_elem_of_singleton. by apply HvS, Hs.
  - intros x. destruct Hm as [[-> ->]|[[i ->] ->]]; cbn; [|by rewrite app_nil_r, Hs]. rewrite elem_of_app, Hs, list_elem_of_singleton. set_solver.
  - intros m' Hm'. by eapply sent_contents.
  - intros Hall. right. destruct Hm as [[-> ->]|[[i ->] ->]]; [by eexists _, v, None|]. exfalso. by apply HvS, Hall.
  - intros Hca. destruct (fifo_open w S v Hf Hca Hv HvS) as [Hne Hopen]. destruct (Hu Hca) as (Hno & delivered & Hsent & Hitems & Hst & _).
    destruct (send_open m _ Hopen) as (Hopen' & Hcont & _). split.
    + intros x ec Hx. apply elem_of_app in Hx as [Hx|Hx%list_elem_of_singleton]; [by eapply Hno|]. by destruct Hm as [[-> _]|[[i ->] _]].
    + exists delivered. split_and!; try done. by rewrite Hcont, Hsent, app_assoc.
Qed.

(** An error ends the scan. *)
Lemma fifo_send_error w S ec v :
  fifo w S → v ∉ S → fifo (cancel (send (end_signal v (Some ec)) w)) ({[v]} ∪ S).
Proof.
  intros Hf HvS. pose proof Hf as (Hnd & Hs & Hc & Hl & Hu). unfold fifo; cbn. rewrite omap_app. cbn. split_and!; [| | |by eauto|done].
  - apply NoDup_app. split_and!; [done| |apply NoDup_singleton]. intros x Hx ->%list_elem_of_singleton. by apply HvS, Hs.
  - intros x. rewrite elem_of_app, Hs, list_elem_of_singleton. set_solver.
  - intros m' Hm'. by eapply sent_contents.
Qed.

Lemma fifo_cancel w S : fifo w S → fifo (cancel w) S.
Proof. intros (Hnd & Hs & Hc & Hl & _). by split_and!. Qed.

Lemma fifo_call w S h r : fifo w S → got_of (h, r) = None → fifo (call h r w) S.
Proof.
  intros (Hnd & Hs & Hc & Hl & Hu) Hr. split_and!; try done. cbn. intros Hca. destruct (Hu Hca) as (Hno & delivered & Hsent & Hitems & Hst).
  split; [done|]. exists delivered. split_and!; [done| |apply Hst..]. rewrite omap_app, Hitems. cbn. by rewrite Hr, app_nil_r.
Qed.

(** When no stream is left, nothing is in the channel. *)
Lemma fifo_done w S :
  fifo w S → (∀ v, v ∈ S → is_Some (node_of v)) → w_cancelled w = false → w_streams w = ∅ → contents (w_items w) = [].
Proof.
  intros (Hnd & Hs & Hc & Hl & Hu) HS Hca Hst. destruct (Hu Hca) as (_ & delivered & Hsent & _ & Hstr & _).
  assert (Hall : ∀ v, is_Some (node_of v) → v ∈ omap ended_of delivered).
  { intros v Hv. destruct (decide (v ∈ omap ended_of delivered)) as [|Hn]; [done|]. exfalso.
    assert (v ∈ w_streams w) by (by apply Hstr). set_solver. }
  destruct Hl as [He|(l & v & e & He)].
  - intros v Hv. apply Hs. rewrite Hsent, omap_app. apply elem_of_app. left. by apply Hall.
  - rewrite He in Hsent. symmetry in Hsent. by apply app_nil in Hsent as [_ ?].
  - destruct (contents (w_items w)) as [|x rest] using rev_ind; [done|]. exfalso. rewrite He in Hsent. rewrite app_assoc in Hsent.
    apply app_inj_tail in Hsent as [Hl' <-]. rewrite He, Hl', omap_app, omap_app in Hnd. cbn in Hnd.
    apply NoDup_app in Hnd as (_ & Hnd & _). apply (Hnd v); [|by left]. apply elem_of_app. left. apply Hall, HS, Hs.
    rewrite He, omap_app. apply elem_of_app. right. by left.
Qed.

Lemma fifo_next_item w S h : fifo w S → (∀ v, v ∈ S → is_Some (node_of v)) → fifo (next_item h w) S.
Proof.
  intros Hf HS. unfold next_item. destruct (bool_decide (w_streams w = ∅) || w_cancelled w) eqn:Hd.
  - apply fifo_call; [|done]. pose proof Hf as (Hnd & Hs & Hc & Hl & Hu).
    assert (Hsub : ∀ m, m ∈ contents (channel_close (channel_cancel (w_items w))) → m ∈ contents (w_items w)).
    { intros m Hm. eapply sublist_subseteq in Hm; [|apply close_contents]. by eapply sublist_subseteq in Hm; [|apply cancel_contents]. }
    split_and!; cbn; [done|done|by auto|done|]. intros Hca. rewrite Hca, orb_false_r in Hd. apply bool_decide_eq_true in Hd.
    pose proof (fifo_done w S Hf HS Hca Hd) as Hnil. destruct (Hu Hca) as (Hno & delivered & Hsent & Hitems & Hst & _).
    split; [done|]. exists delivered. split_and!; [|done|done|done]. rewrite Hsent, Hnil.
    destruct (contents (channel_close _)) as [|m l]; [done|]. exfalso. specialize (Hsub m ltac:(by left)). rewrite Hnil in Hsub. set_solver.
  - apply orb_false_iff in Hd as [Hne Hca]. apply bool_decide_eq_false in Hne. pose proof Hf as (Hnd & Hs & Hc & Hl & Hu).
    split_and!; cbn; [done|done|by rewrite receive_contents|done|]. intros _. destruct (Hu Hca) as (Hno & delivered & Hsent & Hitems & Hst & Hopen).
    split; [done|]. exists delivered. rewrite receive_contents. split_and!; try done. intros _. by apply receive_open, Hopen.
Qed.

Lemma fifo_deliver w S h r ch :
  fifo w S → (∀ v, v ∈ S → is_Some (node_of v)) → deliver (w_items w) = Some (h, r, ch) → fifo (received h r (set_items ch w)) S.
Proof.
  intros Hf HS Hd. pose proof Hf as (Hnd & Hs & Hc & Hl & Hu). pose proof (deliver_contents _ _ _ _ Hd) as Hcont.
  assert (Hin : ∀ m, m ∈ contents ch → m ∈ w_sent w).
  { intros m Hm. apply Hc. destruct r; [rewrite Hcont; by right|by eapply sublist_subseteq]. }
  destruct r as [m|].
  2:{ apply fifo_call; [|done]. split_and!; cbn; [done..|]. intros Hca. destruct (Hu Hca) as (Hno & delivered & Hsent & Hitems & Hst & Hopen).
    assert (Hemp : w_streams w = ∅).
    { destruct (decide (w_streams w = ∅)) as [|Hne]; [done|]. pose proof (deliver_open _ (Hopen Hne)) as Hdo. by rewrite Hd in Hdo. }
    split; [done|]. exists delivered. split_and!; try done. rewrite (fifo_done w S) in * by done. apply sublist_nil_r in Hcont. by rewrite Hcont. }
  assert (Hbase : w_cancelled w = false → (w_streams w ≠ ∅ → is_open ch)).
  { intros Hca Hne. destruct (Hu Hca) as (_ & delivered & _ & _ & _ & Hopen). pose proof (deliver_open _ (Hopen Hne)) as Hdo. rewrite Hd in Hdo. apply Hdo. }
  assert (Hm : m ∈ w_sent w) by (apply Hc; rewrite Hcont; by left).
  destruct m as [i|v [ec|]]; cbn [received].
  - split_and!; cbn; [done..|]. intros Hca. destruct (Hu Hca) as (Hno & delivered & Hsent & Hitems & Hst & _).
    split; [done|]. exists (delivered ++ [item_message i]). rewrite !omap_app, Hitems. cbn. rewrite app_nil_r. split_and!; [|done|done|by apply Hbase].
    by rewrite Hsent, Hcont, <-app_assoc.
  - apply fifo_call; [|done]. split_and!; cbn; [done..|]. intros Hca. destruct (Hu Hca) as (Hno & _). by apply Hno in Hm.
  - split_and!; cbn; [done..|]. intros Hca. destruct (Hu Hca) as (Hno & delivered & Hsent & Hitems & Hst & _).
    split; [done|]. exists (delivered ++ [end_signal v None]). rewrite !omap_app. cbn. rewrite app_nil_r. split_and!; [|done| |].
    + by rewrite Hsent, Hcont, <-app_assoc.
    + intros x. rewrite elem_of_difference, Hst, elem_of_app, list_elem_of_singleton, elem_of_singleton. tauto.
    + intros Hne. apply Hbase; [done|]. set_solver.
Qed.

(** ** The invariant *)

Definition account (w : world) (A P D : gset Z) (hand : list Z) : Prop :=
  core w A P D hand ∧ (∀ v, is_Some (node_of v) ↔ v ∈ A ∪ P ∪ D) ∧ D ## A ∪ P ∧ fifo w D.

(** Every partition is read, waits or has ended, and if the scan is not
    cancelled, none waits while none is read. *)
Definition inv (w : world) : Prop :=
  ∃ A P D, account w A P D [] ∧ (w_cancelled w = false → A = ∅ → P = ∅).

(** The event of a stream is being handled. *)
Definition held (v : Z) (s : range_scan_stream) (w : world) : Prop := ∃ A P D, account w A P D [v] ∧ w_all w !! v = Some s.

Lemma account_hand w A P D v : account w A P D [v] → v ∈ A ∧ v ∉ P ∧ v ∉ D.
Proof. intros ((_ & _ & Ht & _ & _ & Hdis & _) & _ & HD & _). assert (v ∈ A) by (apply (ta_active _ _ _ _ _ Ht); by left). set_solver. Qed.

Lemma leave_rest v id w A P D hand : core w A P D hand → node_of v = Some id → same_rest w (leave_node v id w).
Proof.
  intros (_ & Hb & _) Hid. destruct (ba_dom _ _ _ Hb v id Hid) as [n Hn]. unfold leave_node, upd_node. rewrite Hn. repeat split.
Qed.

(** What leaving its node makes of the account *)
Lemma account_leave w A P D v s :
  account w A P D [v] → w_all w !! v = Some s →
  let w' := leave_node v (str_node_id s) w in
  core w' (A ∖ {[v]}) P D [] ∧ same_rest w w' ∧ fifo w' D ∧ node_of v = Some (str_node_id s) ∧ Z.of_nat (size (A ∖ {[v]})) < (sc_concurrency c).
Proof.
  intros (Hcore & Hcover & HD & Hf) Hs w'. assert (Hid : node_of v = Some (str_node_id s)).
  { destruct Hcore as ([Hfit _ _ _ _] & _). specialize (Hfit v). rewrite Hs in Hfit. apply Hfit. }
  pose proof (core_leave w A P D v _ Hid Hcore) as Hc'. pose proof (leave_rest v _ w _ _ _ _ Hcore Hid) as Hr.
  split_and!; [done..|by eapply fifo_same|done|]. destruct Hcore as (_ & _ & Ht & _ & Hle & _).
  rewrite (size_remove v A) in Hle by (apply (ta_active _ _ _ _ _ Ht); by left). lia.
Qed.

Lemma inv_of w A P D : account w A P D [] → (w_cancelled w = false → A = ∅ → P = ∅) → inv w.
Proof. intros Ha Hp. by exists A, P, D. Qed.

Lemma held_end v s ec fatal w : held v s w → inv (end_stream v s ec fatal w).
Proof.
  intros (A & P & D & Ha & Hs). pose proof (account_hand _ _ _ _ _ Ha) as (HvA & HvP & HvD).
  destruct (account_leave _ _ _ _ _ _ Ha Hs) as (Hc & Hr & Hf & Hid & Hlt). destruct Ha as (_ & Hcover & Hdis & _).
  unfold end_stream, stream_failed, stream_completed. rewrite leave_upd. set (w1 := leave_node v (str_node_id s) w) in *. clearbody w1.
  set (w2 := upd_stream v (set_stream_state (failed ec fatal)) w1).
  assert (Hc2 : core w2 (A ∖ {[v]}) P ({[v]} ∪ D) []).
  { eapply (core_join _ _ _ _ _ v (set_stream_state (failed ec fatal) s)); [apply core_upd_out; [done|set_solver|by intros []]| |set_solver|by left].
    cbn. by rewrite lookup_alter_eq, (proj1 Hr), Hs. }
  assert (Hf2 : fifo w2 D) by exact Hf.
  assert (Hcover' : ∀ A' P' : gset Z, (A ∖ {[v]}) ∪ P = A' ∪ P' → ∀ x, is_Some (node_of x) ↔ x ∈ A' ∪ P' ∪ ({[v]} ∪ D)).
  { intros A' P' Hu x. rewrite <-Hu, Hcover. destruct (decide (x = v)); set_solver. }
  assert (Hdis' : ∀ A' P' : gset Z, (A ∖ {[v]}) ∪ P = A' ∪ P' → {[v]} ∪ D ## A' ∪ P') by (intros A' P' <-; set_solver).
  destruct fatal.
  - apply (inv_of _ (A ∖ {[v]}) P ({[v]} ∪ D)); [|done]. split_and!; [apply core_cancel; exact Hc2|exact (Hcover' _ _ eq_refl)|exact (Hdis' _ _ eq_refl)|by apply fifo_send_error].
  - destruct (core_start_one (send (end_signal v None) w2) _ _ _ _ Hc2 Hlt) as (A' & P' & Hc3 & Hu & Hr3 & Hp3).
    apply (inv_of _ A' P' ({[v]} ∪ D)); [|by intros Hca; apply Hp3; rewrite <-Hca; symmetry; apply Hr3]. split_and!; [done|exact (Hcover' _ _ Hu)|exact (Hdis' _ _ Hu)|].
    eapply fifo_same; [done|]. eapply fifo_send; [done..|by rewrite Hid|by left].
Qed.

Lemma held_complete v s w : held v s w → inv (upd_stream v (set_stream_state completed) (stream_completed v (str_node_id s) w)).
Proof.
  intros (A & P & D & Ha & Hs). pose proof (account_hand _ _ _ _ _ Ha) as (HvA & HvP & HvD).
  destruct (account_leave _ _ _ _ _ _ Ha Hs) as (Hc & Hr & Hf & Hid & Hlt). destruct Ha as (_ & Hcover & Hdis & _).
  unfold stream_completed. set (w1 := leave_node v (str_node_id s) w) in *. clearbody w1.
  destruct (core_start_one (send (end_signal v None) w1) _ _ _ _ Hc Hlt) as (A' & P' & Hc3 & Hu & Hr3 & Hp3).
  set (w3 := start_streams 1 (send (end_signal v None) w1)) in *.
  apply (inv_of _ A' P' ({[v]} ∪ D)); [split_and!|].
  - eapply (core_join _ _ _ _ _ v (set_stream_state completed s)); [apply core_upd_out; [done|set_solver|by intros []]| |set_solver|by right].
    cbn. rewrite lookup_alter_eq, (proj1 Hr3). cbn. by rewrite (proj1 Hr), Hs.
  - intros x. rewrite Hcover, <-Hu. destruct (decide (x = v)); set_solver.
  - rewrite <-Hu. set_solver.
  - enough (fifo w3 ({[v]} ∪ D)) by done. eapply fifo_same; [exact Hr3|]. eapply fifo_send; [done..|by rewrite Hid|by left].
  - intros Hca. apply Hp3. rewrite <-Hca. symmetry. apply Hr3.
Qed.

Lemma held_retry v s w :
  held v s w → fresh s → inv (stream_start_failed_awaiting_retry v (str_node_id s) (upd_stream v (set_stream_state created) w)).
Proof.
  intros (A & P & D & Ha & Hs) Hfresh. pose proof (account_hand _ _ _ _ _ Ha) as (HvA & HvP & HvD).
  destruct (account_leave _ _ _ _ _ _ Ha Hs) as (Hc & Hr & Hf & Hid & Hlt). destruct Ha as ((_ & _ & _ & _ & _ & _ & Hst & _) & Hcover & Hdis & _).
  unfold stream_start_failed_awaiting_retry. rewrite leave_upd. set (w1 := leave_node v (str_node_id s) w) in *. clearbody w1.
  set (w2 := upd_stream v (set_stream_state created) w1).
  assert (Hc2 : core (upd_node (str_node_id s) (node_enqueue v) w2) (A ∖ {[v]}) ({[v]} ∪ P) D []).
  { eapply (core_enqueue _ _ _ _ _ _ _ (set_stream_state created s)); [apply core_upd_out; [done|set_solver|by intros []]|done|set_solver| | |].
    - cbn. by rewrite lookup_alter_eq, (proj1 Hr), Hs.
    - split; [done|apply Hfresh].
    - cbn. destruct Hr as (_ & -> & _). set_solver. }
  assert (Hr2 : same_rest w2 (upd_node (str_node_id s) (node_enqueue v) w2)).
  { destruct Hc as (_ & Hb & _). destruct (ba_dom _ _ _ Hb v _ Hid) as [n Hn]. unfold upd_node. change (w_balancer w2) with (w_balancer w1). rewrite Hn. repeat split. }
  set (w3 := upd_node _ _ w2) in *. assert (Hf3 : fifo w3 D) by (eapply fifo_same; [exact Hr2|exact Hf]).
  assert (Hcover' : ∀ A' P' : gset Z, (A ∖ {[v]}) ∪ ({[v]} ∪ P) = A' ∪ P' → ∀ x, is_Some (node_of x) ↔ x ∈ A' ∪ P' ∪ D).
  { intros A' P' Hu x. rewrite <-Hu, Hcover. destruct (decide (x = v)); set_solver. }
  assert (Hdis' : ∀ A' P' : gset Z, (A ∖ {[v]}) ∪ ({[v]} ∪ P) = A' ∪ P' → D ## A' ∪ P') by (intros A' P' <-; set_solver).
  case_decide as Hzero.
  - destruct (core_start_one w3 _ _ _ _ Hc2 Hlt) as (A' & P' & Hc4 & Hu & Hr4 & Hp4).
    apply (inv_of _ A' P' D); [|by intros Hca; apply Hp4; rewrite <-Hca; symmetry; apply Hr4]. split_and!; [done|exact (Hcover' _ _ Hu)|exact (Hdis' _ _ Hu)|by eapply fifo_same].
  - eapply inv_of; [split_and!; [exact Hc2|exact (Hcover' _ _ eq_refl)|exact (Hdis' _ _ eq_refl)|done]|]. intros _ HA. destruct Hc2 as (_ & _ & _ & Hcount & _). by rewrite HA, size_empty in Hcount.
Qed.

Lemma held_post v s w t :
  held v s w → live_of t = Some v → (if decide (t = run_start v ∨ t = creating v) then fresh s else is_running s = true) → inv (post t w).
Proof.
  intros (A & P & D & Ha & Hs) Ht Hok. pose proof (account_hand _ _ _ _ _ Ha) as (HvA & _). destruct Ha as (Hc & Hcover & Hdis & Hf).
  eapply (inv_of _ A P D); [|set_solver]. split_and!; [by eapply core_post|done..].
Qed.

Lemma held_stick v s w : held v s w → inv (stick v w).
Proof.
  intros (A & P & D & Ha & Hs). pose proof (account_hand _ _ _ _ _ Ha) as (HvA & _). destruct Ha as (Hc & Hcover & Hdis & Hf).
  eapply (inv_of _ A P D); [|set_solver]. split_and!; [by apply core_stick|done..].
Qed.

Lemma held_upd v s f w :
  held v s w → str_node_id (f s) = str_node_id s → str_create_options (f s) = str_create_options s → fresh (f s) ∨ is_running (f s) = true →
  held v (f s) (upd_stream v f w).
Proof.
  intros (A & P & D & Ha & Hs) H1' H2' Hok. pose proof (account_hand _ _ _ _ _ Ha) as (HvA & HvP & HvD). destruct Ha as (Hc & Hcover & Hdis & Hf).
  exists A, P, D. split; [|cbn; by rewrite lookup_alter_eq, Hs]. split_and!; [by eapply core_upd_hand|done..].
Qed.

(** ** Events *)

Lemma inv_stream w A P D v : account w A P D [] → v ∈ A ∪ P ∪ D → ∃ s, w_all w !! v = Some s.
Proof. intros (Hc & _) Hv. destruct (core_known _ _ _ _ _ _ Hc Hv) as (s & Hs & _). by exists s. Qed.

(** A task of a stream is taken. *)
Lemma inv_take w t v f w' :
  inv w → live_of t = Some v → take_task t f w = Some w' →
  ∃ s w0, w' = f w0 ∧ held v s w0 ∧ if decide (t = run_start v ∨ t = creating v) then fresh s else is_running s = true.
Proof.
  intros (A & P & D & (Hc & Hcover & Hdis & Hf) & _) Hv Ht. destruct (core_take _ _ _ _ _ _ _ Hc Ht) as (w0 & -> & Hc0 & Hr & Hs).
  rewrite Hv in Hc0. assert (Ha : account w0 A P D [v]) by (split_and!; [done..|by eapply fifo_same]).
  destruct (core_known w0 A P D [v] v Hc0) as (s & Hs0 & _); [apply account_hand in Ha; set_solver|].
  exists s, w0. split_and!; [done|by exists A, P, D|by apply Hs].
Qed.

Lemma held_with v s w f : held v s w → with_stream v f w = f s w.
Proof. intros (A & P & D & _ & Hs). unfold with_stream. by rewrite Hs. Qed.

Lemma inv_start w v t accepted w' : inv w → step (ev_start v t accepted) w = Some w' → inv w'.
Proof.
  intros Hi Ht. destruct (inv_take w (run_start v) v _ w' Hi eq_refl Ht) as (s & w0 & -> & Hh & Hs). rewrite decide_True in Hs by auto.
  unfold stream_start. rewrite (held_with v s w0) by done.
  assert (Ho : resume_from s = str_create_options s).
  { unfold resume_from. destruct Hs as [_ ->]. destruct (co_scan_type (str_create_options s)); done. }
  assert (Hcreate : ∀ f : range_scan_stream → range_scan_stream, (∀ s, str_node_id (f s) = str_node_id s ∧ str_create_options (f s) = str_create_options s ∧
      str_state (f s) = str_state s ∧ str_last_seen_key (f s) = str_last_seen_key s) →
    inv (let w := request (range_scan_create v (resume_from s)) (upd_stream v (set_options (resume_from s)) (upd_stream v f w0)) in
         if accepted then post (creating v) w else stick v w)).
  { intros f Hf. destruct (Hf s) as (Hf1 & Hf2 & Hf3 & Hf4). rewrite Ho.
    pose proof (held_upd v s f w0 Hh Hf1 Hf2 ltac:(left; unfold fresh; rewrite Hf3, Hf4; exact Hs)) as Hh1.
    pose proof (held_upd v (f s) (set_options (str_create_options s)) _ Hh1 eq_refl (eq_sym Hf2) ltac:(left; unfold fresh; cbn; rewrite Hf3, Hf4; exact Hs)) as Hh2.
    destruct accepted; [|by eapply held_stick]. eapply held_post; [exact Hh2|done|]. rewrite decide_True by auto. unfold fresh. cbn. rewrite Hf3, Hf4. exact Hs. }
  destruct (str_first_attempt_timestamp s) as [first|].
  - destruct (_ <? _); [by apply held_end|]. assert (Hid : upd_stream v id w0 = w0) by (unfold upd_stream; rewrite alter_id by done; by destruct w0).
    pose proof (Hcreate id ltac:(done)) as Hc. by rewrite Hid in Hc.
  - by apply (Hcreate (set_first_attempt t)).
Qed.

Lemma held_resume v s w : held v s w → is_running s = true → inv (resume v w).
Proof.
  intros Hh Hr. unfold resume. rewrite (held_with v s w) by done. rewrite Hr. cbn [negb]. destruct (str_should_cancel s).
  - unfold stream_cancel. case_decide; [by eapply held_stick|]. pose proof (held_stick _ _ _ Hh) as (A & P & D & (Hc & Hcover & Hdis & Hf) & Hp).
    exists A, P, D. split; [|done]. split_and!; try done. destruct Hc as (Hs & Hb & [Hnd Hta Htl Htc Htr] & Hrest).
    split_and!; [done|done|split|apply Hrest..]; cbn; rewrite ?live_app; cbn; rewrite ?app_nil_r; try done.
    + intros x s' Hx. apply Htc. rewrite !elem_of_app, !list_elem_of_singleton in Hx. naive_solver.
    + intros x s' Hx. apply Htr. rewrite !elem_of_app, !list_elem_of_singleton in Hx. naive_solver.
  - eapply held_post; [done|done|]. rewrite decide_False by naive_solver. done.
Qed.

Lemma inv_created w v answer w' : inv w → step (ev_created v answer) w = Some w' → inv w'.
Proof.
  intros Hi Ht. destruct (inv_take w (creating v) v _ w' Hi eq_refl Ht) as (s & w0 & -> & Hh & Hs). rewrite decide_True in Hs by auto.
  unfold stream_created. rewrite (held_with v s w0) by done. destruct answer as [ec|uuid].
  - repeat case_decide; [by apply held_end|by apply held_retry|by apply held_end].
  - eapply held_resume; [eapply (held_upd v s (set_stream_state (running uuid))); [done|done|done|by right]|done].
Qed.

Lemma inv_continue w v accepted w' : inv w → step (ev_continue v accepted) w = Some w' → inv w'.
Proof.
  intros Hi Ht. destruct (inv_take w (run_continue v) v _ w' Hi eq_refl Ht) as (s & w0 & -> & Hh & Hs). rewrite decide_False in Hs by naive_solver.
  unfold stream_continue. rewrite (held_with v s w0) by done.
  assert (Hh' : held v s (request (range_scan_continue (stream_uuid s) v) w0)) by exact Hh.
  destruct (_ && _); [|by eapply held_stick]. eapply held_post; [done|done|]. rewrite decide_False by naive_solver. done.
Qed.

Lemma inv_continued w v res ec w' : inv w → step (ev_continued v res ec) w = Some w' → inv w'.
Proof.
  intros Hi Ht. destruct (inv_take w (continuing v) v _ w' Hi eq_refl Ht) as (s & w0 & -> & Hh & Hs). rewrite decide_False in Hs by naive_solver.
  assert (Hnf : is_failed s = false ∧ is_completed s = false) by (unfold is_running, is_failed, is_completed in *; by destruct (str_state s)).
  destruct Hnf as [Hnf Hnc]. destruct ec as [ec|]; cbn [stream_continued].
  - unfold fail. rewrite (held_with v s w0) by done. rewrite Hnf. by apply held_end.
  - destruct (cr_complete res); [|destruct (cr_more res); [by eapply held_resume|by eapply held_stick]].
    unfold complete. rewrite (held_with v s w0) by done. rewrite Hnf, Hnc. cbn [orb]. by apply held_complete.
Qed.

Lemma inv_item w v i w' : inv w → step (ev_item v i) w = Some w' → inv w'.
Proof.
  intros Hi Ht. cbn in Ht. case_decide as Hin; [|done]. injection Ht as <-. pose proof Hi as (A & P & D & (Hc & Hcover & Hdis & Hf) & Hp).
  assert (HvA : v ∈ A) by (destruct Hc as (_ & _ & Hta & _); apply (ta_active _ _ _ _ _ Hta), list_elem_of_omap; by exists (continuing v)).
  destruct (core_known w A P D [] v Hc) as (s & Hs & Hid); [set_solver|]. unfold received_item, with_stream. rewrite Hs.
  destruct (str_should_cancel s); [done|]. exists A, P, D. split; [|done]. split_and!; try done.
  - exact (core_upd_running w A P D v (set_last_seen_key (it_key i)) s Hc Hin Hs eq_refl eq_refl eq_refl).
  - eapply (fifo_send (upd_stream v (set_last_seen_key (it_key i)) w) D D _ v); [exact Hf|set_solver|by rewrite Hid|by right; eauto].
Qed.

Lemma inv_next_item w h : inv w → inv (next_item h w).
Proof.
  intros (A & P & D & (Hc & Hcover & Hdis & Hf) & Hp). exists A, P, D.
  assert (HD : ∀ v, v ∈ D → is_Some (node_of v)) by (intros v Hv; apply Hcover; set_solver).
  pose proof (fifo_next_item w D h Hf HD) as Hf'. split.
  - split_and!; try done. unfold next_item. by destruct (_ || _).
  - unfold next_item. by destruct (_ || _).
Qed.

Lemma inv_cancel w : inv w → inv (cancel w).
Proof.
  intros (A & P & D & (Hc & Hcover & Hdis & Hf) & Hp). exists A, P, D. split; [|done]. split_and!; [by apply core_cancel|done|done|by eapply fifo_cancel].
Qed.

Lemma inv_call w h r : inv w → got_of (h, r) = None → inv (call h r w).
Proof. intros (A & P & D & (Hc & Hcover & Hdis & Hf) & Hp) Hr. exists A, P, D. split; [|done]. split_and!; try done. by apply fifo_call. Qed.

(** Tasks that belong to no stream *)
Lemma inv_other w t f w' : inv w → live_of t = None → take_task t f w = Some w' → ∃ w0, w' = f w0 ∧ inv w0.
Proof.
  intros (A & P & D & (Hc & Hcover & Hdis & Hf) & Hp) Hv Ht. destruct (core_take _ _ _ _ _ _ _ Hc Ht) as (w0 & -> & Hc0 & Hr & _).
  rewrite Hv in Hc0. exists w0. split; [done|]. exists A, P, D. split; [split_and!; [done..|by eapply fifo_same]|].
  intros Hca. apply Hp. rewrite <-Hca. symmetry. apply Hr.
Qed.

Lemma inv_deliver w w' : inv w → step ev_deliver w = Some w' → inv w'.
Proof.
  intros (A & P & D & (Hc & Hcover & Hdis & Hf) & Hp) Ht. cbn in Ht. destruct (deliver (w_items w)) as [[[h m] ch]|] eqn:Hd; [|done].
  cbn in Ht. injection Ht as <-. assert (HD : ∀ v, v ∈ D → is_Some (node_of v)) by (intros v Hv; apply Hcover; set_solver).
  pose proof (fifo_deliver w D h m ch Hf HD Hd) as Hf'. exists A, P, D. split; [|destruct m as [[|v [ec|]]|]; exact Hp].
  split_and!; try done. pose proof (deliver_contents _ _ _ _ Hd) as Hcont.
  destruct m as [[i|v [ec|]]|]; cbn [received]; try done.
  assert (HvD : v ∈ D).
  { pose proof Hf as (_ & Hs & Hm & _). apply Hs, list_elem_of_omap. exists (end_signal v None). split; [|done]. apply Hm. rewrite Hcont. by left. }
  destruct Hc as (Hs & Hb & [Hnd Hta Htl Htc Htr] & H1' & H2' & H3' & Hst & Hfault).
  split_and!; [done|done|split|done..| |done]; cbn; rewrite ?live_app; cbn; rewrite ?app_nil_r; try done.
  - intros x s Hx. apply Htc. rewrite !elem_of_app, !list_elem_of_singleton in Hx. naive_solver.
  - intros x s Hx. apply Htr. rewrite !elem_of_app, !list_elem_of_singleton in Hx. naive_solver.
  - set_solver.
Qed.

Lemma inv_step w e w' : inv w → step e w = Some w' → inv w'.
Proof.
  intros Hi Ht. destruct e as [v t accepted|v answer|v accepted|v i|v res ec|v uuid|h| |h|].
  - by eapply inv_start.
  - by eapply inv_created.
  - by eapply inv_continue.
  - by eapply inv_item.
  - by eapply inv_continued.
  - destruct (inv_other w (run_cancel v uuid) _ w' Hi eq_refl Ht) as (w0 & -> & Hi0). exact Hi0.
  - destruct (inv_other w (run_next h) _ w' Hi eq_refl Ht) as (w0 & -> & Hi0). by apply inv_next_item.
  - by eapply inv_deliver.
  - cbn in Ht. injection Ht as <-. unfold next. case_decide; [by apply inv_cancel, inv_call|by apply inv_next_item].
  - cbn in Ht. injection Ht as <-. by apply inv_cancel.
Qed.

(** ** The beginning *)

Definition balanced_to (v : Z) (b : range_scan_load_balancer) : Prop := ∀ id,
  match b !! id with
  | Some n => ns_active_stream_count n = 0 ∧ NoDup (ns_pending_vbuckets n) ∧ ∀ x, x ∈ ns_pending_vbuckets n ↔ x < v ∧ node_of x = Some id
  | None => ∀ x, x < v → node_of x ≠ Some id
  end.

Lemma balance_balanced l v b :
  0 ≤ v → drop (Z.to_nat v) (sc_active_nodes c) = l → balanced_to v b → balanced_to (v + zsize l) (balance v l b).
Proof.
  revert v b. induction l as [|node l IH]; intros v b Hv Hl Hb; cbn [balance]; [by rewrite Z.add_0_r|].
  assert (Hnode : sc_active_nodes c !! Z.to_nat v = Some node).
  { rewrite <-(Nat.add_0_r (Z.to_nat v)), <-lookup_drop, Hl. done. }
  assert (Hsmall : v < 65536) by (apply lookup_lt_Some in Hnode; unfold zsize in Hsize; lia).
  assert (Hid : node_of v = Some node) by (unfold node_of; by rewrite decide_True).
  replace (v + zsize (node :: l)) with (v + 1 + zsize l) by (unfold zsize; cbn; lia). apply IH; [lia| |].
  { replace (Z.to_nat (v + 1)) with (Z.to_nat v + 1)%nat by lia. by rewrite <-drop_drop, Hl. }
  rewrite u16_small by lia. intros id. specialize (Hb id). destruct (decide (id = node)) as [->|Hne].
  - rewrite lookup_partial_alter_eq. destruct (b !! node) as [n|]; cbn.
    + destruct Hb as (Ha & Hnd & Hp). split_and!; [done| |].
      * apply NoDup_app. split_and!; [done| |apply NoDup_singleton]. intros x Hx ->%list_elem_of_singleton. apply Hp in Hx. lia.
      * intros x. rewrite elem_of_app, Hp, list_elem_of_singleton. split; [intros [[? ?]| ->]; split; (done || lia)|].
        intros [Hx Hn]. destruct (decide (x = v)) as [->|]; [by right|left; split; [lia|done]].
    + split_and!; [done|apply NoDup_singleton|]. intros x. rewrite list_elem_of_singleton. split; [intros ->; split; [lia|done]|].
      intros [Hx Hn]. destruct (decide (x = v)) as [->|]; [done|]. exfalso. apply (Hb x); [lia|done].
  - rewrite lookup_partial_alter_ne by done. destruct (b !! id) as [n|].
    + destruct Hb as (Ha & Hnd & Hp). split_and!; [done..|]. intros x. rewrite Hp. split; [intros [? ?]; split; [lia|done]|].
      intros [Hx Hn]. split; [|done]. assert (x ≠ v) by congruence. lia.
    + intros x Hx Hn. destruct (decide (x = v)) as [->|]; [congruence|]. apply (Hb x); [lia|done].
Qed.

Lemma imap_map_lookup {A B} (f : nat → A → B) l v :
  (list_to_map (imap (λ i x, (Z.of_nat i, f i x)) l) : gmap Z B) !! v = if decide (0 ≤ v) then f (Z.to_nat v) <$> l !! Z.to_nat v else None.
Proof.
  induction l as [|x l IH] using rev_ind; [cbn; rewrite lookup_empty; by case_decide|]. rewrite imap_app. cbn. rewrite Nat.add_0_r, list_to_map_snoc.
  2:{ intros Hin. apply list_elem_of_fmap in Hin as ([i y] & Hi & Hy). apply elem_of_lookup_imap in Hy as (j & z & Hj & Hz).
    apply lookup_lt_Some in Hz. cbn in Hi. simplify_eq. lia. }
  destruct (decide (v = Z.of_nat (length l))) as [->|Hne].
  - rewrite lookup_insert_eq, decide_True, Nat2Z.id by lia. by rewrite lookup_app_r, Nat.sub_diag.
  - rewrite lookup_insert_ne, IH by done. case_decide; [|done]. f_equal. destruct (decide (Z.to_nat v < length l)%nat) as [Hlt|Hge]; [by rewrite lookup_app_l|].
    rewrite lookup_app_r by lia. rewrite (proj2 (lookup_ge_None l _)) by lia. destruct (Z.to_nat v - length l)%nat eqn:Hd; [lia|done].
Qed.

Lemma new_streams_lookup v : new_streams c cid !! v = new_stream c cid v <$> node_of v.
Proof.
  unfold new_streams. rewrite take_ge by (rewrite u16_small; unfold zsize in *; lia).
  pose proof (imap_map_lookup (λ i node, new_stream c cid (Z.of_nat i) node) (sc_active_nodes c) v) as Hl. cbn in Hl. rewrite Hl.
  unfold node_of. case_decide; [|done]. by rewrite Z2Nat.id.
Qed.

Lemma inv_begin : inv (begin_scan c cid).
Proof.
  unfold begin_scan. set (w0 := World _ _ _ _ _ _ _ _ _ _ _ _ _ _). set (P := dom (new_streams c cid)).
  assert (HP : ∀ v, v ∈ P ↔ is_Some (node_of v)) by (intros v; unfold P; by rewrite elem_of_dom, new_streams_lookup, fmap_is_Some).
  assert (Hcore : core w0 ∅ P ∅ []).
  { split_and!; cbn; [split|split|split|..]; cbn; try done.
    - intros v. rewrite new_streams_lookup. by destruct (node_of v).
    - intros v. rewrite <-HP. set_solver.
    - intros v s Hs _. rewrite new_streams_lookup in Hs. destruct (node_of v); [|done]. cbn in Hs. injection Hs as <-. by split.
    - intros id n Hn. assert (Hb : balanced_to (0 + zsize (sc_active_nodes c)) (balance 0 (sc_active_nodes c) ∅)).
      { apply balance_balanced; [done|done|]. intros id'. rewrite lookup_empty. intros x Hx. unfold node_of. case_decide; [lia|done]. }
      specialize (Hb id). rewrite Hn in Hb. destruct Hb as (Ha & Hnd & Hp). split_and!; [|done|].
      + assert (on id ∅ = ∅) as -> by (unfold on; set_solver). by rewrite Ha, size_empty.
      + intros v. rewrite Hp. unfold on. rewrite elem_of_filter, HP. split; [intros [_ Hv]; rewrite Hv; by split|]. intros [Hv _]. split; [|done].
        unfold node_of in Hv. case_decide; [|done]. apply lookup_lt_Some in Hv. unfold zsize. lia.
    - intros v id Hv. destruct (balance 0 (sc_active_nodes c) ∅ !! id) as [n|] eqn:Hn; [by eexists|]. exfalso.
      assert (Hb : balanced_to (0 + zsize (sc_active_nodes c)) (balance 0 (sc_active_nodes c) ∅)).
      { apply balance_balanced; [done|done|]. intros id'. rewrite lookup_empty. intros x Hx. unfold node_of. case_decide; [lia|done]. }
      specialize (Hb id). rewrite Hn in Hb. apply (Hb v); [|done]. unfold node_of in Hv. case_decide; [|done]. apply lookup_lt_Some in Hv. unfold zsize. lia.
    - constructor.
    - set_solver.
    - intros v s [Hv|Hv]; set_solver.
    - intros v s [Hv|Hv]; set_solver.
    - rewrite size_empty. lia.
    - set_solver. }
  unfold start_streams. change (w_cancelled w0) with false. cbv iota.
  destruct (core_start_loop (Z.to_nat (sc_concurrency c)) w0 ∅ P ∅ [] Hcore) as (A' & P' & Hc' & Hu & _ & Hr & Hp); [rewrite size_empty; lia|].
  apply (inv_of _ A' P' ∅); [|intros _; apply Hp; lia]. split_and!; [done| |set_solver|].
  - intros v. rewrite <-HP. rewrite <-Hu. set_solver.
  - eapply fifo_same; [exact Hr|]. split_and!; cbn.
    + constructor.
    + set_solver.
    + rewrite new_contents. set_solver.
    + by left.
    + intros _. split; [set_solver|]. exists []. rewrite new_contents. split_and!; [done|done| |intros _; apply new_is_open].
      intros v. fold P. rewrite HP. cbn. set_solver.
Qed.

Lemma inv_reachable w : reachable c cid w → inv w.
Proof.
  intros (_ & _ & l & Hl). pose proof inv_begin as Hi. revert Hi Hl. generalize (begin_scan c cid). induction l as [|e l IH]; intros w0 Hi Hl; cbn in Hl; [by simplify_eq|].
  destruct (step e w0) as [w1|] eqn:Hs; [|done]. cbn in Hl. eapply IH; [by eapply inv_step|done].
Qed.
End account.
