(* ===== verification/RangeScanTheorems.v ===== *)
(** * Range scans: theorems

    The account of the partitions in every state that a scan can reach, what
    the caller has when the scan is completed, that it does not get stuck, and
    where an error is lost; with a channel for the examples. *)

From S2P Require Import Prelude Protocol TransactionLinks RangeScanData RangeScan RangeScanProofs.

Section scans.
Context `{Channel, !ChannelLaws, Shuffle, !ShuffleLaws} (c : scan_settings) (cid : Z).

Lemma node_of_range v : is_Some (node_of c v) ↔ 0 ≤ v < zsize (sc_active_nodes c).
Proof.
  unfold node_of, zsize. case_decide; [|split; [by intros [? ?]|lia]]. rewrite lookup_lt_is_Some. lia.
Qed.

(** A stream that is started has not read anything. *)
Lemma start_is_fresh w v s :
  zsize (sc_active_nodes c) < 65536 → 0 < sc_concurrency c < 65536 → reachable c cid w →
  run_start v ∈ w_tasks w → w_all w !! v = Some s → resume_from s = create_options c cid v.
Proof.
  intros Hsize Hconc Hr Ht Hs. destruct (inv_reachable c cid Hsize Hconc w Hr) as (A & P & D & ((Hso & _ & Hta & _) & _) & _).
  destruct (ta_created _ _ _ _ _ Hta v s (or_introl Ht) Hs) as [_ Hkey]. pose proof (so_fits _ _ _ _ _ _ Hso v) as Hfit. rewrite Hs in Hfit.
  destruct Hfit as [_ <-]. unfold resume_from. rewrite Hkey. destruct (co_scan_type (str_create_options s)); done.
Qed.
End scans.

(** ** The errors that a scan passes over *)

Section quiet_errors.
Context `{Channel, Shuffle}.

(** The errors after which a stream ends like one that was read to its end:
    there is no document for it, or, in a sampling scan, one that leaves the
    sample smaller. *)
Definition passes (sampling : bool) (ec : error_code) : Prop :=
  ec = errc_key_value KeyValue.document_not_found ∨
  sampling = true ∧ ec ∈ [errc_common Common.unambiguous_timeout; errc_common Common.authentication_failure;
                          errc_common Common.collection_not_found; errc_common Common.request_canceled].

Definition sampling_settings (c : scan_settings) : bool :=
  match sc_scan_type c with a_sampling_scan _ => true | _ => false end.

Definition lenient_stream (w : world) (s : range_scan_stream) : Prop :=
  ∀ ec fatal, str_state s = failed ec fatal → if fatal then w_cancelled w = true else passes (is_sampling_scan s) ec.

(** The streams that failed, but for [but], are pardoned or cancelled the scan. *)
Definition lenient (but : option Z) (w : world) : Prop :=
  ∀ v s, w_all w !! v = Some s → but ≠ Some v → lenient_stream w s.

(** Steps that leave the states of the streams alone *)
Definition tame (w w' : world) : Prop :=
  (∀ v s', w_all w' !! v = Some s' → ∃ s, w_all w !! v = Some s ∧ str_state s' = str_state s ∧ is_sampling_scan s' = is_sampling_scan s) ∧
  (w_cancelled w = true → w_cancelled w' = true).

Lemma tame_same w w' : w_all w' = w_all w → w_cancelled w' = w_cancelled w → tame w w'.
Proof. intros Ha Hc. split; [|by rewrite Hc]. rewrite Ha. intros v s Hs. by exists s. Qed.

Lemma tame_trans w1 w2 w3 : tame w1 w2 → tame w2 w3 → tame w1 w3.
Proof.
  intros [H1 C1] [H2 C2]. split; [|auto]. intros v s3 Hs3. destruct (H2 v s3 Hs3) as (s2 & Hs2 & E2 & S2).
  destruct (H1 v s2 Hs2) as (s1 & Hs1 & E1 & S1). exists s1. split_and!; congruence.
Qed.

Global Instance tame_preorder : PreOrder tame.
Proof. split; [intros w; by apply tame_same|intros w1 w2 w3; apply tame_trans]. Qed.

Lemma lenient_tame but w w' : tame w w' → lenient but w → lenient but w'.
Proof.
  intros [Ht Hc] Hl v s' Hs' Hb ec fatal He. destruct (Ht v s' Hs') as (s & Hs & E & S). rewrite E in He.
  specialize (Hl v s Hs Hb ec fatal He). rewrite S. destruct fatal; auto.
Qed.

Lemma tame_upd_stream v f w :
  (∀ s, str_state (f s) = str_state s ∧ is_sampling_scan (f s) = is_sampling_scan s) → tame w (upd_stream v f w).
Proof.
  intros Hf. split; [|done]. intros x s'. unfold upd_stream. cbn [w_all]. destruct (decide (v = x)) as [<-|Hne].
  - rewrite lookup_alter_eq. intros (s & Hs & ->)%fmap_Some. exists s. split; [done|]. apply Hf.
  - rewrite lookup_alter_ne by done. intros Hs. by exists s'.
Qed.

Lemma tame_cancel w : tame w (cancel w).
Proof.
  split; [|done]. intros v s'. unfold cancel. cbn [w_all]. rewrite map_lookup_imap.
  intros (s & Hs & [= <-])%bind_Some. exists s. split; [done|]. by case_decide.
Qed.

Lemma tame_upd_node node f w : tame w (upd_node node f w).
Proof. unfold upd_node. destruct (w_balancer w !! node); by apply tame_same. Qed.

Lemma tame_start_stream w w' : start_stream w = Some w' → tame w w'.
Proof.
  unfold start_stream. destruct (select_vbucket _ _) as [[v b]|]; [|done]. intros [= <-]. case_decide; by apply tame_same.
Qed.

Lemma tame_start_streams n w : tame w (start_streams n w).
Proof.
  unfold start_streams. destruct (w_cancelled w); [done|]. generalize (Z.to_nat n) as k. intros k. revert w.
  induction k as [|k IH]; intros w; cbn [start_loop]; [done|]. destruct (start_stream w) as [w'|] eqn:Hs; [|done].
  etrans; [by apply tame_start_stream|apply IH].
Qed.

Lemma tame_leave_node v node w : tame w (leave_node v node w).
Proof. unfold leave_node. etrans; [apply tame_upd_node|]. by apply tame_same. Qed.

Lemma tame_send m w : tame w (send m w).
Proof. by apply tame_same. Qed.

Lemma tame_completed v node w : tame w (stream_completed v node w).
Proof. unfold stream_completed. etrans; [apply tame_leave_node|]. etrans; [apply tame_send|apply tame_start_streams]. Qed.

Lemma tame_awaiting v node w : tame w (stream_start_failed_awaiting_retry v node w).
Proof.
  unfold stream_start_failed_awaiting_retry. set (w1 := upd_node _ _ _).
  assert (H1 : tame w w1) by (etrans; [apply tame_leave_node|apply tame_upd_node]).
  case_decide; [|done]. etrans; [exact H1|apply tame_start_streams].
Qed.

(** A state that is set *)
Lemma lenient_set v st w :
  lenient None w → lenient (Some v) (upd_stream v (set_stream_state st) w).
Proof.
  intros Hl x s. unfold upd_stream. cbn [w_all]. intros Hs Hne. rewrite lookup_alter_ne in Hs by congruence.
  exact (Hl x s Hs ltac:(done)).
Qed.

Lemma lenient_all v w :
  lenient (Some v) w → (∀ s, w_all w !! v = Some s → lenient_stream w s) → lenient None w.
Proof.
  intros Hl Hv x s Hs _. destruct (decide (v = x)) as [<-|Hne]; [by apply Hv|]. apply (Hl x s Hs). congruence.
Qed.

Lemma lenient_end_stream v s ec fatal w :
  lenient None w → w_all w !! v = Some s → (fatal = false → passes (is_sampling_scan s) ec) → lenient None (end_stream v s ec fatal w).
Proof.
  intros Hl Hs Hp. unfold end_stream. set (w1 := upd_stream _ _ w). pose proof (lenient_set v (failed ec fatal) w Hl) as H1. fold w1 in H1.
  assert (Hw1 : w_all w1 !! v = Some (set_stream_state (failed ec fatal) s)).
  { unfold w1, upd_stream. cbn [w_all]. by rewrite lookup_alter_eq, Hs. }
  assert (Ht : tame w1 (stream_failed v (str_node_id s) ec fatal w1)).
  { unfold stream_failed. destruct fatal; [|apply tame_completed].
    etrans; [apply tame_leave_node|]. etrans; [apply tame_send|apply tame_cancel]. }
  apply (lenient_all v); [by eapply lenient_tame|]. intros s' Hs' ec' fatal' He.
  destruct Ht as [Ht _]. destruct (Ht v s' Hs') as (s1 & Hs1 & E & S). rewrite Hw1 in Hs1. injection Hs1 as <-.
  rewrite E in He. injection He as <- <-. rewrite S. destruct fatal; [done|]. by apply Hp.
Qed.

Lemma lenient_with_stream v f w :
  lenient None w → (∀ s, w_all w !! v = Some s → lenient None (f s w)) → lenient None (with_stream v f w).
Proof. intros Hl Hf. unfold with_stream. destruct (w_all w !! v) as [s|]; [by apply Hf|done]. Qed.

Lemma tame_resume v w : tame w (resume v w).
Proof.
  unfold resume, with_stream. destruct (w_all w !! v) as [s|]; [|done]. unfold stream_cancel.
  repeat case_match; by apply tame_same.
Qed.

Lemma sampling_resume_from s : is_sampling_scan (set_options (resume_from s) s) = is_sampling_scan s.
Proof.
  unfold is_sampling_scan, resume_from. cbn [str_create_options set_options].
  destruct (co_scan_type (str_create_options s)) eqn:E; try case_decide; cbn; by rewrite ?E.
Qed.

Lemma lenient_states v st w :
  lenient None w → (∀ ec fatal, st ≠ failed ec fatal) → lenient None (upd_stream v (set_stream_state st) w).
Proof.
  intros Hl Hst. apply (lenient_all v); [by apply lenient_set|]. intros s. unfold upd_stream. cbn [w_all]. rewrite lookup_alter_eq.
  intros (s0 & _ & ->)%fmap_Some ec fatal He. by destruct (Hst ec fatal).
Qed.

Lemma lenient_start v t accepted w : lenient None w → lenient None (stream_start v t accepted w).
Proof.
  intros Hl. apply lenient_with_stream; [done|]. intros s Hs. cbn zeta.
  assert (Hcreate : ∀ w, lenient None w → is_Some (w_all w !! v) →
    (∀ s0, w_all w !! v = Some s0 → str_create_options s0 = str_create_options s ∧ True) →
    lenient None (let w' := request (range_scan_create v (resume_from s)) (upd_stream v (set_options (resume_from s)) w) in
                  if accepted then post (creating v) w' else stick v w')).
  { intros w0 Hw0 _ Hopt. assert (Ht : tame w0 (upd_stream v (set_options (resume_from s)) w0)).
    { split; [|done]. intros x s'. unfold upd_stream. cbn [w_all]. destruct (decide (v = x)) as [<-|Hne]; [|rewrite lookup_alter_ne by done; eauto].
      rewrite lookup_alter_eq. intros (s0 & Hs0 & ->)%fmap_Some. exists s0. split_and!; [done..|]. destruct (Hopt s0 Hs0) as [E _].
      unfold is_sampling_scan, resume_from. cbn [str_create_options set_options]. rewrite E.
      destruct (co_scan_type (str_create_options s)) eqn:E'; try case_decide; cbn; by rewrite ?E'. }
    apply (lenient_tame _ w0); [|done]. etrans; [exact Ht|]. destruct accepted; by apply tame_same. }
  destruct (str_first_attempt_timestamp s) as [first|].
  - destruct (_ <? _); [|apply Hcreate; [done|by eexists|]; intros s0; rewrite Hs; by intros [= <-]].
    apply lenient_end_stream; [done..|]. intros Hf%negb_false_iff. right. split; [done|]. by left.
  - apply Hcreate; [|by unfold upd_stream; cbn [w_all]; rewrite lookup_alter_eq, Hs|].
    + apply (lenient_tame _ w); [by apply tame_upd_stream|done].
    + unfold upd_stream. cbn [w_all]. rewrite lookup_alter_eq, Hs. by intros s0 [= <-].
Qed.

Lemma lenient_created v answer w : lenient None w → lenient None (stream_created v answer w).
Proof.
  intros Hl. apply lenient_with_stream; [done|]. intros s Hs. destruct answer as [ec|uuid].
  - case_decide; [apply lenient_end_stream; [done..|]; by left|]. case_decide; [|by apply lenient_end_stream].
    eapply lenient_tame; [apply tame_awaiting|]. by apply lenient_states.
  - eapply lenient_tame; [apply tame_resume|]. by apply lenient_states.
Qed.

Lemma lenient_continued v res ec w : lenient None w → lenient None (stream_continued v res ec w).
Proof.
  intros Hl. unfold stream_continued. destruct ec as [ec|].
  - apply lenient_with_stream; [done|]. intros s Hs. destruct (is_failed s); [done|]. apply lenient_end_stream; [done..|].
    unfold fail_is_fatal. case_decide as Hec; [|done]. intros Hf%negb_false_iff.
    destruct Hec as [?|Hec]; [by left|]. right. split; [done|]. destruct Hec as [->|[->| ->]]; set_solver.
  - destruct (cr_complete res).
    + apply lenient_with_stream; [done|]. intros s Hs. destruct (_ || _); [done|]. apply lenient_states; [|done].
      eapply lenient_tame; [apply tame_completed|done].
    + destruct (cr_more res); (eapply lenient_tame; [|exact Hl]); [apply tame_resume|by apply tame_same].
Qed.

Lemma tame_next_item h w : tame w (next_item h w).
Proof. unfold next_item. case_match; by apply tame_same. Qed.

Lemma lenient_step e w w' : step e w = Some w' → lenient None w → lenient None w'.
Proof.
  assert (Htask : ∀ t f, take_task t f w = Some w' → (∀ w, lenient None w → lenient None (f w)) → lenient None w → lenient None w').
  { intros t f Ht Hf Hl. unfold take_task in Ht. destruct (list_find _ _) as [[i x]|]; [|done]. injection Ht as <-.
    apply Hf. by apply (lenient_tame _ w); [apply tame_same|]. }
  intros Hs Hl. destruct e as [v t acc|v ans|v acc|v i|v res ec|v uuid|h| |h|]; cbn [step] in Hs;
    try (eapply Htask; [exact Hs| |exact Hl]; clear Htask; intros w0 Hw0).
  - by apply lenient_start.
  - by apply lenient_created.
  - apply lenient_with_stream; [done|]. intros s _. apply (lenient_tame _ w0); [|done]. cbn zeta. case_match; by apply tame_same.
  - case_decide; [|done]. injection Hs as <-. apply lenient_with_stream; [done|]. intros s _.
    case_match; [done|]. apply (lenient_tame _ w); [|done]. etrans; [|apply tame_send]. by apply tame_upd_stream.
  - by apply lenient_continued.
  - by apply (lenient_tame _ w0); [apply tame_same|].
  - by apply (lenient_tame _ w0); [apply tame_next_item|].
  - destruct (deliver _) as [[[h m] ch]|]; [|done]. injection Hs as <-. apply (lenient_tame _ w); [|done].
    unfold received. repeat case_match; by apply tame_same.
  - injection Hs as <-. apply (lenient_tame _ w); [|done]. unfold next. case_decide; [|etrans; [|apply tame_next_item]; by apply tame_same].
    etrans; [|apply tame_cancel]. by apply tame_same.
  - injection Hs as <-. by apply (lenient_tame _ w); [apply tame_cancel|].
Qed.

Lemma lenient_reachable c cid w : reachable c cid w → lenient None w.
Proof.
  intros (_ & _ & l & Hrun). assert (Hbegin : lenient None (begin_scan c cid)).
  { unfold begin_scan. eapply lenient_tame; [apply tame_start_streams|]. intros v s Hs _ ec fatal He. cbn [w_all] in Hs.
    unfold new_streams in Hs. apply elem_of_list_to_map_2 in Hs. apply elem_of_lookup_imap in Hs as (i & node & [= -> ->] & _).
    done. }
  revert Hrun Hbegin. generalize (begin_scan c cid) as w0. induction l as [|e l IH]; intros w0; cbn [run]; [by intros [= <-]|].
  destruct (step e w0) as [w1|] eqn:Hs; [|done]. cbn. intros Hrun Hbegin. apply (IH w1 Hrun). by eapply lenient_step.
Qed.
End quiet_errors.

(** C18: In every state that a scan reaches, each partition is read, waits for
    its node or has ended, and only one of these.  The streams that are counted
    are those that read, and they are never more than the concurrency; the
    count of a node is that of its partitions that are read, and its queue
    holds those that wait; at most one task or call is under way for a
    partition, and none for one that is not read.  No exception leaves a
    handler. *)
Theorem scan_accounting `{Channel, !ChannelLaws, Shuffle, !ShuffleLaws} c cid w :
  zsize (sc_active_nodes c) < 65536 → 0 < sc_concurrency c < 65536 → reachable c cid w →
  ∃ A P D : gset Z,
    (∀ v, 0 ≤ v < zsize (sc_active_nodes c) ↔ v ∈ A ∪ P ∪ D) ∧ A ## P ∧ D ## A ∪ P ∧
    w_active_stream_count w = Z.of_nat (size A) ∧ w_active_stream_count w ≤ sc_concurrency c ∧
    (∀ id n, w_balancer w !! id = Some n → ns_active_stream_count n = Z.of_nat (size (on c id A)) ∧
       NoDup (ns_pending_vbuckets n) ∧ ∀ v, v ∈ ns_pending_vbuckets n ↔ v ∈ on c id P) ∧
    NoDup (live (w_tasks w)) ∧ (∀ v, v ∈ live (w_tasks w) → v ∈ A) ∧
    (∀ v s, w_all w !! v = Some s → v ∈ D ↔ is_failed s = true ∨ is_completed s = true) ∧
    (w_cancelled w = false → A = ∅ → P = ∅) ∧ w_fault w = false.
Proof.
  intros Hsize Hconc Hr. destruct (inv_reachable c cid Hsize Hconc w Hr) as (A & P & D & (Hc & Hcover & HD & Hf) & Hp).
  destruct Hc as (Hso & Hb & Hta & Hcount & Hle & Hdis & _ & Hfault). exists A, P, D.
  assert (Hcover' : ∀ v, 0 ≤ v < zsize (sc_active_nodes c) ↔ v ∈ A ∪ P ∪ D) by (intros v; by rewrite <-node_of_range, Hcover).
  split_and!; [done..|lia|apply Hb|apply Hta|apply Hta| |done|done].
  intros v s Hs. split; [by apply (so_ended _ _ _ _ _ _ Hso)|]. intros He. pose proof (so_fits _ _ _ _ _ _ Hso v) as Hfit. rewrite Hs in Hfit.
  assert (Hin : v ∈ A ∪ P ∪ D) by (apply Hcover; destruct Hfit as [-> _]; by eexists).
  apply elem_of_union in Hin as [[Hin|Hin]%elem_of_union|Hin]; [| |done]; exfalso.
  - destruct (so_active _ _ _ _ _ _ Hso v s Hs Hin) as [[Hst _]|Hst]; unfold is_failed, is_completed, is_running in *; destruct (str_state s); naive_solver.
  - destruct (so_pending _ _ _ _ _ _ Hso v s Hs Hin) as [Hst _]. unfold is_failed, is_completed in *. rewrite Hst in He. naive_solver.
Qed.

(** C17: When a call of [next] is answered with the end of a scan that was not
    cancelled, be it at once or behind the message of the last stream, then the
    item limit is used up, or the scan is over: every partition has been read
    to its end, except that a stream may have ended early with the answer that
    there is no document and, in a sampling scan, with a timeout of its
    creation, a refused authentication, a missing collection or a cancelled
    request; no other error was met, and the handlers have got every item that
    the streams received, once and in order. *)
Theorem scan_complete `{Channel, !ChannelLaws, Shuffle, !ShuffleLaws} c cid w w' h :
  zsize (sc_active_nodes c) < 65536 → 0 < sc_concurrency c < 65536 → reachable c cid w → w_cancelled w = false →
  w' = next h w ∨ w' = next_item h w → w_calls w' = w_calls w ++ [(h, scan_completed)] →
  w' = next h w ∧ w_item_limit w = 0 ∨
  (∀ v, 0 ≤ v < zsize (sc_active_nodes c) → end_signal v None ∈ w_sent w ∧
     ∃ s, w_all w !! v = Some s ∧
       (str_state s = completed ∨ ∃ ec, str_state s = failed ec false ∧ passes (sampling_settings c) ec)) ∧
  (∀ v ec, end_signal v (Some ec) ∉ w_sent w) ∧
  omap got_of (w_calls w) = omap item_of (w_sent w).
Proof.
  intros Hsize Hconc Hr Hca Hw Hcalls.
  assert (Hor : w' = next h w ∧ w_item_limit w = 0 ∨ w_calls (next_item h w) = w_calls w ++ [(h, scan_completed)]).
  { destruct Hw as [->| ->]; [|by right]. unfold next in *. case_decide; [by left|right]. rewrite <-Hcalls.
    unfold next_item. cbn [w_streams w_cancelled set_limit]. by case_match. }
  destruct Hor as [Hor|Hend]; [by left|right]. clear Hw Hcalls.
  destruct (inv_reachable c cid Hsize Hconc w Hr) as (A & P & D & ((Hso & _) & Hcover & _ & Hf) & _).
  assert (Hst : w_streams w = ∅).
  { unfold next_item in Hend. rewrite Hca, orb_false_r in Hend. case_bool_decide; [done|]. cbn in Hend.
    apply (f_equal length) in Hend. rewrite length_app in Hend. cbn in Hend. lia. }
  assert (HD : ∀ v, v ∈ D → is_Some (node_of c v)) by (intros v Hv; apply Hcover; set_solver).
  assert (Hnil : contents (w_items w) = []) by (eapply fifo_done; eassumption). destruct Hf as (_ & Hs & _ & _ & Hu).
  destruct (Hu Hca) as (Hno & delivered & Hsent & Hitems & Hstr & _). rewrite Hnil, app_nil_r in Hsent. subst delivered. split_and!; [|done|done].
  intros v Hv. apply node_of_range in Hv. destruct (decide (v ∈ omap ended_of (w_sent w))) as [Hin|Hn].
  - split; [apply list_elem_of_omap in Hin as ([i|v' e] & Hm & He); [done|]; injection He as ->; destruct e as [ec|]; [by apply Hno in Hm|done]|].
    pose proof (so_fits _ _ _ _ _ _ Hso v) as Hfit. destruct (w_all w !! v) as [s|] eqn:Hall; [|by destruct Hv; congruence].
    exists s. split; [done|]. apply Hs in Hin. destruct Hfit as [_ Hopt].
    destruct (so_ended _ _ _ _ _ _ Hso v s Hall Hin) as [He|He]; unfold is_failed, is_completed in He; destruct (str_state s) as [|ec fatal| |] eqn:Hss; try done; [right|by left].
    pose proof (lenient_reachable c cid w Hr v s Hall ltac:(done) ec fatal Hss) as Hl. destruct fatal; [congruence|].
    exists ec. split; [done|]. revert Hl. unfold is_sampling_scan. by rewrite Hopt.
  - exfalso. assert (v ∈ w_streams w) by (apply Hstr; split; done). set_solver.
Qed.

(** C28: A scan that has not been cancelled does not get stuck: while a partition has not ended for the
    caller and the agent has not refused a call, the channel holds something,
    or a task is posted or a call of the agent will be answered. *)
Theorem scan_progress `{Channel, !ChannelLaws, Shuffle, !ShuffleLaws} c cid w :
  zsize (sc_active_nodes c) < 65536 → 0 < sc_concurrency c < 65536 → reachable c cid w → w_cancelled w = false →
  w_streams w ≠ ∅ → w_stuck w = ∅ → contents (w_items w) ≠ [] ∨ ∃ t, t ∈ w_tasks w ∧ is_Some (live_of t).
Proof.
  intros Hsize Hconc Hr Hca Hne Hstuck. destruct (inv_reachable c cid Hsize Hconc w Hr) as (A & P & D & ((_ & _ & Hta & _) & Hcover & _ & Hf) & Hp).
  destruct Hf as (_ & Hs & _ & _ & Hu). destruct (Hu Hca) as (_ & delivered & Hsent & _ & Hstr & _).
  apply set_choose_L in Hne as [v Hv]. apply Hstr in Hv as [Hv Hnd].
  assert (Hactive : A ≠ ∅ → ∃ t, t ∈ w_tasks w ∧ is_Some (live_of t)).
  { intros [x Hx]%set_choose_L. destruct (ta_live _ _ _ _ _ Hta x Hx) as [Hl|Hl]; [|set_solver]. cbn in Hl.
    apply list_elem_of_omap in Hl as (t & Ht & Hx'). exists t. split; [done|by eexists]. }
  destruct (decide (A = ∅)) as [HA|HA]; [|by right; apply Hactive]. left. specialize (Hp Hca HA). subst A P.
  assert (HvD : v ∈ D) by (apply Hcover in Hv; set_solver). apply Hs in HvD. rewrite Hsent, omap_app in HvD.
  apply elem_of_app in HvD as [HvD|HvD]; [done|]. intros Hnil. rewrite Hnil in HvD. cbn in HvD. set_solver.
Qed.

(** ** Examples *)

(** A channel that keeps its messages and its receivers in lists *)
Record list_channel := ListChannel { lc_open : bool; lc_messages : list message; lc_waiting : list nat; lc_failed : list nat }.

#[local] Instance example_channel : Channel := {|
  channel := list_channel;
  new_channel := ListChannel true [] [] [];
  async_send m l := if lc_open l then ListChannel true (lc_messages l ++ [m]) (lc_waiting l) (lc_failed l) else l;
  async_receive h l := if lc_open l then ListChannel true (lc_messages l) (lc_waiting l ++ [h]) (lc_failed l)
                       else ListChannel false (lc_messages l) (lc_waiting l) (lc_failed l ++ [h]);
  channel_cancel l := ListChannel (lc_open l) [] [] (lc_failed l ++ lc_waiting l);
  channel_close l := ListChannel false (lc_messages l) [] (lc_failed l ++ lc_waiting l);
  deliver l :=
    match lc_waiting l, lc_messages l, lc_failed l with
    | h :: hs, m :: ms, _ => Some (h, Some m, ListChannel (lc_open l) ms hs (lc_failed l))
    | _, _, h :: hs => if lc_open l then None else Some (h, None, ListChannel (lc_open l) (lc_messages l) (lc_waiting l) hs)
    | _, _, [] => None
    end;
|}.

#[local] Instance example_channel_laws : ChannelLaws.
Proof.
  refine {| is_open l := lc_open l = true; contents := lc_messages; waiting := lc_waiting |}; try done; cbn.
  - intros m l ->. done.
  - intros h l ->. done.
  - intros l Hl. destruct (lc_waiting l) as [|h hs], (lc_messages l) as [|m ms], (lc_failed l) as [|f fs]; rewrite ?Hl; auto.
  - intros m l. destruct (lc_open l); [done|]. by apply sublist_inserts_r.
  - intros h l. by destruct (lc_open l).
  - intros l. apply sublist_nil_l.
  - intros l h r l' Hd. destruct (lc_waiting l) as [|w ws], (lc_messages l) as [|m ms], (lc_failed l) as [|f fs], (lc_open l); by simplify_eq.
Defined.

#[local] Instance example_shuffle : Shuffle := {| shuffle _ l := l |}.
#[local] Instance example_shuffle_laws : ShuffleLaws.
Proof. by intros n l. Defined.

(** Two partitions on one node, one stream at a time *)
Definition example_settings : scan_settings := ScanSettings [7; 7] [115] [99] (a_prefix_scan [97]) true None 1 75000.
Definition example_uuid : bytes := replicate 16 1.
Definition read_one (v : Z) (key : bytes) : list event :=
  [ev_start v 0 true; ev_created v (inr example_uuid); ev_continue v true; ev_item v (Item key None);
   ev_continued v (ContinueResult false true true) None].
Definition example_events : list event :=
  read_one 0 [97; 1] ++ read_one 1 [97; 2] ++
  [ev_next 1; ev_deliver; ev_next 2; ev_deliver; ev_run_next 2; ev_deliver; ev_next 3; ev_deliver].
Definition example_world : world := default (begin_scan example_settings 8) (run example_events (begin_scan example_settings 8)).

Lemma example_reachable : reachable example_settings 8 example_world.
Proof. split_and!; [by vm_compute..|]. exists example_events. by vm_compute. Qed.

Lemma scan_complete_witness :
  (∀ v, 0 ≤ v < 2 → end_signal v None ∈ w_sent example_world ∧
     ∃ s, w_all example_world !! v = Some s ∧
       (str_state s = completed ∨ ∃ ec, str_state s = failed ec false ∧ passes false ec)) ∧
  (∀ v ec, end_signal v (Some ec) ∉ w_sent example_world) ∧
  omap got_of (w_calls example_world) = omap item_of (w_sent example_world) ∧
  omap got_of (w_calls example_world) = [Item [97; 1] None; Item [97; 2] None].
Proof.
  destruct (scan_complete example_settings 8 example_world (next 3 example_world) 3) as [[_ H]|(H1 & H2 & H3)];
    [by vm_compute|by vm_compute|apply example_reachable|by vm_compute|by left|by vm_compute|by vm_compute in H|].
  split_and!; [exact H1|exact H2|exact H3|by vm_compute].
Defined.

Definition example_middle : world :=
  default (begin_scan example_settings 8) (run (read_one 0 [97; 1]) (begin_scan example_settings 8)).
Lemma example_middle_reachable : reachable example_settings 8 example_middle.
Proof. split_and!; [by vm_compute..|]. exists (read_one 0 [97; 1]). by vm_compute. Qed.

Lemma scan_accounting_witness :
  ∃ A P D : gset Z, (∀ v, 0 ≤ v < 2 ↔ v ∈ A ∪ P ∪ D) ∧ A ## P ∧ D ## A ∪ P ∧
    w_active_stream_count example_middle = Z.of_nat (size A) ∧ w_active_stream_count example_middle ≤ 1.
Proof.
  destruct (scan_accounting example_settings 8 example_middle) as (A & P & D & H1 & H2 & H3 & H4 & H5 & _);
    [by vm_compute|by vm_compute|apply example_middle_reachable|].
  exists A, P, D. split_and!; [exact H1|exact H2|exact H3|exact H4|exact H5].
Defined.

Lemma scan_progress_witness : contents (w_items example_middle) ≠ [] ∨ ∃ t, t ∈ w_tasks example_middle ∧ is_Some (live_of t).
Proof.
  apply (scan_progress example_settings 8 example_middle); [by vm_compute|by vm_compute|apply example_middle_reachable|by vm_compute| |by vm_compute].
  intros He. apply (f_equal (λ s, bool_decide (1 ∈ s))) in He. by vm_compute in He.
Defined.

(** An error that ends the scan while no call of [next] waits: the calls that
    follow are told that the scan is completed, and neither the error nor the
    items that were received reach the caller. *)
Definition failing_events : list event :=
  [ev_start 0 0 true; ev_created 0 (inr example_uuid); ev_continue 0 true; ev_item 0 (Item [97; 1] None);
   ev_continued 0 (ContinueResult false false false) (Some (errc_common Common.temporary_failure)); ev_next 1].
Example fatal_error_lost :
  match run failing_events (begin_scan example_settings 8) with
  | Some w => w_calls w = [(1%nat, scan_completed)] ∧ item_message (Item [97; 1] None) ∈ w_sent w ∧
      end_signal 0 (Some (errc_common Common.temporary_failure)) ∈ w_sent w
  | None => False
  end.
Proof. vm_compute. split_and!; [done|by left|right; by left]. Qed.
